(* ===== verification/_CoqProject ===== *)
-Q . S2P
Prelude.v
PrefixMap.v
Json.v
EntityValue.v
Expr.v
Ident.v
Filter.v
Types.v
Builtin.v
TypeSystem.v
Policies.v
Auth.v
Http.v
Query.v
Sql.v
Engine.v
Crud.v
QuerySpec.v
SqlSpec.v
CrudSpec.v
EngineSpec.v
JsValue.v
PolicyRules.v
RulesSpec.v
PolicyEngine.v
PolicyEngineSpec.v
PolicyProcess.v
PolicyProcessSpec.v
ControlFlow.v
ControlFlowSpec.v
Meta.v
MetaSpec.v
MetaLoadSpec.v
MetaStoreSpec.v
ReloadSpec.v
Apply.v
SortSpec.v
ApplySample.v
ApplySpec.v
ApplyStoreSpec.v
Rpc.v
RpcSpec.v
Rewriter.v
RewriterSpec.v
Migrate.v
MigrateSpec.v
MigrateErrorSpec.v
Models.v
ModelsSpec.v
ModelsServerSpec.v
Generate.v
GenerateSpec.v
RoutingSpec.v
Project.v
ProjectSpec.v
CliApply.v
CliApplySpec.v
V8Value.v
Ops.v
OpsSpec.v
WorkerSpec.v
TransactionSpec.v
ProgressSpec.v
JobsSpec.v
WorkerSample.v
Outbox.v
OutboxSpec.v
Secrets.v
WorkerState.v
Tsc.v
TscSpec.v
Cli.v
CliSpec.v
