(* ===== verification/Prelude.v ===== *)
(** * The ChiselStrike backend, verified

    ChiselStrike turns TypeScript classes into a backend: [chiselc] compiles the
    TypeScript, and the server stores the entities in an SQL database, answers
    CRUD requests and runs the user's endpoints in JavaScript workers.  This
    library models the Rust code of the compiler, the command line interface and
    the server that decides what is stored, read, shown, refused and routed, and
    proves it correct.

    ** How the program fits together

    A request enters through the HTTP server ([Http]), which normalizes the path,
    picks the version, authenticates and authorizes the request ([Auth], with the
    policies of [Policies]) and hands a job to a worker.  The worker's calls come
    back as CRUD operations ([Crud]) or operator chains, which become query plans
    ([Query]) and then SQL ([Sql]); rows become entity values, and objects become
    insertions ([Engine]).  What a user may see is decided in three places: the
    login filters and read filters of the plan, the field policies of the labels,
    and the TypeScript policies.  The last are analysed by the compiler
    ([PolicyRules]), turned into filters ([PolicyEngine]) and run on every entity
    that is read or written ([PolicyProcess]).  Types come from [Types], [Builtin]
    and [TypeSystem], which also computes the change from one version to the next.

    The other way in is the control plane ([Rpc]): a version of the application is
    applied ([Apply]), which plans the change of its types, writes it to the
    metadata ([Meta]) and then to the tables of the data, and starts the version;
    a server that starts reads all of it back, after migrating it ([Migrate]).
    What is applied is a request of the command line interface ([CliApply]): the
    types of the models ([Models]), the modules that the route files of the project
    ([Project]) are built to, with their queries rewritten by the compiler
    ([Rewriter]), and the properties those queries filter by.  The interface also
    generates clients of a running version ([Generate]) and creates, watches and
    builds projects ([Cli], with the compiler of [Tsc]).

    A worker takes jobs in its turn, imports modules and calls the server
    ([WorkerState], [Ops]); events it stores are sent on ([Outbox]), and secrets are
    read for it ([Secrets]).

    ** Files and sources

    [Prelude]           outcomes and the error monad, strings, ordered maps,
                        floats, machine integers, automation
    [PrefixMap]         server/src/prefix_map.rs
    [Json]              the values of serde_json
    [EntityValue]       server/src/datastore/value.rs
    [Expr], [Filter]    server/src/datastore/expr.rs, filter.rs; [Expr.Sem] is the
                        meaning of expressions on rows, with SQL's three truth
                        values
    [Ident]             identifiers of query.rs, version names of rpc.rs
    [Types]             server/src/types/mod.rs
    [Builtin]           server/src/types/builtin.rs, names of authorization.rs and
                        outbox.rs
    [TypeSystem]        server/src/types/type_system.rs
    [Policies]          server/src/policies.rs
    [Auth]              server/src/error.rs, authentication.rs, authorization.rs
    [Http]              server/src/http.rs
    [Query], [Sql]      server/src/datastore/query.rs: plans, and their SQL
    [Engine]            server/src/datastore/engine.rs
    [Crud]              server/src/datastore/crud.rs
    [JsValue]           server/src/policy/utils.rs
    [PolicyRules]       chiselc/src/policies.rs, with the data of
                        tools/analysis/region.rs
    [PolicyEngine]      server/src/policy/engine.rs, interpreter.rs,
                        type_policy.rs, store.rs
    [PolicyProcess]     server/src/policy/mod.rs, instances.rs
    [ControlFlow]       chiselc/src/tools/analysis/control_flow.rs, region.rs,
                        functions.rs, and the reading of policy files in
                        policies.rs
    [Meta]              server/src/datastore/meta/mod.rs, schema.rs: the metadata
                        tables with their keys, and the operations on them
    [Apply]             server/src/apply.rs, with the messages of
                        proto/chisel.proto
    [Rpc]               server/src/rpc.rs, server.rs, trunk.rs, version.rs, and
                        populate_types of type_system.rs
    [Rewriter]          chiselc/src/rewrite.rs, query.rs, filtering.rs,
                        symbols.rs, utils.rs and transforms/
    [Migrate]           server/src/datastore/meta/migrate.rs, migrate_to_2.rs,
                        and the migrations of mod.rs
    [Models]            cli/src/ts.rs
    [Generate]          cli/src/cmd/generate.rs
    [Project]           cli/src/project.rs, routes.rs, events.rs, codegen.rs,
                        cmd/apply/common.rs, and the retries of server.rs
    [CliApply]          cli/src/cmd/apply.rs, cmd/apply/deno.rs, and the program
                        [chiselc] (chiselc/src/main.rs, parse.rs)
    [V8Value]           server/src/datastore/value.rs: entity values in JavaScript
    [Ops]               server/src/ops/datastore.rs, job.rs, job_context.rs: the
                        calls of JavaScript, as tasks and steps of a worker
    [WorkerSample]      a worker at work: the states the theorems are applied to
    [Outbox]            server/src/ops/kafka.rs, the jobs of kafka.rs, and how
                        version.rs gives jobs to workers
    [Secrets]           server/src/secrets.rs, and their refresh in server.rs
    [WorkerState]       server/src/ops/mod.rs, env.rs, type_system.rs,
                        module_loader.rs, internal.rs, and the error classes of
                        worker.rs
    [Tsc]               tsc_compile/src/lib.rs, endpoint_tsc/src/lib.rs
    [Cli]               cli/src/main.rs, cmd/dev.rs, cmd/apply/node.rs, and the
                        creation of projects in project.rs

    [QuerySpec], [SqlSpec], [CrudSpec], [EngineSpec], [RulesSpec],
    [PolicyEngineSpec], [PolicyProcessSpec], [ControlFlowSpec], [MetaSpec], [MetaLoadSpec], [MetaStoreSpec],
    [ReloadSpec], [SortSpec], [ApplySpec], [ApplyStoreSpec], [RpcSpec],
    [RewriterSpec], [MigrateSpec], [MigrateErrorSpec], [ModelsSpec],
    [ModelsServerSpec], [GenerateSpec], [RoutingSpec], [ProjectSpec],
    [CliApplySpec], [OpsSpec], [WorkerSpec], [TransactionSpec], [ProgressSpec],
    [JobsSpec], [OutboxSpec], [TscSpec] and [CliSpec] hold the reference definitions and the theorems of
    the components they are named after; the theorems of the others stand at the
    end of their own file.

    A struct is a [Record] with the source's fields, an enum an inductive type
    with its variants, a function a [Definition] or [Fixpoint] of its name.  A
    function that can fail returns a [result]: [Ok], [Err] or [Panic], where a
    panic is what [unwrap], [assert!], an index out of range, [todo!] and
    [unreachable!] do.  State is passed explicitly, except in [PolicyProcess],
    which has a state monad for the entity on its way through its policies, and in
    [Ops], where a call under way is a task of which a step runs one part.

    ** What the theorems show

    - Policies hold.  The login filters and read filters of the types a query
      touches guard its plan and every deletion ([policies_guard_plans]); the
      filter made from a read policy keeps exactly the rows its function would
      not skip, where SQL and JavaScript agree on its tests ([read_filter_spec], on top of [inferred_actions_spec] for the
      compiler's analysis and [simplify_spec] for the minimization); no entity is
      delivered or written past a policy that refuses it, and what is written is
      what its policies were asked about and left ([policies_enforced]),
      and none a policy transformed is written back ([transformed_never_updated]);
      results show only what the field policies let through ([results_masked],
      [make_field_policies_spec]).
    - Requests are authorized ([handle_request_authorized], [user_is_allowed_spec],
      [secret_is_allowed_spec]), refused as documented ([handle_request_refused])
      and authenticated on every branch ([authenticate_spec]).
    - Queries mean what they say.  The SQL text of a plan is that of statements
      of a reference SQL that do what the chain of operators does
      ([build_query_refines]); filters, cursors, page links and
      deletions have the meaning of their text ([to_expr_meaning],
      [cursor_filter_spec], [page_link_spec], [url_filter_spec],
      [delete_from_url_spec]); columns are the right ones ([plan_columns_correct]).
    - Data is stored right ([insertion_spec], [alter_table_spec],
      [validate_array_spec]) and types change as computed
      ([generate_type_delta_correct], [generate_type_delta_safe]), in the metadata
      too ([evolution_stored]), where a default that is given up stays
      ([given_up_default_stays]).
    - Nothing panics or loops where it should not ([from_op_chain_total],
      [build_query_no_panic], [to_expr_safe], [stream_delivers]), and bounds hold
      ([truncate_identifier_spec]).
    - Metadata keep what they are given.  The store refines a set of types
      ([store_refines]) and is read back ([load_type_systems_spec]).  Applying a
      version stores the types of the request ([apply_stores]) in an order that
      exists when it can ([sort_custom_types_spec]), loses no rows unasked
      ([apply_drops_only]) and keeps memory and metadata together
      ([apply_reflects]); a version that was applied survives a restart
      ([apply_survives_restart], with [start_spec]), and whatever runs can be
      read from the metadata ([server_invariant]).
    - The compiler reads policy functions right: every body it accepts has a
      region tree with the meaning of the body ([parse_arrow_spec]), and the
      filter of a policy's source keeps what the source allows
      ([policy_source_spec]).  A filter call it rewrites keeps its meaning
      ([rewritten_filter_spec]), except that entities without a property are
      lost to inequalities ([inequality_loses_nulls]); the rest of a module is
      left alone ([rewrite_changes_calls]) and the properties filtered by are
      recorded ([recorded_properties_spec]).
    - Deleting a version is not undone: [deleted_version_stops_start],
      [reapply_after_delete_fails]; nor do all stores load:
      [one_retry_not_enough].
    - Migrations keep the content of the metadata, whatever version wrote it
      ([migrate_schema_spec], with the modules of [migrate_sources_spec]), end
      and are all or nothing ([migrate_schema_ends], [split_migration_spec]);
      some Postgres databases cannot be migrated ([array_buffers_not_migrated],
      [dropped_sessions_not_migrated]).
    - What a project declares is what the server gets.  Models are parsed to the
      declared types ([parse_types_spec]), which the server makes
      ([models_planned], with the defaults of [default_stored]); the routes are the
      files of the project ([build_file_route_map_spec]); the modules and the
      candidates for indexes are those of the compiled modules
      ([deno_apply_spec]); and, for a
      version without types yet, the request that is made of all this is planned
      unless one of four things is wrong with it ([cli_request_planned]).
    - Generated clients describe the version they are generated from
      ([generate_reflection_spec]) and call its routes ([generated_client_spec]);
      there are none when a model refers to a user ([auth_fields_not_generated]).
    - Endpoints may call in any order.  A worker is a heap with calls under way,
      resumed in any order with any answers; its references never dangle and a lock
      has one owner (the invariant of [OpsSpec]).  It refines a store of
      transactions ([worker_refines_transactions]), commits each once and for good
      ([committed_for_good]), loses the transaction of a refused commit
      ([commit_transaction_spec], [rollback_never_commits]), brings every call to
      its end in whatever order calls are answered ([ops_progress]), unless a query
      stream was left open ([open_stream_starves]), takes every job in its order ([jobs_in_order]) and
      answers at most once ([responses_once]).  Values survive the way through
      JavaScript ([v8_roundtrip]).
    - Around the data: events of the outbox reach Kafka at least once and in order,
      whatever fails and however the database keeps them ([outbox_at_least_once]), and workers take turns
      ([distribute_turns]); secrets are what was encrypted ([secrets_roundtrip]) and
      are not lost when they cannot be read ([refresh_keeps_secrets]); imports run
      known code only ([imports_run_known_code]), and endpoints see the entities the
      server has ([api_sees_entities]).
    - Compilations give back what was compiled, of modules that are not called alike
      ([compile_urls_spec]), under names
      joined as paths are ([join_path_spec]); projects are created once
      ([create_project_spec]), watched ([dev_event_spec]), and built to the same
      modules whatever the timing of the compilers ([node_apply_timing]).

    Some theorems state what the code does where that is not what it means to
    do; the findings of the manifest name them.

    ** Fuel and bounds

    Recursion that is not structural has fuel, and a theorem that the fuel is
    enough: [lookup_builtin_type] takes the length of the name, of which every
    step removes a part; [load_entity] any number above the rank of the type in an
    acyclic model ([from_op_chain_total]); [raw_query_loop] the number of
    operators; [prepare_insertion] the depth of the value; [get_value] the number
    of variables, each a member of an earlier one; the parsing of a policy
    function any number from some bound on ([parse_arrow_spec]); [make_entity_type_obj]
    more than the number of entities ([generate_reflection_spec]); [trim_fuel] the
    length of the text; [with_retry] the number of attempts, of which 18 are enough
    ([with_retry_spec]).  The [u8] numbering of
    predicates is modelled with its wrap-around, and [simplify_spec] asks for
    fewer than 256.  Casts to [i32] wrap ([as_i32]), identifiers are cut at 63
    bytes, filters nest at most 100 deep.

    ** Parameters

    Libraries are classes or arguments, with their documented behaviour as laws
    where a theorem relies on it: the regex engine, YAML, HTTP methods and header
    values, JWT, base64, JSON text and url-encoding (a round trip is asked only
    for the text at hand: JSON floats need not survive printing), quoting of SQL
    data, decimal text of floats, random identifiers (a function of the place of
    the object), rows of the database, the minimization of boolean expressions
    (its first result is equivalent and over the same terms), the printer of
    JavaScript functions, swc's parser, the
    dominators of a graph, topological sorting ([GraphLaws]), the order in which
    rows and the entries of a [HashMap] come ([RowOrderLaws]), the JSON text of the
    policy sources and of what the compiler records ([JsonTextLaws]), and whether the workers of a version become ready, which
    texts Postgres casts to JSON, the files of a
    project ([Fs]), the builds and printers, the text of floats ([FloatTextLaws]), and the transport of numbers between the runtime and the server ([WireLaws]), and the boa engine: [Boa] has its operators and
    [BoaLaws] what ECMAScript says of them on scalars, [JsCalls] its calls, which
    may change their arguments and the engine in any way.

    A [HashMap] whose order shows is an association list in one fixed order, and
    otherwise a [gmap].  Error messages keep their fixed text; interpolated values
    are kept where another part of the program reads them.  A JavaScript object is
    the tree of what can be read from it.  The meaning of a query assumes, as the
    source does, that the database keeps the order of an ordered subselect.

    ** Not modelled

    - Input and output: sockets, the database driver and the client of Kafka (what
      they answer comes with the steps of [Ops] and the polls of [Outbox]), the
      threads of workers and the sockets of the RPC server: they move the values
      modelled here.
    - V8 handles: [V8Value] has the values they stand for.
    - The TypeScript compiler (what it asks for and writes is a [TscRun]), the
      tests, and of the command line interface the parser of the options and the
      programs it runs.
    - The syntax trees of swc are third-party data: the files of the compiler
      model the part of them their code inspects.
    - [chiselc]'s data-dependence graphs (d_ir.rs) are not used by the program.
    - Signals and options: they run before or beside what is modelled, as do the
      set of running tasks (nursery.rs) and the start of the runtimes.
    - Build scripts, and the tables of files they include (api, deno_std, packages).

    ** Plan

    Modelled first: what guards data (queries, policies, requests), then what
    stores it, then the compiler's analysis, then the calls of the
    JavaScript runtime, the jobs, the secrets and the tools around a project.  What
    is left moves data that is modelled, prints it, or runs programs of others; the
    one computation that is not modelled is that of the data-dependence graphs. *)

From stdpp Require Export base list strings gmap pretty sets.
From Stdlib Require Export ZArith Ascii Lia Sorting.Sorted.
From Stdlib Require Import OrdersEx.
From Stdlib Require String.
From Stdlib Require SpecFloat.


#[global] Arguments Ascii.eqb : simpl never.
#[global] Arguments Ascii.compare : simpl never.
#[global] Arguments String.eqb : simpl never.
#[global] Arguments String.append !s1 s2 : simpl nomatch.

(** ** Outcomes

    A Rust function returns a value, returns an [Err], or panics
    ([unwrap], [assert!], [unreachable!], [todo!], an index out of range).
    The three are kept apart: [Panic] is what the [?] operator never catches
    and what no caller in the modelled code recovers from. *)

Inductive outcome (E A : Type) : Type :=
  | Ok (a : A)
  | Err (e : E)
  | Panic (why : string).
Arguments Ok {E A} a.
Arguments Err {E A} e.
Arguments Panic {E A} why.

#[export] Instance outcome_ret {E} : MRet (outcome E) := fun A a => Ok a.
#[export] Instance outcome_bind {E} : MBind (outcome E) := fun A B f m =>
  match m with Ok a => f a | Err e => Err e | Panic w => Panic w end.
#[export] Instance outcome_fmap {E} : FMap (outcome E) := fun A B f m =>
  match m with Ok a => Ok (f a) | Err e => Err e | Panic w => Panic w end.

Definition is_ok {E A} (m : outcome E A) : bool :=
  match m with Ok _ => true | _ => false end.

Definition is_panic {E A} (m : outcome E A) : bool :=
  match m with Panic _ => true | _ => false end.

Definition ok_option {E A} (m : outcome E A) : option A :=
  match m with Ok a => Some a | _ => None end.

(** [Result::map_err], and the [From] conversion the [?] operator applies. *)
Definition map_err {E F A} (f : E -> F) (m : outcome E A) : outcome F A :=
  match m with Ok a => Ok a | Err e => Err (f e) | Panic w => Panic w end.

(** [anyhow::Error]: a root message under a stack of contexts.  The one
    downcast the program performs asks for a [PolicyError], so that kind of
    root is told apart from the others. *)
Inductive anyhow :=
  | AMsg (msg : string)
  | APolicyError (msg : string)
  | AContext (ctx : string) (inner : anyhow).

Abbreviation result A := (outcome anyhow A).

Definition bail {A} (msg : string) : result A := Err (AMsg msg).

(** [anyhow::ensure!(c, msg)] *)
Definition ensure (c : bool) (msg : string) : result unit :=
  if c then Ok () else bail msg.

(** [Option::context] and [Result::context]. *)
Definition option_context {A} (o : option A) (msg : string) : result A :=
  match o with Some a => Ok a | None => bail msg end.

Definition with_context {A} (m : result A) (msg : string) : result A :=
  map_err (AContext msg) m.

(** [assert!(c)] *)
Definition rust_assert {E} (c : bool) (why : string) : outcome E unit :=
  if c then Ok () else Panic why.

(** [Option::unwrap] / [expect] *)
Definition unwrap {E A} (o : option A) (why : string) : outcome E A :=
  match o with Some a => Ok a | None => Panic why end.

(** A [for] loop whose body may leave the function with an error. *)
Section FoldM.
Context {E S A : Type} (f : S -> A -> outcome E S).

Fixpoint foldM (s : S) (l : list A) : outcome E S :=
  match l with
  | [] => Ok s
  | x :: l' => s' ← f s x; foldM s' l'
  end.
End FoldM.

(** ** Strings

    A Rust [String] is the list of its UTF-8 bytes, here Stdlib's [string];
    [str]'s order is the order of the bytes, which is [String.compare]. *)

Fixpoint starts_with (s needle : string) : bool :=
  match needle, s with
  | EmptyString, _ => true
  | String c n, String d s' => if Ascii.eqb c d then starts_with s' n else false
  | String _ _, EmptyString => false
  end.

(** [&s[n..]] *)
Fixpoint str_drop (n : nat) (s : string) : string :=
  match n, s with
  | O, _ => s
  | S n', String _ s' => str_drop n' s'
  | S _, EmptyString => EmptyString
  end.

(** [&s[..n]] *)
Fixpoint str_take (n : nat) (s : string) : string :=
  match n, s with
  | O, _ => EmptyString
  | S n', String c s' => String c (str_take n' s')
  | S _, EmptyString => EmptyString
  end.

Definition strip_prefix (p s : string) : option string :=
  if starts_with s p then Some (str_drop (String.length p) s) else None.

Definition ends_with (s suffix : string) : bool :=
  if String.length suffix <=? String.length s
  then String.eqb (str_drop (String.length s - String.length suffix) s) suffix
  else false.

Definition strip_suffix (p s : string) : option string :=
  if ends_with s p then Some (str_take (String.length s - String.length p) s) else None.

Definition str_is_empty (s : string) : bool :=
  match s with EmptyString => true | _ => false end.

(** [str::split] on a one-byte separator: at least one piece. *)
Fixpoint split_on (sep : ascii) (s : string) : list string :=
  match s with
  | EmptyString => [EmptyString]
  | String c s' =>
      if Ascii.eqb c sep then EmptyString :: split_on sep s'
      else match split_on sep s' with
           | [] => [String c EmptyString]
           | p :: ps => String c p :: ps
           end
  end.

(** A double quote, and an identifier between two. *)
Definition dquote : string := String (ascii_of_nat 34) EmptyString.
Definition quoted (s : string) : string := dquote +:+ s +:+ dquote.

(** [str::split_once] and [str::rsplit_once] on a one-byte separator. *)
Fixpoint split_once (sep : ascii) (s : string) : option (string * string) :=
  match s with
  | EmptyString => None
  | String c s =>
      if Ascii.eqb c sep then Some (EmptyString, s)
      else match split_once sep s with Some (a, b) => Some (String c a, b) | None => None end
  end.
Fixpoint rsplit_once (sep : ascii) (s : string) : option (string * string) :=
  match s with
  | EmptyString => None
  | String c s =>
      match rsplit_once sep s with
      | Some (a, b) => Some (String c a, b)
      | None => if Ascii.eqb c sep then Some (EmptyString, s) else None
      end
  end.

(** [trim_start_matches] of a character, [trim_end_matches] of a text that is
    not empty: every step removes a part of the text, so its length is fuel
    enough. *)
Fixpoint trim_start_char (sep : ascii) (s : string) : string :=
  match s with
  | EmptyString => EmptyString
  | String c s' => if Ascii.eqb c sep then trim_start_char sep s' else s
  end.
Fixpoint trim_end_fuel (fuel : nat) (pat s : string) : string :=
  match fuel with
  | 0 => s
  | S fuel => match strip_suffix pat s with Some s => trim_end_fuel fuel pat s | None => s end
  end.
Definition trim_end_matches (pat s : string) : string := trim_end_fuel (String.length s) pat s.

(** [str::trim]: the characters of Unicode's [White_Space]. *)
Definition white_space : list string :=
  let bytes l := String.string_of_list_ascii (ascii_of_nat <$> l) in
  bytes <$> [[9]; [10]; [11]; [12]; [13]; [32]; [194; 133]; [194; 160]; [225; 154; 128];
             [226; 128; 168]; [226; 128; 169]; [226; 128; 175]; [226; 129; 159]; [227; 128; 128]] ++
            ((fun i => [226; 128; 128 + i]) <$> seq 0 11).

Fixpoint trim_fuel (strip : string -> string -> option string) (fuel : nat) (s : string) : string :=
  match fuel with
  | O => s
  | S fuel =>
      match head (omap (fun c => strip c s) white_space) with
      | Some s => trim_fuel strip fuel s
      | None => s
      end
  end.

Definition trim (s : string) : string :=
  let s := trim_fuel strip_prefix (String.length s) s in
  trim_fuel strip_suffix (String.length s) s.

(** [fmt::Debug] of a [str], on ASCII; what is not ASCII stands as it is. *)
Definition hex_digit (n : nat) : string :=
  String (ascii_of_nat (if n <? 10 then 48 + n else 87 + n)) EmptyString.
Definition debug_char (c : ascii) : string :=
  let n := nat_of_ascii c in
  if n =? 34 then "\" +:+ dquote
  else if n =? 92 then "\\"
  else if n =? 9 then "\t"
  else if n =? 10 then "\n"
  else if n =? 13 then "\r"
  else if n =? 0 then "\0"
  else if (n <? 32) || (n =? 127) then
    "\u{" +:+ (if n <? 16 then "" else hex_digit (n / 16)) +:+ hex_digit (n mod 16) +:+ "}"
  else String c EmptyString.
Fixpoint debug_chars (s : string) : string :=
  match s with EmptyString => EmptyString | String c s => debug_char c +:+ debug_chars s end.
Definition debug_str (s : string) : string := quoted (debug_chars s).

Definition str_lt (a b : string) : Prop := OrdersEx.String_as_OT.lt a b.
Definition str_leb (a b : string) : bool :=
  match String.compare a b with Gt => false | _ => true end.

(** A line feed. *)
Definition newline : string := String (ascii_of_nat 10) EmptyString.

(** [String::pop]: the text without its last character. *)
Fixpoint str_pop (s : string) : string :=
  match s with
  | EmptyString => EmptyString
  | String c EmptyString => EmptyString
  | String c s' => String c (str_pop s')
  end.

(** [slice::join] *)
Fixpoint str_join (sep : string) (l : list string) : string :=
  match l with
  | [] => ""
  | [x] => x
  | x :: l' => x +:+ sep +:+ str_join sep l'
  end.

(** ** Maps with an order

    [AList]: a map whose iteration order is the list's order ([serde_json]'s
    [Map] with [preserve_order]; a [HashMap] whose iteration the model follows
    in one fixed but arbitrary order).  An insertion over a present key
    replaces the value in place, as [IndexMap::insert] does. *)
Fixpoint alist_get {A} (k : string) (l : list (string * A)) : option A :=
  match l with
  | [] => None
  | (k', v) :: l' => if String.eqb k k' then Some v else alist_get k l'
  end.

Fixpoint alist_insert {A} (k : string) (v : A) (l : list (string * A)) : list (string * A) :=
  match l with
  | [] => [(k, v)]
  | (k', v') :: l' =>
      if String.eqb k k' then (k, v) :: l' else (k', v') :: alist_insert k v l'
  end.

(** [BTree]: a [BTreeMap<String, A>], the list of its entries by increasing
    key.  The insertion returns the new map; [alist_get] is its lookup. *)
Fixpoint btree_insert {A} (k : string) (v : A) (l : list (string * A)) : list (string * A) :=
  match l with
  | [] => [(k, v)]
  | (k', v') :: l' =>
      match String.compare k k' with
      | Lt => (k, v) :: (k', v') :: l'
      | Eq => (k, v) :: l'
      | Gt => (k', v') :: btree_insert k v l'
      end
  end.

Fixpoint alist_remove {A} (k : string) (l : list (string * A)) : list (string * A) :=
  match l with
  | [] => []
  | (k', v') :: l' =>
      if String.eqb k k' then alist_remove k l' else (k', v') :: alist_remove k l'
  end.

Definition btree_sorted {A} (l : list (string * A)) : Prop :=
  StronglySorted str_lt l.*1.

(** ** Floats

    An [f64] is one of [SpecFloat]'s binary64 values: executable, and free of
    axioms. *)
Definition f64 := SpecFloat.spec_float.

Definition f64_prec : Z := 53.
Definition f64_emax : Z := 1024.

(** [n as f64] for an integer: the nearest binary64. *)
Definition f64_of_Z (n : Z) : f64 :=
  SpecFloat.binary_normalize f64_prec f64_emax n 0 false.

Definition f64_eqb (a b : f64) : bool :=
  match SpecFloat.SFcompare a b with Some Eq => true | _ => false end.

#[export] Instance f64_eq_dec : EqDecision f64.
Proof. solve_decision. Defined.

(** Decimal text of an [f64] ([f64::from_str], [Display]): the shortest
    round-trip printing of the Rust runtime is a parameter of the model. *)
Class FloatText := {
  f64_parse : string -> option f64;
  f64_display : f64 -> string;
}.

(** ** Machine integers *)

Definition u64_max : Z := 2 ^ 64 - 1.
Definition i64_max : Z := 2 ^ 63 - 1.
Definition i64_min : Z := - 2 ^ 63.

(** [n as i32] from a 64-bit integer: the low 32 bits, as a signed number. *)
Definition as_i32 (n : Z) : Z := (n + 2 ^ 31) mod 2 ^ 32 - 2 ^ 31.

(** [u64::from_str]: an optional [+], then decimal digits, within range. *)
Fixpoint digits_value (acc : Z) (s : string) : option Z :=
  match s with
  | EmptyString => Some acc
  | String c s' =>
      let n := Z.of_nat (nat_of_ascii c) in
      if ((48 <=? n) && (n <=? 57))%Z
      then let acc' := (acc * 10 + (n - 48))%Z in
           if (acc' <=? u64_max)%Z then digits_value acc' s' else None
      else None
  end.

Definition u64_parse (s : string) : option Z :=
  let body := match strip_prefix "+" s with Some b => b | None => s end in
  if str_is_empty body then None else digits_value 0 body.

(** [bool::from_str] *)
Definition bool_parse (s : string) : option bool :=
  if String.eqb s "true" then Some true
  else if String.eqb s "false" then Some false
  else None.

(** ** Automation

    [outcome] collects the rewriting rules of the monad; [inv_bind] takes a
    successful computation apart; [simp_str] decides string equality tests. *)
Create HintDb chisel.
Create Rewrite HintDb chisel.

Lemma ret_outcome {E A} (a : A) : mret (M := outcome E) a = Ok a.
Proof. reflexivity. Qed.

Lemma bind_ok {E A B} (m : outcome E A) (f : A -> outcome E B) b :
  m ≫= f = Ok b <-> exists a, m = Ok a /\ f a = Ok b.
Proof. destruct m; cbn; naive_solver. Qed.

Lemma bind_unit_ok {E B} (m : outcome E unit) (k : outcome E B) b :
  (_ ← m; k) = Ok b <-> m = Ok () /\ k = Ok b.
Proof. destruct m as [[]| |]; cbn; naive_solver. Qed.

Lemma fmap_ok {E A B} (m : outcome E A) (f : A -> B) b :
  f <$> m = Ok b <-> exists a, m = Ok a /\ b = f a.
Proof. destruct m; cbn; naive_solver. Qed.

Lemma map_err_ok {E F A} (f : E -> F) (m : outcome E A) a :
  map_err f m = Ok a <-> m = Ok a.
Proof. destruct m; cbn; naive_solver. Qed.

Lemma with_context_ok {A} (m : result A) msg a :
  with_context m msg = Ok a <-> m = Ok a.
Proof. apply map_err_ok. Qed.

Lemma option_context_ok {A} (o : option A) msg a :
  option_context o msg = Ok a <-> o = Some a.
Proof. destruct o; cbn; naive_solver. Qed.

Lemma unwrap_ok {E A} (o : option A) why a :
  unwrap (E := E) o why = Ok a <-> o = Some a.
Proof. destruct o; cbn; naive_solver. Qed.

Lemma ensure_ok c msg u : ensure c msg = Ok u <-> c = true.
Proof. destruct c, u; cbn; naive_solver. Qed.

Lemma rust_assert_ok {E} c why u : rust_assert (E := E) c why = Ok u <-> c = true.
Proof. destruct c, u; cbn; naive_solver. Qed.

Lemma is_panic_bind {E A B} (m : outcome E A) (f : A -> outcome E B) :
  is_panic m = false ->
  (forall a, m = Ok a -> is_panic (f a) = false) ->
  is_panic (m ≫= f) = false.
Proof. destruct m; cbn; naive_solver. Qed.

Lemma is_panic_map_err {E F A} (f : E -> F) (m : outcome E A) :
  is_panic (map_err f m) = is_panic m.
Proof. by destruct m. Qed.

Lemma is_panic_with_context {A} (m : result A) msg :
  is_panic (with_context m msg) = is_panic m.
Proof. by destruct m. Qed.

Lemma is_panic_option_context {A} (o : option A) msg :
  is_panic (option_context o msg) = false.
Proof. by destruct o. Qed.

Lemma is_panic_ensure c msg : is_panic (ensure c msg) = false.
Proof. by destruct c. Qed.

#[export] Hint Rewrite @is_panic_map_err @is_panic_with_context
  @is_panic_option_context is_panic_ensure : chisel.
#[export] Hint Resolve is_panic_bind is_panic_option_context is_panic_ensure : chisel.

(** Destructs every successful monadic step of the hypotheses. *)
Ltac inv_ok1 :=
  match goal with
  | H : _ ≫= _ = Ok _ |- _ =>
      apply bind_ok in H; destruct H as (? & ? & ?)
  | H : _ <$> _ = Ok _ |- _ =>
      apply fmap_ok in H; destruct H as (? & ? & ?)
  | H : with_context _ _ = Ok _ |- _ => apply with_context_ok in H
  | H : map_err _ _ = Ok _ |- _ => apply map_err_ok in H
  | H : option_context _ _ = Ok _ |- _ => apply option_context_ok in H
  | H : unwrap _ _ = Ok _ |- _ => apply unwrap_ok in H
  | H : ensure _ _ = Ok _ |- _ => apply ensure_ok in H
  | H : rust_assert _ _ = Ok _ |- _ => apply rust_assert_ok in H
  | H : mret _ = Ok _ |- _ => rewrite ret_outcome in H
  | H : bail _ = Ok _ |- _ => discriminate H
  | H : Panic _ = Ok _ |- _ => discriminate H
  | H : Err _ = Ok _ |- _ => discriminate H
  | H : Ok _ = Ok _ |- _ => injection H as H; try subst
  end.
Ltac inv_ok := repeat inv_ok1.

(** ** Loops *)

Lemma foldM_app {E S A} (f : S -> A -> outcome E S) l1 l2 s :
  foldM f s (l1 ++ l2) = foldM f s l1 ≫= fun s' => foldM f s' l2.
Proof.
  revert s; induction l1 as [|x l1 IH]; intros s; [done|]; cbn.
  destruct (f s x); cbn; auto.
Qed.

(** The invariant rule of a [for] loop. *)
Lemma foldM_inv {E S A} (f : S -> A -> outcome E S) (P : list A -> S -> Prop) l s s' :
  P [] s ->
  (forall done x s1 s2, P done s1 -> f s1 x = Ok s2 -> P (done ++ [x]) s2) ->
  foldM f s l = Ok s' -> P l s'.
Proof.
  intros H0 Hstep.
  enough (forall done s1, P done s1 -> foldM f s1 l = Ok s' -> P (done ++ l) s')
    as Hgen by (intros; by apply (Hgen [] s)).
  clear H0 s. induction l as [|x l IH]; cbn; intros done s1 HP Hf.
  - rewrite app_nil_r. naive_solver.
  - inv_ok. rewrite cons_middle, app_assoc. eapply IH; eauto.
Qed.

Lemma foldM_no_panic {E S A} (f : S -> A -> outcome E S) (P : S -> Prop) l s :
  P s ->
  (forall s1 x, P s1 -> x ∈ l -> is_panic (f s1 x) = false) ->
  (forall s1 x s2, P s1 -> x ∈ l -> f s1 x = Ok s2 -> P s2) ->
  is_panic (foldM f s l) = false.
Proof.
  revert s. induction l as [|x l IH]; intros s Hs Hno Hpres; [done|]; cbn.
  apply is_panic_bind; [apply Hno; set_solver|].
  intros s2 Hs2. apply IH; [eapply Hpres; eauto; set_solver| |].
  - intros s1 y ? ?. apply Hno; [done|set_solver].
  - intros s1 y s3 ? ?. apply Hpres; [done|set_solver].
Qed.

Lemma elem_of_concat {A} (x : A) ls : x ∈ concat ls <-> exists l, x ∈ l /\ l ∈ ls.
Proof.
  rewrite list_elem_of_In, List.in_concat. setoid_rewrite list_elem_of_In.
  split; intros (l & H1 & H2); by exists l.
Qed.

Lemma mapM_ok {E A B} (f : A -> outcome E B) l l' :
  mapM f l = Ok l' <-> Forall2 (fun x y => f x = Ok y) l l'.
Proof.
  split.
  - revert l'. induction l as [|x l IH]; cbn; intros l' H; inv_ok; eauto.
  - induction 1 as [|x y l l' Hxy _ IH]; [done|]; cbn. by rewrite Hxy; cbn; rewrite IH.
Qed.

Lemma mapM_no_panic {E A B} (f : A -> outcome E B) l :
  (forall x, x ∈ l -> is_panic (f x) = false) -> is_panic (mapM f l) = false.
Proof.
  induction l as [|x l IH]; intros H; [done|]. cbn. apply is_panic_bind; [apply H; by left|].
  intros y _. apply is_panic_bind; [|done]. apply IH. intros z Hz. apply H. by right.
Qed.

Lemma elem_of_List_filter {A} (f : A -> bool) l x :
  x ∈ List.filter f l <-> x ∈ l /\ f x = true.
Proof. by rewrite !list_elem_of_In, filter_In. Qed.

(** A check of every entry of a finite map. *)
Lemma forallb_map_to_list {A} (f : string * A -> bool) (m : gmap string A) :
  forallb f (map_to_list m) = true <-> forall k v, m !! k = Some v -> f (k, v) = true.
Proof.
  rewrite forallb_forall. split.
  - intros H k v Hkv. apply H. by apply list_elem_of_In, elem_of_map_to_list.
  - intros H [k v] Hkv. by apply H, elem_of_map_to_list, list_elem_of_In.
Qed.

(** ** String lemmas *)

Lemma starts_with_app p r : starts_with (p +:+ r) p = true.
Proof. induction p as [|c p IH]; cbn; [by destruct r|]. by rewrite Ascii.eqb_refl. Qed.

Lemma str_drop_app p r : str_drop (String.length p) (p +:+ r) = r.
Proof. induction p; cbn; [by destruct r|done]. Qed.

Lemma str_take_app p r : str_take (String.length p) (p +:+ r) = p.
Proof. induction p; cbn; [by destruct r|congruence]. Qed.

Lemma starts_with_iff s p : starts_with s p = true <-> exists r, s = p +:+ r.
Proof.
  split; [|intros [r ->]; apply starts_with_app].
  revert s. induction p as [|c p IH]; intros s; cbn; [by eexists|].
  destruct s as [|d s]; cbn; [done|]. destruct (Ascii.eqb_spec c d) as [->|]; [|done].
  intros [r ->]%IH. by exists r.
Qed.

Lemma str_app_nil_r s : s +:+ "" = s.
Proof. induction s; cbn; congruence. Qed.

Lemma str_app_assoc a b c : (a +:+ b) +:+ c = a +:+ (b +:+ c).
Proof. induction a; cbn; congruence. Qed.

Lemma starts_with_refl s : starts_with s s = true.
Proof. apply starts_with_iff. exists "". by rewrite str_app_nil_r. Qed.

Lemma str_length_app a b : String.length (a +:+ b) = String.length a + String.length b.
Proof. induction a; cbn; auto. Qed.

Lemma strip_prefix_app p r : strip_prefix p (p +:+ r) = Some r.
Proof. unfold strip_prefix. by rewrite starts_with_app, str_drop_app. Qed.

Lemma strip_prefix_some p s r : strip_prefix p s = Some r <-> s = p +:+ r.
Proof.
  split; [|intros ->; apply strip_prefix_app]. unfold strip_prefix.
  destruct (starts_with s p) eqn:E; [|done].
  apply starts_with_iff in E as [r' ->]. rewrite str_drop_app. by intros [= ->].
Qed.

Lemma ends_with_app a b : ends_with (a +:+ b) b = true.
Proof.
  unfold ends_with. rewrite str_length_app.
  destruct (_ <=? _) eqn:E; [|apply Nat.leb_gt in E; lia].
  replace (_ + _ - _) with (String.length a) by lia.
  by rewrite str_drop_app, String.eqb_refl.
Qed.

Lemma strip_suffix_app a b : strip_suffix b (a +:+ b) = Some a.
Proof.
  unfold strip_suffix. rewrite ends_with_app, str_length_app.
  replace (_ + _ - _) with (String.length a) by lia. by rewrite str_take_app.
Qed.

Lemma str_take_drop n s : str_take n s +:+ str_drop n s = s.
Proof. revert s; induction n; intros [|c s]; cbn; congruence. Qed.

Lemma strip_suffix_some p s r : strip_suffix p s = Some r <-> s = r +:+ p.
Proof.
  split; [|intros ->; apply strip_suffix_app]. unfold strip_suffix, ends_with.
  destruct (_ <=? _); [|done]. destruct (String.eqb_spec (str_drop
    (String.length s - String.length p) s) p) as [E|]; [|done].
  intros [= <-]. by rewrite <- E at 2; rewrite str_take_drop.
Qed.

(** The order of the bytes *)

(** ** Splitting and joining *)

(** The character does not occur in the text. *)
Definition no_char (c : ascii) (s : string) : Prop := ~ In c (String.list_ascii_of_string s).

Lemma no_char_app c a b : no_char c a -> no_char c b -> no_char c (a +:+ b).
Proof.
  unfold no_char. intros Ha Hb. induction a as [|x a IH]; cbn in *; [done|].
  intros [->|Hin]; [by apply Ha; left|]. apply IH; [|done]. intros H. apply Ha. by right.
Qed.

Lemma split_on_app c a b : no_char c a ->
  split_on c (a +:+ String c b) = a :: split_on c b.
Proof.
  unfold no_char. induction a as [|d a IH]; cbn; intros Hc; [by rewrite Ascii.eqb_refl|].
  destruct (Ascii.eqb_spec d c) as [->|]; [tauto|]. by rewrite IH by tauto.
Qed.

Lemma split_on_no_sep c a : no_char c a -> split_on c a = [a].
Proof.
  unfold no_char. induction a as [|d a IH]; cbn; intros Hc; [done|].
  destruct (Ascii.eqb_spec d c) as [->|]; [tauto|]. by rewrite IH by tauto.
Qed.

Lemma split_on_not_nil c s : split_on c s <> [].
Proof. destruct s; cbn; [done|]. destruct (Ascii.eqb _ _); [done|]. by destruct (split_on _ _). Qed.

(** Splitting loses only the separators. *)
Lemma split_on_join c s : str_join (String c EmptyString) (split_on c s) = s.
Proof.
  induction s as [|d s IH]; cbn [split_on]; [done|].
  pose proof (split_on_not_nil c s) as Hn.
  destruct (Ascii.eqb_spec d c) as [->|].
  - rewrite <- IH at 2. by destruct (split_on c s).
  - rewrite <- IH at 2. destruct (split_on c s) as [|x [|y l]]; reflexivity.
Qed.

Lemma split_on_no_sep_in c s x : x ∈ split_on c s -> no_char c x.
Proof.
  unfold no_char. revert x. induction s as [|d s IH]; cbn; intros x.
  { intros ->%list_elem_of_singleton. tauto. }
  destruct (Ascii.eqb_spec d c) as [->|Hne].
  { intros [->|Hx]%elem_of_cons; [tauto|auto]. }
  pose proof (split_on_not_nil c s). destruct (split_on c s) as [|p ps]; [done|].
  intros [->|Hx]%elem_of_cons; [|apply IH; set_solver].
  intros [->|Hin]; [done|]. apply (IH p); [set_solver|done].
Qed.

(** And joining is undone by splitting. *)
Lemma split_on_joined c l : Forall (no_char c) l -> l <> [] ->
  split_on c (str_join (String c EmptyString) l) = l.
Proof.
  induction 1 as [|x l Hx Hl IH]; [done|]. intros _. destruct l as [|y l].
  - cbn. by apply split_on_no_sep.
  - change (str_join (String c EmptyString) (x :: y :: l)) with
      (x +:+ String c (str_join (String c EmptyString) (y :: l))).
    by rewrite split_on_app, IH.
Qed.

Lemma ascii_compare_refl c : Ascii.compare c c = Eq.
Proof. unfold Ascii.compare. apply N.compare_refl. Qed.

Lemma str_compare_refl s : String.compare s s = Eq.
Proof. induction s as [|c s IH]; cbn; [done|]. by rewrite ascii_compare_refl. Qed.

Lemma str_compare_app p a b :
  String.compare (p +:+ a) (p +:+ b) = String.compare a b.
Proof. induction p as [|c p IH]; cbn; [done|]. by rewrite ascii_compare_refl. Qed.

Lemma str_leb_prefix p r : str_leb p (p +:+ r) = true.
Proof.
  unfold str_leb. rewrite <- (str_app_nil_r p) at 1.
  rewrite str_compare_app. by destruct r.
Qed.

#[export] Instance str_lt_strict : StrictOrder str_lt := OrdersEx.String_as_OT.lt_strorder.

Lemma str_lt_compare a b : str_lt a b <-> String.compare a b = Lt.
Proof. reflexivity. Qed.

Lemma str_gt_compare a b : String.compare a b = Gt <-> str_lt b a.
Proof.
  rewrite str_lt_compare, (String.compare_antisym a b).
  destruct (String.compare b a); cbn; naive_solver.
Qed.

(** ** Map lemmas *)

Lemma alist_get_insert {A} k k' (v : A) l :
  alist_get k (alist_insert k' v l) = if String.eqb k k' then Some v else alist_get k l.
Proof.
  induction l as [|[k0 v0] l IH]; cbn; [done|].
  destruct (String.eqb_spec k' k0) as [<-|]; cbn;
    [by destruct (String.eqb_spec k k')|].
  destruct (String.eqb_spec k k0) as [<-|]; [|done].
  by destruct (String.eqb_spec k k') as [<-|].
Qed.

Lemma alist_get_some_in {A} k (v : A) l : alist_get k l = Some v -> (k, v) ∈ l.
Proof.
  induction l as [|[k0 v0] l IH]; cbn; [done|].
  destruct (String.eqb_spec k k0) as [->|]; set_solver.
Qed.

Lemma alist_get_none {A} k (l : list (string * A)) : alist_get k l = None <-> k ∉ l.*1.
Proof.
  induction l as [|[k0 v0] l IH]; cbn; [set_solver|].
  destruct (String.eqb_spec k k0) as [->|]; set_solver.
Qed.

Lemma alist_get_in {A} k (v : A) l : NoDup l.*1 -> (k, v) ∈ l -> alist_get k l = Some v.
Proof.
  induction l as [|[k0 v0] l IH]; cbn; [set_solver|].
  intros [Hk Hl]%NoDup_cons [[= -> ->]|Hin]%elem_of_cons; [by rewrite String.eqb_refl|].
  destruct (String.eqb_spec k k0) as [->|]; [|auto].
  destruct Hk. apply list_elem_of_fmap. by exists (k0, v).
Qed.

Lemma btree_sorted_nodup {A} (l : list (string * A)) : btree_sorted l -> NoDup l.*1.
Proof.
  unfold btree_sorted. generalize l.*1. induction 1 as [|k ks Hl IH Hk]; constructor; [|done].
  rewrite Forall_forall in Hk. intros Hin. apply (irreflexivity str_lt k). auto.
Qed.

Lemma btree_insert_keys {A} k (v : A) l x :
  x ∈ (btree_insert k v l).*1 <-> x = k \/ x ∈ l.*1.
Proof.
  induction l as [|[k0 v0] l IH]; cbn; [set_solver|].
  destruct (String.compare k k0) eqn:E; cbn; [|set_solver|set_solver].
  apply String.compare_eq_iff in E as ->. set_solver.
Qed.

Lemma btree_insert_sorted {A} k (v : A) l : btree_sorted l -> btree_sorted (btree_insert k v l).
Proof.
  unfold btree_sorted. induction l as [|[k0 v0] l IH]; cbn; intros Hl.
  { repeat constructor. }
  inversion_clear Hl as [|? ? Hs Hk0].
  destruct (String.compare k k0) eqn:E; cbn.
  - apply String.compare_eq_iff in E as ->. by constructor.
  - constructor; [by constructor|]. constructor; [done|].
    eapply Forall_impl; [done|]. intros y Hy. by transitivity k0.
  - constructor; [auto|]. rewrite Forall_forall in *.
    intros x [->|Hx]%btree_insert_keys; [by apply str_gt_compare|auto].
Qed.

Lemma alist_get_btree_insert {A} k k' (v : A) l : btree_sorted l ->
  alist_get k (btree_insert k' v l) = if String.eqb k k' then Some v else alist_get k l.
Proof.
  unfold btree_sorted. induction l as [|[k0 v0] l IH]; cbn; [done|]; intros Hl.
  inversion_clear Hl as [|? ? Hs Hk0]. rewrite Forall_forall in Hk0.
  destruct (String.compare k' k0) eqn:E; cbn.
  - apply String.compare_eq_iff in E as ->. by destruct (String.eqb k k0).
  - destruct (String.eqb_spec k k'); done.
  - rewrite IH by done. destruct (String.eqb_spec k k0) as [->|]; [|done].
    destruct (String.eqb_spec k0 k') as [<-|]; [|done].
    by rewrite str_compare_refl in E.
Qed.

Lemma alist_get_remove {A} k k' (l : list (string * A)) :
  alist_get k (alist_remove k' l) = if String.eqb k k' then None else alist_get k l.
Proof.
  induction l as [|[k0 v0] l IH]; cbn; [by destruct (String.eqb k k')|].
  destruct (String.eqb_spec k' k0) as [<-|]; cbn; rewrite IH.
  - by destruct (String.eqb_spec k k').
  - destruct (String.eqb_spec k k0) as [->|]; [|done].
    by destruct (String.eqb_spec k0 k') as [<-|].
Qed.

Lemma alist_remove_subset {A} k (l : list (string * A)) x : x ∈ alist_remove k l -> x ∈ l.
Proof.
  induction l as [|[k0 v0] l IH]; cbn; [done|].
  destruct (String.eqb_spec k k0); set_solver.
Qed.

Lemma alist_remove_sorted {A} k (l : list (string * A)) :
  btree_sorted l -> btree_sorted (alist_remove k l).
Proof.
  unfold btree_sorted. induction l as [|[k0 v0] l IH]; cbn; intros Hl; [done|].
  inversion_clear Hl as [|? ? Hs Hk0]. destruct (String.eqb_spec k k0); cbn; [auto|].
  constructor; [auto|]. rewrite Forall_forall in *. intros x Hx. apply Hk0.
  apply list_elem_of_fmap in Hx as (kv & -> & Hx%alist_remove_subset).
  by apply list_elem_of_fmap_2.
Qed.
