(* ===== verification/PrefixMap.v ===== *)
(** * Prefix maps ([server/src/prefix_map.rs])

    A [PrefixMap] is a [BTreeMap] from paths to values.  Its one query,
    [longest_prefix], walks the entries at or below the path in decreasing
    order and returns the first whose key is a prefix of the path at a [/]
    boundary.  The theorems show that this walk finds the longest such key,
    which is what the authorization rules of [policies.rs] rely on. *)

From S2P Require Import Prelude.

Definition PrefixMap (T : Type) : Type := list (string * T).

Definition prefix_map_default {T} : PrefixMap T := [].

Definition is_path_prefix (needle haystack : string) : bool :=
  if negb (starts_with haystack needle) then false
  else ends_with needle "/" ||
       (let unmatched := str_drop (String.length needle) haystack in
        str_is_empty unmatched || starts_with unmatched "/").

(** [self.map.range(..=path)] *)
Definition range_upto {T} (path : string) (m : PrefixMap T) : PrefixMap T :=
  List.filter (fun '(k, _) => str_leb k path) m.

Definition longest_prefix {T} (m : PrefixMap T) (path : string) : option (string * T) :=
  List.find (fun '(p, _) => is_path_prefix p path) (rev (range_upto path m)).

(** [BTreeMap::insert] also returns the value it replaced. *)
Definition insert {T} (k : string) (v : T) (m : PrefixMap T) : PrefixMap T * option T :=
  (btree_insert k v m, alist_get k m).

(** ** Well-formedness *)

Definition wf {T} (m : PrefixMap T) : Prop := btree_sorted m.

Lemma insert_wf {T} k (v : T) m : wf m -> wf (insert k v m).1.
Proof. apply btree_insert_sorted. Qed.

Lemma wf_default {T} : wf (prefix_map_default (T := T)).
Proof. constructor. Qed.

#[export] Hint Resolve insert_wf wf_default : chisel.

(** ** Prefixes and the order of the keys *)

Lemma is_path_prefix_starts p s : is_path_prefix p s = true -> starts_with s p = true.
Proof. unfold is_path_prefix. by destruct (starts_with s p). Qed.

Lemma prefix_leb p s : starts_with s p = true -> str_leb p s = true.
Proof. intros [r ->]%starts_with_iff. apply str_leb_prefix. Qed.

(** Of two prefixes of the same string, the shorter is a prefix of the other. *)
Lemma prefix_comparable p q s :
  starts_with s p = true -> starts_with s q = true ->
  String.length q <= String.length p -> exists u, p = q +:+ u.
Proof.
  revert p s. induction q as [|c q IH]; intros p s Hp Hq Hle; [by exists p|].
  apply starts_with_iff in Hq as [t ->]. destruct p as [|d p]; cbn in *; [lia|].
  destruct (Ascii.eqb_spec d c) as [->|]; [|done].
  destruct (IH p (q +:+ t)) as [u ->]; [done|apply starts_with_app|lia|].
  by exists u.
Qed.

(** Prefixes of the same string are ordered as their lengths are. *)
Lemma prefix_lt_length p q s :
  starts_with s p = true -> starts_with s q = true -> str_lt p q ->
  String.length p < String.length q.
Proof.
  intros Hp Hq Hlt.
  destruct (decide (String.length p < String.length q)) as [|Hge]; [done|exfalso].
  destruct (prefix_comparable p q s) as [u ->]; [done|done|lia|].
  change (String.compare (q +:+ u) q = Lt) in Hlt. pose proof (str_compare_app q u "") as Hc.
  rewrite str_app_nil_r, Hlt in Hc. by destruct u.
Qed.

(** ** The search *)

Lemma find_some_split {A} (f : A -> bool) l x :
  List.find f l = Some x <->
  exists l1 l2, l = l1 ++ x :: l2 /\ f x = true /\ Forall (fun y => f y = false) l1.
Proof.
  split.
  - induction l as [|y l IH]; cbn; [done|]. destruct (f y) eqn:E.
    + intros [= ->]. by exists [], l.
    + intros (l1 & l2 & -> & ? & ?)%IH. exists (y :: l1), l2. auto.
  - intros (l1 & l2 & -> & Hx & Hl1). induction Hl1 as [|y l1 Hy _ IH]; cbn.
    + by rewrite Hx.
    + by rewrite Hy.
Qed.

Lemma range_upto_elem {T} path (m : PrefixMap T) k v :
  (k, v) ∈ range_upto path m <-> (k, v) ∈ m /\ str_leb k path = true.
Proof. unfold range_upto. by rewrite !list_elem_of_In, filter_In. Qed.

Lemma range_upto_sorted {T} path (m : PrefixMap T) : wf m -> wf (range_upto path m).
Proof.
  unfold wf, btree_sorted, range_upto. induction m as [|[k v] m IH]; cbn; [done|].
  inversion_clear 1 as [|? ? Hs Hk]. destruct (str_leb k path); cbn; [|auto].
  constructor; [auto|]. rewrite Forall_forall in *. intros x Hx. apply Hk.
  apply list_elem_of_fmap in Hx as ([k' v'] & -> & Hx).
  apply range_upto_elem in Hx as [Hx _]. by apply (list_elem_of_fmap_2 fst _ (k', v')).
Qed.

Lemma sorted_app_lt {T} (l1 l2 : list (string * T)) x y :
  btree_sorted (l1 ++ l2) -> x ∈ l1 -> y ∈ l2 -> str_lt x.1 y.1.
Proof.
  unfold btree_sorted. induction l1 as [|z l1 IH]; cbn; [set_solver|].
  inversion_clear 1 as [|? ? Hs Hz]. intros [->|Hx]%elem_of_cons Hy; [|auto].
  rewrite Forall_forall in Hz. apply Hz. rewrite fmap_app.
  apply elem_of_app. right. by apply list_elem_of_fmap_2.
Qed.

(** What stands around an entry in the walk [rev (range_upto path m)]: the keys
    met before it are greater, the keys met after it are smaller. *)
Lemma walk_split {T} path (m : PrefixMap T) l1 kv l2 : wf m ->
  rev (range_upto path m) = l1 ++ kv :: l2 ->
  (forall x, x ∈ l1 -> str_lt kv.1 x.1) /\ (forall x, x ∈ l2 -> str_lt x.1 kv.1).
Proof.
  intros Hwf Hsplit. pose proof (range_upto_sorted path m Hwf) as Hs.
  rewrite <- (rev_involutive (range_upto path m)), Hsplit, rev_app_distr in Hs.
  cbn in Hs. rewrite <- app_assoc in Hs. split; intros x Hx.
  - rewrite app_assoc in Hs. eapply sorted_app_lt; [done|set_solver|].
    rewrite list_elem_of_In, <- in_rev. by apply list_elem_of_In.
  - eapply sorted_app_lt; [done| |set_solver].
    rewrite list_elem_of_In, <- in_rev. by apply list_elem_of_In.
Qed.

Lemma walk_elem {T} path (m : PrefixMap T) k v : wf m -> is_path_prefix k path = true ->
  (k, v) ∈ rev (range_upto path m) <-> alist_get k m = Some v.
Proof.
  intros Hwf%btree_sorted_nodup Hk.
  rewrite list_elem_of_In, <- in_rev, <- list_elem_of_In, range_upto_elem. split.
  - intros [? _]. by apply alist_get_in.
  - intros ?%alist_get_some_in. split; [done|]. by apply prefix_leb, is_path_prefix_starts.
Qed.

#[export] Hint Resolve is_path_prefix_starts : chisel.

Lemma longest_prefix_some_iff {T} (m : PrefixMap T) path k v : wf m ->
  longest_prefix m path = Some (k, v) <->
  alist_get k m = Some v /\ is_path_prefix k path = true /\
  forall k' v', alist_get k' m = Some v' -> is_path_prefix k' path = true ->
    String.length k' <= String.length k.
Proof.
  intros Hwf. unfold longest_prefix. rewrite find_some_split. split.
  - intros (l1 & l2 & Hsplit & Hk & Hl1).
    destruct (walk_split _ _ _ _ _ Hwf Hsplit) as [_ Hlt].
    split; [by apply (walk_elem path); [..|rewrite Hsplit; set_solver]|].
    split; [done|]. intros k' v' Hget Hk'.
    apply (walk_elem path) in Hget; [|done..]. rewrite Hsplit in Hget.
    apply elem_of_app in Hget as [Hin|[[= -> ->]|Hin%Hlt]%elem_of_cons]; [|done|].
    + rewrite Forall_forall in Hl1. apply Hl1 in Hin. cbn in Hin. congruence.
    + apply Nat.lt_le_incl, (prefix_lt_length _ _ path); auto with chisel.
  - intros (Hget & Hk & Hmax). apply (walk_elem path) in Hget as Hin; [|done..].
    apply list_elem_of_split in Hin as (l1 & l2 & Hsplit). exists l1, l2.
    split; [done|]. split; [done|]. apply Forall_forall. intros [k' v'] Hin'. cbn.
    destruct (is_path_prefix k' path) eqn:Hk'; [exfalso|done].
    destruct (walk_split _ _ _ _ _ Hwf Hsplit) as [Hlt _]. apply Hlt in Hin' as Hlt'.
    assert (Hm : alist_get k' m = Some v')
      by (apply (walk_elem path); [..|rewrite Hsplit; set_solver]; done).
    specialize (Hmax _ _ Hm Hk').
    pose proof (prefix_lt_length k k' path (is_path_prefix_starts _ _ Hk)
      (is_path_prefix_starts _ _ Hk') Hlt'). lia.
Qed.

Lemma longest_prefix_none_iff {T} (m : PrefixMap T) path : wf m ->
  longest_prefix m path = None <->
  forall k v, alist_get k m = Some v -> is_path_prefix k path = false.
Proof.
  intros Hwf. unfold longest_prefix. split.
  - intros Hnone k v Hget. destruct (is_path_prefix k path) eqn:Hk; [|done].
    apply (walk_elem path) in Hget; [|done..]. apply list_elem_of_In in Hget.
    pose proof (List.find_none _ _ Hnone _ Hget) as Hf. cbn in Hf. congruence.
  - intros Hall. destruct (List.find _ _) as [[k v]|] eqn:Hf; [|done].
    apply List.find_some in Hf as [Hin Hk].
    apply list_elem_of_In, (walk_elem path) in Hin; [|done..].
    apply Hall in Hin. congruence.
Qed.

(** [PrefixMap::longest_prefix] returns an entry exactly when that entry's
    key is a path prefix of the path and no longer key of the map is one; and
    returns nothing exactly when no key is a path prefix of the path. *)
Theorem longest_prefix_spec {T} (m : PrefixMap T) path : wf m ->
  (forall k v, longest_prefix m path = Some (k, v) <->
     alist_get k m = Some v /\ is_path_prefix k path = true /\
     forall k' v', alist_get k' m = Some v' -> is_path_prefix k' path = true ->
       String.length k' <= String.length k) /\
  (longest_prefix m path = None <->
     forall k v, alist_get k m = Some v -> is_path_prefix k path = false).
Proof.
  intros Hwf. split; [intros k v; by apply longest_prefix_some_iff|by apply longest_prefix_none_iff].
Qed.

(** The unit tests of the source. *)
Example fixture_tests :
  let m := (insert "/a/bb/c" 3 (insert "/a/b" 2 (insert "/a/b/c" 1 prefix_map_default).1).1).1 in
  (longest_prefix m "/a/b/c/d", longest_prefix m "/a/b/d", longest_prefix m "/a/bb",
   longest_prefix (insert "/" 10 prefix_map_default).1 "",
   longest_prefix (insert "/hello/" 10 prefix_map_default).1 "/hello")
  = (Some ("/a/b/c", 1), Some ("/a/b", 2), None, None, None).
Proof. reflexivity. Qed.

Example longest_prefix_spec_witness :
  wf [("/a/b", 2); ("/a/b/c", 1)] /\
  longest_prefix [("/a/b", 2); ("/a/b/c", 1)] "/a/b/d" = Some ("/a/b", 2).
Proof.
  assert (Hwf : wf [("/a/b", 2); ("/a/b/c", 1)]) by (repeat constructor).
  split; [exact Hwf|]. apply (proj1 (longest_prefix_spec _ _ Hwf)).
  split; [reflexivity|]. split; [reflexivity|]. intros k' v'. cbn.
  destruct (String.eqb_spec k' "/a/b") as [->|]; [cbn; lia|].
  destruct (String.eqb_spec k' "/a/b/c") as [->|]; [|discriminate].
  vm_compute. discriminate.
Defined.
