(* ===== verification/Json.v ===== *)
(** * JSON values

    The values of [serde_json], the library the program parses requests with:
    its data type, with objects that keep the order of their keys (the build
    enables [preserve_order]), and the documented accessors of [Value] and
    [Number].  Parsing and printing JSON text stay parameters of the files that
    need them. *)

From S2P Require Import Prelude.

(** A number is a non-negative integer, a negative integer or a float. *)
Inductive number :=
  | PosInt (n : Z)
  | NegInt (n : Z)
  | Float (f : f64).

Inductive json :=
  | JNull
  | JBool (b : bool)
  | JNumber (n : number)
  | JString (s : string)
  | JArray (l : list json)
  | JObject (m : list (string * json)).

Definition json_object := list (string * json).

Section JsonInd.
Context (P : json -> Prop).
Context (Hnull : P JNull) (Hbool : forall b, P (JBool b)) (Hnum : forall n, P (JNumber n)).
Context (Hstr : forall s, P (JString s)).
Context (Harr : forall l, Forall P l -> P (JArray l)).
Context (Hobj : forall m, Forall (fun kv => P kv.2) m -> P (JObject m)).

Fixpoint json_nested_ind (j : json) : P j :=
  match j with
  | JNull => Hnull
  | JBool b => Hbool b
  | JNumber n => Hnum n
  | JString s => Hstr s
  | JArray l => Harr l
      ((fix go l : Forall P l := match l with
        | [] => List.Forall_nil _
        | x :: l' => List.Forall_cons _ _ _ (json_nested_ind x) (go l')
        end) l)
  | JObject m => Hobj m
      ((fix go m : Forall (fun kv => P kv.2) m := match m with
        | [] => List.Forall_nil _
        | kv :: m' => List.Forall_cons _ _ _ (json_nested_ind kv.2) (go m')
        end) m)
  end.
End JsonInd.

Definition is_i64 (n : number) : bool :=
  match n with
  | PosInt n => (n <=? i64_max)%Z
  | NegInt _ => true
  | Float _ => false
  end.
Definition is_u64 (n : number) : bool :=
  match n with PosInt _ => true | _ => false end.
Definition is_f64 (n : number) : bool :=
  match n with Float _ => true | _ => false end.

Definition num_as_i64 (n : number) : option Z :=
  match n with
  | PosInt n => if (n <=? i64_max)%Z then Some n else None
  | NegInt n => Some n
  | Float _ => None
  end.
Definition num_as_u64 (n : number) : option Z :=
  match n with PosInt n => Some n | _ => None end.
Definition num_as_f64 (n : number) : option f64 :=
  match n with
  | PosInt n | NegInt n => Some (f64_of_Z n)
  | Float f => Some f
  end.

Definition as_object (j : json) : option json_object :=
  match j with JObject m => Some m | _ => None end.
Definition as_array (j : json) : option (list json) :=
  match j with JArray l => Some l | _ => None end.
Definition as_str (j : json) : option string :=
  match j with JString s => Some s | _ => None end.
Definition as_bool (j : json) : option bool :=
  match j with JBool b => Some b | _ => None end.
Definition as_f64 (j : json) : option f64 :=
  match j with JNumber n => num_as_f64 n | _ => None end.

(** [Value::get] with a string key. *)
Definition json_get (key : string) (j : json) : option json :=
  match j with JObject m => alist_get key m | _ => None end.

(** A number as the library builds it from an [f64] ([From<f64>]): a number
    that is not finite becomes [null]. *)
Definition f64_is_finite (f : f64) : bool :=
  match f with
  | SpecFloat.S754_zero _ | SpecFloat.S754_finite _ _ _ => true
  | _ => false
  end.
Definition json_of_f64 (f : f64) : json :=
  if f64_is_finite f then JNumber (Float f) else JNull.

(** JSON text: the parser and the printer of the library. *)
Class JsonText := {
  json_parse : string -> option json;
  json_print : json -> string;
}.
