(* ===== verification/EntityValue.v ===== *)
(** * Entity values ([server/src/datastore/value.rs])

    The values of fields as the server handles them between the database, JSON
    and JavaScript: the data type, the conversion from JSON, the typed
    accessors and the comparisons with plain values.  The conversions to and
    from the JavaScript engine's handles are not modelled. *)

From S2P Require Import Prelude Json.

(** A [Map] is a Rust [HashMap]: an association list with distinct keys, in
    the map's own (arbitrary) iteration order. *)
Inductive EntityValue :=
  | EvNull
  | EvString (s : string)
  | EvFloat64 (f : f64)
  | EvInt64 (n : Z)
  | EvBoolean (b : bool)
  | EvJsDate (f : f64)
  | EvBytes (bytes : list Z)
  | EvArray (l : list EntityValue)
  | EvMap (m : list (string * EntityValue)).

Definition EntityArray := list EntityValue.
Definition EntityMap := list (string * EntityValue).

Fixpoint from_json (v : json) : result EntityValue :=
  match v with
  | JNull => Ok EvNull
  | JBool v => Ok (EvBoolean v)
  | JNumber v =>
      f ← option_context (num_as_f64 v) "cannot convert json number to f64";
      Ok (EvFloat64 f)
  | JString v => Ok (EvString v)
  | JArray v =>
      value_vec ← foldM (fun acc x => y ← from_json x; Ok (acc ++ [y])) [] v;
      Ok (EvArray value_vec)
  | JObject v =>
      value_map ← foldM (fun acc '(key, value) =>
        v ← from_json value; Ok (alist_insert key v acc)) [] v;
      Ok (EvMap value_map)
  end.

Definition kind_str (v : EntityValue) : string :=
  match v with
  | EvNull => "Null"
  | EvString _ => "String"
  | EvFloat64 _ => "Float64"
  | EvInt64 _ => "Int64"
  | EvBoolean _ => "Boolean"
  | EvJsDate _ => "JsDate"
  | EvBytes _ => "Bytes"
  | EvArray _ => "Array"
  | EvMap _ => "Record"
  end.

Definition is_null (v : EntityValue) : bool := match v with EvNull => true | _ => false end.

(** The macros [define_is_method!], [as_ref!], [as_copy!] and [try_into!]. *)
Definition is_string (v : EntityValue) : bool := match v with EvString _ => true | _ => false end.
Definition is_f64 (v : EntityValue) : bool := match v with EvFloat64 _ => true | _ => false end.
Definition is_i64 (v : EntityValue) : bool := match v with EvInt64 _ => true | _ => false end.
Definition is_boolean (v : EntityValue) : bool := match v with EvBoolean _ => true | _ => false end.
Definition is_date (v : EntityValue) : bool := match v with EvJsDate _ => true | _ => false end.
Definition is_bytes (v : EntityValue) : bool := match v with EvBytes _ => true | _ => false end.
Definition is_array (v : EntityValue) : bool := match v with EvArray _ => true | _ => false end.
Definition is_map (v : EntityValue) : bool := match v with EvMap _ => true | _ => false end.

Definition conversion_error {A} (typ : string) (v : EntityValue) : result A :=
  bail ("tried to convert entity value to " +:+ typ +:+ ", but it is of type " +:+ kind_str v).

Definition as_str (v : EntityValue) : result string :=
  match v with EvString s => Ok s | _ => conversion_error "str" v end.
Definition as_f64 (v : EntityValue) : result f64 :=
  match v with EvFloat64 f => Ok f | _ => conversion_error "f64" v end.
Definition as_i64 (v : EntityValue) : result Z :=
  match v with EvInt64 n => Ok n | _ => conversion_error "i64" v end.
Definition as_bool (v : EntityValue) : result bool :=
  match v with EvBoolean b => Ok b | _ => conversion_error "bool" v end.
Definition as_date (v : EntityValue) : result f64 :=
  match v with EvJsDate f => Ok f | _ => conversion_error "f64" v end.
Definition as_bytes (v : EntityValue) : result (list Z) :=
  match v with EvBytes b => Ok b | _ => conversion_error "[u8]" v end.
Definition as_array (v : EntityValue) : result EntityArray :=
  match v with EvArray l => Ok l | _ => conversion_error "EntityArray" v end.
Definition as_map (v : EntityValue) : result EntityMap :=
  match v with EvMap m => Ok m | _ => conversion_error "EntityMap" v end.

Definition eq_f64 (value : EntityValue) (other : f64) : bool :=
  match as_f64 value with Ok i => f64_eqb i other | _ => false end.
Definition eq_bool (value : EntityValue) (other : bool) : bool :=
  match as_bool value with Ok i => Bool.eqb i other | _ => false end.
Definition eq_str (value : EntityValue) (other : string) : bool :=
  match as_str value with Ok i => String.eqb i other | _ => false end.

(** ** The value a JSON text stands for *)

Inductive denotes : json -> EntityValue -> Prop :=
  | den_null : denotes JNull EvNull
  | den_bool b : denotes (JBool b) (EvBoolean b)
  | den_int n f : f = f64_of_Z n -> denotes (JNumber (PosInt n)) (EvFloat64 f)
  | den_neg n f : f = f64_of_Z n -> denotes (JNumber (NegInt n)) (EvFloat64 f)
  | den_float f : denotes (JNumber (Float f)) (EvFloat64 f)
  | den_string s : denotes (JString s) (EvString s)
  | den_array l l' : Forall2 denotes l l' -> denotes (JArray l) (EvArray l')
  | den_object m m' :
      (forall k, k ∈ m.*1 <-> k ∈ m'.*1) ->
      (forall k j, (k, j) ∈ m -> exists v, alist_get k m' = Some v /\ denotes j v) ->
      denotes (JObject m) (EvMap m').

(** Objects have one value per key, at every level. *)
Fixpoint distinct_keys (j : json) : Prop :=
  match j with
  | JArray l => foldr (fun x P => distinct_keys x /\ P) True l
  | JObject m => NoDup m.*1 /\ foldr (fun kv P => distinct_keys kv.2 /\ P) True m
  | _ => True
  end.

Lemma distinct_forall {A} (P : A -> Prop) l : foldr (fun x Q => P x /\ Q) True l <-> Forall P l.
Proof. induction l; cbn; [done|]. by rewrite Forall_cons, IHl. Qed.

Lemma alist_insert_keys {A} k (v : A) l x : x ∈ (alist_insert k v l).*1 <-> x = k \/ x ∈ l.*1.
Proof.
  induction l as [|[k' v'] l IH]; cbn; [set_solver|].
  destruct (String.eqb_spec k k') as [->|]; cbn; set_solver.
Qed.

Lemma from_json_array l : forall acc,
  Forall (fun j => distinct_keys j -> exists v, from_json j = Ok v /\ denotes j v) l ->
  Forall distinct_keys l ->
  exists l', foldM (fun acc x => y ← from_json x; Ok (acc ++ [y])) acc l = Ok (acc ++ l') /\
    Forall2 denotes l l'.
Proof.
  induction l as [|j l IH]; intros acc HP Hd; cbn.
  { exists []. by rewrite app_nil_r. }
  apply Forall_cons in HP as [Hj HP], Hd as [Hdj Hd].
  destruct (Hj Hdj) as (v & -> & Hv). cbn.
  destruct (IH (acc ++ [v]) HP Hd) as (l' & -> & Hl').
  exists (v :: l'). rewrite <- app_assoc. by split; [|constructor].
Qed.

Lemma from_json_object m : forall acc,
  Forall (fun kv => distinct_keys kv.2 -> exists v, from_json kv.2 = Ok v /\ denotes kv.2 v) m ->
  Forall (fun kv => distinct_keys kv.2) m -> NoDup m.*1 ->
  exists m', foldM (fun acc '(key, value) =>
      v ← from_json value; Ok (alist_insert key v acc)) acc m = Ok m' /\
    (forall k, k ∈ m'.*1 <-> k ∈ acc.*1 \/ k ∈ m.*1) /\
    (forall k, k ∉ m.*1 -> alist_get k m' = alist_get k acc) /\
    (forall k j, (k, j) ∈ m -> exists v, alist_get k m' = Some v /\ denotes j v).
Proof.
  induction m as [|[k0 j0] m IH]; intros acc HP Hd Hnd; cbn.
  { exists acc. repeat split; set_solver. }
  apply Forall_cons in HP as [Hj HP], Hd as [Hdj Hd]. apply NoDup_cons in Hnd as [Hk0 Hnd].
  destruct (Hj Hdj) as (v0 & Hv0 & Hden). cbn in Hv0. rewrite Hv0; cbn.
  destruct (IH (alist_insert k0 v0 acc) HP Hd Hnd) as (m' & -> & Hkeys & Hother & Hin).
  exists m'. split; [done|]. split; [|split].
  - intros k. rewrite Hkeys, alist_insert_keys. set_solver.
  - intros k Hk. apply not_elem_of_cons in Hk as [Hne Hk]. rewrite Hother, alist_get_insert by done.
    by destruct (String.eqb_spec k k0).
  - intros k j [[= -> ->]|Hkj]%elem_of_cons; [|by apply Hin].
    exists v0. rewrite Hother, alist_get_insert, String.eqb_refl by done. done.
Qed.

(** ** Properties *)

(** The conversion from JSON accepts every JSON value, never panics, and
    denotes it: scalars as themselves (integers as the nearest double), arrays
    element by element, objects key by key. *)
Theorem from_json_total j : distinct_keys j -> exists v, from_json j = Ok v /\ denotes j v.
Proof.
  induction j as [|b|[n|n|f]|s|l IH|m IH] using json_nested_ind; cbn [distinct_keys from_json];
    intros Hd; try (eexists; split; [done|by constructor]).
  - apply distinct_forall in Hd. destruct (from_json_array l [] IH Hd) as (l' & -> & Hl').
    eexists; split; [done|]. by constructor.
  - destruct Hd as [Hnd Hd].
    apply (distinct_forall (fun kv => distinct_keys kv.2)) in Hd.
    destruct (from_json_object m [] IH Hd Hnd) as (m' & -> & Hkeys & _ & Hin).
    eexists; split; [done|]. constructor; [|done]. intros k. rewrite Hkeys. set_solver.
Qed.

Lemma from_json_total_witness :
  exists v, from_json (JObject [("a", JArray [JNumber (PosInt 1); JNull])]) = Ok v /\
    denotes (JObject [("a", JArray [JNumber (PosInt 1); JNull])]) v.
Proof.
  apply from_json_total. cbn. split; [|tauto].
  apply NoDup_singleton.
Defined.
