(* ===== verification/Expr.v ===== *)
(** * Query expressions ([server/src/datastore/expr.rs])

    The expressions filters are made of, their constructors, and the
    conversion of JSON scalars to expression values.  [Module Sem] gives
    expressions their meaning on a row, with SQL's three truth values; it is
    the reference the translations into expressions are proved against. *)

From S2P Require Import Prelude Json.

(** ** Data *)

Inductive Value :=
  | VBool (b : bool)
  | VU64 (n : Z)
  | VI64 (n : Z)
  | VF64 (f : f64)
  | VString (s : string)
  | VNull.

Inductive BinaryOp :=
  | OpEq | OpNotEq | OpLt | OpLtEq | OpGt | OpGtEq | OpAnd | OpOr | OpLike | OpNotLike.

#[export] Instance BinaryOp_eq_dec : EqDecision BinaryOp.
Proof. solve_decision. Defined.

Inductive Expr :=
  | EValue (value : Value)
  | EParameter (position : nat)
  | EProperty (property : string) (object : Expr)
  | EBinary (left : Expr) (op : BinaryOp) (right : Expr)
  | ENot (e : Expr).

#[export] Instance Value_eq_dec : EqDecision Value.
Proof. solve_decision. Defined.
#[export] Instance Expr_eq_dec : EqDecision Expr.
Proof. solve_decision. Defined.

(** The structs [PropertyAccess] and [BinaryExpr] that the two variants of
    [Expr] carry, and the [From] conversions into the variants. *)
Record PropertyAccess := { pa_property : string; pa_object : Expr }.
Record BinaryExpr := { be_left : Expr; be_op : BinaryOp; be_right : Expr }.

Definition expr_of_value (v : Value) : Expr := EValue v.
Definition expr_of_property (p : PropertyAccess) : Expr :=
  EProperty (pa_property p) (pa_object p).
Definition expr_of_binary (b : BinaryExpr) : Expr :=
  EBinary (be_left b) (be_op b) (be_right b).

(** ** Operations *)

Definition binary_new (op : BinaryOp) (lhs rhs : Expr) : BinaryExpr :=
  {| be_left := lhs; be_op := op; be_right := rhs |}.

Definition mk_eq (lhs rhs : Expr) : Expr := expr_of_binary (binary_new OpEq lhs rhs).
Definition mk_and (lhs rhs : Expr) : Expr := expr_of_binary (binary_new OpAnd lhs rhs).
Definition mk_or (lhs rhs : Expr) : Expr := expr_of_binary (binary_new OpOr lhs rhs).

Definition to_sql_string (op : BinaryOp) : string :=
  match op with
  | OpEq => "="
  | OpNotEq => "!="
  | OpLt => "<"
  | OpLtEq => "<="
  | OpGt => ">"
  | OpGtEq => ">="
  | OpAnd => "AND"
  | OpOr => "OR"
  | OpLike => "LIKE"
  | OpNotLike => "NOT LIKE"
  end.

(** [Value::try_from(&JsonValue)] *)
Definition value_try_from (j : json) : result Value :=
  match j with
  | JNull => Ok VNull
  | JBool b => Ok (VBool b)
  | JNumber n =>
      if is_i64 n then VI64 <$> unwrap (num_as_i64 n) "as_i64"
      else if is_u64 n then VU64 <$> unwrap (num_as_u64 n) "as_u64"
      else if is_f64 n then VF64 <$> unwrap (num_as_f64 n) "as_f64"
      else bail "Trying to convert JSON value to Expression Value which is not supported"
  | JString s => Ok (VString s)
  | JArray _ => bail "Trying to convert JSON Array to Expression Value which is not supported"
  | JObject _ => bail "Trying to convert JSON Object to Expression Value which is not supported"
  end.

(** [From<&JsonValue>]: [try_from(json).unwrap()] *)
Definition value_from_json (j : json) : result Value :=
  match value_try_from j with
  | Ok v => Ok v
  | Err _ => Panic "called `Result::unwrap()` on an `Err` value"
  | Panic w => Panic w
  end.

(** ** Meaning *)

Module Sem.

(** A truth value of SQL: [None] is unknown. *)
Definition tri := option bool.

Definition tri_and (a b : tri) : tri :=
  match a, b with
  | Some false, _ | _, Some false => Some false
  | Some true, Some true => Some true
  | _, _ => None
  end.
Definition tri_or (a b : tri) : tri :=
  match a, b with
  | Some true, _ | _, Some true => Some true
  | Some false, Some false => Some false
  | _, _ => None
  end.
Definition tri_not (a : tri) : tri := negb <$> a.

Definition truth (v : Value) : tri := match v with VBool b => Some b | _ => None end.
Definition of_tri (t : tri) : Value := match t with Some b => VBool b | None => VNull end.

(** Two values in one order, where they have one: [NULL], [NaN] and values of
    different kinds do not compare. *)
Definition bool_compare (a b : bool) : comparison :=
  match a, b with
  | false, true => Lt
  | true, false => Gt
  | _, _ => Eq
  end.
Definition vcompare (a b : Value) : option comparison :=
  match a, b with
  | VBool a, VBool b => Some (bool_compare a b)
  | VU64 a, VU64 b | VI64 a, VI64 b | VU64 a, VI64 b | VI64 a, VU64 b => Some (Z.compare a b)
  | VF64 a, VF64 b => SpecFloat.SFcompare a b
  | VF64 a, (VU64 b | VI64 b) => SpecFloat.SFcompare a (f64_of_Z b)
  | (VU64 a | VI64 a), VF64 b => SpecFloat.SFcompare (f64_of_Z a) b
  | VString a, VString b => Some (String.compare a b)
  | _, _ => None
  end.

(** What a comparison operator asks of the order of its operands. *)
Definition cmp_holds (op : BinaryOp) (c : comparison) : bool :=
  match op, c with
  | OpEq, Eq | OpNotEq, (Lt | Gt) | OpLt, Lt | OpLtEq, (Lt | Eq)
  | OpGt, Gt | OpGtEq, (Gt | Eq) => true
  | _, _ => false
  end.

(** The chain of property names an access walks from the entity. *)
Fixpoint chain (e : Expr) : option (list string) :=
  match e with
  | EParameter 0 => Some []
  | EProperty p o => (fun c => c ++ [p]) <$> chain o
  | _ => None
  end.

(** A row: the value at the end of every property chain. *)
Definition row := list string -> Value.

Section Eval.
(** SQL's [LIKE] on two strings. *)
Context (like : string -> string -> bool).

Fixpoint eval (r : row) (e : Expr) : Value :=
  match e with
  | EValue v => v
  | EParameter _ => VNull
  | EProperty p o => match chain o with Some c => r (c ++ [p]) | None => VNull end
  | ENot e => of_tri (tri_not (truth (eval r e)))
  | EBinary a op b =>
      let va := eval r a in let vb := eval r b in
      match op with
      | OpAnd => of_tri (tri_and (truth va) (truth vb))
      | OpOr => of_tri (tri_or (truth va) (truth vb))
      | OpLike => match va, vb with VString a, VString b => VBool (like a b) | _, _ => VNull end
      | OpNotLike =>
          match va, vb with VString a, VString b => VBool (negb (like a b)) | _, _ => VNull end
      | _ => of_tri (cmp_holds op <$> vcompare va vb)
      end
  end.

(** Does the filter keep the row? *)
Definition sat (r : row) (e : Expr) : tri := truth (eval r e).

Lemma truth_of_tri t : truth (of_tri t) = t.
Proof. by destruct t. Qed.

Lemma sat_and r a b : sat r (mk_and a b) = tri_and (sat r a) (sat r b).
Proof. apply truth_of_tri. Qed.

Lemma sat_or r a b : sat r (mk_or a b) = tri_or (sat r a) (sat r b).
Proof. apply truth_of_tri. Qed.

Lemma sat_not r a : sat r (ENot a) = tri_not (sat r a).
Proof. apply truth_of_tri. Qed.

Lemma sat_bool r b : sat r (expr_of_value (VBool b)) = Some b.
Proof. done. Qed.
End Eval.

Lemma tri_and_true_l t : tri_and (Some true) t = t.
Proof. by destruct t as [[]|]. Qed.
Lemma tri_and_true_r t : tri_and t (Some true) = t.
Proof. by destruct t as [[]|]. Qed.
Lemma tri_or_false_l t : tri_or (Some false) t = t.
Proof. by destruct t as [[]|]. Qed.
Lemma tri_and_assoc a b c : tri_and a (tri_and b c) = tri_and (tri_and a b) c.
Proof. by destruct a as [[]|], b as [[]|], c as [[]|]. Qed.
Lemma tri_or_assoc a b c : tri_or a (tri_or b c) = tri_or (tri_or a b) c.
Proof. by destruct a as [[]|], b as [[]|], c as [[]|]. Qed.
Lemma tri_not_and a b : tri_not (tri_and a b) = tri_or (tri_not a) (tri_not b).
Proof. by destruct a as [[]|], b as [[]|]. Qed.

End Sem.

#[export] Hint Rewrite Sem.sat_and Sem.sat_or Sem.sat_not Sem.sat_bool
  Sem.tri_and_true_l Sem.tri_and_true_r Sem.tri_or_false_l : chisel.

(** ** Well-formed filters

    The data layer translates a filter to SQL only when every parameter stands
    at the root of a property chain. *)
Fixpoint is_chain (e : Expr) : bool :=
  match e with
  | EParameter 0 => true
  | EProperty _ o => is_chain o
  | _ => false
  end.

Fixpoint expr_wf (e : Expr) : bool :=
  match e with
  | EValue _ => true
  | EParameter _ => false
  | EProperty _ o => is_chain o
  | EBinary a _ b => expr_wf a && expr_wf b
  | ENot e => expr_wf e
  end.

Lemma is_chain_chain e : is_chain e = true <-> is_Some (Sem.chain e).
Proof.
  induction e as [v|p|p o IH|a _ op b _|e _]; cbn;
    try (split; [done|by intros [? [=]]]).
  - destruct p; [|by split; [|intros [? [=]]]]. by split; [intros _; exists []|].
  - by rewrite IH, fmap_is_Some.
Qed.

Lemma value_try_from_scalar j v : value_try_from j = Ok v ->
  match j with JArray _ | JObject _ => False | _ => True end.
Proof. by destruct j. Qed.

Lemma value_try_from_no_panic j : is_panic (value_try_from j) = false.
Proof.
  destruct j as [| |[n|n|f]| | |]; cbn; try done.
  by destruct (_ <=? _)%Z.
Qed.

#[export] Hint Resolve value_try_from_no_panic : chisel.
