(* ===== verification/Ident.v ===== *)
(** * Identifiers ([server/src/datastore/query.rs] and [rpc.rs], the helpers)

    Column aliases, table aliases and index names are cut to the 63 bytes
    Postgres allows, at a character boundary of their UTF-8 bytes; version
    names are checked against a fixed pattern. *)

From S2P Require Import Prelude.

(** A byte that starts a character: [(b as i8) >= -0x40]. *)
Definition is_continuation (c : ascii) : bool :=
  ((128 <=? nat_of_ascii c) && (nat_of_ascii c <? 192)).

(** [str::is_char_boundary] *)
Definition is_char_boundary (s : string) (idx : nat) : bool :=
  match idx with
  | 0 => true
  | _ => match String.get idx s with
         | Some c => negb (is_continuation c)
         | None => idx =? String.length s
         end
  end.

(** [while !s.is_char_boundary(idx) { idx -= 1; }] *)
Fixpoint boundary_before (s : string) (idx : nat) : nat :=
  if is_char_boundary s idx then idx
  else match idx with 0 => 0 | S idx' => boundary_before s idx' end.

Definition max_prefix (s : string) (max_len : nat) : string :=
  if String.length s <=? max_len then s
  else str_take (boundary_before s max_len) s.

Definition truncate_identifier (s : string) : string := max_prefix s 63.

(** The pattern [^[-_[[:alnum:]]]+$] of [validate_version_id]. *)
Definition is_version_char (c : ascii) : bool :=
  let n := nat_of_ascii c in
  (n =? 45) || (n =? 95) || ((48 <=? n) && (n <=? 57)) ||
  ((65 <=? n) && (n <=? 90)) || ((97 <=? n) && (n <=? 122)).

Fixpoint all_version_chars (s : string) : bool :=
  match s with
  | EmptyString => true
  | String c s' => is_version_char c && all_version_chars s'
  end.

Definition validate_version_id (version_id : string) : result string :=
  _ ← ensure (negb (String.eqb version_id "__chiselstrike"))
        "Version is special and cannot be used";
  _ ← ensure (negb (str_is_empty version_id) && all_version_chars version_id)
        "Version can only be alphanumeric, _ or -";
  Ok version_id.

(** UTF-8: a character is a leading byte and at most three continuation
    bytes. *)
Inductive utf8 : string -> Prop :=
  | utf8_nil : utf8 EmptyString
  | utf8_char c conts s :
      is_continuation c = false ->
      List.length conts <= 3 ->
      Forall (fun d => is_continuation d = true) conts ->
      utf8 s ->
      utf8 (String c (foldr String s conts)).

(** ** Lemmas *)

Lemma boundary_before_le s n : boundary_before s n <= n.
Proof.
  induction n as [|n IH]; cbn [boundary_before]; [by destruct (is_char_boundary _ _)|].
  destruct (is_char_boundary _ _); lia.
Qed.

Lemma boundary_before_boundary s n : is_char_boundary s (boundary_before s n) = true.
Proof.
  induction n as [|n IH]; cbn [boundary_before]; [done|].
  by destruct (is_char_boundary s (S n)) eqn:E.
Qed.

Lemma boundary_before_greatest s n k :
  k <= n -> is_char_boundary s k = true -> k <= boundary_before s n.
Proof.
  induction n as [|n IH]; cbn [boundary_before]; intros Hk Hb; [lia|].
  destruct (is_char_boundary s (S n)) eqn:E; [done|].
  apply IH; [|done]. destruct (decide (k = S n)) as [->|]; [congruence|lia].
Qed.

Lemma str_take_length n s : String.length (str_take n s) = Nat.min n (String.length s).
Proof. revert s; induction n; intros [|c s]; cbn; auto. Qed.

Lemma str_take_starts n s : starts_with s (str_take n s) = true.
Proof. apply starts_with_iff. exists (str_drop n s). by rewrite str_take_drop. Qed.

Lemma max_prefix_length s n : String.length (max_prefix s n) <= n.
Proof.
  unfold max_prefix. destruct (_ <=? _) eqn:E; [by apply Nat.leb_le|].
  rewrite str_take_length. pose proof (boundary_before_le s n). lia.
Qed.

Lemma get_conts conts s i :
  i < List.length conts -> String.get i (foldr String s conts) = conts !! i.
Proof.
  revert i. induction conts as [|c conts IH]; cbn; intros i Hi; [lia|].
  destruct i; cbn; [done|]. apply IH. lia.
Qed.

Lemma get_after_conts conts s i :
  String.get (List.length conts + i) (foldr String s conts) = String.get i s.
Proof. induction conts; cbn; auto. Qed.

Lemma length_conts conts s :
  String.length (foldr String s conts) = List.length conts + String.length s.
Proof. induction conts; cbn; auto. Qed.

(** In UTF-8 text a boundary is never more than three bytes away. *)
Lemma utf8_boundary_near s : utf8 s -> forall n, n <= String.length s ->
  exists k, k <= n /\ n <= k + 3 /\ is_char_boundary s k = true.
Proof.
  induction 1 as [|c conts s Hc Hlen Hconts Hs IH]; cbn; intros n Hn.
  { exists 0. repeat split; lia. }
  rewrite length_conts in Hn.
  destruct (decide (n <= List.length conts)).
  { exists 0. repeat split; lia. }
  destruct (IH (n - S (List.length conts)) ltac:(lia)) as (k & ? & ? & Hk).
  exists (S (List.length conts + k)). repeat split; [lia..|].
  cbn. rewrite get_after_conts, length_conts.
  destruct k as [|k]; cbn in Hk.
  - inversion Hs as [|c' ? ? Hc']; subst; cbn; [apply Nat.eqb_eq; lia|]. by rewrite Hc'.
  - destruct (String.get (S k) s); [done|].
    apply Nat.eqb_eq. destruct (String.length s); [done|]. apply Nat.eqb_eq in Hk. lia.
Qed.

Lemma version_chars_no c s : all_version_chars s = true -> is_version_char c = false ->
  ~ In c (String.list_ascii_of_string s).
Proof.
  intros Hs Hc. induction s as [|d s IH]; cbn in *; [tauto|].
  apply andb_prop in Hs as [Hd Hs]. intros [->|Hin]; [congruence|by apply IH].
Qed.

Lemma validate_version_id_ok v w : validate_version_id v = Ok w ->
  w = v /\ v <> "" /\ v <> "__chiselstrike" /\ all_version_chars v = true.
Proof.
  unfold validate_version_id. intros H. inv_ok.
  apply andb_prop in H0 as [He Hc]. repeat split; [by intros ->| |done].
  intros ->. done.
Qed.

(** What follows a name that is already too long does not matter. *)
Lemma get_app s r k : k < String.length s -> String.get k (s +:+ r) = String.get k s.
Proof.
  revert k. induction s as [|c s IH]; cbn; intros k Hk; [lia|].
  destruct k; [done|]. apply IH. lia.
Qed.

Lemma get_end s c r : String.get (String.length s) (s +:+ String c r) = Some c.
Proof. induction s; cbn; auto. Qed.

Lemma get_beyond s k : String.length s <= k -> String.get k s = None.
Proof. revert k. induction s; cbn; intros k Hk; [done|]. destruct k; [lia|]. apply IHs. lia. Qed.

Lemma boundary_app s c r k : k <= String.length s -> is_continuation c = false ->
  is_char_boundary (s +:+ String c r) k = is_char_boundary s k.
Proof.
  intros Hk Hc. unfold is_char_boundary. destruct k as [|k]; [done|].
  destruct (decide (S k = String.length s)) as [Heq|].
  - rewrite Heq, get_end, get_beyond, Hc, Nat.eqb_refl by lia. done.
  - rewrite get_app by lia. destruct (String.get (S k) s) eqn:E; [done|].
    assert (forall (s : string) k, k < String.length s -> String.get k s <> None) as Hsome.
    { clear. induction s as [|c s IH]; cbn; intros k Hk; [lia|]. destruct k; [done|]. apply IH. lia. }
    by destruct (Hsome s (S k) ltac:(lia)).
Qed.

Lemma str_take_app_le n s r : n <= String.length s -> str_take n (s +:+ r) = str_take n s.
Proof.
  revert s. induction n as [|n IH]; intros [|c s] H; cbn in *; try done; try lia.
  f_equal. apply IH. lia.
Qed.

Lemma str_take_all s : str_take (String.length s) s = s.
Proof. induction s; cbn; congruence. Qed.

Lemma max_prefix_app s c r n : n <= String.length s -> is_continuation c = false ->
  max_prefix (s +:+ String c r) n = max_prefix s n.
Proof.
  intros Hn Hc. unfold max_prefix. rewrite str_length_app. cbn [String.length].
  rewrite (proj2 (Nat.leb_gt (String.length s + S (String.length r)) n)) by lia.
  assert (forall k, k <= String.length s ->
    boundary_before (s +:+ String c r) k = boundary_before s k) as Hb.
  { induction k as [|k IH]; intros Hk; cbn [boundary_before]; rewrite boundary_app by done; [done|].
    destruct (is_char_boundary s (S k)); [done|]. apply IH. lia. }
  rewrite Hb by done. pose proof (boundary_before_le s n).
  rewrite str_take_app_le by lia.
  destruct (String.length s <=? n) eqn:E; [|done]. apply Nat.leb_le in E.
  assert (n = String.length s) as -> by lia.
  enough (boundary_before s (String.length s) = String.length s) as -> by apply str_take_all.
  destruct s as [|d s]; [done|]. cbn [String.length boundary_before is_char_boundary].
  rewrite get_beyond by (cbn; lia). by rewrite Nat.eqb_refl.
Qed.

(** ** Properties *)

(** C40: a truncated identifier is a prefix of the name, fits in 63 bytes, is
    the name itself when that fits, and otherwise ends at the last character
    boundary within 63 bytes: for UTF-8 text it keeps at least 60 bytes. *)
Theorem truncate_identifier_spec s :
  starts_with s (truncate_identifier s) = true /\
  String.length (truncate_identifier s) <= 63 /\
  (String.length s <= 63 -> truncate_identifier s = s) /\
  is_char_boundary s (String.length (truncate_identifier s)) = true /\
  (forall k, k <= 63 -> k <= String.length s -> is_char_boundary s k = true ->
    k <= String.length (truncate_identifier s)) /\
  (utf8 s -> 63 < String.length s -> 60 <= String.length (truncate_identifier s)).
Proof.
  assert (63 < String.length s ->
    String.length (truncate_identifier s) = boundary_before s 63) as Hlong.
  { intros Hs. unfold truncate_identifier, max_prefix.
    rewrite (proj2 (Nat.leb_gt _ _) Hs), str_take_length.
    pose proof (boundary_before_le s 63). lia. }
  split; [|split; [apply max_prefix_length|split]].
  - unfold truncate_identifier, max_prefix.
    destruct (_ <=? _); [apply starts_with_refl|apply str_take_starts].
  - intros Hs. unfold truncate_identifier, max_prefix.
    by rewrite (proj2 (Nat.leb_le _ _) Hs).
  - destruct (decide (String.length s <= 63)) as [Hs|Hs%Nat.nle_gt].
    + unfold truncate_identifier, max_prefix. rewrite (proj2 (Nat.leb_le _ _) Hs).
      split; [|split; [done|lia]].
      destruct s as [|c s]; [done|]. cbn.
      replace (String.get (String.length s) s) with (@None ascii)
        by (clear; induction s; cbn; auto).
      apply Nat.eqb_refl.
    + rewrite (Hlong Hs). split; [apply boundary_before_boundary|split].
      * intros k Hk _. by apply boundary_before_greatest.
      * intros Hu _. destruct (utf8_boundary_near s Hu 63 ltac:(lia)) as (k & ? & ? & Hk).
        transitivity k; [lia|]. by apply boundary_before_greatest.
Qed.
