(* ===== verification/Filter.v ===== *)
(** * JSON filters ([server/src/datastore/filter.rs])

    The translation of the JSON filter language of the CRUD API ([$and], [$or],
    [$not], field filters with comparison operators, nested fields) to query
    expressions.  [Module Ref] reads a filter object directly, as a condition
    on rows; the translation is proved to have that meaning, to produce only
    expressions the data layer can turn to SQL, to stop at the documented depth
    and never to panic. *)

From S2P Require Import Prelude Json Expr.

(** ** The translation *)

Definition field_op (op_name : string) : option BinaryOp :=
  if String.eqb op_name "$eq" then Some OpEq
  else if String.eqb op_name "$ne" then Some OpNotEq
  else if String.eqb op_name "$gt" then Some OpGt
  else if String.eqb op_name "$gte" then Some OpGtEq
  else if String.eqb op_name "$lt" then Some OpLt
  else if String.eqb op_name "$lte" then Some OpLtEq
  else None.

Fixpoint field_filter_to_expr_rec (depth : Z) (property : PropertyAccess) (value : json)
    {struct value} : result Expr :=
  _ ← ensure (depth <=? 100)%Z "reached maximum field filter recursion depth of 100";
  match value with
  | JObject obj =>
      foldM (fun expr '(key, value) =>
        let property_expr := expr_of_property property in
        field_filter ←
          (if starts_with key "$" then
             op ← option_context (field_op key) "encountered unknown comparison operator";
             expr_value ← value_try_from value;
             Ok (expr_of_binary (binary_new op property_expr (expr_of_value expr_value)))
           else
             let nested_field := {| pa_property := key; pa_object := property_expr |} in
             field_filter_to_expr_rec (depth + 1) nested_field value);
        Ok (mk_and expr field_filter))
      (expr_of_value (VBool true)) obj
  | _ =>
      expr_value ← value_try_from value;
      Ok (mk_eq (expr_of_property property) (expr_of_value expr_value))
  end.

Definition filed_filter_to_expr (field_name : string) (value : json) : result Expr :=
  let property := {| pa_property := field_name; pa_object := EParameter 0 |} in
  field_filter_to_expr_rec 0 property value.

Fixpoint to_expr_rec (depth : Z) (e : json) {struct e} : result Expr :=
  _ ← ensure (depth <=? 100)%Z "reached maximum expression filter recursion depth of 100";
  match e with
  | JObject filter_obj =>
      foldM (fun expr '(key, value) =>
        e ←
          (if String.eqb key "$and" then
             match value with
             | JArray operands =>
                 foldM (fun expr operand =>
                   o ← to_expr_rec (depth + 1) operand;
                   Ok (mk_and expr o)) (expr_of_value (VBool true)) operands
             | _ => bail "operator $and must be used with an array, but got different type"
             end
           else if String.eqb key "$or" then
             match value with
             | JArray operands =>
                 foldM (fun expr operand =>
                   o ← to_expr_rec (depth + 1) operand;
                   Ok (mk_or expr o)) (expr_of_value (VBool false)) operands
             | _ => bail "operator $or must be used with an array, but got different type"
             end
           else if String.eqb key "$not" then
             e' ← to_expr_rec (depth + 1) value; Ok (ENot e')
           else
             _ ← ensure (negb (starts_with key "$")) "found an unknown filter operator";
             filed_filter_to_expr key value);
        Ok (mk_and expr e))
      (expr_of_value (VBool true)) filter_obj
  | _ => bail "filter value is not an object"
  end.

Definition to_expr (e : json) : result Expr := to_expr_rec 0 e.

(** ** The reference reading of a filter *)

Module Ref.
Import Sem.

Definition tri_all (l : list tri) : tri := foldr tri_and (Some true) l.
Definition tri_any (l : list tri) : tri := foldr tri_or (Some false) l.

(** The comparison of a row's value with a JSON scalar. *)
Definition compare_with (op : BinaryOp) (v : Value) (j : json) : tri :=
  match value_try_from j with
  | Ok w => cmp_holds op <$> vcompare v w
  | _ => None
  end.

(** A field filter holds when all its comparisons hold; a nested object
    filters the field of that name of the related entity. *)
Fixpoint field_holds (r : row) (path : list string) (j : json) : tri :=
  match j with
  | JObject m =>
      tri_all (List.map (fun '(k, v) =>
        match field_op k with
        | Some op => compare_with op (r path) v
        | None => field_holds r (path ++ [k]) v
        end) m)
  | _ => compare_with OpEq (r path) j
  end.

(** A filter holds when all its entries hold. *)
Fixpoint holds (r : row) (j : json) : tri :=
  match j with
  | JObject m =>
      tri_all (List.map (fun '(k, v) =>
        if String.eqb k "$and" then
          match v with JArray l => tri_all (List.map (holds r) l) | _ => None end
        else if String.eqb k "$or" then
          match v with JArray l => tri_any (List.map (holds r) l) | _ => None end
        else if String.eqb k "$not" then tri_not (holds r v)
        else field_holds r [k] v) m)
  | _ => None
  end.

(** The nesting of filters inside filters. *)
Definition max_list (l : list nat) : nat := foldr Nat.max 0 l.

Fixpoint nesting (j : json) : nat :=
  match j with
  | JObject m =>
      max_list (List.map (fun '(k, v) =>
        if String.eqb k "$and" || String.eqb k "$or" then
          match v with JArray l => max_list (List.map (fun x => S (nesting x)) l) | _ => 0 end
        else if String.eqb k "$not" then S (nesting v)
        else 0) m)
  | _ => 0
  end.
End Ref.

(** ** A loop that conjoins, and its reading *)

Section Conjoin.
Context (like : string -> string -> bool) (r : Sem.row).
Context {A : Type} (g : Expr -> A -> result Expr) (mk : Expr -> Expr -> Expr).
Context (t : Sem.tri -> Sem.tri -> Sem.tri) (u : Sem.tri) (meaning : A -> Sem.tri).
Context (Hmk : forall a b, Sem.sat like r (mk a b) = t (Sem.sat like r a) (Sem.sat like r b)).
Context (Hassoc : forall a b c, t a (t b c) = t (t a b) c).
Context (Hleft : forall a, t u a = a) (Hright : forall a, t a u = a).

Lemma foldM_conjoin l e0 e :
  Sem.sat like r e0 = u ->
  (forall e1 x e2, x ∈ l -> g e1 x = Ok e2 ->
    exists a, e2 = mk e1 a /\ Sem.sat like r a = meaning x) ->
  foldM g e0 l = Ok e ->
  Sem.sat like r e = foldr t u (List.map meaning l).
Proof.
  intros He0 Hg H.
  enough (Sem.sat like r e = t (Sem.sat like r e0) (foldr t u (List.map meaning l)))
    as -> by (by rewrite He0, Hleft).
  clear He0. revert e0 H. induction l as [|x l IH]; intros e0 H; cbn in *; inv_ok.
  - by rewrite Hright.
  - destruct (Hg e0 x x0) as (a & -> & Ha); [set_solver|done|].
    rewrite (IH ltac:(intros; apply Hg; [set_solver|done]) _ H0).
    by rewrite Hmk, <- Hassoc, Ha.
Qed.
End Conjoin.

(** Induction over filters: the operands of [$and] and [$or] are the elements
    of an array that is itself an entry's value. *)
Lemma filter_ind (P : json -> Prop) :
  (forall j, match j with JObject _ => False | _ => True end -> P j) ->
  (forall m, Forall (fun kv => P kv.2 /\ forall l, kv.2 = JArray l -> Forall P l) m ->
    P (JObject m)) ->
  forall j, P j.
Proof.
  intros Hother Hobj j. enough (P j /\ forall l, j = JArray l -> Forall P l) by naive_solver.
  induction j as [|b|n|s|l IH|m IH] using json_nested_ind; split; auto; try done.
  intros l' [= <-]. by eapply Forall_impl; [exact IH|intros ? []].
Qed.

Lemma field_op_dollar k op : field_op k = Some op -> starts_with k "$" = true.
Proof.
  unfold field_op.
  repeat match goal with |- context [String.eqb k ?s] =>
    destruct (String.eqb_spec k s) as [->|]; [done|] end.
  done.
Qed.

Section Meaning.
Context (like : string -> string -> bool) (r : Sem.row).
Notation sat := (Sem.sat like r).

Lemma eval_property p c : Sem.chain (expr_of_property p) = Some c ->
  Sem.eval like r (expr_of_property p) = r c.
Proof.
  destruct p as [p o]; cbn. by destruct (Sem.chain o); cbn; intros [= <-].
Qed.

Lemma sat_comparison p c op v j : Sem.chain (expr_of_property p) = Some c ->
  (op = OpEq \/ (exists k, field_op k = Some op)) -> value_try_from j = Ok v ->
  sat (expr_of_binary (binary_new op (expr_of_property p) (expr_of_value v)))
    = Ref.compare_with op (r c) j.
Proof.
  intros Hc Hop Hv. unfold Ref.compare_with. rewrite Hv.
  assert (sat (expr_of_binary (binary_new op (expr_of_property p) (expr_of_value v))) =
    Sem.truth (Sem.of_tri (Sem.cmp_holds op <$>
       Sem.vcompare (Sem.eval like r (expr_of_property p)) v))) as ->.
  { destruct Hop as [->|[k Hk]]; [done|]. unfold field_op in Hk.
    repeat match type of Hk with context [if ?b then _ else _] => destruct b end;
      by simplify_eq. }
  by rewrite Sem.truth_of_tri, (eval_property _ _ Hc).
Qed.

Hint Resolve Sem.sat_and Sem.sat_or Sem.tri_and_assoc Sem.tri_or_assoc : core.
Hint Resolve Sem.tri_and_true_l Sem.tri_and_true_r Sem.tri_or_false_l : core.

Lemma field_filter_sat value : forall depth p c e,
  Sem.chain (expr_of_property p) = Some c ->
  field_filter_to_expr_rec depth p value = Ok e ->
  sat e = Ref.field_holds r c value.
Proof.
  induction value as [|b|n|s|l _|m IH] using json_nested_ind; intros depth p c e Hc H;
    cbn [field_filter_to_expr_rec] in H; inv_ok;
    try (apply sat_comparison; auto; fail).
  cbn [Ref.field_holds]. eapply (foldM_conjoin like r _ mk_and Sem.tri_and); eauto; [done|].
  intros e1 [k v] e2 Hin Hg. inv_ok. eexists; split; [done|].
  destruct (starts_with k "$") eqn:Hk; inv_ok.
  - rewrite H1. eapply sat_comparison; eauto.
  - destruct (field_op k) eqn:Hop; [by rewrite (field_op_dollar _ _ Hop) in Hk|].
    rewrite Forall_forall in IH. eapply (IH _ Hin); [|done].
    cbn in Hc |- *. by rewrite Hc.
Qed.

Lemma to_expr_rec_sat j : forall depth e, to_expr_rec depth j = Ok e -> sat e = Ref.holds r j.
Proof.
  induction j as [j Hj|m IH] using filter_ind; intros depth e H.
  { destruct j; cbn [to_expr_rec] in H; inv_ok; done. }
  cbn [to_expr_rec] in H; inv_ok.
  cbn [Ref.holds]. eapply (foldM_conjoin like r _ mk_and Sem.tri_and); eauto; [done|].
  intros e1 [k v] e2 Hin Hg. inv_ok. eexists; split; [done|].
  rewrite Forall_forall in IH. destruct (IH _ Hin) as [IHv IHl]. cbn [snd] in *.
  destruct (String.eqb k "$and"); [|destruct (String.eqb k "$or"); [|destruct (String.eqb k "$not")]].
  - destruct v as [| | | |l|]; try done. specialize (IHl l eq_refl). rewrite Forall_forall in IHl.
    eapply (foldM_conjoin like r _ mk_and Sem.tri_and); eauto; [done|].
    intros e3 o e4 Ho Hg'. cbn beta in Hg'. inv_ok. eexists; split; [done|]. by eapply IHl.
  - destruct v as [| | | |l|]; try done. specialize (IHl l eq_refl). rewrite Forall_forall in IHl.
    eapply (foldM_conjoin like r _ mk_or Sem.tri_or); eauto; [by intros [[]|]|done|].
    intros e3 o e4 Ho Hg'. cbn beta in Hg'. inv_ok. eexists; split; [done|]. by eapply IHl.
  - inv_ok. rewrite Sem.sat_not. f_equal. eauto.
  - inv_ok. unfold filed_filter_to_expr in *. by eapply (field_filter_sat v _ _ [k]); [|done].
Qed.
End Meaning.

(** ** Shape, depth and totality *)

Lemma foldM_expr_wf {A} (g : Expr -> A -> result Expr) l e0 e :
  expr_wf e0 = true ->
  (forall e1 x e2, x ∈ l -> g e1 x = Ok e2 -> expr_wf e1 = true -> expr_wf e2 = true) ->
  foldM g e0 l = Ok e -> expr_wf e = true.
Proof.
  intros H0 Hg. revert e0 H0. induction l as [|x l IH]; intros e0 H0 H; cbn in *; inv_ok; [done|].
  eapply IH; [|eapply Hg; [|done..]; set_solver|done].
  intros; eapply Hg; [|done..]; set_solver.
Qed.

Lemma field_filter_wf value : forall depth p e,
  is_chain (pa_object p) = true -> field_filter_to_expr_rec depth p value = Ok e ->
  expr_wf e = true.
Proof.
  induction value as [|b|n|s|l _|m IH] using json_nested_ind; intros depth p e Hc H;
    cbn [field_filter_to_expr_rec] in H; inv_ok; try (cbn; by rewrite Hc).
  eapply foldM_expr_wf; [| |done]; [done|].
  intros e1 [k v] e2 Hin Hg He1. inv_ok. cbn. apply andb_true_intro; split; [done|].
  destruct (starts_with k "$"); inv_ok; [cbn; by rewrite Hc|].
  rewrite Forall_forall in IH. by eapply (IH _ Hin); [|done].
Qed.

Lemma to_expr_rec_wf j : forall depth e, to_expr_rec depth j = Ok e -> expr_wf e = true.
Proof.
  induction j as [j Hj|m IH] using filter_ind; intros depth e H.
  { destruct j; cbn [to_expr_rec] in H; inv_ok; done. }
  cbn [to_expr_rec] in H; inv_ok. eapply foldM_expr_wf; [| |done]; [done|].
  intros e1 [k v] e2 Hin Hg He1. inv_ok. cbn. apply andb_true_intro; split; [done|].
  rewrite Forall_forall in IH. destruct (IH _ Hin) as [IHv IHl]. cbn [snd] in *.
  destruct (String.eqb k "$and"); [|destruct (String.eqb k "$or"); [|destruct (String.eqb k "$not")]].
  1,2: destruct v as [| | | |l|]; try done; specialize (IHl l eq_refl);
    rewrite Forall_forall in IHl;
    eapply foldM_expr_wf; [| |done]; [done|];
    intros e3 o e4 Ho Hg' He3; cbn beta in Hg'; inv_ok; cbn; apply andb_true_intro;
    split; [done|]; by eapply IHl.
  - inv_ok. cbn. eauto.
  - inv_ok. by eapply field_filter_wf; [|done].
Qed.

Lemma field_filter_no_panic value : forall depth p,
  is_panic (field_filter_to_expr_rec depth p value) = false.
Proof.
  induction value as [|b|n|s|l _|m IH] using json_nested_ind; intros depth p;
    cbn [field_filter_to_expr_rec]; apply is_panic_bind; auto with chisel; intros _ _;
    try (apply is_panic_bind; auto with chisel; fail).
  apply foldM_no_panic with (P := fun _ => True); [done| |done].
  intros e [k v] _ Hin. rewrite Forall_forall in IH.
  apply is_panic_bind; [|done]. destruct (starts_with k "$"); [|by apply (IH _ Hin)].
  apply is_panic_bind; auto with chisel.
Qed.

Lemma to_expr_rec_no_panic j : forall depth, is_panic (to_expr_rec depth j) = false.
Proof.
  induction j as [j Hj|m IH] using filter_ind; intros depth.
  { destruct j; try done; cbn [to_expr_rec]; by destruct (depth <=? 100)%Z. }
  cbn [to_expr_rec]. apply is_panic_bind; auto with chisel. intros _ _.
  apply foldM_no_panic with (P := fun _ => True); [done| |done].
  intros e [k v] _ Hin. rewrite Forall_forall in IH. destruct (IH _ Hin) as [IHv IHl].
  apply is_panic_bind; [|done]. cbn [snd] in *.
  destruct (String.eqb k "$and"); [|destruct (String.eqb k "$or"); [|destruct (String.eqb k "$not")]].
  1,2: destruct v as [| | | |l|]; try done; specialize (IHl l eq_refl);
    rewrite Forall_forall in IHl;
    apply foldM_no_panic with (P := fun _ => True); [done| |done];
    intros e1 o _ Ho; apply is_panic_bind; [by apply IHl|done].
  - by apply is_panic_bind; [apply IHv|].
  - apply is_panic_bind; auto with chisel. intros _ _. apply field_filter_no_panic.
Qed.

(** An accepted loop accepted each of its elements. *)
Lemma foldM_ok_each {E S A} (f : S -> A -> outcome E S) s l s' x :
  foldM f s l = Ok s' -> x ∈ l -> exists s1 s2, f s1 x = Ok s2.
Proof.
  revert s. induction l as [|y l IH]; intros s H Hx; cbn in *; [set_solver|]. inv_ok.
  apply elem_of_cons in Hx as [->|]; eauto.
Qed.

Lemma max_list_le l n : (forall x, x ∈ l -> x <= n) -> Ref.max_list l <= n.
Proof.
  induction l as [|x l IH]; cbn; [lia|]. intros H. apply Nat.max_lub; [set_solver|].
  apply IH; set_solver.
Qed.

Lemma to_expr_rec_depth j : forall depth e, (0 <= depth)%Z -> to_expr_rec depth j = Ok e ->
  (depth + Z.of_nat (Ref.nesting j) <= 100)%Z.
Proof.
  induction j as [j Hj|m IH] using filter_ind; intros depth e Hd H.
  { destruct j; cbn [to_expr_rec] in H; inv_ok; done. }
  cbn [to_expr_rec] in H; inv_ok. apply Z.leb_le in H. rename H0 into H1.
  enough (Ref.nesting (JObject m) <= Z.to_nat (100 - depth)) by lia.
  cbn [Ref.nesting]. apply max_list_le. intros n Hn.
  apply list_elem_of_fmap in Hn as ([k v] & -> & Hin).
  destruct (foldM_ok_each _ _ _ _ _ H1 Hin) as (e1 & e2 & Hg). clear H1.
  rewrite Forall_forall in IH. destruct (IH _ Hin) as [IHv IHl]. cbn [snd] in *. inv_ok.
  assert (forall l e3 mk, v = JArray l -> foldM (fun expr operand =>
      o ← to_expr_rec (depth + 1) operand; Ok (mk expr o)) e3 l = Ok x0 ->
    Ref.max_list (List.map (fun x => S (Ref.nesting x)) l) <= Z.to_nat (100 - depth)) as Hl.
  { intros l e3 mk -> Hf. specialize (IHl l eq_refl). rewrite Forall_forall in IHl.
    apply max_list_le. intros n Hn. apply list_elem_of_fmap in Hn as (o & -> & Ho).
    destruct (foldM_ok_each _ _ _ _ _ Hf Ho) as (e4 & e5 & Hg). cbn beta in Hg. inv_ok.
    enough (depth + 1 + Z.of_nat (Ref.nesting o) <= 100)%Z by lia.
    eapply IHl; [done| |done]. lia. }
  destruct (String.eqb k "$and"); [|destruct (String.eqb k "$or"); [|destruct (String.eqb k "$not")]];
    cbn [orb].
  1,2: destruct v; try done; by eapply Hl.
  - inv_ok. enough (depth + 1 + Z.of_nat (Ref.nesting v) <= 100)%Z by lia.
    eapply IHv; [|done]. lia.
  - lia.
Qed.

(** ** Properties *)

(** The expression a JSON filter is translated to holds of a row exactly
    when the filter does, read directly (with SQL's three truth values: an
    entry that is unknown makes the filter unknown, not false). *)
Theorem to_expr_meaning like r j e : to_expr j = Ok e -> Sem.sat like r e = Ref.holds r j.
Proof. apply to_expr_rec_sat. Qed.

(** A filter whose nesting of [$and], [$or] and [$not] is deeper than 100
    is rejected; translating never panics; and every expression it returns
    has the only shape the SQL back end accepts, each parameter at the root of
    a property chain. *)
Theorem to_expr_safe j :
  is_panic (to_expr j) = false /\
  match to_expr j with
  | Ok e => expr_wf e = true /\ Ref.nesting j <= 100
  | _ => True
  end.
Proof.
  split; [apply to_expr_rec_no_panic|].
  destruct (to_expr j) as [e| |] eqn:H; [|done..].
  split; [by eapply to_expr_rec_wf|].
  apply to_expr_rec_depth in H; lia.
Qed.

Definition sample_filter : json :=
  JObject [("$or", JArray [JObject [("age", JObject [("$gte", JNumber (PosInt 18))])];
                           JObject [("$not", JObject [("parent", JObject [("name", JString "x")])])]])].

Definition sample_row : Sem.row := fun path =>
  if decide (path = ["age"]) then VI64 17
  else if decide (path = ["parent"; "name"]) then VString "x" else VNull.

Lemma to_expr_meaning_witness :
  exists e, to_expr sample_filter = Ok e /\
    Sem.sat (fun _ _ => false) sample_row e = Ref.holds sample_row sample_filter /\
    Ref.holds sample_row sample_filter = Some false.
Proof.
  eexists; split; [vm_compute; reflexivity|].
  split; [apply to_expr_meaning; vm_compute; reflexivity|vm_compute; reflexivity].
Defined.
