(* ===== verification/Types.v ===== *)
(** * Types and fields ([server/src/types/mod.rs])

    The types of the meta-data: [Type_] (a Rust [Type], a keyword here) with
    resolved entities, [TypeId] with entities by name, object types, their
    fields and indexes, the descriptors they are made from, and the check a
    version's data goes through before it is copied to another version. *)

From S2P Require Import Prelude Ident.

(** ** Data *)

Inductive TypeId :=
  | IdString
  | IdFloat
  | IdInt64
  | IdBoolean
  | IdJsDate
  | IdArrayBuffer
  | IdId
  | IdEntityId (entity_name : string)
  | IdEntity (name version_id : string)
  | IdArray (elem_type : TypeId).

#[export] Instance TypeId_eq_dec : EqDecision TypeId.
Proof. solve_decision. Defined.

Record Field := {
  fld_id : option Z;
  fld_name : string;
  fld_type_id : TypeId;
  fld_labels : list string;
  fld_is_optional : bool;
  fld_is_unique : bool;
  fld_default : option string;
  fld_effective_default : option string;
  fld_version_id : string;
}.

#[export] Instance Field_eq_dec : EqDecision Field.
Proof. solve_decision. Defined.

Record DbIndex := {
  idx_meta_id : option Z;
  idx_backing_table : option string;
  idx_fields : list string;
}.

#[export] Instance DbIndex_eq_dec : EqDecision DbIndex.
Proof. solve_decision. Defined.

Record ObjectType := {
  obj_meta_id : option Z;
  obj_name : string;
  obj_fields : list Field;
  obj_indexes : list DbIndex;
  obj_chisel_id : Field;
  obj_backing_table : string;
  obj_version_id : string;
}.

#[export] Instance ObjectType_eq_dec : EqDecision ObjectType.
Proof. solve_decision. Defined.

Inductive Entity :=
  | Custom (obj : ObjectType)
  | Auth (obj : ObjectType).

Inductive Type_ :=
  | TString
  | TFloat
  | TBoolean
  | TJsDate
  | TArrayBuffer
  | TEntity (e : Entity)
  | TEntityId (entity_name : string)
  | TArray (elem_type : Type_).

(** ** Entities and the equalities of the source

    Two object types are equal when their name and version are: [PartialEq]
    is written by hand for [ObjectType], and derived above it. *)

Definition is_auth (e : Entity) : bool :=
  match e with Auth _ => true | Custom _ => false end.

Definition object_type (e : Entity) : ObjectType :=
  match e with Custom obj | Auth obj => obj end.

Definition object_eqb (a b : ObjectType) : bool :=
  String.eqb (obj_name a) (obj_name b) && String.eqb (obj_version_id a) (obj_version_id b).

Definition entity_eqb (a b : Entity) : bool :=
  match a, b with
  | Custom a, Custom b | Auth a, Auth b => object_eqb a b
  | _, _ => false
  end.

Fixpoint type_eqb (a b : Type_) : bool :=
  match a, b with
  | TString, TString | TFloat, TFloat | TBoolean, TBoolean
  | TJsDate, TJsDate | TArrayBuffer, TArrayBuffer => true
  | TEntity a, TEntity b => entity_eqb a b
  | TEntityId a, TEntityId b => String.eqb a b
  | TArray a, TArray b => type_eqb a b
  | _, _ => false
  end.

Fixpoint type_name (t : Type_) : string :=
  match t with
  | TFloat => "number"
  | TString => "string"
  | TBoolean => "boolean"
  | TJsDate => "jsDate"
  | TArrayBuffer => "ArrayBuffer"
  | TEntity ty => obj_name (object_type ty)
  | TEntityId entity_name => "Id<" +:+ entity_name +:+ ">"
  | TArray ty => "Array<" +:+ type_name ty +:+ ">"
  end.

Fixpoint type_id_name (t : TypeId) : string :=
  match t with
  | IdId | IdString => "string"
  | IdFloat => "number"
  | IdInt64 => "int64"
  | IdBoolean => "boolean"
  | IdJsDate => "jsDate"
  | IdArrayBuffer => "ArrayBuffer"
  | IdEntityId entity_name => "Id<" +:+ entity_name +:+ ">"
  | IdEntity name _ => name
  | IdArray elem_type => "Array<" +:+ type_id_name elem_type +:+ ">"
  end.

(** [From<Type> for TypeId] *)
Fixpoint type_id_of (t : Type_) : TypeId :=
  match t with
  | TString => IdString
  | TFloat => IdFloat
  | TBoolean => IdBoolean
  | TJsDate => IdJsDate
  | TArrayBuffer => IdArrayBuffer
  | TEntityId entity_name => IdEntityId entity_name
  | TEntity e => IdEntity (obj_name (object_type e)) (obj_version_id (object_type e))
  | TArray elem_type => IdArray (type_id_of elem_type)
  end.

(** ** Descriptors

    The two traits the constructors take, with their implementations. *)

Class ObjectDescriptor (D : Type) := {
  od_name : D -> string;
  od_id : D -> option Z;
  od_backing_table : D -> string;
  od_version_id : D -> string;
}.

Record InternalObject := { io_name : string; io_backing_table : string }.

#[export] Instance InternalObject_descriptor : ObjectDescriptor InternalObject := {
  od_name := io_name;
  od_id _ := None;
  od_backing_table := io_backing_table;
  od_version_id _ := "__chiselstrike";
}.

Record ExistingObject := {
  eo_name : string;
  eo_version_id : string;
  eo_backing_table : string;
  eo_id : Z;
}.

Definition ExistingObject_new (name backing_table : string) (id : Z) : result ExistingObject :=
  match split_on "."%char name with
  | [version_id; name] =>
      Ok {| eo_name := name; eo_backing_table := backing_table;
            eo_version_id := version_id; eo_id := id |}
  | _ => bail "Expected version information as part of the type name. Database corrupted?"
  end.

#[export] Instance ExistingObject_descriptor : ObjectDescriptor ExistingObject := {
  od_name := eo_name;
  od_id e := Some (eo_id e);
  od_backing_table := eo_backing_table;
  od_version_id := eo_version_id;
}.

Record NewObject := {
  no_name : string;
  no_backing_table : string;
  no_version_id : string;
}.

(** [uuid] is the text of the fresh [Uuid] the constructor draws. *)
Definition NewObject_new (uuid name version_id : string) : NewObject :=
  {| no_name := name;
     no_version_id := version_id;
     no_backing_table := "ty_" +:+ name +:+ "_" +:+ uuid |}.

#[export] Instance NewObject_descriptor : ObjectDescriptor NewObject := {
  od_name := no_name;
  od_id _ := None;
  od_backing_table := no_backing_table;
  od_version_id := no_version_id;
}.

Class FieldDescriptor (D : Type) := {
  fd_name : D -> string;
  fd_id : D -> option Z;
  fd_ty : D -> Type_;
  fd_version_id : D -> string;
}.

Record ExistingField := {
  ef_name : string;
  ef_ty : Type_;
  ef_id : Z;
  ef_version_id : string;
}.

#[export] Instance ExistingField_descriptor : FieldDescriptor ExistingField := {
  fd_name := ef_name;
  fd_id e := Some (ef_id e);
  fd_ty := ef_ty;
  fd_version_id := ef_version_id;
}.

Record NewField := { nf_name : string; nf_ty : Type_; nf_version_id : string }.

Definition NewField_new (name : string) (ty : Type_) (version_id : string) : result NewField :=
  Ok {| nf_name := name; nf_ty := ty; nf_version_id := version_id |}.

#[export] Instance NewField_descriptor : FieldDescriptor NewField := {
  fd_name := nf_name;
  fd_id _ := None;
  fd_ty := nf_ty;
  fd_version_id := nf_version_id;
}.

(** ** Fields *)

Definition Field_new {D} `{FieldDescriptor D} (desc : D) (labels : list string)
    (default : option string) (is_optional is_unique : bool) : Field :=
  let effective_default :=
    match fd_ty desc with
    | TBoolean => (fun x => if String.eqb x "false" then "false" else "true") <$> default
    | _ => default
    end in
  {| fld_id := fd_id desc;
     fld_name := fd_name desc;
     fld_version_id := fd_version_id desc;
     fld_type_id := type_id_of (fd_ty desc);
     fld_labels := labels;
     fld_default := default;
     fld_effective_default := effective_default;
     fld_is_optional := is_optional;
     fld_is_unique := is_unique |}.

Definition user_provided_default (f : Field) : option string := fld_default f.
Definition default_value (f : Field) : option string := fld_effective_default f.

(** [uuid] is the fresh [Uuid]'s text. *)
Definition generate_value (uuid : string) (f : Field) : option string :=
  match fld_type_id f with
  | IdId => Some uuid
  | _ => default_value f
  end.

Definition field_persisted_name (f : Field) (parent : ObjectType) : string :=
  fld_version_id f +:+ "." +:+ obj_name parent +:+ "." +:+ fld_name f.

(** ** Object types *)

Definition the_chisel_id : Field :=
  {| fld_id := None;
     fld_name := "id";
     fld_type_id := IdId;
     fld_labels := [];
     fld_default := None;
     fld_effective_default := None;
     fld_is_optional := false;
     fld_version_id := "__chiselstrike";
     fld_is_unique := true |}.

Definition ObjectType_new {D} `{ObjectDescriptor D} (desc : D) (fields : list Field)
    (indexes : list DbIndex) : result ObjectType :=
  let backing_table := od_backing_table desc in
  let version_id := od_version_id desc in
  _ ← foldM (fun _ field =>
        ensure (String.eqb version_id (fld_version_id field)) "Versions of fields don't match")
      () fields;
  _ ← foldM (fun _ index =>
        foldM (fun _ field_name =>
          if String.eqb field_name "id" then Ok ()
          else ensure (existsb (fun f => String.eqb (fld_name f) field_name) fields)
                 "trying to create an index over a field which is not present on the type")
        () (idx_fields index))
      () indexes;
  Ok {| obj_meta_id := od_id desc;
        obj_name := od_name desc;
        obj_version_id := version_id;
        obj_backing_table := backing_table;
        obj_fields := fields;
        obj_indexes := indexes;
        obj_chisel_id := the_chisel_id |}.

Definition user_fields (o : ObjectType) : list Field := obj_fields o.
Definition all_fields (o : ObjectType) : list Field := obj_chisel_id o :: obj_fields o.

Definition has_field (o : ObjectType) (field_name : string) : bool :=
  existsb (fun f => String.eqb (fld_name f) field_name) (all_fields o).

Definition get_field (o : ObjectType) (field_name : string) : option Field :=
  List.find (fun f => String.eqb (fld_name f) field_name) (all_fields o).

Definition persisted_name (o : ObjectType) : string :=
  obj_version_id o +:+ "." +:+ obj_name o.

(** ** Indexes *)

Definition DbIndex_new (meta_id : Z) (backing_table : string) (fields : list string) : DbIndex :=
  {| idx_meta_id := Some meta_id; idx_backing_table := Some backing_table; idx_fields := fields |}.

Definition DbIndex_new_from_fields (fields : list string) : DbIndex :=
  {| idx_meta_id := None; idx_backing_table := None; idx_fields := fields |}.

Definition index_name (i : DbIndex) : result (option string) :=
  match idx_meta_id i with
  | None => Ok None
  | Some id =>
      backing_table ← unwrap (idx_backing_table i) "called `Option::unwrap()` on a `None` value";
      let name := "index_" +:+ pretty id +:+ "_" +:+ backing_table +:+ "__" +:+
                  str_join "_" (idx_fields i) in
      Ok (Some (truncate_identifier name))
  end.

(** ** Field maps: the fields of a type by name *)

Definition FieldMap := list (string * Field).

Definition field_map_from (ty : ObjectType) : FieldMap :=
  foldl (fun m field => btree_insert (fld_name field) field m) [] (obj_fields ty).

Definition check_populate_from (self source_type : FieldMap) : result unit :=
  foldM (fun _ '(name, field) =>
    match alist_get name source_type with
    | Some existing =>
        ensure (String.eqb (type_id_name (fld_type_id existing)) (type_id_name (fld_type_id field)))
          "Type name mismatch on field"
    | None =>
        ensure (match fld_default field with None => true | Some _ => false end)
          "Adding field without a trivial default, which is not supported yet"
    end) () self.

Definition check_if_safe_to_populate (self source_type : ObjectType) : result unit :=
  let source_map := field_map_from source_type in
  let to_map := field_map_from self in
  check_populate_from to_map source_map.

(** ** Deltas between versions of a type *)

Record FieldAttrDelta := {
  fad_type_id : TypeId;
  fad_default : option string;
  fad_is_optional : bool;
  fad_is_unique : bool;
}.

Record FieldDelta := {
  fdl_id : Z;
  fdl_attrs : option FieldAttrDelta;
  fdl_labels : option (list string);
}.

Record ObjectDelta := {
  added_fields : list Field;
  removed_fields : list Field;
  updated_fields : list FieldDelta;
  added_indexes : list DbIndex;
  removed_indexes : list DbIndex;
}.

Inductive TypeSystemError :=
  | CustomTypeExists (ty : Entity)
  | NoSuchType (name : string)
  | NotABuiltinType (name : string)
  | NotACustomType (name : string)
  | UnsafeReplacement (name reason : string)
  | InternalServerError (reason : string).

(** ** Lemmas *)

Lemma field_map_invariant fields :
  let m := foldl (fun m field => btree_insert (fld_name field) field m) [] fields in
  btree_sorted m /\
  (forall n, n ∈ m.*1 <-> n ∈ fld_name <$> fields) /\
  (forall n f, alist_get n m = Some f -> f ∈ fields /\ fld_name f = n).
Proof.
  induction fields as [|f fs IH] using rev_ind; cbn.
  { repeat split; [constructor|set_solver..]. }
  rewrite foldl_app; cbn. destruct IH as (Hs & Hk & Hg). split; [by apply btree_insert_sorted|].
  split.
  - intros n. rewrite btree_insert_keys, Hk, fmap_app. set_solver.
  - intros n g. rewrite alist_get_btree_insert by done.
    destruct (String.eqb_spec n (fld_name f)) as [->|]; [|set_solver].
    intros [= <-]. set_solver.
Qed.

Lemma field_map_sorted ty : btree_sorted (field_map_from ty).
Proof. apply field_map_invariant. Qed.

Lemma field_map_nodup ty : NoDup (field_map_from ty).*1.
Proof. apply btree_sorted_nodup, field_map_sorted. Qed.

Lemma field_map_keys ty n : n ∈ (field_map_from ty).*1 <-> n ∈ fld_name <$> obj_fields ty.
Proof. apply field_map_invariant. Qed.

Lemma field_map_get ty n f : alist_get n (field_map_from ty) = Some f ->
  f ∈ obj_fields ty /\ fld_name f = n.
Proof. apply field_map_invariant. Qed.

Lemma field_map_entry ty n f : (n, f) ∈ field_map_from ty <-> alist_get n (field_map_from ty) = Some f.
Proof. split; [apply alist_get_in, field_map_nodup|apply alist_get_some_in]. Qed.

Lemma field_map_entry_name ty n f : (n, f) ∈ field_map_from ty -> fld_name f = n.
Proof. intros H%field_map_entry%field_map_get. tauto. Qed.

(** With distinct field names the map is the list of fields. *)
Lemma field_map_get_iff ty n f : NoDup (fld_name <$> obj_fields ty) ->
  alist_get n (field_map_from ty) = Some f <-> f ∈ obj_fields ty /\ fld_name f = n.
Proof.
  intros Hnd. split; [apply field_map_get|]. intros [Hf <-].
  destruct (alist_get (fld_name f) (field_map_from ty)) as [g|] eqn:Hg.
  - apply field_map_get in Hg as [Hg Hn]. f_equal.
    apply list_elem_of_lookup in Hf as [i Hi], Hg as [j Hj].
    assert (i = j) as ->; [|congruence].
    apply (NoDup_lookup _ _ _ (fld_name f) Hnd); rewrite list_lookup_fmap, ?Hi, ?Hj; cbn; congruence.
  - apply alist_get_none in Hg. destruct Hg. apply field_map_keys. set_solver.
Qed.

Lemma foldM_unit {A} (f : A -> result unit) l :
  foldM (fun _ x => f x) () l = Ok () <-> Forall (fun x => f x = Ok ()) l.
Proof.
  induction l as [|x l IH]; cbn; [done|]. rewrite Forall_cons.
  destruct (f x) as [[]| |]; cbn; naive_solver.
Qed.

Lemma foldM_unit_no_panic {A} (f : A -> result unit) l :
  (forall x, is_panic (f x) = false) -> is_panic (foldM (fun _ x => f x) () l) = false.
Proof. intros Hf. by apply foldM_no_panic with (P := fun _ => True). Qed.

Lemma ensure_unit c msg : ensure c msg = Ok () <-> c = true.
Proof. apply ensure_ok. Qed.

Lemma list_find_existsb {A} (f : A -> bool) l :
  existsb f l = match List.find f l with Some _ => true | None => false end.
Proof. induction l as [|x l IH]; cbn; [done|]. by destruct (f x). Qed.

Lemma get_field_some o n f : get_field o n = Some f -> f ∈ all_fields o /\ fld_name f = n.
Proof.
  unfold get_field. intros H. apply List.find_some in H as [Hin Hn].
  split; [by apply list_elem_of_In|by apply String.eqb_eq].
Qed.

Lemma has_field_get o n : has_field o n = true <-> is_Some (get_field o n).
Proof.
  unfold has_field, get_field. rewrite list_find_existsb.
  destruct (List.find _ _); split; intros H; eauto; [done|by destruct H].
Qed.

Lemma existsb_name n fields :
  existsb (fun f => String.eqb (fld_name f) n) fields = true <-> n ∈ fld_name <$> fields.
Proof.
  rewrite existsb_exists. setoid_rewrite list_elem_of_fmap. split.
  - intros (f & Hf & Hn%String.eqb_eq). exists f. split; [done|by apply list_elem_of_In].
  - intros (f & -> & Hf). exists f. split; [by apply list_elem_of_In|apply String.eqb_refl].
Qed.

Lemma field_check_ok fields n :
  (if String.eqb n "id" then Ok ()
   else ensure (existsb (fun f => String.eqb (fld_name f) n) fields)
     "trying to create an index over a field which is not present on the type") = Ok ()
  <-> n = "id" \/ n ∈ fld_name <$> fields.
Proof.
  destruct (String.eqb_spec n "id") as [->|Hn]; [naive_solver|].
  rewrite ensure_ok, existsb_name. naive_solver.
Qed.

Lemma ObjectType_new_ok {D} `{ObjectDescriptor D} (desc : D) fields indexes o :
  ObjectType_new desc fields indexes = Ok o <->
  Forall (fun f => fld_version_id f = od_version_id desc) fields /\
  Forall (fun i => Forall (fun n => n = "id" \/ n ∈ fld_name <$> fields) (idx_fields i)) indexes /\
  o = {| obj_meta_id := od_id desc; obj_name := od_name desc;
         obj_version_id := od_version_id desc; obj_backing_table := od_backing_table desc;
         obj_fields := fields; obj_indexes := indexes; obj_chisel_id := the_chisel_id |}.
Proof.
  unfold ObjectType_new. rewrite !bind_unit_ok, !foldM_unit.
  assert (forall A (P Q : A -> Prop) l, (forall x, P x <-> Q x) -> Forall P l <-> Forall Q l) as Hext.
  { intros A P Q l HPQ. by apply Forall_iff. }
  rewrite (Hext _ (fun x => ensure _ _ = _)
    (fun f => fld_version_id f = od_version_id desc) fields).
  2: { intros f. rewrite ensure_ok, String.eqb_eq. naive_solver. }
  rewrite (Hext _ (fun x => foldM _ _ _ = _)
    (fun i => Forall (fun n => n = "id" \/ n ∈ fld_name <$> fields) (idx_fields i)) indexes).
  2: { intros i. rewrite foldM_unit. apply Hext. intros n. apply field_check_ok. }
  naive_solver.
Qed.

Lemma ObjectType_new_no_panic {D} `{ObjectDescriptor D} (desc : D) fields indexes :
  is_panic (ObjectType_new desc fields indexes) = false.
Proof.
  apply is_panic_bind; [apply foldM_unit_no_panic; auto with chisel|]. intros _ _.
  apply is_panic_bind; [|done]. apply foldM_unit_no_panic. intros i.
  apply foldM_unit_no_panic. intros n. by destruct (String.eqb n "id"); [|destruct (existsb _ _)].
Qed.

(** ** Properties *)

(** [ObjectType::new] accepts exactly the fields that carry the type's own
    version and the indexes over the type's fields (or ["id"]), never panics,
    and builds a type where ["id"] always resolves to the generated identity
    field, every other name to the first field of that name, and every indexed
    name to a field. *)
Theorem ObjectType_new_spec {D} `{ObjectDescriptor D} (desc : D) fields indexes :
  let versions_ok := Forall (fun f => fld_version_id f = od_version_id desc) fields in
  let indexes_ok :=
    Forall (fun i => Forall (fun n => n = "id" \/ n ∈ fld_name <$> fields) (idx_fields i)) indexes in
  match ObjectType_new desc fields indexes with
  | Ok o =>
      versions_ok /\ indexes_ok /\
      get_field o "id" = Some the_chisel_id /\
      (forall n, n <> "id" ->
        get_field o n = List.find (fun f => String.eqb (fld_name f) n) fields) /\
      (forall i n, i ∈ obj_indexes o -> n ∈ idx_fields i -> has_field o n = true)
  | Err _ => ~ (versions_ok /\ indexes_ok)
  | Panic _ => False
  end.
Proof.
  intros versions_ok indexes_ok.
  pose proof (ObjectType_new_no_panic desc fields indexes) as Hp.
  pose proof (ObjectType_new_ok desc fields indexes) as Hok.
  destruct (ObjectType_new desc fields indexes) as [o|e|w]; [|naive_solver|done].
  destruct (proj1 (Hok o) eq_refl) as (Hv & Hi & ->).
  split; [done|split; [done|split; [done|split]]].
  - intros n Hn. unfold get_field; cbn. by destruct (String.eqb_spec "id" n) as [<-|].
  - cbn [obj_indexes]. intros i n Hin Hn. unfold has_field, all_fields; cbn.
    rewrite Forall_forall in Hi. specialize (Hi i Hin). rewrite Forall_forall in Hi.
    destruct (Hi n Hn) as [->|Hf]; [done|]. apply existsb_name in Hf. rewrite Hf.
    apply orb_true_r.
Qed.

(** A type written to the meta-data under its persisted name is read back
    with the same version and the same name, for every version the server
    accepts and every type name without a dot. *)
Theorem persisted_name_roundtrip o table id :
  validate_version_id (obj_version_id o) = Ok (obj_version_id o) ->
  ~ In "."%char (String.list_ascii_of_string (obj_name o)) ->
  ExistingObject_new (persisted_name o) table id =
    Ok {| eo_name := obj_name o; eo_version_id := obj_version_id o;
          eo_backing_table := table; eo_id := id |}.
Proof.
  intros (_ & _ & _ & Hv)%validate_version_id_ok Hn. unfold ExistingObject_new, persisted_name.
  change ("." +:+ obj_name o) with (String "." (obj_name o)).
  rewrite split_on_app, split_on_no_sep; [done..|]. by apply version_chars_no.
Qed.

(** Data may be copied into a type of another version exactly when every
    field both types have keeps its type name and every field only the target
    has carries NO default value: a new field with a default is rejected, a
    new field without one is let through. *)
Theorem check_populate_spec to from :
  check_if_safe_to_populate to from = Ok () <->
  forall n f, alist_get n (field_map_from to) = Some f ->
    match alist_get n (field_map_from from) with
    | Some existing => type_id_name (fld_type_id existing) = type_id_name (fld_type_id f)
    | None => fld_default f = None
    end.
Proof.
  unfold check_if_safe_to_populate, check_populate_from.
  etransitivity.
  { apply (foldM_unit (fun '(name, field) => match alist_get name (field_map_from from) with
      | Some existing => _ | None => _ end)). }
  rewrite Forall_forall. split.
  - intros H n f Hf%field_map_entry. specialize (H (n, f) Hf). cbn in H.
    destruct (alist_get n (field_map_from from)); apply ensure_ok in H.
    + by apply String.eqb_eq.
    + by destruct (fld_default f).
  - intros H [n f] Hf%field_map_entry. specialize (H n f Hf). cbn.
    destruct (alist_get n (field_map_from from)); apply ensure_ok.
    + by apply String.eqb_eq.
    + by rewrite H.
Qed.

Definition sample_type : ObjectType :=
  {| obj_meta_id := None; obj_name := "Person"; obj_fields := []; obj_indexes := [];
     obj_chisel_id := the_chisel_id; obj_backing_table := "ty_Person_0"; obj_version_id := "dev" |}.

Lemma persisted_name_roundtrip_witness :
  ExistingObject_new "dev.Person" "t" 7 =
    Ok {| eo_name := "Person"; eo_version_id := "dev"; eo_backing_table := "t"; eo_id := 7 |}.
Proof.
  apply (persisted_name_roundtrip sample_type "t" 7); [vm_compute; reflexivity|].
  vm_compute. intros H.
  repeat (destruct H as [H|H]; [discriminate H|]). exact H.
Defined.
