(* ===== verification/Builtin.v ===== *)
(** * Built-in types ([server/src/types/builtin.rs], names of [authorization.rs])

    The table of types every version starts from: the scalars, the four
    authentication entities and the outbox. *)

From S2P Require Import Prelude Ident Types.

Definition AUTH_USER_NAME : string := "AuthUser".
Definition AUTH_SESSION_NAME : string := "AuthSession".
Definition AUTH_TOKEN_NAME : string := "AuthToken".
Definition AUTH_ACCOUNT_NAME : string := "AuthAccount".

Definition AUTH_ENTITY_NAMES : list string :=
  [AUTH_USER_NAME; AUTH_SESSION_NAME; AUTH_TOKEN_NAME; AUTH_ACCOUNT_NAME].

Definition is_auth_entity_name (entity_name : string) : bool :=
  existsb (String.eqb entity_name) AUTH_ENTITY_NAMES.

Definition OUTBOX_NAME : string := "ChiselOutbox".

Record BuiltinTypes := { types : gmap string Type_ }.

Definition string_field (name : string) : Field :=
  {| fld_id := None; fld_name := name; fld_type_id := IdString; fld_labels := [];
     fld_default := None; fld_effective_default := None; fld_is_optional := false;
     fld_version_id := "__chiselstrike"; fld_is_unique := false |}.

Definition optional_string_field (name : string) : Field :=
  let f := string_field name in
  {| fld_id := fld_id f; fld_name := fld_name f; fld_type_id := fld_type_id f;
     fld_labels := fld_labels f; fld_default := fld_default f;
     fld_effective_default := fld_effective_default f; fld_is_optional := true;
     fld_version_id := fld_version_id f; fld_is_unique := fld_is_unique f |}.

Definition number_field (name : string) : Field :=
  {| fld_id := None; fld_name := name; fld_type_id := IdFloat; fld_labels := [];
     fld_default := None; fld_effective_default := None; fld_is_optional := false;
     fld_version_id := "__chiselstrike"; fld_is_unique := false |}.

Definition optional_number_field (name : string) : Field :=
  {| fld_id := None; fld_name := name; fld_type_id := IdFloat; fld_labels := [];
     fld_default := None; fld_effective_default := None; fld_is_optional := true;
     fld_version_id := "__chiselstrike"; fld_is_unique := false |}.

Definition date_field (name : string) : Field :=
  {| fld_id := None; fld_name := name; fld_type_id := IdJsDate; fld_labels := [];
     fld_default := None; fld_effective_default := None; fld_is_optional := false;
     fld_version_id := "__chiselstrike"; fld_is_unique := false |}.

Definition optional_array_buffer_field (name : string) : Field :=
  {| fld_id := None; fld_name := name; fld_type_id := IdArrayBuffer; fld_labels := [];
     fld_default := None; fld_effective_default := None; fld_is_optional := true;
     fld_version_id := "__chiselstrike"; fld_is_unique := false |}.

(** [ObjectType::new(..).unwrap()] *)
Definition unwrap_object (o : result ObjectType) : result ObjectType :=
  match o with
  | Err _ => Panic "called `Result::unwrap()` on an `Err` value"
  | o => o
  end.

Definition add_auth_entity (types : gmap string Type_) (type_name : string)
    (fields : list Field) (backing_table : string) : result (gmap string Type_) :=
  let desc := {| io_name := type_name; io_backing_table := backing_table |} in
  o ← unwrap_object (ObjectType_new desc fields []);
  Ok (<[type_name := TEntity (Auth o)]> types).

Definition add_custom_entity (types : gmap string Type_) (type_name : string)
    (fields : list Field) (backing_table : string) : result (gmap string Type_) :=
  let desc := {| io_name := type_name; io_backing_table := backing_table |} in
  o ← unwrap_object (ObjectType_new desc fields []);
  Ok (<[type_name := TEntity (Custom o)]> types).

Definition BuiltinTypes_new : result BuiltinTypes :=
  let types := ∅ in
  let types := <["string" := TString]> types in
  let types := <["number" := TFloat]> types in
  let types := <["boolean" := TBoolean]> types in
  let types := <["jsDate" := TJsDate]> types in
  let types := <["ArrayBuffer" := TArrayBuffer]> types in
  types ← add_auth_entity types AUTH_USER_NAME
    [optional_string_field "emailVerified"; optional_string_field "name";
     optional_string_field "email"; optional_string_field "image"] "auth_user";
  types ← add_auth_entity types AUTH_SESSION_NAME
    [string_field "sessionToken"; string_field "userId"; string_field "expires"] "auth_session";
  types ← add_auth_entity types AUTH_TOKEN_NAME
    [string_field "identifier"; string_field "expires"; string_field "token"] "auth_token";
  types ← add_auth_entity types AUTH_ACCOUNT_NAME
    [string_field "providerAccountId"; string_field "userId"; string_field "provider";
     string_field "type"; optional_string_field "access_token";
     optional_string_field "token_type"; optional_string_field "id_token";
     optional_string_field "refresh_token"; optional_string_field "scope";
     optional_string_field "session_state"; optional_string_field "oauth_token_secret";
     optional_string_field "oauth_token"; optional_number_field "expires_at"] "auth_account";
  types ← add_custom_entity types OUTBOX_NAME
    [date_field "timestamp"; number_field "seqNo"; string_field "topic";
     optional_array_buffer_field "key"; optional_array_buffer_field "value"] "outbox";
  Ok {| types := types |}.

(** ** Lemmas *)

(** The names the table holds. *)
Definition builtin_names : list string :=
  ["string"; "number"; "boolean"; "jsDate"; "ArrayBuffer"] ++ AUTH_ENTITY_NAMES ++ [OUTBOX_NAME].

(** What every entry of the table satisfies: its name is the type's name,
    entities are of the internal version and are [Auth] exactly for the
    authentication names. *)
Definition builtin_entry_ok (name : string) (t : Type_) : bool :=
  String.eqb (type_name t) name &&
  match t with
  | TEntity e =>
      String.eqb (obj_version_id (object_type e)) "__chiselstrike" &&
      Bool.eqb (is_auth e) (is_auth_entity_name name)
  | TEntityId _ | TArray _ => false
  | _ => negb (is_auth_entity_name name)
  end.

Definition builtin_table : gmap string Type_ :=
  match BuiltinTypes_new with Ok b => types b | _ => ∅ end.

Lemma BuiltinTypes_new_ok : BuiltinTypes_new = Ok {| types := builtin_table |}.
Proof.
  assert (is_ok BuiltinTypes_new = true) as H by (vm_compute; reflexivity).
  unfold builtin_table. by destruct BuiltinTypes_new as [[]| |].
Qed.

Lemma builtin_table_entry name t : builtin_table !! name = Some t -> builtin_entry_ok name t = true.
Proof.
  assert (forallb (fun kv => builtin_entry_ok kv.1 kv.2) (map_to_list builtin_table) = true) as H
    by (vm_compute; reflexivity).
  revert H. generalize builtin_table. intros m Hm Ht.
  exact (proj1 (forallb_map_to_list _ m) Hm name t Ht).
Qed.

Lemma builtin_table_dom name : is_Some (builtin_table !! name) <-> name ∈ builtin_names.
Proof.
  assert (forallb (fun kv => bool_decide (kv.1 ∈ builtin_names)) (map_to_list builtin_table) = true)
    as H1 by (vm_compute; reflexivity).
  assert (forallb (fun n => bool_decide (is_Some (builtin_table !! n))) builtin_names = true)
    as H2 by (vm_compute; reflexivity).
  revert H1 H2. generalize builtin_table builtin_names. intros m names H1 H2. split.
  - intros [t Ht]. apply (proj1 (forallb_map_to_list _ m) H1) in Ht.
    by apply bool_decide_eq_true in Ht.
  - intros Hin. rewrite forallb_forall in H2. apply list_elem_of_In, H2 in Hin.
    by apply bool_decide_eq_true in Hin.
Qed.
