(* ===== verification/TypeSystem.v ===== *)
(** * The type system ([server/src/types/type_system.rs])

    The table of a version's entities, the lookups by name and by [TypeId],
    and [generate_type_delta], which decides whether a type may evolve into
    another and computes the changes. *)

From stdpp Require Import sorting.
From S2P Require Import Prelude Ident Types Builtin.

Record TypeSystem := {
  custom_types : gmap string Entity;
  builtin : BuiltinTypes;
  ts_version_id : string;
}.

Definition TypeSystem_new (builtin : BuiltinTypes) (version_id : string) : TypeSystem :=
  {| custom_types := ∅; builtin := builtin; ts_version_id := version_id |}.

(** ** Custom types *)

Definition lookup_custom_type (ts : TypeSystem) (type_name : string)
    : outcome TypeSystemError Entity :=
  match custom_types ts !! type_name with
  | Some ty => Ok ty
  | None => Err (NoSuchType type_name)
  end.

Definition add_custom_type (ts : TypeSystem) (ty : Entity) : outcome TypeSystemError TypeSystem :=
  let name := obj_name (object_type ty) in
  match ty with
  | Auth _ => Err (NotACustomType name)
  | Custom _ =>
      _ ← match lookup_custom_type ts name with
          | Ok old => Err (CustomTypeExists old)
          | Err (NoSuchType _) => Ok ()
          | Err x => Err x
          | Panic w => Panic w
          end;
      Ok {| custom_types := <[name := ty]> (custom_types ts);
            builtin := builtin ts; ts_version_id := ts_version_id ts |}
  end.

(** ** Lookups *)

Definition extract_type (typ type_name : string) : option string :=
  match strip_prefix (typ +:+ "<") type_name with
  | Some template_type => strip_suffix ">" template_type
  | None => None
  end.

(** The recursion is on the element type's name, which is shorter: the length
    of the name is fuel enough ([lookup_builtin_type_unfold]). *)
Fixpoint lookup_builtin_type_fuel (fuel : nat) (ts : TypeSystem) (type_name : string)
    : outcome TypeSystemError Type_ :=
  match fuel with
  | O => Panic "out of fuel"
  | S fuel =>
      match extract_type "Array" type_name with
      | Some element_type_str =>
          element_type ← lookup_builtin_type_fuel fuel ts element_type_str;
          Ok (TArray element_type)
      | None =>
          match extract_type "Id" type_name with
          | Some entity_name => Ok (TEntityId entity_name)
          | None =>
              match types (builtin ts) !! type_name with
              | Some ty => Ok ty
              | None => Err (NotABuiltinType type_name)
              end
          end
      end
  end.

Definition lookup_builtin_type (ts : TypeSystem) (type_name : string)
    : outcome TypeSystemError Type_ :=
  lookup_builtin_type_fuel (S (String.length type_name)) ts type_name.

Definition lookup_type (ts : TypeSystem) (type_name : string) : outcome TypeSystemError Type_ :=
  match lookup_builtin_type ts type_name with
  | Ok ty => Ok ty
  | Panic w => Panic w
  | Err _ =>
      match lookup_custom_type ts type_name with
      | Ok ty => Ok (TEntity ty)
      | Panic w => Panic w
      | Err _ => Err (NoSuchType type_name)
      end
  end.

Definition lookup_entity (ts : TypeSystem) (type_name : string) : outcome TypeSystemError Entity :=
  match lookup_builtin_type ts type_name with
  | Ok (TEntity ty) => Ok ty
  | Err (NotABuiltinType _) => lookup_custom_type ts type_name
  | Panic w => Panic w
  | _ => Err (NoSuchType type_name)
  end.

Definition get (ts : TypeSystem) (ty : TypeId) : outcome TypeSystemError Type_ :=
  match ty with
  | IdString | IdFloat | IdInt64 | IdBoolean | IdId | IdJsDate | IdArrayBuffer | IdArray _ =>
      lookup_builtin_type ts (type_id_name ty)
  | IdEntity name version_id =>
      if String.eqb version_id "__chiselstrike" then lookup_builtin_type ts name
      else
        _ ← rust_assert (String.eqb version_id (ts_version_id ts)) "assertion failed: version_id";
        TEntity <$> lookup_entity ts name
  | IdEntityId entity_name => Ok (TEntityId entity_name)
  end.

(** ** Deltas *)

Definition str_le (a b : string) : Prop := str_leb a b = true.
#[export] Instance str_le_dec : RelDecision str_le := fun a b => decide (str_leb a b = true).

(** [Vec<String>::sort] *)
Definition str_sort (l : list string) : list string := merge_sort str_le l.

Definition index_diff (lhs rhs : list DbIndex) : list DbIndex :=
  List.filter (fun lhs_idx =>
    negb (existsb (fun rhs_idx => bool_decide (idx_fields lhs_idx = idx_fields rhs_idx)) rhs)) lhs.

Definition find_added_indexes (old_type new_type : ObjectType) : list DbIndex :=
  index_diff (obj_indexes new_type) (obj_indexes old_type).

Definition find_removed_indexes (old_type new_type : ObjectType) : list DbIndex :=
  index_diff (obj_indexes old_type) (obj_indexes new_type).

Definition no_default (f : Field) : bool :=
  match fld_default f with None => true | Some _ => false end.

(** The branch of the loop for a field both types have. *)
Definition update_field (ts : TypeSystem) (new_type : ObjectType) (allow_unsafe_replacement : bool)
    (old field : Field) : outcome TypeSystemError FieldDelta :=
  field_ty ← get ts (fld_type_id field);
  old_ty ← get ts (fld_type_id old);
  _ ← (if negb allow_unsafe_replacement && negb (type_eqb field_ty old_ty)
       then Err (UnsafeReplacement (obj_name new_type) "changing types: Incompatible change")
       else Ok ());
  _ ← (if negb allow_unsafe_replacement && fld_is_unique field && negb (fld_is_unique old)
       then Err (UnsafeReplacement (obj_name new_type) "adding uniqueness: Incompatible change")
       else Ok ());
  let attrs :=
    if negb (bool_decide (fld_default field = fld_default old))
       || negb (type_eqb field_ty old_ty)
       || negb (Bool.eqb (fld_is_optional field) (fld_is_optional old))
       || negb (Bool.eqb (fld_is_unique field) (fld_is_unique old))
    then Some {| fad_type_id := fld_type_id field; fad_default := fld_default field;
                 fad_is_optional := fld_is_optional field; fad_is_unique := fld_is_unique field |}
    else None in
  let old_labels := str_sort (fld_labels old) in
  let new_labels := str_sort (fld_labels field) in
  let labels := if bool_decide (old_labels = new_labels) then None else Some new_labels in
  id ← match fld_id old with
       | Some id => Ok id
       | None => Err (InternalServerError "logical error! updating field without id")
       end;
  Ok {| fdl_id := id; fdl_attrs := attrs; fdl_labels := labels |}.

(** One turn of the loop over the new fields: the state is the map of the old
    fields still unmatched and the two vectors being filled. *)
Definition delta_step (ts : TypeSystem) (new_type : ObjectType) (allow_unsafe_replacement : bool)
    (s : FieldMap * list Field * list FieldDelta) (entry : string * Field)
    : outcome TypeSystemError (FieldMap * list Field * list FieldDelta) :=
  let '(old_fields, added, updated) := s in
  let '(name, field) := entry in
  match alist_get name old_fields with
  | None =>
      if negb allow_unsafe_replacement && no_default field && negb (fld_is_optional field)
      then Err (UnsafeReplacement (obj_name new_type)
             "Trying to add a new non-optional field without a trivial default value")
      else Ok (old_fields, added ++ [field], updated)
  | Some old =>
      d ← update_field ts new_type allow_unsafe_replacement old field;
      Ok (alist_remove name old_fields, added, updated ++ [d])
  end.

Definition removal_step (new_type : ObjectType) (allow_unsafe_replacement : bool)
    (removed : list Field) (entry : string * Field) : outcome TypeSystemError (list Field) :=
  let '(_, field) := entry in
  if negb allow_unsafe_replacement && no_default field && negb (fld_is_optional field)
  then Err (UnsafeReplacement (obj_name new_type)
         "non-optional field doesn't have a default value, so it is unsafe to remove")
  else Ok (removed ++ [field]).

Definition generate_type_delta (ts : TypeSystem) (old_type new_type : ObjectType)
    (allow_unsafe_replacement : bool) : outcome TypeSystemError ObjectDelta :=
  if negb (object_eqb old_type new_type)
  then Err (UnsafeReplacement (obj_name new_type) "Types don't match")
  else
    let old_fields := field_map_from old_type in
    let new_fields := field_map_from new_type in
    '(old_fields, added, updated) ←
      foldM (delta_step ts new_type allow_unsafe_replacement) (old_fields, [], []) new_fields;
    removed ← foldM (removal_step new_type allow_unsafe_replacement) [] old_fields;
    Ok {| added_fields := added;
          removed_fields := removed;
          updated_fields := updated;
          added_indexes := find_added_indexes old_type new_type;
          removed_indexes := find_removed_indexes old_type new_type |}.

(** ** What a delta means

    The fields a stored type has after its delta is carried out: the removed
    ones dropped, the updated ones changed by their id, the added ones put in. *)
Module Evolve.

(** As the statement of [update_field_query] does (datastore/meta/mod.rs, 80-99): it
    sets the default only to a new one, and otherwise leaves the stored one. *)
Definition apply_field_delta (d : FieldDelta) (f : Field) : Field :=
  {| fld_id := fld_id f; fld_name := fld_name f;
     fld_type_id := match fdl_attrs d with Some a => fad_type_id a | None => fld_type_id f end;
     fld_labels := match fdl_labels d with Some l => l | None => fld_labels f end;
     fld_is_optional := match fdl_attrs d with Some a => fad_is_optional a | None => fld_is_optional f end;
     fld_is_unique := match fdl_attrs d with Some a => fad_is_unique a | None => fld_is_unique f end;
     fld_default := match fdl_attrs d with
                    | Some a => match fad_default a with Some v => Some v | None => fld_default f end
                    | None => fld_default f
                    end;
     fld_effective_default := fld_effective_default f;
     fld_version_id := fld_version_id f |}.

Definition evolve (delta : ObjectDelta) (old : FieldMap) (n : string) : option Field :=
  match List.find (fun f => String.eqb (fld_name f) n) (added_fields delta) with
  | Some f => Some f
  | None =>
      if existsb (fun f => String.eqb (fld_name f) n) (removed_fields delta) then None
      else (fun f =>
        match List.find (fun d => bool_decide (Some (fdl_id d) = fld_id f)) (updated_fields delta) with
        | Some d => apply_field_delta d f
        | None => f
        end) <$> alist_get n old
  end.

Definition evolve_indexes (delta : ObjectDelta) (old : list DbIndex) : list DbIndex :=
  List.filter (fun i => negb (bool_decide (idx_fields i ∈ idx_fields <$> removed_indexes delta))) old
    ++ added_indexes delta.

(** Two fields that describe the same data: they may differ in what the
    database generates, in the order of the labels and in how an equal type is
    referred to. *)
Definition same_type (ts : TypeSystem) (a b : TypeId) : Prop :=
  a = b \/ exists ta tb, get ts a = Ok ta /\ get ts b = Ok tb /\ type_eqb ta tb = true.

(** The new field as it will be stored: it keeps the default of the old one when it
    has none of its own. *)
Definition keeping (old : option Field) (f : Field) : Field :=
  {| fld_id := fld_id f; fld_name := fld_name f; fld_type_id := fld_type_id f; fld_labels := fld_labels f;
     fld_is_optional := fld_is_optional f; fld_is_unique := fld_is_unique f;
     fld_default := match fld_default f with Some v => Some v | None => old ≫= fld_default end;
     fld_effective_default := fld_effective_default f; fld_version_id := fld_version_id f |}.

Definition same_field (ts : TypeSystem) (f g : Field) : Prop :=
  fld_name f = fld_name g /\ fld_default f = fld_default g /\
  fld_is_optional f = fld_is_optional g /\ fld_is_unique f = fld_is_unique g /\
  fld_labels f ≡ₚ fld_labels g /\ same_type ts (fld_type_id f) (fld_type_id g).

End Evolve.

(** ** Lemmas on lookups *)

Lemma extract_type_some typ name inner :
  extract_type typ name = Some inner <-> name = typ +:+ "<" +:+ inner +:+ ">".
Proof.
  unfold extract_type. destruct (strip_prefix (typ +:+ "<") name) as [t|] eqn:E.
  - apply strip_prefix_some in E as ->. rewrite strip_suffix_some, str_app_assoc.
    split; [by intros ->|]. intros H.
    assert (strip_prefix (typ +:+ "<") ((typ +:+ "<") +:+ t) =
            strip_prefix (typ +:+ "<") ((typ +:+ "<") +:+ (inner +:+ ">"))) as H'
      by (rewrite !str_app_assoc; congruence).
    rewrite !strip_prefix_app in H'. by injection H'.
  - split; [done|]. intros ->. rewrite <- str_app_assoc, strip_prefix_app in E. done.
Qed.

Lemma extract_array inner : extract_type "Array" ("Array<" +:+ inner +:+ ">") = Some inner.
Proof. by apply extract_type_some. Qed.
Lemma extract_id inner :
  extract_type "Array" ("Id<" +:+ inner +:+ ">") = None /\
  extract_type "Id" ("Id<" +:+ inner +:+ ">") = Some inner.
Proof. split; [reflexivity|by apply extract_type_some]. Qed.

Lemma extract_type_shorter typ name inner :
  extract_type typ name = Some inner -> String.length inner < String.length name.
Proof. intros ->%extract_type_some. rewrite !str_length_app. cbn. lia. Qed.

Lemma lookup_builtin_type_enough fuel ts name : String.length name < fuel ->
  lookup_builtin_type_fuel fuel ts name = lookup_builtin_type ts name.
Proof.
  unfold lookup_builtin_type.
  enough (forall n fuel1 fuel2 name, String.length name < n -> n <= fuel1 -> n <= fuel2 ->
    lookup_builtin_type_fuel fuel1 ts name = lookup_builtin_type_fuel fuel2 ts name) as H
    by (intros; by eapply (H (S (String.length name))); lia).
  clear. induction n as [|n IH]; intros [|fuel1] [|fuel2] name Hn H1 H2; try lia. cbn.
  destruct (extract_type "Array" name) as [inner|] eqn:E; [|done].
  apply extract_type_shorter in E. rewrite (IH fuel1 fuel2); [done|lia..].
Qed.

(** The recursive equation of the source. *)
Lemma lookup_builtin_type_unfold ts name : lookup_builtin_type ts name =
  match extract_type "Array" name with
  | Some element_type_str =>
      element_type ← lookup_builtin_type ts element_type_str; Ok (TArray element_type)
  | None =>
      match extract_type "Id" name with
      | Some entity_name => Ok (TEntityId entity_name)
      | None => match types (builtin ts) !! name with
                | Some ty => Ok ty
                | None => Err (NotABuiltinType name)
                end
      end
  end.
Proof.
  unfold lookup_builtin_type at 1. cbn [lookup_builtin_type_fuel].
  destruct (extract_type "Array" name) as [inner|] eqn:E; [|done].
  by rewrite lookup_builtin_type_enough by by eapply extract_type_shorter.
Qed.

(** The types a name denotes without the custom types. *)
Fixpoint builtin_type (ts : TypeSystem) (t : Type_) : Prop :=
  match t with
  | TEntityId _ => True
  | TArray t => builtin_type ts t
  | TEntity e => types (builtin ts) !! obj_name (object_type e) = Some t
  | _ => True
  end.

(** A type system over the program's own table, whose custom types are stored
    under their names and never are [Auth] entities. *)
Record ts_wf (ts : TypeSystem) : Prop := {
  wf_builtin : BuiltinTypes_new = Ok (builtin ts);
  wf_custom : forall n e, custom_types ts !! n = Some e ->
    obj_name (object_type e) = n /\ is_auth e = false;
}.

Lemma wf_builtin_table ts : ts_wf ts -> types (builtin ts) = builtin_table.
Proof. intros [H _]. rewrite BuiltinTypes_new_ok in H. by injection H as <-. Qed.

Lemma builtin_names_plain :
  forallb (fun n => match extract_type "Array" n, extract_type "Id" n with
                    | None, None => true | _, _ => false end) builtin_names = true.
Proof. vm_compute. reflexivity. Qed.

Lemma builtin_name_plain n t : builtin_table !! n = Some t ->
  extract_type "Array" n = None /\ extract_type "Id" n = None.
Proof.
  intros Ht. assert (n ∈ builtin_names) as Hn by (apply builtin_table_dom; by eexists).
  pose proof builtin_names_plain as H. rewrite forallb_forall in H.
  apply list_elem_of_In, H in Hn.
  by destruct (extract_type "Array" n), (extract_type "Id" n).
Qed.

Lemma builtin_scalars :
  builtin_table !! "string" = Some TString /\ builtin_table !! "number" = Some TFloat /\
  builtin_table !! "boolean" = Some TBoolean /\ builtin_table !! "jsDate" = Some TJsDate /\
  builtin_table !! "ArrayBuffer" = Some TArrayBuffer.
Proof. vm_compute. repeat split. Qed.

Lemma lookup_builtin_type_name ts t : ts_wf ts -> builtin_type ts t ->
  lookup_builtin_type ts (type_name t) = Ok t.
Proof.
  intros Hwf Ht. pose proof builtin_scalars as (? & ? & ? & ? & ?).
  assert (forall n t, builtin_table !! n = Some t -> lookup_builtin_type ts n = Ok t) as Hplain.
  { intros n t' Hn. rewrite lookup_builtin_type_unfold.
    destruct (builtin_name_plain _ _ Hn) as [-> ->]. by rewrite wf_builtin_table, Hn. }
  induction t as [| | | | |e|n|t IH]; cbn [type_name]; try by apply Hplain.
  - apply Hplain. cbn in Ht. by rewrite wf_builtin_table in Ht.
  - rewrite lookup_builtin_type_unfold. by destruct (extract_id n) as [-> ->].
  - by rewrite lookup_builtin_type_unfold, extract_array, IH.
Qed.

Lemma lookup_builtin_type_sound ts name t : ts_wf ts -> lookup_builtin_type ts name = Ok t ->
  type_name t = name /\ builtin_type ts t.
Proof.
  intros Hwf. remember (String.length name) as n eqn:Hn.
  revert name t Hn. induction (lt_wf n) as [n _ IH]. intros name t -> H.
  rewrite lookup_builtin_type_unfold in H.
  destruct (extract_type "Array" name) as [inner|] eqn:E.
  - inv_ok. pose proof (extract_type_shorter _ _ _ E) as Hlen.
    apply extract_type_some in E as ->.
    destruct (IH _ Hlen inner _ eq_refl H) as [<- ?]. done.
  - destruct (extract_type "Id" name) as [inner|] eqn:E2.
    + apply extract_type_some in E2 as ->. by injection H as <-.
    + destruct (types (builtin ts) !! name) as [ty|] eqn:Hty; [|done]. injection H as ->.
      pose proof Hty as Hentry. rewrite wf_builtin_table in Hentry by done.
      apply builtin_table_entry, andb_prop in Hentry as [Hname%String.eqb_eq Hrest].
      split; [done|]. destruct t; try done. cbn in *. by rewrite Hname.
Qed.

(** The types of the version: the built-in ones and its own entities, unless
    a built-in name or the shape of a type name hides them. *)
Definition known_type (ts : TypeSystem) (t : Type_) : Prop :=
  builtin_type ts t \/
  exists obj, t = TEntity (Custom obj) /\
    custom_types ts !! obj_name obj = Some (Custom obj) /\
    obj_version_id obj = ts_version_id ts /\ ts_version_id ts <> "__chiselstrike" /\
    obj_name obj ∉ builtin_names /\
    extract_type "Array" (obj_name obj) = None /\ extract_type "Id" (obj_name obj) = None.

Lemma builtin_entity_version ts e : ts_wf ts -> builtin_type ts (TEntity e) ->
  obj_version_id (object_type e) = "__chiselstrike".
Proof.
  intros Hwf He. cbn in He. rewrite wf_builtin_table in He by done.
  apply builtin_table_entry, andb_prop in He as [_ H]. apply andb_prop in H as [H _].
  by apply String.eqb_eq.
Qed.

Lemma type_id_of_name t : type_id_name (type_id_of t) = type_name t.
Proof. by induction t; cbn; rewrite ?IHt. Qed.

Lemma get_type_id_of ts t : ts_wf ts -> known_type ts t -> get ts (type_id_of t) = Ok t.
Proof.
  intros Hwf [Ht|(obj & -> & Hobj & Hv & Hv' & Hn & Ha & Hi)].
  - pose proof (lookup_builtin_type_name ts t Hwf Ht) as Hl.
    destruct t as [| | | | |e|n|t]; try exact Hl; [|done|].
    + cbn [type_id_of get]. by rewrite (builtin_entity_version _ _ Hwf Ht).
    + cbn [type_id_of get]. by rewrite <- Hl, <- type_id_of_name.
  - cbn [type_id_of get object_type]. rewrite Hv.
    destruct (String.eqb_spec (ts_version_id ts) "__chiselstrike") as [|_]; [done|].
    rewrite String.eqb_refl; cbn. unfold lookup_entity, lookup_custom_type.
    rewrite lookup_builtin_type_unfold, Ha, Hi, (wf_builtin_table ts Hwf).
    destruct (builtin_table !! obj_name obj) eqn:E.
    { destruct Hn. apply builtin_table_dom. by eexists. }
    by rewrite Hobj.
Qed.

(** Where the entities that lookups return come from. *)
Definition entity_source (ts : TypeSystem) (e : Entity) : Prop :=
  (exists n, builtin_table !! n = Some (TEntity e)) \/ (exists n, custom_types ts !! n = Some e).

Lemma lookup_builtin_type_source ts n e : ts_wf ts ->
  lookup_builtin_type ts n = Ok (TEntity e) -> entity_source ts e.
Proof.
  intros Hwf [_ He]%(lookup_builtin_type_sound ts n _ Hwf). left. cbn in He.
  rewrite wf_builtin_table in He by done. by eexists.
Qed.

Lemma lookup_entity_source ts n e : ts_wf ts -> lookup_entity ts n = Ok e -> entity_source ts e.
Proof.
  intros Hwf. unfold lookup_entity.
  destruct (lookup_builtin_type ts n) as [[| | | | |e'|s|t]|[]|] eqn:E; try done.
  - intros [= ->]. by eapply lookup_builtin_type_source.
  - unfold lookup_custom_type. destruct (custom_types ts !! n) eqn:Hc; [|done].
    intros [= ->]. right. by eexists.
Qed.

Lemma get_entity_source ts t e : ts_wf ts -> get ts t = Ok (TEntity e) -> entity_source ts e.
Proof.
  intros Hwf. destruct t; cbn [get]; try (apply lookup_builtin_type_source; done); [done|].
  destruct (String.eqb _ _); [by apply lookup_builtin_type_source|].
  intros H. inv_ok. match goal with H : TEntity _ = TEntity _ |- _ => injection H as -> end.
  by eapply lookup_entity_source.
Qed.

(** ** Lemmas on deltas *)

Section Delta.
Context (ts : TypeSystem) (new_type : ObjectType) (unsafe : bool).

Notation stepD := (delta_step ts new_type unsafe).
Notation update := (update_field ts new_type unsafe).

(** What the loop needs of one entry, and what it produces. *)
Definition addable (f : Field) : bool :=
  unsafe || negb (no_default f) || fld_is_optional f.

Definition entry_ok (om : FieldMap) (e : string * Field) : bool :=
  match alist_get e.1 om with
  | None => addable e.2
  | Some old => is_ok (update old e.2)
  end.

Definition added_of (om : FieldMap) (l : FieldMap) : list Field :=
  omap (fun e => match alist_get e.1 om with None => Some e.2 | Some _ => None end) l.

Definition updated_of (om : FieldMap) (l : FieldMap) : list FieldDelta :=
  omap (fun e => old ← alist_get e.1 om; ok_option (update old e.2)) l.

Definition remove_all (ks : list string) (om : FieldMap) : FieldMap :=
  foldl (fun om k => alist_remove k om) om ks.

Lemma alist_get_remove_all k ks om :
  alist_get k (remove_all ks om) = if decide (k ∈ ks) then None else alist_get k om.
Proof.
  revert om. induction ks as [|k' ks IH]; intros om; cbn.
  { by destruct (decide _); [set_solver|]. }
  unfold remove_all in IH. rewrite IH, alist_get_remove.
  destruct (String.eqb_spec k k') as [->|]; repeat destruct (decide _); set_solver.
Qed.

Lemma remove_all_sorted ks om : btree_sorted om -> btree_sorted (remove_all ks om).
Proof. revert om. induction ks; cbn; [done|]; intros om Hom. by apply IHks, alist_remove_sorted. Qed.

Lemma alist_remove_absent k (om : FieldMap) : alist_get k om = None -> alist_remove k om = om.
Proof.
  induction om as [|[k' v] om IH]; cbn; [done|].
  destruct (String.eqb k k'); [done|]. intros. by rewrite IH.
Qed.

Lemma delta_step_ok s e s' : stepD s e = Ok s' <->
  entry_ok s.1.1 e = true /\
  s' = (alist_remove e.1 s.1.1, s.1.2 ++ added_of s.1.1 [e], s.2 ++ updated_of s.1.1 [e]).
Proof.
  destruct s as [[om a] u], e as [n f]. unfold entry_ok, added_of, updated_of, addable; cbn.
  destruct (alist_get n om) as [old|] eqn:E; cbn.
  - rewrite app_nil_r. destruct (update old f) as [d| |]; cbn; naive_solver.
  - rewrite app_nil_r, alist_remove_absent by done.
    destruct unsafe, (no_default f), (fld_is_optional f); cbn; naive_solver.
Qed.

Lemma entries_stable om k (l : FieldMap) : k ∉ l.*1 ->
  (Forall (fun e => entry_ok (alist_remove k om) e = true) l <->
   Forall (fun e => entry_ok om e = true) l) /\
  added_of (alist_remove k om) l = added_of om l /\
  updated_of (alist_remove k om) l = updated_of om l.
Proof.
  induction l as [|[n f] l IH]; cbn; intros Hk; [done|].
  apply not_elem_of_cons in Hk as [Hn Hk]. destruct (IH Hk) as (H1 & H2 & H3).
  unfold added_of, updated_of in *; cbn. rewrite !Forall_cons, H1, H2, H3.
  unfold entry_ok; cbn. rewrite !alist_get_remove.
  by destruct (String.eqb_spec n k) as [->|].
Qed.

(** The loop in closed form. *)
Lemma delta_loop l om a u s' : NoDup l.*1 ->
  foldM stepD (om, a, u) l = Ok s' <->
  Forall (fun e => entry_ok om e = true) l /\
  s' = (remove_all l.*1 om, a ++ added_of om l, u ++ updated_of om l).
Proof.
  revert om a u. induction l as [|e l IH]; intros om a u Hnd.
  { cbn. rewrite !app_nil_r. naive_solver. }
  cbn [fmap list_fmap] in Hnd. apply NoDup_cons in Hnd as [Hk Hnd].
  cbn [foldM]. rewrite bind_ok. setoid_rewrite delta_step_ok. cbn [fst snd].
  destruct (entries_stable om e.1 l Hk) as (H1 & H2 & H3).
  rewrite Forall_cons. split.
  - intros (s & [He ->] & H). apply IH in H as [Hl ->]; [|done].
    rewrite H1 in Hl. rewrite H2, H3, <- !app_assoc. split; [done|].
    unfold added_of, updated_of; cbn. by destruct (alist_get e.1 om) as [old|];
      cbn; [destruct (update old e.2)|].
  - intros [[He Hl] ->]. eexists; split; [done|]. apply IH; [done|]. rewrite H1, H2, H3.
    split; [done|]. rewrite <- !app_assoc.
    unfold added_of, updated_of; cbn. by destruct (alist_get e.1 om) as [old|];
      cbn; [destruct (update old e.2)|].
Qed.

Lemma removal_loop (l : FieldMap) r r' :
  foldM (removal_step new_type unsafe) r l = Ok r' <->
  Forall (fun e => addable e.2 = true) l /\ r' = r ++ l.*2.
Proof.
  revert r. induction l as [|[n f] l IH]; intros r; cbn.
  { rewrite app_nil_r. naive_solver. }
  rewrite Forall_cons. unfold addable at 1; cbn.
  destruct unsafe eqn:Hu, (no_default f), (fld_is_optional f); cbn;
    rewrite ?IH, <- ?app_assoc; naive_solver.
Qed.
End Delta.

(** The whole function in closed form. *)
Lemma generate_type_delta_ok ts old_type new_type unsafe delta :
  generate_type_delta ts old_type new_type unsafe = Ok delta <->
  let old := field_map_from old_type in
  let new := field_map_from new_type in
  object_eqb old_type new_type = true /\
  Forall (fun e => entry_ok ts new_type unsafe old e = true) new /\
  Forall (fun e => addable unsafe e.2 = true) (remove_all new.*1 old) /\
  delta = {| added_fields := added_of old new;
             removed_fields := (remove_all new.*1 old).*2;
             updated_fields := updated_of ts new_type unsafe old new;
             added_indexes := find_added_indexes old_type new_type;
             removed_indexes := find_removed_indexes old_type new_type |}.
Proof.
  cbn zeta. unfold generate_type_delta.
  destruct (object_eqb old_type new_type); cbn [negb]; [|naive_solver].
  rewrite bind_ok. setoid_rewrite delta_loop; [|apply field_map_nodup]. split.
  - intros ([[om a] u] & [Hl [= -> -> ->]] & Hrest). apply bind_ok in Hrest as (r & Hr & Hd).
    apply removal_loop in Hr as [Hr ->]. by injection Hd as <-.
  - intros (_ & Hl & Hr & ->). eexists; split; [by split|]. cbn.
    apply bind_ok. eexists. rewrite removal_loop. by split.
Qed.

#[export] Instance str_le_trans : Transitive str_le.
Proof.
  intros a b c. unfold str_le, str_leb.
  destruct (String.compare a b) eqn:E1; [apply String.compare_eq_iff in E1 as ->; done| |done].
  destruct (String.compare b c) eqn:E2; [apply String.compare_eq_iff in E2 as ->; by rewrite E1| |done].
  intros _ _. change (str_lt a b) in E1. change (str_lt b c) in E2.
  assert (str_lt a c) as Hac by (by transitivity b).
  change (String.compare a c = Lt) in Hac. by rewrite Hac.
Qed.

#[export] Instance str_le_total : Total str_le.
Proof.
  intros a b. unfold str_le, str_leb. rewrite (String.compare_antisym a b).
  destruct (String.compare b a); cbn; auto.
Qed.

Lemma str_sort_perm l : str_sort l ≡ₚ l.
Proof. apply merge_sort_Permutation. Qed.

Lemma type_eqb_sym a b : type_eqb a b = type_eqb b a.
Proof.
  assert (forall a b, object_eqb a b = object_eqb b a) as Hobj.
  { intros x y. unfold object_eqb. by rewrite (String.eqb_sym (obj_name x)),
      (String.eqb_sym (obj_version_id x)). }
  revert b. induction a as [| | | | |e|n|a IH]; intros [| | | | |e'|n'|b]; cbn; try done.
  - destruct e, e'; cbn; auto.
  - apply String.eqb_sym.
Qed.

Lemma update_field_ok ts new_type unsafe old f d :
  update_field ts new_type unsafe old f = Ok d ->
  exists ty oty,
    get ts (fld_type_id f) = Ok ty /\ get ts (fld_type_id old) = Ok oty /\
    fld_id old = Some (fdl_id d) /\
    (unsafe = false -> type_eqb ty oty = true /\ (fld_is_unique f = true -> fld_is_unique old = true)) /\
    (fld_name old = fld_name f -> Evolve.same_field ts (Evolve.apply_field_delta d old) (Evolve.keeping (Some old) f)).
Proof.
  unfold update_field. intros H.
  apply bind_ok in H as (ty & Hty & H). apply bind_ok in H as (oty & Hoty & H).
  apply bind_unit_ok in H as [Hsafe H]. apply bind_unit_ok in H as [Huniq H].
  apply bind_ok in H as (id & Hid & [= <-]).
  exists ty, oty. split; [done|split; [done|]]. cbn.
  split; [by destruct (fld_id old); simplify_eq|]. split.
  { intros ->. destruct (type_eqb ty oty), (fld_is_unique f), (fld_is_unique old); cbn in *; done. }
  intros Hname. unfold Evolve.same_field; cbn.
  assert (Hlabels : match (if bool_decide (str_sort (fld_labels old) = str_sort (fld_labels f))
      then None else Some (str_sort (fld_labels f))) with Some l => l | None => fld_labels old end
      ≡ₚ fld_labels f).
  { case_bool_decide as Hl; [|apply str_sort_perm].
    by rewrite <- (str_sort_perm (fld_labels old)), Hl, str_sort_perm. }
  destruct (_ || _) eqn:Hchange; cbn.
  { repeat split; try done. by left. }
  rewrite !orb_false_iff, !negb_false_iff, bool_decide_eq_true in Hchange.
  destruct Hchange as [[[Hd Ht] Ho%Bool.eqb_prop] Hu%Bool.eqb_prop].
  repeat split; try done; [rewrite Hd; by destruct (fld_default old)|]. right. exists oty, ty. repeat split; try done. by rewrite type_eqb_sym.
Qed.

Lemma update_field_default ts new_type unsafe old f d : update_field ts new_type unsafe old f = Ok d ->
  match fdl_attrs d with Some a => fad_default a = fld_default f | None => fld_default old = fld_default f end.
Proof.
  unfold update_field. intros H.
  apply bind_ok in H as (ty & _ & H). apply bind_ok in H as (oty & _ & H).
  apply bind_unit_ok in H as [_ H]. apply bind_unit_ok in H as [_ H]. apply bind_ok in H as (id & _ & [= <-]). cbn.
  destruct (_ || _) eqn:E; [done|]. rewrite !orb_false_iff, !negb_false_iff, bool_decide_eq_true in E.
  by destruct E as [[[-> _] _] _].
Qed.

Lemma update_field_succeeds ts new_type unsafe old f ta tb id :
  get ts (fld_type_id f) = Ok ta -> get ts (fld_type_id old) = Ok tb -> fld_id old = Some id ->
  type_eqb ta tb = true -> (fld_is_unique f = true -> fld_is_unique old = true) ->
  is_ok (update_field ts new_type unsafe old f) = true.
Proof.
  intros Hta Htb Hid Heq Hu. unfold update_field. rewrite Hta, Htb, Hid; cbn. rewrite Heq.
  destruct unsafe, (fld_is_unique f), (fld_is_unique old); cbn; try done.
  by specialize (Hu eq_refl).
Qed.

Lemma remove_all_entry ks ty n f : (n, f) ∈ remove_all ks (field_map_from ty) <->
  n ∉ ks /\ alist_get n (field_map_from ty) = Some f.
Proof.
  pose proof (btree_sorted_nodup _ (remove_all_sorted ks _ (field_map_sorted ty))) as Hnd.
  split.
  - intros Hin. apply (alist_get_in _ _ _ Hnd) in Hin. rewrite alist_get_remove_all in Hin.
    by destruct (decide _).
  - intros [Hk Hf]. apply alist_get_some_in. rewrite alist_get_remove_all.
    by destruct (decide _).
Qed.

Lemma find_added old new n :
  (forall k f, (k, f) ∈ new -> fld_name f = k) -> NoDup new.*1 ->
  List.find (fun f => String.eqb (fld_name f) n) (added_of old new) =
  match alist_get n new, alist_get n old with Some f, None => Some f | _, _ => None end.
Proof.
  unfold added_of. induction new as [|[k f] new IH]; intros Hname Hnd; cbn; [done|].
  cbn in Hnd. apply NoDup_cons in Hnd as [Hk Hnd].
  assert (fld_name f = k) as Hf by (apply Hname; set_solver).
  specialize (IH (fun k' f' H => Hname k' f' (list_elem_of_further _ _ _ H)) Hnd).
  destruct (String.eqb_spec n k) as [->|Hn].
  - apply alist_get_none in Hk. rewrite Hk in IH.
    destruct (alist_get k old) eqn:E; cbn; [by rewrite IH|]. by rewrite Hf, String.eqb_refl.
  - destruct (alist_get k old) eqn:E; cbn; [done|]. rewrite Hf.
    by destruct (String.eqb_spec k n) as [->|].
Qed.

Lemma existsb_removed old_type ks n :
  existsb (fun f => String.eqb (fld_name f) n) (remove_all ks (field_map_from old_type)).*2 = true <->
  n ∉ ks /\ is_Some (alist_get n (field_map_from old_type)).
Proof.
  rewrite existsb_name, list_elem_of_fmap. setoid_rewrite list_elem_of_fmap. split.
  - intros (f & -> & [k f'] & -> & [Hk Hget]%remove_all_entry). cbn.
    pose proof (field_map_get _ _ _ Hget) as [_ ->]. by eauto.
  - intros [Hk [f Hf]]. pose proof (field_map_get _ _ _ Hf) as [_ Hn].
    exists f. split; [done|]. exists (n, f). split; [done|]. by apply remove_all_entry.
Qed.

(** Field ids are distinct: they are the keys of the meta-data's table. *)
Definition ids_distinct (m : FieldMap) : Prop :=
  forall n1 n2 f1 f2, alist_get n1 m = Some f1 -> alist_get n2 m = Some f2 ->
    fld_id f1 = fld_id f2 -> n1 = n2.

Lemma ids_distinct_nodup m : NoDup ((fun e => fld_id e.2) <$> m) -> ids_distinct m.
Proof.
  intros Hnd n1 n2 f1 f2 [i Hi]%alist_get_some_in%list_elem_of_lookup
    [j Hj]%alist_get_some_in%list_elem_of_lookup Hid.
  assert (i = j) as ->; [|congruence].
  apply (NoDup_lookup _ _ _ (fld_id f1) Hnd); rewrite list_lookup_fmap, ?Hi, ?Hj; cbn; congruence.
Qed.

Lemma updated_of_elem ts new_type unsafe om l d :
  d ∈ updated_of ts new_type unsafe om l <->
  exists n f old, (n, f) ∈ l /\ alist_get n om = Some old /\
    update_field ts new_type unsafe old f = Ok d.
Proof.
  unfold updated_of. rewrite list_elem_of_omap. split.
  - intros ([n f] & Hin & H). cbn in H. destruct (alist_get n om) as [old|] eqn:E; [|done].
    exists n, f, old. cbn in H. destruct (update_field _ _ _ old f) as [d'| |] eqn:Hd; cbn in H; simplify_eq.
    done.
  - intros (n & f & old & Hin & Hold & H). exists (n, f). split; [done|]. cbn.
    by rewrite Hold; cbn; rewrite H.
Qed.

Lemma find_updated ts new_type old_type unsafe n f old :
  let om := field_map_from old_type in
  ids_distinct om -> (n, f) ∈ field_map_from new_type -> alist_get n om = Some old ->
  entry_ok ts new_type unsafe om (n, f) = true ->
  exists d, update_field ts new_type unsafe old f = Ok d /\
    List.find (fun d => bool_decide (Some (fdl_id d) = fld_id old))
      (updated_of ts new_type unsafe om (field_map_from new_type)) = Some d.
Proof.
  intros om Hids Hin Hold Hok. unfold entry_ok in Hok; cbn in Hok. rewrite Hold in Hok.
  destruct (update_field ts new_type unsafe old f) as [d| |] eqn:Hd; try done.
  exists d. split; [done|].
  destruct (List.find _ _) as [d'|] eqn:E.
  - apply List.find_some in E as [Hin' Hid%bool_decide_eq_true].
    apply list_elem_of_In, updated_of_elem in Hin' as (n' & f' & old' & Hin' & Hold' & Hd').
    destruct (update_field_ok _ _ _ _ _ _ Hd') as (? & ? & _ & _ & Hid' & _).
    assert (n' = n) as -> by (eapply Hids; [done..|congruence]).
    apply field_map_entry in Hin, Hin'. congruence.
  - assert (d ∈ updated_of ts new_type unsafe om (field_map_from new_type)) as Hin'
      by (apply updated_of_elem; by exists n, f, old).
    apply list_elem_of_In, (List.find_none _ _ E) in Hin'.
    destruct (update_field_ok _ _ _ _ _ _ Hd) as (? & ? & _ & _ & Hid & _).
    by rewrite Hid, bool_decide_eq_false in Hin'.
Qed.

Lemma index_diff_elem lhs rhs i :
  i ∈ index_diff lhs rhs <-> i ∈ lhs /\ idx_fields i ∉ idx_fields <$> rhs.
Proof.
  unfold index_diff. rewrite !list_elem_of_In, filter_In, <- list_elem_of_In. f_equiv.
  rewrite negb_true_iff, <- not_true_iff_false, existsb_exists. f_equiv.
  rewrite <- list_elem_of_In, list_elem_of_fmap. split.
  - intros (j & Hj & Hij%bool_decide_eq_true). exists j. split; [done|by apply list_elem_of_In].
  - intros (j & Hij & Hj). exists j. split; [by apply list_elem_of_In|by apply bool_decide_eq_true].
Qed.

Lemma evolve_indexes_fields old_type new_type delta fs :
  added_indexes delta = find_added_indexes old_type new_type ->
  removed_indexes delta = find_removed_indexes old_type new_type ->
  fs ∈ idx_fields <$> Evolve.evolve_indexes delta (obj_indexes old_type) <->
  fs ∈ idx_fields <$> obj_indexes new_type.
Proof.
  intros Ha Hr. unfold Evolve.evolve_indexes. rewrite fmap_app, elem_of_app.
  rewrite Ha, Hr. unfold find_added_indexes, find_removed_indexes. split.
  - intros [(i & -> & [Hi Hnot]%elem_of_List_filter)%list_elem_of_fmap
           |(i & -> & [Hi _]%index_diff_elem)%list_elem_of_fmap]; [|by apply list_elem_of_fmap_2].
    apply negb_true_iff, bool_decide_eq_false in Hnot.
    destruct (decide (idx_fields i ∈ idx_fields <$> obj_indexes new_type)) as [|H]; [done|].
    destruct Hnot. by apply list_elem_of_fmap_2, index_diff_elem.
  - intros (i & -> & Hi)%list_elem_of_fmap.
    destruct (decide (idx_fields i ∈ idx_fields <$> obj_indexes old_type)) as [H|H].
    + left. apply list_elem_of_fmap in H as (j & Hij & Hj). rewrite Hij.
      apply list_elem_of_fmap_2, elem_of_List_filter. split; [done|].
      apply negb_true_iff, bool_decide_eq_false.
      intros (k & Hjk & [_ Hk]%index_diff_elem)%list_elem_of_fmap.
      apply Hk. rewrite <- Hjk, <- Hij. by apply list_elem_of_fmap_2.
    + right. by apply list_elem_of_fmap_2, index_diff_elem.
Qed.

(** ** Properties *)

(** Carrying out the delta turns the stored type into the new one: for
    every name, the field the old fields evolve into exists exactly when the new
    type has the field, and describes the same data (optionality, uniqueness, labels
    up to order, equal type, and the default, or that of the old field if there is no
    new one); and the indexed field lists become those of the new type.  That the
    store carries deltas out like this is [MetaStoreSpec.evolution_stored]. *)
Theorem generate_type_delta_correct ts old_type new_type unsafe delta :
  ids_distinct (field_map_from old_type) ->
  generate_type_delta ts old_type new_type unsafe = Ok delta ->
  (forall n,
    match alist_get n (field_map_from new_type), Evolve.evolve delta (field_map_from old_type) n with
    | Some f, Some g => Evolve.same_field ts g (Evolve.keeping (alist_get n (field_map_from old_type)) f)
    | None, None => True
    | _, _ => False
    end) /\
  (forall fs, fs ∈ idx_fields <$> Evolve.evolve_indexes delta (obj_indexes old_type) <->
    fs ∈ idx_fields <$> obj_indexes new_type).
Proof.
  intros Hids H. apply generate_type_delta_ok in H as (_ & Hentry & _ & ->).
  split; [|intros fs; by apply evolve_indexes_fields].
  intros n. unfold Evolve.evolve; cbn [added_fields removed_fields updated_fields].
  rewrite find_added by (apply field_map_nodup || (intros ??; apply field_map_entry_name)).
  destruct (alist_get n (field_map_from new_type)) as [f|] eqn:Hnew.
  - destruct (alist_get n (field_map_from old_type)) as [old|] eqn:Hold.
    + destruct (existsb _ _) eqn:Hex.
      { apply existsb_removed in Hex as [[] _].
        apply alist_get_some_in in Hnew. by apply (list_elem_of_fmap_2 fst) in Hnew. }
      cbn. pose proof (alist_get_some_in _ _ _ Hnew) as Hin.
      rewrite Forall_forall in Hentry.
      destruct (find_updated ts new_type old_type unsafe n f old Hids Hin Hold (Hentry _ Hin))
        as (d & Hd & ->).
      destruct (update_field_ok _ _ _ _ _ _ Hd) as (? & ? & _ & _ & _ & _ & Hsame).
      apply field_map_get in Hnew as [_ <-], Hold as [_ Hn]. by apply Hsame.
    + unfold Evolve.same_field. cbn. split; [done|]. split; [by destruct (fld_default f)|]. repeat split; [done|by left].
  - destruct (existsb _ _) eqn:Hex; [done|].
    destruct (alist_get n (field_map_from old_type)) as [old|] eqn:Hold; [|done].
    apply not_true_iff_false in Hex. destruct Hex. apply existsb_removed. rewrite Hold.
    split; [by apply alist_get_none|by eexists].
Qed.

(** Without the unsafe flag, a type may evolve exactly when every added
    field and every removed field has a default or is optional, and no field
    both have changes its type or becomes unique - given that the two are the
    same type by name and version, that the types of the common fields resolve,
    and that the old fields have ids. *)
Theorem generate_type_delta_safe ts old_type new_type :
  let old := field_map_from old_type in
  let new := field_map_from new_type in
  object_eqb old_type new_type = true ->
  (forall n f g, alist_get n old = Some f -> alist_get n new = Some g ->
    is_ok (get ts (fld_type_id f)) = true /\ is_ok (get ts (fld_type_id g)) = true /\
    is_Some (fld_id f)) ->
  is_ok (generate_type_delta ts old_type new_type false) = true <->
  (forall n f, alist_get n new = Some f -> alist_get n old = None ->
     fld_default f <> None \/ fld_is_optional f = true) /\
  (forall n f, alist_get n old = Some f -> alist_get n new = None ->
     fld_default f <> None \/ fld_is_optional f = true) /\
  (forall n f g, alist_get n old = Some f -> alist_get n new = Some g ->
     (exists ta tb, get ts (fld_type_id g) = Ok ta /\ get ts (fld_type_id f) = Ok tb /\
        type_eqb ta tb = true) /\
     (fld_is_unique g = true -> fld_is_unique f = true)).
Proof.
  intros old new Hsame Hres.
  assert (forall f, addable false f = true <-> fld_default f <> None \/ fld_is_optional f = true)
    as Hadd.
  { intros f. unfold addable, no_default. destruct (fld_default f), (fld_is_optional f); naive_solver. }
  assert (is_ok (generate_type_delta ts old_type new_type false) = true <->
    Forall (fun e => entry_ok ts new_type false old e = true) new /\
    Forall (fun e => addable false e.2 = true) (remove_all new.*1 old)) as ->.
  { pose proof (generate_type_delta_ok ts old_type new_type false) as H. cbn zeta in H.
    fold old new in H. destruct (generate_type_delta _ _ _ _) as [d| |]; naive_solver. }
  rewrite !Forall_forall. split.
  - intros [Hentry Hrem]. split; [|split].
    + intros n f Hf Hold. apply Hadd. specialize (Hentry _ (alist_get_some_in _ _ _ Hf)).
      unfold entry_ok in Hentry; cbn in Hentry. by rewrite Hold in Hentry.
    + intros n f Hf Hnew%alist_get_none. by apply Hadd, (Hrem (n, f)), remove_all_entry.
    + intros n f g Hf Hg. specialize (Hentry _ (alist_get_some_in _ _ _ Hg)).
      unfold entry_ok in Hentry; cbn in Hentry. rewrite Hf in Hentry.
      destruct (update_field ts new_type false f g) as [d| |] eqn:Hd; [|done..].
      destruct (update_field_ok _ _ _ _ _ _ Hd) as (ta & tb & ? & ? & _ & Hsafe & _).
      destruct (Hsafe eq_refl). split; [by exists ta, tb|done].
  - intros (Hadded & Hremoved & Hcommon). split.
    + intros [n g] Hin%field_map_entry. unfold entry_ok; cbn.
      fold new in Hin. destruct (alist_get n old) as [f|] eqn:Hf; [|by apply Hadd, (Hadded n)].
      destruct (Hcommon n f g Hf Hin) as [(ta & tb & Hta & Htb & Heq) Hu].
      destruct (Hres n f g Hf Hin) as (_ & _ & [id Hid]).
      by apply (update_field_succeeds _ _ _ _ _ ta tb id).
    + intros [n f] [Hk Hf]%remove_all_entry. by apply Hadd, (Hremoved n), alist_get_none.
Qed.

(** Every type of the version survives being stored by its [TypeId] and
    looked up again: scalars, entity ids, arrays of built-in types, built-in
    entities, and the version's own entities that no built-in name hides. *)
Theorem get_type_id_roundtrip ts t : ts_wf ts -> known_type ts t -> get ts (type_id_of t) = Ok t.
Proof. apply get_type_id_of. Qed.

(** A name denotes a built-in type exactly when it is that type's name:
    the lookup inverts [Type::name], nested arrays included, and terminates on
    every string. *)
Theorem lookup_builtin_type_iff ts name t : ts_wf ts ->
  lookup_builtin_type ts name = Ok t <-> type_name t = name /\ builtin_type ts t.
Proof.
  intros Hwf. split; [by apply lookup_builtin_type_sound|].
  intros [<- Ht]. by apply lookup_builtin_type_name.
Qed.

(** Adding a type succeeds exactly for a custom entity whose name is still
    free, makes that name (and no other) resolve to it, keeps the type system
    well-formed, and otherwise says why. *)
Theorem add_custom_type_spec ts ty :
  let name := obj_name (object_type ty) in
  match add_custom_type ts ty with
  | Ok ts' =>
      is_auth ty = false /\ custom_types ts !! name = None /\
      (forall n, lookup_custom_type ts' n =
         if decide (n = name) then Ok ty else lookup_custom_type ts n) /\
      (ts_wf ts -> ts_wf ts')
  | Err (CustomTypeExists old) => is_auth ty = false /\ custom_types ts !! name = Some old
  | Err (NotACustomType n) => is_auth ty = true /\ n = name
  | _ => False
  end.
Proof.
  intros name. unfold add_custom_type; fold name. destruct ty as [obj|obj]; [|done].
  unfold lookup_custom_type at 1. destruct (custom_types ts !! name) as [old|] eqn:E; [done|].
  cbn. split; [done|split; [done|split]].
  - intros n. unfold lookup_custom_type; cbn. destruct (decide (n = name)) as [->|].
    + by rewrite lookup_insert_eq.
    + by rewrite lookup_insert_ne.
  - intros [Hb Hc]. split; [done|]. cbn. intros n e.
    destruct (decide (n = name)) as [->|].
    + rewrite lookup_insert_eq. by intros [= <-].
    + rewrite lookup_insert_ne by done. apply Hc.
Qed.

(** ** Witnesses *)

Definition person (fields : list Field) (indexes : list DbIndex) : ObjectType :=
  {| obj_meta_id := Some 1%Z; obj_name := "Person"; obj_fields := fields; obj_indexes := indexes;
     obj_chisel_id := the_chisel_id; obj_backing_table := "ty_Person_0"; obj_version_id := "dev" |}.

Definition person_field (id : option Z) (name : string) (ty : TypeId) (labels : list string)
    (default : option string) : Field :=
  {| fld_id := id; fld_name := name; fld_type_id := ty; fld_labels := labels;
     fld_is_optional := false; fld_is_unique := false; fld_default := default;
     fld_effective_default := default; fld_version_id := "dev" |}.

Definition old_person : ObjectType :=
  person [person_field (Some 1%Z) "name" IdString ["pii"; "a"] None;
          person_field (Some 2%Z) "age" IdFloat [] (Some "1")] [DbIndex_new_from_fields ["age"]].
Definition new_person : ObjectType :=
  person [person_field None "name" IdString ["a"; "pii"] (Some "anon");
          person_field None "city" IdString [] (Some "x")] [DbIndex_new_from_fields ["city"]].

Definition dev_types : TypeSystem :=
  {| custom_types := {["Person" := Custom old_person]};
     builtin := {| types := builtin_table |}; ts_version_id := "dev" |}.

Lemma dev_types_wf : ts_wf dev_types.
Proof.
  split; [apply BuiltinTypes_new_ok|]. intros n e. cbn [custom_types dev_types].
  intros [<- <-]%lookup_singleton_Some. done.
Qed.

Lemma old_person_ids : ids_distinct (field_map_from old_person).
Proof. apply ids_distinct_nodup, (bool_decide_unpack _). vm_compute. exact I. Qed.

Definition person_delta : ObjectDelta :=
  {| added_fields := [person_field None "city" IdString [] (Some "x")];
     removed_fields := [person_field (Some 2%Z) "age" IdFloat [] (Some "1")];
     updated_fields := [{| fdl_id := 1; fdl_attrs := Some {| fad_type_id := IdString;
       fad_default := Some "anon"; fad_is_optional := false; fad_is_unique := false |};
       fdl_labels := None |}];
     added_indexes := [DbIndex_new_from_fields ["city"]];
     removed_indexes := [DbIndex_new_from_fields ["age"]] |}.

Lemma person_delta_ok : generate_type_delta dev_types old_person new_person false = Ok person_delta.
Proof. vm_compute. reflexivity. Qed.

Lemma generate_type_delta_correct_witness :
  match Evolve.evolve person_delta (field_map_from old_person) "name" with
  | Some g => Evolve.same_field dev_types g (Evolve.keeping (alist_get "name" (field_map_from old_person))
      (person_field None "name" IdString ["a"; "pii"] (Some "anon")))
  | None => False
  end.
Proof.
  destruct (generate_type_delta_correct dev_types old_person new_person false person_delta
    old_person_ids person_delta_ok) as [H _].
  exact (H "name").
Defined.

Lemma generate_type_delta_safe_witness :
  is_ok (generate_type_delta dev_types old_person new_person false) = true <->
  (forall n f, alist_get n (field_map_from new_person) = Some f ->
     alist_get n (field_map_from old_person) = None ->
     fld_default f <> None \/ fld_is_optional f = true) /\
  (forall n f, alist_get n (field_map_from old_person) = Some f ->
     alist_get n (field_map_from new_person) = None ->
     fld_default f <> None \/ fld_is_optional f = true) /\
  (forall n f g, alist_get n (field_map_from old_person) = Some f ->
     alist_get n (field_map_from new_person) = Some g ->
     (exists ta tb, get dev_types (fld_type_id g) = Ok ta /\ get dev_types (fld_type_id f) = Ok tb /\
        type_eqb ta tb = true) /\
     (fld_is_unique g = true -> fld_is_unique f = true)).
Proof.
  apply (generate_type_delta_safe dev_types old_person new_person); [reflexivity|].
  intros n f g [Hf _]%field_map_get [Hg _]%field_map_get. cbn in Hf, Hg.
  repeat (apply elem_of_cons in Hf as [->|Hf]); [| |by apply not_elem_of_nil in Hf];
    (repeat (apply elem_of_cons in Hg as [->|Hg]); [| |by apply not_elem_of_nil in Hg]);
    (split; [vm_compute; reflexivity|split; [vm_compute; reflexivity|eexists; reflexivity]]).
Defined.

Lemma get_type_id_roundtrip_witness :
  get dev_types (type_id_of (TEntity (Custom old_person))) = Ok (TEntity (Custom old_person)).
Proof.
  apply (get_type_id_roundtrip dev_types _ dev_types_wf).
  right. exists old_person. split; [reflexivity|]. split; [reflexivity|]. split; [reflexivity|].
  split; [discriminate|]. split; [|split; reflexivity].
  apply (bool_decide_unpack (obj_name old_person ∉ builtin_names)). vm_compute. exact I.
Defined.

Lemma lookup_builtin_type_iff_witness :
  lookup_builtin_type dev_types "Array<Array<Id<Person>>>" = Ok (TArray (TArray (TEntityId "Person"))).
Proof. apply (lookup_builtin_type_iff dev_types _ _ dev_types_wf). split; [reflexivity|exact I]. Defined.
