(* ===== verification/Policies.v ===== *)
(** * Policies ([server/src/policies.rs])

    The policy system of a version: the labels' field policies, the users
    allowed under each path and the headers required under each path, read from
    the policy file.  The regex engine, the YAML parser and the HTTP method
    type are libraries: parameters, in the classes below. *)

From S2P Require Import Prelude PrefixMap Json EntityValue Types.

(** ** Libraries *)

Class RegexLib := {
  Regex : Type;
  regex_new : string -> result Regex;
  is_match : Regex -> string -> bool;
}.

Class MethodLib := {
  Method : Type;
  method_eq_dec :: EqDecision Method;
  method_from_str : string -> option Method;
  method_as_str : Method -> string;
  method_OPTIONS : Method;
}.

(** The files' structure, as [serde] reads it. *)
Record MandatoryHeader := {
  mh_name : string;
  mh_secret_value_ref : string;
  mh_only_for_methods : option (list string);
}.

Record Route := {
  rt_path : string;
  rt_users : option string;
  rt_mandatory_header : option MandatoryHeader;
}.

Record Label := {
  lb_name : string;
  lb_transform : option string;
  lb_except_uri : option string;
}.

Record YamlPolicies := {
  yp_routes : option (list Route);
  yp_endpoints : option (list Route);
  yp_labels : option (list Label);
}.

Class YamlLib := { yaml_from_str : string -> result YamlPolicies }.

(** ** Policies *)

Inductive Kind :=
  | Transform (f : EntityValue -> EntityValue)
  | MatchLogin
  | Omit.

Record FieldPolicies := {
  fp_transforms : gmap string (EntityValue -> EntityValue);
  fp_match_login : gset string;
  fp_current_userid : option string;
  fp_omit : gset string;
}.

Definition anonymize (_ : EntityValue) : EntityValue := EvString "xxxxx".

Section Policies.
Context {RL : RegexLib} {ML : MethodLib} {YL : YamlLib}.

Record Policy := { kind : Kind; except_uri : Regex }.

Record UserAuthorization := { ua_paths : PrefixMap Regex }.

Definition user_is_allowed (self : UserAuthorization) (username : option string) (path : string)
    : bool :=
  match longest_prefix (ua_paths self) path with
  | None => true
  | Some (_, u) =>
      match username with
      | None => false
      | Some username => is_match u username
      end
  end.

(** The mutated struct and the returned [Result]: the entry is replaced
    before the error is returned. *)
Definition user_add (self : UserAuthorization) (path : string) (users : Regex)
    : UserAuthorization * result unit :=
  let '(paths, old) := insert path users (ua_paths self) in
  ({| ua_paths := paths |},
   match old with
   | Some _ => bail ("Repeated path in user authorization: " +:+ path)
   | None => Ok ()
   end).

Record RequiredHeader := {
  header_name : string;
  secret_name : string;
  methods : option (list Method);
}.

Record SecretAuthorization := { sa_paths : PrefixMap RequiredHeader }.

(** What the server reads of a request's head: its method, and the value of a
    header with the outcome of [to_str] on it. *)
Record Parts := {
  rq_method : Method;
  rq_header : string -> option (option string);
}.

Definition secret_is_allowed (self : SecretAuthorization) (req : Parts) (secrets : json_object)
    (path : string) : bool :=
  match longest_prefix (sa_paths self) path with
  | None => true
  | Some (_, h) =>
      if match methods h with
         | Some v => negb (bool_decide (rq_method req ∈ v))
         | None => false
         end
      then true
      else
        match alist_get (secret_name h) secrets with
        | Some (JString secret_value) =>
            match rq_header req (header_name h) with
            | Some (Some header_value) => String.eqb header_value secret_value
            | Some None => false
            | None => false
            end
        | _ => false
        end
  end.

Definition secret_add (self : SecretAuthorization) (path : string) (header : RequiredHeader)
    : SecretAuthorization * result unit :=
  let '(paths, old) := insert path header (sa_paths self) in
  ({| sa_paths := paths |},
   match old with
   | Some _ => bail ("Repeated path in header authorization: " +:+ path)
   | None => Ok ()
   end).

Record PolicySystem := {
  labels : gmap string Policy;
  user_authorization : UserAuthorization;
  secret_authorization : SecretAuthorization;
}.

Definition PolicySystem_default : PolicySystem :=
  {| labels := ∅;
     user_authorization := {| ua_paths := prefix_map_default |};
     secret_authorization := {| sa_paths := prefix_map_default |} |}.

(** ** Field policies *)

(** The body of the inner loop: one label of one field. *)
Definition apply_label (self : PolicySystem) (current_path : string) (fld : Field)
    (fp : FieldPolicies) (lbl : string) : FieldPolicies :=
  match labels self !! lbl with
  | None => fp
  | Some p =>
      if negb (is_match (except_uri p) current_path) then
        match kind p with
        | Transform f =>
            {| fp_transforms := <[fld_name fld := f]> (fp_transforms fp);
               fp_match_login := fp_match_login fp;
               fp_current_userid := fp_current_userid fp; fp_omit := fp_omit fp |}
        | MatchLogin =>
            {| fp_transforms := fp_transforms fp;
               fp_match_login := {[fld_name fld]} ∪ fp_match_login fp;
               fp_current_userid := fp_current_userid fp; fp_omit := fp_omit fp |}
        | Omit =>
            {| fp_transforms := fp_transforms fp; fp_match_login := fp_match_login fp;
               fp_current_userid := fp_current_userid fp;
               fp_omit := {[fld_name fld]} ∪ fp_omit fp |}
        end
      else fp
  end.

Definition make_field_policies (self : PolicySystem) (user_id : option string)
    (current_path : string) (ty : ObjectType) : FieldPolicies :=
  foldl (fun fp fld => foldl (apply_label self current_path fld) fp (fld_labels fld))
    {| fp_transforms := ∅; fp_match_login := ∅; fp_current_userid := user_id; fp_omit := ∅ |}
    (user_fields ty).

(** ** Reading the policy file *)

Definition parse_methods (v : list string) : result (list Method) :=
  mapM (fun s => option_context (method_from_str s) ("Error parsing method " +:+ s)) v.

Definition add_label (policies : gmap string Policy) (label : Label)
    : result (gmap string Policy) :=
  except_uri ← regex_new (match lb_except_uri label with Some e => e | None => "^\b$" end);
  match lb_transform label with
  | Some x =>
      kind ←
        (if String.eqb x "anonymize" then Ok (Transform anonymize)
         else if String.eqb x "omit" then Ok Omit
         else if String.eqb x "match_login" then Ok MatchLogin
         else bail ("unknown transform: " +:+ x +:+ " for label " +:+ lb_name label));
      Ok (<[lb_name label := {| kind := kind; except_uri := except_uri |}]> policies)
  | None => Ok policies
  end.

Definition add_route (s : UserAuthorization * SecretAuthorization) (route : Route)
    : result (UserAuthorization * SecretAuthorization) :=
  let '(ua, sa) := s in
  ua ← match rt_users route with
       | Some users =>
           users ← regex_new users;
           let '(ua, r) := user_add ua (rt_path route) users in
           _ ← r; Ok ua
       | None => Ok ua
       end;
  sa ← match rt_mandatory_header route with
       | Some header =>
           methods ← match mh_only_for_methods header with
                     | Some m => Some <$> parse_methods m
                     | None => Ok None
                     end;
           let '(sa, r) := secret_add sa (rt_path route)
             {| header_name := mh_name header; secret_name := mh_secret_value_ref header;
                methods := methods |} in
           _ ← r; Ok sa
       | None => Ok sa
       end;
  Ok (ua, sa).

Definition from_yaml (config : string) : result PolicySystem :=
  parsed_yaml ← yaml_from_str config;
  labels ← foldM add_label ∅ (default [] (yp_labels parsed_yaml));
  let routes :=
    default [] (match yp_routes parsed_yaml with
                | Some r => Some r
                | None => yp_endpoints parsed_yaml
                end) in
  '(ua, sa) ← foldM add_route
    (user_authorization PolicySystem_default, secret_authorization PolicySystem_default) routes;
  Ok {| labels := labels; user_authorization := ua; secret_authorization := sa |}.

(** ** Lemmas on field policies *)

(** The kind of policy a label brings to this path. *)
Definition applies (self : PolicySystem) (current_path lbl : string) (k : Kind) : Prop :=
  exists p, labels self !! lbl = Some p /\ kind p = k /\
    is_match (except_uri p) current_path = false.

(** Some field named [n] has a label that brings a policy of kind [k]. *)
Definition labelled (self : PolicySystem) (current_path : string) (fields : list Field)
    (n : string) (k : Kind) : Prop :=
  exists fld lbl, fld ∈ fields /\ fld_name fld = n /\ lbl ∈ fld_labels fld /\
    applies self current_path lbl k.

Lemma foldl_flatten {A B S} (g : A -> S -> B -> S) (bs : A -> list B) (l : list A) (s : S) :
  foldl (fun s x => foldl (g x) s (bs x)) s l =
  foldl (fun s xb => g xb.1 s xb.2) s (l ≫= fun x => pair x <$> bs x).
Proof.
  revert s. induction l as [|x l IH]; intros s; cbn; [done|].
  rewrite foldl_app, IH. f_equal. generalize (bs x). intros l'. revert s.
  induction l'; cbn; auto.
Qed.

Lemma labels_of_elem fields fld lbl :
  (fld, lbl) ∈ (fields ≫= fun x => pair x <$> fld_labels x) <->
  fld ∈ fields /\ lbl ∈ fld_labels fld.
Proof.
  rewrite list_elem_of_bind. setoid_rewrite list_elem_of_fmap. naive_solver.
Qed.

Section Field_policies.
Context (self : PolicySystem) (current_path : string).
Notation step := (fun fp (xb : Field * string) => apply_label self current_path xb.1 fp xb.2).
Notation from l n k :=
  (exists fld lbl, (fld, lbl) ∈ l /\ fld_name fld = n /\ applies self current_path lbl k).

(** What [apply_label] does with a policy of kind [k]. *)
Definition put (k : Kind) (n : string) (fp : FieldPolicies) : FieldPolicies :=
  match k with
  | Transform f =>
      {| fp_transforms := <[n := f]> (fp_transforms fp); fp_match_login := fp_match_login fp;
         fp_current_userid := fp_current_userid fp; fp_omit := fp_omit fp |}
  | MatchLogin =>
      {| fp_transforms := fp_transforms fp; fp_match_login := {[n]} ∪ fp_match_login fp;
         fp_current_userid := fp_current_userid fp; fp_omit := fp_omit fp |}
  | Omit =>
      {| fp_transforms := fp_transforms fp; fp_match_login := fp_match_login fp;
         fp_current_userid := fp_current_userid fp; fp_omit := {[n]} ∪ fp_omit fp |}
  end.

Record policies_of (l : list (Field * string)) (u : option string) (fp : FieldPolicies) : Prop := {
  po_user : fp_current_userid fp = u;
  po_omit : forall n, n ∈ fp_omit fp <-> from l n Omit;
  po_login : forall n, n ∈ fp_match_login fp <-> from l n MatchLogin;
  po_transform : forall n f, fp_transforms fp !! n = Some f -> from l n (Transform f);
  po_no_transform : forall n, fp_transforms fp !! n = None -> forall f, ~ from l n (Transform f);
}.

Lemma from_snoc l x n k : from (l ++ [x]) n k <->
  from l n k \/ (fld_name x.1 = n /\ applies self current_path x.2 k).
Proof.
  destruct x as [fld lbl]; cbn. setoid_rewrite elem_of_app. setoid_rewrite list_elem_of_singleton.
  split.
  - intros (fld' & lbl' & [Hin|[= -> ->]] & Hn & Ha); [left; eauto|right; eauto].
  - intros [(fld' & lbl' & Hin & Hn & Ha)|[Hn Ha]]; [exists fld', lbl'|exists fld, lbl]; auto.
Qed.

Lemma applies_fun lbl k k' :
  applies self current_path lbl k -> applies self current_path lbl k' -> k = k'.
Proof. intros (p & ? & <- & _) (p' & ? & <- & _). congruence. Qed.

Lemma apply_label_cases x fp :
  ((forall k, ~ applies self current_path x.2 k) /\
   apply_label self current_path x.1 fp x.2 = fp) \/
  (exists k, applies self current_path x.2 k /\
   apply_label self current_path x.1 fp x.2 = put k (fld_name x.1) fp).
Proof.
  unfold apply_label. destruct (labels self !! x.2) as [p|] eqn:Hp.
  - destruct (is_match (except_uri p) current_path) eqn:Hm; cbn.
    + left. split; [|done]. intros k (p' & Hp' & _ & ?). congruence.
    + right. exists (kind p). split; [by exists p|]. by destruct (kind p).
  - left. split; [|done]. intros k (p' & Hp' & _). congruence.
Qed.

Lemma from_snoc_none l x n k : (forall k, ~ applies self current_path x.2 k) ->
  from (l ++ [x]) n k <-> from l n k.
Proof. intros Hno. rewrite from_snoc. naive_solver. Qed.

Lemma from_snoc_put l x n k k' : applies self current_path x.2 k' ->
  from (l ++ [x]) n k <-> from l n k \/ (fld_name x.1 = n /\ k = k').
Proof.
  intros Hk'. rewrite from_snoc. f_equiv. split; intros [<- H]; [|by subst].
  split; [done|]. by eapply applies_fun.
Qed.

Lemma apply_label_policies l u x fp :
  policies_of l u fp -> policies_of (l ++ [x]) u (apply_label self current_path x.1 fp x.2).
Proof.
  intros [Hu Ho Hl Ht Hnt]. destruct (apply_label_cases x fp) as [[Hno ->]|(k & Hk & ->)].
  - split; [done|..]; intros n; intros; rewrite ?from_snoc_none by done; auto.
  - split; [by destruct k|..].
    + intros n. rewrite (from_snoc_put _ _ _ _ k Hk), <- Ho. destruct k; cbn; set_solver.
    + intros n. rewrite (from_snoc_put _ _ _ _ k Hk), <- Hl. destruct k; cbn; set_solver.
    + intros n f Hf. rewrite (from_snoc_put _ _ _ _ k Hk). destruct k as [g| |]; cbn in Hf; auto.
      destruct (decide (n = fld_name x.1)) as [->|Hne].
      * rewrite lookup_insert_eq in Hf. simplify_eq. auto.
      * rewrite lookup_insert_ne in Hf by done. auto.
    + intros n Hn f. rewrite (from_snoc_put _ _ _ _ k Hk). destruct k as [g| |]; cbn in Hn.
      * destruct (decide (n = fld_name x.1)) as [->|Hne]; [by rewrite lookup_insert_eq in Hn|].
        rewrite lookup_insert_ne in Hn by done. intros [H1|[? _]]; [by eapply Hnt|done].
      * intros [H1|[_ ?]]; [by eapply Hnt|done].
      * intros [H1|[_ ?]]; [by eapply Hnt|done].
Qed.

Lemma make_field_policies_from user_id ty :
  policies_of (user_fields ty ≫= fun x => pair x <$> fld_labels x) user_id
    (make_field_policies self user_id current_path ty).
Proof.
  unfold make_field_policies.
  rewrite (foldl_flatten (apply_label self current_path)).
  generalize (user_fields ty ≫= fun x => pair x <$> fld_labels x). intros l.
  induction l as [|x l IH] using rev_ind.
  { cbn. split; cbn; [done|..]; intros n; [set_solver| set_solver| |];
      intros f; [by rewrite lookup_empty|set_solver]. }
  rewrite foldl_app. cbn. by apply apply_label_policies.
Qed.
End Field_policies.

Lemma from_labelled self current_path fields n k :
  (exists fld lbl, (fld, lbl) ∈ (fields ≫= fun x => pair x <$> fld_labels x) /\
     fld_name fld = n /\ applies self current_path lbl k) <->
  labelled self current_path fields n k.
Proof. unfold labelled. setoid_rewrite labels_of_elem. naive_solver. Qed.

(** ** Lemmas on routes *)

(** What a route asks for, when its regex and its methods are valid. *)
Definition route_users (rt : Route) (re : Regex) : Prop :=
  exists u, rt_users rt = Some u /\ regex_new u = Ok re.

Definition route_header (rt : Route) (h : RequiredHeader) : Prop :=
  exists mh, rt_mandatory_header rt = Some mh /\ header_name h = mh_name mh /\
    secret_name h = mh_secret_value_ref mh /\
    match mh_only_for_methods mh with
    | Some ms => exists v, methods h = Some v /\ parse_methods ms = Ok v
    | None => methods h = None
    end.

(** A map of paths says, for each path, what the routes of that path ask. *)
Definition paths_of {T} (asks : Route -> T -> Prop) (rts : list Route) (m : PrefixMap T) : Prop :=
  wf m /\ forall p v, alist_get p m = Some v <-> exists rt, rt ∈ rts /\ rt_path rt = p /\ asks rt v.

Lemma paths_of_skip {T} (asks : Route -> T -> Prop) rts rt m :
  (forall v, ~ asks rt v) -> paths_of asks rts m -> paths_of asks (rts ++ [rt]) m.
Proof.
  intros Hno [Hwf Hm]. split; [done|]. intros p v. rewrite Hm.
  setoid_rewrite elem_of_app. setoid_rewrite list_elem_of_singleton. split.
  - intros (r & ? & ? & ?). eauto.
  - intros (r & [?| ->] & ? & Hr); [eauto|by destruct (Hno v)].
Qed.

Lemma paths_of_add {T} (asks : Route -> T -> Prop) rts rt m v :
  (forall w, asks rt w <-> w = v) -> alist_get (rt_path rt) m = None ->
  paths_of asks rts m -> paths_of asks (rts ++ [rt]) (insert (rt_path rt) v m).1.
Proof.
  intros Hv Hnone [Hwf Hm]. split; [by apply insert_wf|]. intros p w. cbn.
  rewrite alist_get_btree_insert by done.
  setoid_rewrite elem_of_app. setoid_rewrite list_elem_of_singleton.
  destruct (String.eqb_spec p (rt_path rt)) as [->|Hne].
  - split; [intros [= <-]; exists rt; naive_solver|].
    intros (r & [Hin| ->] & Hp & Hr); [|by apply Hv in Hr as ->].
    assert (alist_get (rt_path rt) m = Some w) by (apply Hm; eauto). congruence.
  - rewrite Hm. split; [intros (r & ? & ? & ?); eauto|].
    intros (r & [Hin| ->] & Hp & Hr); [eauto|done].
Qed.

Lemma add_users_step (ua : UserAuthorization) rt ua' rts :
  match rt_users rt with
  | Some users =>
      users ← regex_new users;
      let '(ua, r) := user_add ua (rt_path rt) users in _ ← r; Ok ua
  | None => Ok ua
  end = Ok ua' ->
  paths_of route_users rts (ua_paths ua) -> paths_of route_users (rts ++ [rt]) (ua_paths ua').
Proof.
  intros H Hm. destruct (rt_users rt) as [u|] eqn:Hu.
  - apply bind_ok in H as (re & Hre & H). cbn in H.
    destruct (alist_get (rt_path rt) (ua_paths ua)) eqn:Hg; [done|]. injection H as <-.
    apply (paths_of_add _ _ _ _ re); [|done|done].
    intros w. split; [intros (u' & ? & ?); congruence|]. intros ->. by exists u.
  - injection H as <-. apply paths_of_skip; [|done]. intros v (u' & ? & _). congruence.
Qed.

Lemma add_header_step (sa : SecretAuthorization) rt sa' rts :
  match rt_mandatory_header rt with
  | Some header =>
      methods ← match mh_only_for_methods header with
                | Some m => Some <$> parse_methods m
                | None => Ok None
                end;
      let '(sa, r) := secret_add sa (rt_path rt)
        {| header_name := mh_name header; secret_name := mh_secret_value_ref header;
           methods := methods |} in _ ← r; Ok sa
  | None => Ok sa
  end = Ok sa' ->
  paths_of route_header rts (sa_paths sa) -> paths_of route_header (rts ++ [rt]) (sa_paths sa').
Proof.
  intros H Hm. destruct (rt_mandatory_header rt) as [mh|] eqn:Hu.
  - apply bind_ok in H as (ms & Hms & H). cbn in H.
    destruct (alist_get (rt_path rt) (sa_paths sa)) eqn:Hg; [done|]. injection H as <-.
    refine (paths_of_add _ _ _ _ {| header_name := _; secret_name := _; methods := ms |} _ Hg Hm).
    intros [hn sn ms']. unfold route_header; cbn. rewrite Hu. split.
    + intros (mh' & [= <-] & -> & -> & Hmeth).
      destruct (mh_only_for_methods mh); inv_ok; [|done].
      destruct Hmeth as (v & -> & Hv). rewrite Hv in *. congruence.
    + intros [= -> -> ->]. exists mh. split; [done|split; [done|split; [done|]]].
      destruct (mh_only_for_methods mh); inv_ok; [|done]. by eexists.
  - injection H as <-. apply paths_of_skip; [|done]. intros v (u' & ? & _). congruence.
Qed.

(** The routes the file lists: [routes], or [endpoints] without it. *)
Definition yaml_routes (y : YamlPolicies) : list Route :=
  default [] (match yp_routes y with Some r => Some r | None => yp_endpoints y end).

Lemma from_yaml_paths config ps : from_yaml config = Ok ps ->
  exists y, yaml_from_str config = Ok y /\
    paths_of route_users (yaml_routes y) (ua_paths (user_authorization ps)) /\
    paths_of route_header (yaml_routes y) (sa_paths (secret_authorization ps)).
Proof.
  unfold from_yaml. intros H. apply bind_ok in H as (y & Hy & H).
  apply bind_ok in H as (ls & _ & H). apply bind_ok in H as ([ua sa] & Hr & H).
  injection H as <-. exists y. split; [done|]. cbn [user_authorization secret_authorization].
  revert Hr. fold (yaml_routes y). generalize (yaml_routes y). intros rts Hr.
  refine (foldM_inv add_route (fun rts s => paths_of route_users rts (ua_paths s.1) /\
    paths_of route_header rts (sa_paths s.2)) rts _ (ua, sa) _ _ Hr).
  - split; (split; [constructor|]); intros p v; cbn; (split; [done|]);
      intros (rt & []%not_elem_of_nil & _).
  - intros done' rt [ua1 sa1] s2 [H1 H2] H. cbn in H1, H2.
    unfold add_route in H. apply bind_ok in H as (ua2 & Hua & H).
    apply bind_ok in H as (sa2 & Hsa & [= <-]). cbn.
    split; [by eapply add_users_step|by eapply add_header_step].
Qed.

(** ** Properties *)

(** The route that governs a path, among those that ask for something: its
    path is a prefix of it and no longer one is. *)
Definition governs {T} (asks : Route -> T -> Prop) (rts : list Route) (path : string)
    (rt : Route) (v : T) : Prop :=
  rt ∈ rts /\ asks rt v /\ is_path_prefix (rt_path rt) path = true /\
  forall rt' v', rt' ∈ rts -> asks rt' v' -> is_path_prefix (rt_path rt') path = true ->
    String.length (rt_path rt') <= String.length (rt_path rt).

Lemma paths_of_longest {T} (asks : Route -> T -> Prop) rts m path v : paths_of asks rts m ->
  (exists k, longest_prefix m path = Some (k, v)) <-> exists rt, governs asks rts path rt v.
Proof.
  intros [Hwf Hm]. setoid_rewrite longest_prefix_some_iff; [|done]. setoid_rewrite Hm. split.
  - intros (k & (rt & Hin & <- & Hask) & Hpre & Hmax). exists rt.
    repeat split; try done. intros rt' v' Hin' Hask' Hpre'. apply (Hmax _ v'); [|done]. eauto.
  - intros (rt & Hin & Hask & Hpre & Hmax). exists (rt_path rt).
    split; [eauto|split; [done|]]. intros k' v' (rt' & Hin' & <- & Hask') Hpre'. eauto.
Qed.

Lemma longest_all {T} (asks : Route -> T -> Prop) rts m path (c : T -> bool) : paths_of asks rts m ->
  match longest_prefix m path with None => true | Some (_, v) => c v end = true <->
  forall rt v, governs asks rts path rt v -> c v = true.
Proof.
  intros Hm. pose proof (fun v => paths_of_longest asks rts m path v Hm) as Hlong.
  destruct (longest_prefix m path) as [[k v]|]; split; intros Hc.
  - intros rt w Hrt. destruct (proj2 (Hlong w)) as [? [= _ <-]]; eauto.
  - destruct (proj1 (Hlong v)) as [rt Hrt]; eauto.
  - intros rt w Hrt. by destruct (proj2 (Hlong w)) as [? [=]]; eauto.
  - done.
Qed.

(** Under the policies read from a file, a user may call an endpoint
    exactly when, for the route with the longest path that covers the endpoint
    among those that restrict users, somebody is logged in and the route's
    regex matches the user's name; with no such route everybody may. *)
Theorem user_is_allowed_spec config ps y username path :
  from_yaml config = Ok ps -> yaml_from_str config = Ok y ->
  user_is_allowed (user_authorization ps) username path = true <->
  forall rt re, governs route_users (yaml_routes y) path rt re ->
    exists name, username = Some name /\ is_match re name = true.
Proof.
  intros (y' & Hy' & Hu & _)%from_yaml_paths Hy. assert (y' = y) as -> by congruence.
  unfold user_is_allowed.
  rewrite (longest_all _ _ _ path (fun u => match username with None => false
    | Some name => is_match u name end) Hu).
  split; intros H rt re Hrt; specialize (H rt re Hrt); destruct username; naive_solver.
Qed.

(** A request may call an endpoint exactly when, for the route with the
    longest path that covers it among those that require a header, the
    requirement does not concern the request's method, or the named secret is a
    string and the request carries exactly that string in the named header: a
    missing secret, one that is not a string, a missing header or an unreadable
    one all refuse. *)
Theorem secret_is_allowed_spec config ps y req secrets path :
  from_yaml config = Ok ps -> yaml_from_str config = Ok y ->
  secret_is_allowed (secret_authorization ps) req secrets path = true <->
  forall rt h, governs route_header (yaml_routes y) path rt h ->
    (exists ms, methods h = Some ms /\ rq_method req ∉ ms) \/
    (exists s, alist_get (secret_name h) secrets = Some (JString s) /\
       rq_header req (header_name h) = Some (Some s)).
Proof.
  intros (y' & Hy' & _ & Hs)%from_yaml_paths Hy. assert (y' = y) as -> by congruence.
  unfold secret_is_allowed. etransitivity; [apply (longest_all _ _ _ path _ Hs)|].
  split; intros H rt h Hrt; specialize (H rt h Hrt); revert H;
    (destruct (methods h) as [ms|]; [case_bool_decide|]); cbn;
    destruct (alist_get (secret_name h) secrets) as [[| | |s| |]|];
    destruct (rq_header req (header_name h)) as [[v|]|];
    try (destruct (String.eqb_spec v s)); naive_solver.
Qed.

(** The field policies of a request are exactly those the type's labels
    bring at the request's path: a field is omitted, or must match the login,
    when one of its labels says so and is not excepted there; a field is
    transformed exactly when some label transforms it, by such a label's
    function; and the current user is recorded. *)
Theorem make_field_policies_spec self user_id current_path ty :
  let fp := make_field_policies self user_id current_path ty in
  let has := labelled self current_path (user_fields ty) in
  fp_current_userid fp = user_id /\
  (forall n, n ∈ fp_omit fp <-> has n Omit) /\
  (forall n, n ∈ fp_match_login fp <-> has n MatchLogin) /\
  (forall n f, fp_transforms fp !! n = Some f -> has n (Transform f)) /\
  (forall n, fp_transforms fp !! n = None <-> forall f, ~ has n (Transform f)).
Proof.
  intros fp has. destruct (make_field_policies_from self current_path user_id ty)
    as [Hu Ho Hl Ht Hnt]. fold fp in Hu, Ho, Hl, Ht, Hnt.
  setoid_rewrite from_labelled in Ho. setoid_rewrite from_labelled in Hl.
  setoid_rewrite from_labelled in Ht. setoid_rewrite from_labelled in Hnt.
  repeat (split; [done|]). intros n. split; [apply Hnt|]. intros Hno.
  destruct (fp_transforms fp !! n) as [f|] eqn:E; [|done]. by destruct (Hno f); apply Ht.
Qed.
End Policies.

(** ** Witnesses *)

(** A regex library whose patterns match themselves, and one policy file. *)
Module Sample.
Definition regexes : RegexLib :=
  {| Regex := string; regex_new s := Ok s; is_match re s := String.eqb re s |}.
Definition http_methods : MethodLib :=
  {| Method := string; method_eq_dec := _; method_from_str s := Some s;
     method_as_str m := m; method_OPTIONS := "OPTIONS" |}.
Definition file : YamlPolicies :=
  {| yp_routes := Some [
       {| rt_path := "/"; rt_users := Some "root"; rt_mandatory_header := None |};
       {| rt_path := "/posts"; rt_users := Some "al";
          rt_mandatory_header := Some {| mh_name := "X-Key"; mh_secret_value_ref := "KEY";
            mh_only_for_methods := Some ["POST"] |} |}];
     yp_endpoints := None;
     yp_labels := Some [{| lb_name := "pii"; lb_transform := Some "anonymize";
       lb_except_uri := None |}] |}.
Definition yaml : YamlLib := {| yaml_from_str _ := Ok file |}.

Definition system : PolicySystem (RL := regexes) (ML := http_methods) :=
  match from_yaml (RL := regexes) (ML := http_methods) (YL := yaml) "" with
  | Ok ps => ps
  | _ => PolicySystem_default (RL := regexes) (ML := http_methods)
  end.

Lemma system_ok : from_yaml (RL := regexes) (ML := http_methods) (YL := yaml) "" = Ok system.
Proof. reflexivity. Qed.

Definition request : Parts (ML := http_methods) :=
  {| rq_method := "POST" : @Method http_methods;
     rq_header h := if String.eqb h "X-Key" then Some (Some "s3cret") else None |}.
End Sample.

Lemma user_is_allowed_spec_witness :
  user_is_allowed (RL := Sample.regexes)
    (user_authorization (ML := Sample.http_methods) Sample.system) (Some "al") "/posts/1" = true.
Proof.
  apply (user_is_allowed_spec (RL := Sample.regexes) (ML := Sample.http_methods)
    (YL := Sample.yaml) "" Sample.system Sample.file); [reflexivity|reflexivity|].
  intros rt re (Hin & (u & Hu & Hre) & Hpre & Hmax).
  exists "al". split; [reflexivity|]. cbn in Hin.
  apply elem_of_cons in Hin as [->|Hin].
  { exfalso. cbn in Hu. injection Hu as <-.
    assert (6 <= 1); [|lia]. apply (Hmax (nth 1 (default [] (yp_routes Sample.file))
      {| rt_path := "/"; rt_users := None; rt_mandatory_header := None |}) "al").
    - vm_compute. apply list_elem_of_further, list_elem_of_here.
    - exists "al". split; reflexivity.
    - reflexivity. }
  apply elem_of_cons in Hin as [->|Hin]; [|by apply not_elem_of_nil in Hin].
  cbn in Hu. injection Hu as <-. cbn in Hre. injection Hre as <-. reflexivity.
Defined.

Lemma secret_is_allowed_spec_witness :
  secret_is_allowed (ML := Sample.http_methods)
    (secret_authorization (RL := Sample.regexes) Sample.system) Sample.request
    [("KEY", JString "s3cret")] "/posts/1" = true.
Proof.
  apply (secret_is_allowed_spec (RL := Sample.regexes) (ML := Sample.http_methods)
    (YL := Sample.yaml) "" Sample.system Sample.file); [reflexivity|reflexivity|].
  intros rt h (Hin & (mh & Hmh & Hname & Hsecret & Hmeth) & _). cbn in Hin.
  apply elem_of_cons in Hin as [->|Hin]; [discriminate Hmh|].
  apply elem_of_cons in Hin as [->|Hin]; [|by apply not_elem_of_nil in Hin].
  injection Hmh as <-. right. exists "s3cret". rewrite Hname, Hsecret. split; reflexivity.
Defined.
