(* ===== verification/Auth.v ===== *)
(** * Authentication and authorization
    ([server/src/error.rs], [authentication.rs], [authorization.rs])

    Who makes a request, read from its headers, and whether the policies of
    the version let that user and those headers through.  The JWT library and
    the one SQL query of the module are parameters. *)

From S2P Require Import Prelude Json Ident Types Builtin TypeSystem Policies.

(** ** Errors with the response they call for *)

Inductive ErrorKind := Forbbiden | BadRequest | Internal.

Record Error := { inner : anyhow; err_kind : ErrorKind }.

Definition error_internal (e : anyhow) : Error := {| inner := e; err_kind := Internal |}.
Definition error_forbidden (e : anyhow) : Error := {| inner := e; err_kind := Forbbiden |}.
Definition error_bad_request (e : anyhow) : Error := {| inner := e; err_kind := BadRequest |}.

Definition err_internal {A} (r : result A) : outcome Error A := map_err error_internal r.
Definition err_forbidden {A} (r : result A) : outcome Error A := map_err error_forbidden r.
Definition err_bad_request {A} (r : result A) : outcome Error A := map_err error_bad_request r.

(** The macros [internal!], [forbidden!] and [bad_request!]. *)
Definition internal {A} (msg : string) : outcome Error A := Err (error_internal (AMsg msg)).
Definition forbidden {A} (msg : string) : outcome Error A := Err (error_forbidden (AMsg msg)).
Definition bad_request {A} (msg : string) : outcome Error A := Err (error_bad_request (AMsg msg)).

(** ** Authentication *)

Inductive Authentication :=
  | Jwt (claims : json)
  | UserId (uid : string)
  | AuthNone.

Definition user_id (a : Authentication) : option string :=
  match a with UserId uid => Some uid | _ => None end.

Class JwtLib := {
  DecodingKey : Type;
  from_rsa_pem : string -> result DecodingKey;
  jwt_decode_rs256 : string -> DecodingKey -> result json;
}.

(** [[u8]::chunks] *)
Fixpoint chunks_fuel (fuel n : nat) (s : string) : list string :=
  match fuel, s with
  | O, _ | _, EmptyString => []
  | S fuel, _ => str_take n s :: chunks_fuel fuel n (str_drop n s)
  end.
Definition chunks (n : nat) (s : string) : list string := chunks_fuel (String.length s) n s.

(** [str::from_utf8]: the well-formed byte sequences of the Unicode standard. *)
Fixpoint valid_utf8 (l : list nat) : bool :=
  let cont c := (128 <=? c) && (c <=? 191) in
  match l with
  | [] => true
  | a :: l1 =>
      if a <=? 127 then valid_utf8 l1
      else match l1 with
      | [] => false
      | b :: l2 =>
          if (194 <=? a) && (a <=? 223) then cont b && valid_utf8 l2
          else match l2 with
          | [] => false
          | c :: l3 =>
              if (224 <=? a) && (a <=? 239) then
                (if a =? 224 then (160 <=? b) && (b <=? 191)
                 else if a =? 237 then (128 <=? b) && (b <=? 159) else cont b)
                && cont c && valid_utf8 l3
              else match l3 with
              | [] => false
              | d :: l4 =>
                  if (240 <=? a) && (a <=? 244) then
                    (if a =? 240 then (144 <=? b) && (b <=? 191)
                     else if a =? 244 then (128 <=? b) && (b <=? 143) else cont b)
                    && cont c && cont d && valid_utf8 l4
                  else false
              end
          end
      end
  end.

Definition from_utf8 (s : string) : result string :=
  if valid_utf8 (nat_of_ascii <$> String.list_ascii_of_string s) then Ok s
  else bail "invalid utf-8 sequence".

(** [str::split_whitespace], on the visible ASCII, blanks and tabs a header
    value's [to_str] yields. *)
Definition is_ws (c : ascii) : bool :=
  let n := nat_of_ascii c in (n =? 32) || ((9 <=? n) && (n <=? 13)).

Fixpoint split_ws (s : string) : list string * string :=
  match s with
  | EmptyString => ([], "")
  | String c s' =>
      let '(words, cur) := split_ws s' in
      if is_ws c then (if str_is_empty cur then words else cur :: words, "")
      else (words, String c cur)
  end.
Definition split_whitespace (s : string) : list string :=
  let '(words, cur) := split_ws s in if str_is_empty cur then words else cur :: words.

Section Auth.
Context {RL : RegexLib} {ML : MethodLib} {JL : JwtLib}.

Definition decoding_key_from_pem (key : string) : outcome Error DecodingKey :=
  let header := "-----BEGIN PUBLIC KEY-----" +:+ newline in
  key ← foldM (fun buf s =>
      line ← err_internal (with_context (from_utf8 s) "JWT signing key is not valid UTF-8");
      Ok (buf +:+ line +:+ newline)) header (chunks 64 key);
  let key := key +:+ "-----END PUBLIC KEY-----" in
  err_internal (from_rsa_pem key).

Definition validate_token (token : string) (key : DecodingKey) : outcome Error json :=
  err_forbidden (jwt_decode_rs256 token key).

Definition authenticate_jwt (secrets : json_object) (token : string)
    : outcome Error Authentication :=
  match alist_get "CHISEL_JWT_VALIDATION_KEY" secrets with
  | None =>
      internal "Missing jwt validation key: please set `CHISEL_JWT_VALIDATION_KEY` in your secrets"
  | Some dkey_json =>
      match as_str dkey_json with
      | Some pem_str =>
          dkey ← decoding_key_from_pem pem_str;
          json ← validate_token token dkey;
          Ok (Jwt json)
      | None => internal "CHISEL_JWT_VALIDATION_KEY should be a valid UTF-8 string."
      end
  end.

Definition authenticate_from_auth_header (secrets : json_object) (header_value : string)
    : outcome Error Authentication :=
  match split_whitespace header_value with
  | scheme :: rest =>
      if String.eqb scheme "Bearer" then
        match rest with
        | token :: _ => authenticate_jwt secrets token
        | [] => bad_request "missing token after Bearer"
        end
      else
        bad_request "Could not recognize authentication token type: expected `Bearer` token."
  | [] => bad_request "Could not recognize authentication token type: expected `Bearer` token."
  end.

(** [req_parts.headers.get(name).and_then(|h| h.to_str().ok())] *)
Definition readable_header (req_parts : Parts) (name : string) : option string :=
  mjoin (rq_header req_parts name).

Definition authenticate (req_parts : Parts) (secrets : json_object)
    : outcome Error Authentication :=
  match readable_header req_parts "Authorization" with
  | Some auth_header => authenticate_from_auth_header secrets auth_header
  | None =>
      Ok (match readable_header req_parts "ChiselUID" with
          | Some uid => UserId uid
          | None => AuthNone
          end)
  end.

(** ** Authorization *)

Record Version := {
  version_id : string;
  type_system : TypeSystem;
  policy_system : PolicySystem;
}.

(** [QueryEngine::fetch_one] of a statement with text arguments, and the
    ["email"] column of the row. *)
Class EmailQuery := { fetch_one_email : string -> list string -> result (option string) }.
Context {EQ : EmailQuery}.

Definition get_auth_user_type (version : Version) : outcome Error Entity :=
  match lookup_builtin_type (type_system version) AUTH_USER_NAME with
  | Ok (TEntity t) => Ok t
  | Panic w => Panic w
  | _ => internal "type AuthUser not found"
  end.

Definition get_username_from_id (version : Version) (user_id : option string)
    : outcome Error (option string) :=
  match user_id, get_auth_user_type version with
  | _, Panic w => Panic w
  | None, _ => Ok None
  | Some _, Err _ => Ok None
  | Some id, Ok user_type =>
      match fetch_one_email
        ("SELECT email FROM " +:+ quoted (obj_backing_table (object_type user_type)) +:+
         " WHERE id=$1") [id] with
      | Err _ => Ok None
      | Panic w => Panic w
      | Ok row => Ok row
      end
  end.

Definition authorize_user_id (version : Version) (authentication : Authentication)
    (routing_path : string) : outcome Error unit :=
  let user_id := user_id authentication in
  username ← get_username_from_id version user_id;
  if negb (user_is_allowed (user_authorization (policy_system version)) username routing_path)
  then forbidden "Unauthorized user"
  else Ok ().

Definition authorize (secrets : json_object) (version : Version) (authentication : Authentication)
    (routing_path : string) (req_parts : Parts) : outcome Error unit :=
  _ ← authorize_user_id version authentication routing_path;
  if negb (secret_is_allowed (secret_authorization (policy_system version)) req_parts secrets
      routing_path)
  then forbidden "Invalid header authentication"
  else Ok ().

(** ** Lemmas *)

Lemma authorize_ok secrets version a path req : authorize secrets version a path req = Ok () <->
  (exists username, get_username_from_id version (user_id a) = Ok username /\
     user_is_allowed (user_authorization (policy_system version)) username path = true) /\
  secret_is_allowed (secret_authorization (policy_system version)) req secrets path = true.
Proof.
  unfold authorize, authorize_user_id. rewrite bind_unit_ok, bind_ok.
  destruct (secret_is_allowed _ _ _ _); cbn; [|split; [by intros [_ ?]|by intros [_ ?]]].
  split.
  - intros [(u & Hu & Hok) _]. split; [|done]. exists u. split; [done|].
    by destruct (user_is_allowed _ _ _).
  - intros [(u & Hu & Hok) _]. split; [|done]. exists u. split; [done|]. by rewrite Hok.
Qed.

Lemma authenticate_user_id req secrets a : authenticate req secrets = Ok a ->
  user_id a = match readable_header req "Authorization" with
              | Some _ => None
              | None => readable_header req "ChiselUID"
              end.
Proof.
  unfold authenticate. destruct (readable_header req "Authorization") as [h|] eqn:Hh.
  - unfold authenticate_from_auth_header, authenticate_jwt. intros H.
    destruct (split_whitespace h) as [|scheme [|token rest]]; cbn in H; [done| |];
      (destruct (String.eqb scheme "Bearer"); [|done]); [done|].
    destruct (alist_get _ _) as [dkey|]; [|done]. destruct (as_str dkey); [|done].
    inv_ok. done.
  - intros [= <-]. by destruct (readable_header req "ChiselUID").
Qed.

(** The token of a header that names the [Bearer] scheme. *)
Definition bearer_token (header_value : string) : option string :=
  match split_whitespace header_value with
  | scheme :: token :: _ => if String.eqb scheme "Bearer" then Some token else None
  | _ => None
  end.

Lemma authenticate_from_auth_header_bearer secrets h :
  match bearer_token h with
  | Some token => authenticate_from_auth_header secrets h = authenticate_jwt secrets token
  | None => exists msg, authenticate_from_auth_header secrets h = bad_request msg
  end.
Proof.
  unfold bearer_token, authenticate_from_auth_header.
  destruct (split_whitespace h) as [|scheme [|token rest]]; [by eexists| |];
    destruct (String.eqb scheme "Bearer"); eauto.
Qed.

Lemma decoding_key_errors key e : decoding_key_from_pem key = Err e -> err_kind e = Internal.
Proof.
  unfold decoding_key_from_pem. intros H.
  assert (forall l (k : string), match foldM (E := Error) (fun buf s =>
      line ← err_internal (with_context (from_utf8 s) "JWT signing key is not valid UTF-8");
      Ok (buf +:+ line +:+ newline)) k l with
    | Err e => err_kind e = Internal | _ => True end) as Hloop.
  { intros l. induction l as [|s l IH]; intros k; cbn; [done|].
    unfold from_utf8. destruct (valid_utf8 _); cbn; [apply IH|done]. }
  specialize (Hloop (chunks 64 key) ("-----BEGIN PUBLIC KEY-----" +:+ newline)).
  destruct (foldM _ _ _) as [k|e'|]; cbn in *; [|by injection H as <-|done].
  destruct (from_rsa_pem _); cbn in H; try done. by injection H as <-.
Qed.

(** ** Properties *)

(** What a request is authenticated as.  With a readable [Authorization]
    header the outcome depends on that header alone and can only be JWT claims
    that the key in the secrets validates; only without one does the user come
    from [ChiselUID].  A token that does not validate is forbidden, a missing
    or bad key is an internal error, anything but a bearer token a bad request. *)
Theorem authenticate_spec req secrets :
  match readable_header req "Authorization" with
  | None =>
      authenticate req secrets =
        Ok (match readable_header req "ChiselUID" with Some uid => UserId uid | None => AuthNone end)
  | Some h =>
      match bearer_token h, alist_get "CHISEL_JWT_VALIDATION_KEY" secrets with
      | None, _ => exists e, authenticate req secrets = Err e /\ err_kind e = BadRequest
      | Some token, Some (JString pem) =>
          match decoding_key_from_pem pem with
          | Ok key =>
              authenticate req secrets =
                match jwt_decode_rs256 token key with
                | Ok claims => Ok (Jwt claims)
                | Err e => Err (error_forbidden e)
                | Panic w => Panic w
                end
          | Err e => authenticate req secrets = Err e /\ err_kind e = Internal
          | Panic w => authenticate req secrets = Panic w
          end
      | Some _, _ => exists e, authenticate req secrets = Err e /\ err_kind e = Internal
      end
  end.
Proof.
  unfold authenticate. destruct (readable_header req "Authorization") as [h|]; [|done].
  pose proof (authenticate_from_auth_header_bearer secrets h) as Hb.
  destruct (bearer_token h) as [token|]; [|by destruct Hb as [msg ->]; eexists].
  rewrite Hb. unfold authenticate_jwt.
  destruct (alist_get _ secrets) as [[| | |pem| |]|]; cbn; try (by eexists).
  destruct (decoding_key_from_pem pem) as [key|e|] eqn:Hkey; cbn; [|split; [done|]|done].
  - unfold validate_token. by destruct (jwt_decode_rs256 token key).
  - by eapply decoding_key_errors.
Qed.
End Auth.
