(* ===== verification/Http.v ===== *)
(** * HTTP requests ([server/src/http.rs])

    From a request to a response: path normalization, the choice of a version,
    authentication and authorization, the job handed to a JavaScript worker and
    the response made of the worker's.  The workers, and what the HTTP library
    accepts as a header, are parameters; the jobs sent are recorded. *)

From S2P Require Import Prelude Json Ident Types TypeSystem Policies Auth.

(** ** Paths *)

(** [path.split('/').filter(|segment| !segment.is_empty())] *)
Definition segments (path : string) : list string :=
  List.filter (fun segment => negb (str_is_empty segment)) (split_on "/" path).

Definition normalize_path (path : string) : string :=
  (foldl (fun '(i, normalized) segment =>
     let normalized := if negb (i =? 0) then normalized +:+ "/" else normalized in
     (S i, normalized +:+ segment)) (0, "/") (segments path)).2.

(** The pattern of [get_version_path]: a slash, the version up to the next
    slash, and either nothing or a slash and any characters but line feeds. *)
Fixpoint has_newline (s : string) : bool :=
  match s with
  | EmptyString => false
  | String c s' => (nat_of_ascii c =? 10) || has_newline s'
  end.

Fixpoint until_slash (s : string) : string * string :=
  match s with
  | EmptyString => ("", "")
  | String c s' =>
      if Ascii.eqb c "/" then ("", s)
      else let '(a, b) := until_slash s' in (String c a, b)
  end.

Definition get_version_path (path : string) : option (string * string) :=
  match strip_prefix "/" path with
  | Some rest =>
      let '(version_id, routing_path) := until_slash rest in
      if has_newline routing_path then None else Some (version_id, routing_path)
  | None => None
  end.

(** ** Requests and responses *)

Record Uri := { uri_origin : string; uri_path : string; uri_query : option string }.

Definition uri_to_string (u : Uri) : string :=
  uri_origin u +:+ uri_path u +:+
    match uri_query u with Some q => "?" +:+ q | None => "" end.

Record HttpRequest := {
  hr_method : string;
  hr_uri : string;
  hr_headers : list (string * string);
  hr_body : string;
  hr_routing_path : string;
  hr_user_id : option string;
}.

Record HttpResponse := {
  hs_status : Z;
  hs_headers : list (string * string);
  hs_body : string;
}.

(** A response of the HTTP library: headers under their canonical names. *)
Record Response := {
  rs_status : Z;
  rs_headers : list (string * string);
  rs_body : string;
}.

Class HttpLib := {
  header_name_from_bytes : string -> option string;
  header_value_from_str : string -> option string;
}.

Section Http.
Context {RL : RegexLib} {ML : MethodLib} {JL : JwtLib} {EQ : EmailQuery} {HL : HttpLib}.

Record Request := {
  req_parts : Parts;
  req_uri : Uri;
  req_headers : list (string * option string);
  req_body : string;
}.

(** The job sent to a version's workers. *)
Record HttpRequestResponse := {
  job_version : string;
  job_request : HttpRequest;
  job_authentication : Authentication;
}.

Record Server := {
  secrets : json_object;
  trunk : gmap string Version;
  index_body : string;
  (** what the workers answer; [None]: the job was dropped *)
  worker : HttpRequestResponse -> option HttpResponse;
}.

Definition builder (status : Z) (headers : list (string * string)) (body : string) : Response :=
  {| rs_status := status; rs_headers := headers; rs_body := body |}.

Definition handle_index (server : Server) : Response :=
  builder 200 [("content-type", "application/json")] (index_body server).
Definition handle_options : Response := builder 200 [] "ok".
Definition handle_not_found (msg : string) : Response := builder 404 [] msg.
Definition handle_forbidden (msg : string) : Response := builder 403 [] msg.
Definition handle_bad_request (msg : string) : Response := builder 400 [] msg.
Definition handle_error (err : anyhow) : Response := builder 500 [] "".

Definition redirect_to_path (uri : Uri) (path : string) : Response :=
  let redirect_uri :=
    {| uri_origin := uri_origin uri; uri_path := path; uri_query := uri_query uri |} in
  builder 308 [("location", uri_to_string redirect_uri)]
    ("Redirected to " +:+ uri_to_string redirect_uri).

Fixpoint anyhow_to_string (e : anyhow) : string :=
  match e with
  | AMsg msg | APolicyError msg => msg
  | AContext ctx _ => ctx
  end.

Definition handle_chisel_error (error : Error) : result Response :=
  match err_kind error with
  | Forbbiden => Ok (handle_forbidden (anyhow_to_string (inner error)))
  | BadRequest => Ok (handle_bad_request (anyhow_to_string (inner error)))
  | Internal => Err (inner error)
  end.

(** [StatusCode::from_u16] *)
Definition status_from_u16 (n : Z) : option Z :=
  if (100 <=? n)%Z && (n <? 1000)%Z then Some n else None.

Definition build_response (http_response : HttpResponse) : result Response :=
  status ← option_context (status_from_u16 (hs_status http_response))
             "Response specified an invalid status code";
  headers ← foldM (fun headers '(name, value) =>
      name ← option_context (header_name_from_bytes name)
               "Response header is not a valid header name";
      value ← option_context (header_value_from_str value) "Response header has invalid value";
      Ok (headers ++ [(name, value)])) [] (hs_headers http_response);
  Ok {| rs_status := status; rs_headers := headers; rs_body := hs_body http_response |}.

(** The jobs sent, and the result. *)
Definition handle_version_request (server : Server) (version : Version) (request : Request)
    (routing_path : string) : list HttpRequestResponse * result Response :=
  match authenticate (req_parts request) (secrets server) with
  | Err e => ([], handle_chisel_error e)
  | Panic w => ([], Panic w)
  | Ok authentication =>
      match authorize (secrets server) version authentication routing_path (req_parts request) with
      | Err e => ([], handle_chisel_error e)
      | Panic w => ([], Panic w)
      | Ok _ =>
          let http_request :=
            {| hr_method := method_as_str (rq_method (req_parts request));
               hr_uri := uri_to_string (req_uri request);
               hr_headers := (fun '(name, value) => (name, default "" value)) <$> req_headers request;
               hr_body := req_body request;
               hr_routing_path := routing_path;
               hr_user_id := user_id authentication |} in
          let job := {| job_version := version_id version; job_request := http_request;
                        job_authentication := authentication |} in
          ([job],
           http_response ← option_context (worker server job) "Request was aborted";
           build_response http_response)
      end
  end.

Definition try_handle_request (server : Server) (request : Request)
    : list HttpRequestResponse * result Response :=
  let path := uri_path (req_uri request) in
  let normalized_path := normalize_path path in
  if negb (String.eqb normalized_path path) then
    ([], Ok (redirect_to_path (req_uri request) normalized_path))
  else if String.eqb path "/" then ([], Ok (handle_index server))
  else if bool_decide (rq_method (req_parts request) = method_OPTIONS) then ([], Ok handle_options)
  else
    match get_version_path path with
    | Some (version_id, routing_path) =>
        match trunk server !! version_id with
        | Some version => handle_version_request server version request routing_path
        | None => ([], Ok (handle_not_found ("Unknown version " +:+ version_id)))
        end
    | None => ([], Ok (handle_not_found "Invalid URL path"))
    end.

Definition default_headers : list (string * string) :=
  [("access-control-allow-origin", "*");
   ("access-control-allow-methods", "POST, PUT, GET, OPTIONS, DELETE, PATCH");
   ("access-control-allow-headers", "Content-Type,ChiselUID")].

Definition add_default_headers (response : Response) : Response :=
  {| rs_status := rs_status response;
     rs_headers := foldl (fun headers '(name, value) =>
       match alist_get name headers with
       | Some _ => headers
       | None => headers ++ [(name, value)]
       end) (rs_headers response) default_headers;
     rs_body := rs_body response |}.

Definition handle_request (server : Server) (request : Request)
    : list HttpRequestResponse * outcome Empty_set Response :=
  let '(jobs, res) := try_handle_request server request in
  (jobs,
   match res with
   | Ok response => Ok (add_default_headers response)
   | Err err => Ok (add_default_headers (handle_error err))
   | Panic w => Panic w
   end).

(** ** Lemmas *)

Lemma normalize_path_join path : normalize_path path = "/" +:+ str_join "/" (segments path).
Proof.
  unfold normalize_path. generalize (segments path). intros l.
  assert (forall l i acc, 0 < i -> (foldl (fun '(i, normalized) segment =>
      (S i, (if negb (i =? 0) then normalized +:+ "/" else normalized) +:+ segment)) (i, acc) l).2
    = acc +:+ foldr (fun s r => "/" +:+ s +:+ r) "" l) as Hgen.
  { clear l. induction l as [|x l IH]; intros i acc Hi; cbn; [by rewrite str_app_nil_r|].
    destruct i; [lia|]. cbn. rewrite IH by lia. by rewrite !str_app_assoc. }
  destruct l as [|x l]; [done|]. cbn [foldl Nat.eqb negb]. rewrite Hgen by lia.
  rewrite !str_app_assoc. f_equal. clear Hgen. revert x.
  induction l as [|y l IH]; intros x; cbn; [by rewrite str_app_nil_r|].
  f_equal. f_equal. exact (IH y).
Qed.

Lemma segments_normalize path : segments (normalize_path path) = segments path.
Proof.
  rewrite normalize_path_join. unfold segments at 1. cbn [String.append split_on].
  rewrite Ascii.eqb_refl. cbn [List.filter str_is_empty negb].
  assert (Forall (fun x => negb (str_is_empty x) = true /\
    ~ In "/"%char (String.list_ascii_of_string x)) (segments path)) as Hseg.
  { apply Forall_forall. intros x [Hin Hne]%elem_of_List_filter.
    split; [done|]. by eapply split_on_no_sep_in. }
  destruct (segments path) as [|x l] eqn:E; [done|].
  rewrite split_on_joined; [|eapply Forall_impl; [exact Hseg|by intros y [_ Hy]]|done].
  clear E. induction Hseg as [|y l' [Hy _] _ IH]; [done|]. cbn. by rewrite Hy, IH.
Qed.

Lemma normalize_path_start path : exists rest, normalize_path path = String "/" rest.
Proof. rewrite normalize_path_join. by eexists. Qed.

Lemma until_slash_app s : let '(a, b) := until_slash s in
  s = a +:+ b /\ ~ In "/"%char (String.list_ascii_of_string a) /\
  (b = "" \/ exists r, b = String "/" r).
Proof.
  induction s as [|c s IH]; cbn; [auto|].
  destruct (Ascii.eqb_spec c "/") as [->|Hne]; cbn.
  { split; [done|split; [tauto|eauto]]. }
  destruct (until_slash s) as [a b]; cbn. destruct IH as (-> & Ha & Hb).
  split; [done|split; [|done]]. by intros [|].
Qed.

Lemma get_version_path_some path v r : get_version_path path = Some (v, r) ->
  path = "/" +:+ v +:+ r /\ ~ In "/"%char (String.list_ascii_of_string v) /\
  (r = "" \/ exists r', r = String "/" r').
Proof.
  unfold get_version_path. destruct (strip_prefix "/" path) as [rest|] eqn:E; [|done].
  apply strip_prefix_some in E as ->. pose proof (until_slash_app rest) as H.
  destruct (until_slash rest) as [a b]. destruct H as (-> & Ha & Hb).
  destruct (has_newline b); [done|]. by intros [= <- <-].
Qed.

Lemma default_headers_fold (l headers : list (string * string)) name :
  alist_get name (foldl (fun headers '(name, value) =>
    match alist_get name headers with
    | Some _ => headers | None => headers ++ [(name, value)] end) headers l) =
  match alist_get name headers with Some v => Some v | None => alist_get name l end.
Proof.
  assert (forall (h : list (string * string)) n v, alist_get name (h ++ [(n, v)]) =
    match alist_get name h with Some v => Some v
    | None => if String.eqb name n then Some v else None end) as Happ.
  { intros h n v. induction h as [|[n' v'] h IH]; cbn; [done|]. by destruct (String.eqb name n'). }
  revert headers. induction l as [|[n v] l IH]; intros headers; cbn.
  { by destruct (alist_get name headers). }
  rewrite IH. destruct (alist_get n headers) eqn:Hn.
  - destruct (String.eqb_spec name n) as [->|]; [by rewrite Hn|done].
  - rewrite Happ. destruct (alist_get name headers); [done|]. by destruct (String.eqb name n).
Qed.

(** ** Properties *)

(** Normalizing a path keeps its non-empty segments and nothing else, so
    it is idempotent, and a path is served as it is exactly when it is a slash
    followed by non-empty segments separated by single slashes. *)
Theorem normalize_path_spec path :
  normalize_path path = "/" +:+ str_join "/" (segments path) /\
  segments (normalize_path path) = segments path /\
  normalize_path (normalize_path path) = normalize_path path.
Proof.
  split; [apply normalize_path_join|]. split; [apply segments_normalize|].
  by rewrite (normalize_path_join (normalize_path path)), segments_normalize, normalize_path_join.
Qed.

(** C38: a job reaches a version's workers only for a normalized path
    [/version/...] of a deployed version, at most one per request, only after
    the request was authenticated and both the user and the headers were
    authorized for the very routing path the job carries, and the job names the
    user that was authorized. *)
Theorem handle_request_authorized server request job :
  job ∈ (handle_request server request).1 ->
  (handle_request server request).1 = [job] /\
  exists version authentication routing_path,
    let path := uri_path (req_uri request) in
    normalize_path path = path /\
    (exists vid, path = "/" +:+ vid +:+ routing_path /\ trunk server !! vid = Some version) /\
    job_version job = version_id version /\
    hr_routing_path (job_request job) = routing_path /\
    authenticate (req_parts request) (secrets server) = Ok authentication /\
    job_authentication job = authentication /\
    hr_user_id (job_request job) = user_id authentication /\
    (exists username, get_username_from_id version (user_id authentication) = Ok username /\
       user_is_allowed (user_authorization (policy_system version)) username routing_path = true) /\
    secret_is_allowed (secret_authorization (policy_system version)) (req_parts request)
      (secrets server) routing_path = true.
Proof.
  unfold handle_request, try_handle_request. intros Hjob.
  destruct (String.eqb_spec (normalize_path (uri_path (req_uri request)))
    (uri_path (req_uri request))) as [Hnorm|]; [|by apply not_elem_of_nil in Hjob]. cbn [negb] in *.
  destruct (String.eqb _ "/"); [by apply not_elem_of_nil in Hjob|].
  destruct (bool_decide _); [by apply not_elem_of_nil in Hjob|].
  destruct (get_version_path _) as [[vid routing_path]|] eqn:Hpath; [|by apply not_elem_of_nil in Hjob].
  destruct (trunk server !! vid) as [version|] eqn:Hv; [|by apply not_elem_of_nil in Hjob].
  unfold handle_version_request in *.
  destruct (authenticate _ _) as [a|e|w] eqn:Ha; [|by apply not_elem_of_nil in Hjob..].
  destruct (authorize _ _ _ _ _) as [[]|e|w] eqn:Hz; [|by apply not_elem_of_nil in Hjob..].
  cbn in Hjob. apply list_elem_of_singleton in Hjob as ->. split; [done|].
  exists version, a, routing_path. apply get_version_path_some in Hpath as (Hpath & _).
  apply authorize_ok in Hz as [Huser Hsecret]. repeat split; eauto.
Qed.

(** How a request that is not let through is answered.  A refusal of the
    policies or of a token is a 403, a malformed authorization header a 400, any
    internal error a bare 500 that reveals nothing, all without a job; and every
    response carries the default headers, the worker's own taking precedence. *)
Theorem handle_request_refused server request e version routing_path :
  let path := uri_path (req_uri request) in
  normalize_path path = path -> path <> "/" ->
  rq_method (req_parts request) <> method_OPTIONS ->
  (exists vid, get_version_path path = Some (vid, routing_path) /\
     trunk server !! vid = Some version) ->
  (a ← authenticate (req_parts request) (secrets server);
   authorize (secrets server) version a routing_path (req_parts request)) = Err e ->
  exists response,
    handle_request server request = ([], Ok response) /\
    rs_status response =
      match err_kind e with Forbbiden => 403 | BadRequest => 400 | Internal => 500 end%Z /\
    (err_kind e = Internal -> rs_body response = "") /\
    forall name value, (name, value) ∈ default_headers ->
      alist_get name (rs_headers response) = Some value.
Proof.
  intros path Hnorm Hroot Hopt (vid & Hpath & Hv) Herr. unfold handle_request, try_handle_request.
  fold path. rewrite Hnorm, String.eqb_refl. cbn [negb].
  destruct (String.eqb_spec path "/") as [|_]; [done|].
  rewrite bool_decide_eq_false_2 by done. rewrite Hpath, Hv. unfold handle_version_request.
  assert (match authenticate (req_parts request) (secrets server) with
    | Err e0 => e0 = e
    | Ok a => authorize (secrets server) version a routing_path (req_parts request) = Err e
    | Panic _ => False end) as Hcase by (by destruct (authenticate _ _); cbn in Herr; simplify_eq).
  set (answer := match err_kind e with
    | Forbbiden => handle_forbidden (anyhow_to_string (inner e))
    | BadRequest => handle_bad_request (anyhow_to_string (inner e))
    | Internal => handle_error (inner e) end).
  exists (add_default_headers answer). split.
  - destruct (authenticate _ _) as [a|e0|]; [rewrite Hcase|subst e0|done]; cbn;
      unfold handle_chisel_error, answer; by destruct (err_kind e).
  - split; [by unfold answer; destruct (err_kind e)|].
    split; [by unfold answer; destruct (err_kind e)|].
    intros name value Hin. cbn [rs_headers add_default_headers]. rewrite default_headers_fold.
    assert (alist_get name (rs_headers answer) = None) as -> by (by unfold answer; destruct (err_kind e)).
    apply alist_get_in; [|done]. apply (bool_decide_unpack _). vm_compute. exact I.
Qed.
End Http.

(** ** Witnesses *)

Module Sample.
Definition libs : HttpLib :=
  {| header_name_from_bytes n := Some n; header_value_from_str v := Some v |}.
Definition jwt : JwtLib :=
  {| DecodingKey := unit; from_rsa_pem _ := Ok (); jwt_decode_rs256 _ _ := bail "expired" |}.
Definition email : EmailQuery := {| fetch_one_email _ _ := Ok (Some "al") |}.

Definition dev : Version (RL := Policies.Sample.regexes) (ML := Policies.Sample.http_methods) :=
  {| version_id := "dev"; type_system := dev_types; policy_system := Policies.Sample.system |}.

Definition server : Server (RL := Policies.Sample.regexes) (ML := Policies.Sample.http_methods) :=
  {| secrets := [("KEY", JString "s3cret")]; trunk := {["dev" := dev]}; index_body := "";
     worker _ := Some {| hs_status := 200; hs_headers := []; hs_body := "hi" |} |}.

Definition get_posts (user : option string) : Request (ML := Policies.Sample.http_methods) :=
  {| req_parts := {| rq_method := "GET" : @Method Policies.Sample.http_methods;
                     rq_header h := if String.eqb h "ChiselUID" then Some user else None |};
     req_uri := {| uri_origin := ""; uri_path := "/dev/posts/1"; uri_query := None |};
     req_headers := []; req_body := "" |}.

Definition job : HttpRequestResponse :=
  {| job_version := "dev";
     job_request := {| hr_method := "GET"; hr_uri := "/dev/posts/1"; hr_headers := []; hr_body := "";
                       hr_routing_path := "/posts/1"; hr_user_id := Some "u1" |};
     job_authentication := UserId "u1" |}.
End Sample.

Lemma handle_request_authorized_witness :
  (handle_request (RL := Policies.Sample.regexes) (ML := Policies.Sample.http_methods)
    (JL := Sample.jwt) (EQ := Sample.email) (HL := Sample.libs)
    Sample.server (Sample.get_posts (Some "u1"))).1 = [Sample.job].
Proof.
  apply (handle_request_authorized (RL := Policies.Sample.regexes)
    (ML := Policies.Sample.http_methods) (JL := Sample.jwt) (EQ := Sample.email)
    (HL := Sample.libs) Sample.server (Sample.get_posts (Some "u1")) Sample.job).
  vm_compute. apply list_elem_of_here.
Defined.

Lemma handle_request_refused_witness :
  exists response,
    handle_request (RL := Policies.Sample.regexes) (ML := Policies.Sample.http_methods)
      (JL := Sample.jwt) (EQ := Sample.email) (HL := Sample.libs)
      Sample.server (Sample.get_posts None) = ([], Ok response) /\ rs_status response = 403%Z.
Proof.
  destruct (handle_request_refused (RL := Policies.Sample.regexes)
    (ML := Policies.Sample.http_methods) (JL := Sample.jwt) (EQ := Sample.email)
    (HL := Sample.libs) Sample.server (Sample.get_posts None)
    (error_forbidden (AMsg "Unauthorized user")) Sample.dev "/posts/1") as (r & H & Hs & _).
  - reflexivity.
  - discriminate.
  - discriminate.
  - exists "dev". split; reflexivity.
  - vm_compute. reflexivity.
  - exists r. split; [exact H|exact Hs].
Defined.
