(* ===== verification/Query.v ===== *)
(** * Query plans and SQL ([server/src/datastore/query.rs])

    A query plan is built from an entity type (its columns, and a join for
    every nested entity) and a list of operators; [build_query] prints it as
    SQL text together with the fields that say which column of a row feeds which
    property of the result. *)

From S2P Require Import Prelude Json Expr Filter Ident EntityValue Types Builtin TypeSystem Policies.


(** The quoting of SQL text of the [format_sql_query] library. *)
Class QuotedData := { quoted_data : string -> string }.

(** ** Data *)

Inductive SqlValue :=
  | SqlBool (b : bool)
  | SqlF64 (f : f64)
  | SqlI64 (n : Z)
  | SqlString (s : string)
  | SqlBytes (b : list Z)
  | SqlJson (j : json).

Inductive KeepOrOmitField := Keep | OmitField.

Inductive QueryField :=
  | QfScalar (name : string) (type_id : TypeId) (is_optional : bool) (column_idx : nat)
      (transform : option (EntityValue -> EntityValue)) (keep_or_omit : KeepOrOmitField)
  | QfEntity (name : string) (is_optional : bool)
      (transform : option (EntityValue -> EntityValue)) (keep_or_omit : KeepOrOmitField)
      (fields : list QueryField).

Record Query := {
  raw_sql : string;
  q_fields : list QueryField;
  q_allowed_fields : option (gset string);
}.

(** The joins of an entity: a [HashMap] from the field to the [Join], in its
    own (arbitrary) iteration order. *)
Inductive QueriedEntity :=
  | MkEntity (fields : list QueryField) (ty : Entity) (table_alias : string)
      (joins : list (string * Join))
with Join :=
  | MkJoin (entity : QueriedEntity) (lkey rkey : string).

Definition qe_fields (e : QueriedEntity) := let '(MkEntity fields _ _ _) := e in fields.
Definition qe_ty (e : QueriedEntity) := let '(MkEntity _ ty _ _) := e in ty.
Definition qe_table_alias (e : QueriedEntity) := let '(MkEntity _ _ table_alias _) := e in table_alias.
Definition qe_joins (e : QueriedEntity) := let '(MkEntity _ _ _ joins) := e in joins.
Definition j_entity (j : Join) := let '(MkJoin entity _ _) := j in entity.

Definition qe_has_field (e : QueriedEntity) (field_name : string) : bool :=
  existsb (fun field => String.eqb (fld_name field) field_name) (all_fields (object_type (qe_ty e))).

Record SortKey := { field_name : string; ascending : bool }.
Record SortBy := { keys : list SortKey }.

#[export] Instance SortKey_eq_dec : EqDecision SortKey.
Proof. solve_decision. Defined.
#[export] Instance SortBy_eq_dec : EqDecision SortBy.
Proof. solve_decision. Defined.

Inductive QueryOp :=
  | QFilter (expression : Expr)
  | QProjection (fields : list string)
  | QTake (count : Z)
  | QSkip (count : Z)
  | QSortBy (sort : SortBy)
  | QCount.

Record Column := { col_name : string; col_table_name : string; col_field : Field }.
Record ColumnAlias := { ca_field_name : string; ca_table_name : string }.

Definition column_alias (c : Column) : ColumnAlias :=
  {| ca_field_name := col_name c; ca_table_name := col_table_name c |}.

Definition alias_to_string (a : ColumnAlias) : string :=
  ca_table_name a +:+ "_" +:+ ca_field_name a.

Inductive TargetDatabase := Postgres | Sqlite.

Record QueryPlan := {
  columns : list Column;
  entity : QueriedEntity;
  allowed_fields : option (gset string);
  join_counter : nat;
  operators : list QueryOp;
}.

Definition base_type (self : QueryPlan) : Entity := qe_ty (entity self).
Definition backing_table (e : Entity) : string := obj_backing_table (object_type e).
Definition entity_name (e : Entity) : string := obj_name (object_type e).

Definition set_columns (self : QueryPlan) (cs : list Column) : QueryPlan :=
  {| columns := cs; entity := entity self; allowed_fields := allowed_fields self;
     join_counter := join_counter self; operators := operators self |}.
Definition set_join_counter (self : QueryPlan) (n : nat) : QueryPlan :=
  {| columns := columns self; entity := entity self; allowed_fields := allowed_fields self;
     join_counter := n; operators := operators self |}.
Definition set_entity (self : QueryPlan) (e : QueriedEntity) : QueryPlan :=
  {| columns := columns self; entity := e; allowed_fields := allowed_fields self;
     join_counter := join_counter self; operators := operators self |}.
Definition set_allowed_fields (self : QueryPlan) (fs : option (gset string)) : QueryPlan :=
  {| columns := columns self; entity := entity self; allowed_fields := fs;
     join_counter := join_counter self; operators := operators self |}.
Definition push_operators (self : QueryPlan) (ops : list QueryOp) : QueryPlan :=
  {| columns := columns self; entity := entity self; allowed_fields := allowed_fields self;
     join_counter := join_counter self; operators := operators self ++ ops |}.

(** ** Building a plan *)

Definition QueryPlan_new (base_type : Entity) : QueryPlan :=
  {| columns := [];
     entity := MkEntity [] base_type (backing_table base_type) [];
     allowed_fields := None;
     join_counter := 0;
     operators := [] |}.

Definition make_scalar_field (self : QueryPlan) (field : Field) (table_name : string)
    (transform : option (EntityValue -> EntityValue)) (keep_or_omit : KeepOrOmitField)
    : QueryPlan * QueryField :=
  let column_idx := List.length (columns self) in
  let select_field :=
    QfScalar (fld_name field) (fld_type_id field) (fld_is_optional field) column_idx transform
      keep_or_omit in
  (set_columns self (columns self ++
     [{| col_name := fld_name field; col_table_name := table_name; col_field := field |}]),
   select_field).

Definition with_type_id (f : Field) (t : TypeId) : Field :=
  {| fld_id := fld_id f; fld_name := fld_name f; fld_type_id := t; fld_labels := fld_labels f;
     fld_is_optional := fld_is_optional f; fld_is_unique := fld_is_unique f;
     fld_default := fld_default f; fld_effective_default := fld_effective_default f;
     fld_version_id := fld_version_id f |}.

Definition from_type (ty : Entity) : QueryPlan :=
  foldl (fun builder field =>
    let field := with_type_id field
      (match fld_type_id field with IdEntity _ _ => IdString | ty => ty end) in
    let '(builder, field) := make_scalar_field builder field (backing_table ty) None Keep in
    let '(MkEntity fields t alias joins) := entity builder in
    set_entity builder (MkEntity (fields ++ [field]) t alias joins))
  (QueryPlan_new ty) (all_fields (object_type ty)).

Definition process_projections (self : QueryPlan) (ops : list QueryOp) : QueryPlan * list QueryOp :=
  (foldl (fun self op =>
     match op with
     | QProjection fields => set_allowed_fields self (Some (list_to_set fields))
     | QCount => set_allowed_fields self None
     | _ => self
     end) self ops,
   List.filter (fun op => match op with QProjection _ => false | _ => true end) ops).

Definition extend_operators (self : QueryPlan) (ops : list QueryOp) : QueryPlan :=
  let '(self, ops) := process_projections self ops in push_operators self ops.

Section Plan.
Context {RL : RegexLib} {ML : MethodLib} {FT : FloatText} {QD : QuotedData}.

(** What a plan is built from: the version's types and policies, the job's
    user and path, whether the program runs with TypeScript policies, and what
    those say of the rows of a type that may be read. *)
Record DataContext := {
  ctx_type_system : TypeSystem;
  ctx_policy_system : PolicySystem;
  ctx_user_id : option string;
  ctx_path : option string;
  feat_typescript_policies : bool;
  make_read_filter_expr : ObjectType -> result (option Expr);
}.

Definition ctx_field_policies (ctx : DataContext) (ty : Entity) : FieldPolicies :=
  make_field_policies (ctx_policy_system ctx) (ctx_user_id ctx) (default "" (ctx_path ctx))
    (object_type ty).

(** [ctx.type_system.get(..)?] inside a function that returns [anyhow]. *)
Definition ts_error (e : TypeSystemError) : anyhow :=
  match e with
  | CustomTypeExists _ => AMsg "type already exists"
  | NoSuchType n => AMsg ("no such type: " +:+ n)
  | NotABuiltinType n => AMsg ("builtin type expected, got `" +:+ n +:+ "` instead")
  | NotACustomType n => AMsg ("user defined custom type expected, got `" +:+ n +:+ "` instead")
  | UnsafeReplacement n r => AMsg ("unsafe to replace type: " +:+ n +:+ ". Reason: " +:+ r)
  | InternalServerError r => AMsg ("Error while trying to manipulate types: " +:+ r)
  end.

Definition ctx_get (ctx : DataContext) (t : TypeId) : result Type_ :=
  map_err ts_error (get (ctx_type_system ctx) t).

Definition join_table (counter : nat) (nested_ty : Entity) : string :=
  truncate_identifier ("JOIN" +:+ pretty counter +:+ "_" +:+ entity_name nested_ty +:+ "_TO_" +:+
                       entity_name nested_ty).

(** One turn of the loop over an entity's fields; [load] is the recursive
    call on the nested entity. *)
Definition load_field (ctx : DataContext) (fp : FieldPolicies) (current_table : string)
    (load : QueryPlan -> Entity -> string -> result (QueryPlan * QueriedEntity))
    (s : QueryPlan * list QueryField * list (string * Join)) (field : Field)
    : result (QueryPlan * list QueryField * list (string * Join)) :=
  let '(self, fields, joins) := s in
  let field_policy := fp_transforms fp !! fld_name field in
  let keep_or_omit := if bool_decide (fld_name field ∈ fp_omit fp) then OmitField else Keep in
  ty ← ctx_get ctx (fld_type_id field);
  match ty with
  | TEntity nested_ty =>
      let nested_table := join_table (join_counter self) nested_ty in
      let self := set_join_counter self (S (join_counter self)) in
      let '(self, _) := make_scalar_field self field current_table field_policy keep_or_omit in
      '(self, entity) ← load self nested_ty nested_table;
      let entity_field :=
        QfEntity (fld_name field) (fld_is_optional field) field_policy keep_or_omit
          (qe_fields entity) in
      Ok (self, fields ++ [entity_field],
          alist_insert (fld_name field) (MkJoin entity (fld_name field) "id") joins)
  | _ =>
      let '(self, query_field) :=
        make_scalar_field self field current_table field_policy keep_or_omit in
      Ok (self, fields ++ [query_field], joins)
  end.

(** The recursion follows the entity fields of the types: it ends because the
    server rejects cyclic models when a version is applied.  Out of fuel stands
    for the stack overflow a cyclic type would cause. *)
Fixpoint load_entity_recursive (fuel : nat) (ctx : DataContext) (self : QueryPlan) (ty : Entity)
    (current_table : string) : result (QueryPlan * QueriedEntity) :=
  match fuel with
  | O => Panic "stack overflow"
  | S fuel =>
      let field_policies := ctx_field_policies ctx ty in
      '(self, fields, joins) ←
        foldM (load_field ctx field_policies current_table (load_entity_recursive fuel ctx))
          (self, [], []) (all_fields (object_type ty));
      Ok (self, MkEntity fields ty current_table joins)
  end.

Definition add_read_filters (ctx : DataContext) (self : QueryPlan) (ty : ObjectType)
    : result QueryPlan :=
  e ← make_read_filter_expr ctx ty;
  Ok (match e with
      | Some expression => push_operators self [QFilter expression]
      | None => self
      end).

Definition login_filter (ctx : DataContext) (fp : FieldPolicies) (property_chain : Expr)
    (load : QueryPlan -> Entity -> Expr -> result QueryPlan)
    (self : QueryPlan) (field : Field) : result QueryPlan :=
  let user_id := VString (match fp_current_userid fp with None => "NULL" | Some id => id end) in
  ty ← ctx_get ctx (fld_type_id field);
  match ty with
  | TEntity nested_ty =>
      let property_access := {| pa_property := fld_name field; pa_object := property_chain |} in
      if String.eqb (entity_name nested_ty) AUTH_USER_NAME then
        Ok (if bool_decide (fld_name field ∈ fp_match_login fp)
            then push_operators self
              [QFilter (mk_eq (expr_of_property property_access) (expr_of_value user_id))]
            else self)
      else load self nested_ty (expr_of_property property_access)
  | _ => Ok self
  end.

Fixpoint add_login_filters_recursive (fuel : nat) (ctx : DataContext) (self : QueryPlan)
    (ty : Entity) (property_chain : Expr) : result QueryPlan :=
  match fuel with
  | O => Panic "stack overflow"
  | S fuel =>
      let field_policies := ctx_field_policies ctx ty in
      foldM (login_filter ctx field_policies property_chain (add_login_filters_recursive fuel ctx))
        self (all_fields (object_type ty))
  end.

Definition load_entity (fuel : nat) (ctx : DataContext) (self : QueryPlan) (ty : Entity)
    : result (QueryPlan * QueriedEntity) :=
  self ← (if feat_typescript_policies ctx then add_read_filters ctx self (object_type ty)
          else Ok self);
  self ← add_login_filters_recursive fuel ctx self ty (EParameter 0);
  load_entity_recursive fuel ctx self ty (backing_table ty).

Definition from_entity_name (fuel : nat) (ctx : DataContext) (entity_name : string)
    : result QueryPlan :=
  ty ← with_context (map_err ts_error (lookup_entity (ctx_type_system ctx) entity_name))
         "unable to construct QueryPlan from an unknown entity name";
  '(builder, e) ← load_entity fuel ctx (QueryPlan_new ty) ty;
  Ok (set_entity builder e).

Definition from_ops (fuel : nat) (ctx : DataContext) (ty : Entity) (operators : list QueryOp)
    : result QueryPlan :=
  '(query_plan, e) ← load_entity fuel ctx (QueryPlan_new ty) ty;
  Ok (extend_operators (set_entity query_plan e) operators).

(** ** Operator chains *)

Inductive QueryOpChain :=
  | OpBaseEntity (name : string)
  | OpFilter (expression : Expr) (inner : QueryOpChain)
  | OpExpressionFilter (expression : json) (inner : QueryOpChain)
  | OpProjection (fields : list string) (inner : QueryOpChain)
  | OpTake (count : Z) (inner : QueryOpChain)
  | OpSkip (count : Z) (inner : QueryOpChain)
  | OpSortBy (keys : list SortKey) (inner : QueryOpChain)
  | OpCount (inner : QueryOpChain).

Fixpoint convert_ops (op : QueryOpChain) : result (string * list QueryOp) :=
  let continue query_op inner :=
    query_op ← query_op;
    '(entity_name, ops) ← inner;
    Ok (entity_name, ops ++ [query_op]) in
  match op with
  | OpBaseEntity name => Ok (name, [])
  | OpFilter expression inner => continue (Ok (QFilter expression)) (convert_ops inner)
  | OpExpressionFilter expression inner =>
      continue (e ← to_expr expression; Ok (QFilter e)) (convert_ops inner)
  | OpProjection fields inner => continue (Ok (QProjection fields)) (convert_ops inner)
  | OpTake count inner => continue (Ok (QTake count)) (convert_ops inner)
  | OpSkip count inner => continue (Ok (QSkip count)) (convert_ops inner)
  | OpSortBy keys inner => continue (Ok (QSortBy {| keys := keys |})) (convert_ops inner)
  | OpCount inner => continue (Ok QCount) (convert_ops inner)
  end.

Definition from_op_chain (fuel : nat) (ctx : DataContext) (op_chain : QueryOpChain)
    : result QueryPlan :=
  '(entity_name, operators) ← convert_ops op_chain;
  builder ← from_entity_name fuel ctx entity_name;
  Ok (extend_operators builder operators).
End Plan.
