(* ===== verification/Sql.v ===== *)
(** * SQL text of a query plan ([server/src/datastore/query.rs])

    The printing of a plan: columns, joins, filters, sort keys, limits, the
    nesting of one subselect per segment of operators, and deletions.  The
    assertions of the source are kept. *)

From S2P Require Import Prelude Json Expr Filter Ident EntityValue Types Builtin TypeSystem.
From S2P Require Import Policies Query.

(** ** Segments of operators *)

(** Everything up to the first [Take] or [Skip], that one included; the
    rest. *)
Fixpoint split_on_first_take (ops : list QueryOp) : list QueryOp * list QueryOp :=
  match ops with
  | [] => ([], [])
  | op :: ops' =>
      match op with
      | QTake _ | QSkip _ => ([op], ops')
      | _ => let '(a, b) := split_on_first_take ops' in (op :: a, b)
      end
  end.

Definition gather_filters (ops : list QueryOp) : option Expr :=
  foldl (fun expr op =>
    match op with
    | QFilter expression =>
        match expr with
        | Some filter_expr => Some (mk_and filter_expr expression)
        | None => Some expression
        end
    | _ => expr
    end) None ops.

Definition as_sort_by (op : QueryOp) : option SortBy := match op with QSortBy s => Some s | _ => None end.
Definition as_take (op : QueryOp) : option Z := match op with QTake n => Some n | _ => None end.
Definition as_skip (op : QueryOp) : option Z := match op with QSkip n => Some n | _ => None end.

(** [ops.iter().rfind(..)] and the payload of what it finds. *)
Definition rfind {A} (f : QueryOp -> option A) (ops : list QueryOp) : option A :=
  foldl (fun acc op => match f op with Some a => Some a | None => acc end) None ops.

Definition count_some {A} (f : QueryOp -> option A) (ops : list QueryOp) : nat :=
  List.length (List.filter (fun op => match f op with Some _ => true | None => false end) ops).

Definition find_last_sort_by (ops : list QueryOp) : option SortBy := rfind as_sort_by ops.

Definition find_take_count (ops : list QueryOp) : result (option Z) :=
  _ ← rust_assert (count_some as_take ops <=? 1) "assertion failed: at most one Take";
  Ok (rfind as_take ops).

Definition find_skip_count (ops : list QueryOp) : result (option Z) :=
  _ ← rust_assert (count_some as_skip ops <=? 1) "assertion failed: at most one Skip";
  Ok (rfind as_skip ops).

(** [ops.iter().position(|op| matches!(op, QueryOp::Count))] *)
Fixpoint count_position (ops : list QueryOp) : option nat :=
  match ops with
  | [] => None
  | QCount :: _ => Some 0
  | _ :: ops' => S <$> count_position ops'
  end.

Definition contains_count (ops : list QueryOp) : result bool :=
  match count_position ops with
  | Some p =>
      _ ← rust_assert (p =? List.length ops - 1) "assertion failed: p == ops.len() - 1";
      Ok true
  | None => Ok false
  end.

Section Sql.
Context {FT : FloatText} {QD : QuotedData}.

(** ** Columns and joins *)

Definition make_column_string (self : QueryPlan) : string :=
  str_pop (foldl (fun column_string c =>
    let name := quoted (col_table_name c) +:+ "." +:+ quoted (col_name c) in
    let alias := quoted (alias_to_string (column_alias c)) in
    let col :=
      match default_value (col_field c) with
      | Some dfl =>
          let sql_default :=
            match fld_type_id (col_field c) with
            | IdString => "'" +:+ dfl +:+ "'"
            | _ => dfl
            end in
          "coalesce(" +:+ name +:+ "," +:+ sql_default +:+ ") AS " +:+ alias +:+ ","
      | None => name +:+ " AS " +:+ alias +:+ ","
      end in
    column_string +:+ col) "" (columns self)).

Fixpoint gather_joins (e : QueriedEntity) : string :=
  let '(MkEntity _ _ table_alias joins) := e in
  (fix go (joins : list (string * Join)) : string :=
     match joins with
     | [] => ""
     | (_, MkJoin entity lkey rkey) :: joins' =>
         "LEFT JOIN " +:+ quoted (backing_table (qe_ty entity)) +:+ " AS " +:+
         quoted (qe_table_alias entity) +:+ " ON " +:+
         quoted table_alias +:+ "." +:+ quoted lkey +:+ "=" +:+
         quoted (qe_table_alias entity) +:+ "." +:+ quoted rkey +:+ newline +:+
         gather_joins entity +:+ go joins'
     end) joins.

Definition make_join_string (self : QueryPlan) : string := gather_joins (entity self).

(** ** Filters *)

Definition escape_string (s : string) : string := quoted_data s.

Definition value_to_string (value : Value) : string :=
  match value with
  | VBool b => if b then "true" else "false"
  | VU64 n => pretty n
  | VI64 n => pretty n
  | VF64 f => f64_display f
  | VString s => escape_string s
  | VNull => "NULL"
  end.

Fixpoint get_property_chain (property : string) (object : Expr) : result (list string) :=
  match object with
  | EProperty p o =>
      properties ← get_property_chain p o;
      Ok (properties ++ [property])
  | EParameter _ => Ok [property]
  | _ => bail "unexpected expression in property chain!"
  end.

Definition check_field (e : QueriedEntity) (field : string) : result unit :=
  ensure (qe_has_field e field) "expression error: entity doesn't have field".

(** The walk along the joins for the rest of the chain. *)
Fixpoint walk_properties (e : QueriedEntity) (field : string) (rest : list string)
    : result (QueriedEntity * string) :=
  match rest with
  | [] => Ok (e, field)
  | next_field :: rest' =>
      join ← option_context (alist_get field (qe_joins e))
               "expression error: unable to locate joined entity on field";
      let e := j_entity join in
      _ ← check_field e next_field;
      walk_properties e next_field rest'
  end.

Definition property_expr_to_string (self : QueryPlan) (property : string) (object : Expr)
    : result string :=
  properties ← get_property_chain property object;
  match properties with
  | [] => Panic "assertion failed: !properties.is_empty()"
  | field :: rest =>
      _ ← check_field (entity self) field;
      '(e, field) ← walk_properties (entity self) field rest;
      Ok (quoted (alias_to_string
        {| ca_field_name := field; ca_table_name := qe_table_alias e |}))
  end.

Fixpoint filter_expr_to_string (self : QueryPlan) (expr : Expr) : result string :=
  match expr with
  | EValue value => Ok (value_to_string value)
  | EBinary lhs op rhs =>
      l ← filter_expr_to_string self lhs;
      r ← filter_expr_to_string self rhs;
      Ok ("(" +:+ l +:+ " " +:+ to_sql_string op +:+ " " +:+ r +:+ ")")
  | EProperty property object => property_expr_to_string self property object
  | EParameter _ => bail "unexpected standalone parameter usage"
  | ENot e => s ← filter_expr_to_string self e; Ok ("NOT (" +:+ s +:+ ")")
  end.

Definition make_filter_string (self : QueryPlan) (expr : option Expr) : result string :=
  match expr with
  | Some expr => condition ← filter_expr_to_string self expr; Ok ("WHERE " +:+ condition)
  | None => Ok ""
  end.

(** ** Order and limits *)

Definition make_sort_string (self : QueryPlan) (sort : option SortBy) : result string :=
  match sort with
  | Some sort =>
      order_tokens ← foldM (fun tokens sort_key =>
        if negb (has_field (object_type (base_type self)) (field_name sort_key))
        then bail "entity has no such field"
        else
          let order := if ascending sort_key then "ASC" else "DESC" in
          let c_alias := {| ca_field_name := field_name sort_key;
                            ca_table_name := backing_table (base_type self) |} in
          Ok (tokens ++ [quoted (alias_to_string c_alias) +:+ " " +:+ order])) [] (keys sort);
      Ok ("ORDER BY " +:+ str_join ", " order_tokens)
  | None => Ok ""
  end.

Definition make_limit_and_offset_string (target : TargetDatabase) (limit offset : option Z)
    : string :=
  match target, limit, offset with
  | Sqlite, None, Some o => "LIMIT " +:+ pretty o +:+ ",-1"
  | _, _, _ =>
      let limit_str := match limit with Some l => "LIMIT " +:+ pretty l | None => "" end in
      let offset_str := match offset with Some o => "OFFSET " +:+ pretty o | None => "" end in
      limit_str +:+ " " +:+ offset_str
  end.

(** ** The query *)

Definition make_core_select (self : QueryPlan) : string :=
  "SELECT " +:+ make_column_string self +:+ " FROM " +:+
  quoted (backing_table (base_type self)) +:+ " " +:+ make_join_string self.

Definition count_field : QueryField := QfScalar "count" IdInt64 false 0 None Keep.

(** The [while] loop: each turn takes one segment off the operators, so their
    number is fuel enough ([make_raw_query_fuel_enough]). *)
Fixpoint raw_query_loop (fuel : nat) (self : QueryPlan) (target : TargetDatabase)
    (sql_query : string) (remaining_ops : list QueryOp) (fields : list QueryField)
    : result (string * list QueryField) :=
  match remaining_ops with
  | [] => Ok (sql_query, fields)
  | _ =>
      match fuel with
      | O => Panic "out of fuel"
      | S fuel =>
          let '(ops, remainder) := split_on_first_take remaining_ops in
          filter_string ← make_filter_string self (gather_filters ops);
          sort_string ← make_sort_string self (find_last_sort_by ops);
          limit ← find_take_count ops;
          offset ← find_skip_count ops;
          let lo_string := make_limit_and_offset_string target limit offset in
          has_count ← contains_count ops;
          '(columns_selection, fields) ←
            (if has_count : bool then
               _ ← rust_assert (match remainder with [] => true | _ => false end)
                     "assertion failed: remaining_ops.is_empty()";
               Ok ("COUNT(*)", [count_field])
             else Ok ("*", fields));
          raw_query_loop fuel self target
            ("SELECT " +:+ columns_selection +:+ " FROM (" +:+ sql_query +:+ ") AS subquery " +:+
             filter_string +:+ " " +:+ sort_string +:+ " " +:+ lo_string)
            remainder fields
      end
  end.

Definition make_raw_query (self : QueryPlan) (target : TargetDatabase)
    : result (string * list QueryField) :=
  raw_query_loop (List.length (operators self)) self target (make_core_select self)
    (operators self) (qe_fields (entity self)).

Definition build_query (self : QueryPlan) (target : TargetDatabase) : result Query :=
  '(raw_sql, fields) ← make_raw_query self target;
  Ok {| raw_sql := raw_sql; q_allowed_fields := allowed_fields self; q_fields := fields |}.
End Sql.

(** ** Deletions *)

Section Mutation.
Context {RL : RegexLib} {ML : MethodLib} {FT : FloatText} {QD : QuotedData}.

Record Mutation := { base_entity : Entity; filter_query_plan : QueryPlan }.

Definition delete_from_expr (fuel : nat) (ctx : DataContext) (type_name : string)
    (filter_expr : option Expr) : result Mutation :=
  base_entity ←
    match lookup_type (ctx_type_system ctx) type_name with
    | Ok (TEntity ty) => Ok ty
    | Ok _ => bail "Cannot delete scalar type"
    | Err _ => bail "Cannot delete from type, type not found"
    | Panic w => Panic w
    end;
  query_plan ← from_entity_name fuel ctx type_name;
  let query_plan :=
    match filter_expr with
    | Some expr => extend_operators query_plan [QFilter expr]
    | None => query_plan
    end in
  Ok {| base_entity := base_entity; filter_query_plan := query_plan |}.

Definition build_sql (self : Mutation) (target : TargetDatabase) : result string :=
  q ← build_query (filter_query_plan self) target;
  let id_column := {| ca_field_name := "id"; ca_table_name := backing_table (base_entity self) |} in
  let base_table := backing_table (base_entity self) in
  Ok ("DELETE FROM " +:+ quoted base_table +:+ newline +:+
      "                WHERE " +:+ quoted "id" +:+ " IN (" +:+ newline +:+
      "                    SELECT " +:+ quoted (alias_to_string id_column) +:+ " FROM (" +:+
      raw_sql q +:+ ") as subquery" +:+ newline +:+
      "                )").
End Mutation.
