(* ===== verification/Engine.v ===== *)
(** * The query engine ([server/src/datastore/engine.rs])

    Rows of the database turned into entity values under the field policies,
    objects turned into insertions (nested objects first), and the statements
    that create and alter the tables of a type.  Executing SQL is the
    database's; a row is read through [AnyRow]. *)

From S2P Require Import Prelude Json EntityValue Ident Types Builtin TypeSystem Policies Expr Query.

(** ** Libraries *)

(** A row of [sqlx]: reading a column panics, or errs, when it does not have the
    type asked for. *)
Class AnyRow (R : Type) := {
  column_is_null : R -> nat -> bool;
  row_f64 : R -> nat -> result f64;
  row_i64 : R -> nat -> result Z;
  row_str : R -> nat -> result string;
  row_bool : R -> nat -> result bool;
  row_bytes : R -> nat -> result (list Z);
  row_json : R -> nat -> result json;
}.

(** Identifiers ([uuid]), and the base64 that binary values are written in. *)
Class UuidLib := { uuid_parse : string -> bool }.
Class BytesText := { bytes_base64 : list Z -> string }.

(** ** Columns of a table *)

Inductive ColumnType := CText | CDouble | CBigInteger | CBoolean | CBinary | CJsonBinary.

Record ColumnDef := {
  cd_name : string;
  cd_unique : bool;
  cd_type : ColumnType;
  cd_primary_key : bool;
}.

#[export] Instance ColumnDef_eq_dec : EqDecision ColumnDef.
Proof. intros a b. unfold Decision. repeat decide equality. Defined.

Definition column_type (t : TypeId) : ColumnType :=
  match t with
  | IdString | IdId => CText
  | IdFloat | IdJsDate => CDouble
  | IdInt64 => CBigInteger
  | IdBoolean => CBoolean
  | IdArrayBuffer => CBinary
  | IdEntity _ _ | IdEntityId _ => CText
  | IdArray _ => CJsonBinary
  end.

Definition column_def (field : Field) : ColumnDef :=
  {| cd_name := fld_name field; cd_unique := fld_is_unique field;
     cd_type := column_type (fld_type_id field);
     cd_primary_key := bool_decide (fld_type_id field = IdId) |}.

(** ** Schema statements *)

Inductive Statement :=
  | CreateTable (table : string) (cols : list ColumnDef)
  | DropTable (table : string)
  | AddColumn (table : string) (col : ColumnDef)
  | DropColumn (table name : string)
  | CreateIndex (sql : string)
  | DropIndex (name table : string).

(** A sequence of statements, executed until one cannot be made. *)
Definition executed := (list Statement * result unit)%type.

Definition exec (s : Statement) : executed := ([s], Ok ()).
Definition exec_fail (r : result unit) : executed := ([], r).
Definition exec_then (a b : executed) : executed :=
  match a with
  | (l, Ok _) => (l ++ b.1, b.2)
  | _ => a
  end.
Definition exec_each {A} (f : A -> executed) (l : list A) : executed :=
  foldr (fun x e => exec_then (f x) e) ([], Ok ()) l.

Definition drop_indexes (ty : ObjectType) (indexes : list DbIndex) : executed :=
  exec_each (fun removed_idx =>
    match (n ← index_name removed_idx; option_context n "index must have a name when dropped") with
    | Ok name => exec (DropIndex name (obj_backing_table ty))
    | Err e => exec_fail (Err e)
    | Panic w => exec_fail (Panic w)
    end) indexes.

Definition create_indexes (ty : ObjectType) (indexes : list DbIndex) : executed :=
  exec_each (fun index =>
    match (n ← index_name index;
           option_context n "index must have a name at a time of table creation") with
    | Ok idx_name =>
        exec (CreateIndex
          (newline +:+ "                CREATE INDEX IF NOT EXISTS " +:+ quoted idx_name +:+ " ON " +:+
           quoted (obj_backing_table ty) +:+ " (" +:+ str_join ", " (idx_fields index) +:+ ");" +:+
           newline +:+ "            "))
    | Err e => exec_fail (Err e)
    | Panic w => exec_fail (Panic w)
    end) indexes.

Definition create_table (ty : ObjectType) : executed :=
  exec_then (exec (CreateTable (obj_backing_table ty) (column_def <$> all_fields ty)))
    (create_indexes ty (obj_indexes ty)).

Definition drop_table (ty : ObjectType) : executed :=
  exec_then (drop_indexes ty (obj_indexes ty)) (exec (DropTable (obj_backing_table ty))).

Definition alter_table (ty : ObjectType) (delta : ObjectDelta) : executed :=
  exec_then (drop_indexes ty (removed_indexes delta))
  (exec_then (exec_each (fun field => exec (AddColumn (obj_backing_table ty) (column_def field)))
                (added_fields delta))
  (exec_then (exec_each (fun field => exec (DropColumn (obj_backing_table ty) (fld_name field)))
                (removed_fields delta))
   (create_indexes ty (obj_indexes ty)))).

(** ** Rows *)

(** [to_lowercase], on the letters that matter for the comparison with
    [true]. *)
Definition ascii_lower (c : ascii) : ascii :=
  let n := nat_of_ascii c in
  if (65 <=? n) && (n <=? 90) then ascii_of_nat (n + 32) else c.
Fixpoint str_lower (s : string) : string :=
  match s with EmptyString => EmptyString | String c s => String (ascii_lower c) (str_lower s) end.

Fixpoint id_idx (fields : list QueryField) : result nat :=
  match fields with
  | [] => Panic "No id field among Entity children"
  | QfScalar name _ _ column_idx _ _ :: fields =>
      if String.eqb name "id" then Ok column_idx else id_idx fields
  | _ :: fields => id_idx fields
  end.

Section Row.
Context {R : Type} {RW : AnyRow R}.

Definition scalar_value (db_kind : TargetDatabase) (row : R) (column_idx : nat) (type_id : TypeId)
    : result EntityValue :=
  match type_id with
  | IdFloat => EvFloat64 <$> row_f64 row column_idx
  | IdJsDate => EvJsDate <$> row_f64 row column_idx
  | IdInt64 => (fun n => EvFloat64 (f64_of_Z n)) <$> row_i64 row column_idx
  | IdString | IdId | IdEntityId _ => EvString <$> row_str row column_idx
  | IdBoolean =>
      v ← match db_kind with
          | Sqlite =>
              val ← row_str row column_idx;
              Ok (String.eqb val "1" || String.eqb (str_lower val) "true")
          | Postgres => row_bool row column_idx
          end;
      Ok (EvBoolean v)
  | IdArrayBuffer => EvBytes <$> row_bytes row column_idx
  | IdEntity _ _ => bail "object is not a scalar"
  | IdArray _ =>
      array_json ← row_json row column_idx;
      with_context (from_json array_json) "failed to deserialize array from raw JSON string"
  end.

Definition transformed (transform : option (EntityValue -> EntityValue)) (val : EntityValue)
    : EntityValue :=
  match transform with Some tr => tr val | None => val end.

Definition is_omitted (k : KeepOrOmitField) : bool := match k with OmitField => true | Keep => false end.

(** One turn of the loop of [row_to_entity_value]. *)
Fixpoint field_to_value (db_kind : TargetDatabase) (row : R) (ret : EntityMap) (s_field : QueryField)
    {struct s_field} : result EntityMap :=
  match s_field with
  | QfScalar name type_id is_optional column_idx transform keep_or_omit =>
      if is_omitted keep_or_omit || (is_optional && column_is_null row column_idx) then Ok ret
      else
        val ← scalar_value db_kind row column_idx type_id;
        Ok (alist_insert name (transformed transform val) ret)
  | QfEntity name is_optional transform keep_or_omit fields =>
      skip ← (if is_omitted keep_or_omit then Ok true
              else if is_optional then column_is_null row <$> id_idx fields
              else Ok false);
      if skip : bool then Ok ret
      else
        val ← foldM (fun ret f => field_to_value db_kind row ret f) [] fields;
        Ok (alist_insert name (transformed transform (EvMap val)) ret)
  end.

Definition row_to_entity_value (db_kind : TargetDatabase) (fields : list QueryField) (row : R)
    : result EntityMap := foldM (field_to_value db_kind row) [] fields.

Definition project (o : result EntityMap) (allowed_fields : option (gset string))
    : result EntityMap :=
  o ← o;
  Ok (match allowed_fields with
      | Some allowed_fields => List.filter (fun '(k, _) => bool_decide (k ∈ allowed_fields)) o
      | None => o
      end).

(** [QueryEngine::query]: the rows are those of [raw_sql], in its order. *)
Definition query_rows (db_kind : TargetDatabase) (query : Query) (rows : list R)
    : list (result EntityMap) :=
  (fun row => project (row_to_entity_value db_kind (q_fields query) row) (q_allowed_fields query))
  <$> rows.
End Row.

(** ** Insertions *)

(** [i64::from_str] *)
Definition i64_parse (s : string) : option Z :=
  let '(neg, body) := match strip_prefix "-" s with
    | Some b => (true, b)
    | None => (false, default s (strip_prefix "+" s))
    end in
  n ← (if str_is_empty body then None else digits_value 0 body);
  if neg : bool then (if (n <=? 2 ^ 63)%Z then Some (- n)%Z else None)
  else if (n <=? i64_max)%Z then Some n else None.

Record SqlWithArguments := { sql : string; args : list SqlValue }.

Inductive IdTree := MkIdTree (id : string) (children : list (string * IdTree)).
Definition tree_id (t : IdTree) : string := let '(MkIdTree id _) := t in id.
Definition tree_children (t : IdTree) := let '(MkIdTree _ children) := t in children.

Definition as_string (v : SqlValue) : option string :=
  match v with SqlString s => Some s | _ => None end.

(** The length of a value's longest path to a leaf. *)
Fixpoint ev_depth (v : EntityValue) : nat :=
  match v with
  | EvArray l => S (foldr Nat.max 0 (List.map ev_depth l))
  | EvMap m => S (foldr Nat.max 0 (List.map (fun kv => ev_depth kv.2) m))
  | _ => 0
  end.

Section Insert.
Context {FT : FloatText} {JT : JsonText} {UU : UuidLib} {BT : BytesText}.

(** [serde_json::to_value] on an entity value; the numbers that JSON has no
    notation for become [null]. *)
Fixpoint ev_to_json (v : EntityValue) : json :=
  match v with
  | EvNull => JNull
  | EvString s => JString s
  | EvFloat64 f | EvJsDate f => json_of_f64 f
  | EvInt64 n => JNumber (if (0 <=? n)%Z then PosInt n else NegInt n)
  | EvBoolean b => JBool b
  | EvBytes b => JString (bytes_base64 b)
  | EvArray l => JArray (List.map ev_to_json l)
  | EvMap m => JObject (List.map (fun kv => (kv.1, ev_to_json kv.2)) m)
  end.

Fixpoint validate_array (element_type : TypeId) (value : EntityValue) : result unit :=
  let msg := "stored array should have elements of another type" in
  elements ← as_array value;
  foldM (fun _ e =>
    match element_type with
    | IdString | IdId | IdEntityId _ => ensure (is_string e) msg
    | IdFloat => ensure (is_f64 e) msg
    | IdInt64 => ensure (is_i64 e) msg
    | IdJsDate => ensure (is_date e || is_f64 e) msg
    | IdArrayBuffer => Panic "ArrayBuffer can't be contained within an array"
    | IdBoolean => ensure (is_boolean e) msg
    | IdArray inner_element =>
        with_context (validate_array inner_element e) "failed to validate inner array at position {i}"
    | IdEntity _ _ => Panic "entity can't be a contained within an array"
    end) () elements.

(** The macro [convert_value!]; [fresh] is the identifier a generated value
    would be. *)
Definition convert_value {A} (as_type : EntityValue -> result A) (parse : string -> option A)
    (fresh : string) (field : Field) (fields : EntityMap) : result A :=
  match alist_get (fld_name field) fields with
  | Some value => with_context (as_type value) "failed to convert value to specific type"
  | None =>
      value ← option_context (generate_value fresh field) "failed to generate value";
      option_context (parse value) "failed to parse default value"
  end.

Definition convert_to_argument (fresh : string) (field : Field) (fields : EntityMap)
    : result SqlValue :=
  match fld_type_id field with
  | IdString | IdId | IdEntity _ _ | IdEntityId _ =>
      SqlString <$> convert_value as_str Some fresh field fields
  | IdFloat => SqlF64 <$> convert_value as_f64 f64_parse fresh field fields
  | IdInt64 => SqlI64 <$> convert_value as_i64 i64_parse fresh field fields
  | IdBoolean => SqlBool <$> convert_value as_bool bool_parse fresh field fields
  | IdJsDate => SqlF64 <$> convert_value as_date f64_parse fresh field fields
  | IdArrayBuffer =>
      value ← option_context (alist_get (fld_name field) fields)
                "ArrayBuffer field must not miss value";
      SqlBytes <$> with_context (as_bytes value) "failed to convert value to bytes"
  | IdArray element_type =>
      match alist_get (fld_name field) fields with
      | Some value =>
          _ ← with_context (validate_array element_type value)
                "provided value for array has invalid type";
          Ok (SqlJson (ev_to_json value))
      | None =>
          text ← option_context (generate_value fresh field) "failed to generate value";
          SqlJson <$> option_context (json_parse text)
            "Failed to convert provided default value to json array"
      end
  end.

(** ** The text of an insertion *)

Record InsertText := {
  field_binds : string;
  field_names : list string;
  id_name : string;
  update_binds : string;
  id_bind : string;
  binds_made : nat;
}.

Definition insert_column (fields_map : EntityMap) (s : InsertText) (f : Field) : result InsertText :=
  let val := alist_get (fld_name f) fields_map in
  if match val with None => fld_is_optional f | Some _ => false end then Ok s
  else
    let '(bind, i) :=
      if fld_is_optional f && match val with Some v => is_null v | None => false end
      then ("NULL", binds_made s)
      else ("$" +:+ pretty (S (binds_made s)), S (binds_made s)) in
    let s := {| field_binds := field_binds s +:+ bind +:+ ","; field_names := field_names s ++ [fld_name f];
                id_name := id_name s; update_binds := update_binds s; id_bind := id_bind s;
                binds_made := i |} in
    s ← (if bool_decide (fld_type_id f = IdId) then
           _ ← match val with
               | Some idstr =>
                   idstr ← with_context (as_str idstr) "invalid ID: It is not a string";
                   ensure (uuid_parse idstr) "invalid ID"
               | None => Ok ()
               end;
           _ ← ensure (str_is_empty (id_bind s)) "More than one ID??";
           Ok {| field_binds := field_binds s; field_names := field_names s; id_name := fld_name f;
                 update_binds := update_binds s; id_bind := bind; binds_made := binds_made s |}
         else Ok s);
    Ok {| field_binds := field_binds s; field_names := field_names s; id_name := id_name s;
          update_binds := update_binds s +:+ quoted (fld_name f) +:+ " = " +:+ bind +:+ ",";
          id_bind := id_bind s; binds_made := binds_made s |}.

Definition make_insert_query (ty : ObjectType) (fields_map : EntityMap) : result string :=
  s ← foldM (insert_column fields_map)
        {| field_binds := ""; field_names := []; id_name := ""; update_binds := ""; id_bind := "";
           binds_made := 0 |} (all_fields ty);
  _ ← foldM (fun _ v => ensure (bool_decide (v ∈ field_names s)) "field not present")
        () fields_map.*1;
  Ok ("INSERT INTO " +:+ quoted (obj_backing_table ty) +:+ " (" +:+
      str_join "," (quoted <$> field_names s) +:+ ") VALUES (" +:+ str_pop (field_binds s) +:+
      ") ON CONFLICT (" +:+ id_name s +:+ ") DO UPDATE SET " +:+ str_pop (update_binds s) +:+
      " WHERE " +:+ quoted (obj_backing_table ty) +:+ "." +:+ quoted (id_name s) +:+ " = " +:+
      id_bind s).

(** ** Nested objects *)

(** The identifiers [Uuid::new_v4] draws, by the path of the object they are
    drawn for: one object draws at most one. *)
Context (new_v4 : list string -> string).

Record Inserting := {
  in_id : option string;
  in_args : list SqlValue;
  in_inserts : list SqlWithArguments;
  in_children : list (string * IdTree);
}.

Definition incompatible : string := "provided data for field are incompatible with given type".

(** The argument of a field that is not left out, after the insertions of the
    object it nests. *)
Definition field_argument (path : list string) (fields_map : EntityMap)
    (insert : list string -> ObjectType -> EntityMap -> result (list SqlWithArguments * IdTree))
    (s : Inserting) (field : Field) (t : Type_)
    : result (SqlValue * list SqlWithArguments * list (string * IdTree)) :=
  match t with
  | TEntity nested_type =>
      nested_value ← option_context (alist_get (fld_name field) fields_map) incompatible;
      nested_value ← with_context (as_map nested_value) incompatible;
      if is_auth nested_type then
        match alist_get "id" nested_value with
        | Some (EvString id) => Ok (SqlString id, in_inserts s, in_children s)
        | _ => bail "Cannot save into nested type."
        end
      else
        '(nested_inserts, nested_ids) ←
          insert (path ++ [fld_name field]) (object_type nested_type) nested_value;
        Ok (SqlString (tree_id nested_ids), in_inserts s ++ nested_inserts,
            alist_insert (fld_name field) nested_ids (in_children s))
  | _ =>
      arg ← with_context (convert_to_argument (new_v4 path) field fields_map) incompatible;
      Ok (arg, in_inserts s, in_children s)
  end.

Definition insert_field (ts : TypeSystem) (path : list string) (fields_map : EntityMap)
    (insert : list string -> ObjectType -> EntityMap -> result (list SqlWithArguments * IdTree))
    (s : Inserting) (field : Field) : result Inserting :=
  let field_value := alist_get (fld_name field) fields_map in
  if match field_value with None => true | Some v => is_null v end && fld_is_optional field then Ok s
  else
    t ← map_err ts_error (get ts (fld_type_id field));
    '(arg, inserts, children) ← field_argument path fields_map insert s field t;
    id ← (if String.eqb (fld_name field) "id"
          then Some <$> option_context (as_string arg) "the id value is not string"
          else Ok (in_id s));
    Ok {| in_id := id; in_args := in_args s ++ [arg]; in_inserts := inserts; in_children := children |}.

(** The recursion is over nested objects; [prepare_insertion] gives it the
    depth of the value as fuel. *)
Fixpoint prepare_insertion_fuel (fuel : nat) (ts : TypeSystem) (path : list string) (ty : ObjectType)
    (fields_map : EntityMap) : result (list SqlWithArguments * IdTree) :=
  match fuel with
  | O => Panic "stack overflow"
  | S fuel =>
      s ← foldM (insert_field ts path fields_map (prepare_insertion_fuel fuel ts))
            {| in_id := None; in_args := []; in_inserts := []; in_children := [] |} (all_fields ty);
      text ← make_insert_query ty fields_map;
      obj_id ← option_context (in_id s) "attempting to insert an object with no id";
      Ok (in_inserts s ++ [{| sql := text; args := in_args s |}], MkIdTree obj_id (in_children s))
  end.

Definition prepare_insertion (ty : ObjectType) (fields_map : EntityMap) (ts : TypeSystem)
    : result (list SqlWithArguments * IdTree) :=
  prepare_insertion_fuel (ev_depth (EvMap fields_map)) ts [] ty fields_map.

Definition prepare_insertion_shallow (ty : ObjectType) (fields_map : EntityMap)
    : result SqlWithArguments :=
  query_args ← foldM (fun query_args field =>
      match alist_get (fld_name field) fields_map with
      | None =>
          if fld_is_optional field then Ok query_args
          else arg ← with_context (convert_to_argument (new_v4 []) field fields_map) incompatible;
               Ok (query_args ++ [arg])
      | Some _ =>
          arg ← with_context (convert_to_argument (new_v4 []) field fields_map) incompatible;
          Ok (query_args ++ [arg])
      end) [] (all_fields ty);
  text ← make_insert_query ty fields_map;
  Ok {| sql := text; args := query_args |}.

(** ** Saving an object *)

Inductive WriteAction := Create | Update.

(** [exists_id] is the query for the object's row; [process_write] the write
    policies of TypeScript, which may change the object. *)
Context (exists_id : ObjectType -> string -> result bool).
Context {Location : Type}.
Context (process_write : ObjectType -> EntityMap -> WriteAction -> result (EntityMap * option Location)).

Definition is_object_creation (ty : ObjectType) (obj : EntityMap) : result bool :=
  match alist_get "id" obj with
  | None => Ok true
  | Some id => id ← as_str id; negb <$> exists_id ty id
  end.

Definition apply_write_policies (ty : ObjectType) (value : EntityMap) (is_creation : bool)
    : result (EntityMap * option Location) :=
  process_write ty value (if is_creation then Create else Update).

(** The record that is returned, the identifiers, and the statements that were
    executed. *)
Definition add_row (feat_typescript_policies : bool) (ts : TypeSystem) (ty : ObjectType)
    (record : EntityMap) : result (EntityMap * IdTree * list SqlWithArguments) :=
  '(record, _) ←
    (if feat_typescript_policies then
       is_creation ← is_object_creation ty record;
       apply_write_policies ty record is_creation
     else Ok (record, None));
  '(inserts, id_tree) ← prepare_insertion ty record ts;
  Ok (record, id_tree, inserts).
End Insert.
