(* ===== verification/Crud.v ===== *)
(** * The CRUD interface ([server/src/datastore/crud.rs])

    URL parameters turned into query operators, cursors for paging, the page
    links of a result and deletions by URL. *)

From S2P Require Import Prelude Json Expr Filter Ident Types Builtin TypeSystem.
From S2P Require Import Policies Query Sql.

(** ** Libraries: base64, and the encoding of query strings *)

Class Base64 := {
  base64_encode : string -> string;
  base64_decode : string -> option string;
}.

Class FormUrlencoded := { form_urlencoded : list (string * string) -> string }.

(** ** Data *)

Record QueryParams := {
  type_name : string;
  url_path : string;
  url_query : list (string * string);
}.

Record CursorAxis := { axis_key : SortKey; axis_value : json }.

Record Cursor := { axes : list CursorAxis; forward : bool; inclusive : bool }.

Record Query := {
  page_size : Z;
  offset : option Z;
  cursor : option Cursor;
  sort : SortBy;
  filters : list Expr;
}.

Definition Query_new : Query :=
  {| page_size := 1000; offset := None; cursor := None;
     sort := {| keys := [{| field_name := "id"; ascending := true |}] |};
     filters := [] |}.

Definition ensure_sort_by_id (s : SortBy) : SortBy :=
  if negb (existsb (fun k => String.eqb (field_name k) "id") (keys s))
  then {| keys := keys s ++ [{| field_name := "id"; ascending := true |}] |}
  else s.

(** ** Property chains and values *)

Definition property_step (ts : TypeSystem) (s : Expr * Type_) (field_str : string)
    : result (Expr * Type_) :=
  let '(property_chain, last_type) := s in
  match last_type with
  | TEntity entity =>
      match get_field (object_type entity) field_str with
      | Some field =>
          last_type ← map_err ts_error (get ts (fld_type_id field));
          Ok (expr_of_property {| pa_property := field_str; pa_object := property_chain |}, last_type)
      | None => bail "entity doesn't have field"
      end
  | _ => bail "invalid property access"
  end.

Definition make_property_chain (base_type : Entity) (fields : list string) (ts : TypeSystem)
    : result (Expr * Type_) :=
  _ ← ensure (match fields with [] => false | _ => true end)
        "cannot make property chain from no fields";
  foldM (property_step ts) (EParameter 0, TEntity base_type) fields.

Definition json_to_value (field_type : Type_) (value : json) : result Expr :=
  let failed := "failed to convert filter value" in
  expr_val ←
    match field_type with
    | TEntity _ | TArray _ | TArrayBuffer =>
        bail "trying to filter by property of a type which is not supported"
    | TString => VString <$> option_context (as_str value) failed
    | TFloat | TJsDate => VF64 <$> option_context (as_f64 value) failed
    | TBoolean => VBool <$> option_context (as_bool value) failed
    | TEntityId _ => VString <$> option_context (as_str value) failed
    end;
  Ok (expr_of_value expr_val).

Definition convert_operator (op_str : option string) : result BinaryOp :=
  match op_str with
  | None => Ok OpEq
  | Some op =>
      if String.eqb op "ne" then Ok OpNotEq
      else if String.eqb op "lt" then Ok OpLt
      else if String.eqb op "lte" then Ok OpLtEq
      else if String.eqb op "gt" then Ok OpGt
      else if String.eqb op "gte" then Ok OpGtEq
      else if String.eqb op "like" then Ok OpLike
      else if String.eqb op "unlike" then Ok OpNotLike
      else bail "found unsupported operator"
  end.

Definition parse_sort (base_type : Entity) (value : string) : result SortBy :=
  let '(field_name, ascending) :=
    match strip_prefix "-" value with
    | Some suffix => (suffix, false)
    | None => match strip_prefix "+" value with
              | Some suffix => (suffix, true)
              | None => (value, true)
              end
    end in
  _ ← ensure (has_field (object_type base_type) field_name)
        "trying to sort by non-existent field";
  Ok {| keys := [{| field_name := field_name; ascending := ascending |}] |}.

(** ** Cursors *)

Definition Cursor_new (axes : list CursorAxis) (forward : bool) : result Cursor :=
  _ ← rust_assert (match axes with [] => false | _ => true end) "assertion failed: !axes.is_empty()";
  Ok {| axes := axes; forward := forward; inclusive := false |}.

Definition reversed (self : Cursor) : Cursor :=
  {| axes := axes self; forward := negb (forward self); inclusive := negb (inclusive self) |}.

Definition get_sort (self : Cursor) : SortBy :=
  {| keys := (fun axis =>
       {| field_name := field_name (axis_key axis);
          ascending := Bool.eqb (ascending (axis_key axis)) (forward self) |}) <$> axes self |}.

Definition axis_op (self : Cursor) (axis : CursorAxis) : BinaryOp :=
  if Bool.eqb (ascending (axis_key axis)) (forward self)
  then (if inclusive self then OpGtEq else OpGt)
  else if inclusive self then OpLtEq else OpLt.

Definition cmp_pair (self : Cursor) (base_type : Entity) (ts : TypeSystem) (axis : CursorAxis)
    : result (Expr * BinaryOp * Expr) :=
  '(property_chain, field_type) ←
    make_property_chain base_type [field_name (axis_key axis)] ts;
  value ← with_context (json_to_value field_type (axis_value axis))
            "Failed to convert axis JSON to expression value";
  Ok (property_chain, axis_op self axis, value).

(** The disjunction over the pairs: the pairs before the current one are
    required to be equal. *)
Definition lexicographic (cmp_pairs : list (Expr * BinaryOp * Expr)) : option Expr :=
  (foldl (fun '(before, expr) '(lhs, op, rhs) =>
     let e := expr_of_binary (binary_new op lhs rhs) in
     let expr :=
       match expr with
       | None => e
       | Some expr =>
           mk_or expr (foldl (fun e '(lhs, _, rhs) => mk_and (mk_eq lhs rhs) e) e before)
       end in
     (before ++ [(lhs, op, rhs)], Some expr)) ([], None) cmp_pairs).2.

Definition get_filter (self : Cursor) (base_type : Entity) (ts : TypeSystem) : result Expr :=
  cmp_pairs ← foldM (fun acc axis => p ← cmp_pair self base_type ts axis; Ok (acc ++ [p])) []
                (axes self);
  unwrap (lexicographic cmp_pairs) "called `Option::unwrap()` on a `None` value".

(** The JSON of a cursor, as [serde] derives it. *)
Definition sort_key_to_json (k : SortKey) : json :=
  JObject [("fieldName", JString (field_name k)); ("ascending", JBool (ascending k))].
Definition axis_to_json (a : CursorAxis) : json :=
  JObject [("key", sort_key_to_json (axis_key a)); ("value", axis_value a)].
Definition cursor_to_json (c : Cursor) : json :=
  JObject [("axes", JArray (axis_to_json <$> axes c)); ("forward", JBool (forward c));
           ("inclusive", JBool (inclusive c))].

Definition sort_key_of_json (j : json) : option SortKey :=
  f ← json_get "fieldName" j ≫= as_str;
  a ← json_get "ascending" j ≫= as_bool;
  Some {| field_name := f; ascending := a |}.
Definition axis_of_json (j : json) : option CursorAxis :=
  k ← json_get "key" j ≫= sort_key_of_json;
  v ← json_get "value" j;
  Some {| axis_key := k; axis_value := v |}.
Definition cursor_of_json (j : json) : option Cursor :=
  l ← json_get "axes" j ≫= as_array;
  axes ← mapM axis_of_json l;
  f ← json_get "forward" j ≫= as_bool;
  i ← json_get "inclusive" j ≫= as_bool;
  Some {| axes := axes; forward := f; inclusive := i |}.

Section Crud.
Context {FT : FloatText} {JT : JsonText} {B64 : Base64} {FU : FormUrlencoded}.

Definition cursor_from_string (cursor_str : string) : result Cursor :=
  cursor_json ← option_context (base64_decode cursor_str)
                  "Failed to decode cursor from base64 encoded string";
  cursor ← option_context (json_parse cursor_json ≫= cursor_of_json)
             "failed to deserialize cursor's axes";
  _ ← ensure (match axes cursor with [] => false | _ => true end)
        "cursor must have some sort axes";
  Ok cursor.

Definition cursor_to_string (self : Cursor) : result string :=
  Ok (base64_encode (json_print (cursor_to_json self))).

(** ** Parameters *)

Definition filter_from_param (base_type : Entity) (param_key value : string) (ts : TypeSystem)
    : result Expr :=
  let tokens := split_on "~" param_key in
  _ ← ensure (List.length tokens <=? 2) "expected at most one occurrence of '~'";
  let fields := split_on "." (default "" (head tokens)) in
  operator ← convert_operator (tokens !! 1);
  '(property_chain, field_type) ← make_property_chain base_type fields ts;
  let failed := "failed to convert filter value" in
  expr_value ←
    match field_type with
    | TString => Ok (VString value)
    | TFloat | TJsDate => VF64 <$> option_context (f64_parse value) failed
    | TBoolean => VBool <$> option_context (bool_parse value) failed
    | TEntityId _ => Ok (VString value)
    | TEntity _ | TArray _ | TArrayBuffer =>
        bail "trying to filter by property of a type which is not supported"
    end;
  Ok (expr_of_binary (binary_new operator property_chain (expr_of_value expr_value))).

Definition json_filter (value : string) : result Expr :=
  json_filter ← option_context (json_parse value) "failed to parse filter parameter";
  with_context (to_expr json_filter) "failed to convert filter json to filtering expression".

(** One turn of the loop over the parameters. *)
Definition url_param (base_type : Entity) (ts : TypeSystem) (q : Query) (param : string * string)
    : result Query :=
  let '(param_key, value) := param in
  if String.eqb param_key "sort" then
    s ← parse_sort base_type value;
    Ok {| page_size := page_size q; offset := offset q; cursor := cursor q; sort := s;
          filters := filters q |}
  else if String.eqb param_key "limit" || String.eqb param_key "page_size" then
    n ← option_context (u64_parse value) "failed to parse. Expected u64";
    Ok {| page_size := n; offset := offset q; cursor := cursor q; sort := sort q;
          filters := filters q |}
  else if String.eqb param_key "offset" then
    o ← option_context (u64_parse value) "failed to parse offset. Expected u64";
    Ok {| page_size := page_size q; offset := Some o; cursor := cursor q; sort := sort q;
          filters := filters q |}
  else if String.eqb param_key "filter" then
    e ← json_filter value;
    Ok {| page_size := page_size q; offset := offset q; cursor := cursor q; sort := sort q;
          filters := filters q ++ [e] |}
  else if String.eqb param_key "cursor" then
    _ ← ensure (match cursor q with None => true | Some _ => false end)
          "only one occurrence of cursor is allowed.";
    c ← cursor_from_string value;
    Ok {| page_size := page_size q; offset := offset q; cursor := Some c; sort := sort q;
          filters := filters q |}
  else
    match strip_prefix "." param_key with
    | Some param_key =>
        e ← with_context (filter_from_param base_type param_key value ts) "failed to parse filter";
        Ok {| page_size := page_size q; offset := offset q; cursor := cursor q; sort := sort q;
              filters := filters q ++ [e] |}
    | None => Ok q
    end.

Definition from_url_query (base_type : Entity) (url_query : list (string * string))
    (ts : TypeSystem) : result Query :=
  q ← foldM (url_param base_type ts) Query_new url_query;
  let s := ensure_sort_by_id (sort q) in
  match cursor q with
  | Some c =>
      f ← get_filter c base_type ts;
      Ok {| page_size := page_size q; offset := offset q; cursor := cursor q;
            sort := get_sort c; filters := filters q ++ [f] |}
  | None =>
      Ok {| page_size := page_size q; offset := offset q; cursor := cursor q;
            sort := s; filters := filters q |}
  end.

Definition make_query_ops (self : Query) : list QueryOp :=
  [QSortBy (sort self)] ++ (QFilter <$> filters self) ++
  match offset self with Some o => [QSkip o] | None => [] end ++
  [QTake (page_size self)].

(** ** Pages *)

Definition cursor_from_pivot (query : Query) (pivot_element : json_object) (forward : bool)
    : result Cursor :=
  let sort_keys :=
    match cursor query with
    | Some cursor => axis_key <$> axes cursor
    | None => keys (sort query)
    end in
  _ ← rust_assert (match sort_keys with [] => false | _ => true end)
        "assertion failed: !sort_keys.is_empty()";
  let axes := (fun key =>
    {| axis_key := key; axis_value := default JNull (alist_get (field_name key) pivot_element) |})
    <$> sort_keys in
  Cursor_new axes forward.

Definition page_query (url_query : list (string * string)) (cursor : string)
    : list (string * string) :=
  List.filter (fun '(key, _) => negb (String.eqb key "cursor" || String.eqb key "sort")) url_query
    ++ [("cursor", cursor)].

Definition make_page_url (url_path : string) (url_query : list (string * string)) (cursor : string)
    : string :=
  url_path +:+ "?" +:+ form_urlencoded (page_query url_query cursor).

Definition get_page (params : QueryParams) (query : Query) (results : list json_object)
    (forward_ : bool) : result (option string) :=
  match (if forward_ then last results else head results) with
  | Some pivot =>
      cursor ← cursor_from_pivot query pivot forward_;
      cursor ← cursor_to_string cursor;
      Ok (Some (make_page_url (url_path params) (url_query params) cursor))
  | None =>
      match cursor query with
      | Some cursor =>
          if negb (Bool.eqb (forward cursor) forward_) then
            cursor ← cursor_to_string (reversed cursor);
            Ok (Some (make_page_url (url_path params) (url_query params) cursor))
          else Ok None
      | None => Ok None
      end
  end.

Definition get_next_page (params : QueryParams) (query : Query) (results : list json_object) :=
  get_page params query results true.
Definition get_prev_page (params : QueryParams) (query : Query) (results : list json_object) :=
  get_page params query results false.

(** ** The entry points *)

Context {RL : RegexLib} {ML : MethodLib}.

(** [execute] is the query engine: the plan's rows, as JSON objects, in the
    order of the database. *)
Definition run_query (fuel : nat) (ctx : DataContext)
    (execute : QueryPlan -> result (list json_object)) (params : QueryParams)
    : result json_object :=
  base_type ← with_context
    (map_err ts_error (lookup_entity (ctx_type_system ctx) (type_name params)))
    "unexpected type name as crud query base type";
  query ← from_url_query base_type (url_query params) (ctx_type_system ctx);
  query_plan ← from_ops fuel ctx base_type (make_query_ops query);
  results ← execute query_plan;
  let results :=
    match cursor query with
    | Some c => if negb (forward c) then rev results else results
    | None => results
    end in
  next_page ← get_next_page params query results;
  prev_page ← get_prev_page params query results;
  Ok (match next_page with Some u => [("next_page", JString u)] | None => [] end ++
      match prev_page with Some u => [("prev_page", JString u)] | None => [] end ++
      [("results", JArray (JObject <$> results))]).

Definition delete_query_to_filter (base_type : Entity) (url_query : list (string * string))
    (ts : TypeSystem) : result (option Expr) :=
  conditions ← foldM (fun conditions '(param_key, value) =>
      match strip_prefix "." param_key with
      | Some param_key =>
          expr ← with_context (filter_from_param base_type param_key value ts)
                   "failed to parse filter";
          Ok (conditions ++ [expr])
      | None =>
          if String.eqb param_key "filter" then
            expr ← json_filter value;
            Ok (conditions ++ [expr])
          else Ok conditions
      end) [] url_query;
  Ok (foldl (fun acc expr =>
        match acc with Some filter => Some (mk_and filter expr) | None => Some expr end)
      None conditions).

Definition delete_from_url_query (fuel : nat) (ctx : DataContext) (type_name : string)
    (url_query : list (string * string)) : result Mutation :=
  base_entity ←
    match lookup_type (ctx_type_system ctx) type_name with
    | Ok (TEntity ty) => Ok ty
    | Ok _ => bail "Cannot delete scalar type"
    | Err _ => bail "Cannot delete from type, type not found"
    | Panic w => Panic w
    end;
  filter_expr ← with_context (delete_query_to_filter base_entity url_query (ctx_type_system ctx))
                  "failed to convert crud URL to filter expression";
  _ ← match filter_expr with
      | None =>
          let delete_all := existsb (fun '(key, value) =>
            String.eqb key "all" && String.eqb value "true") url_query in
          if negb delete_all
          then bail "crud delete requires a filter to be set or `all=true` parameter."
          else Ok ()
      | Some _ => Ok ()
      end;
  delete_from_expr fuel ctx type_name filter_expr.
End Crud.
