(* ===== verification/QuerySpec.v ===== *)
(** * What query plans mean

    The reference semantics of the operators of [Query], on lists of rows, and
    the proofs that the SQL of [Sql] has that meaning, that building it does not
    panic, that the login policies restrict every plan, and that the columns of
    the SQL feed the right fields. *)

From S2P Require Import Prelude Json Expr Filter Ident EntityValue Types Builtin TypeSystem.
From S2P Require Import Policies Query Sql.

(** ** Operators on rows *)

Module Rows.

(** A stable sort by a boolean order. *)
Section Sorting.
Context {A : Type} (le : A -> A -> bool).

Fixpoint insert_sorted (x : A) (l : list A) : list A :=
  match l with
  | [] => [x]
  | y :: l' => if le x y then x :: y :: l' else y :: insert_sorted x l'
  end.
Definition sort (l : list A) : list A := foldr insert_sorted [] l.
End Sorting.

(** The result of a query: rows, or the number of them. *)
Inductive answer :=
  | Rows (rows : list Sem.row)
  | Counted (n : nat).

Section Run.
(** [LIKE], and the database's order of rows for sort keys. *)
Context (like : string -> string -> bool) (le : SortBy -> Sem.row -> Sem.row -> bool).

(** [WHERE] keeps the rows for which the condition is true. *)
Definition keeps (e : Expr) (r : Sem.row) : bool := bool_decide (Sem.sat like r e = Some true).

(** The operators one after the other. *)
Definition run_op (a : answer) (op : QueryOp) : answer :=
  match a with
  | Counted n => Counted n
  | Rows rows =>
      match op with
      | QFilter e => Rows (List.filter (keeps e) rows)
      | QProjection _ => Rows rows
      | QTake n => Rows (take (Z.to_nat n) rows)
      | QSkip n => Rows (drop (Z.to_nat n) rows)
      | QSortBy s => Rows (sort (le s) rows)
      | QCount => Counted (List.length rows)
      end
  end.
Definition run_ops (ops : list QueryOp) (a : answer) : answer := foldl run_op a ops.

(** One [SELECT] over a subquery: filter, order, offset and limit, count. *)
Record segment := {
  sg_filter : option Expr;
  sg_sort : option SortBy;
  sg_limit : option Z;
  sg_offset : option Z;
  sg_count : bool;
}.

Definition run_segment (a : answer) (s : segment) : answer :=
  match a with
  | Counted n => Counted n
  | Rows rows =>
      let rows := match sg_filter s with Some e => List.filter (keeps e) rows | None => rows end in
      let rows := match sg_sort s with Some k => sort (le k) rows | None => rows end in
      let rows := match sg_offset s with Some n => drop (Z.to_nat n) rows | None => rows end in
      let rows := match sg_limit s with Some n => take (Z.to_nat n) rows | None => rows end in
      if sg_count s then Counted (List.length rows) else Rows rows
  end.
End Run.

(** The segments of a list of operators. *)
Definition segment_of (ops : list QueryOp) : segment :=
  {| sg_filter := gather_filters ops;
     sg_sort := find_last_sort_by ops;
     sg_limit := rfind as_take ops;
     sg_offset := rfind as_skip ops;
     sg_count := match count_position ops with Some _ => true | None => false end |}.

Fixpoint segments_of (fuel : nat) (ops : list QueryOp) : list segment :=
  match ops, fuel with
  | [], _ | _, O => []
  | _, S fuel =>
      let '(first, rest) := split_on_first_take ops in segment_of first :: segments_of fuel rest
  end.

(** At most one sort between two limits: of two, the SQL keeps the second
    only, and the order of its ties is the database's. *)
Fixpoint sorts_once (seen : bool) (ops : list QueryOp) : bool :=
  match ops with
  | [] => true
  | QSortBy _ :: ops' => negb seen && sorts_once true ops'
  | QTake _ :: ops' | QSkip _ :: ops' => sorts_once false ops'
  | _ :: ops' => sorts_once seen ops'
  end.

(** A count, where there is one, is the last operator; projections have been
    taken out. *)
Fixpoint count_last (ops : list QueryOp) : bool :=
  match ops with
  | [] => true
  | [QCount] => true
  | QCount :: _ | QProjection _ :: _ => false
  | _ :: ops' => count_last ops'
  end.
End Rows.
Import Rows.

(** ** Sorting *)

Section SortLemmas.
Context {A : Type} (le : A -> A -> bool).
Context (Htotal : forall x y, le x y = true \/ le y x = true).
Context (Htrans : forall x y z, le x y = true -> le y z = true -> le x z = true).

Notation sorted := (StronglySorted (fun x y => le x y = true)).

Lemma insert_sorted_elem x y l : y ∈ insert_sorted le x l <-> y = x \/ y ∈ l.
Proof. induction l as [|z l IH]; cbn; [set_solver|]. destruct (le x z); set_solver. Qed.

Lemma insert_sorted_sorted x l : sorted l -> sorted (insert_sorted le x l).
Proof.
  induction 1 as [|y l Hl IH Hy]; cbn; [by repeat constructor|].
  destruct (le x y) eqn:E.
  - constructor; [by constructor|]. constructor; [done|].
    eapply Forall_impl; [exact Hy|]. intros z Hz. by eapply Htrans.
  - constructor; [done|]. apply Forall_forall. rewrite Forall_forall in Hy.
    intros z [->|Hz]%insert_sorted_elem; [|by apply Hy].
    destruct (Htotal x y); congruence.
Qed.

Lemma sort_sorted l : sorted (sort le l).
Proof. induction l; cbn; [constructor|by apply insert_sorted_sorted]. Qed.

Lemma insert_sorted_least x l : Forall (fun y => le x y = true) l -> insert_sorted le x l = x :: l.
Proof. destruct l; cbn; [done|]. by intros [-> _]%Forall_cons. Qed.

Lemma filter_insert_sorted (p : A -> bool) x l : sorted l ->
  List.filter p (insert_sorted le x l) =
  if p x then insert_sorted le x (List.filter p l) else List.filter p l.
Proof.
  induction 1 as [|y l Hl IH Hy]; cbn; [by destruct (p x)|].
  destruct (le x y) eqn:E; cbn.
  - destruct (p x) eqn:Hpx; [|done]. destruct (p y) eqn:Hpy; cbn; [by rewrite E|].
    symmetry. apply insert_sorted_least, Forall_forall. intros z [Hz _]%elem_of_List_filter.
    rewrite Forall_forall in Hy. eapply Htrans; eauto.
  - rewrite IH. destruct (p y) eqn:Hpy; [|done]. destruct (p x); cbn; [by rewrite E|done].
Qed.

(** Filtering and stable sorting commute. *)
Lemma filter_sort (p : A -> bool) l : List.filter p (sort le l) = sort le (List.filter p l).
Proof.
  induction l as [|x l IH]; [done|].
  change (sort le (x :: l)) with (insert_sorted le x (sort le l)).
  rewrite filter_insert_sorted by apply sort_sorted. rewrite IH. cbn. by destruct (p x).
Qed.

Lemma sort_elem x l : x ∈ sort le l <-> x ∈ l.
Proof. induction l; cbn; [done|]. rewrite insert_sorted_elem. set_solver. Qed.
End SortLemmas.

(** ** Segments *)

Lemma split_on_first_take_app ops : let '(a, b) := split_on_first_take ops in
  ops = a ++ b /\ (ops <> [] -> a <> []).
Proof.
  induction ops as [|op ops IH]; [done|]. cbn.
  destruct op; try done; destruct (split_on_first_take ops) as [a b]; destruct IH as [-> _]; done.
Qed.

Lemma split_shorter ops a b : ops <> [] -> split_on_first_take ops = (a, b) ->
  List.length b < List.length ops.
Proof.
  intros Hne H. pose proof (split_on_first_take_app ops) as Happ. rewrite H in Happ.
  destruct Happ as [-> Ha]. rewrite length_app.
  destruct a; [by destruct (Ha Hne)|cbn; lia].
Qed.

(** The shape of a first segment: no limit but at its end. *)
Definition no_limit (op : QueryOp) : bool := match op with QTake _ | QSkip _ => false | _ => true end.

Lemma split_shape ops a b : split_on_first_take ops = (a, b) ->
  (forallb no_limit a = true /\ b = []) \/
  (exists a0 op, a = a0 ++ [op] /\ forallb no_limit a0 = true /\ no_limit op = false).
Proof.
  revert a b. induction ops as [|op ops IH]; intros a b; cbn; [intros [= <- <-]; auto|].
  destruct op; try (intros [= <- <-]; right; by eexists [], _);
    (destruct (split_on_first_take ops) as [a' b'] eqn:E; intros [= <- <-];
     destruct (IH _ _ eq_refl) as [[Ha ->]|(a0 & op & -> & Ha & Hop)];
     [by left|right; by eexists (_ :: a0), op]).
Qed.

Lemma rfind_app {A} (f : QueryOp -> option A) a b :
  rfind f (a ++ b) = match rfind f b with Some x => Some x | None => rfind f a end.
Proof.
  unfold rfind. rewrite foldl_app. generalize (foldl (fun acc op =>
    match f op with Some a => Some a | None => acc end) None a). intros acc.
  revert acc. induction b as [|op b IH] using rev_ind; intros acc; cbn; [done|].
  rewrite !foldl_app; cbn. destruct (f op); [done|]. apply IH.
Qed.

Lemma rfind_none {A} (f : QueryOp -> option A) ops :
  forallb (fun op => match f op with None => true | Some _ => false end) ops = true ->
  rfind f ops = None /\ count_some f ops = 0.
Proof.
  induction ops as [|op ops IH] using rev_ind; [done|].
  rewrite forallb_app, rfind_app. unfold count_some. rewrite List.filter_app, length_app.
  intros [Ho Hop]%andb_prop. destruct (IH Ho) as [-> Hc]. unfold count_some in Hc.
  cbn in *. destruct (f op) eqn:E; cbn; rewrite ?E; [done|]. by rewrite Hc.
Qed.

Lemma no_limit_takes ops : forallb no_limit ops = true ->
  (rfind as_take ops = None /\ count_some as_take ops = 0) /\
  (rfind as_skip ops = None /\ count_some as_skip ops = 0).
Proof.
  intros H. split; apply rfind_none; rewrite forallb_forall in *; intros op Hop;
    specialize (H op Hop); by destruct op.
Qed.

Lemma gather_filters_app a b :
  gather_filters (a ++ b) =
  foldl (fun expr op => match op with
    | QFilter e => match expr with Some f => Some (mk_and f e) | None => Some e end
    | _ => expr end) (gather_filters a) b.
Proof. apply foldl_app. Qed.

(** ** The segments run like the operators *)

Section Refinement.
Context (like : string -> string -> bool) (le : SortBy -> Sem.row -> Sem.row -> bool).
Context (Htotal : forall s x y, le s x y = true \/ le s y x = true).
Context (Htrans : forall s x y z, le s x y = true -> le s y z = true -> le s x z = true).

Notation keeps := (keeps like).
Notation run_op := (run_op like le).
Notation run_ops := (run_ops like le).
Notation run_segment := (run_segment like le).

Definition filter_opt (e : option Expr) (rows : list Sem.row) : list Sem.row :=
  match e with Some e => List.filter (keeps e) rows | None => rows end.
Definition sort_opt (s : option SortBy) (rows : list Sem.row) : list Sem.row :=
  match s with Some s => sort (le s) rows | None => rows end.

Lemma keeps_and a b r : keeps (mk_and a b) r = keeps a r && keeps b r.
Proof.
  unfold Rows.keeps. rewrite Sem.sat_and.
  destruct (Sem.sat like r a) as [[]|], (Sem.sat like r b) as [[]|]; reflexivity.
Qed.

Lemma filter_filter {A} (p q : A -> bool) l :
  List.filter q (List.filter p l) = List.filter (fun x => p x && q x) l.
Proof. induction l as [|x l IH]; cbn; [done|]. destruct (p x); cbn; [destruct (q x)|]; by rewrite IH. Qed.

Lemma filter_opt_filter e f rows :
  List.filter (keeps f) (filter_opt e rows) =
  filter_opt (match e with Some e => Some (mk_and e f) | None => Some f end) rows.
Proof.
  destruct e as [e|]; cbn; [|done]. rewrite filter_filter. apply List.filter_ext.
  intros r. by rewrite keeps_and.
Qed.

Lemma filter_opt_sort e s rows :
  filter_opt e (sort_opt s rows) = sort_opt s (filter_opt e rows).
Proof.
  destruct e as [e|], s as [s|]; cbn; [|done..].
  apply filter_sort; [apply Htotal|apply Htrans].
Qed.

Definition filter_step (expr : option Expr) (op : QueryOp) : option Expr :=
  match op with
  | QFilter e => match expr with Some f => Some (mk_and f e) | None => Some e end
  | _ => expr
  end.
Definition sort_step (acc : option SortBy) (op : QueryOp) : option SortBy :=
  match as_sort_by op with Some s => Some s | None => acc end.

Definition finish (counted : bool) (rows : list Sem.row) : answer :=
  if counted then Counted (List.length rows) else Rows rows.

Definition has_count (ops : list QueryOp) : bool :=
  match count_position ops with Some _ => true | None => false end.

Lemma has_count_cons op ops : has_count (op :: ops) = match op with QCount => true | _ => has_count ops end.
Proof. unfold has_count; cbn. destruct op; try done; by destruct (count_position ops). Qed.

Definition is_someb {A} (o : option A) : bool := match o with Some _ => true | None => false end.

(** A segment without its limit. *)
Lemma body_runs ops : forall e s rows,
  forallb no_limit ops = true -> count_last ops = true -> sorts_once (is_someb s) ops = true ->
  run_ops ops (Rows (sort_opt s (filter_opt e rows))) =
  finish (has_count ops) (sort_opt (foldl sort_step s ops) (filter_opt (foldl filter_step e ops) rows)).
Proof.
  induction ops as [|op ops IH]; intros e s rows Hlim Hcount Hsort; [done|].
  cbn [forallb] in Hlim. apply andb_prop in Hlim as [Hop Hlim].
  rewrite has_count_cons. destruct op as [f|fs|n|n|k|]; try done.
  - cbn in Hsort. assert (count_last ops = true) as Hc by (by destruct ops).
    change (run_ops (QFilter f :: ops) (Rows (sort_opt s (filter_opt e rows)))) with
      (run_ops ops (Rows (List.filter (keeps f) (sort_opt s (filter_opt e rows))))).
    change (List.filter (keeps f)) with (filter_opt (Some f)) at 1.
    rewrite filter_opt_sort; cbn [filter_opt]. rewrite filter_opt_filter. by apply IH.
  - cbn in Hsort. destruct s as [k'|]; [done|].
    assert (count_last ops = true) as Hc by (by destruct ops).
    exact (IH e (Some k) rows Hlim Hc Hsort).
  - destruct ops; [done|]. done.
Qed.

Lemma count_last_app a op b : no_limit op = false -> count_last (a ++ op :: b) = true ->
  count_last a = true /\ has_count a = false /\ count_last b = true.
Proof.
  intros Hop. induction a as [|x a IH]; cbn [app].
  - intros H. split; [done|split; [done|]]. destruct op; try done; by destruct b.
  - rewrite has_count_cons. intros H.
    assert (x <> QCount) as Hx by (intros ->; by destruct a).
    assert (count_last (a ++ op :: b) = true) as H' by (destruct x; cbn in H; try done; by destruct a).
    destruct (IH H') as (Ha & Hc & Hb).
    split; [|split; [by destruct x|done]]. destruct x; cbn in *; try done; by destruct a.
Qed.

Lemma sorts_once_app seen a op b : no_limit op = false -> forallb no_limit a = true ->
  sorts_once seen (a ++ op :: b) = true ->
  sorts_once seen a = true /\ sorts_once false b = true.
Proof.
  intros Hop. revert seen. induction a as [|x a IH]; intros seen Ha H; cbn [app] in *.
  - split; [done|]. by destruct op.
  - cbn [forallb] in Ha. apply andb_prop in Ha as [Hx Ha].
    destruct x; cbn in *; try done; try (by apply IH).
    apply andb_prop in H as [Hs H]. destruct (IH _ Ha H) as [-> ?]. by rewrite Hs.
Qed.

Lemma segment_runs a rows :
  forallb no_limit a = true -> count_last a = true -> sorts_once false a = true ->
  run_ops a (Rows rows) = run_segment (Rows rows) (segment_of a).
Proof.
  intros Hl Hc Hs. pose proof (body_runs a None None rows Hl Hc Hs) as H. cbn [sort_opt filter_opt] in H.
  rewrite H. unfold Rows.run_segment, segment_of; cbn.
  destruct (no_limit_takes a Hl) as [[-> _] [-> _]]. done.
Qed.

Lemma count_position_snoc a op : no_limit op = false -> has_count a = false ->
  count_position a = None /\ count_position (a ++ [op]) = None.
Proof.
  intros Hop Hn. unfold has_count in Hn. destruct (count_position a) eqn:E; [done|].
  split; [done|]. clear Hn. induction a as [|x a IH]; cbn in *; [by destruct op|].
  destruct x; try done; (destruct (count_position a); [done|]; by rewrite IH).
Qed.

Lemma limit_runs a op rows :
  forallb no_limit a = true -> no_limit op = false -> count_last a = true -> has_count a = false ->
  sorts_once false a = true ->
  run_ops (a ++ [op]) (Rows rows) = run_segment (Rows rows) (segment_of (a ++ [op])).
Proof.
  intros Hl Hop Hc Hn Hs. unfold Rows.run_ops. rewrite foldl_app. fold (run_ops a (Rows rows)).
  rewrite segment_runs by done. unfold Rows.run_segment, segment_of.
  unfold find_last_sort_by. rewrite !rfind_app, gather_filters_app.
  destruct (no_limit_takes a Hl) as [[Ht _] [Hk _]]. rewrite Ht, Hk.
  destruct (count_position_snoc a op Hop Hn) as [-> ->].
  destruct op; try done; cbn; by rewrite ?Hs.
Qed.

Lemma segments_run n : forall ops rows, List.length ops <= n ->
  count_last ops = true -> sorts_once false ops = true ->
  foldl run_segment (Rows rows) (segments_of n ops) = run_ops ops (Rows rows).
Proof.
  induction n as [|n IH]; intros ops rows Hlen Hc Hs.
  { destruct ops; [done|cbn in Hlen; lia]. }
  destruct ops as [|op0 ops0] eqn:Eops; [done|]. rewrite <- Eops in *. assert (ops <> []) as Hne by (by subst).
  assert (segments_of (S n) ops = let '(first, rest) := split_on_first_take ops in
    segment_of first :: segments_of n rest) as -> by (by subst).
  clear Eops op0 ops0. pose proof (split_on_first_take_app ops) as Happ.
  destruct (split_on_first_take ops) as [a b] eqn:E. destruct Happ as [Happ _].
  pose proof (split_shorter _ _ _ Hne E) as Hlt. cbn [foldl].
  destruct (split_shape _ _ _ E) as [[Ha ->]|(a0 & op & -> & Ha & Hop)].
  - rewrite app_nil_r in Happ. subst a. rewrite <- segment_runs by done.
    destruct n; [cbn|]; done.
  - rewrite <- app_assoc in Happ. cbn in Happ. subst ops.
    destruct (count_last_app _ _ _ Hop Hc) as (Hca & Hna & Hcb).
    destruct (sorts_once_app _ _ _ _ Hop Ha Hs) as [Hsa Hsb].
    rewrite <- limit_runs by done.
    replace (a0 ++ op :: b) with ((a0 ++ [op]) ++ b) by (by rewrite <- app_assoc).
    unfold Rows.run_ops at 2. rewrite foldl_app. fold (run_ops (a0 ++ [op]) (Rows rows)).
    assert (exists rows', run_ops (a0 ++ [op]) (Rows rows) = Rows rows') as [rows' ->].
    { rewrite limit_runs by done. unfold Rows.run_segment, segment_of; cbn.
      destruct (count_position_snoc a0 op Hop Hna) as [_ ->]. by eexists. }
    apply IH; [lia|done|done].
Qed.
End Refinement.

(** ** The text is that of the segments *)

Section Text.
Context {FT : FloatText} {QD : QuotedData}.

Definition render_segment (self : QueryPlan) (target : TargetDatabase) (sql : string) (s : segment)
    : result string :=
  filter_string ← make_filter_string self (sg_filter s);
  sort_string ← make_sort_string self (sg_sort s);
  Ok ("SELECT " +:+ (if sg_count s then "COUNT(*)" else "*") +:+ " FROM (" +:+ sql +:+
      ") AS subquery " +:+ filter_string +:+ " " +:+ sort_string +:+ " " +:+
      make_limit_and_offset_string target (sg_limit s) (sg_offset s)).

Definition not_projection (op : QueryOp) : bool := match op with QProjection _ => false | _ => true end.

Lemma contains_count_ok ops b : contains_count ops = Ok b ->
  b = has_count ops /\ (b = true -> exists a, ops = a ++ [QCount] /\ has_count a = false).
Proof.
  unfold contains_count, has_count. destruct (count_position ops) as [p|] eqn:E; intros H; inv_ok; [|done].
  split; [done|]. intros _.
  match goal with Hx : (p =? _) = true |- _ => apply Nat.eqb_eq in Hx; rename Hx into H0 end.
  assert (p < List.length ops /\ ops !! p = Some QCount /\ count_position (take p ops) = None) as (Hp & Hq & Hn).
  { clear H0. revert p E. induction ops as [|op ops IH]; intros p E; [done|]. cbn in E.
    destruct op; [| | | | |by injection E as <-; cbn; repeat split; lia];
      (destruct (count_position ops) as [q|]; [|done]; injection E as <-;
       destruct (IH q eq_refl) as (? & ? & Hn); cbn; rewrite Hn; repeat split; [lia|done]). }
  exists (take p ops). split; [|by rewrite Hn].
  rewrite <- (take_drop p ops) at 1. f_equal. erewrite drop_S by done.
  by rewrite drop_ge by lia.
Qed.

Lemma count_last_none a b : has_count a = false -> forallb not_projection a = true ->
  count_last b = true -> count_last (a ++ b) = true.
Proof.
  intros Hc Hp Hb. induction a as [|x a IH]; [done|]. rewrite has_count_cons in Hc.
  cbn in Hp. apply andb_prop in Hp as [Hx Hp]. cbn [app].
  specialize (IH ltac:(by destruct x) Hp). by destruct x; cbn.
Qed.

Lemma raw_query_loop_spec self target n : forall sql ops fields q,
  raw_query_loop n self target sql ops fields = Ok q -> forallb not_projection ops = true ->
  foldM (render_segment self target) sql (segments_of n ops) = Ok q.1 /\
  count_last ops = true /\ q.2 = if has_count ops then [count_field] else fields.
Proof.
  induction n as [|n IH]; intros sql ops fields q H Hp.
  { destruct ops; [|done]. by injection H as <-. }
  destruct ops as [|op0 ops0] eqn:Eops; [by injection H as <-|].
  cbn [raw_query_loop segments_of] in *. rewrite <- Eops in *. clear Eops.
  pose proof (split_on_first_take_app ops) as Happ.
  destruct (split_on_first_take ops) as [a b]. destruct Happ as [-> _].
  rewrite forallb_app in Hp. apply andb_prop in Hp as [Hpa Hpb].
  apply bind_ok in H as (fs & Hfs & H). apply bind_ok in H as (ss & Hss & H).
  apply bind_ok in H as (limit & Hlimit & H). apply bind_ok in H as (offset & Hoffset & H).
  apply bind_ok in H as (c & Hc & H). apply bind_ok in H as ([sel fields'] & Hsel & H).
  unfold find_take_count in Hlimit. unfold find_skip_count in Hoffset. inv_ok.
  apply contains_count_ok in Hc as [-> Hcount].
  destruct (IH _ _ _ _ H Hpb) as (Htext & Hlast & Hfields).
  assert (forall k, foldM (render_segment self target) sql (segment_of a :: k) =
    foldM (render_segment self target) ("SELECT " +:+ (if has_count a then "COUNT(*)" else "*") +:+
      " FROM (" +:+ sql +:+ ") AS subquery " +:+ fs +:+ " " +:+ ss +:+ " " +:+
      make_limit_and_offset_string target (rfind as_take a) (rfind as_skip a)) k) as ->.
  { intros k. cbn [foldM]. unfold render_segment at 2.
    change (sg_filter (segment_of a)) with (gather_filters a).
    change (sg_sort (segment_of a)) with (find_last_sort_by a). by rewrite Hfs; cbn; rewrite Hss. }
  destruct (has_count a) eqn:Hca.
  - apply bind_unit_ok in Hsel as [Hb [= <- <-]]. apply rust_assert_ok in Hb. destruct b; [|done].
    rewrite app_nil_r. destruct (Hcount eq_refl) as (a' & -> & Ha').
    rewrite forallb_app in Hpa. apply andb_prop in Hpa as [Hpa _].
    split; [exact Htext|]. split; [by apply count_last_none|]. rewrite Hca.
    by destruct n; cbn in H; injection H as <-.
  - injection Hsel as <- <-. split; [exact Htext|]. split; [by apply count_last_none|].
    rewrite Hfields. unfold has_count in Hca |- *. clear -Hca Hpa.
    induction a as [|x a IH]; [done|]. cbn [app].
    change (match count_position (x :: a ++ b) with Some _ => true | None => false end)
      with (has_count (x :: a ++ b)).
    change (match count_position (x :: a) with Some _ => true | None => false end)
      with (has_count (x :: a)) in Hca.
    rewrite has_count_cons in *. cbn in Hpa. apply andb_prop in Hpa as [_ Hpa].
    destruct x; try done; by apply IH.
Qed.

(** *** No panic *)

Lemma get_property_chain_spec p o : is_panic (get_property_chain p o) = false /\
  (forall l, get_property_chain p o = Ok l -> l <> []).
Proof.
  revert p. induction o as [v|n|p' o IH|a _ op b _|e _]; intros p; cbn; try done.
  { split; [done|]. by intros l [= <-]. }
  destruct (IH p') as [Hp Hl]. destruct (get_property_chain p' o) as [l| |]; cbn in *; try done.
  split; [done|]. intros l' [= <-]. by destruct l.
Qed.

Lemma walk_properties_no_panic rest : forall e field, is_panic (walk_properties e field rest) = false.
Proof.
  induction rest as [|next rest IH]; intros e field; cbn; [done|].
  destruct (alist_get _ _) as [j|]; cbn; [|done].
  destruct (check_field (j_entity j) next) as [| |] eqn:E; cbn; [apply IH|done|].
  unfold check_field in E. by destruct (qe_has_field _ _).
Qed.

Lemma filter_expr_no_panic self e : is_panic (filter_expr_to_string self e) = false.
Proof.
  induction e as [v|n|p o _|a IHa op b IHb|e IH]; cbn [filter_expr_to_string]; try done.
  - unfold property_expr_to_string. destruct (get_property_chain_spec p o) as [Hp Hl].
    destruct (get_property_chain p o) as [[|f rest]| |]; cbn in *; try done; [by destruct (Hl [] eq_refl)|].
    unfold check_field. destruct (qe_has_field _ _); cbn; [|done].
    pose proof (walk_properties_no_panic rest (entity self) f) as Hw.
    by destruct (walk_properties _ _ _) as [[]| |].
  - by repeat (apply is_panic_bind; [done|]; intros ? _).
  - by apply is_panic_bind.
Qed.

Lemma make_filter_string_no_panic self e : is_panic (make_filter_string self e) = false.
Proof. destruct e; [|done]. apply is_panic_bind; [apply filter_expr_no_panic|done]. Qed.

Lemma make_sort_string_no_panic self s : is_panic (make_sort_string self s) = false.
Proof.
  destruct s as [s|]; [|done]. apply is_panic_bind; [|done].
  apply foldM_no_panic with (P := fun _ => True); [done| |done].
  intros tokens k _ _. by destruct (negb _).
Qed.

Lemma limits_once a b ops : split_on_first_take ops = (a, b) ->
  (count_some as_take a <=? 1) = true /\ (count_some as_skip a <=? 1) = true.
Proof.
  intros H. destruct (split_shape _ _ _ H) as [[Ha _]|(a0 & op & -> & Ha & Hop)];
    destruct (no_limit_takes _ Ha) as [[_ Ht] [_ Hs]].
  - by rewrite Ht, Hs.
  - unfold count_some in *. rewrite !List.filter_app, !length_app, Ht, Hs. by destruct op.
Qed.

Lemma contains_count_last a b : count_last (a ++ b) = true -> a <> [] ->
  contains_count a = Ok (has_count a) /\ (has_count a = true -> b = []) /\ count_last b = true.
Proof.
  intros H Ha. unfold contains_count, has_count.
  assert (match count_position a with
    | Some p => p = List.length a - 1 /\ b = [] | None => count_last b = true end) as Hpos.
  { induction a as [|x a IH]; [done|]. cbn [app count_position] in *.
    destruct a as [|y a].
    - cbn in *. destruct x; cbn in *; try done; by destruct b.
    - specialize (IH ltac:(by destruct x) ltac:(done)).
      destruct x; cbn [app] in *; try done;
        (destruct (count_position (y :: a)) as [p|]; cbn [fmap option_fmap option_map];
         [destruct IH as [-> ->]; cbn; split; [lia|done]|done]). }
  destruct (count_position a) as [p|]; [|done]. destruct Hpos as [-> ->].
  by rewrite Nat.eqb_refl.
Qed.

Lemma raw_query_loop_no_panic self target n : forall sql ops fields,
  List.length ops <= n -> count_last ops = true ->
  is_panic (raw_query_loop n self target sql ops fields) = false.
Proof.
  induction n as [|n IH]; intros sql ops fields Hlen Hc.
  { destruct ops; [done|cbn in Hlen; lia]. }
  destruct ops as [|op0 ops0] eqn:Eops; [done|]. cbn [raw_query_loop]. rewrite <- Eops in *.
  assert (ops <> []) as Hne by (by subst). clear Eops.
  pose proof (split_on_first_take_app ops) as Happ.
  destruct (split_on_first_take ops) as [a b] eqn:E. destruct Happ as [-> Hane].
  specialize (Hane Hne). pose proof (split_shorter _ _ _ Hne E) as Hlt.
  destruct (limits_once _ _ _ E) as [Ht Hs].
  destruct (contains_count_last _ _ Hc Hane) as (Hcc & Hb & Hcb).
  apply is_panic_bind; [apply make_filter_string_no_panic|intros fs _].
  apply is_panic_bind; [apply make_sort_string_no_panic|intros ss _].
  unfold find_take_count, find_skip_count. rewrite Ht, Hs, Hcc. cbn [rust_assert mbind outcome_bind].
  destruct (has_count a); [rewrite Hb by done|]; cbn; apply IH; try done; cbn; lia.
Qed.
End Text.

(** ** What the policies add to every plan *)

Section Guards.
Context {RL : RegexLib} {ML : MethodLib}.

(** What [push_operators] makes of two pushes. *)
Lemma push_push self a b : push_operators (push_operators self a) b = push_operators self (a ++ b).
Proof. unfold push_operators; cbn. by rewrite app_assoc. Qed.

Lemma push_nil self : push_operators self [] = self.
Proof. destruct self; unfold push_operators; cbn. by rewrite app_nil_r. Qed.

(** The conditions the login policies put on the rows of a type: for every
    property chain of nested entities that ends in an [AuthUser] field with a
    login label, the chain is the current user. *)
Inductive login_obligation (ctx : DataContext) : Entity -> Expr -> Expr -> Prop :=
  | lo_user ty chain field user_ty :
      field ∈ all_fields (object_type ty) ->
      ctx_get ctx (fld_type_id field) = Ok (TEntity user_ty) ->
      entity_name user_ty = AUTH_USER_NAME ->
      fld_name field ∈ fp_match_login (ctx_field_policies ctx ty) ->
      login_obligation ctx ty chain
        (mk_eq (EProperty (fld_name field) chain)
          (EValue (VString (default "NULL" (ctx_user_id ctx)))))
  | lo_nested ty chain field nested_ty e :
      field ∈ all_fields (object_type ty) ->
      ctx_get ctx (fld_type_id field) = Ok (TEntity nested_ty) ->
      entity_name nested_ty <> AUTH_USER_NAME ->
      login_obligation ctx nested_ty (EProperty (fld_name field) chain) e ->
      login_obligation ctx ty chain e.

Lemma field_policies_user ctx ty : fp_current_userid (ctx_field_policies ctx ty) = ctx_user_id ctx.
Proof. exact (po_user _ _ _ _ _ (make_field_policies_from _ _ _ _)). Qed.

Definition field_obligation ctx (ty : Entity) (chain : Expr) (field : Field) (e : Expr) : Prop :=
  exists t, ctx_get ctx (fld_type_id field) = Ok (TEntity t) /\
    ((entity_name t = AUTH_USER_NAME /\ fld_name field ∈ fp_match_login (ctx_field_policies ctx ty) /\
      e = mk_eq (EProperty (fld_name field) chain)
            (EValue (VString (default "NULL" (ctx_user_id ctx))))) \/
     (entity_name t <> AUTH_USER_NAME /\
      login_obligation ctx t (EProperty (fld_name field) chain) e)).

Lemma login_obligation_fields ctx ty chain e : login_obligation ctx ty chain e <->
  exists field, field ∈ all_fields (object_type ty) /\ field_obligation ctx ty chain field e.
Proof.
  split.
  - destruct 1 as [? ? field t Hf Ht Hn Hm|? ? field t e Hf Ht Hn He];
      exists field; (split; [done|]); exists t; (split; [done|]); [left|right]; auto.
  - intros (field & Hf & t & Ht & [(Hn & Hm & ->)|(Hn & He)]); [by econstructor|].
    by eapply lo_nested.
Qed.

Lemma login_filters_spec fuel : forall ctx self ty chain self',
  add_login_filters_recursive fuel ctx self ty chain = Ok self' ->
  exists fs, self' = push_operators self (QFilter <$> fs) /\
    forall e, e ∈ fs <-> login_obligation ctx ty chain e.
Proof.
  induction fuel as [|fuel IH]; intros ctx self ty chain self' H; [done|].
  cbn [add_login_filters_recursive] in H.
  assert (exists fs, self' = push_operators self (QFilter <$> fs) /\
    forall e, e ∈ fs <-> exists field, field ∈ all_fields (object_type ty) /\
      field_obligation ctx ty chain field e) as (fs & -> & Hfs).
  2: { exists fs. split; [done|]. intros e. by rewrite Hfs, login_obligation_fields. }
  revert H. apply (foldM_inv _ (fun fields s => exists fs, s = push_operators self (QFilter <$> fs) /\
    forall e, e ∈ fs <-> exists field, field ∈ fields /\ field_obligation ctx ty chain field e)).
  - exists []. split; [by rewrite push_nil|]. set_solver.
  - intros fields field s1 s2 (fs & -> & Hfs) H.
    enough (exists gs, s2 = push_operators self (QFilter <$> (fs ++ gs)) /\
      forall e, e ∈ gs <-> field_obligation ctx ty chain field e) as (gs & -> & Hgs).
    { exists (fs ++ gs). split; [done|]. intros e. rewrite elem_of_app, Hfs, Hgs. set_solver. }
    unfold login_filter in H. apply bind_ok in H as (t & Ht & H).
    assert (forall t', ctx_get ctx (fld_type_id field) = Ok (TEntity t') -> t = TEntity t') as Hty
      by (intros; congruence).
    destruct t as [| | | | |t|n|t];
      try (injection H as <-; exists []; rewrite app_nil_r; split; [done|];
           intros e; split; [set_solver|intros (t' & Ht' & _)]; by apply Hty in Ht').
    destruct (String.eqb_spec (entity_name t) AUTH_USER_NAME) as [Hn|Hn].
    + rewrite field_policies_user in H. injection H as <-. case_bool_decide as Hm.
      * eexists [_]. rewrite push_push, fmap_app. split; [done|]. intros e.
        rewrite list_elem_of_singleton. split.
        -- intros ->. exists t. split; [done|]. left. by destruct (ctx_user_id ctx).
        -- intros (t' & Ht' & [(_ & _ & ->)|[Hn' _]]); [by destruct (ctx_user_id ctx)|].
           apply Hty in Ht' as [= <-]. done.
      * exists []. rewrite app_nil_r. split; [done|]. intros e. split; [set_solver|].
        intros (t' & Ht' & [(_ & Hm' & _)|[Hn' _]]); [done|]. by apply Hty in Ht' as [= <-].
    + apply IH in H as (gs & -> & Hgs). exists gs. rewrite push_push, fmap_app.
      split; [done|]. intros e. rewrite Hgs. split.
      * intros He. exists t. split; [done|]. by right.
      * intros (t' & Ht' & [[Hn' _]|[_ He]]); apply Hty in Ht' as [= <-]; done.
Qed.

(** ** What loading an entity does to the plan *)

(** The plan grows: columns are appended, the rest but the counter is kept. *)
Definition grows (p q : QueryPlan) : Prop :=
  (exists cs, columns q = columns p ++ cs) /\ operators q = operators p /\
  allowed_fields q = allowed_fields p /\ entity q = entity p /\ join_counter p <= join_counter q.

Lemma grows_refl p : grows p p.
Proof. repeat split; [by exists []; rewrite app_nil_r|done]. Qed.

Lemma grows_trans p q r : grows p q -> grows q r -> grows p r.
Proof.
  intros ([c1 H1] & H2 & H3 & H4 & H5) ([c2 H6] & H7 & H8 & H9 & H10).
  split; [exists (c1 ++ c2); by rewrite H6, H1, app_assoc|]. repeat split; congruence || lia.
Qed.

(** A column that holds a field of an entity. *)
Definition column_for (cs : list Column) (alias : string) (f : Field) (idx : nat) : Prop :=
  cs !! idx = Some {| col_name := fld_name f; col_table_name := alias; col_field := f |}.

(** How a policy shows a field: transformed or as it is, kept or left out. *)
Definition field_mask (fp : FieldPolicies) (f : Field)
    : option (EntityValue -> EntityValue) * KeepOrOmitField :=
  (fp_transforms fp !! fld_name f,
   if bool_decide (fld_name f ∈ fp_omit fp) then OmitField else Keep).

(** Every field of a loaded entity is fed by its own column: a scalar by the
    column of that field in the entity's table, an entity by the join on that
    field, loaded in the same way; and it is shown as the policies of the
    entity say. *)
Inductive field_ok (P : QueriedEntity -> Prop) (ctx : DataContext) (fp : FieldPolicies)
    (cs : list Column) (alias : string) (joins : list (string * Join)) (f : Field)
    : QueryField -> Prop :=
  | fo_scalar idx :
      column_for cs alias f idx ->
      field_ok P ctx fp cs alias joins f
        (QfScalar (fld_name f) (fld_type_id f) (fld_is_optional f) idx (field_mask fp f).1
           (field_mask fp f).2)
  | fo_entity e :
      ctx_get ctx (fld_type_id f) = Ok (TEntity (qe_ty e)) ->
      alist_get (fld_name f) joins = Some (MkJoin e (fld_name f) "id") ->
      P e ->
      field_ok P ctx fp cs alias joins f
        (QfEntity (fld_name f) (fld_is_optional f) (field_mask fp f).1 (field_mask fp f).2
           (qe_fields e)).

Inductive entity_ok (ctx : DataContext) (cs : list Column) : QueriedEntity -> Prop :=
  | entity_ok_intro fields ty alias joins :
      Forall2 (field_ok (entity_ok ctx cs) ctx (ctx_field_policies ctx ty) cs alias joins)
        (all_fields (object_type ty)) fields ->
      entity_ok ctx cs (MkEntity fields ty alias joins).

Lemma column_for_app cs cs' alias f idx :
  column_for cs alias f idx -> column_for (cs ++ cs') alias f idx.
Proof. unfold column_for. intros H. by rewrite lookup_app_l by (eapply lookup_lt_Some; exact H). Qed.

Lemma field_ok_impl (P Q : QueriedEntity -> Prop) ctx fp cs cs' alias joins joins' f qf :
  (forall e, P e -> Q e) ->
  alist_get (fld_name f) joins' = alist_get (fld_name f) joins ->
  field_ok P ctx fp cs alias joins f qf -> field_ok Q ctx fp (cs ++ cs') alias joins' f qf.
Proof.
  intros HPQ Hj. destruct 1; constructor; [by apply column_for_app|done|congruence|by apply HPQ].
Qed.

Lemma entity_ok_app ctx cs cs' : forall e, entity_ok ctx cs e -> entity_ok ctx (cs ++ cs') e.
Proof.
  fix rec 2. intros e [fields ty alias joins Hf]. constructor.
  induction Hf as [|f qf fs qfs Hqf _ IH]; constructor; [|exact IH].
  destruct Hqf as [idx Hc|e' Ht Hj He'].
  - constructor. by apply column_for_app.
  - constructor; [exact Ht|exact Hj|]. exact (rec e' He').
Qed.

(** Field names are distinct in every type the version can resolve. *)
Definition distinct_fields (ty : Entity) : Prop := NoDup (fld_name <$> all_fields (object_type ty)).
Definition models_distinct (ctx : DataContext) : Prop :=
  (forall t ty, ctx_get ctx t = Ok (TEntity ty) -> distinct_fields ty) /\
  (forall n ty, lookup_entity (ctx_type_system ctx) n = Ok ty -> distinct_fields ty).

Lemma make_scalar_field_grows self f table tr ko self' qf :
  make_scalar_field self f table tr ko = (self', qf) ->
  grows self self' /\
  qf = QfScalar (fld_name f) (fld_type_id f) (fld_is_optional f) (List.length (columns self)) tr ko /\
  column_for (columns self') table f (List.length (columns self)).
Proof.
  intros [= <- <-]. repeat split; cbn; [by eexists|done|].
  unfold column_for. by rewrite lookup_app_r, Nat.sub_diag by lia.
Qed.

(** What one turn of the loop over the fields leaves. *)
Definition loop_inv (ctx : DataContext) (fp : FieldPolicies) (alias : string) (self0 : QueryPlan) (fs : list Field)
    (s : QueryPlan * list QueryField * list (string * Join)) : Prop :=
  let '(self, fields, joins) := s in
  grows self0 self /\
  Forall2 (field_ok (entity_ok ctx (columns self)) ctx fp (columns self) alias joins) fs fields.

Lemma loop_inv_next ctx fp alias self0 fs f self fields joins self' joins' qf :
  loop_inv ctx fp alias self0 fs (self, fields, joins) -> fld_name f ∉ fld_name <$> fs ->
  grows self self' ->
  (forall n, n <> fld_name f -> alist_get n joins' = alist_get n joins) ->
  field_ok (entity_ok ctx (columns self')) ctx fp (columns self') alias joins' f qf ->
  loop_inv ctx fp alias self0 (fs ++ [f]) (self', fields ++ [qf], joins').
Proof.
  intros [Hg Hall] Hf Hg' Hother Hqf. split; [by eapply grows_trans|].
  apply Forall2_app; [|by constructor]. destruct Hg' as ([cs Hcs] & _).
  clear Hqf. rewrite Hcs. induction Hall as [|g qg gs qgs Hqg _ IH]; constructor.
  - eapply field_ok_impl; [by apply entity_ok_app| |exact Hqg]. apply Hother.
    intros Heq. apply Hf. rewrite <- Heq. apply list_elem_of_here.
  - apply IH. intros Hin. apply Hf. by apply list_elem_of_further.
Qed.

Lemma load_field_inv ctx fp alias load self0 fs f s s' :
  (forall p t table p' e, ctx_get ctx (fld_type_id f) = Ok (TEntity t) ->
     load p t table = Ok (p', e) ->
     grows p p' /\ qe_ty e = t /\ entity_ok ctx (columns p') e) ->
  fld_name f ∉ fld_name <$> fs ->
  loop_inv ctx fp alias self0 fs s -> load_field ctx fp alias load s f = Ok s' ->
  loop_inv ctx fp alias self0 (fs ++ [f]) s'.
Proof.
  intros Hload Hf. destruct s as [[self fields] joins]. intros Hinv H.
  unfold load_field in H. apply bind_ok in H as (t & Ht & H).
  set (tr := fp_transforms fp !! fld_name f) in *.
  set (ko := if bool_decide (fld_name f ∈ fp_omit fp) then OmitField else Keep) in *.
  assert (forall self' qf, make_scalar_field self f alias tr ko = (self', qf) ->
    loop_inv ctx fp alias self0 (fs ++ [f]) (self', fields ++ [qf], joins)) as Hscalar.
  { intros self' qf Hm. apply make_scalar_field_grows in Hm as (Hg & -> & Hc).
    eapply loop_inv_next; try done. by constructor. }
  destruct t as [| | | | |t|n|t];
    try (destruct (make_scalar_field self f alias tr ko) as [self' qf] eqn:Hm;
         injection H as <-; by apply Hscalar).
  clear Hscalar.
  destruct (make_scalar_field (set_join_counter self (S (join_counter self))) f alias tr ko)
    as [self2 qf0] eqn:Hm.
  apply make_scalar_field_grows in Hm as (Hg2 & _).
  apply bind_ok in H as ([self3 e] & He & [= <-]).
  destruct (Hload _ _ _ _ _ Ht He) as (Hg3 & Hty & Hok).
  assert (grows self self3) as Hg.
  { apply (grows_trans _ (set_join_counter self (S (join_counter self))));
      [|by apply (grows_trans _ self2)].
    repeat split; cbn; [by exists []; rewrite app_nil_r|lia]. }
  eapply loop_inv_next; try done.
  - intros n Hn. rewrite alist_get_insert. by destruct (String.eqb_spec n (fld_name f)).
  - constructor; [by rewrite Hty| |done]. by rewrite alist_get_insert, String.eqb_refl.
Qed.

Lemma load_entity_spec fuel : forall ctx self ty alias self' e,
  models_distinct ctx -> distinct_fields ty ->
  load_entity_recursive fuel ctx self ty alias = Ok (self', e) ->
  grows self self' /\ qe_ty e = ty /\ entity_ok ctx (columns self') e.
Proof.
  induction fuel as [|fuel IH]; intros ctx self ty alias self' e Hmodels Hty H; [done|].
  cbn [load_entity_recursive] in H. apply bind_ok in H as ([[self1 fields] joins] & H & [= <- <-]).
  enough (loop_inv ctx (ctx_field_policies ctx ty) alias self (all_fields (object_type ty)) (self1, fields, joins)) as [Hg Hall]
    by (split; [done|split; [done|by constructor]]).
  unfold distinct_fields in Hty. revert Hty.
  refine (foldM_inv _ (fun fs s => NoDup (fld_name <$> fs) -> loop_inv ctx (ctx_field_policies ctx ty) alias self fs s)
    _ _ _ _ _ H).
  - intros _. split; [apply grows_refl|constructor].
  - intros fs f s1 s2 Hinv Hs Hnd. rewrite fmap_app in Hnd.
    apply NoDup_app in Hnd as (Hnd & Hf & _).
    eapply load_field_inv; [|..|exact (Hinv Hnd)|exact Hs].
    + intros p t table p' e Ht Hl. apply (IH _ _ _ _ _ _ Hmodels (proj1 Hmodels _ _ Ht) Hl).
    + intros Hin. apply (Hf _ Hin). cbn. apply list_elem_of_here.
Qed.

(** Without the distinctness of names, what is kept of the plan. *)
Lemma load_entity_kept fuel : forall ctx self ty alias self' e,
  load_entity_recursive fuel ctx self ty alias = Ok (self', e) -> grows self self' /\ qe_ty e = ty.
Proof.
  induction fuel as [|fuel IH]; intros ctx self ty alias self' e H; [done|].
  cbn [load_entity_recursive] in H. apply bind_ok in H as ([[self1 fields] joins] & H & [= <- <-]).
  split; [|done].
  refine (foldM_inv _ (fun _ s => grows self s.1.1) _ (self, [], []) _ (grows_refl self) _ H).
  intros fs f [[p fields0] joins0] s2 Hg Hs. cbn in Hg. eapply grows_trans; [exact Hg|].
  unfold load_field in Hs. apply bind_ok in Hs as (t & Ht & Hs).
  assert (forall self', set_join_counter p (S (join_counter p)) = self' -> grows p self') as Hcount.
  { intros ? <-. repeat split; cbn; [by exists []; rewrite app_nil_r|lia]. }
  destruct (make_scalar_field (set_join_counter p (S (join_counter p))) f alias _ _) as [p2 qf] eqn:Hm.
  destruct (make_scalar_field p f alias _ _) as [p3 qf3] eqn:Hm3.
  apply make_scalar_field_grows in Hm as (Hg2 & _), Hm3 as (Hg3 & _).
  destruct t as [| | | | |t|n|t]; try (by injection Hs as <-).
  apply bind_ok in Hs as ([p4 e4] & He & [= <-]). cbn.
  apply (grows_trans _ _ _ (Hcount _ eq_refl)). apply (grows_trans _ _ _ Hg2). by eapply IH.
Qed.

Lemma load_entity_guards fuel ctx ty plan e :
  load_entity fuel ctx (QueryPlan_new ty) ty = Ok (plan, e) ->
  qe_ty e = ty /\ allowed_fields plan = None /\
  (models_distinct ctx -> distinct_fields ty -> entity_ok ctx (columns plan) e) /\
  exists guards, operators plan = QFilter <$> guards /\
    (forall g, login_obligation ctx ty (EParameter 0) g -> g ∈ guards) /\
    (feat_typescript_policies ctx = true ->
     forall g, make_read_filter_expr ctx (object_type ty) = Ok (Some g) -> g ∈ guards).
Proof.
  unfold load_entity. intros H. apply bind_ok in H as (p1 & Hp1 & H).
  apply bind_ok in H as (p2 & Hp2 & H).
  apply login_filters_spec in Hp2 as (fs & -> & Hfs).
  destruct (load_entity_kept _ _ _ _ _ _ _ H) as ((_ & Hops & Hallowed & _) & Hty).
  assert (exists gs, p1 = push_operators (QueryPlan_new ty) (QFilter <$> gs) /\
    (feat_typescript_policies ctx = true ->
      forall g, make_read_filter_expr ctx (object_type ty) = Ok (Some g) -> g ∈ gs))
    as (gs & -> & Hgs).
  { destruct (feat_typescript_policies ctx).
    - unfold add_read_filters in Hp1. apply bind_ok in Hp1 as ([g|] & Hg & [= <-]).
      + exists [g]. split; [done|]. intros _ g' Hg'. rewrite Hg' in Hg. injection Hg as ->.
        apply list_elem_of_here.
      + exists []. split; [by rewrite push_nil|]. intros _ g' Hg'. by rewrite Hg' in Hg.
    - injection Hp1 as <-. exists []. split; [by rewrite push_nil|done]. }
  split; [done|]. split; [by rewrite Hallowed|]. split.
  { intros Hm Hd. by destruct (load_entity_spec _ _ _ _ _ _ _ Hm Hd H) as (_ & _ & ?). }
  exists (gs ++ fs). rewrite Hops. cbn [operators push_operators QueryPlan_new app].
  split; [by rewrite fmap_app|]. split.
  - intros g Hg. apply elem_of_app. right. by apply Hfs.
  - intros Hfeat g Hg. apply elem_of_app. left. by apply Hgs.
Qed.

Lemma run_guards like le gs ops rows :
  run_ops like le ((QFilter <$> gs) ++ ops) (Rows rows) =
  run_ops like le ops (Rows (List.filter (fun r => forallb (fun g => keeps like g r) gs) rows)).
Proof.
  revert rows. induction gs as [|g gs IH]; intros rows; cbn [fmap list_fmap app forallb].
  - f_equal. f_equal. induction rows; cbn; [done|]. by f_equal.
  - change (run_ops like le (QFilter g :: (QFilter <$> gs) ++ ops) (Rows rows)) with
      (run_ops like le ((QFilter <$> gs) ++ ops) (Rows (List.filter (keeps like g) rows))).
    rewrite IH. f_equal. f_equal. apply filter_filter.
Qed.

Lemma extend_operators_ops plan ops :
  operators (extend_operators plan ops) = operators plan ++ List.filter not_projection ops /\
  columns (extend_operators plan ops) = columns plan /\
  entity (extend_operators plan ops) = entity plan.
Proof.
  unfold extend_operators, process_projections; cbn.
  assert (forall l p, let q := foldl (fun self op => match op with
      | QProjection fields => set_allowed_fields self (Some (list_to_set fields))
      | QCount => set_allowed_fields self None | _ => self end) p l in
    operators q = operators p /\ columns q = columns p /\ entity q = entity p) as Hfold.
  { induction l as [|op l IH]; intros p; [done|]. cbn.
    destruct op as [e|fields|n|n|k|]; try apply IH.
    - by destruct (IH (set_allowed_fields p (Some (list_to_set fields)))) as (-> & -> & ->).
    - by destruct (IH (set_allowed_fields p None)) as (-> & -> & ->). }
  by destruct (Hfold ops plan) as (-> & -> & ->).
Qed.

(** The entities a context can resolve; acyclic models: every entity field of
    one leads to one of a smaller rank, and every field's type resolves. *)
Definition resolvable (ctx : DataContext) (ty : Entity) : Prop :=
  (exists t, ctx_get ctx t = Ok (TEntity ty)) \/
  (exists n, lookup_entity (ctx_type_system ctx) n = Ok ty).

Definition acyclic (ctx : DataContext) (rank : Entity -> nat) : Prop :=
  forall ty field, resolvable ctx ty -> field ∈ all_fields (object_type ty) ->
    exists t, ctx_get ctx (fld_type_id field) = Ok t /\
      forall nested, t = TEntity nested -> rank nested < rank ty.

Lemma foldM_total {E S A} (f : S -> A -> outcome E S) l s :
  (forall s x, x ∈ l -> exists s', f s x = Ok s') -> exists s', foldM f s l = Ok s'.
Proof.
  revert s. induction l as [|x l IH]; intros s Hf; cbn; [by eexists|].
  destruct (Hf s x (list_elem_of_here _ _)) as [s1 ->]. cbn. apply IH.
  intros s2 y Hy. apply Hf. by apply list_elem_of_further.
Qed.

Lemma login_filters_total fuel : forall ctx rank self ty chain,
  acyclic ctx rank -> resolvable ctx ty -> rank ty < fuel ->
  exists self', add_login_filters_recursive fuel ctx self ty chain = Ok self'.
Proof.
  induction fuel as [|fuel IH]; intros ctx rank self ty chain Hac Hres Hr; [lia|].
  cbn [add_login_filters_recursive]. apply foldM_total. intros s f Hf.
  destruct (Hac ty f Hres Hf) as (t & Ht & Hrank). unfold login_filter. rewrite Ht. cbn.
  destruct t as [| | | | |t|n|t]; try by eexists.
  destruct (String.eqb _ _); [by eexists|]. apply (IH _ rank); [done|left; by eexists|].
  specialize (Hrank t eq_refl). lia.
Qed.

Lemma load_entity_total fuel : forall ctx rank self ty alias,
  acyclic ctx rank -> resolvable ctx ty -> rank ty < fuel ->
  exists r, load_entity_recursive fuel ctx self ty alias = Ok r.
Proof.
  induction fuel as [|fuel IH]; intros ctx rank self ty alias Hac Hres Hr; [lia|].
  cbn [load_entity_recursive].
  edestruct (foldM_total (load_field ctx (ctx_field_policies ctx ty) alias
    (load_entity_recursive fuel ctx)) (all_fields (object_type ty)) (self, [], [])) as [s' ->].
  2: { cbn. destruct s' as [[? ?] ?]. by eexists. }
  intros [[p fields] joins] f Hf. destruct (Hac ty f Hres Hf) as (t & Ht & Hrank).
  unfold load_field. rewrite Ht. cbn [mbind outcome_bind].
  destruct t as [| | | | |t|n|t]; try (by eexists).
  cbn zeta. destruct (make_scalar_field _ _ _ _ _) as [p2 qf].
  destruct (IH ctx rank p2 t (join_table (join_counter p) t)) as [[p3 e] ->];
    [done|left; by eexists|specialize (Hrank t eq_refl); lia|]. by eexists.
Qed.
End Guards.

(** ** Properties *)

Section Properties.
Context {RL : RegexLib} {ML : MethodLib} {FT : FloatText} {QD : QuotedData}.

(** Printing a plan never panics: whatever the operators, the assertions on
    limits hold of every segment, and the ones on counts hold as soon as no
    operator follows a count. *)
Theorem build_query_no_panic plan target :
  count_last (operators plan) = true -> is_panic (build_query plan target) = false.
Proof.
  intros Hc. unfold build_query, make_raw_query.
  apply is_panic_bind; [by apply raw_query_loop_no_panic|]. by intros [].
Qed.

(** The guards of a plan: filters in front of its operators, among which is
    every condition the login labels put on the type and on the entities nested
    in it, and the type's read filter. *)
Definition guards_of (ctx : DataContext) (ty : Entity) (guards : list Expr) : Prop :=
  (forall g, login_obligation ctx ty (EParameter 0) g -> g ∈ guards) /\
  (feat_typescript_policies ctx = true ->
   forall g, make_read_filter_expr ctx (object_type ty) = Ok (Some g) -> g ∈ guards).

Definition guarded_by (guards : list Expr) (plan : QueryPlan) (ops : list QueryOp) : Prop :=
  operators plan = (QFilter <$> guards) ++ List.filter not_projection ops.

Lemma from_ops_guarded fuel ctx ty ops plan : from_ops fuel ctx ty ops = Ok plan ->
  exists guards, guards_of ctx ty guards /\ guarded_by guards plan ops.
Proof.
  unfold from_ops. intros H. apply bind_ok in H as ([b e] & Hl & [= <-]).
  destruct (load_entity_guards _ _ _ _ _ Hl) as (_ & _ & _ & guards & Hops & Hlogin & Hread).
  exists guards. split; [by split|]. unfold guarded_by.
  destruct (extend_operators_ops (set_entity b e) ops) as [-> _]. by cbn; rewrite Hops.
Qed.

Lemma from_entity_name_guarded fuel ctx name plan : from_entity_name fuel ctx name = Ok plan ->
  exists ty guards, lookup_entity (ctx_type_system ctx) name = Ok ty /\ guards_of ctx ty guards /\
    operators plan = QFilter <$> guards.
Proof.
  unfold from_entity_name. intros H. apply bind_ok in H as (ty & Hty & H).
  apply with_context_ok, map_err_ok in Hty. apply bind_ok in H as ([b e] & Hl & [= <-]).
  destruct (load_entity_guards _ _ _ _ _ Hl) as (_ & _ & _ & guards & Hops & Hlogin & Hread).
  exists ty, guards. by repeat split.
Qed.

Lemma from_op_chain_guarded fuel ctx chain plan : from_op_chain fuel ctx chain = Ok plan ->
  exists name ops ty guards, convert_ops chain = Ok (name, ops) /\
    lookup_entity (ctx_type_system ctx) name = Ok ty /\ guards_of ctx ty guards /\
    guarded_by guards plan ops.
Proof.
  unfold from_op_chain. intros H. apply bind_ok in H as ([name ops] & Hc & H).
  apply bind_ok in H as (b & Hb & [= <-]).
  destruct (from_entity_name_guarded _ _ _ _ Hb) as (ty & guards & Hty & Hg & Hops).
  exists name, ops, ty, guards. repeat split; [done..|apply Hg|apply Hg|]. unfold guarded_by.
  destruct (extend_operators_ops b ops) as [-> _]. by rewrite Hops.
Qed.

Lemma delete_guarded fuel ctx name filter_expr m : delete_from_expr fuel ctx name filter_expr = Ok m ->
  exists ty guards, lookup_entity (ctx_type_system ctx) name = Ok ty /\ guards_of ctx ty guards /\
    guarded_by guards (filter_query_plan m)
      (match filter_expr with Some e => [QFilter e] | None => [] end).
Proof.
  unfold delete_from_expr. intros H. apply bind_ok in H as (ty0 & _ & H).
  apply bind_ok in H as (b & Hb & [= <-]).
  destruct (from_entity_name_guarded _ _ _ _ Hb) as (ty & guards & Hty & Hg & Hops).
  exists ty, guards. repeat split; [done|apply Hg|apply Hg|]. unfold guarded_by. cbn [filter_query_plan].
  destruct filter_expr as [e|].
  - destruct (extend_operators_ops b [QFilter e]) as [-> _]. by rewrite Hops.
  - by rewrite Hops, app_nil_r.
Qed.

Lemma guarded_runs like le guards plan ops rows : guarded_by guards plan ops ->
  run_ops like le (operators plan) (Rows rows) =
  run_ops like le (List.filter not_projection ops)
    (Rows (List.filter (fun r => forallb (fun g => keeps like g r) guards) rows)).
Proof. unfold guarded_by. intros ->. apply run_guards. Qed.

(** C4: no query and no deletion escapes the login and read policies.  Running
    the plan of any operator chain, or of any operators on a type, is running
    those operators on the rows that satisfy a list of guards, among which is
    every condition the login labels put on the type and on the entities nested
    in it, and the type's read filter; and the rows a deletion selects satisfy
    the same guards. *)
Theorem policies_guard_plans fuel ctx like le rows :
  let guarded ty plan ops :=
    exists guards, guards_of ctx ty guards /\
      run_ops like le (operators plan) (Rows rows) =
        run_ops like le (List.filter not_projection ops)
          (Rows (List.filter (fun r => forallb (fun g => keeps like g r) guards) rows)) in
  (forall chain plan, from_op_chain fuel ctx chain = Ok plan ->
     exists name ops ty, convert_ops chain = Ok (name, ops) /\
       lookup_entity (ctx_type_system ctx) name = Ok ty /\ guarded ty plan ops) /\
  (forall ty ops plan, from_ops fuel ctx ty ops = Ok plan -> guarded ty plan ops) /\
  (forall name filter_expr m, delete_from_expr fuel ctx name filter_expr = Ok m ->
     exists ty, lookup_entity (ctx_type_system ctx) name = Ok ty /\
     guarded ty (filter_query_plan m)
       (match filter_expr with Some e => [QFilter e] | None => [] end)).
Proof.
  intros guarded. assert (forall ty guards plan ops, guards_of ctx ty guards ->
    guarded_by guards plan ops -> guarded ty plan ops) as Hrun.
  { intros ty guards plan ops Hg Hby. exists guards. split; [done|]. by apply guarded_runs. }
  split; [|split].
  - intros chain plan H. apply from_op_chain_guarded in H as (name & ops & ty & guards & ? & ? & ? & ?).
    exists name, ops, ty. eauto.
  - intros ty ops plan H. apply from_ops_guarded in H as (guards & ? & ?). eauto.
  - intros name e m H. apply delete_guarded in H as (ty & guards & ? & ? & ?). eauto.
Qed.

Lemma loaded_entity_ok fuel ctx ty p e :
  models_distinct ctx -> distinct_fields ty ->
  load_entity fuel ctx (QueryPlan_new ty) ty = Ok (p, e) -> entity_ok ctx (columns p) e.
Proof.
  intros Hmodels Hty Hl. destruct (load_entity_guards _ _ _ _ _ Hl) as (_ & _ & Hok & _). by apply Hok.
Qed.

Lemma op_chain_entity_ok fuel ctx chain plan :
  models_distinct ctx -> from_op_chain fuel ctx chain = Ok plan ->
  entity_ok ctx (columns plan) (entity plan).
Proof.
  intros Hmodels H. unfold from_op_chain in H. apply bind_ok in H as ([name ops] & Hc & H).
  apply bind_ok in H as (b & Hb & [= <-]). destruct (extend_operators_ops b ops) as (_ & -> & ->).
  unfold from_entity_name in Hb. apply bind_ok in Hb as (ty & Hty & Hb).
  apply with_context_ok, map_err_ok in Hty. apply bind_ok in Hb as ([p e] & Hl & [= <-]). cbn.
  destruct (load_entity_guards _ _ _ _ _ Hl) as (_ & _ & Hok & _).
  apply Hok; [done|]. by eapply Hmodels.
Qed.

(** In the plan of an operator chain every property of the result is fed by
    its own column: a scalar by the column of that field in the table of its
    entity, a nested entity by the join on that field, loaded in the same way
    down to the leaves; and every property is transformed or left out exactly as
    the policies of its entity say. *)
Theorem plan_columns_correct fuel ctx chain plan :
  models_distinct ctx -> from_op_chain fuel ctx chain = Ok plan ->
  entity_ok ctx (columns plan) (entity plan).
Proof. apply op_chain_entity_ok. Qed.

(** Building a plan terminates on acyclic models: given a rank that entity
    fields decrease, any fuel beyond the rank of the type is enough, and a chain
    whose filters translate and whose base entity exists always gets a plan. *)
Theorem from_op_chain_total fuel ctx rank chain name ops ty :
  acyclic ctx rank -> feat_typescript_policies ctx = false ->
  convert_ops chain = Ok (name, ops) -> lookup_entity (ctx_type_system ctx) name = Ok ty ->
  rank ty < fuel ->
  exists plan, from_op_chain fuel ctx chain = Ok plan.
Proof.
  intros Hac Hfeat Hc Hty Hr. unfold from_op_chain, from_entity_name, load_entity.
  assert (resolvable ctx ty) as Hres by (right; by eexists).
  rewrite Hc; cbn. rewrite Hty; cbn. rewrite Hfeat; cbn.
  destruct (login_filters_total fuel ctx rank (QueryPlan_new ty) ty (EParameter 0) Hac Hres Hr)
    as [p ->].
  cbn. destruct (load_entity_total fuel ctx rank p ty (backing_table ty) Hac Hres Hr) as [[p' e] ->].
  cbn. by eexists.
Qed.
End Properties.

(** The chain that wraps an operator around another, and the operators it
    stands for. *)
Definition chain_op (op : QueryOp) (inner : QueryOpChain) : QueryOpChain :=
  match op with
  | QFilter e => OpFilter e inner
  | QProjection fields => OpProjection fields inner
  | QTake n => OpTake n inner
  | QSkip n => OpSkip n inner
  | QSortBy s => OpSortBy (keys s) inner
  | QCount => OpCount inner
  end.

(** Converting a chain lists its operators from the innermost, next to the
    base entity, to the outermost; every list of operators is that of a chain,
    and a chain of JSON filters has the operators of the filters' translations. *)
Theorem convert_ops_roundtrip name ops :
  convert_ops (foldl (fun inner op => chain_op op inner) (OpBaseEntity name) ops) = Ok (name, ops) /\
  (forall j inner n ops' e, convert_ops inner = Ok (n, ops') -> to_expr j = Ok e ->
     convert_ops (OpExpressionFilter j inner) = Ok (n, ops' ++ [QFilter e])).
Proof.
  split.
  - induction ops as [|op ops IH] using rev_ind; [done|]. rewrite foldl_app. cbn.
    destruct op as [e|fs|n|n|[k]|]; cbn; by rewrite IH.
  - intros j inner n ops' e Hi He. cbn. by rewrite He; cbn; rewrite Hi.
Qed.

(** Column aliases are not cut to the 63 bytes of a Postgres identifier,
    only table aliases are: for a table name that already has 63 bytes, all the
    columns of the table have one and the same alias as far as Postgres is
    concerned. *)
Theorem column_aliases_collide c1 c2 :
  col_table_name c1 = col_table_name c2 -> 63 <= String.length (col_table_name c1) ->
  truncate_identifier (alias_to_string (column_alias c1)) =
  truncate_identifier (alias_to_string (column_alias c2)).
Proof.
  intros Heq Hlen. unfold truncate_identifier, alias_to_string, column_alias; cbn. rewrite <- Heq.
  by rewrite !(max_prefix_app (col_table_name c1) "_"%char).
Qed.

(** ** Witnesses *)

Module Sample.
Definition the_field (name : string) (ty : TypeId) (labels : list string) : Field :=
  {| fld_id := None; fld_name := name; fld_type_id := ty; fld_labels := labels;
     fld_is_optional := false; fld_is_unique := false; fld_default := None;
     fld_effective_default := None; fld_version_id := "dev" |}.

(** A blog post with an owner that must be the user. *)
Definition post : Entity := Custom
  {| obj_meta_id := None; obj_name := "Post";
     obj_fields := [the_field "title" IdString []; the_field "age" IdFloat [];
                    the_field "owner" (IdEntity "AuthUser" "__chiselstrike") ["mine"]];
     obj_indexes := []; obj_chisel_id := the_chisel_id; obj_backing_table := "ty_Post";
     obj_version_id := "dev" |}.

Definition ctx : DataContext (RL := Policies.Sample.regexes) (ML := Policies.Sample.http_methods) :=
  {| ctx_type_system := {| custom_types := {["Post" := post]};
       builtin := {| types := builtin_table |}; ts_version_id := "dev" |};
     ctx_policy_system :=
       {| labels := {["mine" := {| kind := MatchLogin;
            except_uri := "/public" : @Regex Policies.Sample.regexes |}]};
          user_authorization := user_authorization Policies.Sample.system;
          secret_authorization := secret_authorization Policies.Sample.system |};
     ctx_user_id := Some "u1"; ctx_path := Some "/posts"; feat_typescript_policies := false;
     make_read_filter_expr _ := Ok None |}.

Definition rank (e : Entity) : nat := if String.eqb (entity_name e) "Post" then 1 else 0.

Definition floats : FloatText := {| f64_parse _ := None; f64_display _ := "0" |}.
Definition quotes : QuotedData := {| quoted_data s := "'" +:+ s +:+ "'" |}.

Definition ops : list QueryOp :=
  [QFilter (mk_eq (EProperty "title" (EParameter 0)) (EValue (VString "x")));
   QSortBy {| keys := [{| field_name := "age"; ascending := true |}] |}; QTake 3; QSkip 1; QCount].

Definition chain : QueryOpChain :=
  foldl (fun inner op => chain_op op inner) (OpBaseEntity "Post") ops.

Definition age (r : Sem.row) : Z := match r ["age"] with VI64 n => n | _ => 0%Z end.
Definition by_age (s : SortBy) (x y : Sem.row) : bool := (age x <=? age y)%Z.

Lemma by_age_total s x y : by_age s x y = true \/ by_age s y x = true.
Proof. unfold by_age. rewrite !Z.leb_le. lia. Qed.
Lemma by_age_trans s x y z : by_age s x y = true -> by_age s y z = true -> by_age s x z = true.
Proof. unfold by_age. rewrite !Z.leb_le. lia. Qed.

Definition plan : QueryPlan :=
  match from_op_chain (RL := Policies.Sample.regexes) (ML := Policies.Sample.http_methods)
    2 ctx chain with Ok p => p | _ => QueryPlan_new post end.

Lemma plan_ok : from_op_chain (RL := Policies.Sample.regexes) (ML := Policies.Sample.http_methods)
  2 ctx chain = Ok plan.
Proof.
  assert (is_ok (from_op_chain (RL := Policies.Sample.regexes)
    (ML := Policies.Sample.http_methods) 2 ctx chain) = true) as H by (vm_compute; reflexivity).
  unfold plan. by destruct (from_op_chain _ _ _).
Qed.

Lemma builtin_entities_distinct :
  forallb (fun kv => match kv.2 with
    | TEntity e =>
        bool_decide (NoDup (fld_name <$> all_fields (object_type e))) &&
        forallb (fun f => match fld_type_id f with
          | IdString | IdFloat | IdJsDate | IdArrayBuffer | IdId => true | _ => false end)
          (all_fields (object_type e)) && negb (String.eqb (entity_name e) "Post")
    | _ => true end) (map_to_list builtin_table) = true.
Proof. vm_compute. reflexivity. Qed.

(** The entities of the sample: a built-in one, with distinct scalar fields, or
    the post. *)
Lemma sample_entities ty : entity_source (ctx_type_system ctx) ty ->
  ty = post \/
  (NoDup (fld_name <$> all_fields (object_type ty)) /\ rank ty = 0 /\
   Forall (fun f => match fld_type_id f with
     | IdString | IdFloat | IdJsDate | IdArrayBuffer | IdId => true | _ => false end = true)
     (all_fields (object_type ty))).
Proof.
  intros [[n Hn]|[n Hn]].
  - right. pose proof (proj1 (forallb_map_to_list _ _) builtin_entities_distinct n _ Hn) as H.
    cbn [snd] in H. apply andb_prop in H as [H Hpost]. apply andb_prop in H as [Hd Hf].
    apply bool_decide_eq_true in Hd. split; [done|]. split.
    + unfold rank. by destruct (String.eqb (entity_name ty) "Post").
    + apply Forall_forall. rewrite forallb_forall in Hf. intros f Hin. by apply Hf, list_elem_of_In.
  - left. cbn in Hn. by apply lookup_singleton_Some in Hn as [_ <-].
Qed.

Lemma ts_ok : ts_wf (ctx_type_system ctx).
Proof.
  split; [apply BuiltinTypes_new_ok|]. intros n e. cbn. by intros [<- <-]%lookup_singleton_Some.
Qed.

Lemma resolvable_source ty : resolvable ctx ty -> entity_source (ctx_type_system ctx) ty.
Proof.
  intros [[t Ht]|[n Hn]].
  - apply map_err_ok in Ht. by eapply get_entity_source; [apply ts_ok|].
  - by eapply lookup_entity_source; [apply ts_ok|].
Qed.

Lemma ctx_distinct : models_distinct ctx.
Proof.
  assert (forall ty, resolvable ctx ty -> distinct_fields ty) as H.
  { intros ty Hty. destruct (sample_entities _ (resolvable_source _ Hty)) as [->|[? _]]; [|done].
    apply (bool_decide_unpack _). vm_compute. exact I. }
  split; intros x ty Hx; apply H; [left|right]; by exists x.
Qed.

Lemma ctx_acyclic : acyclic ctx rank.
Proof.
  intros ty f Hty Hf. destruct (sample_entities _ (resolvable_source _ Hty)) as [->|(_ & Hr & Hall)].
  - assert (exists t, ctx_get ctx (fld_type_id f) = Ok t) as [t Ht].
    { repeat (apply elem_of_cons in Hf as [->|Hf]; [eexists; vm_compute; reflexivity|]).
      by apply not_elem_of_nil in Hf. }
    exists t. split; [done|]. intros nested ->.
    destruct (sample_entities nested (resolvable_source _ (or_introl (ex_intro _ _ Ht))))
      as [->|(_ & -> & _)]; [|vm_compute; lia].
    exfalso. revert Ht. clear Hty.
    repeat (apply elem_of_cons in Hf as [->|Hf]; [vm_compute; discriminate|]).
    by apply not_elem_of_nil in Hf.
  - rewrite Forall_forall in Hall. specialize (Hall f Hf). pose proof builtin_scalars as Hsc.
    assert (exists t, ctx_get ctx (fld_type_id f) = Ok t /\ forall e, t <> TEntity e) as (t & Ht & Hne).
    { destruct (fld_type_id f); try done; eexists; (split; [vm_compute; reflexivity|done]). }
    exists t. split; [done|]. intros e ->. by destruct (Hne e).
Qed.
End Sample.

Lemma build_query_no_panic_witness :
  is_panic (build_query (FT := Sample.floats) (QD := Sample.quotes) Sample.plan Postgres) = false.
Proof.
  apply (build_query_no_panic (FT := Sample.floats) (QD := Sample.quotes)).
  vm_compute. reflexivity.
Defined.

Lemma plan_columns_correct_witness :
  entity_ok Sample.ctx (columns Sample.plan) (entity Sample.plan).
Proof. exact (plan_columns_correct 2 Sample.ctx Sample.chain _ Sample.ctx_distinct Sample.plan_ok). Defined.

Lemma from_op_chain_total_witness :
  exists p, from_op_chain (RL := Policies.Sample.regexes) (ML := Policies.Sample.http_methods)
    5 Sample.ctx Sample.chain = Ok p.
Proof.
  apply (from_op_chain_total 5 Sample.ctx Sample.rank Sample.chain "Post" Sample.ops Sample.post
    Sample.ctx_acyclic); [reflexivity|reflexivity|reflexivity|]. vm_compute. lia.
Defined.

Lemma column_aliases_collide_witness :
  let t := "JOIN0_AVeryLongEntityNameIndeed_TO_AVeryLongEntityNameIndeed_TO" in
  let c f := {| col_name := f; col_table_name := t; col_field := the_chisel_id |} in
  truncate_identifier (alias_to_string (column_alias (c "name"))) =
  truncate_identifier (alias_to_string (column_alias (c "email"))).
Proof. intros t c. apply column_aliases_collide; [reflexivity|]. vm_compute. lia. Defined.
