(* ===== verification/SqlSpec.v ===== *)
(** * The SQL text of a plan says what the plan's operators do

    [Module Statement] is a small SQL, written down independently of the code: a
    [SELECT] over a subquery with its condition on named columns, its sort keys
    with their directions, its limit, its offset and its count; the text it has
    in each database; and what it does to a table, row by row.  The text
    [build_query] prints is that of a nest of such statements around the core
    [SELECT], and running them gives what the operators of the plan give, one
    after the other. *)

From S2P Require Import Prelude Json Expr Filter Ident EntityValue Types Builtin TypeSystem Policies Query Sql QuerySpec.
Import QuerySpec.Rows.

(** ** Statements *)

Module Statement.

(** A row as the database has it: the value of every column, by its alias. *)
Definition srow := string -> Value.

Inductive condition :=
  | Literal (v : Value)
  | ColumnNamed (name : string)
  | Compare (a : condition) (op : BinaryOp) (b : condition)
  | Not (c : condition).

Inductive direction := Ascending | Descending.

Record select := {
  sel_where : option condition;
  sel_order : option (list (string * direction));
  sel_limit : option Z;
  sel_offset : option Z;
  sel_count : bool;
}.

Inductive table :=
  | Table (rows : list srow)
  | Count (n : nat).

(** *** Text *)
Section Text.
Context {FT : FloatText} {QD : QuotedData}.

Definition between_quotes (s : string) : string := dquote +:+ s +:+ dquote.

Definition literal_text (v : Value) : string :=
  match v with
  | VNull => "NULL"
  | VBool true => "true"
  | VBool false => "false"
  | VU64 n => pretty n
  | VI64 n => pretty n
  | VF64 f => f64_display f
  | VString s => quoted_data s
  end.

Definition operator_text (op : BinaryOp) : string :=
  match op with
  | OpAnd => "AND" | OpOr => "OR"
  | OpEq => "=" | OpNotEq => "!="
  | OpGt => ">" | OpLt => "<" | OpGtEq => ">=" | OpLtEq => "<="
  | OpLike => "LIKE" | OpNotLike => "NOT LIKE"
  end.

Fixpoint condition_text (c : condition) : string :=
  match c with
  | Literal v => literal_text v
  | ColumnNamed name => between_quotes name
  | Compare a op b => "(" +:+ condition_text a +:+ " " +:+ operator_text op +:+ " " +:+ condition_text b +:+ ")"
  | Not c => "NOT (" +:+ condition_text c +:+ ")"
  end.

Definition key_text (k : string * direction) : string :=
  between_quotes k.1 +:+ match k.2 with Ascending => " ASC" | Descending => " DESC" end.

(** Sqlite has no [OFFSET] without a [LIMIT]; its [LIMIT a,b] is the offset and
    then the limit, and a negative limit is none. *)
Definition limits_text (target : TargetDatabase) (limit offset : option Z) : string :=
  match limit, offset with
  | None, None => " "
  | Some n, None => "LIMIT " +:+ pretty n +:+ " "
  | Some n, Some m => "LIMIT " +:+ pretty n +:+ " OFFSET " +:+ pretty m
  | None, Some m =>
      match target with
      | Postgres => " OFFSET " +:+ pretty m
      | Sqlite => "LIMIT " +:+ pretty m +:+ ",-1"
      end
  end.

(** The statement over the subquery [sql]. *)
Definition select_text (target : TargetDatabase) (sql : string) (s : select) : string :=
  "SELECT " +:+ (if sel_count s then "COUNT(*)" else "*") +:+ " FROM (" +:+ sql +:+ ") AS subquery " +:+
  match sel_where s with Some c => "WHERE " +:+ condition_text c | None => "" end +:+ " " +:+
  match sel_order s with Some ks => "ORDER BY " +:+ str_join ", " (key_text <$> ks) | None => "" end +:+ " " +:+
  limits_text target (sel_limit s) (sel_offset s).
End Text.

(** *** Meaning *)
Section Meaning.
(** [LIKE], and the database's order of values. *)
Context (like : string -> string -> bool) (vle : Value -> Value -> bool).

Fixpoint value_of (r : srow) (c : condition) : Value :=
  match c with
  | Literal v => v
  | ColumnNamed name => r name
  | Compare a op b => Sem.eval like (fun _ => VNull) (EBinary (EValue (value_of r a)) op (EValue (value_of r b)))
  | Not c => Sem.of_tri (Sem.tri_not (Sem.truth (value_of r c)))
  end.

Definition holds (c : condition) (r : srow) : bool := bool_decide (value_of r c = VBool true).

(** The first key decides, and the next ones decide between its equals. *)
Fixpoint lexicographic {A} (orders : list (A -> A -> bool)) (x y : A) : bool :=
  match orders with
  | [] => true
  | le :: orders => if le x y then (if le y x then lexicographic orders x y else true) else false
  end.

Definition directed (d : direction) (a b : Value) : bool :=
  match d with Ascending => vle a b | Descending => vle b a end.

Definition ordered (ks : list (string * direction)) : srow -> srow -> bool :=
  lexicographic ((fun k x y => directed k.2 (x k.1) (y k.1)) <$> ks).

(** [WHERE], then [ORDER BY], then [OFFSET], then [LIMIT]. *)
Definition run_select (t : table) (s : select) : table :=
  match t with
  | Count n => Count n
  | Table rows =>
      let rows := match sel_where s with Some c => List.filter (holds c) rows | None => rows end in
      let rows := match sel_order s with Some ks => sort (ordered ks) rows | None => rows end in
      let rows := match sel_offset s with Some m => drop (Z.to_nat m) rows | None => rows end in
      let rows := match sel_limit s with Some n => take (Z.to_nat n) rows | None => rows end in
      if sel_count s then Count (List.length rows) else Table rows
  end.

(** The order of a plan's sort keys, on the rows the operators see. *)
Definition by_keys (s : SortBy) : Sem.row -> Sem.row -> bool :=
  lexicographic ((fun k x y =>
    directed (if ascending k then Ascending else Descending) (x [field_name k]) (y [field_name k])) <$> keys s).
End Meaning.

(** *** The rows of a plan *)

(** The column of a property chain: of the last property, in the table the
    joins of the others lead to. *)
Fixpoint column_at (e : QueriedEntity) (path : list string) : option string :=
  match path with
  | [] => None
  | [f] => Some (qe_table_alias e +:+ "_" +:+ f)
  | f :: path =>
      match alist_get f (qe_joins e) with
      | Some j => column_at (j_entity j) path
      | None => None
      end
  end.

(** What the operators see of a row of the core [SELECT]. *)
Definition view (plan : QueryPlan) (r : srow) : Sem.row := fun path =>
  match column_at (entity plan) path with Some name => r name | None => VNull end.

Definition view_table (plan : QueryPlan) (t : table) : answer :=
  match t with Table rows => Rows (view plan <$> rows) | Count n => Counted n end.
End Statement.
Import Statement.

(** ** Orders *)

Section Orders.
Context {A : Type}.
Implicit Types (le : A -> A -> bool) (orders : list (A -> A -> bool)).

Definition total le : Prop := forall x y, le x y = true \/ le y x = true.
Definition transitive le : Prop := forall x y z, le x y = true -> le y z = true -> le x z = true.

Lemma lexicographic_total orders : Forall total orders -> total (lexicographic orders).
Proof.
  induction 1 as [|le orders Hle _ IH]; intros x y; [by left|]. cbn.
  destruct (le x y) eqn:E1, (le y x) eqn:E2; auto. destruct (Hle x y); congruence.
Qed.

Lemma lexicographic_transitive orders : Forall transitive orders -> transitive (lexicographic orders).
Proof.
  induction 1 as [|le orders Hle _ IH]; intros x y z; [done|]. cbn. intros H1 H2.
  destruct (le x y) eqn:Exy; [|done]. destruct (le y z) eqn:Eyz; [|done].
  rewrite (Hle x y z) by done. destruct (le z x) eqn:Ezx; [|done].
  rewrite (Hle z x y) in H2 by done. rewrite (Hle y z x) in H1 by done. by eapply IH.
Qed.

(** Sorting rows and seeing them through a function. *)
Lemma insert_sorted_map {B} (f : A -> B) le (le' : B -> B -> bool) x l :
  (forall a b, le' (f a) (f b) = le a b) ->
  insert_sorted le' (f x) (f <$> l) = f <$> insert_sorted le x l.
Proof.
  intros H. induction l as [|y l IH]; [done|]. cbn. rewrite H. destruct (le x y); [done|]. cbn. by f_equal.
Qed.
Lemma sort_map {B} (f : A -> B) le (le' : B -> B -> bool) l :
  (forall a b, le' (f a) (f b) = le a b) -> sort le' (f <$> l) = f <$> sort le l.
Proof.
  intros H. induction l as [|x l IH]; [done|]. cbn. unfold sort in IH. rewrite IH. by apply insert_sorted_map.
Qed.
Lemma filter_map {B} (f : A -> B) (p : A -> bool) (q : B -> bool) l :
  (forall a, q (f a) = p a) -> List.filter q (f <$> l) = f <$> List.filter p l.
Proof. intros H. induction l as [|x l IH]; [done|]. cbn. rewrite H, IH. by destruct (p x). Qed.
End Orders.

Section DirectedOrders.
Context (vle : Value -> Value -> bool).

Lemma directed_total d : total vle -> total (directed vle d).
Proof. intros H x y. destruct d; [apply H|]. cbn. destruct (H x y); auto. Qed.
Lemma directed_transitive d : transitive vle -> transitive (directed vle d).
Proof. intros H x y z. destruct d; cbn; [apply H|]. intros H1 H2. by apply (H z y x). Qed.

Lemma by_keys_order s : total vle -> transitive vle -> total (by_keys vle s) /\ transitive (by_keys vle s).
Proof.
  intros Ht Hr. unfold by_keys.
  split; [apply lexicographic_total|apply lexicographic_transitive]; apply Forall_fmap, Forall_forall;
    intros k _ x y; [|intros z]; [by apply directed_total|by apply directed_transitive].
Qed.
End DirectedOrders.

(** ** The statement of a segment *)

(** A plan whose conditions print the columns of the core [SELECT]. *)
Definition rooted (plan : QueryPlan) : Prop := qe_table_alias (entity plan) = backing_table (base_type plan).

(** Operators that have a meaning in SQL: conditions on the properties of the
    entity, sorts with a key, limits and offsets a database takes. *)
Definition in_sql (op : QueryOp) : bool :=
  match op with
  | QFilter e => expr_wf e
  | QSortBy s => match keys s with [] => false | _ => true end
  | QTake n | QSkip n => (0 <=? n)%Z && (n <? 2 ^ 63)%Z
  | QProjection _ => false
  | QCount => true
  end.

Section Segments.
Context {FT : FloatText} {QD : QuotedData}.
Implicit Types (plan : QueryPlan).

Lemma chain_of_property p o l : get_property_chain p o = Ok l -> is_chain o = true ->
  Sem.chain (EProperty p o) = Some l /\ l <> [].
Proof.
  revert p l. induction o as [v|n|p' o IH|a _ op b _|e _]; intros p l; cbn; try done.
  - destruct n; [|done]. by intros [= <-].
  - intros H Hc. apply bind_ok in H as (l' & H & [= <-]). destruct (IH _ _ H Hc) as [Hl _]. cbn in Hl.
    rewrite Hl. split; [done|]. by destruct l'.
Qed.

Lemma walk_column rest : forall e f e' f', walk_properties e f rest = Ok (e', f') ->
  column_at e (f :: rest) = Some (qe_table_alias e' +:+ "_" +:+ f').
Proof.
  induction rest as [|g rest IH]; intros e f e' f' H; [by injection H as <- <-|].
  cbn [walk_properties] in H. apply bind_ok in H as (j & Hj & H). apply bind_ok in H as (u & _ & H).
  change (column_at e (f :: g :: rest)) with
    (match alist_get f (qe_joins e) with Some j => column_at (j_entity j) (g :: rest) | None => None end).
  destruct (alist_get f (qe_joins e)) as [j'|]; [|done]. injection Hj as ->. by apply IH.
Qed.

Lemma property_column plan p o t : property_expr_to_string plan p o = Ok t -> is_chain o = true ->
  exists path name, Sem.chain (EProperty p o) = Some path /\ column_at (entity plan) path = Some name /\
    t = between_quotes name.
Proof.
  intros H Hc. unfold property_expr_to_string in H. apply bind_ok in H as (l & Hl & H).
  destruct (chain_of_property _ _ _ Hl Hc) as [Hchain Hne]. destruct l as [|f rest]; [done|].
  apply bind_ok in H as (u & _ & H). apply bind_ok in H as ([e' f'] & Hw & [= <-]).
  do 2 eexists. split; [exact Hchain|]. split; [by apply walk_column|done].
Qed.

(** The condition a filter is printed as. *)
Lemma filter_condition plan e : forall t, filter_expr_to_string plan e = Ok t -> expr_wf e = true ->
  exists c, t = condition_text c /\ forall like r, value_of like r c = Sem.eval like (view plan r) e.
Proof.
  induction e as [v|n|p o _|a IHa op b IHb|e IH]; intros t H Hwf; cbn [filter_expr_to_string] in H; cbn in Hwf.
  - injection H as <-. exists (Literal v). split; [by destruct v as [[]| | | | |]|done].
  - done.
  - destruct (property_column _ _ _ _ H Hwf) as (path & name & Hc & Hn & ->).
    exists (ColumnNamed name). split; [done|]. intros like r. cbn in Hc |- *.
    destruct (Sem.chain o) as [c|]; [|done]. cbn in Hc. injection Hc as ->. unfold view. by rewrite Hn.
  - apply andb_prop in Hwf as [Hwa Hwb]. apply bind_ok in H as (la & Ha & H). apply bind_ok in H as (lb & Hb & [= <-]).
    destruct (IHa _ Ha Hwa) as (ca & -> & Hva). destruct (IHb _ Hb Hwb) as (cb & -> & Hvb).
    exists (Compare ca op cb). split; [by destruct op|]. intros like r. cbn [value_of]. rewrite Hva, Hvb. by destruct op.
  - apply bind_ok in H as (le & He & [= <-]). destruct (IH _ He Hwf) as (c & -> & Hv).
    exists (Not c). split; [done|]. intros like r. cbn. by rewrite Hv.
Qed.

Definition direction_of (ascending : bool) : direction := if ascending then Ascending else Descending.
Definition order_of plan (s : SortBy) : list (string * direction) :=
  (fun k => (backing_table (base_type plan) +:+ "_" +:+ field_name k, direction_of (ascending k))) <$> keys s.

Lemma sort_text plan s t : make_sort_string plan (Some s) = Ok t ->
  t = "ORDER BY " +:+ str_join ", " (key_text <$> order_of plan s).
Proof.
  unfold make_sort_string. intros H. apply bind_ok in H as (tokens & Ht & [= <-]).
  enough (tokens = key_text <$> order_of plan s) as -> by done. unfold order_of. revert Ht. apply (foldM_inv _ (fun ks tokens => tokens = key_text <$>
    ((fun k => (backing_table (base_type plan) +:+ "_" +:+ field_name k, direction_of (ascending k))) <$> ks)));
    [done|].
  intros ks k tokens1 tokens2 -> H. destruct (negb _); [done|]. injection H as <-.
  rewrite !fmap_app. cbn. do 2 f_equal. unfold key_text, alias_to_string. cbn. unfold between_quotes, quoted.
  by destruct (ascending k).
Qed.

Lemma order_view plan vle s : rooted plan -> forall x y,
  by_keys vle s (view plan x) (view plan y) = ordered vle (order_of plan s) x y.
Proof.
  intros Hroot x y. unfold by_keys, ordered, order_of. induction (keys s) as [|k ks IH]; [done|]. cbn.
  change (list_fmap ?A ?B ?f ?l) with (fmap (M := list) f l) in *.
  unfold direction_of. by rewrite Hroot, IH.
Qed.

Lemma gathered_wf ops e : forallb in_sql ops = true -> gather_filters ops = Some e -> expr_wf e = true.
Proof.
  revert e. induction ops as [|op ops IH] using rev_ind; intros e; [done|].
  rewrite forallb_app, gather_filters_app. cbn. rewrite andb_true_r. intros [Ho Hop]%andb_prop.
  destruct op as [f| | | | |]; try by apply IH.
  destruct (gather_filters ops) as [g|]; intros [= <-]; [|done]. cbn. apply andb_true_intro; eauto.
Qed.

Lemma where_clause plan ops fs : forallb in_sql ops = true ->
  make_filter_string plan (gather_filters ops) = Ok fs ->
  exists w, fs = match w with Some c => "WHERE " +:+ condition_text c | None => "" end /\
    forall like rows, filter_opt like (gather_filters ops) (view plan <$> rows) =
      view plan <$> match w with Some c => List.filter (holds like c) rows | None => rows end.
Proof.
  intros Hops H. destruct (gather_filters ops) as [e|] eqn:E; cbn in H; [|injection H as <-; by exists None].
  apply bind_ok in H as (t & Ht & [= <-]).
  assert (expr_wf e = true) as Hwf by (by eapply gathered_wf).
  assert (exists c, t = condition_text c /\ forall like r, value_of like r c = Sem.eval like (view plan r) e)
    as (c & -> & Hc) by (by apply filter_condition).
  exists (Some c). split; [done|]. intros like rows. apply filter_map. intros r.
  unfold keeps, holds, Sem.sat. rewrite Hc. apply bool_decide_ext.
  destruct (Sem.eval like (view plan r) e) as [[]| | | | |]; cbn; naive_solver.
Qed.

Lemma order_clause plan ops ss : rooted plan ->
  make_sort_string plan (find_last_sort_by ops) = Ok ss ->
  exists o, ss = match o with Some ks => "ORDER BY " +:+ str_join ", " (key_text <$> ks) | None => "" end /\
    forall vle rows, sort_opt (by_keys vle) (find_last_sort_by ops) (view plan <$> rows) =
      view plan <$> match o with Some ks => sort (ordered vle ks) rows | None => rows end.
Proof.
  intros Hroot H. destruct (find_last_sort_by ops) as [s|]; [|injection H as <-; by exists None].
  exists (Some (order_of plan s)). split; [by apply sort_text|]. intros vle rows.
  apply sort_map. by apply order_view.
Qed.

Lemma limits_clause target limit offset :
  make_limit_and_offset_string target limit offset = limits_text target limit offset.
Proof. by destruct target, limit, offset. Qed.

(** The statement a segment is printed as: the text, and what it does. *)
Lemma segment_statement plan target ops sql t :
  rooted plan -> forallb in_sql ops = true ->
  render_segment plan target sql (segment_of ops) = Ok t ->
  exists stmt, t = select_text target sql stmt /\
    forall like vle tb, view_table plan (run_select like vle tb stmt) =
      run_segment like (by_keys vle) (view_table plan tb) (segment_of ops).
Proof.
  intros Hroot Hops H. unfold render_segment in H. cbn [sg_filter sg_sort sg_limit sg_offset sg_count segment_of] in H.
  apply bind_ok in H as (fs & Hfs & H). apply bind_ok in H as (ss & Hss & [= <-]).
  apply where_clause in Hfs as (w & -> & Hw); [|done]. apply order_clause in Hss as (o & -> & Ho); [|done].
  exists {| sel_where := w; sel_order := o; sel_limit := rfind as_take ops; sel_offset := rfind as_skip ops;
    sel_count := has_count ops |}.
  split; [by rewrite limits_clause|]. intros like vle tb. destruct tb as [rows|n]; [|done].
  unfold run_segment, run_select. cbn [sel_where sel_order sel_limit sel_offset sel_count view_table
    sg_filter sg_sort sg_limit sg_offset sg_count segment_of].
  specialize (Hw like rows). unfold filter_opt in Hw. rewrite Hw.
  specialize (Ho vle (match w with Some c => List.filter (holds like c) rows | None => rows end)).
  unfold sort_opt in Ho. rewrite Ho. unfold has_count.
  destruct (rfind as_skip ops), (rfind as_take ops), (count_position ops); cbn;
    by rewrite ?fmap_take, ?fmap_drop, ?length_fmap, ?length_take, ?length_drop, ?length_fmap.
Qed.

Lemma split_in_sql ops a b : split_on_first_take ops = (a, b) -> forallb in_sql ops = true ->
  forallb in_sql a = true /\ forallb in_sql b = true.
Proof.
  intros E. pose proof (split_on_first_take_app ops) as H. rewrite E in H. destruct H as [-> _].
  rewrite forallb_app. apply andb_prop.
Qed.

(** The statements of the segments. *)
Lemma segments_statements plan target n : forall ops sql t,
  rooted plan -> forallb in_sql ops = true ->
  foldM (render_segment plan target) sql (segments_of n ops) = Ok t ->
  exists stmts, t = foldl (select_text target) sql stmts /\
    forall like vle tb, view_table plan (foldl (run_select like vle) tb stmts) =
      foldl (run_segment like (by_keys vle)) (view_table plan tb) (segments_of n ops).
Proof.
  induction n as [|n IH]; intros ops sql t Hroot Hops H.
  { destruct ops; injection H as <-; by exists []. }
  destruct ops as [|op0 ops0] eqn:Eops; [injection H as <-; by exists []|].
  cbn [segments_of] in *. rewrite <- Eops in *. clear Eops.
  destruct (split_on_first_take ops) as [a b] eqn:E. destruct (split_in_sql _ _ _ E Hops) as [Ha Hb].
  cbn [foldM] in H. apply bind_ok in H as (t1 & H1 & H).
  apply segment_statement in H1 as (stmt & -> & Hstmt); [|done..].
  apply IH in H as (stmts & -> & Hstmts); [|done..].
  exists (stmt :: stmts). split; [done|]. intros like vle tb. cbn. by rewrite Hstmts, Hstmt.
Qed.
End Segments.

(** ** Properties *)

Section Properties.
Context {RL : RegexLib} {ML : MethodLib} {FT : FloatText} {QD : QuotedData}.

(** The plans of operator chains and of operators on a type are rooted. *)
Lemma load_entity_rooted fuel ctx ty p e : load_entity fuel ctx (QueryPlan_new ty) ty = Ok (p, e) ->
  rooted (set_entity p e).
Proof.
  unfold load_entity. intros H. apply bind_ok in H as (p1 & _ & H). apply bind_ok in H as (p2 & _ & H).
  unfold rooted, base_type. cbn. destruct fuel as [|fuel]; [done|]. cbn [load_entity_recursive] in H.
  by apply bind_ok in H as ([[self fields] joins] & _ & [= _ <-]).
Qed.

Lemma extend_rooted plan ops : rooted plan -> rooted (extend_operators plan ops).
Proof. unfold rooted, base_type. by destruct (extend_operators_ops plan ops) as (_ & _ & ->). Qed.

Lemma built_rooted fuel ctx : (forall chain plan, from_op_chain fuel ctx chain = Ok plan -> rooted plan) /\
  (forall ty ops plan, from_ops fuel ctx ty ops = Ok plan -> rooted plan).
Proof.
  split.
  - intros chain plan H. unfold from_op_chain in H. apply bind_ok in H as ([name ops] & _ & H).
    apply bind_ok in H as (b & Hb & [= <-]). apply extend_rooted. unfold from_entity_name in Hb.
    apply bind_ok in Hb as (ty & _ & Hb). apply bind_ok in Hb as ([p e] & Hl & [= <-]).
    by eapply load_entity_rooted.
  - intros ty ops plan H. unfold from_ops in H. apply bind_ok in H as ([p e] & Hl & [= <-]).
    apply extend_rooted. by eapply load_entity_rooted.
Qed.

(** C6: the SQL of a plan means what its operators do one after the other.
    The text [build_query] prints is that of a nest of [SELECT]s around the core
    [SELECT]; and whatever rows the core gives, running the nest - conditions on
    the columns by their aliases, sort keys with their directions, offset, limit,
    count, as each database writes them - gives what the operators of the plan
    give in sequence on these rows.  This is for plans as they are built for a
    chain or a type ([built_rooted]), with operators SQL has (conditions on the
    entity's properties, sorts with a key, no projections left in), one sort at
    most between two limits, a database whose order of values is total and
    transitive, and a subselect that keeps its subquery's order. *)
Theorem build_query_refines plan target q :
  rooted plan -> forallb in_sql (operators plan) = true -> sorts_once false (operators plan) = true ->
  build_query plan target = Ok q ->
  exists stmts,
    raw_sql q = foldl (select_text target) (make_core_select plan) stmts /\
    (forall like vle rows, total vle -> transitive vle ->
       view_table plan (foldl (run_select like vle) (Table rows) stmts) =
       run_ops like (by_keys vle) (operators plan) (Rows (view plan <$> rows))) /\
    q_fields q = if has_count (operators plan) then [count_field] else qe_fields (entity plan).
Proof.
  intros Hroot Hops Hsorts H. unfold build_query in H. apply bind_ok in H as ([sql fields] & H & [= <-]).
  assert (forallb not_projection (operators plan) = true) as Hproj.
  { rewrite forallb_forall in *. intros op Hop. specialize (Hops op Hop). by destruct op. }
  apply raw_query_loop_spec in H as (Htext & Hlast & Hfields); [|done]. cbn in *.
  destruct (segments_statements _ _ _ _ _ _ Hroot Hops Htext) as (stmts & -> & Hrun).
  exists stmts. split; [done|]. split; [|done]. intros like vle rows Ht Hr. rewrite Hrun. cbn [view_table].
  apply segments_run; try done; intros s; by apply by_keys_order.
Qed.
End Properties.

(** ** Witness *)

Module StatementSample.
(** Integers by size, everything else as zero. *)
Definition rank (v : Value) : Z := match v with VI64 n => n | _ => 0 end.
Definition by_rank (a b : Value) : bool := (rank a <=? rank b)%Z.
End StatementSample.

Lemma build_query_refines_witness :
  exists q stmts,
    build_query (FT := Sample.floats) (QD := Sample.quotes) Sample.plan Sqlite = Ok q /\
    raw_sql q = foldl (select_text (FT := Sample.floats) (QD := Sample.quotes) Sqlite)
      (make_core_select Sample.plan) stmts /\
    forall rows,
      view_table Sample.plan (foldl (run_select (fun _ _ => false) StatementSample.by_rank) (Table rows) stmts) =
      run_ops (fun _ _ => false) (by_keys StatementSample.by_rank) (operators Sample.plan)
        (Rows (view Sample.plan <$> rows)).
Proof.
  assert (is_ok (build_query (FT := Sample.floats) (QD := Sample.quotes) Sample.plan Sqlite) = true)
    as Hok by (vm_compute; reflexivity).
  destruct (build_query (FT := Sample.floats) (QD := Sample.quotes) Sample.plan Sqlite)
    as [q| |] eqn:E; [|discriminate Hok|discriminate Hok].
  destruct (build_query_refines (FT := Sample.floats) (QD := Sample.quotes) Sample.plan Sqlite q)
    as (stmts & Htext & Hrun & _); [vm_compute; reflexivity..|exact E|].
  exists q, stmts. split; [reflexivity|]. split; [exact Htext|]. intros rows. apply Hrun.
  - intros x y. unfold StatementSample.by_rank. rewrite !Z.leb_le. lia.
  - intros x y z. unfold StatementSample.by_rank. rewrite !Z.leb_le. lia.
Defined.
