(* ===== verification/CrudSpec.v ===== *)
(** * What the CRUD interface promises

    The filter of a cursor is the lexicographic order after its pivot; the links
    of a page lead to the rows that follow and precede it; the operators built
    from a URL are ones the SQL back end runs; a deletion by URL says what it
    deletes.  [Module Order] is the reference order of rows. *)

From stdpp Require sorting.
From S2P Require Import Prelude Json Expr Filter Ident Types Builtin TypeSystem.
From S2P Require Import Policies Query Sql QuerySpec Crud.
Import QuerySpec.Rows.

(** ** The order of rows *)

Module Order.

(** [r] comes strictly after [pivot] in the order of the keys. *)
Fixpoint after (ks : list SortKey) (pivot r : Sem.row) : bool :=
  match ks with
  | [] => false
  | k :: ks =>
      match Sem.vcompare (r [field_name k]) (pivot [field_name k]) with
      | Some Eq => after ks pivot r
      | Some Lt => negb (ascending k)
      | Some Gt => ascending k
      | None => false
      end
  end.

Definition flip (k : SortKey) : SortKey :=
  {| field_name := field_name k; ascending := negb (ascending k) |}.

Lemma Pcompare_opp a b : Pos.compare_cont Eq a b = CompOpp (Pos.compare_cont Eq b a).
Proof. exact (eq_sym (Pos.compare_cont_antisym b a Eq)). Qed.

Lemma SFcompare_opp a b : SpecFloat.SFcompare a b = CompOpp <$> SpecFloat.SFcompare b a.
Proof.
  destruct a as [[]|[]| |[] ma ea], b as [[]|[]| |[] mb eb]; try done; cbn;
    rewrite (Z.compare_antisym eb ea), (Pcompare_opp ma mb);
    destruct (eb ?= ea)%Z; cbn; try done; by destruct (Pos.compare_cont Eq mb ma).
Qed.

Lemma vcompare_opp a b : Sem.vcompare a b = CompOpp <$> Sem.vcompare b a.
Proof.
  destruct a as [x|x|x|x|x|], b as [y|y|y|y|y|]; try done; cbn;
    try (by rewrite (Z.compare_antisym y x)); try apply SFcompare_opp.
  - by destruct x, y.
  - by rewrite String.compare_antisym.
Qed.

Lemma after_flip ks x y : after (flip <$> ks) x y = after ks y x.
Proof.
  induction ks as [|k ks IH]; [done|]. cbn. rewrite (vcompare_opp (y _)).
  destruct (Sem.vcompare (x [field_name k]) (y [field_name k])) as [[]|]; cbn; auto.
  by destruct (ascending k).
Qed.

Lemma after_asym ks x y : after ks x y = true -> after ks y x = false.
Proof.
  induction ks as [|k ks IH]; [done|]. cbn. rewrite (vcompare_opp (y _)).
  destruct (Sem.vcompare (x [field_name k]) (y [field_name k])) as [[]|]; cbn; auto;
    by destruct (ascending k).
Qed.

Lemma after_irrefl ks x : after ks x x = false.
Proof. destruct (after ks x x) eqn:E; [|done]. by rewrite <- E, (after_asym ks x x E). Qed.

End Order.
Import Order.

(** ** The filter of a cursor *)

(** The value a JSON scalar has in an expression. *)
Definition json_value (j : json) : Value :=
  match j with
  | JString s => VString s
  | JBool b => VBool b
  | JNumber n => match num_as_f64 n with Some f => VF64 f | None => VNull end
  | _ => VNull
  end.

(** The row a JSON object shows. *)
Definition row_of_json (obj : json_object) : Sem.row := fun path =>
  match path with
  | [f] => json_value (default JNull (alist_get f obj))
  | _ => VNull
  end.

Lemma json_to_value_ok t j e : json_to_value t j = Ok e -> e = EValue (json_value j).
Proof.
  unfold json_to_value. intros H. apply bind_ok in H as (v & Hv & [= <-]).
  unfold expr_of_value. f_equal.
  destruct t; try done; apply fmap_ok in Hv as (x & Hx & ->); apply option_context_ok in Hx;
    destruct j; try done; cbn in Hx |- *; by simplify_eq; rewrite ?Hx.
Qed.

Definition field_chain (f : string) : Expr := EProperty f (EParameter 0).

Definition pair_of (c : Cursor) (axis : CursorAxis) : Expr * BinaryOp * Expr :=
  (field_chain (field_name (axis_key axis)), axis_op c axis, EValue (json_value (axis_value axis))).

Lemma make_property_chain_one base f ts e t : make_property_chain base [f] ts = Ok (e, t) ->
  e = field_chain f.
Proof.
  unfold make_property_chain. cbn [ensure foldM mbind outcome_bind property_step]. intros H.
  destruct (get_field (object_type base) f) as [fld|]; [|done].
  apply bind_ok in H as (s & Hs & [= ->]). by apply bind_ok in Hs as (t' & _ & [= <- _]).
Qed.

Lemma cmp_pairs_ok c base ts l acc ps :
  foldM (fun acc axis => p ← cmp_pair c base ts axis; Ok (acc ++ [p])) acc l = Ok ps ->
  ps = acc ++ (pair_of c <$> l).
Proof.
  revert acc. induction l as [|a l IH]; intros acc H; cbn [foldM] in H.
  { injection H as <-. by rewrite app_nil_r. }
  apply bind_ok in H as (acc' & Hacc & H). apply bind_ok in Hacc as (p & Hp & [= <-]).
  apply IH in H as ->. rewrite <- app_assoc. cbn. repeat f_equal.
  unfold cmp_pair in Hp. apply bind_ok in Hp as ([chain t] & Hc & Hp).
  apply bind_ok in Hp as (v & Hv & [= <-]).
  apply with_context_ok, json_to_value_ok in Hv as ->.
  by apply make_property_chain_one in Hc as ->.
Qed.

Lemma get_filter_ok c base ts e : get_filter c base ts = Ok e ->
  lexicographic (pair_of c <$> axes c) = Some e.
Proof.
  unfold get_filter. intros H. apply bind_ok in H as (ps & Hps & H).
  apply cmp_pairs_ok in Hps as ->. by apply unwrap_ok in H.
Qed.

Section CursorFilter.
Context (like : string -> string -> bool) (r : Sem.row).
Notation keeps := (keeps like).

Definition holds_pair (op : BinaryOp) (p : Expr * BinaryOp * Expr) : bool :=
  let '(lhs, _, rhs) := p in keeps (expr_of_binary (binary_new op lhs rhs)) r.

(** The first pair that decides. *)
Fixpoint lex_keeps (ps : list (Expr * BinaryOp * Expr)) : bool :=
  match ps with
  | [] => false
  | p :: ps => holds_pair p.1.2 p || (holds_pair OpEq p && lex_keeps ps)
  end.

Lemma keeps_or a b : keeps (mk_or a b) r = keeps a r || keeps b r.
Proof.
  unfold Rows.keeps. rewrite Sem.sat_or.
  destruct (Sem.sat like r a) as [[]|], (Sem.sat like r b) as [[]|]; reflexivity.
Qed.

Lemma keeps_before before e :
  keeps (foldl (fun e '(lhs, _, rhs) => mk_and (mk_eq lhs rhs) e) e before) r =
  forallb (holds_pair OpEq) before && keeps e r.
Proof.
  revert e. induction before as [|[[l op] v] before IH]; intros e; [done|]. cbn [foldl forallb].
  rewrite IH, keeps_and. change (holds_pair OpEq (l, op, v)) with (keeps (mk_eq l v) r).
  by destruct (forallb _ before), (keeps (mk_eq l v) r), (keeps e r).
Qed.

Lemma lexicographic_keeps_from ps before e0 e :
  (foldl (fun '(before, expr) '(lhs, op, rhs) =>
     let e := expr_of_binary (binary_new op lhs rhs) in
     let expr :=
       match expr with
       | None => e
       | Some expr =>
           mk_or expr (foldl (fun e '(lhs, _, rhs) => mk_and (mk_eq lhs rhs) e) e before)
       end in
     (before ++ [(lhs, op, rhs)], Some expr)) (before, Some e0) ps).2 = Some e ->
  keeps e r = keeps e0 r || (forallb (holds_pair OpEq) before && lex_keeps ps).
Proof.
  revert before e0. induction ps as [|[[l op] v] ps IH]; intros before e0; cbn [foldl lex_keeps].
  { intros [= <-]. by rewrite andb_false_r, orb_false_r. }
  intros H. apply IH in H as ->. rewrite keeps_or, keeps_before, forallb_app. cbn [forallb].
  rewrite andb_true_r. cbn [fst snd].
  change (holds_pair op (l, op, v)) with (keeps (expr_of_binary (binary_new op l v)) r).
  by destruct (keeps e0 r), (forallb _ before), (keeps (expr_of_binary (binary_new op l v)) r),
    (holds_pair OpEq (l, op, v)).
Qed.

Lemma lexicographic_keeps ps e : lexicographic ps = Some e -> keeps e r = lex_keeps ps.
Proof.
  destruct ps as [|[[l op] v] ps]; [done|]. unfold lexicographic. cbn [foldl]. intros H.
  apply lexicographic_keeps_from in H as ->. cbn. by rewrite andb_true_r.
Qed.

Lemma holds_pair_cmp c op axis :
  (op <> OpAnd /\ op <> OpOr /\ op <> OpLike /\ op <> OpNotLike) ->
  holds_pair op (pair_of c axis) =
  match Sem.vcompare (r [field_name (axis_key axis)]) (json_value (axis_value axis)) with
  | Some x => Sem.cmp_holds op x
  | None => false
  end.
Proof.
  intros (?&?&?&?). unfold holds_pair, pair_of, Rows.keeps, Sem.sat. cbn.
  destruct op; try done; cbn;
    destruct (Sem.vcompare (r [field_name (axis_key axis)]) (json_value (axis_value axis))) as [[]|];
    done.
Qed.
End CursorFilter.

(** The row [pivot] has the values of the axes. *)
Definition pivot_of (pivot : Sem.row) (l : list CursorAxis) : Prop :=
  Forall (fun a => pivot [field_name (axis_key a)] = json_value (axis_value a)) l.

Lemma axis_op_cmp c axis :
  axis_op c axis <> OpAnd /\ axis_op c axis <> OpOr /\ axis_op c axis <> OpLike /\
  axis_op c axis <> OpNotLike.
Proof. unfold axis_op. by destruct (ascending (axis_key axis)), (forward c), (inclusive c). Qed.

Lemma exclusive_lex like c pivot r l : inclusive c = false -> pivot_of pivot l ->
  lex_keeps like r (pair_of c <$> l) =
  after ((fun axis => {| field_name := field_name (axis_key axis);
    ascending := Bool.eqb (ascending (axis_key axis)) (forward c) |}) <$> l) pivot r.
Proof.
  intros Hi. induction 1 as [|a l Ha _ IH]; [done|]. cbn [fmap list_fmap lex_keeps].
  rewrite IH. change ((pair_of c a).1.2) with (axis_op c a).
  rewrite !holds_pair_cmp by (done || apply axis_op_cmp). cbn [after field_name ascending].
  rewrite Ha. unfold axis_op. rewrite Hi.
  destruct (Sem.vcompare _ _) as [[]|], (ascending (axis_key a)), (forward c); cbn;
    by rewrite ?orb_false_r.
Qed.

Lemma sort_fmap c : keys (get_sort c) =
  if forward c then axis_key <$> axes c else flip <$> (axis_key <$> axes c).
Proof.
  unfold get_sort; cbn [keys]. destruct (forward c); rewrite <- ?list_fmap_compose;
    apply list_fmap_ext; intros _ [[f a] v] _; cbn; by destruct a.
Qed.

Lemma cursor_keeps like c base ts e pivot r :
  get_filter c base ts = Ok e -> inclusive c = false -> pivot_of pivot (axes c) ->
  keeps like e r = after (keys (get_sort c)) pivot r /\
  keeps like e r = if forward c then after (axis_key <$> axes c) pivot r
                   else after (axis_key <$> axes c) r pivot.
Proof.
  intros He Hi Hp. apply get_filter_ok, (lexicographic_keeps like r) in He as ->.
  rewrite (exclusive_lex like c pivot) by done.
  assert (forall ks, ks = keys (get_sort c) -> after ks pivot r = after (keys (get_sort c)) pivot r
    /\ after ks pivot r = if forward c then after (axis_key <$> axes c) pivot r
                           else after (axis_key <$> axes c) r pivot) as H; [|by apply H].
  intros ks ->. split; [done|]. rewrite sort_fmap. destruct (forward c); [done|]. apply after_flip.
Qed.

(** C34: the filter of a cursor that is not inclusive keeps exactly the rows
    that come strictly after the pivot, in the lexicographic order of the sort
    keys the cursor gives the query: that is, after the pivot for a forward
    cursor, before it for a backward one. *)
Theorem cursor_filter_spec like c base ts e pivot r :
  get_filter c base ts = Ok e -> inclusive c = false -> pivot_of pivot (axes c) ->
  keeps like e r = after (keys (get_sort c)) pivot r /\
  (forward c = true -> keeps like e r = after (axis_key <$> axes c) pivot r) /\
  (forward c = false -> keeps like e r = after (axis_key <$> axes c) r pivot).
Proof.
  intros He Hi Hp. destruct (cursor_keeps like c base ts e pivot r He Hi Hp) as [H1 H2].
  split; [done|]. split; intros Hf; by rewrite Hf in H2.
Qed.

Lemma inclusive_lex like c r a l : inclusive c = true ->
  lex_keeps like r (pair_of c <$> (a :: l)) = holds_pair like r (axis_op c a) (pair_of c a).
Proof.
  intros Hi. cbn [fmap list_fmap lex_keeps]. change ((pair_of c a).1.2) with (axis_op c a).
  rewrite !holds_pair_cmp by (done || apply axis_op_cmp). unfold axis_op. rewrite Hi.
  destruct (Sem.vcompare _ _) as [[]|], (ascending (axis_key a)), (forward c); done.
Qed.

(** ** The text of a cursor *)

Lemma axis_of_to_json a : axis_of_json (axis_to_json a) = Some a.
Proof. by destruct a as [[f b] v]. Qed.

Lemma axes_of_to_json l : mapM axis_of_json (axis_to_json <$> l) = Some l.
Proof.
  induction l as [|a l IH]; [done|]. rewrite fmap_cons. cbn [mapM].
  by rewrite axis_of_to_json, IH.
Qed.

Lemma cursor_of_to_json c : cursor_of_json (cursor_to_json c) = Some c.
Proof.
  change (cursor_of_json (cursor_to_json c)) with
    (axes' ← mapM axis_of_json (axis_to_json <$> axes c);
     Some {| axes := axes'; forward := forward c; inclusive := inclusive c |}).
  rewrite axes_of_to_json. by destruct c.
Qed.

Lemma lexicographic_some p ps : is_Some (lexicographic (p :: ps)).
Proof.
  unfold lexicographic. destruct p as [[l op] v]. cbn [foldl].
  generalize ([] ++ [(l, op, v)]) as before, (expr_of_binary (binary_new op l v)) as e.
  induction ps as [|[[l' op'] v'] ps IH]; intros before e; cbn [foldl]; [by eexists|apply IH].
Qed.

Section Text.
Context {JT : JsonText} {B64 : Base64}.

(** The codecs read back what they write: base64 of any text, and the JSON of
    this cursor. *)
Definition codecs_invert (c : Cursor) : Prop :=
  (forall s, base64_decode (base64_encode s) = Some s) /\
  json_parse (json_print (cursor_to_json c)) = Some (cursor_to_json c).

Definition cursor_text (c : Cursor) : string := base64_encode (json_print (cursor_to_json c)).

Lemma cursor_text_ok c : cursor_to_string c = Ok (cursor_text c).
Proof. done. Qed.

Lemma cursor_from_text c : codecs_invert c -> axes c <> [] ->
  cursor_from_string (cursor_text c) = Ok c.
Proof.
  intros [H64 Hj] Hne. unfold cursor_from_string, cursor_text.
  rewrite H64. cbn [option_context mbind outcome_bind]. rewrite Hj. cbn [mbind option_bind].
  rewrite cursor_of_to_json. cbn [option_context mbind outcome_bind]. by destruct (axes c).
Qed.

(** A cursor survives being written into a link: its text is decoded to the
    same axes, direction and inclusiveness; and no text at all decodes to a
    cursor without axes, for which the [unwrap] at the end of [get_filter]
    would panic. *)
Theorem cursor_roundtrip c :
  codecs_invert c -> axes c <> [] ->
  (text ← cursor_to_string c; cursor_from_string text) = Ok c /\
  forall text c', cursor_from_string text = Ok c' ->
    axes c' <> [] /\ is_Some (lexicographic (pair_of c' <$> axes c')).
Proof.
  intros Hc Hne. split; [by apply cursor_from_text|].
  intros text c' H. unfold cursor_from_string in H.
  apply bind_ok in H as (j & _ & H). apply bind_ok in H as (c0 & _ & H).
  apply bind_unit_ok in H as [He [= ->]]. apply ensure_ok in He.
  destruct (axes c') as [|a l]; [done|]. split; [done|]. apply lexicographic_some.
Qed.
End Text.

(** ** The query of a URL *)

(** The sort keys of the rows as they are shown. *)
Definition display_keys (q : Query) : list SortKey :=
  match cursor q with Some c => axis_key <$> axes c | None => keys (Crud.sort q) end.

(** The filters of the URL itself, without the one of its cursor. *)
Definition own_filters (q : Query) : list Expr :=
  match cursor q with Some _ => List.removelast (filters q) | None => filters q end.

Section Url.
Context {FT : FloatText} {JT : JsonText} {B64 : Base64}.
Context (base : Entity) (ts : TypeSystem).

(** What links keep of a query. *)
Definition same_params (q q' : Query) : Prop :=
  page_size q' = page_size q /\ offset q' = offset q /\ filters q' = filters q /\ cursor q' = None.

Definition kept_param (p : string * string) : bool :=
  let '(key, _) := p in negb (String.eqb key "cursor" || String.eqb key "sort").

Lemma url_param_same q q' p q1 : same_params q q' -> url_param base ts q p = Ok q1 ->
  if kept_param p then exists q1', url_param base ts q' p = Ok q1' /\ same_params q1 q1'
  else same_params q1 q'.
Proof.
  destruct p as [k v]. intros (Hp & Ho & Hf & Hc) H. unfold url_param in *. unfold kept_param.
  destruct (String.eqb_spec k "sort") as [->|Hs].
  { apply bind_ok in H as (s & _ & [= <-]). done. }
  destruct (String.eqb_spec k "cursor") as [->|Hk].
  { cbn in H. apply bind_unit_ok in H as [_ H]. apply bind_ok in H as (c & _ & [= <-]). done. }
  cbn [negb orb]. destruct (_ || _).
  { apply bind_ok in H as (n & -> & [= <-]). by eexists. }
  destruct (String.eqb k "offset").
  { apply bind_ok in H as (n & -> & [= <-]). by eexists. }
  destruct (String.eqb k "filter").
  { apply bind_ok in H as (e & -> & [= <-]). eexists; split; [done|]. by rewrite <- Hf. }
  destruct (strip_prefix "." k) as [k'|]; [|by simplify_eq; eexists].
  apply bind_ok in H as (e & -> & [= <-]). eexists; split; [done|]. by rewrite <- Hf.
Qed.

Lemma url_params_same uq q q' q1 : same_params q q' -> foldM (url_param base ts) q uq = Ok q1 ->
  exists q1', foldM (url_param base ts) q' (List.filter kept_param uq) = Ok q1' /\ same_params q1 q1'.
Proof.
  revert q q'. induction uq as [|p uq IH]; intros q q' Hs H; cbn [foldM] in H.
  { injection H as <-. by exists q'. }
  apply bind_ok in H as (q2 & H2 & H). pose proof (url_param_same _ _ _ _ Hs H2) as Hp.
  cbn [List.filter]. destruct (kept_param p); [|by eapply IH].
  destruct Hp as (q2' & Hq2 & Hs2). destruct (IH _ _ Hs2 H) as (q1' & ? & ?).
  exists q1'. split; [|done]. cbn [foldM]. by rewrite Hq2.
Qed.

Lemma url_param_cursor q text c : cursor q = None -> cursor_from_string text = Ok c ->
  url_param base ts q ("cursor", text) =
  Ok {| page_size := page_size q; offset := offset q; cursor := Some c; Crud.sort := Crud.sort q;
        filters := filters q |}.
Proof. intros Hn Hc. unfold url_param. rewrite Hn, Hc. done. Qed.

Lemma link_query uq q c text e :
  from_url_query base uq ts = Ok q -> cursor_from_string text = Ok c ->
  get_filter c base ts = Ok e ->
  from_url_query base (page_query uq text) ts =
  Ok {| page_size := page_size q; offset := offset q; cursor := Some c; Crud.sort := get_sort c;
        filters := own_filters q ++ [e] |}.
Proof.
  unfold from_url_query. intros H Hc He. apply bind_ok in H as (q0 & H0 & H).
  destruct (url_params_same uq Query_new Query_new q0 ltac:(done) H0) as (q1 & H1 & Hp & Ho & Hf & Hn).
  unfold page_query. rewrite foldM_app.
  change (List.filter _ uq) with (List.filter kept_param uq). rewrite H1. cbn [foldM mbind outcome_bind].
  rewrite (url_param_cursor _ _ _ Hn Hc). cbn [mbind outcome_bind cursor]. rewrite He.
  cbn [mbind outcome_bind page_size offset filters]. unfold own_filters.
  destruct (cursor q0) as [c0|] eqn:Ec0.
  - apply bind_ok in H as (f & _ & [= <-]). cbn. by rewrite List.removelast_last, Hp, Ho, Hf.
  - injection H as <-. cbn. by rewrite Hp, Ho, Hf.
Qed.
End Url.

(** ** What the operators of a query give *)

Section RunQuery.
Context (like : string -> string -> bool) (le : SortBy -> Sem.row -> Sem.row -> bool).

(** All the filters hold. *)
Definition all_hold (fs : list Expr) (r : Sem.row) : bool := forallb (fun e => keeps like e r) fs.

Lemma run_filters fs rows :
  run_ops like le (QFilter <$> fs) (Rows rows) = Rows (List.filter (all_hold fs) rows).
Proof.
  revert rows. induction fs as [|e fs IH]; intros rows; cbn.
  - f_equal. induction rows as [|r rows IHr]; [done|]. cbn. by rewrite <- IHr.
  - unfold run_ops in IH |- *. cbn [foldl run_op]. by rewrite IH, filter_filter.
Qed.

Definition skip_opt (o : option Z) (rows : list Sem.row) : list Sem.row :=
  match o with Some n => drop (Z.to_nat n) rows | None => rows end.

Lemma run_query_ops q rows :
  run_ops like le (make_query_ops q) (Rows rows) =
  Rows (take (Z.to_nat (page_size q))
    (skip_opt (offset q) (List.filter (all_hold (filters q)) (Rows.sort (le (Crud.sort q)) rows)))).
Proof.
  unfold make_query_ops. cbn [app]. pose proof (run_filters (filters q)) as Hf. unfold run_ops in *.
  cbn [foldl run_op]. rewrite foldl_app, Hf. by destruct (offset q).
Qed.

Lemma all_hold_snoc fs e rows :
  List.filter (all_hold (fs ++ [e])) rows = List.filter (keeps like e) (List.filter (all_hold fs) rows).
Proof.
  rewrite filter_filter. apply List.filter_ext. intros r. unfold all_hold. rewrite forallb_app. cbn.
  by rewrite andb_true_r.
Qed.
End RunQuery.

(** ** Sorted lists *)

Section Sorted.
Context {A : Type} (lt : A -> A -> bool) (le : A -> A -> bool).
Context (Htotal : forall x y, le x y = true \/ le y x = true).
Context (Htrans : forall x y z, le x y = true -> le y z = true -> le x z = true).

Lemma insert_sorted_perm x l : Permutation (insert_sorted le x l) (x :: l).
Proof.
  induction l as [|y l IH]; cbn; [done|]. destruct (le x y); [done|]. rewrite IH. constructor.
Qed.

Lemma sort_perm l : Permutation (Rows.sort le l) l.
Proof. induction l as [|x l IH]; [done|]. cbn. by rewrite insert_sorted_perm, IH. Qed.

Lemma strict_sorted_cases l x y : StronglySorted (fun x y => lt x y = true) l -> x ∈ l -> y ∈ l ->
  x = y \/ lt x y = true \/ lt y x = true.
Proof.
  induction 1 as [|z l _ IH Hz]; [set_solver|]. rewrite Forall_forall in Hz.
  intros [->|Hx]%elem_of_cons [->|Hy]%elem_of_cons; auto.
Qed.

(** A list that is strictly sorted is what sorting gives. *)
Lemma sort_unique l l' : Permutation l l' -> StronglySorted (fun x y => lt x y = true) l' ->
  (forall x y, x ∈ l' -> y ∈ l' -> lt x y = true -> le x y = true /\ le y x = false) ->
  Rows.sort le l = l'.
Proof.
  intros Hp Hs Hlt.
  apply (sorting.StronglySorted_unique_strong (fun x y => le x y = true)).
  - intros x y Hx Hy Hxy Hyx. apply (proj1 (sort_elem le Htotal Htrans x l)) in Hx.
    assert (x ∈ l') as Hx' by (by rewrite <- Hp).
    destruct (strict_sorted_cases l' x y Hs Hx' Hy) as [|[H|H]]; [done|..].
    + destruct (Hlt x y Hx' Hy H). congruence.
    + destruct (Hlt y x Hy Hx' H). congruence.
  - by apply sort_sorted.
  - clear Hp. induction Hs as [|z l' Hs IH Hz]; constructor.
    + apply IH. intros x y ? ?. apply Hlt; set_solver.
    + apply Forall_forall. rewrite Forall_forall in Hz. intros y Hy.
      apply Hlt; [set_solver|set_solver|by apply Hz].
  - by rewrite sort_perm.
Qed.

(** The elements after, and before, one of them. *)
Lemma strict_sorted_split pre x post : (forall x, lt x x = false) ->
  (forall x y, lt x y = true -> lt y x = false) ->
  StronglySorted (fun x y => lt x y = true) (pre ++ x :: post) ->
  List.filter (lt x) (pre ++ x :: post) = post /\
  List.filter (fun y => lt y x) (pre ++ x :: post) = pre.
Proof.
  clear le Htotal Htrans. intros Hirr Hasym. induction pre as [|y pre IH]; cbn; intros Hs; inversion_clear Hs as [|? ? Hs' Hall].
  - rewrite Hirr. rewrite Forall_forall in Hall. clear Hs'. split.
    + induction post as [|y post IHp]; [done|]. cbn. rewrite Hall by set_solver. f_equal.
      apply IHp. intros z Hz. apply Hall. set_solver.
    + induction post as [|y post IHp]; [done|]. cbn. rewrite (Hasym x y) by (apply Hall; set_solver).
      apply IHp. intros z Hz. apply Hall. set_solver.
  - destruct (IH Hs') as [-> ->]. rewrite Forall_forall in Hall.
    assert (lt y x = true) as Hyx by (apply Hall; set_solver).
    by rewrite (Hasym _ _ Hyx), Hyx.
Qed.
End Sorted.

Lemma strict_sorted_rev {A} (lt lt' : A -> A -> bool) l :
  (forall x y, lt x y = true -> lt' y x = true) ->
  StronglySorted (fun x y => lt x y = true) l ->
  StronglySorted (fun x y => lt' x y = true) (rev l).
Proof.
  intros Hl. induction 1 as [|x l _ IH Hx]; cbn; [constructor|].
  rewrite Forall_forall in Hx.
  assert (forall y, y ∈ rev l -> lt' y x = true) as Hy.
  { intros y Hy. apply Hl, Hx. by rewrite list_elem_of_In, in_rev, <- list_elem_of_In. }
  clear Hx. induction IH as [|y l' _ IH Hy']; cbn; repeat constructor.
  - apply IH. set_solver.
  - rewrite Forall_forall in Hy' |- *. intros z [Hz| ->%list_elem_of_singleton]%elem_of_app; auto.
    apply Hy. set_solver.
Qed.

(** ** Links *)

Section Links.
Context {FT : FloatText} {JT : JsonText} {B64 : Base64} {FU : FormUrlencoded}.

Lemma pivot_axes ks obj fw c : Cursor_new ((fun key =>
    {| axis_key := key; axis_value := default JNull (alist_get (field_name key) obj) |}) <$> ks) fw
    = Ok c ->
  axes c <> [] /\ axis_key <$> axes c = ks /\ forward c = fw /\ inclusive c = false /\
  Forall (fun a => axis_value a = default JNull (alist_get (field_name (axis_key a)) obj)) (axes c).
Proof.
  unfold Cursor_new. intros H. apply bind_unit_ok in H as [Hne [= <-]]. cbn.
  apply rust_assert_ok in Hne. split; [by destruct ks|].
  assert (axis_key <$> ((fun key => {| axis_key := key;
    axis_value := default JNull (alist_get (field_name key) obj) |}) <$> ks) = ks) as Hid.
  { clear. induction ks as [|k l IH]; [done|]. by rewrite !fmap_cons, IH. }
  split; [apply Hid|]. repeat split. clear. induction ks; by constructor.
Qed.

Lemma cursor_from_pivot_ok q obj fw c : cursor_from_pivot q obj fw = Ok c ->
  axes c <> [] /\ axis_key <$> axes c = display_keys q /\ forward c = fw /\ inclusive c = false /\
  Forall (fun a => axis_value a = default JNull (alist_get (field_name (axis_key a)) obj)) (axes c).
Proof.
  unfold cursor_from_pivot. intros H. apply bind_unit_ok in H as [_ H]. by apply pivot_axes in H.
Qed.

(** The row is what the JSON object shows, as far as the sort keys go. *)
Definition shows (ks : list SortKey) (obj : json_object) (r : Sem.row) : Prop :=
  forall k, k ∈ ks -> r [field_name k] = row_of_json obj [field_name k].

(** The rows as the query shows them: those its own filters keep, in the order
    of its keys, no two of them equal in it. *)
Definition ordered_rows (like : string -> string -> bool) (q : Query) (table rows : list Sem.row)
    : Prop :=
  Permutation (List.filter (all_hold like (own_filters q)) table) rows /\
  StronglySorted (fun x y => after (display_keys q) x y = true) rows.

(** The database orders rows by the keys, in both directions. *)
Definition orders_by (le : SortBy -> Sem.row -> Sem.row -> bool) (ks : list SortKey)
    (rows : list Sem.row) : Prop :=
  forall s x y, keys s = ks \/ keys s = (flip <$> ks) -> x ∈ rows -> y ∈ rows ->
    after (keys s) x y = true -> le s x y = true /\ le s y x = false.

Lemma cursor_rows like (le : SortBy -> Sem.row -> Sem.row -> bool) q table rows c :
  (forall s x y, le s x y = true \/ le s y x = true) ->
  (forall s x y z, le s x y = true -> le s y z = true -> le s x z = true) ->
  axis_key <$> axes c = display_keys q ->
  ordered_rows like q table rows -> orders_by le (display_keys q) rows ->
  Rows.sort (le (get_sort c)) (List.filter (all_hold like (own_filters q)) table) =
  if forward c then rows else rev rows.
Proof.
  intros Htotal Htrans Hk [Hperm Hsorted] Hle. pose proof (sort_fmap c) as Hs. rewrite Hk in Hs.
  apply (sort_unique (after (keys (get_sort c))) (le (get_sort c)) (Htotal _) (Htrans _)).
  - destruct (forward c); [done|]. by rewrite <- Permutation_rev.
  - rewrite Hs. destruct (forward c); [done|].
    eapply strict_sorted_rev; [|exact Hsorted]. intros x y. by rewrite after_flip.
  - intros x y Hx Hy. apply Hle; [destruct (forward c); auto|..]; destruct (forward c); try done;
      by rewrite list_elem_of_In, in_rev, <- list_elem_of_In.
Qed.

(** C11: the link of a page leads to the rows that follow it, and the other link
    to those that precede it, where the row it starts from has a cursor.  Take the
    rows of a query in its order, none of them equal in it; let the last (first) row
    shown be [r], with [pre] before it and [post] after it, and let its sort values
    make a cursor whose filter can be built.  Then the link is made, its URL parses to
    a query again, and that query gives a page of [post] (of [pre], from its end: the
    answer of a backward cursor is reversed before it is shown).  The new query keeps
    the page size and the filters, and also the [offset] of the URL: it skips
    that many rows again.  An empty page has no link ([empty_page_link]); the link
    from a row with a [null] among its sort values is made, but refused when it is
    followed ([null_pivot_link_refused]). *)
Theorem page_link_spec like (le : SortBy -> Sem.row -> Sem.row -> bool) base ts
    uq q params (results : list json_object) obj (fw : bool) c e table pre r post :
  (forall s x y, le s x y = true \/ le s y x = true) ->
  (forall s x y z, le s x y = true -> le s y z = true -> le s x z = true) ->
  url_query params = uq -> from_url_query base uq ts = Ok q ->
  (if fw then last results else head results) = Some obj ->
  cursor_from_pivot q obj fw = Ok c -> codecs_invert c -> get_filter c base ts = Ok e ->
  shows (display_keys q) obj r ->
  ordered_rows like q table (pre ++ r :: post) ->
  orders_by le (display_keys q) (pre ++ r :: post) ->
  get_page params q results fw = Ok (Some (make_page_url (url_path params) uq (cursor_text c))) /\
  exists q', from_url_query base (page_query uq (cursor_text c)) ts = Ok q' /\
    page_size q' = page_size q /\ offset q' = offset q /\
    run_ops like le (make_query_ops q') (Rows table) =
    Rows (take (Z.to_nat (page_size q))
      (skip_opt (offset q) (if fw then post else rev pre))).
Proof.
  intros Htotal Htrans Huq Hq Hpivot Hc Hcodec He Hshow Hrows Hle.
  pose proof (cursor_from_pivot_ok _ _ _ _ Hc) as (Hne & Hk & Hfw & Hinc & Hvals).
  split.
  { unfold get_page. by rewrite Hpivot, Hc, Huq. }
  eexists. split; [by eapply link_query; [|apply cursor_from_text|]|]. split; [done|]. split; [done|].
  rewrite run_query_ops. cbn [page_size offset filters Crud.sort]. do 3 f_equal.
  rewrite all_hold_snoc, filter_sort, (cursor_rows like le q table _ c) by eauto.
  assert (pivot_of r (axes c)) as Hp.
  { unfold pivot_of. rewrite Forall_forall in Hvals |- *. intros a Ha.
    rewrite Hshow; [cbn; by rewrite (Hvals a Ha)|]. rewrite <- Hk. by apply list_elem_of_fmap_2. }
  destruct Hrows as [_ Hsorted].
  destruct (strict_sorted_split (after (display_keys q)) pre r post (after_irrefl _) (after_asym _) Hsorted)
    as [Hpost Hpre].
  pose proof (fun x => proj2 (cursor_keeps like c base ts e r x He Hinc Hp)) as Hkeep.
  rewrite Hk in Hkeep. rewrite (List.filter_ext _ _ Hkeep), Hfw. destruct fw; [done|].
  by rewrite List.filter_rev, Hpre.
Qed.
End Links.

(** ** Links that do not work *)

Section BadLinks.
Context {FT : FloatText} {JT : JsonText} {B64 : Base64} {FU : FormUrlencoded}.

Lemma json_to_value_null t e : json_to_value t JNull <> Ok e.
Proof. by destruct t. Qed.

Lemma cmp_pair_fails c base ts a l acc ps : a ∈ l -> axis_value a = JNull ->
  foldM (fun acc axis => p ← cmp_pair c base ts axis; Ok (acc ++ [p])) acc l <> Ok ps.
Proof.
  intros Ha Hn H. destruct (foldM_ok_each _ _ _ _ a H Ha) as (s1 & s2 & Hs).
  apply bind_ok in Hs as (p & Hp & _). unfold cmp_pair in Hp.
  apply bind_ok in Hp as ([chain t] & _ & Hp). apply bind_ok in Hp as (v & Hv & _).
  apply with_context_ok in Hv. rewrite Hn in Hv. by apply json_to_value_null in Hv.
Qed.

(** When the last (first) row shown has no value in one of the sort fields,
    an optional field that is not set, the page still comes with a link, and the
    link is refused: its cursor has [null] for the field, which no type of field
    converts to an expression. *)
Theorem null_pivot_link_refused base ts q params (results : list json_object) obj (fw : bool) k :
  (if fw then last results else head results) = Some obj ->
  k ∈ display_keys q -> default JNull (alist_get (field_name k) obj) = JNull ->
  exists c, get_page params q results fw =
      Ok (Some (make_page_url (url_path params) (url_query params) (cursor_text c))) /\
    (codecs_invert c -> forall q',
       from_url_query base (page_query (url_query params) (cursor_text c)) ts <> Ok q').
Proof.
  intros Hpivot Hk Hnull.
  assert (exists c, cursor_from_pivot q obj fw = Ok c) as [c Hc].
  { unfold cursor_from_pivot, display_keys in *. destruct (match cursor q with Some _ => _ | None => _ end).
    - by apply not_elem_of_nil in Hk.
    - by eexists. }
  exists c. pose proof (cursor_from_pivot_ok _ _ _ _ Hc) as (Hne & Hks & _ & _ & Hvals).
  split; [unfold get_page; by rewrite Hpivot, Hc|]. intros Hcodec q' Hq'.
  assert (exists a, a ∈ axes c /\ axis_value a = JNull) as (a & Ha & Hv).
  { rewrite <- Hks in Hk. apply list_elem_of_fmap in Hk as (a & -> & Ha). exists a. split; [done|].
    rewrite Forall_forall in Hvals. by rewrite (Hvals a Ha). }
  unfold from_url_query in Hq'. apply bind_ok in Hq' as (q1 & H1 & Hq').
  unfold page_query in H1. rewrite foldM_app in H1. apply bind_ok in H1 as (q2 & _ & H1).
  cbn [foldM] in H1. apply bind_ok in H1 as (q3 & H1 & [= <-]).
  assert (cursor q3 = Some c) as E.
  { unfold url_param in H1. cbn in H1. apply bind_unit_ok in H1 as [_ H1].
    rewrite cursor_from_text in H1 by done. by injection H1 as <-. }
  rewrite E in Hq'. apply bind_ok in Hq' as (f & Hf & _). unfold get_filter in Hf.
  apply bind_ok in Hf as (ps & Hps & _). by eapply cmp_pair_fails.
Qed.

(** A page that is empty, reached by a cursor, links back with the reversed
    cursor, which is inclusive; of such a cursor the filter compares the first
    sort key alone, with [>=] or [<=], so that rows on the wrong side of the
    pivot in the other keys pass. *)
Theorem empty_page_link params q c base ts e like r a rest :
  cursor q = Some c -> inclusive c = false -> axes c = a :: rest ->
  get_page params q [] (negb (forward c)) =
    Ok (Some (make_page_url (url_path params) (url_query params) (cursor_text (reversed c)))) /\
  (get_filter (reversed c) base ts = Ok e ->
   keeps like e r =
     match Sem.vcompare (r [field_name (axis_key a)]) (json_value (axis_value a)) with
     | Some Eq => true
     | Some Gt => negb (Bool.eqb (ascending (axis_key a)) (forward c))
     | Some Lt => Bool.eqb (ascending (axis_key a)) (forward c)
     | None => false
     end).
Proof.
  intros Hq Hinc Hax. split.
  { unfold get_page. destruct (negb (forward c)) eqn:E; cbn [last head]; rewrite Hq, <- E;
      by destruct (forward c). }
  intros He. apply get_filter_ok, (lexicographic_keeps like r) in He as ->.
  change (axes (reversed c)) with (axes c). rewrite Hax, inclusive_lex by (cbn; by rewrite Hinc).
  rewrite holds_pair_cmp by apply axis_op_cmp. unfold axis_op, reversed; cbn. rewrite Hinc.
  destruct (Sem.vcompare _ _) as [[]|], (ascending (axis_key a)), (forward c); done.
Qed.
End BadLinks.

(** ** Filters of parameters *)

(** The type at the end of a path of fields. *)
Fixpoint field_path (ts : TypeSystem) (t : Type_) (path : list string) : option Type_ :=
  match path with
  | [] => Some t
  | f :: path =>
      match t with
      | TEntity e =>
          fld ← get_field (object_type e) f;
          t' ← ok_option (get ts (fld_type_id fld));
          field_path ts t' path
      | _ => None
      end
  end.

(** The value of a parameter, at its field's type. *)
Definition param_value {FT : FloatText} (t : Type_) (value : string) : option Value :=
  match t with
  | TString | TEntityId _ => Some (VString value)
  | TFloat | TJsDate => VF64 <$> f64_parse value
  | TBoolean => VBool <$> bool_parse value
  | TEntity _ | TArray _ | TArrayBuffer => None
  end.

Lemma chain_steps ts path : forall e t c, Sem.chain e = Some c ->
  match field_path ts t path with
  | Some t' => exists e', foldM (property_step ts) (e, t) path = Ok (e', t') /\
                 Sem.chain e' = Some (c ++ path)
  | None => is_ok (foldM (property_step ts) (e, t) path) = false
  end.
Proof.
  induction path as [|f path IH]; intros e t c Hc; cbn [field_path foldM].
  { exists e. by rewrite app_nil_r. }
  destruct t as [| | | | |ent| |]; try done. cbn [property_step].
  destruct (get_field (object_type ent) f) as [fld|]; [|done]. cbn [mbind option_bind].
  destruct (get ts (fld_type_id fld)) as [t'| |]; try done.
  cbn [map_err ok_option mbind option_bind outcome_bind].
  specialize (IH (EProperty f e) t' (c ++ [f])). rewrite <- app_assoc in IH. apply IH.
  cbn. by rewrite Hc.
Qed.

Lemma make_property_chain_spec base path ts : path <> [] ->
  match field_path ts (TEntity base) path with
  | Some t => exists e, make_property_chain base path ts = Ok (e, t) /\ Sem.chain e = Some path
  | None => is_ok (make_property_chain base path ts) = false
  end.
Proof.
  intros Hne. pose proof (chain_steps ts path (EParameter 0) (TEntity base) [] eq_refl) as H.
  by destruct path as [|f path].
Qed.

Lemma chain_eval like r e c : Sem.chain e = Some c -> c <> [] ->
  Sem.eval like r e = r c /\ expr_wf e = true.
Proof.
  destruct e as [|p|p o|a op b|e]; cbn; try done.
  - destruct p; [|done]. by intros [= <-].
  - destruct (Sem.chain o) as [c'|] eqn:Ho; [|done]. cbn. intros [= <-] _. split; [done|].
    apply is_chain_chain. by eexists.
Qed.

Lemma no_char_join c sep l : Forall (no_char c) l -> no_char c sep -> no_char c (str_join sep l).
Proof.
  intros Hl Hsep. induction Hl as [|x l Hx Hl IH]; [by intros []|]. destruct l as [|y l]; [done|].
  by repeat apply no_char_app.
Qed.

(** The key of a filter parameter: a path and an operator. *)
Definition param_key (path : list string) (op : option string) : string :=
  str_join "." path +:+ match op with Some op => "~" +:+ op | None => "" end.

Definition plain_path (path : list string) : Prop :=
  path <> [] /\ Forall (fun f => no_char "." f /\ no_char "~" f) path.

Lemma param_key_tokens path op : plain_path path -> (forall o, op = Some o -> no_char "~" o) ->
  split_on "~" (param_key path op) =
  str_join "." path :: match op with Some op => [op] | None => [] end.
Proof.
  intros [_ Hp] Ho. assert (no_char "~" (str_join "." path)) as Hc.
  { apply no_char_join; [eapply Forall_impl; [exact Hp|]; by intros ? []|]. by intros [|[]]. }
  unfold param_key. destruct op as [op|].
  - change ("~" +:+ op) with (String "~" op). rewrite split_on_app by done.
    by rewrite (split_on_no_sep _ _ (Ho _ eq_refl)).
  - rewrite str_app_nil_r. by apply split_on_no_sep.
Qed.

(** The parameter [.path~op=value] filters on the field at the end of the
    path: it is accepted exactly when the operator is one of the known ones
    ([=] when absent), the path leads through entities to a field, and the value
    parses at the field's type, and then it means the comparison of the field
    with the value, in a form the SQL back end prints. *)
Theorem url_filter_spec {FT : FloatText} like r base ts path op value :
  plain_path path -> (forall o, op = Some o -> no_char "~" o) ->
  match ok_option (convert_operator op),
        field_path ts (TEntity base) path ≫= (fun t => param_value t value) with
  | Some o, Some v =>
      exists e, filter_from_param base (param_key path op) value ts = Ok e /\ expr_wf e = true /\
        Sem.sat like r e = Sem.sat like r (EBinary (EValue (r path)) o (EValue v))
  | _, _ => is_ok (filter_from_param base (param_key path op) value ts) = false
  end.
Proof.
  intros Hp Ho. unfold filter_from_param. rewrite param_key_tokens by done.
  destruct Hp as [Hne Hp].
  assert (List.length (str_join "." path :: match op with Some op => [op] | None => [] end) <=? 2
    = true) as -> by (by destruct op).
  cbn [ensure mbind outcome_bind head from_option id].
  assert ((str_join "." path :: match op with Some op => [op] | None => [] end) !! 1 = op) as ->
    by (by destruct op).
  rewrite (split_on_joined "."); [|eapply Forall_impl; [exact Hp|by intros ? []]|done].
  destruct (convert_operator op) as [o| |]; try done. cbn [ok_option mbind outcome_bind].
  pose proof (make_property_chain_spec base path ts Hne) as Hchain.
  destruct (field_path ts (TEntity base) path) as [t|]; cbn [mbind option_bind].
  2: { by destruct (make_property_chain base path ts). }
  destruct Hchain as (e & -> & Hc). cbn [mbind outcome_bind].
  destruct (chain_eval like r e path Hc Hne) as [Heval Hwf].
  assert (forall v, expr_wf (expr_of_binary (binary_new o e (expr_of_value v))) = true /\
    Sem.sat like r (expr_of_binary (binary_new o e (expr_of_value v))) =
    Sem.sat like r (EBinary (EValue (r path)) o (EValue v))) as Hv.
  { intros v. split; [cbn; by rewrite Hwf|]. unfold Sem.sat. cbn [Sem.eval expr_of_binary binary_new].
    cbn. by rewrite Heval. }
  destruct t; cbn [param_value]; try done; try (eexists; split; [done|apply Hv]).
  - destruct (f64_parse value); [|done]. eexists; split; [done|apply Hv].
  - destruct (bool_parse value); [|done]. eexists; split; [done|apply Hv].
  - destruct (f64_parse value); [|done]. eexists; split; [done|apply Hv].
Qed.

(** ** The operators of a URL *)

Section UrlOps.
Context {FT : FloatText} {JT : JsonText} {B64 : Base64}.

Lemma filter_from_param_wf base key value ts e : filter_from_param base key value ts = Ok e ->
  expr_wf e = true.
Proof.
  unfold filter_from_param. intros H. apply bind_unit_ok in H as [_ H].
  apply bind_ok in H as (op & _ & H). apply bind_ok in H as ([chain t] & Hc & H).
  apply bind_ok in H as (v & _ & [= <-]). cbn. rewrite andb_true_r.
  set (path := split_on "." _) in Hc. assert (path <> []) as Hne.
  { intros E. rewrite E in Hc. discriminate Hc. }
  pose proof (make_property_chain_spec base path ts Hne) as Hs. rewrite Hc in Hs.
  destruct (field_path ts (TEntity base) path); [|done]. destruct Hs as (e & [= <- _] & Hch).
  by apply (chain_eval (fun _ _ => false) (fun _ => VNull) chain path).
Qed.

Lemma json_filter_wf value e : json_filter value = Ok e -> expr_wf e = true.
Proof.
  unfold json_filter. intros H. apply bind_ok in H as (j & _ & H).
  apply with_context_ok in H. by eapply to_expr_rec_wf.
Qed.

Lemma lexicographic_wf ps e : Forall (fun p => expr_wf p.1.1 = true /\ expr_wf p.2 = true) ps ->
  lexicographic ps = Some e -> expr_wf e = true.
Proof.
  assert (forall before e0, Forall (fun p : Expr * BinaryOp * Expr =>
      expr_wf p.1.1 = true /\ expr_wf p.2 = true) before -> expr_wf e0 = true ->
    expr_wf (foldl (fun e '(lhs, _, rhs) => mk_and (mk_eq lhs rhs) e) e0 before) = true) as Hand.
  { intros before e0 H. revert e0. induction H as [|[[l op] v] before [Hl Hv] _ IH]; intros e0 H0; [done|].
    cbn in *. apply IH. cbn. by rewrite Hl, Hv. }
  enough (forall ps before acc, Forall (fun p : Expr * BinaryOp * Expr =>
      expr_wf p.1.1 = true /\ expr_wf p.2 = true) before -> Forall (fun p : Expr * BinaryOp * Expr =>
      expr_wf p.1.1 = true /\ expr_wf p.2 = true) ps ->
    (forall e, acc = Some e -> expr_wf e = true) ->
    forall e, (foldl (fun '(before, expr) '(lhs, op, rhs) =>
     let e := expr_of_binary (binary_new op lhs rhs) in
     let expr :=
       match expr with
       | None => e
       | Some expr =>
           mk_or expr (foldl (fun e '(lhs, _, rhs) => mk_and (mk_eq lhs rhs) e) e before)
       end in
     (before ++ [(lhs, op, rhs)], Some expr)) (before, acc) ps).2 = Some e -> expr_wf e = true) as H.
  { intros Hps He. by apply (H ps [] None) with (e := e). }
  clear ps e. induction ps as [|[[l op] v] ps IH]; intros before acc Hb Hps Hacc e; cbn [foldl]; [apply Hacc|].
  apply Forall_cons in Hps as [[Hl Hv] Hps]. cbn in Hl, Hv. apply IH; [|done|].
  - apply Forall_app. split; [done|]. by repeat constructor.
  - intros e' [= <-]. destruct acc as [e0|]; [|cbn; by rewrite Hl, Hv].
    cbn. rewrite (Hacc e0 eq_refl). apply Hand; [done|]. cbn. by rewrite Hl, Hv.
Qed.

Lemma get_filter_wf c base ts e : get_filter c base ts = Ok e ->
  expr_wf e = true /\ axes c <> [] /\
  Forall (fun a => has_field (object_type base) (field_name (axis_key a)) = true) (axes c).
Proof.
  intros H. split; [|split].
  - apply get_filter_ok in H. eapply lexicographic_wf; [|exact H]. apply Forall_fmap, Forall_forall.
    by intros.
  - apply get_filter_ok in H. by destruct (axes c).
  - unfold get_filter in H. apply bind_ok in H as (ps & Hps & _). apply Forall_forall. intros a Ha.
    destruct (foldM_ok_each _ _ _ _ a Hps Ha) as (s1 & s2 & Hs). apply bind_ok in Hs as (p & Hp & _).
    unfold cmp_pair in Hp. apply bind_ok in Hp as ([chain t] & Hc & _).
    unfold make_property_chain in Hc. cbn [ensure foldM mbind outcome_bind property_step] in Hc.
    apply has_field_get. destruct (get_field _ _); [by eexists|done].
Qed.

Lemma digits_value_bound s : forall acc n, (0 <= acc <= u64_max)%Z -> digits_value acc s = Some n ->
  (0 <= n <= u64_max)%Z.
Proof.
  induction s as [|c s IH]; intros acc n Hacc; cbn; [by intros [= <-]|].
  destruct (_ && _)%bool eqn:E; [|done]. destruct (_ <=? u64_max)%Z eqn:E'; [|done].
  apply IH. apply andb_prop in E as [E1 E2]. apply Z.leb_le in E1, E2, E'. lia.
Qed.

Lemma u64_parse_bound s n : u64_parse s = Some n -> (0 <= n <= u64_max)%Z.
Proof.
  unfold u64_parse. destruct (str_is_empty _); [done|]. apply digits_value_bound. unfold u64_max; lia.
Qed.

(** What the parameters leave in the query. *)
Record params_ok (base : Entity) (q : Query) : Prop := {
  po_size : (0 <= page_size q <= u64_max)%Z;
  po_offset : forall o, offset q = Some o -> (0 <= o <= u64_max)%Z;
  po_filters : Forall (fun e => expr_wf e = true) (filters q);
  po_sort : Forall (fun k => has_field (object_type base) (field_name k) = true) (keys (Crud.sort q));
}.

Lemma url_param_inv base ts q p q' : params_ok base q -> url_param base ts q p = Ok q' ->
  params_ok base q'.
Proof.
  destruct p as [k v]. intros [Hp Ho Hf Hs] H. unfold url_param in H.
  assert (forall e, expr_wf e = true -> Forall (fun e => expr_wf e = true) (filters q ++ [e])) as Hsnoc
    by (intros; apply Forall_app; split; [done|by constructor]).
  destruct (String.eqb k "sort").
  { apply bind_ok in H as (s & Hsort & [= <-]). constructor; try done. cbn.
    unfold parse_sort in Hsort. case_match; simplify_eq.
    apply bind_unit_ok in Hsort as [He [= <-]]. apply ensure_ok in He. by repeat constructor. }
  destruct (_ || _).
  { apply bind_ok in H as (n & Hn & [= <-]). apply option_context_ok, u64_parse_bound in Hn.
    by constructor. }
  destruct (String.eqb k "offset").
  { apply bind_ok in H as (n & Hn & [= <-]). apply option_context_ok, u64_parse_bound in Hn.
    constructor; try done. by intros o [= <-]. }
  destruct (String.eqb k "filter").
  { apply bind_ok in H as (e & He & [= <-]). apply json_filter_wf in He. constructor; cbn; auto. }
  destruct (String.eqb k "cursor").
  { apply bind_unit_ok in H as [_ H]. apply bind_ok in H as (c & _ & [= <-]). by constructor. }
  destruct (strip_prefix "." k); [|by injection H as <-].
  apply bind_ok in H as (e & He & [= <-]). apply with_context_ok, filter_from_param_wf in He.
  constructor; cbn; auto.
Qed.

Lemma ensure_sort_by_id_ok base s : has_field (object_type base) "id" = true ->
  Forall (fun k => has_field (object_type base) (field_name k) = true) (keys s) ->
  let s' := ensure_sort_by_id s in
  keys s' <> [] /\ Forall (fun k => has_field (object_type base) (field_name k) = true) (keys s') /\
  "id" ∈ field_name <$> keys s'.
Proof.
  intros Hid Hs. unfold ensure_sort_by_id. destruct (existsb _ (keys s)) eqn:E; cbn.
  - apply existsb_exists in E as (k & Hk & He). apply list_elem_of_In in Hk. apply String.eqb_eq in He.
    split; [by destruct (keys s); [apply not_elem_of_nil in Hk|]|]. split; [done|].
    rewrite <- He. by apply list_elem_of_fmap_2.
  - split; [by destruct (keys s)|]. split; [apply Forall_app; split; [done|by constructor]|].
    rewrite fmap_app. apply elem_of_app. right. cbn. by constructor.
Qed.

(** Every URL that parses gives operators the SQL back end runs as they
    stand: one sort, over fields of the entity and, without a cursor, with [id]
    among them; filters in the form that prints; limits that are 64-bit
    unsigned numbers, the page size last. *)
Theorem url_query_ops_spec base uq ts q :
  has_field (object_type base) "id" = true -> from_url_query base uq ts = Ok q ->
  let ops := make_query_ops q in
  count_last ops = true /\ sorts_once false ops = true /\
  Forall (fun op => match op with
    | QFilter e => expr_wf e = true
    | QTake n | QSkip n => (0 <= n <= u64_max)%Z
    | QSortBy s => keys s <> [] /\
        Forall (fun k => has_field (object_type base) (field_name k) = true) (keys s) /\
        (cursor q = None -> "id" ∈ field_name <$> keys s)
    | QProjection _ | QCount => False
    end) ops.
Proof.
  intros Hid H ops. unfold from_url_query in H. apply bind_ok in H as (q0 & H0 & H).
  assert (params_ok base q0) as [Hp Ho Hf Hs].
  { revert H0. apply (foldM_inv _ (fun _ => params_ok base)).
    - constructor; cbn; [unfold u64_max; lia|done|constructor|by repeat constructor].
    - intros _ p q1 q2 Hq1. by apply url_param_inv. }
  assert (page_size q = page_size q0 /\ offset q = offset q0 /\
    Forall (fun e => expr_wf e = true) (filters q) /\ keys (Crud.sort q) <> [] /\
    Forall (fun k => has_field (object_type base) (field_name k) = true) (keys (Crud.sort q)) /\
    (cursor q = None -> "id" ∈ field_name <$> keys (Crud.sort q))) as (Hp' & Ho' & Hf' & Hne & Hs' & Hi).
  { destruct (cursor q0) as [c|] eqn:Ec.
    - apply bind_ok in H as (f & Hg & [= <-]). destruct (get_filter_wf _ _ _ _ Hg) as (Hwf & Hax & Hall).
      split; [done|]. split; [done|]. split; [apply Forall_app; split; [done|by constructor]|].
      cbn. split; [by destruct (axes c)|]. split; [|done].
      apply Forall_fmap. eapply Forall_impl; [exact Hall|]. by intros.
    - injection H as <-. destruct (ensure_sort_by_id_ok base (Crud.sort q0) Hid Hs) as (? & ? & ?).
      by repeat split. }
  unfold ops, make_query_ops. rewrite Hp', Ho'. cbn [app]. split; [|split].
  - cbn. clear. generalize (filters q). intros fs. induction fs; cbn; [by destruct (offset q0)|done].
  - cbn. clear. generalize (filters q). intros fs. induction fs; cbn; [by destruct (offset q0)|done].
  - constructor; [done|]. apply Forall_app. split; [by apply Forall_fmap|]. apply Forall_app. split.
    + destruct (offset q0) as [o|]; [|constructor]. constructor; [by apply Ho|constructor].
    + constructor; [done|constructor].
Qed.
End UrlOps.

(** ** Deletions *)

Section Deletions.
Context {RL : RegexLib} {ML : MethodLib} {FT : FloatText} {QD : QuotedData} {JT : JsonText}.

(** The parameters a deletion filters by, and the condition of each. *)
Definition is_delete_filter (p : string * string) : bool :=
  match strip_prefix "." p.1 with Some _ => true | None => String.eqb p.1 "filter" end.

Definition delete_condition (base : Entity) (ts : TypeSystem) (p : string * string) : result Expr :=
  match strip_prefix "." p.1 with
  | Some key => filter_from_param base key p.2 ts
  | None => json_filter p.2
  end.

Lemma delete_query_conditions base uq ts fs : delete_query_to_filter base uq ts = Ok fs ->
  exists conds, Forall2 (fun p e => delete_condition base ts p = Ok e)
      (List.filter is_delete_filter uq) conds /\
    fs = foldl (fun acc expr =>
      match acc with Some filter => Some (mk_and filter expr) | None => Some expr end) None conds.
Proof.
  unfold delete_query_to_filter. intros H. apply bind_ok in H as (conds & Hc & [= <-]).
  exists conds. split; [|done]. revert Hc.
  apply (foldM_inv _ (fun uq conds => Forall2 (fun p e => delete_condition base ts p = Ok e)
    (List.filter is_delete_filter uq) conds)); [done|].
  intros l [k v] c1 c2 Hl H. rewrite List.filter_app. unfold delete_condition, is_delete_filter in *.
  cbn [List.filter fst snd]. destruct (strip_prefix "." k) as [k'|] eqn:Ek.
  - apply bind_ok in H as (e & He & [= <-]). apply with_context_ok in He.
    apply Forall2_app; [done|]. constructor; [|done]. cbn. by rewrite Ek.
  - destruct (String.eqb k "filter").
    + apply bind_ok in H as (e & He & [= <-]). apply Forall2_app; [done|]. constructor; [|done].
      cbn. by rewrite Ek.
    + injection H as <-. by rewrite app_nil_r.
Qed.

Lemma conjunction_runs like le conds rows :
  run_ops like le (match foldl (fun acc expr =>
      match acc with Some filter => Some (mk_and filter expr) | None => Some expr end) None conds with
    | Some e => [QFilter e] | None => [] end) (Rows rows) =
  Rows (List.filter (all_hold like conds) rows).
Proof.
  assert (forall conds acc, List.filter (all_hold like conds) (filter_opt like acc rows) =
    filter_opt like (foldl (fun acc expr =>
      match acc with Some filter => Some (mk_and filter expr) | None => Some expr end) acc conds) rows)
    as H.
  { clear. induction conds as [|e conds IH]; intros acc; cbn [foldl].
    - generalize (filter_opt like acc rows). intros l. induction l as [|r l IHl]; [done|]. cbn. by f_equal.
    - rewrite <- IH, <- filter_opt_filter, filter_filter. by apply List.filter_ext. }
  pose proof (H conds None) as Hn. cbn [filter_opt] in Hn. rewrite Hn. by destruct (foldl _ None conds).
Qed.

(** C35: a deletion by URL deletes, of the rows the policies let the user touch,
    exactly those for which every filter of the URL holds; and a URL without a
    filter is accepted only when it says [all=true]. *)
Theorem delete_from_url_spec fuel ctx name uq m like le rows :
  delete_from_url_query fuel ctx name uq = Ok m ->
  exists base guards conds,
    lookup_type (ctx_type_system ctx) name = Ok (TEntity base) /\
    Forall2 (fun p e => delete_condition base (ctx_type_system ctx) p = Ok e)
      (List.filter is_delete_filter uq) conds /\
    (conds = [] -> ("all", "true") ∈ uq) /\
    (exists ty, lookup_entity (ctx_type_system ctx) name = Ok ty /\ guards_of ctx ty guards) /\
    run_ops like le (operators (filter_query_plan m)) (Rows rows) =
      Rows (List.filter (all_hold like (guards ++ conds)) rows).
Proof.
  unfold delete_from_url_query. intros H. apply bind_ok in H as (base & Hb & H).
  apply bind_ok in H as (fs & Hfs & H). apply with_context_ok in Hfs.
  apply bind_unit_ok in H as [Hall H].
  destruct (delete_query_conditions _ _ _ _ Hfs) as (conds & Hconds & ->).
  destruct (delete_guarded _ _ _ _ _ H) as (ty & guards & Hty & Hg & Hby).
  exists base, guards, conds. split; [|split; [done|split; [|split; [by exists ty|]]]].
  - destruct (lookup_type _ name) as [[]| |]; try done. by injection Hb as ->.
  - intros ->. cbn in Hall. destruct (existsb _ uq) eqn:E; [|done].
    apply existsb_exists in E as ([k v] & Hin & E). apply andb_prop in E as [E1 E2].
    apply String.eqb_eq in E1 as ->. apply String.eqb_eq in E2 as ->. by apply list_elem_of_In.
  - rewrite (guarded_runs like le guards _ _ rows Hby).
    assert (forall l, List.filter (all_hold like (guards ++ conds)) l =
      List.filter (all_hold like conds) (List.filter (all_hold like guards) l)) as ->.
    { intros l. rewrite filter_filter. apply List.filter_ext. intros r. apply forallb_app. }
    rewrite <- conjunction_runs with (le := le). by destruct (foldl _ None conds).
Qed.
End Deletions.

(** ** Witnesses *)

Module CrudSample.

Definition sort_keys : list SortKey :=
  [{| field_name := "title"; ascending := false |}; {| field_name := "id"; ascending := true |}].

(** The cursor of the post with title [b] and id [2]. *)
Definition the_cursor : Cursor :=
  {| axes := [{| axis_key := {| field_name := "title"; ascending := false |}; axis_value := JString "b" |};
              {| axis_key := {| field_name := "id"; ascending := true |}; axis_value := JString "2" |}];
     forward := true; inclusive := false |}.

Definition texts : JsonText :=
  {| json_parse s := if String.eqb s "the cursor" then Some (cursor_to_json the_cursor) else None;
     json_print _ := "the cursor" |}.
Definition plain : Base64 := {| base64_encode s := s; base64_decode s := Some s |}.
Definition form : FormUrlencoded :=
  {| form_urlencoded l := String.concat "&" ((fun '(k, v) => k +:+ "=" +:+ v) <$> l) |}.

Lemma codecs : codecs_invert (JT := texts) (B64 := plain) the_cursor.
Proof. done. Qed.

Definition uq : list (string * string) := [("sort", "-title"); ("page_size", "2")].
Definition params : QueryParams := {| type_name := "Post"; url_path := "/posts"; url_query := uq |}.
Definition ts : TypeSystem := ctx_type_system Sample.ctx.

Definition query : Query :=
  {| page_size := 2; offset := None; cursor := None; Crud.sort := {| keys := sort_keys |};
     filters := [] |}.

Definition post_row (title id : string) : Sem.row := fun path =>
  match path with
  | ["title"] => VString title
  | ["id"] => VString id
  | _ => VNull
  end.
Definition post_json (title id : string) : json_object := [("id", JString id); ("title", JString title)].

Definition row_c := post_row "c" "1".
Definition row_b := post_row "b" "2".
Definition row_b' := post_row "b" "3".
Definition row_a := post_row "a" "4".
Definition table : list Sem.row := [row_a; row_b'; row_b; row_c].

(** The order of this table, in both directions: titles fall as ids grow. *)
Definition rank (r : Sem.row) : Z :=
  match r ["id"] with
  | VString s => default 0%Z (u64_parse s)
  | _ => 0
  end.
Definition descends (s : SortBy) : bool := match keys s with k :: _ => negb (ascending k) | [] => true end.
Definition le (s : SortBy) (x y : Sem.row) : bool :=
  if descends s then (rank x <=? rank y)%Z else (rank y <=? rank x)%Z.

Lemma le_total s x y : le s x y = true \/ le s y x = true.
Proof. unfold le. destruct (descends s); rewrite !Z.leb_le; lia. Qed.
Lemma le_trans s x y z : le s x y = true -> le s y z = true -> le s x z = true.
Proof. unfold le. destruct (descends s); rewrite !Z.leb_le; lia. Qed.

Lemma orders : orders_by le sort_keys [row_c; row_b; row_b'; row_a].
Proof.
  assert (forallb (fun x => forallb (fun y => forallb (fun ks =>
      negb (after ks x y) || (le {| keys := ks |} x y && negb (le {| keys := ks |} y x)))
      [sort_keys; flip <$> sort_keys]) [row_c; row_b; row_b'; row_a])
    [row_c; row_b; row_b'; row_a] = true) as H by (vm_compute; reflexivity).
  intros [ks] x y Hk Hx Hy Ha. rewrite forallb_forall in H. apply list_elem_of_In in Hx, Hy.
  specialize (H x Hx). rewrite forallb_forall in H. specialize (H y Hy). rewrite forallb_forall in H.
  assert (In ks [sort_keys; flip <$> sort_keys]) as Hin by (cbn in Hk |- *; destruct Hk; auto).
  specialize (H ks Hin). cbn [keys] in Ha. rewrite Ha in H. cbn [negb orb] in H.
  apply andb_prop in H as [H1 H2]. split; [done|]. by destruct (le _ y x).
Qed.

Lemma rows_ordered : ordered_rows (fun _ _ => false) query table ([row_c] ++ row_b :: [row_b'; row_a]).
Proof.
  split; [|repeat constructor].
  change (Permutation (rev ([row_c] ++ row_b :: [row_b'; row_a])) ([row_c] ++ row_b :: [row_b'; row_a])).
  symmetry. apply Permutation_rev.
Qed.

Definition floats : FloatText := Sample.floats.
End CrudSample.

Lemma cursor_filter_spec_witness :
  exists e, get_filter CrudSample.the_cursor Sample.post CrudSample.ts = Ok e /\
    keeps (fun _ _ => false) e CrudSample.row_b' = true /\
    keeps (fun _ _ => false) e CrudSample.row_c = false.
Proof.
  assert (is_ok (get_filter CrudSample.the_cursor Sample.post CrudSample.ts) = true) as Hok
    by (vm_compute; reflexivity).
  destruct (get_filter CrudSample.the_cursor Sample.post CrudSample.ts) as [e| |] eqn:E;
    [|discriminate Hok|discriminate Hok].
  assert (pivot_of CrudSample.row_b (axes CrudSample.the_cursor)) as Hp by (repeat constructor).
  exists e. split; [reflexivity|].
  split.
  - rewrite (proj1 (cursor_filter_spec (fun _ _ => false) _ _ _ e CrudSample.row_b CrudSample.row_b'
      E eq_refl Hp)). vm_compute. reflexivity.
  - rewrite (proj1 (cursor_filter_spec (fun _ _ => false) _ _ _ e CrudSample.row_b CrudSample.row_c
      E eq_refl Hp)). vm_compute. reflexivity.
Defined.

Lemma cursor_roundtrip_witness :
  (text ← cursor_to_string (JT := CrudSample.texts) (B64 := CrudSample.plain) CrudSample.the_cursor;
   cursor_from_string (JT := CrudSample.texts) (B64 := CrudSample.plain) text)
  = Ok CrudSample.the_cursor.
Proof.
  apply (cursor_roundtrip (JT := CrudSample.texts) (B64 := CrudSample.plain) CrudSample.the_cursor
    CrudSample.codecs).
  discriminate.
Defined.

(** The second page of the posts, two at a time. *)
Lemma page_link_spec_witness :
  exists q', from_url_query (FT := CrudSample.floats) (JT := CrudSample.texts)
      (B64 := CrudSample.plain) Sample.post
      (page_query CrudSample.uq "the cursor") CrudSample.ts = Ok q' /\
    run_ops (fun _ _ => false) CrudSample.le (make_query_ops q') (Rows CrudSample.table) =
    Rows [CrudSample.row_b'; CrudSample.row_a].
Proof.
  assert (is_ok (get_filter CrudSample.the_cursor Sample.post CrudSample.ts) = true) as Hok
    by (vm_compute; reflexivity).
  destruct (get_filter CrudSample.the_cursor Sample.post CrudSample.ts) as [e| |] eqn:E;
    [|discriminate Hok|discriminate Hok].
  destruct (page_link_spec (FT := CrudSample.floats) (JT := CrudSample.texts)
      (B64 := CrudSample.plain) (FU := CrudSample.form) (fun _ _ => false) CrudSample.le Sample.post
      CrudSample.ts CrudSample.uq CrudSample.query CrudSample.params
      [CrudSample.post_json "c" "1"; CrudSample.post_json "b" "2"]
      (CrudSample.post_json "b" "2") true CrudSample.the_cursor e CrudSample.table
      [CrudSample.row_c] CrudSample.row_b [CrudSample.row_b'; CrudSample.row_a])
    as (_ & q' & Hq' & _ & _ & Hrun).
  - exact CrudSample.le_total.
  - exact CrudSample.le_trans.
  - reflexivity.
  - vm_compute. reflexivity.
  - reflexivity.
  - reflexivity.
  - exact CrudSample.codecs.
  - exact E.
  - intros k Hk. cbn in Hk. repeat (apply elem_of_cons in Hk as [->|Hk]; [reflexivity|]).
    exfalso. by apply not_elem_of_nil in Hk.
  - exact CrudSample.rows_ordered.
  - exact CrudSample.orders.
  - exists q'. split; [exact Hq'|exact Hrun].
Defined.

(** A post without a title, last on its page. *)
Lemma null_pivot_link_refused_witness :
  exists c, get_page (JT := CrudSample.texts) (B64 := CrudSample.plain) (FU := CrudSample.form)
      CrudSample.params CrudSample.query [[("id", JString "9")]] true =
    Ok (Some (make_page_url (FU := CrudSample.form) "/posts" CrudSample.uq
      (cursor_text (JT := CrudSample.texts) (B64 := CrudSample.plain) c))).
Proof.
  destruct (null_pivot_link_refused (FT := CrudSample.floats) (JT := CrudSample.texts)
    (B64 := CrudSample.plain) (FU := CrudSample.form) Sample.post CrudSample.ts CrudSample.query
    CrudSample.params [[("id", JString "9")]] [("id", JString "9")] true
    {| field_name := "title"; ascending := false |}) as (c & Hc & _).
  - reflexivity.
  - by constructor.
  - reflexivity.
  - exists c. exact Hc.
Defined.

(** The reversed cursor keeps the post [b], [3], although it follows the pivot
    [b], [2] in the shown order. *)
Lemma empty_page_link_witness :
  exists e, get_filter (reversed CrudSample.the_cursor) Sample.post CrudSample.ts = Ok e /\
    keeps (fun _ _ => false) e CrudSample.row_b' = true.
Proof.
  assert (is_ok (get_filter (reversed CrudSample.the_cursor) Sample.post CrudSample.ts) = true) as Hok
    by (vm_compute; reflexivity).
  destruct (get_filter (reversed CrudSample.the_cursor) Sample.post CrudSample.ts) as [e| |] eqn:E;
    [|discriminate Hok|discriminate Hok].
  exists e. split; [reflexivity|].
  destruct (empty_page_link (JT := CrudSample.texts) (B64 := CrudSample.plain)
    (FU := CrudSample.form) CrudSample.params
    {| page_size := 2; offset := None; cursor := Some CrudSample.the_cursor;
       Crud.sort := {| keys := CrudSample.sort_keys |}; filters := [] |}
    CrudSample.the_cursor Sample.post CrudSample.ts e (fun _ _ => false) CrudSample.row_b'
    _ _ eq_refl eq_refl eq_refl) as [_ H].
  rewrite (H E). vm_compute. reflexivity.
Defined.

Lemma url_filter_spec_witness :
  exists e, filter_from_param (FT := CrudSample.floats) Sample.post "owner.email~like" "%a"
      CrudSample.ts = Ok e /\ expr_wf e = true.
Proof.
  pose proof (url_filter_spec (FT := CrudSample.floats) (fun _ _ => false) CrudSample.row_a Sample.post
    CrudSample.ts ["owner"; "email"] (Some "like") "%a") as H.
  assert (ok_option (convert_operator (Some "like")) = Some OpLike) as Eo by reflexivity.
  assert (field_path CrudSample.ts (TEntity Sample.post) ["owner"; "email"] ≫=
    (fun t => param_value (FT := CrudSample.floats) t "%a") = Some (VString "%a")) as Ev
    by (vm_compute; reflexivity).
  rewrite Eo, Ev in H.
  destruct H as (e & He & Hwf & _).
  - split; [discriminate|]. repeat (apply List.Forall_cons || apply List.Forall_nil);
      unfold no_char; cbn; intuition discriminate.
  - intros o [= <-]. unfold no_char. cbn. intuition discriminate.
  - exists e. split; [exact He|exact Hwf].
Defined.

Lemma url_query_ops_spec_witness :
  sorts_once false (make_query_ops CrudSample.query) = true.
Proof.
  apply (url_query_ops_spec (FT := CrudSample.floats) (JT := CrudSample.texts)
    (B64 := CrudSample.plain) Sample.post CrudSample.uq CrudSample.ts).
  - reflexivity.
  - vm_compute. reflexivity.
Defined.

Lemma delete_from_url_spec_witness :
  exists m, delete_from_url_query (RL := Policies.Sample.regexes) (ML := Policies.Sample.http_methods)
      (FT := CrudSample.floats) (JT := CrudSample.texts) 2 Sample.ctx "Post" [(".title", "x")] = Ok m /\
    exists gs, run_ops (fun _ _ => false) CrudSample.le (operators (filter_query_plan m))
        (Rows CrudSample.table) = Rows (List.filter (all_hold (fun _ _ => false) gs) CrudSample.table).
Proof.
  assert (is_ok (delete_from_url_query (RL := Policies.Sample.regexes)
    (ML := Policies.Sample.http_methods) (FT := CrudSample.floats) (JT := CrudSample.texts)
    2 Sample.ctx "Post" [(".title", "x")]) = true) as Hok by (vm_compute; reflexivity).
  destruct (delete_from_url_query (RL := Policies.Sample.regexes)
    (ML := Policies.Sample.http_methods) (FT := CrudSample.floats) (JT := CrudSample.texts)
    2 Sample.ctx "Post" [(".title", "x")]) as [m| |] eqn:E; [|discriminate Hok|discriminate Hok].
  exists m. split; [reflexivity|].
  destruct (delete_from_url_spec (FT := CrudSample.floats) (JT := CrudSample.texts) 2 Sample.ctx "Post"
    [(".title", "x")] m (fun _ _ => false) CrudSample.le CrudSample.table E)
    as (_ & guards & conds & _ & _ & _ & _ & H).
  exists (guards ++ conds). exact H.
Defined.
