(* ===== verification/EngineSpec.v ===== *)
(** * What the query engine promises

    An insertion binds every column to the value of its own field, stores the
    identifier of each nested object and inserts that object first; results
    show only what the field policies let through, at every depth; altering a
    table gives it the columns of the new type; arrays are validated to the type
    of their elements. *)

From S2P Require Import Prelude Json EntityValue Ident Types Builtin TypeSystem Policies Expr Query.
From S2P Require Import Filter Sql QuerySpec Engine.

(** ** The text of an insertion *)

(** The fields that get a placeholder: all but the optional ones without a
    value. *)
Definition is_bound (m : EntityMap) (f : Field) : bool :=
  match alist_get (fld_name f) m with
  | None => negb (fld_is_optional f)
  | Some v => negb (fld_is_optional f && is_null v)
  end.

(** The columns of an insertion: an optional field that is absent has none, one
    that is null is written as [NULL], the others take the placeholders in
    order. *)
Fixpoint numbered (m : EntityMap) (i : nat) (fs : list Field) : list (Field * option nat) :=
  match fs with
  | [] => []
  | f :: fs =>
      if is_bound m f then (f, Some (S i)) :: numbered m (S i) fs
      else match alist_get (fld_name f) m with
           | None => numbered m i fs
           | Some _ => (f, None) :: numbered m i fs
           end
  end.

Definition bind_text (b : option nat) : string :=
  match b with Some n => "$" +:+ pretty n | None => "NULL" end.

(** The placeholders are [$1], [$2], ... for the bound fields. *)
Lemma numbered_bound m fs : forall i,
  List.filter (fun c => match c.2 with Some _ => true | None => false end) (numbered m i fs) =
  zip (List.filter (is_bound m) fs) (Some <$> seq (S i) (List.length (List.filter (is_bound m) fs))).
Proof.
  induction fs as [|f fs IH]; intros i; [done|]. cbn. destruct (is_bound m f); cbn; [by rewrite IH|].
  destruct (alist_get (fld_name f) m); cbn; apply IH.
Qed.

Definition insert_text (ty : ObjectType) (cols : list (Field * option nat)) : string :=
  "INSERT INTO " +:+ quoted (obj_backing_table ty) +:+ " (" +:+
  str_join "," ((fun c => quoted (fld_name c.1)) <$> cols) +:+ ") VALUES (" +:+
  str_join "," ((fun c => bind_text c.2) <$> cols) +:+ ") ON CONFLICT (id) DO UPDATE SET " +:+
  str_join "," ((fun c => quoted (fld_name c.1) +:+ " = " +:+ bind_text c.2) <$> cols) +:+
  " WHERE " +:+ quoted (obj_backing_table ty) +:+ "." +:+ quoted "id" +:+ " = $1".

Fixpoint each_comma (l : list string) : string :=
  match l with [] => "" | s :: l => s +:+ "," +:+ each_comma l end.

Lemma each_comma_app a b : each_comma (a ++ b) = each_comma a +:+ each_comma b.
Proof. induction a as [|x a IH]; [done|]. cbn. by rewrite IH, !str_app_assoc. Qed.

Lemma str_pop_snoc s c : str_pop (s +:+ String c "") = s.
Proof.
  induction s as [|d s IH]; [done|]. cbn [String.append str_pop].
  destruct (s +:+ String c "") eqn:E; [by destruct s|]. by rewrite IH.
Qed.

Lemma each_comma_join l : l <> [] -> each_comma l = str_join "," l +:+ ",".
Proof.
  induction l as [|x l IH]; [done|]. intros _. destruct l as [|y l]; [done|].
  change (each_comma (x :: y :: l)) with (x +:+ "," +:+ each_comma (y :: l)). rewrite IH by done.
  change (str_join "," (x :: y :: l)) with (x +:+ "," +:+ str_join "," (y :: l)).
  by rewrite !str_app_assoc.
Qed.

Lemma pop_each_comma l : l <> [] -> str_pop (each_comma l) = str_join "," l.
Proof. intros H. rewrite each_comma_join by done. apply str_pop_snoc. Qed.

Section Text.
Context {UU : UuidLib}.

(** What the columns [cols] add to the texts. *)
Definition adds (cols : list (Field * option nat)) (s s' : InsertText) : Prop :=
  field_names s' = field_names s ++ ((fun c => fld_name c.1) <$> cols) /\
  field_binds s' = field_binds s +:+ each_comma ((fun c => bind_text c.2) <$> cols) /\
  update_binds s' = update_binds s +:+
    each_comma ((fun c => quoted (fld_name c.1) +:+ " = " +:+ bind_text c.2) <$> cols).

Lemma adds_trans c1 c2 s1 s2 s3 : adds c1 s1 s2 -> adds c2 s2 s3 -> adds (c1 ++ c2) s1 s3.
Proof.
  unfold adds. intros (-> & -> & ->) (-> & -> & ->).
  by rewrite !fmap_app, !each_comma_app, !str_app_assoc, app_assoc.
Qed.

Lemma bind_not_empty b : str_is_empty (bind_text b) = false.
Proof. by destruct b. Qed.

Lemma insert_column_adds m s f s' : insert_column m s f = Ok s' ->
  adds (numbered m (binds_made s) [f]) s s' /\
  binds_made s' = (if is_bound m f then S (binds_made s) else binds_made s) /\
  (str_is_empty (id_bind s) = false -> id_bind s' = id_bind s /\ id_name s' = id_name s) /\
  (fld_type_id f = IdId -> is_bound m f = true -> str_is_empty (id_bind s) = true /\
     id_bind s' = bind_text (Some (S (binds_made s))) /\ id_name s' = fld_name f).
Proof.
  unfold insert_column, is_bound. cbn [numbered]. unfold is_bound. intros H.
  set (val := alist_get (fld_name f) m) in *.
  destruct (match val with None => fld_is_optional f | Some _ => false end) eqn:Eskip.
  { injection H as <-. destruct val; [done|]. rewrite Eskip. cbn. unfold adds. cbn.
    by rewrite app_nil_r, !str_app_nil_r. }
  set (bound := match val with None => negb (fld_is_optional f)
    | Some v => negb (fld_is_optional f && is_null v) end).
  assert ((if fld_is_optional f && match val with Some v => is_null v | None => false end
     then ("NULL", binds_made s) else ("$" +:+ pretty (S (binds_made s)), S (binds_made s))) =
    if bound then (bind_text (Some (S (binds_made s))), S (binds_made s))
    else (bind_text None, binds_made s)) as Eb.
  { unfold bound. destruct val; [by destruct (_ && _)|]. rewrite Eskip. done. }
  rewrite Eb in H.
  assert ((if bound then [(f, Some (S (binds_made s)))] else match val with None => [] | Some _ => [(f, None)] end)
    = [(f, if bound then Some (S (binds_made s)) else None)]) as ->.
  { unfold bound. destruct val; [by destruct (negb _)|]. by rewrite Eskip. }
  assert (forall b i, (if bound then (bind_text (Some (S (binds_made s))), S (binds_made s))
     else (bind_text None, binds_made s)) = (b, i) ->
     b = bind_text (if bound then Some (S (binds_made s)) else None) /\
     i = if bound then S (binds_made s) else binds_made s) as Hb.
  { destruct bound; by intros b i [= <- <-]. }
  destruct (if bound then _ else _) as [b i]. destruct (Hb b i eq_refl) as [-> ->]. clear Hb Eb.
  set (bd := if bound then Some (S (binds_made s)) else None) in *.
  apply bind_ok in H as (s1 & H1 & [= <-]).
  assert (fld_type_id f = IdId \/ fld_type_id f <> IdId) as [Hid|Hid] by (destruct (decide (fld_type_id f = IdId)); auto).
  - rewrite bool_decide_eq_true_2 in H1 by done. apply bind_unit_ok in H1 as [_ H1].
    apply bind_unit_ok in H1 as [He [= <-]]. apply ensure_ok in He. cbn in He.
    split; [|split; [done|split; [by rewrite He|]]].
    + unfold adds. cbn. by rewrite !str_app_assoc.
    + intros _ Hbound. unfold bd. rewrite Hbound. done.
  - rewrite bool_decide_eq_false_2 in H1 by done. injection H1 as <-.
    split; [|split; [done|split; [done|done]]]. unfold adds. cbn. by rewrite !str_app_assoc.
Qed.

Lemma insert_columns_adds m fs : forall s s', foldM (insert_column m) s fs = Ok s' ->
  adds (numbered m (binds_made s) fs) s s' /\
  (str_is_empty (id_bind s) = false -> id_bind s' = id_bind s /\ id_name s' = id_name s).
Proof.
  induction fs as [|f fs IH]; intros s s' H; cbn [foldM] in H.
  { injection H as <-. unfold adds. cbn. by rewrite app_nil_r, !str_app_nil_r. }
  apply bind_ok in H as (s1 & H1 & H). apply insert_column_adds in H1 as (Ha & Hi & Hid & _).
  destruct (IH _ _ H) as [Hb Hid']. split.
  - assert (numbered m (binds_made s) (f :: fs) =
      numbered m (binds_made s) [f] ++ numbered m (binds_made s1) fs) as ->.
    { rewrite Hi. cbn [numbered]. destruct (is_bound m f); [done|]. by destruct (alist_get _ m). }
    by eapply adds_trans.
  - intros He. destruct (Hid He) as [E1 E2]. destruct Hid' as [E3 E4]; [by rewrite E1|]. split; congruence.
Qed.

Lemma make_insert_query_text ty m sql : obj_chisel_id ty = the_chisel_id ->
  make_insert_query ty m = Ok sql ->
  let cols := numbered m 0 (all_fields ty) in
  sql = insert_text ty cols /\ forall k, k ∈ m.*1 -> k ∈ (fun c => fld_name c.1) <$> cols.
Proof.
  intros Hchisel H. unfold make_insert_query in H. apply bind_ok in H as (s & Hs & H).
  apply bind_unit_ok in H as [Hk [= <-]].
  pose proof (insert_columns_adds _ _ _ _ Hs) as [Hadds _]. cbn zeta.
  change (binds_made _) with 0 in Hadds. set (cols := numbered m 0 (all_fields ty)) in *.
  assert (field_names s = (fun c => fld_name c.1) <$> cols /\
    field_binds s = each_comma ((fun c => bind_text c.2) <$> cols) /\
    update_binds s = each_comma ((fun c => quoted (fld_name c.1) +:+ " = " +:+ bind_text c.2) <$> cols))
    as (Hn & Hf & Hu) by exact Hadds. clear Hadds.
  assert (is_bound m the_chisel_id = true) as Hbound.
  { unfold is_bound. by destruct (alist_get (fld_name the_chisel_id) m). }
  assert (exists rest, cols = (the_chisel_id, Some 1) :: rest) as [rest Hcols].
  { unfold cols, all_fields. rewrite Hchisel. cbn [numbered]. rewrite Hbound. by eexists. }
  assert (id_bind s = "$1" /\ id_name s = "id") as [Hib Hin].
  { unfold all_fields in Hs. rewrite Hchisel in Hs. cbn [foldM] in Hs.
    apply bind_ok in Hs as (s1 & H1 & Hs). apply insert_column_adds in H1 as (_ & _ & _ & Hid).
    destruct (Hid eq_refl Hbound) as (_ & E1 & E2). apply insert_columns_adds in Hs as [_ Hkeep].
    rewrite E1 in Hkeep. destruct (Hkeep (bind_not_empty _)) as [-> ->]. by rewrite E2. }
  split.
  - rewrite Hn, Hf, Hu, Hib, Hin. unfold insert_text. rewrite <- list_fmap_compose.
    rewrite !pop_each_comma by (by rewrite Hcols). done.
  - intros k Hkm. destruct (foldM_ok_each _ _ _ _ k Hk Hkm) as (? & ? & He).
    apply ensure_ok, bool_decide_eq_true in He. by rewrite Hn in He.
Qed.
End Text.

(** ** Insertions *)

Section Insertion.
Context {FT : FloatText} {JT : JsonText} {UU : UuidLib} {BT : BytesText}.
Context (new_v4 : list string -> string) (ts : TypeSystem).

(** What a bound field stores: the identifier of a nested object, which is
    inserted by the statements [inserts] and recorded in [children]; the given
    identifier of a nested user; the converted value of any other field. *)
Definition stored (insert : list string -> ObjectType -> EntityMap -> result (list SqlWithArguments * IdTree))
    (path : list string) (m : EntityMap) (inserts : list SqlWithArguments)
    (children : list (string * IdTree)) (f : Field) (a : SqlValue) : Prop :=
  exists t, map_err ts_error (get ts (fld_type_id f)) = Ok t /\
  match t with
  | TEntity nested =>
      exists v, alist_get (fld_name f) m = Some (EvMap v) /\
      if is_auth nested
      then exists id, alist_get "id" v = Some (EvString id) /\ a = SqlString id
      else exists ins tree,
        insert (path ++ [fld_name f]) (object_type nested) v = Ok (ins, tree) /\
        a = SqlString (tree_id tree) /\ alist_get (fld_name f) children = Some tree /\
        (forall q, q ∈ ins -> q ∈ inserts)
  | _ => convert_to_argument (new_v4 path) f m = Ok a
  end.

Lemma stored_grows insert path m inserts inserts' children children' f a :
  (forall q, q ∈ inserts -> q ∈ inserts') ->
  (forall tree, alist_get (fld_name f) children = Some tree ->
     alist_get (fld_name f) children' = Some tree) ->
  stored insert path m inserts children f a -> stored insert path m inserts' children' f a.
Proof.
  intros Hi Hc (t & Ht & H). exists t. split; [done|]. destruct t; try done.
  destruct H as (v & Hv & H). exists v. split; [done|]. destruct (is_auth _); [done|].
  destruct H as (ins & tree & ? & ? & ? & ?). exists ins, tree. naive_solver.
Qed.

Lemma stored_all_grow insert path m inserts inserts' children children' fs args :
  (forall q, q ∈ inserts -> q ∈ inserts') ->
  (forall f, f ∈ fs -> forall tree, alist_get (fld_name f) children = Some tree ->
     alist_get (fld_name f) children' = Some tree) ->
  Forall2 (stored insert path m inserts children) fs args ->
  Forall2 (stored insert path m inserts' children') fs args.
Proof.
  intros Hi Hc H. induction H as [|f a fs args Hf _ IH]; constructor.
  - eapply stored_grows; [exact Hi| |exact Hf]. apply Hc. by constructor.
  - apply IH. intros g Hg. apply Hc. by constructor.
Qed.

Lemma insert_field_skips insert path m s f s' :
  insert_field new_v4 ts path m insert s f = Ok s' -> is_bound m f = false -> s' = s.
Proof.
  unfold insert_field, is_bound. intros H Hb.
  destruct (alist_get (fld_name f) m) as [v|]; apply negb_false_iff in Hb.
  - apply andb_prop in Hb as [Ho Hn]. rewrite Ho, Hn in H. by injection H.
  - rewrite Hb in H. by injection H.
Qed.

(** What one field changes. *)
Definition stores insert (path : list string) (m : EntityMap) (s : Inserting) (f : Field)
    (a : SqlValue) (inserts : list SqlWithArguments) (children : list (string * IdTree)) : Prop :=
  (exists extra, inserts = in_inserts s ++ extra) /\
  stored insert path m inserts children f a /\
  (forall n, n <> fld_name f -> alist_get n children = alist_get n (in_children s)).

Lemma field_argument_stores insert path m s f t a ins ch :
  map_err ts_error (get ts (fld_type_id f)) = Ok t ->
  field_argument new_v4 path m insert s f t = Ok (a, ins, ch) -> stores insert path m s f a ins ch.
Proof.
  intros Ht H. unfold field_argument in H.
  destruct t as [| | | | |nested| |];
    try (apply bind_ok in H as (x & Hx & [= <- <- <-]); apply with_context_ok in Hx;
         split; [by exists []; rewrite app_nil_r|split; [by eexists|done]]).
  apply bind_ok in H as (nv & Hnv & H). apply option_context_ok in Hnv.
  apply bind_ok in H as (v & Hv & H). apply with_context_ok in Hv.
  destruct nv; try done. injection Hv as ->. destruct (is_auth nested) eqn:Eauth.
  - destruct (alist_get "id" v) as [[| i | | | | | | |]|] eqn:Ei; try done. injection H as <- <- <-.
    split; [by exists []; rewrite app_nil_r|split; [|done]].
    exists (TEntity nested). split; [done|]. exists v. split; [done|]. rewrite Eauth. by exists i.
  - apply bind_ok in H as ([ni tree] & Hn & [= <- <- <-]). split; [by exists ni|split].
    + exists (TEntity nested). split; [done|]. exists v. split; [done|]. rewrite Eauth.
      exists ni, tree. rewrite alist_get_insert, String.eqb_refl. set_solver.
    + intros n Hn'. rewrite alist_get_insert. by destruct (String.eqb_spec n (fld_name f)).
Qed.

Lemma insert_field_stores insert path m s f s' :
  insert_field new_v4 ts path m insert s f = Ok s' -> is_bound m f = true ->
  exists a, in_args s' = in_args s ++ [a] /\
    stores insert path m s f a (in_inserts s') (in_children s') /\
    (if String.eqb (fld_name f) "id" then exists id, in_id s' = Some id /\ a = SqlString id
     else in_id s' = in_id s).
Proof.
  unfold insert_field. intros H Hb.
  assert (match alist_get (fld_name f) m with None => true | Some v => is_null v end &&
    fld_is_optional f = false) as E.
  { unfold is_bound in Hb. rewrite andb_comm. destruct (alist_get (fld_name f) m), (fld_is_optional f);
      by try apply negb_true_iff in Hb. }
  rewrite E in H. apply bind_ok in H as (t & Ht & H). apply bind_ok in H as ([[a ins] ch] & Ha & H).
  apply bind_ok in H as (id & Hid & [= <-]). cbn [in_args in_inserts in_children in_id].
  exists a. split; [done|]. split; [by eapply field_argument_stores|].
  destruct (String.eqb (fld_name f) "id"); [|by injection Hid].
  apply fmap_ok in Hid as (x & Hx & ->). apply option_context_ok in Hx. destruct a; try done.
  injection Hx as ->. by eexists.
Qed.

(** The loop over the fields. *)
Definition loop_stores insert path m (fs : list Field) (s : Inserting) : Prop :=
  Forall2 (stored insert path m (in_inserts s) (in_children s)) (List.filter (is_bound m) fs)
    (in_args s) /\
  (forall f, f ∈ fs -> fld_name f = "id" -> is_bound m f = true ->
     exists id, in_id s = Some id /\ SqlString id ∈ in_args s).

Lemma insert_fields_store insert path m fs s :
  NoDup (fld_name <$> fs) ->
  foldM (insert_field new_v4 ts path m insert)
    {| in_id := None; in_args := []; in_inserts := []; in_children := [] |} fs = Ok s ->
  loop_stores insert path m fs s.
Proof.
  intros Hnd H. revert Hnd. refine (foldM_inv _ (fun fs s => NoDup (fld_name <$> fs) ->
    loop_stores insert path m fs s) _ _ _ _ _ H).
  { intros _. split; [constructor|]. set_solver. }
  clear fs s H. intros fs f s s' IH H Hnd. rewrite fmap_app in Hnd.
  apply NoDup_app in Hnd as (Hnd & Hfresh & _). destruct (IH Hnd) as [Hall Hid].
  unfold loop_stores. rewrite List.filter_app. cbn [List.filter]. destruct (is_bound m f) eqn:Eb.
  2: { apply insert_field_skips in H as ->; [|done]. rewrite app_nil_r. split; [done|].
       intros g [Hg|Hg]%elem_of_app; [by apply Hid|]. apply list_elem_of_singleton in Hg as ->. congruence. }
  apply insert_field_stores in H as (a & -> & ([extra Hins] & Hst & Hch) & Hname); [|done]. split.
  - apply Forall2_app; [|by constructor].
    assert (forall g, g ∈ List.filter (is_bound m) fs -> fld_name g <> fld_name f) as Hne.
    { intros g [Hg _]%elem_of_List_filter Heq. apply (Hfresh (fld_name f)); [|cbn; by constructor].
      rewrite <- Heq. by apply list_elem_of_fmap_2. }
    eapply stored_all_grow; [intros q Hq; rewrite Hins; apply elem_of_app; by left| |exact Hall].
    intros g Hg tree. rewrite Hch; [done|by apply Hne].
  - intros g Hg Hgid Hgb. destruct (String.eqb_spec (fld_name f) "id") as [Hf|Hf].
    + destruct Hname as (id & ? & ->). exists id. split; [done|]. apply elem_of_app. right. by constructor.
    + rewrite Hname. apply elem_of_app in Hg as [Hg|Hg].
      * destruct (Hid g Hg Hgid Hgb) as (id & ? & ?). exists id. split; [done|]. apply elem_of_app. by left.
      * apply list_elem_of_singleton in Hg as ->. congruence.
Qed.
(** *** The depth of a value is enough fuel *)

Lemma max_list_elem l n : n ∈ l -> n <= foldr Nat.max 0 l.
Proof. induction l as [|x l IH]; cbn; [set_solver|]. intros [->|H]%elem_of_cons; [|apply IH in H]; lia. Qed.

Lemma nested_depth m k v : alist_get k m = Some v -> ev_depth v < ev_depth (EvMap m).
Proof.
  intros H. apply alist_get_some_in in H. cbn [ev_depth].
  assert (ev_depth v ∈ List.map (fun kv => ev_depth kv.2) m) as Hin.
  { apply list_elem_of_In, in_map_iff. exists (k, v). split; [done|]. by apply list_elem_of_In. }
  apply max_list_elem in Hin. lia.
Qed.

Lemma insert_field_ext insert1 insert2 path m s f :
  (forall p ty v, alist_get (fld_name f) m = Some (EvMap v) -> insert1 p ty v = insert2 p ty v) ->
  insert_field new_v4 ts path m insert1 s f = insert_field new_v4 ts path m insert2 s f.
Proof.
  intros Hext. unfold insert_field. destruct (_ && _); [done|].
  destruct (map_err ts_error _) as [t| |]; try done. cbn [mbind outcome_bind].
  enough (field_argument new_v4 path m insert1 s f t = field_argument new_v4 path m insert2 s f t) as -> by done.
  unfold field_argument. destruct t as [| | | | |e| |]; try done.
  destruct (alist_get (fld_name f) m) as [v|] eqn:Ev; [|done]. cbn.
  destruct v; try done. cbn. destruct (is_auth e); [done|]. by rewrite (Hext _ _ _ eq_refl).
Qed.

Lemma foldM_ext {E S A} (f g : S -> A -> outcome E S) s l :
  (forall s x, f s x = g s x) -> foldM f s l = foldM g s l.
Proof.
  intros H. revert s. induction l as [|x l IH]; intros s; [done|]. cbn [foldM]. rewrite H.
  destruct (g s x); try done. cbn. apply IH.
Qed.

Lemma prepare_insertion_enough n : forall fuel path ty m,
  n = ev_depth (EvMap m) -> n <= fuel ->
  prepare_insertion_fuel new_v4 fuel ts path ty m = prepare_insertion_fuel new_v4 n ts path ty m.
Proof.
  induction n as [n IH] using lt_wf_ind. intros fuel path ty m Hn Hle.
  assert (exists k, n = S k) as [k Hk] by (rewrite Hn; by eexists). rewrite Hk in *.
  destruct fuel as [|fuel]; [lia|]. cbn [prepare_insertion_fuel].
  erewrite foldM_ext; [reflexivity|]. intros s f. apply insert_field_ext. intros p ty' v Hv.
  pose proof (nested_depth _ _ _ Hv) as Hd. rewrite <- Hn in Hd.
  rewrite (IH (ev_depth (EvMap v))) by lia. symmetry. apply IH; lia.
Qed.

(** The insertion of an object at a path, and of the objects it nests. *)
Definition insert_at (path : list string) (ty : ObjectType) (m : EntityMap)
    : result (list SqlWithArguments * IdTree) :=
  prepare_insertion_fuel new_v4 (ev_depth (EvMap m)) ts path ty m.

Lemma insert_at_unfold path ty m r : insert_at path ty m = Ok r -> exists s text id,
  foldM (insert_field new_v4 ts path m insert_at)
    {| in_id := None; in_args := []; in_inserts := []; in_children := [] |} (all_fields ty) = Ok s /\
  make_insert_query ty m = Ok text /\ in_id s = Some id /\
  r = (in_inserts s ++ [{| sql := text; args := in_args s |}], MkIdTree id (in_children s)).
Proof.
  unfold insert_at at 1. destruct (ev_depth (EvMap m)) as [|k] eqn:Ed; [done|].
  cbn [prepare_insertion_fuel]. intros H. apply bind_ok in H as (s & Hs & H).
  apply bind_ok in H as (text & Htext & H). apply bind_ok in H as (id & Hid & [= <-]).
  apply option_context_ok in Hid. exists s, text, id. split; [|done]. rewrite <- Hs.
  apply foldM_ext. intros s' f. apply insert_field_ext. intros p ty' v Hv. symmetry.
  apply prepare_insertion_enough; [done|]. apply nested_depth in Hv. lia.
Qed.
End Insertion.

(** C37: an insertion stores every field in its own column.  The statements end
    with the insertion of the object itself, after those of every object it
    nests; its text names the columns with a placeholder, or [NULL], for each,
    and covers every field the object gives; the placeholders are [$1], [$2],
    ... in the order of the bound fields; the arguments are, in that order, the
    value of the field, or the identifier under which the nested object was
    inserted; and the identifier that is reported is the one that is stored.
    The nested objects are inserted in the same way. *)
Theorem insertion_spec {FT : FloatText} {JT : JsonText} {UU : UuidLib} {BT : BytesText}
    new_v4 ts path ty m inserts tree :
  prepare_insertion new_v4 ty m ts = insert_at new_v4 ts [] ty m /\
  (obj_chisel_id ty = the_chisel_id -> NoDup (fld_name <$> all_fields ty) ->
   insert_at new_v4 ts path ty m = Ok (inserts, tree) ->
   exists before sql args,
    inserts = before ++ [{| sql := sql; args := args |}] /\
    let cols := numbered m 0 (all_fields ty) in
    sql = insert_text ty cols /\
    (forall k, k ∈ m.*1 -> k ∈ (fun c => fld_name c.1) <$> cols) /\
    List.filter (fun c => match c.2 with Some _ => true | None => false end) cols =
      zip (List.filter (is_bound m) (all_fields ty)) (Some <$> seq 1 (List.length args)) /\
    Forall2 (stored new_v4 ts (insert_at new_v4 ts) path m before (tree_children tree))
      (List.filter (is_bound m) (all_fields ty)) args /\
    SqlString (tree_id tree) ∈ args).
Proof.
  split; [done|]. intros Hchisel Hnd H.
  apply insert_at_unfold in H as (s & text & id & Hs & Htext & Hid & [= -> ->]).
  destruct (make_insert_query_text _ _ _ Hchisel Htext) as [-> Hkeys].
  apply insert_fields_store in Hs as [Hall Hidarg]; [|done].
  exists (in_inserts s), (insert_text ty (numbered m 0 (all_fields ty))), (in_args s).
  split; [done|]. split; [done|]. split; [done|]. split; [|split; [done|]].
  - rewrite numbered_bound. by rewrite (Forall2_length _ _ _ Hall).
  - destruct (Hidarg the_chisel_id) as (id' & Hid' & Hin).
    + unfold all_fields. rewrite Hchisel. by constructor.
    + done.
    + unfold is_bound. by destruct (alist_get _ m).
    + cbn. congruence.
Qed.

(** ** What rows show *)

Section Shown.
Context {RL : RegexLib} {ML : MethodLib}.
Context {R : Type} {RW : AnyRow R} (db_kind : TargetDatabase) (row : R).

(** What a field of a plan puts into the result, when it puts something. *)
Definition field_shows (qf : QueryField) (n : string) (v : EntityValue) : Prop :=
  match qf with
  | QfScalar name type_id _ column_idx transform keep =>
      n = name /\ keep = Keep /\
      exists raw, scalar_value db_kind row column_idx type_id = Ok raw /\ v = transformed transform raw
  | QfEntity name _ transform keep fields =>
      n = name /\ keep = Keep /\
      exists m, row_to_entity_value db_kind fields row = Ok m /\ v = transformed transform (EvMap m)
  end.

Lemma field_to_value_shows ret qf ret' : field_to_value db_kind row ret qf = Ok ret' ->
  ret' = ret \/ exists n v, ret' = alist_insert n v ret /\ field_shows qf n v.
Proof.
  destruct qf as [name t opt idx tr keep|name opt tr keep fields]; cbn [field_to_value]; intros H.
  - destruct (is_omitted keep) eqn:Ek; [left; by injection H|]. cbn [orb] in H.
    destruct (opt && column_is_null row idx); [left; by injection H|].
    apply bind_ok in H as (raw & Hraw & [= <-]). right. eexists _, _. split; [done|].
    destruct keep; [|done]. by repeat split; eexists.
  - destruct (is_omitted keep) eqn:Ek.
    { cbn in H. left. by injection H. }
    apply bind_ok in H as (skip & _ & H). destruct skip; [left; by injection H|].
    apply bind_ok in H as (m & Hm & [= <-]). right. eexists _, _. split; [done|].
    destruct keep; [|done]. by repeat split; eexists.
Qed.

Lemma row_shows fields m n v : row_to_entity_value db_kind fields row = Ok m ->
  alist_get n m = Some v -> exists qf, qf ∈ fields /\ field_shows qf n v.
Proof.
  intros H. revert n v. revert H. unfold row_to_entity_value.
  apply (foldM_inv _ (fun fields m => forall n v, alist_get n m = Some v ->
    exists qf, qf ∈ fields /\ field_shows qf n v)); [done|].
  intros fs qf m1 m2 IH H n v Hv. apply field_to_value_shows in H as [->|(n' & v' & -> & Hs)].
  - destruct (IH _ _ Hv) as (qf' & ? & ?). exists qf'. split; [|done]. apply elem_of_app. by left.
  - rewrite alist_get_insert in Hv. destruct (String.eqb_spec n n') as [->|].
    + injection Hv as <-. exists qf. split; [|done]. apply elem_of_app. right. by constructor.
    + destruct (IH _ _ Hv) as (qf' & ? & ?). exists qf'. split; [|done]. apply elem_of_app. by left.
Qed.

(** A result that shows no more of an entity than its policies let through: no
    field that is left out, the transformation applied where there is one, the
    column of the field behind every scalar, and so at every depth. *)
Inductive shown (ctx : DataContext) (cs : list Column) : Entity -> EntityMap -> Prop :=
  | shown_intro ty m :
      (forall n v, alist_get n m = Some v ->
         exists f raw, f ∈ all_fields (object_type ty) /\ fld_name f = n /\
           n ∉ fp_omit (ctx_field_policies ctx ty) /\
           v = transformed (fp_transforms (ctx_field_policies ctx ty) !! n) raw /\
           shown_field ctx cs f raw) ->
      shown ctx cs ty m
with shown_field (ctx : DataContext) (cs : list Column) : Field -> EntityValue -> Prop :=
  | shown_scalar f raw alias idx :
      column_for cs alias f idx -> scalar_value db_kind row idx (fld_type_id f) = Ok raw ->
      shown_field ctx cs f raw
  | shown_entity f ty m :
      ctx_get ctx (fld_type_id f) = Ok (TEntity ty) -> shown ctx cs ty m ->
      shown_field ctx cs f (EvMap m).

Lemma entity_shows ctx cs : forall e, entity_ok ctx cs e -> forall m,
  row_to_entity_value db_kind (qe_fields e) row = Ok m -> shown ctx cs (qe_ty e) m.
Proof.
  fix rec 2. intros e [fields ty alias joins Hf] m Hm. constructor. intros n v Hv. cbn [qe_fields qe_ty] in *.
  destruct (row_shows _ _ _ _ Hm Hv) as (qf & Hqf & Hs). clear Hm Hv.
  induction Hf as [|f qf' fs qfs Hok _ IH]; [by apply not_elem_of_nil in Hqf|].
  apply elem_of_cons in Hqf as [->|Hqf].
  2: { destruct (IH Hqf) as (g & raw & ? & ?). exists g, raw. split; [by constructor|done]. }
  clear IH. assert (is_omitted (field_mask (ctx_field_policies ctx ty) f).2 = false ->
    fld_name f ∉ fp_omit (ctx_field_policies ctx ty)) as Hkeep.
  { unfold field_mask. cbn. by case_bool_decide. }
  destruct Hok as [idx Hc|e' Ht Hj He'].
  - destruct Hs as (-> & Hk & raw & Hraw & ->). exists f, raw. split; [by constructor|]. split; [done|].
    split; [apply Hkeep; by rewrite Hk|]. split; [done|]. by econstructor.
  - destruct Hs as (-> & Hk & m' & Hm' & ->). exists f, (EvMap m'). split; [by constructor|].
    split; [done|]. split; [apply Hkeep; by rewrite Hk|]. split; [done|].
    econstructor; [exact Ht|]. exact (rec e' He' m' Hm').
Qed.
End Shown.

Lemma alist_get_filter {A} (P : string -> bool) n (m : list (string * A)) :
  alist_get n (List.filter (fun '(k, _) => P k) m) = if P n then alist_get n m else None.
Proof.
  induction m as [|[k v] m IH]; [by destruct (P n)|]. cbn. destruct (P k) eqn:Ek; cbn; rewrite IH;
    destruct (String.eqb_spec n k) as [->|]; [by rewrite Ek| |by rewrite Ek|]; by destruct (P n).
Qed.

(** C36: a result never shows more than the field policies of the request allow.
    Of every row the plan of an operator chain reads, the object that is
    returned has no property the policies leave out, has the transformation of
    the policies applied to every property that has one, and is read from the
    columns of its own fields, in the entity itself and in every entity nested
    in it; and a projection returns only the properties it names. *)
Theorem results_masked {RL : RegexLib} {ML : MethodLib} {R : Type} {RW : AnyRow R}
    fuel ctx chain plan db_kind (row : R) allowed m :
  models_distinct ctx -> from_op_chain fuel ctx chain = Ok plan ->
  project (row_to_entity_value db_kind (qe_fields (entity plan)) row) allowed = Ok m ->
  shown db_kind row ctx (columns plan) (qe_ty (entity plan)) m /\
  (forall fs, allowed = Some fs -> forall k, k ∈ m.*1 -> k ∈ fs).
Proof.
  intros Hmodels Hplan H. unfold project in H. apply bind_ok in H as (o & Ho & [= <-]).
  pose proof (entity_shows db_kind row ctx _ _ (op_chain_entity_ok _ _ _ _ Hmodels Hplan) o Ho) as Hs.
  destruct allowed as [fs|]; [|by split].
  split.
  - destruct Hs as [ty o Hs]. constructor. intros n v Hv. apply Hs.
    rewrite (alist_get_filter (fun k => bool_decide (k ∈ fs))) in Hv. by destruct (bool_decide _).
  - intros fs' [= <-] k ((k' & v) & -> & Hin)%list_elem_of_fmap.
    apply elem_of_List_filter in Hin as [_ Hk]. by apply bool_decide_eq_true in Hk.
Qed.

(** ** Tables *)

Definition find_col (n : string) (cols : list ColumnDef) : option ColumnDef :=
  List.find (fun c => String.eqb (cd_name c) n) cols.

(** What a statement does to the columns of a table. *)
Definition run_statement (table : string) (cols : list ColumnDef) (s : Statement) : list ColumnDef :=
  match s with
  | AddColumn t c => if String.eqb t table then cols ++ [c] else cols
  | DropColumn t n =>
      if String.eqb t table then List.filter (fun c => negb (String.eqb (cd_name c) n)) cols else cols
  | _ => cols
  end.

Definition run_statements (table : string) (cols : list ColumnDef) (l : list Statement)
    : list ColumnDef := foldl (run_statement table) cols l.

Definition keeps_columns (s : Statement) : bool :=
  match s with AddColumn _ _ | DropColumn _ _ => false | _ => true end.

Lemma run_kept table cols l : forallb keeps_columns l = true -> run_statements table cols l = cols.
Proof.
  revert cols. induction l as [|s l IH]; intros cols; [done|]. cbn. intros [Hs Hl]%andb_prop.
  rewrite <- (IH cols Hl) at 2. unfold run_statements; cbn. f_equal. by destruct s.
Qed.

Lemma exec_each_kept {A} (f : A -> executed) l :
  (forall x, forallb keeps_columns (f x).1 = true) -> forallb keeps_columns (exec_each f l).1 = true.
Proof.
  intros H. induction l as [|x l IH]; [done|]. unfold exec_each; cbn. fold (exec_each f l).
  specialize (H x). destruct (f x) as [s [u| |]]; cbn in *; [|done..]. by rewrite forallb_app, H, IH.
Qed.

Lemma exec_each_all {A} (f : A -> Statement) l :
  exec_each (fun x => exec (f x)) l = (f <$> l, Ok ()).
Proof.
  induction l as [|x l IH]; [done|].
  change (exec_then (exec (f x)) (exec_each (fun x => exec (f x)) l) = (f x :: (f <$> l), Ok ())).
  by rewrite IH.
Qed.

Lemma index_statements_kept ty l :
  forallb keeps_columns (drop_indexes ty l).1 = true /\
  forallb keeps_columns (create_indexes ty l).1 = true.
Proof.
  split; apply exec_each_kept; intros i;
    (destruct (index_name i ≫= _); [done|done|done]).
Qed.

Lemma exec_then_ok a b l : exec_then a b = (l, Ok ()) -> l = a.1 ++ b.1 /\ b.2 = Ok ().
Proof. destruct a as [la [[]| |]]; cbn; [|discriminate..]. by intros [= <- ->]. Qed.

Lemma alter_table_columns ty delta l cols : alter_table ty delta = (l, Ok ()) ->
  run_statements (obj_backing_table ty) cols l =
  List.filter (fun c => negb (existsb (fun f => String.eqb (fld_name f) (cd_name c)) (removed_fields delta)))
    (cols ++ (column_def <$> added_fields delta)).
Proof.
  unfold alter_table. rewrite !exec_each_all. intros H.
  apply exec_then_ok in H as [-> H].
  destruct (index_statements_kept ty (removed_indexes delta)) as [Hd _].
  destruct (index_statements_kept ty (obj_indexes ty)) as [_ Hc].
  pose proof (fun cs => run_kept (obj_backing_table ty) cs _ Hd) as Hd'.
  pose proof (fun cs => run_kept (obj_backing_table ty) cs _ Hc) as Hc'.
  unfold run_statements in *. cbn [exec_then fst snd]. rewrite !foldl_app, Hd'.
  assert (forall l cols, foldl (run_statement (obj_backing_table ty)) cols
    ((fun f => AddColumn (obj_backing_table ty) (column_def f)) <$> l) = cols ++ (column_def <$> l)) as Hadd.
  { induction l as [|f l IH]; intros cs; cbn; [by rewrite app_nil_r|].
    by rewrite String.eqb_refl, IH, <- app_assoc. }
  assert (forall l cols, foldl (run_statement (obj_backing_table ty)) cols
    ((fun f => DropColumn (obj_backing_table ty) (fld_name f)) <$> l) =
    List.filter (fun c => negb (existsb (fun f => String.eqb (fld_name f) (cd_name c)) l)) cols) as Hdrop.
  { induction l as [|f l IH]; intros cs; cbn.
    - clear. induction cs as [|c cs IHc]; cbn; [done|by f_equal].
    - rewrite String.eqb_refl, IH, filter_filter. apply List.filter_ext. intros c.
      rewrite String.eqb_sym. by destruct (String.eqb _ _). }
  by rewrite Hadd, Hdrop, Hc'.
Qed.

Lemma find_col_app n a b : find_col n (a ++ b) =
  match find_col n a with Some c => Some c | None => find_col n b end.
Proof. unfold find_col. induction a as [|c a IH]; [done|]. cbn. by destruct (String.eqb (cd_name c) n). Qed.

Lemma find_col_filter (P : string -> bool) n cols :
  find_col n (List.filter (fun c => P (cd_name c)) cols) = if P n then find_col n cols else None.
Proof.
  unfold find_col. induction cols as [|c cols IH]; [by destruct (P n)|]. cbn.
  destruct (P (cd_name c)) eqn:Ep; cbn; rewrite IH;
    destruct (String.eqb_spec (cd_name c) n) as [<-|]; [by rewrite Ep| |by rewrite Ep|]; by destruct (P n).
Qed.

Lemma find_col_fields n fs :
  find_col n (column_def <$> fs) = column_def <$> List.find (fun f => String.eqb (fld_name f) n) fs.
Proof. unfold find_col. induction fs as [|f fs IH]; [done|]. cbn. by destruct (String.eqb (fld_name f) n). Qed.

(** A field of a type, by the map of its fields and the identifier. *)
Lemma get_field_map ty n : obj_chisel_id ty = the_chisel_id -> NoDup (fld_name <$> all_fields ty) ->
  get_field ty n = if String.eqb "id" n then Some the_chisel_id else alist_get n (field_map_from ty).
Proof.
  intros Hid Hnd. unfold get_field, all_fields in *. rewrite Hid in *. cbn in Hnd |- *.
  destruct (String.eqb "id" n); [done|]. apply NoDup_cons in Hnd as [_ Hnd].
  destruct (List.find _ (obj_fields ty)) as [f|] eqn:Ef.
  - apply List.find_some in Ef as [Hin Hn]. apply String.eqb_eq in Hn. symmetry.
    apply field_map_get_iff; [done|]. split; [by apply list_elem_of_In|done].
  - symmetry. destruct (alist_get n (field_map_from ty)) as [f|] eqn:E; [|done].
    apply field_map_get in E as [Hin Hn]. apply list_elem_of_In in Hin.
    pose proof (List.find_none _ _ Ef f Hin) as Hne. cbn in Hne. by rewrite Hn, String.eqb_refl in Hne.
Qed.

(** Altering a table for the delta of two versions of a type leaves it with
    exactly the columns of the fields of the new version: the columns of new
    fields are added with their type and uniqueness, those of removed fields
    dropped.  A field that both versions have keeps the column of the old one,
    also when the delta, for a table that is empty, changes its type or makes it
    unique. *)
Theorem alter_table_spec ts old_type new_type unsafe delta ty statements :
  obj_chisel_id old_type = the_chisel_id -> obj_chisel_id new_type = the_chisel_id ->
  NoDup (fld_name <$> all_fields old_type) -> NoDup (fld_name <$> all_fields new_type) ->
  generate_type_delta ts old_type new_type unsafe = Ok delta ->
  alter_table ty delta = (statements, Ok ()) ->
  forall n,
    find_col n (run_statements (obj_backing_table ty) (column_def <$> all_fields old_type) statements) =
    match get_field new_type n, get_field old_type n with
    | None, _ => None
    | Some f, None => Some (column_def f)
    | Some _, Some old => Some (column_def old)
    end.
Proof.
  intros Hoid Hnid Hond Hnnd Hdelta Halter n. rewrite (alter_table_columns _ _ _ _ Halter).
  apply generate_type_delta_ok in Hdelta as (_ & _ & _ & ->). cbn [removed_fields added_fields].
  set (old := field_map_from old_type). set (new := field_map_from new_type).
  rewrite (find_col_filter (fun k => negb (existsb (fun f => String.eqb (fld_name f) k)
    (remove_all new.*1 old).*2))), find_col_app, !find_col_fields.
  change (List.find _ (all_fields old_type)) with (get_field old_type n).
  rewrite (find_added old new n) by (apply field_map_nodup || (intros ??; apply field_map_entry_name)).
  rewrite !get_field_map by done. fold old. fold new.
  destruct (existsb (fun f => String.eqb (fld_name f) n) (remove_all new.*1 old).*2) eqn:Ex; cbn [negb].
  - apply existsb_removed in Ex as [Hn [g Hg]]. fold old in Hg. rewrite <- alist_get_none in Hn.
    destruct (String.eqb_spec "id" n) as [<-|]; [|by rewrite Hn].
    exfalso. apply field_map_get in Hg as [Hin Hname]. cbn in Hond. rewrite Hoid in Hond.
    apply NoDup_cons in Hond as [Hid _]. apply Hid. cbn. rewrite <- Hname. by apply list_elem_of_fmap_2.
  - destruct (String.eqb "id" n); [done|]. destruct (alist_get n new) as [f|] eqn:Ef.
    + by destruct (alist_get n old).
    + destruct (alist_get n old) as [g|] eqn:Eg; [|done].
      assert (existsb (fun f => String.eqb (fld_name f) n) (remove_all new.*1 old).*2 = true) as Hex.
      { apply existsb_removed. split; [by apply alist_get_none|]. fold old. by rewrite Eg. }
      congruence.
Qed.

(** ** Arrays *)

(** The types the elements of an array can be validated to. *)
Fixpoint storable (t : TypeId) : bool :=
  match t with
  | IdArrayBuffer | IdEntity _ _ => false
  | IdArray t => storable t
  | _ => true
  end.

(** An element of the type. *)
Fixpoint element_ok (t : TypeId) (v : EntityValue) : bool :=
  match t with
  | IdString | IdId | IdEntityId _ => is_string v
  | IdFloat => is_f64 v
  | IdInt64 => is_i64 v
  | IdBoolean => is_boolean v
  | IdJsDate => is_date v || is_f64 v
  | IdArray t => match v with EvArray l => forallb (element_ok t) l | _ => false end
  | IdArrayBuffer | IdEntity _ _ => false
  end.

Lemma foldM_checks {A} (check : A -> result unit) (ok : A -> bool) l :
  (forall x, is_panic (check x) = false /\ is_ok (check x) = ok x) ->
  is_panic (foldM (fun _ x => check x) () l) = false /\
  is_ok (foldM (fun _ x => check x) () l) = forallb ok l.
Proof.
  intros H. induction l as [|x l IH]; [done|]. cbn. destruct (H x) as [Hp Ho].
  destruct (check x) as [[]| |]; cbn in *; [by rewrite <- Ho|by rewrite <- Ho|done].
Qed.

Lemma ensure_checks (b : bool) msg : is_panic (ensure b msg) = false /\ is_ok (ensure b msg) = b.
Proof. by destruct b. Qed.

(** The validation of an array accepts exactly the arrays whose elements,
    at every depth, are of the type, and never panics, for the types whose
    elements can be validated; for an array of binary values or of entities,
    types that a model may declare, it panics on every array that is not
    empty. *)
Theorem validate_array_spec t v :
  (storable t = true ->
     is_panic (validate_array t v) = false /\
     is_ok (validate_array t v) = match v with EvArray l => forallb (element_ok t) l | _ => false end) /\
  (match t with IdArrayBuffer | IdEntity _ _ => true | _ => false end = true ->
     forall e l, v = EvArray (e :: l) -> is_panic (validate_array t v) = true).
Proof.
  split.
  - revert v. induction t as [| | | | | | |n|n v'|t IH]; intros v Hs; try done;
      (destruct v; try done; cbn [validate_array as_array mbind outcome_bind]; apply foldM_checks;
       intros x); try apply ensure_checks.
    specialize (IH x Hs). rewrite is_panic_with_context. destruct IH as [Hp Ho]. split; [done|].
    change (element_ok (IdArray t) x) with
      (match x with EvArray l => forallb (element_ok t) l | _ => false end).
    rewrite <- Ho. by destruct (validate_array t x).
  - intros Ht e l ->. by destruct t.
Qed.

(** ** Witnesses *)

Module EngineSample.

Definition uuids : UuidLib := {| uuid_parse _ := true |}.
Definition bytes : BytesText := {| bytes_base64 _ := "" |}.
Definition texts : JsonText := {| json_parse _ := None; json_print _ := "" |}.
Definition new_v4 (path : list string) : string := "uuid" +:+ str_join "_" path.

(** A comment, on a post by a user. *)
Definition comment : ObjectType :=
  {| obj_meta_id := Some 2%Z; obj_name := "Comment";
     obj_fields := [Sample.the_field "text" IdString []; Sample.the_field "post" (IdEntity "Post" "dev") []];
     obj_indexes := []; obj_chisel_id := the_chisel_id; obj_backing_table := "ty_Comment";
     obj_version_id := "dev" |}.

Definition comment_value : EntityMap :=
  [("text", EvString "nice");
   ("post", EvMap [("title", EvString "t"); ("age", EvFloat64 (f64_of_Z 3));
                   ("owner", EvMap [("id", EvString "u1")])])].

Definition ts : TypeSystem := ctx_type_system Sample.ctx.

(** A row of the plan of [Sample]: every text column reads as [text]. *)
Definition text_rows : AnyRow string :=
  {| column_is_null _ _ := false; row_f64 _ _ := Ok (f64_of_Z 1); row_i64 _ _ := Ok 1%Z;
     row_str r _ := Ok r; row_bool _ _ := Ok true; row_bytes _ _ := Ok []; row_json _ _ := Ok JNull |}.
End EngineSample.

(** A comment on a new post: the post is inserted first, under the identifier
    that the comment stores. *)
Lemma insertion_spec_witness :
  exists inserts tree before sql args,
    insert_at (FT := Sample.floats) (JT := EngineSample.texts) (UU := EngineSample.uuids)
      (BT := EngineSample.bytes) EngineSample.new_v4 EngineSample.ts [] EngineSample.comment
      EngineSample.comment_value = Ok (inserts, tree) /\
    inserts = before ++ [{| sql := sql; args := args |}] /\
    sql = insert_text EngineSample.comment
      (numbered EngineSample.comment_value 0 (all_fields EngineSample.comment)).
Proof.
  assert (is_ok (insert_at (FT := Sample.floats) (JT := EngineSample.texts) (UU := EngineSample.uuids)
      (BT := EngineSample.bytes) EngineSample.new_v4 EngineSample.ts [] EngineSample.comment
      EngineSample.comment_value) = true) as Hok by (vm_compute; reflexivity).
  destruct (insert_at (FT := Sample.floats) (JT := EngineSample.texts) (UU := EngineSample.uuids)
      (BT := EngineSample.bytes) EngineSample.new_v4 EngineSample.ts [] EngineSample.comment
      EngineSample.comment_value) as [[inserts tree]| |] eqn:E; [|discriminate Hok|discriminate Hok].
  destruct (insertion_spec (FT := Sample.floats) (JT := EngineSample.texts) (UU := EngineSample.uuids)
    (BT := EngineSample.bytes) EngineSample.new_v4 EngineSample.ts [] EngineSample.comment
    EngineSample.comment_value inserts tree) as [_ H].
  destruct (H eq_refl) as (before & sql & args & Hi & Hsql & _).
  - apply (bool_decide_unpack _). vm_compute. exact I.
  - exact E.
  - exists inserts, tree, before, sql, args. split; [reflexivity|split; [exact Hi|exact Hsql]].
Defined.

Lemma results_masked_witness :
  exists m, project (row_to_entity_value (RW := EngineSample.text_rows) Sqlite
      (qe_fields (entity Sample.plan)) "x") (Some {["title"]}) = Ok m /\
    forall k, k ∈ m.*1 -> k ∈ ({["title"]} : gset string).
Proof.
  assert (is_ok (project (row_to_entity_value (RW := EngineSample.text_rows) Sqlite
      (qe_fields (entity Sample.plan)) "x") (Some {["title"]})) = true) as Hok
    by (vm_compute; reflexivity).
  destruct (project (row_to_entity_value (RW := EngineSample.text_rows) Sqlite
      (qe_fields (entity Sample.plan)) "x") (Some {["title"]})) as [m| |] eqn:E;
    [|discriminate Hok|discriminate Hok].
  exists m. split; [reflexivity|].
  destruct (results_masked (RW := EngineSample.text_rows) 2 Sample.ctx Sample.chain Sample.plan Sqlite
    "x" (Some {["title"]}) m Sample.ctx_distinct Sample.plan_ok E) as [_ H].
  exact (H _ eq_refl).
Defined.

(** Version two of a person, whose table is empty: [city] is new, and [age]
    becomes a text.  The table keeps a column of floats for it. *)
Definition person_v1 : ObjectType :=
  person [person_field (Some 1%Z) "name" IdString [] None; person_field (Some 2%Z) "age" IdFloat [] None] [].
Definition person_v2 : ObjectType :=
  person [person_field None "age" IdString [] None; person_field None "city" IdString [] None] [].

Lemma alter_table_spec_witness :
  exists delta statements,
    generate_type_delta dev_types person_v1 person_v2 true = Ok delta /\
    alter_table person_v2 delta = (statements, Ok ()) /\
    find_col "age" (run_statements "ty_Person_0" (column_def <$> all_fields person_v1) statements) =
      Some {| cd_name := "age"; cd_unique := false; cd_type := CDouble; cd_primary_key := false |}.
Proof.
  assert (is_ok (generate_type_delta dev_types person_v1 person_v2 true) = true) as Hok
    by (vm_compute; reflexivity).
  destruct (generate_type_delta dev_types person_v1 person_v2 true) as [delta| |] eqn:E;
    [|discriminate Hok|discriminate Hok].
  assert (exists statements, alter_table person_v2 delta = (statements, Ok ())) as [statements Ha].
  { apply generate_type_delta_ok in E as (_ & _ & _ & ->). vm_compute. eexists. reflexivity. }
  exists delta, statements. split; [reflexivity|split; [exact Ha|]].
  assert (NoDup (fld_name <$> all_fields person_v1)) as H1
    by (apply (bool_decide_unpack _); vm_compute; exact I).
  assert (NoDup (fld_name <$> all_fields person_v2)) as H2
    by (apply (bool_decide_unpack _); vm_compute; exact I).
  etransitivity; [exact (alter_table_spec dev_types person_v1 person_v2 true delta person_v2 statements
    eq_refl eq_refl H1 H2 E Ha "age")|]. vm_compute. reflexivity.
Defined.

Lemma validate_array_spec_witness :
  is_ok (validate_array (IdArray IdString) (EvArray [EvArray [EvString "a"]; EvArray []])) = true /\
  is_panic (validate_array IdArrayBuffer (EvArray [EvBytes []])) = true.
Proof.
  split.
  - destruct (validate_array_spec (IdArray IdString) (EvArray [EvArray [EvString "a"]; EvArray []]))
      as [H _].
    rewrite (proj2 (H eq_refl)). reflexivity.
  - destruct (validate_array_spec IdArrayBuffer (EvArray [EvBytes []])) as [_ H].
    exact (H eq_refl _ _ eq_refl).
Defined.
