(* ===== verification/JsValue.v ===== *)
(** * Values of the policy engine ([server/src/policy/utils.rs])

    Policies run in an embedded JavaScript engine (boa).  This file has its
    values, what the server asks of the engine's operators, and the conversions
    between those values, JSON and entity values.

    An object is the tree of what can be read from it.  The engine's objects are
    references: a call that is given an object can change it, and such a call is
    modelled (in [PolicyProcess]) by the tree the object has afterwards. *)

From S2P Require Import Prelude Json EntityValue.

(** ** Values *)

Inductive PropertyKey := KString (s : string) | KIndex (n : Z).

#[export] Instance PropertyKey_eq_dec : EqDecision PropertyKey.
Proof. solve_decision. Defined.

(** A property without a value ([None]) is an accessor. *)
Inductive JsValue :=
  | JsUndefined
  | JsNull
  | JsBoolean (b : bool)
  | JsInteger (n : Z)
  | JsRational (f : f64)
  | JsString (s : string)
  | JsBigInt (n : Z)
  | JsSymbol
  | JsDate (time : f64)
  | JsBuffer (data : option (list Z))
  | JsArray (index_properties : list (Z * option JsValue))
  | JsObject (properties : list (PropertyKey * option JsValue)).

(** The engine: the key a name stands for, the time a date holds once set, and
    the operators ([None] when they throw). *)
Class Boa := {
  property_key : string -> PropertyKey;
  date_set_time : f64 -> f64;
  js_equals : JsValue -> JsValue -> option bool;
  js_gt : JsValue -> JsValue -> option bool;
  js_ge : JsValue -> JsValue -> option bool;
  js_lt : JsValue -> JsValue -> option bool;
  js_le : JsValue -> JsValue -> option bool;
  js_not : JsValue -> option bool;
}.

(** JavaScript's [ToBoolean]. *)
Definition to_boolean (v : JsValue) : bool :=
  match v with
  | JsUndefined | JsNull => false
  | JsBoolean b => b
  | JsInteger n | JsBigInt n => negb (n =? 0)%Z
  | JsRational f => match f with SpecFloat.S754_zero _ | SpecFloat.S754_nan => false | _ => true end
  | JsString s => negb (String.eqb s "")
  | _ => true
  end.

(** [obj.set(key, value)] on an object's own data properties. *)
Fixpoint js_set (k : PropertyKey) (v : JsValue) (props : list (PropertyKey * option JsValue))
    : list (PropertyKey * option JsValue) :=
  match props with
  | [] => [(k, Some v)]
  | (k', v') :: props =>
      if decide (k = k') then (k, Some v) :: props else (k', v') :: js_set k v props
  end.

(** [arr.push(v)], one value after the other, on a new array. *)
Definition js_array (l : list JsValue) : JsValue :=
  JsArray (imap (fun i v => (Z.of_nat i, Some v)) l).

Section Convert.
Context {B : Boa}.

(** ** From JSON *)

Fixpoint json_to_js_value (j : json) : JsValue :=
  match j with
  | JNull => JsNull
  | JBool b => JsBoolean b
  | JNumber (PosInt n) => JsInteger (as_i32 n)
  | JNumber (NegInt n) => JsInteger (as_i32 n)
  | JNumber (Float f) => JsRational f
  | JString s => JsString s
  | JArray arr => js_array (map json_to_js_value arr)
  | JObject m =>
      JsObject (foldl (fun obj '(k, v) => js_set (property_key k) (json_to_js_value v) obj) [] m)
  end.

Definition json_map_to_js_value (m : list (string * json)) : JsValue :=
  JsObject (foldl (fun obj '(k, v) => js_set (property_key k) (json_to_js_value v) obj) [] m).

(** ** From entities *)

Fixpoint entity_value_to_js_value (val : EntityValue) : JsValue :=
  match val with
  | EvNull => JsNull
  | EvString s => JsString s
  | EvFloat64 f => JsRational f
  | EvBoolean b => JsBoolean b
  | EvJsDate time => JsDate (date_set_time time)
  | EvArray arr => js_array (map entity_value_to_js_value arr)
  | EvMap m =>
      JsObject (foldl (fun object '(prop, value) =>
        js_set (KString prop) (entity_value_to_js_value value) object) [] m)
  | EvBytes bytes => JsBuffer (Some bytes)
  | EvInt64 i => JsBigInt i
  end.

Definition entity_map_to_js_value (m : EntityMap) : JsValue :=
  JsObject (foldl (fun object '(prop, value) =>
    js_set (KString prop) (entity_value_to_js_value value) object) [] m).
End Convert.

(** ** To entities *)

(** [sorted_by_key(|(i, _)| *i)] *)
Fixpoint insert_by_index {A} (x : Z * A) (l : list (Z * A)) : list (Z * A) :=
  match l with
  | [] => [x]
  | y :: l => if (x.1 <=? y.1)%Z then x :: y :: l else y :: insert_by_index x l
  end.
Definition sorted_by_index {A} (l : list (Z * A)) : list (Z * A) := foldr insert_by_index [] l.

Definition in_i64 (n : Z) : bool := (i64_min <=? n)%Z && (n <=? i64_max)%Z.

(** The elements are converted where they stand and then put in order. *)
Fixpoint js_value_to_entity_value (val : JsValue) : result EntityValue :=
  match val with
  | JsNull => Ok EvNull
  | JsUndefined => Ok EvNull
  | JsBoolean b => Ok (EvBoolean b)
  | JsString s => Ok (EvString s)
  | JsRational f => Ok (EvFloat64 f)
  | JsInteger n => Ok (EvFloat64 (f64_of_Z n))
  | JsBigInt i =>
      if in_i64 i then Ok (EvInt64 i) else Panic "called `Result::unwrap()` on an `Err` value"
  | JsDate time => Ok (EvJsDate time)
  | JsBuffer data => Ok (EvBytes (default [] data))
  | JsArray elems =>
      arr ← foldM (fun acc '(i, v) =>
        x ← match v with Some v => js_value_to_entity_value v | None => Ok EvNull end;
        Ok (acc ++ [(i, x)])) [] elems;
      Ok (EvArray (sorted_by_index arr).*2)
  | JsObject props =>
      m ← foldM (fun acc '(k, v) =>
        match k with
        | KString k =>
            x ← match v with Some v => js_value_to_entity_value v | None => Ok EvNull end;
            Ok (alist_insert k x acc)
        | KIndex _ => Ok acc
        end) [] props;
      Ok (EvMap m)
  | JsSymbol => Panic "not yet implemented"
  end.

(** [PartialEq] on entity values: floats as IEEE compares them, maps as sets of
    entries. *)
Fixpoint ev_eqb (a b : EntityValue) : bool :=
  let all2 := fix all2 (l l' : list EntityValue) : bool :=
    match l, l' with
    | [], [] => true
    | x :: l, y :: l' => ev_eqb x y && all2 l l'
    | _, _ => false
    end in
  let sub := fix sub (m m' : list (string * EntityValue)) : bool :=
    match m with
    | [] => true
    | (k, x) :: m =>
        match alist_get k m' with Some y => ev_eqb x y | None => false end && sub m m'
    end in
  match a, b with
  | EvNull, EvNull => true
  | EvString s, EvString s' => String.eqb s s'
  | EvFloat64 f, EvFloat64 f' | EvJsDate f, EvJsDate f' => f64_eqb f f'
  | EvInt64 n, EvInt64 n' => (n =? n')%Z
  | EvBoolean x, EvBoolean y => Bool.eqb x y
  | EvBytes x, EvBytes y => bool_decide (x = y)
  | EvArray l, EvArray l' => all2 l l'
  | EvMap m, EvMap m' => (List.length m =? List.length m') && sub m m'
  | _, _ => false
  end.

Definition map_eqb (m m' : EntityMap) : bool := ev_eqb (EvMap m) (EvMap m').

(** ** What survives the engine *)

Section EvInd.
Context (P : EntityValue -> Prop).
Context (Hnull : P EvNull) (Hstr : forall s, P (EvString s)) (Hf64 : forall f, P (EvFloat64 f)).
Context (Hint : forall n, P (EvInt64 n)) (Hbool : forall b, P (EvBoolean b)).
Context (Hdate : forall f, P (EvJsDate f)) (Hbytes : forall b, P (EvBytes b)).
Context (Harr : forall l, Forall P l -> P (EvArray l)).
Context (Hmap : forall m, Forall (fun kv => P kv.2) m -> P (EvMap m)).

Fixpoint ev_nested_ind (v : EntityValue) : P v :=
  match v with
  | EvNull => Hnull
  | EvString s => Hstr s
  | EvFloat64 f => Hf64 f
  | EvInt64 n => Hint n
  | EvBoolean b => Hbool b
  | EvJsDate f => Hdate f
  | EvBytes b => Hbytes b
  | EvArray l => Harr l
      ((fix go l : Forall P l := match l with
        | [] => List.Forall_nil _
        | x :: l' => List.Forall_cons _ _ _ (ev_nested_ind x) (go l')
        end) l)
  | EvMap m => Hmap m
      ((fix go m : Forall (fun kv => P kv.2) m := match m with
        | [] => List.Forall_nil _
        | kv :: m' => List.Forall_cons _ _ _ (ev_nested_ind kv.2) (go m')
        end) m)
  end.
End EvInd.

Section Survives.
Context {B : Boa}.

(** Values the engine holds exactly: its dates keep the time they are given,
    integers are of 64 bits, and a map has one value per key. *)
Fixpoint representable (v : EntityValue) : Prop :=
  match v with
  | EvJsDate t => date_set_time t = t
  | EvInt64 n => in_i64 n = true
  | EvArray l => foldr (fun x P => representable x /\ P) True l
  | EvMap m => NoDup m.*1 /\ foldr (fun kv P => representable kv.2 /\ P) True m
  | _ => True
  end.

(** Values without a [NaN], which is not equal to itself. *)
Fixpoint no_nan (v : EntityValue) : Prop :=
  match v with
  | EvFloat64 f | EvJsDate f => f64_eqb f f = true
  | EvArray l => foldr (fun x P => no_nan x /\ P) True l
  | EvMap m => NoDup m.*1 /\ foldr (fun kv P => no_nan kv.2 /\ P) True m
  | _ => True
  end.

Lemma js_set_fresh k v props : k ∉ props.*1 -> js_set k v props = props ++ [(k, Some v)].
Proof.
  induction props as [|[k' v'] props IH]; cbn; [done|]. intros [Hne Hk]%not_elem_of_cons.
  rewrite decide_False by done. by rewrite IH.
Qed.

Lemma alist_insert_fresh {A} k (v : A) l : k ∉ l.*1 -> alist_insert k v l = l ++ [(k, v)].
Proof.
  induction l as [|[k' v'] l IH]; cbn; [done|]. intros [Hne Hk]%not_elem_of_cons.
  destruct (String.eqb_spec k k'); [done|]. by rewrite IH.
Qed.

Definition js_entry (kv : string * EntityValue) : PropertyKey * option JsValue :=
  (KString kv.1, Some (entity_value_to_js_value kv.2)).

Lemma entity_props m : forall acc,
  NoDup m.*1 -> (forall k, k ∈ m.*1 -> KString k ∉ acc.*1) ->
  foldl (fun object '(prop, value) =>
    js_set (KString prop) (entity_value_to_js_value value) object) acc m = acc ++ map js_entry m.
Proof.
  induction m as [|[k v] m IH]; intros acc Hnd Hacc; cbn; [by rewrite app_nil_r|].
  apply NoDup_cons in Hnd as [Hk Hnd].
  rewrite js_set_fresh by (apply Hacc; cbn; left).
  rewrite IH; [by rewrite <- app_assoc|done|].
  intros k' Hk'. rewrite fmap_app, not_elem_of_app. split; [apply Hacc; cbn; by right|].
  cbn. intros [= ->]%list_elem_of_singleton. done.
Qed.

Lemma read_props m : forall acc,
  Forall (fun kv => js_value_to_entity_value (entity_value_to_js_value kv.2) = Ok kv.2) m ->
  NoDup m.*1 -> (forall k, k ∈ m.*1 -> k ∉ acc.*1) ->
  foldM (fun acc '(k, v) =>
    match k with
    | KString k =>
        x ← match v with Some v => js_value_to_entity_value v | None => Ok EvNull end;
        Ok (alist_insert k x acc)
    | KIndex _ => Ok acc
    end) acc (map js_entry m) = Ok (acc ++ m).
Proof.
  induction m as [|[k v] m IH]; intros acc HP Hnd Hacc; cbn; [by rewrite app_nil_r|].
  apply Forall_cons in HP as [Hv HP]. apply NoDup_cons in Hnd as [Hk Hnd]. cbn in Hv.
  rewrite Hv. cbn. rewrite alist_insert_fresh by (apply Hacc; cbn; left).
  rewrite IH; [by rewrite <- app_assoc|done|done|].
  intros k' Hk'. rewrite fmap_app, not_elem_of_app. split; [apply Hacc; cbn; by right|].
  cbn. intros ->%list_elem_of_singleton. done.
Qed.

Lemma read_elems l : forall n acc,
  Forall (fun x => js_value_to_entity_value (entity_value_to_js_value x) = Ok x) l ->
  foldM (fun acc '(i, v) =>
    x ← match v with Some v => js_value_to_entity_value v | None => Ok EvNull end;
    Ok (acc ++ [(i, x)])) acc
    (imap (fun i v => (Z.of_nat (n + i), Some v)) (map entity_value_to_js_value l))
  = Ok (acc ++ imap (fun i x => (Z.of_nat (n + i), x)) l).
Proof.
  induction l as [|x l IH]; intros n acc HP; cbn; [by rewrite app_nil_r|].
  apply Forall_cons in HP as [-> HP]. cbn.
  rewrite (imap_ext _ (fun i v => (Z.of_nat (S n + i), Some v))) by (intros; cbn; do 2 f_equal; lia).
  rewrite IH, <- app_assoc by done. cbn. do 3 f_equal. apply imap_ext. intros; cbn; f_equal; lia.
Qed.

Lemma sorted_indexed (l : list EntityValue) : forall n,
  sorted_by_index (imap (fun i x => (Z.of_nat (n + i), x)) l) = imap (fun i x => (Z.of_nat (n + i), x)) l.
Proof.
  induction l as [|x l IH]; intros n; cbn; [done|].
  rewrite (imap_ext _ (fun i x => (Z.of_nat (S n + i), x))) by (intros; cbn; f_equal; lia).
  unfold sorted_by_index in IH. rewrite IH. destruct l as [|y l]; cbn; [done|].
  destruct (Z.leb_spec (Z.of_nat (n + 0)) (Z.of_nat (S (n + 0)))); [done|lia].
Qed.

Lemma imap_snd {A} (l : list A) n : (imap (fun i x => (Z.of_nat (n + i), x)) l).*2 = l.
Proof.
  revert n. induction l as [|x l IH]; intros n; cbn; [done|]. f_equal.
  erewrite imap_ext; [apply (IH (S n))|]. intros; cbn; f_equal; lia.
Qed.

Lemma survives v : representable v ->
  js_value_to_entity_value (entity_value_to_js_value v) = Ok v.
Proof.
  induction v as [| | |n| |f| |l IH|m IH] using ev_nested_ind; cbn [representable]; intros H; cbn; try done.
  - by rewrite H.
  - by rewrite H.
  - apply distinct_forall in H.
    assert (Forall (fun x => js_value_to_entity_value (entity_value_to_js_value x) = Ok x) l) as HF
      by (clear -IH H; induction IH; inversion H; subst; constructor; auto).
    pose proof (read_elems l 0 [] HF) as E. cbn in E. unfold compose. rewrite E. cbn.
    pose proof (sorted_indexed l 0) as Es. cbn in Es. rewrite Es.
    pose proof (imap_snd l 0) as Ei. cbn in Ei. by rewrite Ei.
  - destruct H as [Hnd H]. apply (distinct_forall (fun kv => representable kv.2)) in H.
    assert (Forall (fun kv => js_value_to_entity_value (entity_value_to_js_value kv.2) = Ok kv.2) m) as HF
      by (clear -IH H; induction IH; inversion H; subst; constructor; auto).
    rewrite (entity_props m []); [|done|intros; cbn; apply not_elem_of_nil].
    cbn. rewrite (read_props m []); [done|done|done|intros; cbn; apply not_elem_of_nil].
Qed.

Lemma all2_refl l : Forall (fun x => ev_eqb x x = true) l -> ev_eqb (EvArray l) (EvArray l) = true.
Proof.
  induction 1 as [|x l Hx HF IH]; [done|].
  change (ev_eqb x x && ev_eqb (EvArray l) (EvArray l) = true). by rewrite Hx, IH.
Qed.

Lemma map_eqb_refl m :
  NoDup m.*1 -> Forall (fun kv => ev_eqb kv.2 kv.2 = true) m -> ev_eqb (EvMap m) (EvMap m) = true.
Proof.
  intros Hnd HF. cbn. rewrite Nat.eqb_refl. cbn.
  assert (forall k x, (k, x) ∈ m -> alist_get k m = Some x) as Hget.
  { intros k x. by apply alist_get_in. }
  revert Hget HF. generalize m at 1 3 4. intros m0 Hget HF. clear Hnd.
  induction HF as [|[k x] m0 Hx HF IH]; [done|].
  rewrite (Hget k x) by left. cbn in Hx. rewrite Hx. cbn.
  apply IH. intros k' x' H. apply Hget. by right.
Qed.

Lemma ev_eqb_refl v : no_nan v -> ev_eqb v v = true.
Proof.
  induction v as [|s|f|n|b|f|b|l IH|m IH] using ev_nested_ind; cbn [no_nan]; intros H; try done.
  - apply String.eqb_refl.
  - apply Z.eqb_refl.
  - by destruct b.
  - by apply bool_decide_eq_true.
  - apply distinct_forall in H. apply all2_refl.
    clear -IH H; induction IH; inversion H; subst; constructor; auto.
  - destruct H as [Hnd H]. apply (distinct_forall (fun kv => no_nan kv.2)) in H.
    apply map_eqb_refl; [done|].
    clear -IH H; induction IH; inversion H; subst; constructor; auto.
Qed.

End Survives.

(** ** The property *)

(** What the server hands to the policy engine comes back: an entity value
    converted to the engine's values and back is the value itself, for every
    value the engine can hold (its dates, 64-bit integers, one value per
    key), nested arrays and maps included; and unless it holds a [NaN] it
    compares equal to what was sent, which is how a transformed entity is
    told from an untouched one. *)
Theorem js_roundtrip {B : Boa} v : representable v ->
  js_value_to_entity_value (entity_value_to_js_value v) = Ok v /\
  (no_nan v -> exists v', js_value_to_entity_value (entity_value_to_js_value v) = Ok v' /\
     ev_eqb v' v = true).
Proof. intros H. apply survives in H as E. split; [done|]. eauto using ev_eqb_refl. Qed.

Module JsSample.

(** An engine whose operators compare values of one type; enough to run
    policies that compare strings, booleans and numbers. *)
Definition as_number (v : JsValue) : option f64 :=
  match v with JsInteger n => Some (f64_of_Z n) | JsRational f => Some f | _ => None end.
Definition number_test (test : comparison -> bool) (a b : JsValue) : option bool :=
  match as_number a, as_number b with
  | Some x, Some y => Some match SpecFloat.SFcompare x y with Some c => test c | None => false end
  | _, _ => Some false
  end.
Definition loosely_equal (a b : JsValue) : option bool :=
  match a, b with
  | JsString s, JsString s' => Some (String.eqb s s')
  | JsBoolean x, JsBoolean y => Some (Bool.eqb x y)
  | (JsNull | JsUndefined), (JsNull | JsUndefined) => Some true
  | _, _ => number_test (fun c => match c with Eq => true | _ => false end) a b
  end.
#[export] Instance boa : Boa := {
  property_key := KString;
  date_set_time := fun t => t;
  js_equals := loosely_equal;
  js_gt := number_test (fun c => match c with Gt => true | _ => false end);
  js_ge := number_test (fun c => match c with Lt => false | _ => true end);
  js_lt := number_test (fun c => match c with Lt => true | _ => false end);
  js_le := number_test (fun c => match c with Gt => false | _ => true end);
  js_not := fun v => Some (negb (to_boolean v));
}.
End JsSample.

Lemma js_roundtrip_witness :
  let v := EvMap [("id", EvString "1"); ("tags", EvArray [EvString "a"; EvInt64 7]); ("at", EvJsDate (f64_of_Z 5))] in
  js_value_to_entity_value (entity_value_to_js_value (B := JsSample.boa) v) = Ok v /\
  (no_nan v -> exists v', js_value_to_entity_value (entity_value_to_js_value (B := JsSample.boa) v) = Ok v' /\
     ev_eqb v' v = true).
Proof.
  apply (js_roundtrip (B := JsSample.boa)).
  split; [|vm_compute; tauto]. apply (bool_decide_unpack _). by vm_compute.
Defined.
