(* ===== verification/PolicyRules.v ===== *)
(** * The analysis of policy functions ([chiselc/src/policies.rs])

    A policy is a function from an entity and the request to an action.  The
    compiler reads its control flow, finds under which condition every action is
    returned, and makes the condition under which an entity is not skipped into
    a filter for the database.  What the functions mean, and that the analysis
    respects it, is in [RulesSpec]. *)

From S2P Require Import Prelude Json.

(** ** Syntax: what the analysis sees of a function's body *)

Inductive BinOp :=
  | EqEq | NotEq | JLt | JLtEq | JGt | JGtEq | LogicalOr | LogicalAnd | OtherBinOp.

Inductive JsLit := LitStr (s : string) | LitBool (b : bool) | LitNull | LitNum (f : f64) | LitOther.

Inductive JsExpr :=
  | JsNot (arg : JsExpr)
  | JsUnaryOther (arg : JsExpr)
  | JsBin (op : BinOp) (l r : JsExpr)
  | JsLiteral (l : JsLit)
  | JsIdent (sym : string)
  | JsParen (e : JsExpr)
  | JsMember (obj : JsExpr) (prop : string)
  | JsComputed (obj comp : JsExpr)
  | JsOther.

(** Statements ([swc]'s): the ones the compiler tells apart. *)
Inductive Stmt :=
  | SIf (test : JsExpr) (cons : Stmt) (alt : option Stmt)
  | SBlock (stmts : list Stmt)
  | SReturn (arg : option JsExpr)
  | SExpr
  | SDeclVar
  | SDeclOther
  | SEmpty
  | SUnsupported.

Inductive TsType := TsTypeRef (name : string) | TsOther.
Inductive Pat := PatIdent (sym : string) (type_ann : option TsType) | PatOther.

(** An arrow function: its body is a block, or an expression. *)
Record ArrowExpr := { ar_params : list Pat; ar_body : list Stmt + JsExpr }.

(** [tools/analysis/region.rs]: the regions of the control flow; statements by
    their index in the statement map. *)
Inductive Region :=
  | BasicBlock (stmts : list nat)
  | RSeq (first second : Region)
  | RCond (test_region cons_region alt_region : Region)
  | RLoop (header : nat) (body : Region).

(** [tools/analysis/stmt_map.rs] *)
Abbreviation StmtMap := (gmap nat Stmt).

Record ArrowFunction := {
  orig : ArrowExpr;
  stmt_map : StmtMap;
  regions : Region;
}.

(** [ArrowFunction::params]: the names and types of the parameters. *)
Definition params (arrow : ArrowFunction) : result (list (string * option string)) :=
  mapM (fun p =>
    match p with
    | PatIdent sym None => Ok (sym, None)
    | PatIdent sym (Some (TsTypeRef ty)) => Ok (sym, Some ty)
    | PatIdent _ (Some TsOther) => Panic "unsupported type annotation"
    | PatOther => Panic "unsupported function argument"
    end) (ar_params (orig arrow)).

(** [self.map[idx]] *)
Definition stmt_at (m : StmtMap) (idx : nat) : result Stmt :=
  unwrap (m !! idx) "no entry in the statement map".

(** ** Variables and predicates *)

Inductive Var := VIdent (name : string) | VMember (obj : nat) (prop : string).

#[export] Instance Var_eq_dec : EqDecision Var.
Proof. solve_decision. Defined.

(** The bijection between variables and their numbers: the number of a variable
    is its place. *)
Definition Environment := list Var.

Fixpoint var_index (v : Var) (env : Environment) : option nat :=
  match env with
  | [] => None
  | w :: env => if decide (w = v) then Some 0 else S <$> var_index v env
  end.

Definition env_insert (env : Environment) (var : Var) : Environment * nat :=
  match var_index var env with
  | Some idx => (env, idx)
  | None => (env ++ [var], List.length env)
  end.

Definition env_get (env : Environment) (id : nat) : result Var :=
  unwrap (env !! id) "called `Option::unwrap()` on a `None` value".

Inductive LogicOp := LEq | LNeq | LGt | LGte | LLt | LLte | LAnd | LOr.

Inductive Predicate :=
  | PBin (op : LogicOp) (lhs rhs : Predicate)
  | PNot (p : Predicate)
  | PLit (v : json)
  | PVar (id : nat).

Definition is_lit (p : Predicate) : bool := match p with PLit _ => true | _ => false end.
Definition as_lit (p : Predicate) : option json := match p with PLit l => Some l | _ => None end.
Definition is_var (p : Predicate) : bool := match p with PLit _ => true | _ => false end.
Definition as_var (p : Predicate) : option nat := match p with PVar id => Some id | _ => None end.
Fixpoint is_reducible (p : Predicate) : bool :=
  match p with
  | PBin _ lhs rhs => is_reducible lhs && is_reducible rhs
  | PNot inner => is_reducible inner
  | PLit _ => true
  | PVar _ => false
  end.

Definition logic_op (op : BinOp) : result LogicOp :=
  match op with
  | EqEq => Ok LEq
  | NotEq => Ok LNeq
  | JLt => Ok LLt
  | JLtEq => Ok LLte
  | JGt => Ok LGt
  | JGtEq => Ok LGte
  | LogicalOr => Ok LOr
  | LogicalAnd => Ok LAnd
  | OtherBinOp => Panic "unssuported binary operator"
  end.

Definition lit_value (l : JsLit) : result json :=
  match l with
  | LitStr s => Ok (JString s)
  | LitBool b => Ok (JBool b)
  | LitNull => Ok JNull
  | LitNum n => Ok (json_of_f64 n)
  | LitOther => Panic "not yet implemented"
  end.

Definition parse_member (obj : Predicate) (prop : string) (env : Environment)
    : result (Predicate * Environment) :=
  match obj with
  | PVar v => let '(env, id) := env_insert env (VMember v prop) in Ok (PVar id, env)
  | _ => Panic "invalid member expression"
  end.

Fixpoint parse_expr (expr : JsExpr) (env : Environment) : result (Predicate * Environment) :=
  match expr with
  | JsNot arg => '(p, env) ← parse_expr arg env; Ok (PNot p, env)
  | JsUnaryOther _ => Panic "unsupported op"
  | JsBin op l r =>
      op ← logic_op op;
      '(lhs, env) ← parse_expr l env;
      '(rhs, env) ← parse_expr r env;
      Ok (PBin op lhs rhs, env)
  | JsLiteral lit => v ← lit_value lit; Ok (PLit v, env)
  | JsIdent s => let '(env, id) := env_insert env (VIdent s) in Ok (PVar id, env)
  | JsParen e => parse_expr e env
  | JsMember obj prop => '(p, env) ← parse_expr obj env; parse_member p prop env
  | JsComputed obj comp =>
      '(p, env) ← parse_expr obj env;
      match p, comp with
      | PVar _, JsLiteral (LitStr prop) => parse_member p prop env
      | PVar _, _ => Panic "unsupported computed property expression."
      | _, _ => Panic "invalid member expression"
      end
  | JsOther => Panic "unsupported expr"
  end.

Definition Predicates := list Predicate.

Definition predicates_insert (preds : Predicates) (p : Predicate) : Predicates * nat :=
  (preds ++ [p], List.length preds).

Definition predicates_get (preds : Predicates) (id : nat) : result Predicate :=
  unwrap (preds !! id) "invalid predicate id!".

(** ** Conditions *)

Inductive Cond :=
  | CAnd (l r : Cond)
  | COr (l r : Cond)
  | CNot (c : Cond)
  | CPredicate (id : nat)
  | CTrue
  | CFalse.

(** The boolean expressions of [quine_mc_cluskey]; [simplify] is the library's
    minimization. *)
Inductive BoolExpr :=
  | BTrue
  | BFalse
  | BTerm (i : nat)
  | BAnd (l : list BoolExpr)
  | BOr (l : list BoolExpr)
  | BNot (b : BoolExpr).

Class BoolLib := { bool_simplify : BoolExpr -> list BoolExpr }.

Fixpoint position (id : nat) (l : list nat) : option nat :=
  match l with
  | [] => None
  | x :: l => if Nat.eqb x id then Some 0 else S <$> position id l
  end.

(** [as u8], and the subtraction that follows it, which wraps. *)
Definition as_u8 (n : nat) : nat := n mod 256.
Definition u8_pred (n : nat) : nat := (n + 255) mod 256.

Fixpoint to_bool (preds : Predicates) (c : Cond) (mapping : list nat) : result (BoolExpr * list nat) :=
  match c with
  | CAnd lhs rhs =>
      '(l, mapping) ← to_bool preds lhs mapping;
      '(r, mapping) ← to_bool preds rhs mapping;
      Ok (BAnd [l; r], mapping)
  | COr lhs rhs =>
      '(l, mapping) ← to_bool preds lhs mapping;
      '(r, mapping) ← to_bool preds rhs mapping;
      Ok (BOr [l; r], mapping)
  | CNot c => '(b, mapping) ← to_bool preds c mapping; Ok (BNot b, mapping)
  | CPredicate id =>
      predicate ← predicates_get preds id;
      match predicate with
      | PLit (JBool true) => Ok (BTrue, mapping)
      | PLit (JBool false) => Ok (BFalse, mapping)
      | _ =>
          match position id mapping with
          | Some id => Ok (BTerm (as_u8 id), mapping)
          | None => Ok (BTerm (u8_pred (as_u8 (List.length (mapping ++ [id])))), mapping ++ [id])
          end
      end
  | CTrue => Ok (BTrue, mapping)
  | CFalse => Ok (BFalse, mapping)
  end.

(** [reduce(..).unwrap()] *)
Definition reduce_cond (f : Cond -> Cond -> Cond) (l : list Cond) : result Cond :=
  match l with
  | [] => Panic "called `Option::unwrap()` on a `None` value"
  | c :: l => Ok (foldl f c l)
  end.

Fixpoint from_bool (mapping : list nat) (b : BoolExpr) : result Cond :=
  let each := fix each (l : list BoolExpr) : result (list Cond) :=
    match l with
    | [] => Ok []
    | b :: l => c ← from_bool mapping b; cs ← each l; Ok (c :: cs)
    end in
  match b with
  | BTrue => Ok CTrue
  | BFalse => Ok CFalse
  | BTerm i => CPredicate <$> unwrap (mapping !! i) "index out of bounds"
  | BAnd it => cs ← each it; reduce_cond CAnd cs
  | BOr it => cs ← each it; reduce_cond COr cs
  | BNot b => CNot <$> from_bool mapping b
  end.

(** The printer of the JavaScript parser: the text of a function. *)
Class Swc := { emit_arrow_js_code : ArrowExpr -> result string }.

Section Simplify.
Context {BL : BoolLib} {SW : Swc}.

Definition simplify (preds : Predicates) (c : Cond) : result Cond :=
  '(b, mapping) ← to_bool preds c [];
  simp ← unwrap (head (bool_simplify b)) "index out of bounds";
  from_bool mapping simp.

(** ** Actions and the conditions they are returned under *)

Inductive Action := Allow | Log | Deny | Skip.

#[export] Instance Action_eq_dec : EqDecision Action.
Proof. solve_decision. Defined.

(** The [HashMap] from actions, as a function. *)
Definition Actions := Action -> option Cond.

Definition no_actions : Actions := fun _ => None.
Definition actions_insert (policy : Action) (cond : Cond) (a : Actions) : Actions :=
  fun x => if decide (x = policy) then Some cond else a x.

Definition all_actions : list Action := [Allow; Skip; Deny; Log].

Definition merge (a b : Actions) : Actions :=
  foldl (fun out policy =>
    match a policy, b policy with
    | Some lhs, Some rhs => actions_insert policy (COr lhs rhs) out
    | Some cond, _ | _, Some cond => actions_insert policy cond out
    | None, None => out
    end) no_actions all_actions.

(** Every condition is simplified: the first failure, if any, is the
    result. *)
Definition actions_simplify (preds : Predicates) (a : Actions) : result Actions :=
  foldM (fun out policy =>
    match a policy with
    | Some c => c ← simplify preds c; Ok (actions_insert policy c out)
    | None => Ok out
    end) no_actions all_actions.

(** ** The rules of a function *)

Record RulesBuilder := { b_predicates : Predicates; b_env : Environment }.

Definition extract_cond_from_test (m : StmtMap) (b : RulesBuilder) (region : Region)
    : result (Cond * RulesBuilder) :=
  match region with
  | BasicBlock stmts =>
      _ ← rust_assert (List.length stmts =? 1)
            "test region should contain a unique expression statement";
      idx ← unwrap (head stmts) "index out of bounds";
      stmt ← stmt_at m idx;
      match stmt with
      | SIf test _ _ =>
          '(predicate, env) ← parse_expr test (b_env b);
          let '(preds, id) := predicates_insert (b_predicates b) predicate in
          Ok (CPredicate id, {| b_predicates := preds; b_env := env |})
      | _ => Panic "expected if statement"
      end
  | _ => Panic "internal error: entered unreachable code"
  end.

Definition action_of_name (sym : string) : result Action :=
  if String.eqb sym "Allow" then Ok Allow
  else if String.eqb sym "Skip" then Ok Skip
  else if String.eqb sym "Deny" then Ok Deny
  else if String.eqb sym "Log" then Ok Log
  else Panic "invalid return expression".

Definition infer_basic_block (m : StmtMap) (b : list nat) (cond : Cond) : result Actions :=
  match b with
  | [] => Ok (actions_insert Deny cond no_actions)
  | [idx] =>
      stmt ← stmt_at m idx;
      match stmt with
      | SReturn (Some (JsMember (JsIdent id) prop)) =>
          _ ← rust_assert (String.eqb id "Action") "invalid return expression";
          policy ← action_of_name prop;
          Ok (actions_insert policy cond no_actions)
      | SReturn (Some _) => Panic "invalid return expression"
      | SReturn None => Panic "missing return arguments!"
      | _ => Panic "expected return statement"
      end
  | _ => Panic "unsupported multiline basic block"
  end.

Fixpoint infer_rules_from_region (m : StmtMap) (b : RulesBuilder) (region : Region) (cond : Cond)
    : result (Actions * RulesBuilder) :=
  match region with
  | RCond test_region cons_region alt_region =>
      '(test_cond, b) ← extract_cond_from_test m b test_region;
      '(cons_rules, b) ← infer_rules_from_region m b cons_region (CAnd test_cond cond);
      '(alt_rules, b) ← infer_rules_from_region m b alt_region (CAnd (CNot test_cond) cond);
      Ok (merge cons_rules alt_rules, b)
  | RSeq _ _ => Panic "not yet implemented"
  | BasicBlock stmts => rules ← infer_basic_block m stmts cond; Ok (rules, b)
  | RLoop _ _ => bail "loops are not supported in the filter rules."
  end.

Definition generate_where_from_rules (actions : Actions) : option Cond := CNot <$> actions Skip.

Record FilterPolicy := {
  where_conds : option Cond;
  predicates : Predicates;
  env : Environment;
  js_code : string;
  param_names : list string;
}.

Definition get_positional_param_name (p : FilterPolicy) (pos : nat) : result string :=
  unwrap (param_names p !! pos) "index out of bounds".

Definition from_arrow (arrow : ArrowFunction) : result FilterPolicy :=
  params ← params arrow;
  '(actions, b) ← infer_rules_from_region (stmt_map arrow) {| b_predicates := []; b_env := [] |}
                    (regions arrow) CTrue;
  actions ← actions_simplify (b_predicates b) actions;
  where_conds ←
    match generate_where_from_rules actions with
    | Some c => Some <$> simplify (b_predicates b) c
    | None => Ok None
    end;
  js_code ← emit_arrow_js_code (orig arrow);
  Ok {| where_conds := where_conds; predicates := b_predicates b; env := b_env b;
        js_code := js_code; param_names := params.*1 |}.

(** ** The policies of an entity *)

Inductive PolicyName := Read | Create | Update | OnRead | OnCreate | OnUpdate | GeoLoc.

Inductive Policy :=
  | PFilter (f : FilterPolicy)
  | PTransform (js_code : string).

Definition as_filter (p : Policy) : option FilterPolicy :=
  match p with PFilter f => Some f | PTransform _ => None end.
Definition as_transform (p : Policy) : option string :=
  match p with PFilter _ => None | PTransform t => Some t end.
Definition policy_code (p : Policy) : string :=
  match p with PFilter f => js_code f | PTransform c => c end.

Definition policy_name_from_str (s : string) : result PolicyName :=
  if String.eqb s "read" then Ok Read
  else if String.eqb s "create" then Ok Create
  else if String.eqb s "update" then Ok Update
  else if String.eqb s "onRead" then Ok OnRead
  else if String.eqb s "onCreate" then Ok OnCreate
  else if String.eqb s "onUpdate" then Ok OnUpdate
  else if String.eqb s "geoLoc" then Ok GeoLoc
  else bail ("unknown policy `" +:+ s +:+ "`").
End Simplify.
