(* ===== verification/RulesSpec.v ===== *)
(** * What a policy function means, and that its analysis respects it

    [js_eval] and [run_region] give policy functions their meaning over the
    values of JavaScript: what an expression evaluates to and which action a
    call returns.  The analysis of [PolicyRules] is proved against it: parsing an
    expression keeps its value, the condition inferred for an action holds
    exactly when the function returns it, minimizing a condition keeps its truth,
    and the filter of a policy holds exactly when the function does not skip. *)

From S2P Require Import Prelude Json EntityValue JsValue PolicyRules.

(** ** JavaScript *)

Section Js.
Context {B : Boa}.

Definition is_scalar (v : JsValue) : bool :=
  match v with
  | JsUndefined | JsNull | JsBoolean _ | JsInteger _ | JsRational _ | JsString _ => true
  | _ => false
  end.
Definition is_undefined (v : JsValue) : bool := match v with JsUndefined => true | _ => false end.

(** A value, where the reference has one: [None] is an exception, or a value
    the reference says nothing about (the order of [undefined], comparisons
    between objects, members of values that are not plain objects). *)
Definition js_binary (op : LogicOp) (a b : JsValue) : option bool :=
  if is_scalar a && is_scalar b then
    match op with
    | LEq => js_equals a b
    | LNeq => negb <$> js_equals a b
    | _ =>
        if is_undefined a || is_undefined b then None else
        match op with
        | LGt => js_gt a b
        | LGte => js_ge a b
        | LLt => js_lt a b
        | LLte => js_le a b
        | _ => None
        end
    end
  else None.

Fixpoint js_property (k : PropertyKey) (props : list (PropertyKey * option JsValue)) : option JsValue :=
  match props with
  | [] => Some JsUndefined
  | (k', v) :: props => if decide (k = k') then v else js_property k props
  end.
Definition js_member (v : JsValue) (prop : string) : option JsValue :=
  match v with JsObject props => js_property (property_key prop) props | _ => None end.

Definition js_lit (l : JsLit) : option JsValue :=
  match l with
  | LitStr s => Some (JsString s)
  | LitBool b => Some (JsBoolean b)
  | LitNull => Some JsNull
  | LitNum n => if f64_is_finite n then Some (JsRational n) else None
  | LitOther => None
  end.

(** The logical operators return an operand, and the second is evaluated only
    when the first does not decide. *)
Definition js_logic (op : LogicOp) (a : option JsValue) (b : option JsValue) : option JsValue :=
  va ← a;
  match op with
  | LAnd => if to_boolean va then b else Some va
  | LOr => if to_boolean va then Some va else b
  | _ => vb ← b; JsBoolean <$> js_binary op va vb
  end.

(** The names a function sees. *)
Definition scope := string -> option JsValue.

Fixpoint js_eval (r : scope) (e : JsExpr) : option JsValue :=
  match e with
  | JsNot e => (fun v => JsBoolean (negb (to_boolean v))) <$> js_eval r e
  | JsBin op a b =>
      op ← ok_option (logic_op op); js_logic op (js_eval r a) (js_eval r b)
  | JsLiteral l => js_lit l
  | JsIdent s => r s
  | JsParen e => js_eval r e
  | JsMember obj prop => v ← js_eval r obj; js_member v prop
  | JsComputed obj (JsLiteral (LitStr prop)) => v ← js_eval r obj; js_member v prop
  | _ => None
  end.

(** The action a call of the function returns; [Deny] when it returns none. *)
Fixpoint run_region (r : scope) (m : StmtMap) (region : Region) : option Action :=
  match region with
  | RCond (BasicBlock [idx]) cons_region alt_region =>
      match m !! idx with
      | Some (SIf test _ _) =>
          v ← js_eval r test;
          if to_boolean v then run_region r m cons_region else run_region r m alt_region
      | _ => None
      end
  | BasicBlock [] => Some Deny
  | BasicBlock [idx] =>
      match m !! idx with
      | Some (SReturn (Some (JsMember (JsIdent obj) prop))) =>
          if String.eqb obj "Action" then ok_option (action_of_name prop) else None
      | _ => None
      end
  | _ => None
  end.

(** ** Predicates *)

Definition var_value (r : scope) (vals : list (option JsValue)) (v : Var) : option JsValue :=
  match v with
  | VIdent s => r s
  | VMember obj prop => v ← mjoin (vals !! obj); js_member v prop
  end.

(** The values of an environment's variables. *)
Definition var_values (r : scope) (env : Environment) : list (option JsValue) :=
  foldl (fun vals v => vals ++ [var_value r vals v]) [] env.

Fixpoint pred_eval (vals : list (option JsValue)) (p : Predicate) : option JsValue :=
  match p with
  | PLit j => Some (json_to_js_value j)
  | PVar id => mjoin (vals !! id)
  | PNot p => (fun v => JsBoolean (negb (to_boolean v))) <$> pred_eval vals p
  | PBin op a b => js_logic op (pred_eval vals a) (pred_eval vals b)
  end.

(** Every variable is the member of an earlier one. *)
Definition env_ok (env : Environment) : Prop :=
  forall i obj prop, env !! i = Some (VMember obj prop) -> obj < i.

Lemma var_values_snoc r env v :
  var_values r (env ++ [v]) = var_values r env ++ [var_value r (var_values r env) v].
Proof. unfold var_values. by rewrite foldl_app. Qed.

Lemma var_values_length r env : List.length (var_values r env) = List.length env.
Proof.
  induction env as [|v env IH] using rev_ind; [done|].
  rewrite var_values_snoc, !length_app, IH. done.
Qed.

Lemma var_values_prefix r env ext : exists vs, var_values r (env ++ ext) = var_values r env ++ vs.
Proof.
  induction ext as [|v ext IH] using rev_ind; [exists []; by rewrite !app_nil_r|].
  destruct IH as (vs & IH). rewrite app_assoc, var_values_snoc, IH. eexists. by rewrite <- app_assoc.
Qed.

Lemma var_values_lookup r env ext i : i < List.length env ->
  var_values r (env ++ ext) !! i = var_values r env !! i.
Proof.
  intros Hi. destruct (var_values_prefix r env ext) as (vs & ->).
  rewrite lookup_app_l; [done|]. by rewrite var_values_length.
Qed.

(** The value of a variable, from the values of the whole environment. *)
Lemma var_values_var r env i v : env_ok env -> env !! i = Some v ->
  var_values r env !! i = Some (var_value r (var_values r env) v).
Proof.
  intros Hok Hi. pose proof (lookup_lt_Some _ _ _ Hi) as Hlt.
  rewrite <- (take_drop_middle env i v Hi) at 1. rewrite cons_middle, app_assoc.
  rewrite var_values_lookup by (rewrite length_app, length_take; cbn; lia).
  rewrite var_values_snoc, lookup_app_r; rewrite var_values_length, length_take; [|lia].
  replace (i - i `min` List.length env) with 0 by lia. cbn. f_equal.
  destruct v as [s|obj prop]; cbn; [done|].
  rewrite <- (take_drop i env) at 2. rewrite var_values_lookup; [done|].
  rewrite length_take. specialize (Hok _ _ _ Hi). lia.
Qed.

Lemma var_index_some v env i : var_index v env = Some i -> env !! i = Some v.
Proof.
  revert i. induction env as [|w env IH]; intros i; cbn; [done|].
  destruct (decide (w = v)) as [->|]; [by intros [= <-]|].
  destruct (var_index v env) as [j|]; cbn; [|done]. intros [= <-]. by apply IH.
Qed.

Lemma env_ok_nil : env_ok [].
Proof. by intros []. Qed.

Lemma env_ok_snoc env v : env_ok env ->
  (forall obj prop, v = VMember obj prop -> obj < List.length env) -> env_ok (env ++ [v]).
Proof.
  intros Hok Hv i obj prop [Hi|[Hi Hi']]%lookup_app_Some; [by eapply Hok|].
  apply list_lookup_singleton_Some in Hi' as [Hi' ->]. specialize (Hv _ _ eq_refl). lia.
Qed.

(** Inserting a variable extends the environment, and the number it returns has
    the variable's value. *)
Lemma env_insert_value r env v env' id : env_ok env ->
  (forall obj prop, v = VMember obj prop -> obj < List.length env) ->
  env_insert env v = (env', id) ->
  exists extra, env' = env ++ extra /\ env_ok env' /\ id < List.length env' /\
    forall ext, var_values r (env' ++ ext) !! id = Some (var_value r (var_values r (env' ++ ext)) v).
Proof.
  intros Hok Hv. unfold env_insert.
  assert (forall env' id, env_ok env' -> env' !! id = Some v -> List.length env <= List.length env' ->
    forall ext, var_values r (env' ++ ext) !! id = Some (var_value r (var_values r (env' ++ ext)) v)) as Hval.
  { intros e i He Hi Hle ext. rewrite var_values_lookup by by eapply lookup_lt_Some.
    rewrite (var_values_var r e i v) by done. f_equal. destruct v as [s|obj prop]; cbn; [done|].
    rewrite var_values_lookup; [done|]. specialize (Hv _ _ eq_refl). lia. }
  destruct (var_index v env) as [i|] eqn:Ei; intros [= <- <-].
  - apply var_index_some in Ei. exists []. rewrite app_nil_r. split; [done|]. split; [done|].
    split; [by eapply lookup_lt_Some|]. by apply Hval.
  - exists [v]. split; [done|]. split; [by apply env_ok_snoc|].
    split; [rewrite length_app; cbn; lia|].
    apply Hval; [by apply env_ok_snoc| |rewrite length_app; lia].
    by apply list_lookup_middle.
Qed.

(** [a], where it is defined, is [b]. *)
Definition below {A} (a b : option A) : Prop := forall x, a = Some x -> b = Some x.

Lemma below_refl {A} (a : option A) : below a a.
Proof. by intros x. Qed.

Lemma below_bind {A C} (a b : option A) (f : A -> option C) : below a b -> below (a ≫= f) (b ≫= f).
Proof. intros H x. destruct a as [y|]; cbn; [|done]. by rewrite (H y eq_refl). Qed.

Lemma below_fmap {A C} (a b : option A) (f : A -> C) : below a b -> below (f <$> a) (f <$> b).
Proof. intros H x. destruct a as [y|]; cbn; [|done]. by rewrite (H y eq_refl). Qed.

Lemma js_logic_below op a a' b b' : below a a' -> below b b' -> below (js_logic op a b) (js_logic op a' b').
Proof.
  intros Ha Hb x. destruct a as [va|]; cbn; [|done]. rewrite (Ha va eq_refl). cbn.
  destruct op; cbn; try (destruct (to_boolean va); by auto);
    (destruct b as [vb|]; cbn; [|done]; rewrite (Hb vb eq_refl); done).
Qed.

(** Parsing keeps the value of an expression, in the environment it returns and
    in all its extensions. *)
Definition parses (r : scope) (env env' : Environment) (p : Predicate) (v : option JsValue) : Prop :=
  exists extra, env' = env ++ extra /\ env_ok env' /\
    (forall id, p = PVar id -> id < List.length env') /\
    forall ext, below v (pred_eval (var_values r (env' ++ ext)) p).

Lemma parses_ident r env s env' id : env_ok env -> env_insert env (VIdent s) = (env', id) ->
  parses r env env' (PVar id) (r s).
Proof.
  intros Hok Hi. destruct (env_insert_value r env (VIdent s) env' id Hok ltac:(done) Hi)
    as (extra & He & Hok' & Hlt & Hval).
  exists extra. split; [done|]. split; [done|]. split; [by intros ? [= <-]|].
  intros ext x. cbn. by rewrite Hval.
Qed.

Lemma parses_member r env env1 env2 p v prop p' :
  parses r env env1 p v -> parse_member p prop env1 = Ok (p', env2) ->
  parses r env env2 p' (v ≫= fun v => js_member v prop).
Proof.
  intros (extra & -> & Hok & Hlt & Hv) H. destruct p as [| | |id]; try done. cbn in H.
  destruct (env_insert (env ++ extra) (VMember id prop)) as [env3 id'] eqn:Ei.
  injection H as <- <-.
  assert (forall obj q, VMember id prop = VMember obj q -> obj < List.length (env ++ extra)) as Hm
    by (intros ? ? [= <- <-]; by apply Hlt).
  destruct (env_insert_value r _ _ _ _ Hok Hm Ei) as (extra' & -> & Hok' & Hlt' & Hval).
  exists (extra ++ extra'). rewrite app_assoc. split; [done|]. split; [done|]. split; [by intros ? [= <-]|].
  intros ext. cbn. rewrite Hval. cbn. rewrite <- app_assoc.
  apply below_bind. exact (Hv (extra' ++ ext)).
Qed.

Lemma parses_lit r env l j : env_ok env -> lit_value l = Ok j -> parses r env env (PLit j) (js_lit l).
Proof.
  intros Hok Hj. exists []. rewrite app_nil_r. repeat (split; [done|]). intros ext v.
  destruct l as [s|b| |f|]; cbn in Hj; try done; injection Hj as <-; try done.
  cbn. unfold json_of_f64. by destruct (f64_is_finite f).
Qed.

Lemma parse_expr_parses r e : forall env p env', env_ok env ->
  parse_expr e env = Ok (p, env') -> parses r env env' p (js_eval r e).
Proof.
  induction e as [e IH|e _|op a IHa b IHb|l|s|e IH|e IH prop|e IH c _|]; intros env p env' Hok H;
    cbn [parse_expr] in H; try done.
  - apply bind_ok in H as ([q env1] & Hq & [= <- <-]).
    destruct (IH _ _ _ Hok Hq) as (extra & He & Hok1 & _ & Hv).
    exists extra. repeat (split; [done|]). intros ext. cbn. by apply below_fmap.
  - apply bind_ok in H as (o & Ho & H). apply bind_ok in H as ([pa env1] & Ha & H).
    apply bind_ok in H as ([pb env2] & Hb & [= <- <-]).
    destruct (IHa _ _ _ Hok Ha) as (x1 & -> & Hok1 & _ & Hva).
    destruct (IHb _ _ _ Hok1 Hb) as (x2 & -> & Hok2 & _ & Hvb).
    exists (x1 ++ x2). rewrite app_assoc. repeat (split; [done|]). intros ext. cbn. rewrite Ho. cbn.
    apply js_logic_below; [|apply Hvb]. rewrite <- (app_assoc _ x2). apply Hva.
  - apply bind_ok in H as (j & Hj & [= <- <-]). by apply parses_lit.
  - destruct (env_insert env (VIdent s)) as [env1 id] eqn:Ei. injection H as <- <-.
    by apply parses_ident.
  - by apply IH.
  - apply bind_ok in H as ([q env1] & Hq & H). cbn [js_eval].
    eapply parses_member; [|done]. by apply IH.
  - apply bind_ok in H as ([q env1] & Hq & H).
    destruct q; try done. destruct c as [| | |[prop| | | |]| | | | |]; try done. cbn [js_eval].
    eapply parses_member; [|done]. by apply IH.
Qed.

(** ** The actions a function returns *)

(** The truth of every predicate, in an environment. *)
Definition pred_truth (vals : list (option JsValue)) (preds : Predicates) (id : nat) : bool :=
  match preds !! id with
  | Some p => match pred_eval vals p with Some v => to_boolean v | None => false end
  | None => false
  end.

(** A truth assignment that is right about every predicate that has a value:
    what it says of the others does not matter. *)
Definition faithful (vals : list (option JsValue)) (preds : Predicates) (t : nat -> bool) : Prop :=
  forall id p v, preds !! id = Some p -> pred_eval vals p = Some v -> t id = to_boolean v.

Lemma pred_truth_faithful vals preds : faithful vals preds (pred_truth vals preds).
Proof. intros id p v Hid Hv. unfold pred_truth, Predicates in *. by rewrite Hid, Hv. Qed.

Fixpoint cond_holds (t : nat -> bool) (c : Cond) : bool :=
  match c with
  | CAnd a b => cond_holds t a && cond_holds t b
  | COr a b => cond_holds t a || cond_holds t b
  | CNot c => negb (cond_holds t c)
  | CPredicate id => t id
  | CTrue => true
  | CFalse => false
  end.

(** Does an action's condition hold? *)
Definition action_holds (t : nat -> bool) (a : Actions) (x : Action) : bool :=
  match a x with Some c => cond_holds t c | None => false end.

Lemma action_holds_insert t x c a y :
  action_holds t (actions_insert x c a) y = if decide (y = x) then cond_holds t c else action_holds t a y.
Proof. unfold action_holds, actions_insert. by destruct (decide (y = x)). Qed.

Lemma merge_get a b x : merge a b x =
  match a x, b x with
  | Some l, Some r => Some (COr l r)
  | Some c, None | None, Some c => Some c
  | None, None => None
  end.
Proof.
  unfold merge, all_actions, no_actions, actions_insert.
  destruct x; cbn; destruct (a Allow), (b Allow), (a Skip), (b Skip), (a Deny), (b Deny), (a Log), (b Log); done.
Qed.

Lemma merge_holds t a b x : action_holds t (merge a b) x = action_holds t a x || action_holds t b x.
Proof.
  unfold action_holds. rewrite merge_get.
  destruct (a x), (b x); cbn; by rewrite ?orb_false_r.
Qed.

#[local] Arguments merge : simpl never.

Fixpoint cond_wf (n : nat) (c : Cond) : Prop :=
  match c with
  | CAnd a b | COr a b => cond_wf n a /\ cond_wf n b
  | CNot c => cond_wf n c
  | CPredicate id => id < n
  | CTrue | CFalse => True
  end.
Definition actions_wf (n : nat) (a : Actions) : Prop := forall x c, a x = Some c -> cond_wf n c.

Lemma cond_wf_mono n m c : n <= m -> cond_wf n c -> cond_wf m c.
Proof. intros Hle. induction c; cbn; try done; try tauto. lia. Qed.

Lemma branch_wf n m id c : id < m -> n <= m -> cond_wf n c ->
  cond_wf m (CAnd (CPredicate id) c) /\ cond_wf m (CAnd (CNot (CPredicate id)) c).
Proof. intros Hid Hle Hc%(cond_wf_mono _ m); [|done]. done. Qed.

Lemma actions_wf_merge n a b : actions_wf n a -> actions_wf n b -> actions_wf n (merge a b).
Proof.
  intros Ha Hb x c. rewrite merge_get.
  destruct (a x) eqn:Ea, (b x) eqn:Eb; intros [= <-]; cbn; eauto.
Qed.

Lemma actions_wf_insert n x c : cond_wf n c -> actions_wf n (actions_insert x c no_actions).
Proof. intros Hc y d. unfold actions_insert, no_actions. case_decide; by intros [= <-]. Qed.

(** The state of the analysis only grows. *)
Record grows (b b' : RulesBuilder) : Prop := {
  grows_preds : b_predicates b `prefix_of` b_predicates b';
  grows_env : b_env b `prefix_of` b_env b';
  grows_ok : env_ok (b_env b');
}.

Lemma builder_grows_refl b : env_ok (b_env b) -> grows b b.
Proof. by constructor. Qed.

Lemma builder_grows_trans a b c : grows a b -> grows b c -> grows a c.
Proof. intros [] []. constructor; [by etrans..|done]. Qed.

Lemma extract_cond_grows m b region c b' : env_ok (b_env b) ->
  extract_cond_from_test m b region = Ok (c, b') ->
  grows b b' /\ exists idx test p, region = BasicBlock [idx] /\ (exists cs alt, m !! idx = Some (SIf test cs alt)) /\
    c = CPredicate (List.length (b_predicates b)) /\
    b_predicates b' = b_predicates b ++ [p] /\
    forall r, parses r (b_env b) (b_env b') p (js_eval r test).
Proof.
  intros Hok H. destruct region as [stmts| | |]; try done. cbn in H.
  apply bind_unit_ok in H as [Hlen H]. apply rust_assert_ok in Hlen.
  destruct stmts as [|idx []]; try done. cbn in H. unfold stmt_at in H.
  apply bind_ok in H as (stmt & Hm & H). apply unwrap_ok in Hm.
  destruct stmt as [test cs alt| | | | | | |]; try done.
  apply bind_ok in H as ([p env] & Hp & [= <- <-]). cbn.
  assert (forall r, parses r (b_env b) env p (js_eval r test)) as Hpar
    by (intros r; by eapply parse_expr_parses).
  destruct (Hpar (fun _ => None)) as (extra & -> & Hok' & _).
  split; [constructor; cbn; [by eexists|by eexists|done]|].
  exists idx, test, p. split; [done|]. split; [by exists cs, alt|done].
Qed.

(** The truth of a test whose predicate has been recorded. *)
Lemma test_truth r b b' test p E P t v : faithful (var_values r E) P t ->
  b_predicates b' = b_predicates b ++ [p] ->
  parses r (b_env b) (b_env b') p (js_eval r test) ->
  b_env b' `prefix_of` E -> b_predicates b' `prefix_of` P -> js_eval r test = Some v ->
  t (List.length (b_predicates b)) = to_boolean v.
Proof.
  intros Ht Hps (extra & _ & _ & _ & Hv) (ext & ->) (pext & ->) Hev.
  apply (Ht _ p); [|by apply Hv]. unfold Predicates in *. rewrite Hps, <- app_assoc.
  by apply list_lookup_middle.
Qed.

Lemma basic_block_rules m stmts cond acts n : cond_wf n cond ->
  infer_basic_block m stmts cond = Ok acts ->
  exists x, acts = actions_insert x cond no_actions /\
    forall r a, run_region r m (BasicBlock stmts) = Some a -> a = x.
Proof.
  intros Hwf H. destruct stmts as [|idx [|]]; cbn in H; [| |done].
  { injection H as <-. exists Deny. split; [done|]. by intros r a [= <-]. }
  unfold stmt_at in H. apply bind_ok in H as (stmt & Hm & H). apply unwrap_ok in Hm.
  destruct stmt as [| |[arg|]| | | | |]; try done. destruct arg as [| | | | | |[] prop| |]; try done.
  apply bind_unit_ok in H as [Hid H]. apply rust_assert_ok in Hid.
  apply bind_ok in H as (x & Hx & [= <-]). exists x. split; [done|].
  intros r a. cbn. by rewrite Hm, Hid, Hx; intros [= <-].
Qed.

Lemma infer_grows m region : forall b cond acts b', env_ok (b_env b) ->
  cond_wf (List.length (b_predicates b)) cond ->
  infer_rules_from_region m b region cond = Ok (acts, b') ->
  grows b b' /\ actions_wf (List.length (b_predicates b')) acts.
Proof.
  induction region as [stmts| |test_region _ cons IHc alt IHa|]; intros b cond acts b' Hok Hwf H;
    cbn in H; try done.
  - apply bind_ok in H as (rules & Hr & [= <- <-]). split; [by apply builder_grows_refl|].
    eapply basic_block_rules in Hr as (x & -> & _); [|done]. by apply actions_wf_insert.
  - apply bind_ok in H as ([tc b1] & Ht & H). apply bind_ok in H as ([cr b2] & Hc & H).
    apply bind_ok in H as ([ar b3] & Ha & [= <- <-]).
    destruct (extract_cond_grows _ _ _ _ _ Hok Ht) as (G1 & idx & test & p & _ & _ & -> & Hps & _).
    assert (List.length (b_predicates b) < List.length (b_predicates b1)) as Hlt
    by (rewrite Hps, length_app; cbn; lia).
    destruct (branch_wf _ _ _ cond Hlt (Nat.lt_le_incl _ _ Hlt) Hwf) as [W1 _].
    destruct (IHc _ _ _ _ (grows_ok _ _ G1) W1 Hc) as [G2 A2].
    pose proof (prefix_length _ _ (grows_preds _ _ G2)) as L2.
    destruct (branch_wf (List.length (b_predicates b)) (List.length (b_predicates b2))
      (List.length (b_predicates b)) cond ltac:(lia) ltac:(lia) Hwf) as [_ W2].
    destruct (IHa _ _ _ _ (grows_ok _ _ G2) W2 Ha) as [G3 A3].
    pose proof (prefix_length _ _ (grows_preds _ _ G3)) as L3.
    split; [by eapply builder_grows_trans; [|eapply builder_grows_trans]|].
    apply actions_wf_merge; [|done]. intros x c Hx. eapply cond_wf_mono; [|by eapply A2]. done.
Qed.

(** The two branches of a conditional, merged. *)
Lemma branches_hold t id cond cr ar (run_c run_a : option Action) :
  let right cond run acts :=
    (forall x, action_holds t acts x = true -> cond_holds t cond = true) /\
    (forall a, cond_holds t cond = true -> run = Some a ->
       forall x, action_holds t acts x = bool_decide (x = a)) in
  right (CAnd (CPredicate id) cond) run_c cr -> right (CAnd (CNot (CPredicate id)) cond) run_a ar ->
  right cond (if t id then run_c else run_a) (merge cr ar).
Proof.
  cbn. intros [C1 C2] [A1 A2]. split.
  - intros x. rewrite merge_holds, orb_true_iff. intros [Hx|Hx]; [apply C1 in Hx|apply A1 in Hx];
      by apply andb_true_iff in Hx as [_ Hx].
  - intros a Hcond Hrun x. rewrite merge_holds. rewrite Hcond, ?andb_true_r in C1, C2, A1, A2.
    destruct (t id).
    + rewrite (C2 a) by done. destruct (action_holds t ar x) eqn:Ex; [|by rewrite orb_false_r].
      by apply A1 in Ex.
    + rewrite (A2 a) by done. destruct (action_holds t cr x) eqn:Ex; [|done].
      by apply C1 in Ex.
Qed.

(** The conditions of the actions: only under the condition of the region, and
    there exactly for the action the region returns. *)
Lemma infer_holds m region : forall b cond acts b' r E P t, env_ok (b_env b) ->
  cond_wf (List.length (b_predicates b)) cond ->
  infer_rules_from_region m b region cond = Ok (acts, b') ->
  b_env b' `prefix_of` E -> b_predicates b' `prefix_of` P -> faithful (var_values r E) P t ->
  (forall x, action_holds t acts x = true -> cond_holds t cond = true) /\
  (forall a, cond_holds t cond = true -> run_region r m region = Some a ->
     forall x, action_holds t acts x = bool_decide (x = a)).
Proof.
  induction region as [stmts| |test_region _ cons IHc alt IHa|]; intros b cond acts b' r E P t Hok Hwf H HE HP Ht;
    cbn in H; try done.
  - apply bind_ok in H as (rules & Hr & [= <- <-]).
    eapply basic_block_rules in Hr as (y & -> & Hrun); [|done].
    split; [intros x|intros a Hc Ha x; apply Hrun in Ha as ->]; rewrite action_holds_insert;
      case_decide; try done; [by rewrite bool_decide_true|by rewrite bool_decide_false].
  - apply bind_ok in H as ([tc b1] & Htest & H). apply bind_ok in H as ([cr b2] & Hc & H).
    apply bind_ok in H as ([ar b3] & Ha & [= <- <-]).
    destruct (extract_cond_grows _ _ _ _ _ Hok Htest) as (G1 & idx & test & p & -> & (cs & alt' & Hm) & -> & Hps & Hpar).
    assert (List.length (b_predicates b) < List.length (b_predicates b1)) as Hlt
      by (rewrite Hps, length_app; cbn; lia).
    destruct (branch_wf _ _ _ cond Hlt (Nat.lt_le_incl _ _ Hlt) Hwf) as [W1 _].
    destruct (infer_grows _ _ _ _ _ _ (grows_ok _ _ G1) W1 Hc) as [G2 _].
    pose proof (prefix_length _ _ (grows_preds _ _ G2)) as L2.
    destruct (branch_wf (List.length (b_predicates b)) (List.length (b_predicates b2))
      (List.length (b_predicates b)) cond ltac:(lia) ltac:(lia) Hwf) as [_ W2].
    destruct (infer_grows _ _ _ _ _ _ (grows_ok _ _ G2) W2 Ha) as [G3 _].
    assert (b_env b2 `prefix_of` E /\ b_predicates b2 `prefix_of` P) as [HE2 HP2]
      by (destruct G3; split; by etrans).
    assert (b_env b1 `prefix_of` E /\ b_predicates b1 `prefix_of` P) as [HE1 HP1]
      by (destruct G2; split; by etrans).
    destruct (IHc _ _ _ _ r E P t (grows_ok _ _ G1) W1 Hc HE2 HP2 Ht) as [C1 C2].
    destruct (IHa _ _ _ _ r E P t (grows_ok _ _ G2) W2 Ha HE HP Ht) as [A1 A2].
    destruct (branches_hold t _ cond cr ar _ _ (conj C1 C2) (conj A1 A2)) as [M1 M2].
    split; [done|]. intros a Hcond Hrun. apply M2; [done|]. cbn in Hrun. rewrite Hm in Hrun.
    destruct (js_eval r test) as [v|] eqn:Ev; [|done].
    by rewrite (test_truth r b b1 test p E P t v Ht Hps (Hpar r) HE1 HP1 Ev).
Qed.
End Js.

(** ** Minimization *)

Section Minimize.
Context {BL : BoolLib}.

Fixpoint bool_eval (t : nat -> bool) (b : BoolExpr) : bool :=
  match b with
  | BTrue => true
  | BFalse => false
  | BTerm i => t i
  | BAnd l => forallb (bool_eval t) l
  | BOr l => existsb (bool_eval t) l
  | BNot b => negb (bool_eval t b)
  end.

(** Terms below a bound, and no empty conjunction or disjunction. *)
Fixpoint bool_wf (n : nat) (b : BoolExpr) : bool :=
  match b with
  | BTrue | BFalse => true
  | BTerm i => i <? n
  | BAnd l | BOr l => negb (List.length l =? 0) && forallb (bool_wf n) l
  | BNot b => bool_wf n b
  end.

(** What the library promises of its minimization, for expressions with terms
    below [limit]: the first result is an equivalent expression over the same
    terms. *)
Class BoolLaws (limit : nat) := bool_simplify_law :
  forall n b, n <= limit -> bool_wf n b = true ->
    exists s, head (bool_simplify b) = Some s /\ bool_wf n s = true /\
      forall t, bool_eval t s = bool_eval t b.

(** Induction on nested expressions. *)
Section BoolInd.
Context (P : BoolExpr -> Prop).
Context (Ht : P BTrue) (Hf : P BFalse) (Hi : forall i, P (BTerm i)).
Context (Hand : forall l, Forall P l -> P (BAnd l)) (Hor : forall l, Forall P l -> P (BOr l)).
Context (Hnot : forall b, P b -> P (BNot b)).

Fixpoint bool_nested_ind (b : BoolExpr) : P b :=
  let each := fix each (l : list BoolExpr) : Forall P l := match l with
    | [] => List.Forall_nil _
    | x :: l' => List.Forall_cons _ _ _ (bool_nested_ind x) (each l')
    end in
  match b with
  | BTrue => Ht
  | BFalse => Hf
  | BTerm i => Hi i
  | BAnd l => Hand l (each l)
  | BOr l => Hor l (each l)
  | BNot b => Hnot b (bool_nested_ind b)
  end.
End BoolInd.

(** The truth of a term: that of the predicate it stands for. *)
Definition term_truth (t : nat -> bool) (mapping : list nat) (i : nat) : bool :=
  match mapping !! i with Some id => t id | None => false end.

Lemma position_some id l i : position id l = Some i -> l !! i = Some id.
Proof.
  revert i. induction l as [|x l IH]; intros i; cbn; [done|].
  destruct (Nat.eqb_spec x id) as [->|]; [by intros [= <-]|].
  destruct (position id l) as [j|]; cbn; [|done]. intros [= <-]. by apply IH.
Qed.

Lemma position_none id l : position id l = None -> id ∉ l.
Proof.
  induction l as [|x l IH]; cbn; [intros _; apply not_elem_of_nil|].
  destruct (Nat.eqb_spec x id) as [->|Hne]; [done|].
  destruct (position id l); cbn; [done|]. intros _ [->|Hl]%elem_of_cons; [done|by apply IH].
Qed.

(** The terms' numbering: distinct valid predicates, fewer than the 256 an [u8]
    can tell apart. *)
Record mapping_ok (preds : Predicates) (mapping : list nat) : Prop := {
  mapping_nodup : NoDup mapping;
  mapping_valid : Forall (fun id => id < List.length preds) mapping;
}.

Lemma mapping_short preds mapping : mapping_ok preds mapping -> List.length mapping <= List.length preds.
Proof.
  intros [Hnd Hv]. rewrite <- (length_seq (List.length preds) 0).
  apply submseteq_length, NoDup_submseteq; [done|]. intros x Hx.
  rewrite elem_of_seq. rewrite Forall_forall in Hv. specialize (Hv x Hx). lia.
Qed.

Lemma as_u8_small n : n < 256 -> as_u8 n = n.
Proof. intros. unfold as_u8. by apply Nat.mod_small. Qed.

Lemma u8_pred_small n : 0 < n < 256 -> u8_pred n = n - 1.
Proof.
  intros. unfold u8_pred. replace (n + 255) with (n - 1 + 1 * 256) by lia.
  rewrite Nat.Div0.mod_add. apply Nat.mod_small. lia.
Qed.

(** What the translation of a condition promises. *)
Definition translates (preds : Predicates) (c : Cond) (mapping mapping' : list nat) (b : BoolExpr) : Prop :=
  mapping_ok preds mapping' /\ mapping `prefix_of` mapping' /\
  (forall n, List.length mapping' <= n -> bool_wf n b = true) /\
  forall t, (forall id v, preds !! id = Some (PLit (JBool v)) -> t id = v) ->
    forall mapping'', mapping' `prefix_of` mapping'' ->
      bool_eval (term_truth t mapping'') b = cond_holds t c.

Lemma translates_predicate preds id mapping b mapping' :
  List.length preds < 256 -> id < List.length preds -> mapping_ok preds mapping ->
  to_bool preds (CPredicate id) mapping = Ok (b, mapping') ->
  translates preds (CPredicate id) mapping mapping' b.
Proof.
  intros Hlt Hid Hok H. cbn in H. unfold predicates_get in H.
  apply bind_ok in H as (p & Hp & H). apply unwrap_ok in Hp.
  assert ((exists v, p = PLit (JBool v) /\ b = (if v then BTrue else BFalse) /\ mapping' = mapping) \/
    match position id mapping with
    | Some i => b = BTerm (as_u8 i) /\ mapping' = mapping
    | None => b = BTerm (u8_pred (as_u8 (List.length (mapping ++ [id])))) /\ mapping' = mapping ++ [id]
    end) as [(v & -> & -> & ->)|Hb].
  { destruct p as [| |[|[]| | | |]|]; destruct (position id mapping); naive_solver. }
  { split; [done|]. split; [done|]. split; [by destruct v|]. intros t Ht m'' _. cbn.
    rewrite (Ht id v Hp). by destruct v. }
  pose proof (mapping_short _ _ Hok) as Hshort.
  destruct (position id mapping) as [i|] eqn:Ei; destruct Hb as [-> ->].
  - apply position_some in Ei. pose proof (lookup_lt_Some _ _ _ Ei) as Hi.
    rewrite as_u8_small by lia. split; [done|]. split; [done|].
    split; [intros n Hn; cbn; apply Nat.ltb_lt; lia|].
    intros t _ m'' Hm. cbn. unfold term_truth. by rewrite (prefix_lookup_Some _ _ _ _ Ei Hm).
  - apply position_none in Ei.
    assert (mapping_ok preds (mapping ++ [id])) as Hok'.
    { destruct Hok as [Hnd Hv]. constructor.
      - apply NoDup_app. split; [done|]. split; [|by apply NoDup_singleton].
        by intros x Hx ->%list_elem_of_singleton.
      - apply Forall_app. by rewrite Forall_singleton. }
    pose proof (mapping_short _ _ Hok') as Hshort'. rewrite length_app in *. cbn [List.length] in *.
    rewrite as_u8_small, u8_pred_small by lia. replace (List.length mapping + 1 - 1) with (List.length mapping) by lia.
    split; [done|]. split; [by eexists|]. split; [intros n Hn; rewrite length_app in Hn; cbn in *; apply Nat.ltb_lt; lia|].
    intros t _ m'' Hm. cbn. unfold term_truth.
    by rewrite (prefix_lookup_Some _ _ _ _ (list_lookup_middle mapping [] id _ eq_refl) Hm).
Qed.

Lemma to_bool_translates preds c : forall mapping b mapping',
  List.length preds < 256 -> cond_wf (List.length preds) c -> mapping_ok preds mapping ->
  to_bool preds c mapping = Ok (b, mapping') -> translates preds c mapping mapping' b.
Proof.
  induction c as [l IHl r IHr|l IHl r IHr|c IH|id| |]; intros mapping b mapping' Hlt Hwf Hok H.
  1-2: cbn in H, Hwf; destruct Hwf as [Hwl Hwr];
    apply bind_ok in H as ([lb m1] & Hl & H); apply bind_ok in H as ([rb m2] & Hr & [= <- <-]);
    destruct (IHl _ _ _ Hlt Hwl Hok Hl) as (Hok1 & Hp1 & Hw1 & He1);
    destruct (IHr _ _ _ Hlt Hwr Hok1 Hr) as (Hok2 & Hp2 & Hw2 & He2);
    pose proof (prefix_length _ _ Hp2) as Hlen;
    (split; [done|]); (split; [by etrans|]); split;
    [ intros n Hn; cbn; rewrite (Hw1 n), (Hw2 n) by lia; done
    | intros t Ht m'' Hm; cbn; rewrite (He1 t Ht m''), (He2 t Ht m'') by (done || by etrans);
      by rewrite ?andb_true_r, ?orb_false_r ].
  - cbn in H, Hwf. apply bind_ok in H as ([cb m1] & Hc & [= <- <-]).
    destruct (IH _ _ _ Hlt Hwf Hok Hc) as (Hok1 & Hp1 & Hw1 & He1).
    split; [done|]. split; [done|]. split; [done|]. intros t Ht m'' Hm. cbn. by rewrite He1.
  - by apply translates_predicate.
  - injection H as <- <-. by split.
  - injection H as <- <-. by split.
Qed.

Lemma to_bool_total preds c : forall mapping, cond_wf (List.length preds) c ->
  exists b mapping', to_bool preds c mapping = Ok (b, mapping').
Proof.
  induction c as [l IHl r IHr|l IHl r IHr|c IH|id| |]; intros mapping Hwf; cbn in *; eauto.
  1-2: destruct Hwf as [Hl Hr]; destruct (IHl mapping Hl) as (lb & m1 & ->); cbn;
    destruct (IHr m1 Hr) as (rb & m2 & ->); cbn; eauto.
  - destruct (IH mapping Hwf) as (b & m1 & ->). cbn. eauto.
  - unfold predicates_get, Predicates in *.
    destruct (lookup_lt_is_Some_2 preds id Hwf) as (p & ->). cbn.
    destruct p as [| |[|[]| | | |]|]; destruct (position id mapping); eauto.
Qed.

Lemma forallb_step {A} (P : A -> bool) (Q : A -> Prop) l :
  Forall (fun x => P x = true -> Q x) l -> forallb P l = true -> Forall Q l.
Proof.
  induction 1 as [|x l Hx _ IH]; cbn; intros HP; [constructor|].
  apply andb_true_iff in HP as [HP1 HP2]. constructor; auto.
Qed.

Definition from_bools (mapping : list nat) (l : list BoolExpr) : result (list Cond) :=
  foldr (fun b acc => c ← from_bool mapping b; cs ← acc; Ok (c :: cs)) (Ok []) l.

Lemma from_bool_and mapping l : from_bool mapping (BAnd l) = (cs ← from_bools mapping l; reduce_cond CAnd cs).
Proof. reflexivity. Qed.

Lemma from_bool_or mapping l : from_bool mapping (BOr l) = (cs ← from_bools mapping l; reduce_cond COr cs).
Proof. reflexivity. Qed.

(** A condition made from a boolean expression. *)
Definition reads (n : nat) (mapping : list nat) (b : BoolExpr) (c : Cond) : Prop :=
  cond_wf n c /\ forall t, cond_holds t c = bool_eval (term_truth t mapping) b.

Lemma from_bools_reads n mapping l :
  Forall (fun b => exists c, from_bool mapping b = Ok c /\ reads n mapping b c) l ->
  exists cs, from_bools mapping l = Ok cs /\ Forall2 (reads n mapping) l cs.
Proof.
  induction 1 as [|b l (c & Hc & Hr) _ (cs & Hcs & IH)]; [by exists []|].
  change (from_bools mapping (b :: l))
    with (c ← from_bool mapping b; cs ← from_bools mapping l; Ok (c :: cs)).
  rewrite Hc, Hcs. exists (c :: cs). by split; [|constructor].
Qed.

Lemma foldl_and t l : forall c, cond_holds t (foldl CAnd c l) = cond_holds t c && forallb (cond_holds t) l.
Proof. induction l as [|d l IH]; intros c; cbn; [by rewrite andb_true_r|]. by rewrite IH, andb_assoc. Qed.
Lemma foldl_or t l : forall c, cond_holds t (foldl COr c l) = cond_holds t c || existsb (cond_holds t) l.
Proof. induction l as [|d l IH]; intros c; cbn; [by rewrite orb_false_r|]. by rewrite IH, orb_assoc. Qed.

Lemma foldl_wf n f l : (forall a b, cond_wf n a -> cond_wf n b -> cond_wf n (f a b)) ->
  forall c, cond_wf n c -> Forall (cond_wf n) l -> cond_wf n (foldl f c l).
Proof. intros Hf. induction l as [|d l IH]; intros c Hc Hl; cbn; [done|]. inversion Hl; auto. Qed.

Lemma reduce_reads n mapping l cs : negb (List.length l =? 0) = true -> Forall2 (reads n mapping) l cs ->
  (exists c, reduce_cond CAnd cs = Ok c /\ reads n mapping (BAnd l) c) /\
  (exists c, reduce_cond COr cs = Ok c /\ reads n mapping (BOr l) c).
Proof.
  intros Hne H. destruct H as [|b c l cs [Hw Hc] H]; [done|].
  assert (Forall (cond_wf n) cs) as Hcs by (clear -H; induction H as [|???? []]; constructor; auto).
  assert (forall t, forallb (cond_holds t) cs = forallb (bool_eval (term_truth t mapping)) l /\
    existsb (cond_holds t) cs = existsb (bool_eval (term_truth t mapping)) l) as Heq.
  { intros t. clear -H. induction H as [|???? [? Hx] ? [IH1 IH2]]; cbn; [done|]. by rewrite Hx, IH1, IH2. }
  split; (eexists; split; [done|]); split; try (by apply foldl_wf); intros t.
  - rewrite foldl_and. cbn. by rewrite Hc, (proj1 (Heq t)).
  - rewrite foldl_or. cbn. by rewrite Hc, (proj2 (Heq t)).
Qed.

Lemma from_bool_reads n mapping b : Forall (fun id => id < n) mapping ->
  bool_wf (List.length mapping) b = true ->
  exists c, from_bool mapping b = Ok c /\ reads n mapping b c.
Proof.
  intros Hv. induction b as [| |i|l IH|l IH|b IH] using bool_nested_ind; intros Hwf.
  - by exists CTrue.
  - by exists CFalse.
  - cbn in Hwf. apply Nat.ltb_lt, lookup_lt_is_Some_2 in Hwf as (id & Hid).
    exists (CPredicate id). cbn. rewrite Hid. split; [done|]. split.
    + cbn. rewrite Forall_forall in Hv. by apply Hv, (list_elem_of_lookup_2 _ i).
    + intros t. cbn. unfold term_truth. by rewrite Hid.
  - cbn in Hwf. apply andb_true_iff in Hwf as [Hne Hwf]. rewrite from_bool_and.
    destruct (from_bools_reads n mapping l) as (cs & -> & Hcs); [by eapply forallb_step|].
    by apply reduce_reads.
  - cbn in Hwf. apply andb_true_iff in Hwf as [Hne Hwf]. rewrite from_bool_or.
    destruct (from_bools_reads n mapping l) as (cs & -> & Hcs); [by eapply forallb_step|].
    by apply reduce_reads.
  - destruct (IH Hwf) as (c & Hc & Hw & He). exists (CNot c). cbn. rewrite Hc. split; [done|].
    split; [done|]. intros t. cbn. by rewrite He.
Qed.

(** The truth of the literals a truth assignment has to respect. *)
Definition respects_literals (preds : Predicates) (t : nat -> bool) : Prop :=
  forall id v, preds !! id = Some (PLit (JBool v)) -> t id = v.

Lemma simplify_holds limit `{!BoolLaws limit} preds c :
  List.length preds < 256 -> List.length preds <= limit -> cond_wf (List.length preds) c ->
  exists c', simplify preds c = Ok c' /\ cond_wf (List.length preds) c' /\
    forall t, respects_literals preds t -> cond_holds t c' = cond_holds t c.
Proof.
  intros Hlt Hlim Hwf. unfold simplify.
  destruct (to_bool_total preds c [] Hwf) as (b & mapping & Hb).
  destruct (to_bool_translates preds c [] b mapping Hlt Hwf) with (2 := Hb) as (Hok & _ & Hbwf & Heq);
    [constructor; [apply NoDup_nil_2|done]|].
  pose proof (mapping_short _ _ Hok) as Hshort.
  destruct (bool_simplify_law (List.length mapping) b) as (s & Hs & Hswf & Hseq); [lia|by apply Hbwf|].
  destruct (from_bool_reads (List.length preds) mapping s (mapping_valid _ _ Hok) Hswf) as (c' & Hc' & Hw & He).
  exists c'. rewrite Hb; cbn. rewrite Hs; cbn. split; [done|]. split; [done|].
  intros t Ht. rewrite He, Hseq. by apply Heq.
Qed.
End Minimize.

(** ** The rules of a function *)

Section Rules.
Context {B : Boa} {BL : BoolLib} {SW : Swc} (limit : nat) {Laws : BoolLaws limit}.

(** Few enough predicates for the minimization. *)
Definition few (preds : Predicates) : Prop := List.length preds < 256 /\ List.length preds <= limit.

Lemma simplified_step preds t policies : forall a out a', few preds -> respects_literals preds t ->
  actions_wf (List.length preds) a -> actions_wf (List.length preds) out ->
  foldM (fun out policy =>
    match a policy with
    | Some c => c ← simplify preds c; Ok (actions_insert policy c out)
    | None => Ok out
    end) out policies = Ok a' ->
  actions_wf (List.length preds) a' /\
  forall x, action_holds t a' x =
    if decide (x ∈ policies /\ is_Some (a x)) then action_holds t a x else action_holds t out x.
Proof.
  induction policies as [|p ps IH]; intros a out a' Hfew Ht Ha Ho H; cbn in H.
  { injection H as <-. split; [done|]. intros x. rewrite decide_False; [done|]. by intros [?%elem_of_nil _]. }
  apply bind_ok in H as (out' & Hout & H).
  destruct (a p) as [c|] eqn:Ep.
  - apply bind_ok in Hout as (c' & Hc & [= <-]).
    destruct (simplify_holds limit preds c) as (c'' & Hc'' & Hw & Heq); [apply Hfew|apply Hfew|by eapply Ha|].
    rewrite Hc in Hc''. injection Hc'' as ->.
    apply IH in H as [Hwf H]; try done.
    2:{ intros y d. unfold actions_insert. case_decide; [by intros [= <-]|apply Ho]. }
    split; [done|]. intros x. rewrite H, action_holds_insert. unfold action_holds.
    destruct (decide (x = p)) as [->|Hne].
    + rewrite Ep, Heq by done. case_decide; case_decide as Hd; try done;
        destruct Hd; (split; [left|eauto]).
    + case_decide as H1; case_decide as H2; try done; exfalso; set_solver.
  - injection Hout as <-. apply IH in H as [Hwf H]; try done. split; [done|]. intros x. rewrite H.
    case_decide as H1; case_decide as H2; try done; exfalso; [set_solver|].
    destruct H2 as [[->|Hin]%elem_of_cons Hs]; [by rewrite Ep in Hs; destruct Hs|by destruct H1].
Qed.

Lemma actions_simplify_holds preds a a' : few preds -> actions_wf (List.length preds) a ->
  actions_simplify preds a = Ok a' ->
  actions_wf (List.length preds) a' /\
  forall t, respects_literals preds t -> forall x, action_holds t a' x = action_holds t a x.
Proof.
  intros Hfew Ha H. unfold actions_simplify in H.
  assert (forall t, respects_literals preds t ->
    actions_wf (List.length preds) a' /\ forall x, action_holds t a' x = action_holds t a x) as Hs.
  { intros t Ht. eapply simplified_step in H as [Hw H]; try done. split; [done|].
    intros x. rewrite H. case_decide as Hd; [done|].
    unfold action_holds at 2. destruct (a x) eqn:Ex; [|done].
    destruct Hd. split; [destruct x; unfold all_actions; set_solver|eauto]. }
  split; [|by intros t Ht; apply Hs].
  apply (Hs (fun id => match preds !! id with Some (PLit (JBool v)) => v | _ => false end)).
  intros id v Hid. unfold Predicates in *. by rewrite Hid.
Qed.

(** A faithful assignment respects the literals. *)
Lemma faithful_literals vals preds t : faithful vals preds t -> respects_literals preds t.
Proof. intros Ht id v Hid. by rewrite (Ht id _ _ Hid eq_refl). Qed.

(** Does a policy's filter hold? *)
Definition filter_holds (t : nat -> bool) (c : option Cond) : bool :=
  match c with Some c => cond_holds t c | None => true end.

Lemma from_arrow_holds arrow fp : from_arrow arrow = Ok fp -> few (predicates fp) ->
  env_ok (env fp) /\ (exists ps, params arrow = Ok ps /\ param_names fp = ps.*1) /\
  (forall c, where_conds fp = Some c -> cond_wf (List.length (predicates fp)) c) /\
  forall r a t, run_region r (stmt_map arrow) (regions arrow) = Some a ->
    faithful (var_values r (env fp)) (predicates fp) t ->
    filter_holds t (where_conds fp) = bool_decide (a <> Skip).
Proof.
  intros H Hfew. unfold from_arrow in H.
  apply bind_ok in H as (ps & Hps & H).
  apply bind_ok in H as ([actions b] & Hi & H). apply bind_ok in H as (actions' & Hs & H).
  apply bind_ok in H as (w & Hw & H). apply bind_ok in H as (code & _ & [= <-]). cbn in *.
  pose proof env_ok_nil as Hok0.
  destruct (infer_grows _ _ {| b_predicates := []; b_env := [] |} CTrue _ _ Hok0 I Hi) as [G W].
  destruct (actions_simplify_holds _ _ _ Hfew W Hs) as [W' Hholds].
  split; [apply G|]. split; [by exists ps|].
  assert (exists w', (forall c, w = Some c -> cond_wf (List.length (b_predicates b)) c) /\ w' = w /\
    forall t, respects_literals (b_predicates b) t -> filter_holds t w = negb (action_holds t actions' Skip)) as (w' & Hwf & _ & Heq).
  { exists w. unfold generate_where_from_rules, action_holds in *.
    destruct (actions' Skip) as [c|] eqn:Ec; simpl fmap in Hw; cbv iota in Hw; [|injection Hw as <-; by split].
    apply fmap_ok in Hw as (c' & Hc' & ->).
    destruct (simplify_holds limit (b_predicates b) (CNot c)) as (c'' & Hc'' & Hwc & Hcc);
      [apply Hfew|apply Hfew|exact (W' _ _ Ec)|].
    rewrite Hc' in Hc''. injection Hc'' as ->. split; [by intros ? [= <-]|]. split; [done|].
    intros t Ht. cbn. by rewrite Hcc. }
  split; [done|]. intros r a t Hrun Ht.
  rewrite Heq by by eapply faithful_literals.
  rewrite Hholds by by eapply faithful_literals.
  destruct (infer_holds _ _ {| b_predicates := []; b_env := [] |} CTrue _ _ r (b_env b) (b_predicates b) t
    Hok0 I Hi) as [_ Hact]; [done|done|done|].
  rewrite (Hact a) by done. rewrite <- bool_decide_not. by apply bool_decide_ext; split; congruence.
Qed.
End Rules.

(** ** Properties *)

(** The conditions the analysis infers for the actions of a policy function
    are right.  On every input on which the function returns an action, the
    condition of that action holds, and the condition of no other action
    does; an action that no path returns has none.  The truth of a test is that
    of its expression in JavaScript, short-circuits included. *)
Theorem inferred_actions_spec {B : Boa} m region acts b r a t :
  infer_rules_from_region m {| b_predicates := []; b_env := [] |} region CTrue = Ok (acts, b) ->
  run_region r m region = Some a ->
  faithful (var_values r (b_env b)) (b_predicates b) t ->
  forall x, action_holds t acts x = bool_decide (x = a).
Proof.
  intros Hi Hrun Ht. pose proof env_ok_nil as Hok0.
  destruct (infer_holds _ _ {| b_predicates := []; b_env := [] |} CTrue _ _ r (b_env b) (b_predicates b) t
    Hok0 I Hi) as [_ Hact]; [done|done|done|]. by apply Hact.
Qed.

(** Simplifying a condition of valid predicates always succeeds and keeps
    its truth, on every assignment that gives literal predicates their value,
    when the predicates are fewer than the 256 that fit the [u8] numbering and
    not more than the minimization library handles. *)
Theorem simplify_spec {BL : BoolLib} limit {Laws : BoolLaws limit} preds c :
  List.length preds < 256 -> List.length preds <= limit -> cond_wf (List.length preds) c ->
  exists c', simplify preds c = Ok c' /\ cond_wf (List.length preds) c' /\
    forall t, respects_literals preds t -> cond_holds t c' = cond_holds t c.
Proof. apply simplify_holds. done. Qed.

(** The filter made from a policy function holds exactly for the inputs on
    which the function does not return [Action.Skip]; a function that never
    skips has no filter. *)
Theorem policy_filter_spec {B : Boa} {BL : BoolLib} {SW : Swc} limit {Laws : BoolLaws limit} arrow fp r a t :
  from_arrow arrow = Ok fp -> few limit (predicates fp) ->
  run_region r (stmt_map arrow) (regions arrow) = Some a ->
  faithful (var_values r (env fp)) (predicates fp) t ->
  filter_holds t (where_conds fp) = bool_decide (a <> Skip).
Proof.
  intros H Hfew Hrun. destruct (from_arrow_holds limit arrow fp H Hfew) as (_ & _ & _ & Hf). by apply Hf.
Qed.

Module RulesSample.
(** [if (person.name == "marin" && ctx.method == "GET") return Action.Skip;
    return Action.Allow;] *)
Definition test : JsExpr :=
  JsBin LogicalAnd
    (JsBin EqEq (JsMember (JsIdent "person") "name") (JsLiteral (LitStr "marin")))
    (JsBin EqEq (JsMember (JsIdent "ctx") "method") (JsLiteral (LitStr "GET"))).
Definition return_action (name : string) : Stmt := SReturn (Some (JsMember (JsIdent "Action") name)).

Definition arrow : ArrowFunction := {|
  orig := {| ar_params := [PatIdent "person" None; PatIdent "ctx" None];
             ar_body := inl [SIf test (return_action "Skip") None; return_action "Allow"] |};
  stmt_map := {[0 := SIf test (return_action "Skip") None; 1 := return_action "Skip";
                2 := return_action "Allow"]};
  regions := RCond (BasicBlock [0]) (BasicBlock [1]) (BasicBlock [2]);
|}.

#[export] Instance no_minimization : BoolLib := { bool_simplify b := [b] }.
#[export] Instance no_minimization_laws limit : BoolLaws limit.
Proof. intros n b _ Hb. by exists b. Defined.
#[export] Instance printer : Swc := { emit_arrow_js_code _ := Ok "(person, ctx) => {}" }.

Definition record_ (props : list (string * JsValue)) : JsValue :=
  JsObject (map (fun '(k, v) => (KString k, Some v)) props).
Definition inputs : scope := fun name =>
  if String.eqb name "person" then Some (record_ [("name", JsString "marin")])
  else if String.eqb name "ctx" then Some (record_ [("method", JsString "GET")])
  else None.
End RulesSample.

Lemma inferred_actions_spec_witness :
  exists acts b,
    infer_rules_from_region (stmt_map RulesSample.arrow) {| b_predicates := []; b_env := [] |}
      (regions RulesSample.arrow) CTrue = Ok (acts, b) /\
    forall x, action_holds (pred_truth (B := JsSample.boa)
        (var_values (B := JsSample.boa) RulesSample.inputs (b_env b)) (b_predicates b)) acts x
      = bool_decide (x = Skip).
Proof.
  destruct (infer_rules_from_region (stmt_map RulesSample.arrow) {| b_predicates := []; b_env := [] |}
    (regions RulesSample.arrow) CTrue) as [[acts b]| |] eqn:E; [|by vm_compute in E|by vm_compute in E].
  exists acts, b. split; [done|].
  apply (inferred_actions_spec (B := JsSample.boa) _ _ _ _ RulesSample.inputs Skip _ E); [by vm_compute|].
  apply pred_truth_faithful.
Defined.

Lemma simplify_spec_witness :
  let preds := [PVar 0; PLit (JBool true)] in
  let c := CAnd (CNot (CPredicate 0)) (CPredicate 1) in
  exists c', simplify (BL := RulesSample.no_minimization) preds c = Ok c' /\ cond_wf 2 c' /\
    forall t, respects_literals preds t -> cond_holds t c' = cond_holds t c.
Proof.
  apply (simplify_spec (BL := RulesSample.no_minimization) 10 (Laws := RulesSample.no_minimization_laws 10)
    [PVar 0; PLit (JBool true)]); cbn; lia.
Defined.

Lemma policy_filter_spec_witness :
  exists fp, from_arrow (BL := RulesSample.no_minimization) (SW := RulesSample.printer) RulesSample.arrow = Ok fp /\
    filter_holds (pred_truth (B := JsSample.boa)
      (var_values (B := JsSample.boa) RulesSample.inputs (env fp)) (predicates fp)) (where_conds fp) = false.
Proof.
  assert (is_ok (from_arrow (BL := RulesSample.no_minimization) (SW := RulesSample.printer) RulesSample.arrow) = true)
    as Hok by (vm_compute; reflexivity).
  destruct (from_arrow RulesSample.arrow) as [fp| |] eqn:E; [|discriminate Hok|discriminate Hok].
  exists fp. split; [done|].
  assert (predicates fp = predicates (match from_arrow RulesSample.arrow with Ok f => f | _ => fp end)) as Hp
    by (by rewrite E).
  rewrite (policy_filter_spec (B := JsSample.boa) (SW := RulesSample.printer) 10
    (Laws := RulesSample.no_minimization_laws 10) RulesSample.arrow fp RulesSample.inputs Skip _ E); [done| | |apply pred_truth_faithful].
  - unfold few. rewrite Hp. vm_compute. split; lia.
  - by vm_compute.
Defined.
