(* ===== verification/PolicyEngine.v ===== *)
(** * The policy engine ([server/src/policy]: [engine.rs], [interpreter.rs],
      [type_policy.rs], [store.rs])

    Registering the policies of an entity, the request as policies see it, and
    the filter of a read policy for a request: its predicates are evaluated as
    far as the request decides them, its condition is minimized again, and what
    remains becomes an expression for the data layer. *)

From S2P Require Import Prelude Json Expr JsValue PolicyRules.

(** ** The request ([ChiselRequestContext]) *)

Record RequestContext := {
  method : string;
  path : string;
  headers : list (string * string);
  user_id : option string;
  token : option json;
}.

Definition json_option (s : option string) : json :=
  match s with Some s => JString s | None => JNull end.

(** The header map is collected into a [HashMap] first. *)
Definition collect_headers (hs : list (string * string)) : list (string * string) :=
  foldl (fun m '(k, v) => alist_insert k v m) [] hs.

Definition to_value (c : RequestContext) : json :=
  JObject [
    ("method", JString (method c));
    ("path", JString (path c));
    ("headers", JObject (map (fun '(k, v) => (k, JString v)) (collect_headers (headers c))));
    ("user_id", json_option (user_id c));
    ("token", default JNull (token c))].

Section Request.
Context {B : Boa}.

Definition to_js_value (c : RequestContext) : JsValue :=
  let map := js_set (property_key "method") (JsString (method c)) [] in
  let map := js_set (property_key "path") (JsString (path c)) map in
  let user_id := match user_id c with Some val => JsString val | None => JsNull end in
  let map := js_set (property_key "userId") user_id map in
  let hs := foldl (fun hs '(key, val) => js_set (property_key key) (JsString val) hs) [] (headers c) in
  let map := js_set (property_key "headers") (JsObject hs) map in
  let token := match token c with Some tok => json_to_js_value tok | None => JsNull end in
  let map := js_set (property_key "token") token map in
  JsObject map.

(** ** The interpreter *)

Record JsonResolver := { resolver_name : string; resolver_value : json }.

(** The variables of an environment are members of earlier ones, so as many
    steps as there are variables reach the end of every chain ([fuel]). *)
Fixpoint get_value (self : JsonResolver) (env : Environment) (fuel : nat) (var : Var) : result (option json) :=
  match var with
  | VIdent s => Ok (if String.eqb (resolver_name self) s then Some (resolver_value self) else None)
  | VMember obj prop =>
      match fuel with
      | O => Panic "stack overflow"
      | S fuel =>
          obj ← env_get env obj;
          value ← get_value self env fuel obj;
          Ok (match value with
              | Some value => Some (default JNull (json_get prop value))
              | None => None
              end)
      end
  end.

Definition resolve (self : JsonResolver) (env : Environment) (var : Var) : result (option json) :=
  get_value self env (List.length env) var.

(** [ctx.var_to_value(i)] *)
Definition var_to_value (self : JsonResolver) (env : Environment) (id : nat) : result (option json) :=
  var ← env_get env id; resolve self env var.

Definition maybe_js_value (p : Predicate) : option JsValue :=
  match p with PLit val => Some (json_to_js_value val) | _ => None end.

Definition as_boolean (v : JsValue) : option bool :=
  match v with JsBoolean b => Some b | _ => None end.

Definition unwrap_test (t : option bool) : result bool :=
  unwrap t "called `Result::unwrap()` on an `Err` value".
Definition unwrap_boolean (v : JsValue) : result bool :=
  unwrap (as_boolean v) "called `Option::unwrap()` on a `None` value".

Definition eval_bin_lit (op : LogicOp) (lhs rhs : JsValue) : result Predicate :=
  value ← match op with
    | LEq => unwrap_test (js_equals lhs rhs)
    | LNeq => negb <$> unwrap_test (js_equals lhs rhs)
    | LGt => unwrap_test (js_gt lhs rhs)
    | LGte => unwrap_test (js_ge lhs rhs)
    | LLt => unwrap_test (js_lt lhs rhs)
    | LLte => unwrap_test (js_le lhs rhs)
    | LAnd => unwrap_boolean lhs ≫= fun l : bool => if l then unwrap_boolean rhs else Ok false
    | LOr => unwrap_boolean lhs ≫= fun l : bool => if l then Ok true else unwrap_boolean rhs
    end;
  Ok (PLit (JBool value)).

Fixpoint eval (self : JsonResolver) (env : Environment) (p : Predicate) : result Predicate :=
  match p with
  | PBin op lhs rhs =>
      lhs ← eval self env lhs;
      rhs ← eval self env rhs;
      match maybe_js_value lhs, maybe_js_value rhs with
      | Some l, Some r => eval_bin_lit op l r
      | _, _ => Ok (PBin op lhs rhs)
      end
  | PNot p =>
      p_eval ← eval self env p;
      match maybe_js_value p_eval with
      | Some value => v ← unwrap_test (js_not value); Ok (PLit (JBool v))
      | None => Ok (PNot p_eval)
      end
  | PVar i =>
      value ← var_to_value self env i;
      Ok (match value with Some value => PLit value | None => PVar i end)
  | PLit _ => Ok p
  end.
End Request.

(** ** Filters for the data layer *)

Definition op_of_logic (op : LogicOp) : BinaryOp :=
  match op with
  | LEq => OpEq
  | LNeq => OpNotEq
  | LGt => OpGt
  | LGte => OpGtEq
  | LLt => OpLt
  | LLte => OpLtEq
  | LAnd => OpAnd
  | LOr => OpOr
  end.

Definition entity_property (entity_param_name prop : string) (obj : Var) : result Expr :=
  match obj with
  | VIdent n =>
      if String.eqb n entity_param_name
      then Ok (expr_of_property {| pa_property := prop; pa_object := EParameter 0 |})
      else bail "unknown variable"
  | VMember _ _ => bail "unknown variable"
  end.

Fixpoint predicate_to_expr (pred : Predicate) (entity_param_name : string) (env : Environment) : result Expr :=
  match pred with
  | PBin op lhs rhs =>
      l ← predicate_to_expr lhs entity_param_name env;
      r ← predicate_to_expr rhs entity_param_name env;
      Ok (expr_of_binary {| be_op := op_of_logic op; be_left := l; be_right := r |})
  | PNot pred => ENot <$> predicate_to_expr pred entity_param_name env
  | PLit val => expr_of_value <$> value_from_json val
  | PVar var =>
      var ← env_get env var;
      match var with
      | VIdent _ => bail "unknown variable"
      | VMember obj prop => obj ← env_get env obj; entity_property entity_param_name prop obj
      end
  end.

Fixpoint cond_to_expr (cond : Cond) (preds : Predicates) (entity_param_name : string) (env : Environment)
    : result Expr :=
  match cond with
  | CAnd l r =>
      r ← cond_to_expr r preds entity_param_name env;
      l ← cond_to_expr l preds entity_param_name env;
      Ok (mk_and l r)
  | COr l r =>
      r ← cond_to_expr r preds entity_param_name env;
      l ← cond_to_expr l preds entity_param_name env;
      Ok (mk_or l r)
  | CNot c => ENot <$> cond_to_expr c preds entity_param_name env
  | CPredicate id =>
      predicate ← predicates_get preds id;
      predicate_to_expr predicate entity_param_name env
  | CTrue => Ok (expr_of_value (VBool true))
  | CFalse => Ok (expr_of_value (VBool false))
  end.

(** ** The policies of a type *)

Section Engine.
Context {B : Boa} {BL : BoolLib}.
(** The function objects of the engine. *)
Context {JsFunction : Type}.

Record ReadPolicy := {
  rp_filter : option Cond;
  rp_predicates : Predicates;
  rp_env : Environment;
  rp_ctx_param_name : string;
  rp_entity_param_name : string;
  rp_function : JsFunction;
}.

Definition ReadPolicy_new (function : JsFunction) (policy : FilterPolicy) : result ReadPolicy :=
  entity_param_name ← get_positional_param_name policy 0;
  ctx_param_name ← get_positional_param_name policy 1;
  Ok {| rp_predicates := predicates policy; rp_filter := where_conds policy; rp_env := env policy;
        rp_ctx_param_name := ctx_param_name; rp_entity_param_name := entity_param_name;
        rp_function := function |}.

Record TypePolicy := {
  read : option ReadPolicy;
  create : option JsFunction;
  update : option JsFunction;
  geoloc : option JsFunction;
  on_read : option JsFunction;
  on_create : option JsFunction;
  on_update : option JsFunction;
}.

Definition TypePolicy_default : TypePolicy :=
  {| read := None; create := None; update := None; geoloc := None;
     on_read := None; on_create := None; on_update := None |}.

Definition set_read (p : ReadPolicy) (t : TypePolicy) : TypePolicy :=
  {| read := Some p; create := create t; update := update t; geoloc := geoloc t;
     on_read := on_read t; on_create := on_create t; on_update := on_update t |}.
Definition set_function (name : PolicyName) (f : JsFunction) (t : TypePolicy) : TypePolicy :=
  {| read := read t;
     create := match name with Create => Some f | _ => create t end;
     update := match name with Update => Some f | _ => update t end;
     geoloc := match name with GeoLoc => Some f | _ => geoloc t end;
     on_read := match name with OnRead => Some f | _ => on_read t end;
     on_create := match name with OnCreate => Some f | _ => on_create t end;
     on_update := match name with OnUpdate => Some f | _ => on_update t end |}.

(** The store: a [HashMap] from entity names. *)
Definition PolicyStore := gmap string TypePolicy.
Definition store_get (s : PolicyStore) (ty_name : string) : option TypePolicy := s !! ty_name.
Definition store_insert (s : PolicyStore) (ty_name : string) (p : TypePolicy) : PolicyStore :=
  <[ty_name := p]> s.

(** [compile_function]: the code is evaluated by the engine; anything but a
    function object is an [unwrap] of nothing. *)
Context (boa_eval : string -> option JsFunction).

Definition compile_function (code : string) : result JsFunction :=
  unwrap (boa_eval code) "called `Option::unwrap()` on a `None` value".

Definition register_policy (type_policy : TypePolicy) (entry : PolicyName * Policy) : result TypePolicy :=
    function ← compile_function (policy_code entry.2);
  match entry.1 with
  | Read =>
      filter ← unwrap (as_filter entry.2) "called `Option::unwrap()` on a `None` value";
      policy ← ReadPolicy_new function filter;
      Ok (set_read policy type_policy)
  | name => Ok (set_function name function type_policy)
  end.

(** [register_policy_from_code], once the code is parsed into the policies, in
    the iteration order of their map. *)
Definition register_policies (store : PolicyStore) (entity_name : string)
    (policies : list (PolicyName * Policy)) : result PolicyStore :=
  type_policy ← foldM register_policy TypePolicy_default policies;
  Ok (store_insert store entity_name type_policy).

Definition get_policy (store : PolicyStore) (entity_name : string) : option TypePolicy :=
  store_get store entity_name.

Definition eval_predicates (self : JsonResolver) (env : Environment) (preds : Predicates) : result Predicates :=
  foldM (fun acc p => p ← eval self env p; Ok (acc ++ [p])) [] preds.

Definition eval_read_policy_expr (policy : ReadPolicy) (chisel_ctx : RequestContext) : result (option Expr) :=
  match rp_filter policy with
  | Some filter =>
      let resolver := {| resolver_name := rp_ctx_param_name policy; resolver_value := to_value chisel_ctx |} in
      predicates ← eval_predicates resolver (rp_env policy) (rp_predicates policy);
      cond ← simplify predicates filter;
      Some <$> cond_to_expr cond predicates (rp_entity_param_name policy) (rp_env policy)
  | None => Ok None
  end.
End Engine.

#[global] Arguments ReadPolicy : clear implicits.
#[global] Arguments TypePolicy : clear implicits.
#[global] Arguments PolicyStore : clear implicits.
