(* ===== verification/PolicyEngineSpec.v ===== *)
(** * The filter of a read policy agrees with the policy

    For a request and an entity, the expression a read policy gives the data
    layer keeps the entity's row exactly when the policy function, called on the
    entity and the request, does not return [Action.Skip].  The proof follows the
    code: the values the interpreter resolves are those the function sees,
    partial evaluation keeps the truth of predicates, minimization keeps that of
    conditions, and the translated predicates mean in SQL what they mean in
    JavaScript. *)

From S2P Require Import Prelude Json EntityValue Expr JsValue PolicyRules RulesSpec PolicyEngine.

(** ** What the engine's operators are relied on for *)

Class BoaLaws {B : Boa} := {
  boa_property_key s : property_key s = KString s \/ exists n, property_key s = KIndex n;
  boa_not v : js_not v = Some (negb (to_boolean v));
  boa_null_l v : is_scalar v = true -> js_equals JsUndefined v = js_equals JsNull v;
  boa_null_r v : is_scalar v = true -> js_equals v JsUndefined = js_equals v JsNull;
  boa_strings s t : js_equals (JsString s) (JsString t) = Some (String.eqb s t);
  boa_booleans a b : js_equals (JsBoolean a) (JsBoolean b) = Some (Bool.eqb a b);
}.
#[global] Arguments BoaLaws : clear implicits.

Section Partial.
Context {B : Boa} {L : BoaLaws B}.

(** ** Values up to the interpreter's approximations

    Where JavaScript has [undefined] the interpreter has [null], and it has its
    own copies of objects. *)
Definition is_object (v : JsValue) : bool := match v with JsObject _ => true | _ => false end.

Definition similar (v w : JsValue) : Prop :=
  v = w \/ (v = JsUndefined /\ w = JsNull) \/ (is_object v = true /\ is_object w = true).

Lemma similar_refl v : similar v v.
Proof. by left. Qed.

Lemma similar_boolean v w : similar v w -> to_boolean v = to_boolean w.
Proof. intros [->|[[-> ->]|[Hv Hw]]]; [done|done|]. by destruct v, w. Qed.

Lemma similar_scalar v w : similar v w -> is_scalar v = true ->
  is_scalar w = true /\ (v = w \/ (v = JsUndefined /\ w = JsNull)).
Proof. intros [->|[[-> ->]|[Hv Hw]]]; auto. by destruct v. Qed.

Lemma similar_bool v b : similar v (JsBoolean b) -> v = JsBoolean b.
Proof. by intros [->|[[-> ?]|[? ?]]]. Qed.

Lemma js_equals_similar v v' w w' : similar v v' -> similar w w' ->
  is_scalar v = true -> is_scalar w = true -> js_equals v w = js_equals v' w'.
Proof.
  intros Hv Hw Sv Sw.
  destruct (similar_scalar _ _ Hv Sv) as [Sv' [->|[-> ->]]], (similar_scalar _ _ Hw Sw) as [Sw' [->|[-> ->]]]; try done.
  - by apply boa_null_r.
  - by apply boa_null_l.
  - by rewrite boa_null_l, boa_null_r.
Qed.

Lemma js_binary_similar op v v' w w' b : similar v v' -> similar w w' ->
  js_binary op v w = Some b -> js_binary op v' w' = Some b.
Proof.
  intros Hv Hw. unfold js_binary.
  destruct (is_scalar v) eqn:Sv, (is_scalar w) eqn:Sw; cbn; try done.
  destruct (similar_scalar _ _ Hv Sv) as [Sv' Ev], (similar_scalar _ _ Hw Sw) as [Sw' Ew].
  rewrite Sv', Sw'. cbn. rewrite (js_equals_similar v v' w w') by done.
  destruct Ev as [->|[-> ->]], Ew as [->|[-> ->]]; destruct op; cbn; try done;
    destruct (is_undefined _); done.
Qed.

(** [a] has a value only where [b] has a similar one. *)
Definition approx (a b : option JsValue) : Prop := forall v, a = Some v -> exists w, b = Some w /\ similar v w.

Lemma approx_refl a : approx a a.
Proof. intros v ->. eauto using similar_refl. Qed.

Lemma js_logic_approx op a a' b b' : approx a a' -> approx b b' -> approx (js_logic op a b) (js_logic op a' b').
Proof.
  intros Ha Hb v Hv. destruct a as [va|]; cbn in Hv; [|done].
  destruct (Ha va eq_refl) as (wa & -> & Hs). cbn. pose proof (similar_boolean _ _ Hs) as Ht. rewrite <- Ht.
  destruct op; try (
    destruct b as [vb|]; cbn in Hv; [|done]; destruct (Hb vb eq_refl) as (wb & -> & Hsb); cbn;
    apply fmap_Some in Hv as (r & Hr & ->);
    rewrite (js_binary_similar _ _ _ _ _ _ Hs Hsb Hr); eauto using similar_refl).
  - destruct (to_boolean va); [by apply Hb|]. injection Hv as <-. eauto.
  - destruct (to_boolean va); [|by apply Hb]. injection Hv as <-. eauto.
Qed.

(** ** Partial evaluation *)

(** The interpreter resolves variables to what the function sees. *)
Definition resolves (self : JsonResolver) (env : Environment) (vals : list (option JsValue)) : Prop :=
  forall id j v, var_to_value self env id = Ok (Some j) -> mjoin (vals !! id) = Some v ->
    similar v (json_to_js_value j).

Lemma eval_bin_lit_approx op l r p a b : approx a (Some l) -> approx b (Some r) ->
  eval_bin_lit op l r = Ok p ->
  exists x, p = PLit (JBool x) /\ approx (js_logic op a b) (Some (JsBoolean x)).
Proof.
  intros Ha Hb H. unfold eval_bin_lit in H. apply bind_ok in H as (x & Hx & [= <-]).
  exists x. split; [done|]. pose proof (js_logic_approx op a (Some l) b (Some r) Ha Hb) as Hab.
  intros v Hv. destruct (Hab v Hv) as (w & Hw & Hs). exists (JsBoolean x). split; [done|].
  replace (JsBoolean x) with w; [done|]. clear Hab Hv Hs.
  destruct op; cbn in Hw;
    try (unfold js_binary in Hw; destruct (is_scalar l && is_scalar r); cbn in Hw; [|done];
         destruct (is_undefined l || is_undefined r); cbn in Hw; try done;
         repeat (apply fmap_ok in Hx as (x' & Hx & ->)); apply unwrap_ok in Hx; rewrite Hx in Hw;
         by injection Hw as <-).
  - apply bind_ok in Hx as (x' & Hl & Hx). apply unwrap_ok in Hl.
    destruct l; try done. injection Hl as ->. cbn in Hw. destruct x'; [|by injection Hw as <-; injection Hx as <-].
    apply unwrap_ok in Hx. injection Hw as ->. destruct w; try done. by injection Hx as ->.
  - apply bind_ok in Hx as (x' & Hl & Hx). apply unwrap_ok in Hl.
    destruct l; try done. injection Hl as ->. cbn in Hw. destruct x'; [by injection Hw as <-; injection Hx as <-|].
    apply unwrap_ok in Hx. injection Hw as ->. destruct w; try done. by injection Hx as ->.
Qed.

Lemma maybe_js_value_some vals p v : maybe_js_value p = Some v -> pred_eval vals p = Some v.
Proof. by destruct p. Qed.

Lemma eval_approx self env vals p : forall p', resolves self env vals -> eval self env p = Ok p' ->
  approx (pred_eval vals p) (pred_eval vals p').
Proof.
  induction p as [op a IHa b IHb|p IH|j|id]; intros p' Hres H; cbn in H.
  - apply bind_ok in H as (a' & Ha & H). apply bind_ok in H as (b' & Hb & H).
    apply IHa in Ha; [|done]. apply IHb in Hb; [|done].
    destruct (maybe_js_value a') as [l|] eqn:El; [destruct (maybe_js_value b') as [r|] eqn:Er|];
      try (injection H as <-; by apply js_logic_approx).
    rewrite (maybe_js_value_some vals _ _ El) in Ha. rewrite (maybe_js_value_some vals _ _ Er) in Hb.
    by destruct (eval_bin_lit_approx _ _ _ _ _ _ Ha Hb H) as (x & -> & Hx).
  - apply bind_ok in H as (q & Hq & H). apply IH in Hq; [|done].
    intros v Hv. cbn in Hv. apply fmap_Some in Hv as (u & Hu & ->).
    destruct (Hq u Hu) as (w & Hw & Hs). rewrite (similar_boolean _ _ Hs).
    destruct (maybe_js_value q) as [l|] eqn:El.
    + apply bind_ok in H as (x & Hx & [= <-]). rewrite (maybe_js_value_some vals _ _ El) in Hw.
      injection Hw as ->. unfold unwrap_test in Hx. rewrite boa_not in Hx. injection Hx as <-.
      cbn. eauto using similar_refl.
    + injection H as <-. cbn. rewrite Hw. cbn. eauto using similar_refl.
  - injection H as <-. apply approx_refl.
  - apply bind_ok in H as (j & Hj & [= <-]). destruct j as [j|]; [|apply approx_refl].
    intros v Hv. cbn in *. eauto.
Qed.

Lemma eval_predicates_lookup self env preds preds' : eval_predicates self env preds = Ok preds' ->
  Forall2 (fun p p' => eval self env p = Ok p') preds preds'.
Proof.
  unfold eval_predicates. intros H.
  assert (forall acc done, Forall2 (fun p p' => eval self env p = Ok p') done acc ->
    foldM (fun acc p => p ← eval self env p; Ok (acc ++ [p])) acc preds = Ok preds' ->
    Forall2 (fun p p' => eval self env p = Ok p') (done ++ preds) preds') as Hgen.
  { clear H. induction preds as [|p preds IH]; intros acc dn HF H; cbn in H.
    - injection H as <-. by rewrite app_nil_r.
    - apply bind_ok in H as (acc' & H1 & H). apply bind_ok in H1 as (p' & Hp & [= <-]).
      rewrite cons_middle, app_assoc. eapply IH; [|exact H].
      apply Forall2_app; [done|]. by constructor. }
  by apply (Hgen [] []); [constructor|].
Qed.

(** The truth of the evaluated predicates is right about the original ones. *)
Lemma evaluated_faithful self env vals preds preds' : resolves self env vals ->
  eval_predicates self env preds = Ok preds' ->
  faithful vals preds (pred_truth vals preds').
Proof.
  intros Hres H id p v Hid Hv. apply eval_predicates_lookup in H.
  destruct (Forall2_lookup_l _ _ _ _ _ H Hid) as (p' & Hid' & Hp).
  destruct (eval_approx _ _ _ _ _ Hres Hp v Hv) as (w & Hw & Hs).
  rewrite (similar_boolean _ _ Hs). by apply (pred_truth_faithful vals preds' id p').
Qed.
End Partial.

(** ** The request, as JSON and as the function sees it *)

Section Request.
Context {B : Boa} {L : BoaLaws B}.

Lemma js_property_set k k' v props :
  js_property k (js_set k' v props) = if decide (k = k') then Some v else js_property k props.
Proof.
  induction props as [|[k0 v0] props IH]; cbn; [by case_decide|].
  destruct (decide (k' = k0)) as [->|Hne]; cbn.
  - by case_decide.
  - rewrite IH. case_decide as H1; case_decide as H2; congruence.
Qed.

Lemma key_ne p q : property_key p = KString p -> p <> q -> KString p <> property_key q.
Proof. intros Hp Hne Heq. destruct (boa_property_key q) as [Hq|[n Hq]]; congruence. Qed.

(** An object seen through a value: the properties whose names are string keys,
    but for some [hidden] ones, are those of the JSON object. *)
Inductive seen : list string -> json -> JsValue -> Prop :=
  | seen_same hidden j : distinct_keys j -> seen hidden j (json_to_js_value j)
  | seen_object hidden m props :
      (forall p j, property_key p = KString p -> p ∉ hidden -> alist_get p m = Some j ->
         exists v, js_property (KString p) props = Some v /\ seen [] j v) ->
      (forall p, property_key p = KString p -> p ∉ hidden -> alist_get p m = None ->
         js_property (KString p) props = Some JsUndefined) ->
      seen hidden (JObject m) (JsObject props).

Lemma seen_similar hidden j v : seen hidden j v -> similar v (json_to_js_value j).
Proof. destruct 1; [by left|]. by right; right. Qed.

(** The engine's copy of a JSON object has its properties. *)
Lemma json_props m : forall acc p, NoDup m.*1 -> property_key p = KString p ->
  js_property (KString p)
    (foldl (fun obj '(k, v) => js_set (property_key k) (json_to_js_value v) obj) acc m)
  = match alist_get p m with Some j => Some (json_to_js_value j) | None => js_property (KString p) acc end.
Proof.
  induction m as [|[k j] m IH]; intros acc p Hnd Hp; cbn; [done|].
  apply NoDup_cons in Hnd as [Hk Hnd]. rewrite IH, js_property_set by done.
  destruct (String.eqb_spec p k) as [->|Hne].
  - assert (alist_get k m = None) as -> by by apply alist_get_none. by rewrite decide_True.
  - destruct (alist_get p m); [done|]. by rewrite decide_False by by apply key_ne.
Qed.

Lemma seen_member hidden j v p w : seen hidden j v -> property_key p = KString p -> p ∉ hidden ->
  js_member v p = Some w ->
  seen [] (default JNull (json_get p j)) w \/ (w = JsUndefined /\ default JNull (json_get p j) = JNull).
Proof.
  intros Hs Hp Hh Hw. destruct Hs as [hidden j Hd|hidden m props Hin Hout].
  - destruct j as [|b|[]|s|l|m]; cbn in Hw; try done. rewrite Hp, json_props in Hw; [|apply Hd|done].
    cbn. destruct (alist_get p m) as [j|] eqn:Ej; cbn; injection Hw as <-; [|by right].
    left. constructor. cbn in Hd. destruct Hd as [_ Hd].
    apply (distinct_forall (fun kv => distinct_keys kv.2)) in Hd. rewrite Forall_forall in Hd.
    exact (Hd _ (alist_get_some_in _ _ _ Ej)).
  - cbn in Hw. rewrite Hp in Hw. cbn. destruct (alist_get p m) as [j|] eqn:Ej; cbn.
    + destruct (Hin p j Hp Hh Ej) as (v & Hv & Hsv). rewrite Hv in Hw. injection Hw as ->. by left.
    + rewrite (Hout p Hp Hh Ej) in Hw. injection Hw as <-. by right.
Qed.

(** The headers: one value per name, the last one given. *)
Lemma seen_headers hs :
  seen [] (JObject (map (fun '(k, v) => (k, JString v)) (collect_headers hs)))
    (JsObject (foldl (fun hs '(key, val) => js_set (property_key key) (JsString val) hs) [] hs)).
Proof.
  assert (forall acc props,
    (forall p, property_key p = KString p -> js_property (KString p) props =
       match alist_get p acc with Some s => Some (JsString s) | None => Some JsUndefined end) ->
    forall p, property_key p = KString p ->
      js_property (KString p) (foldl (fun hs '(key, val) => js_set (property_key key) (JsString val) hs) props hs)
      = match alist_get p (foldl (fun m '(k, v) => alist_insert k v m) acc hs) with
        | Some s => Some (JsString s) | None => Some JsUndefined end) as H.
  { induction hs as [|[k s] hs IH]; intros acc props Hacc p Hp; cbn; [by apply Hacc|].
    apply IH; [|done]. clear p Hp. intros p Hp. rewrite js_property_set, alist_get_insert.
    destruct (String.eqb_spec p k) as [->|Hne]; [by rewrite decide_True|].
    rewrite decide_False by by apply key_ne. by apply Hacc. }
  specialize (H [] [] ltac:(done)). fold (collect_headers hs) in H.
  assert (forall p l, alist_get p (map (fun '(k, v) => (k, JString v)) l) = JString <$> alist_get p l) as Hmap.
  { intros p l. induction l as [|[k s] l IH]; cbn; [done|]. by destruct (String.eqb p k). }
  constructor; intros p; intros.
  - rewrite Hmap in *. destruct (alist_get p (collect_headers hs)) as [s|] eqn:E; [|done].
    cbn in *. exists (JsString s). split; [by rewrite H, E|]. simplify_eq. by apply (seen_same [] (JString s)).
  - rewrite Hmap in *. destruct (alist_get p (collect_headers hs)) as [s|] eqn:E; [done|]. by rewrite H, E.
Qed.

(** Except for the user's id, which the two spell differently, what the filter
    evaluates is what the function is called with. *)
Lemma seen_request c : distinct_keys (default JNull (token c)) ->
  seen ["userId"; "user_id"] (to_value c) (to_js_value c).
Proof.
  intros Hd. unfold to_js_value, to_value. constructor; intros p; [intros j|]; intros Hp Hh Hget;
    apply not_elem_of_cons in Hh as [Hn1 Hh]; apply not_elem_of_cons in Hh as [Hn2 _];
    rewrite !js_property_set; cbn [alist_get] in Hget; rewrite (decide_False (P := KString p = property_key "userId"))
      by (by apply key_ne).
  - destruct (String.eqb_spec p "token") as [->|H1]; [|rewrite (decide_False (P := KString p = property_key "token")) by by apply key_ne].
    { rewrite decide_True by done. cbn in Hget. injection Hget as <-. eexists. split; [done|].
      destruct (token c) as [tok|]; cbn; [by constructor|]. by apply (seen_same [] JNull). }
    destruct (String.eqb_spec p "headers") as [->|H2]; [|rewrite (decide_False (P := KString p = property_key "headers")) by by apply key_ne].
    { rewrite decide_True by done. cbn in Hget. injection Hget as <-. eexists. split; [done|]. apply seen_headers. }
    destruct (String.eqb_spec p "path") as [->|H3]; [|rewrite (decide_False (P := KString p = property_key "path")) by by apply key_ne].
    { rewrite decide_True by done. cbn in Hget. injection Hget as <-. eexists. split; [done|].
      by apply (seen_same [] (JString _)). }
    destruct (String.eqb_spec p "method") as [->|H4]; [|by destruct (String.eqb_spec p "user_id")].
    rewrite decide_True by done. cbn in Hget. injection Hget as <-. eexists. split; [done|].
    by apply (seen_same [] (JString _)).
  - repeat (match goal with |- context [decide (KString p = property_key ?q)] =>
      rewrite (decide_False (P := KString p = property_key q)); [|apply key_ne; [done|];
        intros ->; by rewrite ?String.eqb_refl in Hget] end).
    done.
Qed.

(** Names the filter and the function read the same way: string keys, and none
    of the two names of the user's id on the request itself. *)
Definition visible (ctx_name : string) (env : Environment) : Prop :=
  forall i obj prop, env !! i = Some (VMember obj prop) ->
    property_key prop = KString prop /\
    (env !! obj = Some (VIdent ctx_name) -> prop <> "userId" /\ prop <> "user_id").

Definition hidden_of (ctx_name : string) (var : Var) : list string :=
  if decide (var = VIdent ctx_name) then ["userId"; "user_id"] else [].

Lemma get_value_seen c ctx_name env r :
  let self := {| resolver_name := ctx_name; resolver_value := to_value c |} in
  distinct_keys (default JNull (token c)) -> env_ok env -> visible ctx_name env ->
  r ctx_name = Some (to_js_value c) ->
  forall fuel i var j v, env !! i = Some var -> get_value self env fuel var = Ok (Some j) ->
    mjoin (var_values r env !! i) = Some v ->
    seen (hidden_of ctx_name var) j v \/ (v = JsUndefined /\ j = JNull).
Proof.
  intros self Hd Hok Hvis Hr. induction fuel as [|fuel IH]; intros i var j v Hi Hget Hv;
    rewrite (var_values_var r env i var Hok Hi) in Hv; cbn in Hv; destruct var as [s|obj prop]; cbn in Hget, Hv;
    try done.
  1,2: destruct (String.eqb_spec ctx_name s) as [<-|]; [|done]; injection Hget as <-; left;
    rewrite Hr in Hv; injection Hv as <-; unfold hidden_of; rewrite decide_True by done; by apply seen_request.
  apply bind_ok in Hget as (ovar & Ho & Hget). apply unwrap_ok in Ho.
  apply bind_ok in Hget as ([jo|] & Hjo & [= <-]).
  destruct (Hvis _ _ _ Hi) as [Hkey Hnames].
  destruct (mjoin (var_values r env !! obj)) as [vo|] eqn:Evo; cbn in Hv; [|done].
  destruct (IH _ _ _ _ Ho Hjo Evo) as [Hseen|[-> _]]; [|done].
  unfold hidden_of at 1. rewrite decide_False by done.
  eapply seen_member; [exact Hseen|done| |done].
  unfold hidden_of. case_decide as Hvar; [|apply not_elem_of_nil].
  subst. destruct (Hnames Ho) as [H1 H2]. set_solver.
Qed.

Lemma request_resolves c ctx_name env r :
  distinct_keys (default JNull (token c)) -> env_ok env -> visible ctx_name env ->
  r ctx_name = Some (to_js_value c) ->
  resolves {| resolver_name := ctx_name; resolver_value := to_value c |} env (var_values r env).
Proof.
  intros Hd Hok Hvis Hr id j v Hj Hv. unfold var_to_value, resolve in Hj.
  apply bind_ok in Hj as (var & Hvar & Hj). apply unwrap_ok in Hvar.
  destruct (get_value_seen c ctx_name env r Hd Hok Hvis Hr _ _ _ _ _ Hvar Hj Hv) as [Hs|[-> ->]].
  - by eapply seen_similar.
  - right; by left.
Qed.
End Request.

(** ** Predicates in SQL *)

Section Sql.
Context {B : Boa} {L : BoaLaws B} (like : string -> string -> bool).
Context (row : Sem.row) (entity_name : string) (env : Environment) (vals : list (option JsValue)).

(** A number, in SQL and in JavaScript. *)
Inductive number : Value -> JsValue -> f64 -> Prop :=
  | number_float f : number (VF64 f) (JsRational f) f
  | number_int n : number (VI64 n) (JsInteger n) (f64_of_Z n).
Definition is_float (v : Value) : bool := match v with VF64 _ => true | _ => false end.

(** The engine's comparison of two numbers that are ordered. *)
Class NumberLaws := boa_numbers sv v f sw w g c :
  number sv v f -> number sw w g -> SpecFloat.SFcompare f g = Some c ->
  js_equals v w = Some (Sem.cmp_holds OpEq c) /\ js_gt v w = Some (Sem.cmp_holds OpGt c) /\
  js_ge v w = Some (Sem.cmp_holds OpGtEq c) /\ js_lt v w = Some (Sem.cmp_holds OpLt c) /\
  js_le v w = Some (Sem.cmp_holds OpLtEq c).

(** Two operands that SQL and JavaScript compare alike: strings and booleans by
    [==] and [!=], numbers by all six operators. *)
Inductive comparable : LogicOp -> Value -> JsValue -> Value -> JsValue -> Prop :=
  | cmp_strings op s t : op = LEq \/ op = LNeq ->
      comparable op (VString s) (JsString s) (VString t) (JsString t)
  | cmp_booleans op a b : op = LEq \/ op = LNeq ->
      comparable op (VBool a) (JsBoolean a) (VBool b) (JsBoolean b)
  | cmp_numbers op sv v f sw w g c : op <> LAnd -> op <> LOr ->
      number sv v f -> number sw w g -> is_float sv || is_float sw = true ->
      SpecFloat.SFcompare f g = Some c -> comparable op sv v sw w.

(** An operand and its two values: a property of the entity, or a literal. *)
Inductive operand : Predicate -> Value -> JsValue -> Prop :=
  | operand_property id obj prop sv v :
      env !! id = Some (VMember obj prop) -> env !! obj = Some (VIdent entity_name) ->
      row [prop] = sv -> mjoin (vals !! id) = Some v -> operand (PVar id) sv v
  | operand_literal j sv : value_from_json j = Ok sv -> operand (PLit j) sv (json_to_js_value j).

(** The predicates whose truth is definite in SQL, and the one in JavaScript. *)
Inductive plain : Predicate -> Prop :=
  | plain_bool b : plain (PLit (JBool b))
  | plain_not p : plain p -> plain (PNot p)
  | plain_and p q : plain p -> plain q -> plain (PBin LAnd p q)
  | plain_or p q : plain p -> plain q -> plain (PBin LOr p q)
  | plain_compare op p q sv v sw w : operand p sv v -> operand q sw w -> comparable op sv v sw w ->
      plain (PBin op p q).

Lemma operand_expr p sv v : operand p sv v ->
  pred_eval vals p = Some v /\
  exists e, predicate_to_expr p entity_name env = Ok e /\ Sem.eval like row e = sv.
Proof.
  destruct 1 as [id obj prop sv v Hid Hobj Hrow Hv|j sv Hj]; (split; [done|]); cbn.
  - unfold env_get, Environment in *. rewrite Hid. cbn. rewrite Hobj. cbn. rewrite String.eqb_refl.
    by eexists.
  - rewrite Hj. by eexists.
Qed.

Context {N : NumberLaws}.

Lemma compare_eqb s t : match String.compare s t with Eq => true | _ => false end = String.eqb s t.
Proof.
  destruct (String.eqb_spec s t) as [->|Hne].
  - by rewrite str_compare_refl.
  - destruct (String.compare s t) eqn:E; try done. by apply String.compare_eq_iff in E.
Qed.

Lemma number_compare sv v f sw w g : number sv v f -> number sw w g -> is_float sv || is_float sw = true ->
  Sem.vcompare sv sw = SpecFloat.SFcompare f g.
Proof. by destruct 1, 1. Qed.

(** A comparison of comparable operands. *)
Lemma comparable_agrees op sv v sw w : comparable op sv v sw w ->
  exists b, js_binary op v w = Some b /\
    Sem.cmp_holds (op_of_logic op) <$> Sem.vcompare sv sw = Some b /\
    op <> LAnd /\ op <> LOr.
Proof.
  destruct 1 as [op s t Hop|op a b Hop|op sv v f sw w g c Ha Ho Hv Hw Hf Hc].
  - exists (match op with LEq => String.eqb s t | _ => negb (String.eqb s t) end).
    unfold js_binary. cbn. rewrite boa_strings. rewrite <- compare_eqb.
    by destruct Hop as [-> | ->]; destruct (String.compare s t).
  - exists (match op with LEq => Bool.eqb a b | _ => negb (Bool.eqb a b) end).
    unfold js_binary. cbn. rewrite boa_booleans.
    by destruct Hop as [-> | ->]; destruct a, b.
  - rewrite (number_compare _ _ _ _ _ _ Hv Hw Hf), Hc.
    destruct (boa_numbers _ _ _ _ _ _ _ Hv Hw Hc) as (He & Hgt & Hge & Hlt & Hle).
    exists (Sem.cmp_holds (op_of_logic op) c). split; [|done]. unfold js_binary.
    assert (is_scalar v && is_scalar w = true /\ is_undefined v || is_undefined w = false) as [-> ->]
      by (by destruct Hv, Hw).
    destruct op; cbn; try done. rewrite He. by destruct c.
Qed.

(** The translation of a plain predicate keeps its truth. *)
Lemma plain_expr p : plain p -> exists e b,
  predicate_to_expr p entity_name env = Ok e /\ Sem.sat like row e = Some b /\
  pred_eval vals p = Some (JsBoolean b).
Proof.
  induction 1 as [b|p _ (e & b & He & Hs & Hv)|p q _ (e & b & He & Hs & Hv) _ (e' & b' & He' & Hs' & Hv')
    |p q _ (e & b & He & Hs & Hv) _ (e' & b' & He' & Hs' & Hv')|op p q sv v sw w Hp Hq Hc].
  - by exists (EValue (VBool b)), b.
  - exists (ENot e), (negb b). cbn. rewrite He, Hv. split; [done|]. split; [|done].
    by rewrite Sem.sat_not, Hs.
  - exists (EBinary e OpAnd e'), (b && b'). cbn. rewrite He; cbn. rewrite He'; cbn. split; [done|]. split.
    + change (Sem.sat like row (mk_and e e') = Some (b && b')). rewrite Sem.sat_and, Hs, Hs'. by destruct b, b'.
    + rewrite Hv; cbn. by destruct b.
  - exists (EBinary e OpOr e'), (b || b'). cbn. rewrite He; cbn. rewrite He'; cbn. split; [done|]. split.
    + change (Sem.sat like row (mk_or e e') = Some (b || b')). rewrite Sem.sat_or, Hs, Hs'. by destruct b, b'.
    + rewrite Hv; cbn. by destruct b.
  - destruct (operand_expr _ _ _ Hp) as (Hv & e & He & Hse), (operand_expr _ _ _ Hq) as (Hw & e' & He' & Hse').
    destruct (comparable_agrees _ _ _ _ _ Hc) as (b & Hb & Hs & Ha & Ho).
    exists (EBinary e (op_of_logic op) e'), b. cbn. rewrite He; cbn. rewrite He'; cbn. split; [done|]. split.
    + unfold Sem.sat. cbn. rewrite Hse, Hse', Hs. by destruct op.
    + rewrite Hv; cbn. rewrite Hw; cbn. rewrite Hb. by destruct op.
Qed.
End Sql.

Lemma env_get_some (env : Environment) id v : env !! id = Some v -> env_get env id = Ok v.
Proof. unfold env_get, Environment in *. by intros ->. Qed.

(** ** The filter of a request *)

Section Filter.
Context {B : Boa} {L : BoaLaws B} {N : NumberLaws} {BL : BoolLib} (limit : nat) {Laws : BoolLaws limit}.
Context (like : string -> string -> bool) (row : Sem.row) (entity_name : string) (env : Environment).
Context (vals : list (option JsValue)).

(** A condition over plain predicates, as a filter. *)
Lemma cond_expr preds c :
  Forall (plain row entity_name env vals) preds -> cond_wf (List.length preds) c ->
  exists e, cond_to_expr c preds entity_name env = Ok e /\
    Sem.sat like row e = Some (cond_holds (pred_truth vals preds) c).
Proof.
  intros Hp. induction c as [l IHl r IHr|l IHl r IHr|c IH|id| |]; intros Hwf; cbn [cond_wf] in Hwf; cbn [cond_to_expr].
  - destruct Hwf as [Hl Hr]. destruct (IHl Hl) as (el & -> & Hsl), (IHr Hr) as (er & -> & Hsr).
    eexists; split; [reflexivity|]. rewrite Sem.sat_and, Hsl, Hsr. cbn.
    by destruct (cond_holds _ l), (cond_holds _ r).
  - destruct Hwf as [Hl Hr]. destruct (IHl Hl) as (el & -> & Hsl), (IHr Hr) as (er & -> & Hsr).
    eexists; split; [reflexivity|]. rewrite Sem.sat_or, Hsl, Hsr. cbn.
    by destruct (cond_holds _ l), (cond_holds _ r).
  - destruct (IH Hwf) as (e & -> & Hs). eexists; split; [reflexivity|]. by rewrite Sem.sat_not, Hs.
  - destruct (lookup_lt_is_Some_2 (A := Predicate) preds id Hwf) as (p & Hid).
    assert (plain row entity_name env vals p) as Hplain by (by eapply Forall_lookup_1).
    destruct (plain_expr like row entity_name env vals p Hplain) as (e & b & He & Hs & Hv).
    exists e. unfold predicates_get, Predicates in *. rewrite Hid. split; [done|].
    rewrite Hs. cbn. f_equal. by rewrite (pred_truth_faithful vals preds id p _ Hid Hv).
  - by eexists.
  - by eexists.
Qed.

Definition row_kept (filter : option Expr) : option bool :=
  match filter with Some e => Sem.sat like row e | None => Some true end.

Lemma filter_kept {JsFunction} (policy : ReadPolicy JsFunction) c preds :
  few limit (rp_predicates policy) -> entity_name = rp_entity_param_name policy -> env = rp_env policy ->
  (forall f, rp_filter policy = Some f -> cond_wf (List.length (rp_predicates policy)) f) ->
  eval_predicates {| resolver_name := rp_ctx_param_name policy; resolver_value := to_value c |}
    env (rp_predicates policy) = Ok preds ->
  Forall (plain row entity_name env vals) preds ->
  exists filter, eval_read_policy_expr policy c = Ok filter /\
    row_kept filter = Some (filter_holds (pred_truth vals preds) (rp_filter policy)).
Proof.
  intros [Hf1 Hf2] He Hn Hwf Hev Hplain. unfold eval_read_policy_expr. rewrite <- He, <- Hn.
  destruct (rp_filter policy) as [f|]; [|by exists None]. rewrite Hev. cbn.
  pose proof (Forall2_length _ _ _ (eval_predicates_lookup _ _ _ _ Hev)) as Hlen.
  destruct (simplify_holds limit preds f) as (f' & -> & Hwf' & Heq); [lia|lia|rewrite <- Hlen; by apply Hwf|].
  cbn. destruct (cond_expr preds f' Hplain Hwf') as (e & -> & Hs).
  exists (Some e). split; [done|]. cbn. rewrite Hs. f_equal. apply Heq.
  eapply faithful_literals, pred_truth_faithful.
Qed.
End Filter.

(** ** Properties *)

(** Partial evaluation is sound.  Where the interpreter resolves the
    request's variables to what the function sees, evaluating a predicate as far
    as the request decides it keeps its value: whenever the expression has a
    value in JavaScript, what is left has the same, up to [undefined] read as
    [null] and the interpreter's copies of objects, and so the same truth. *)
Theorem eval_sound {B : Boa} {L : BoaLaws B} self env vals p p' v :
  resolves self env vals -> eval self env p = Ok p' -> pred_eval vals p = Some v ->
  exists v', pred_eval vals p' = Some v' /\ similar v v' /\ to_boolean v' = to_boolean v.
Proof.
  intros Hres He Hv. destruct (eval_approx _ _ _ _ _ Hres He v Hv) as (w & Hw & Hs).
  exists w. split; [done|]. split; [done|]. by rewrite (similar_boolean _ _ Hs).
Qed.

(** C1: the data layer filters what the policy function would skip, where SQL and
    JavaScript agree on its tests.  Take a read policy compiled from a function of an
    entity and the request.  For every request and entity on which the function
    returns an action, building the filter succeeds, and the filter keeps the row
    exactly when the action is not [Action.Skip].  The conditions: the policy has
    fewer than 256 distinct tests (and no more than the minimization takes); the
    function reads the request by names that are strings and does not read the
    user's id from it (it would see another id than the filter, see
    [user_id_differs]); no object of the token has a key twice; and what the request
    leaves of the tests compares properties that the entity has with literals of
    their type. *)
Theorem read_filter_spec {B : Boa} {L : BoaLaws B} {N : NumberLaws} {BL : BoolLib} {SW : Swc}
    limit {Laws : BoolLaws limit} {JsFunction} like row r a arrow fp (f : JsFunction) policy c preds :
  from_arrow arrow = Ok fp -> ReadPolicy_new f fp = Ok policy -> few limit (predicates fp) ->
  distinct_keys (default JNull (token c)) -> visible (rp_ctx_param_name policy) (env fp) ->
  r (rp_ctx_param_name policy) = Some (to_js_value c) ->
  run_region r (stmt_map arrow) (regions arrow) = Some a ->
  eval_predicates {| resolver_name := rp_ctx_param_name policy; resolver_value := to_value c |}
    (env fp) (predicates fp) = Ok preds ->
  Forall (plain row (rp_entity_param_name policy) (env fp) (var_values r (env fp))) preds ->
  exists filter, eval_read_policy_expr policy c = Ok filter /\
    row_kept like row filter = Some (bool_decide (a <> Skip)).
Proof.
  intros Hfp Hnew Hfew Hd Hvis Hr Hrun Hev Hplain.
  destruct (from_arrow_holds limit arrow fp Hfp Hfew) as (Hok & _ & Hwf & Hholds).
  unfold ReadPolicy_new in Hnew. apply bind_ok in Hnew as (e1 & _ & Hnew).
  apply bind_ok in Hnew as (e2 & _ & [= <-]). cbn in *.
  destruct (filter_kept limit like row e1 (env fp) (var_values r (env fp))
    {| rp_filter := where_conds fp; rp_predicates := predicates fp; rp_env := env fp;
       rp_ctx_param_name := e2; rp_entity_param_name := e1; rp_function := f |} c preds)
    as (filter & Hfilter & Hkept); try done.
  exists filter. split; [done|]. rewrite Hkept. f_equal. eapply Hholds; [done|].
  eapply evaluated_faithful; [|done]. by apply request_resolves.
Qed.

(** The user's id is the exception.  The JSON value the filter is evaluated
    on has it under [user_id], the object the function is called with under
    [userId]: for a signed-in user the function reads the id and the interpreter
    reads [null], so a comparison of the id with an owner field becomes a
    comparison with [null], which keeps no row. *)
Theorem user_id_differs {B : Boa} {L : BoaLaws B} c uid :
  (forall s, property_key s = KString s) -> user_id c = Some uid ->
  js_member (to_js_value c) "userId" = Some (JsString uid) /\
  (forall name env id obj, env !! id = Some (VMember obj "userId") -> env !! obj = Some (VIdent name) ->
     eval {| resolver_name := name; resolver_value := to_value c |} env (PVar id) = Ok (PLit JNull)) /\
  forall row prop obj like, Sem.sat like row (EBinary (EProperty prop obj) OpEq (EValue VNull)) = None.
Proof.
  intros Hk Hu. split; [|split].
  - unfold js_member, to_js_value. rewrite !js_property_set, !Hk, Hu. done.
  - intros name env id obj Hid%env_get_some Hobj%env_get_some. cbn. unfold var_to_value, resolve.
    rewrite Hid. cbn. destruct env as [|v env]; [by destruct id|]. cbn [List.length get_value].
    rewrite Hobj. cbn. destruct (List.length env); cbn; by rewrite String.eqb_refl.
  - intros row prop obj like. unfold Sem.sat. cbn.
    by destruct (Sem.chain obj) as [ch|]; [destruct (row _)|].
Qed.

Module FilterSample.
Import JsSample RulesSample.

#[export] Instance boa_laws : BoaLaws boa.
Proof.
  constructor; try done; [by left|by intros []..].
Defined.

#[export] Instance number_laws : NumberLaws (B := boa).
Proof.
  intros sv v f sw w g c Hv Hw Hc.
  destruct Hv, Hw; cbn; unfold number_test; cbn; rewrite Hc; by destruct c.
Defined.

Definition request : RequestContext :=
  {| method := "GET"; path := "/dev/people"; headers := [("accept", "*")]; user_id := Some "u1"; token := None |}.
Definition row : Sem.row := fun path => if decide (path = ["name"]) then VString "marin" else VNull.
Definition scope_of_request : scope := fun name =>
  if String.eqb name "person" then Some (record_ [("name", JsString "marin")])
  else if String.eqb name "ctx" then Some (to_js_value request)
  else None.

Definition compiled : FilterPolicy :=
  match from_arrow arrow with
  | Ok fp => fp
  | _ => {| where_conds := None; predicates := []; env := []; js_code := ""; param_names := [] |}
  end.
Definition policy : ReadPolicy unit :=
  {| rp_filter := where_conds compiled; rp_predicates := predicates compiled; rp_env := env compiled;
     rp_ctx_param_name := "ctx"; rp_entity_param_name := "person"; rp_function := () |}.
End FilterSample.

Lemma eval_sound_witness :
  exists v', pred_eval (B := JsSample.boa) [Some (JsBoolean true)] (PBin LAnd (PVar 0) (PLit (JBool true))) = Some v' /\
    similar (JsBoolean true) v' /\ to_boolean v' = true.
Proof.
  apply (eval_sound (B := JsSample.boa) (L := FilterSample.boa_laws)
    {| resolver_name := "ctx"; resolver_value := JNull |} [VIdent "person"] [Some (JsBoolean true)]
    (PBin LAnd (PVar 0) (PBin LEq (PLit (JString "a")) (PLit (JString "a"))))
    (PBin LAnd (PVar 0) (PLit (JBool true))) (JsBoolean true)); try reflexivity.
  intros [|[]] j v Hj; vm_compute in Hj; discriminate Hj.
Defined.

Lemma read_filter_spec_witness :
  exists filter, eval_read_policy_expr (B := JsSample.boa) (BL := RulesSample.no_minimization)
      FilterSample.policy FilterSample.request = Ok filter /\
    row_kept (fun _ _ => false) FilterSample.row filter = Some false.
Proof.
  apply (read_filter_spec (B := JsSample.boa) (L := FilterSample.boa_laws) (N := FilterSample.number_laws)
    (BL := RulesSample.no_minimization) (SW := RulesSample.printer) 10
    (Laws := RulesSample.no_minimization_laws 10) (fun _ _ => false) FilterSample.row
    FilterSample.scope_of_request Skip RulesSample.arrow FilterSample.compiled () FilterSample.policy
    FilterSample.request [PBin LAnd (PBin LEq (PVar 1) (PLit (JString "marin"))) (PLit (JBool true))]).
  - vm_compute; reflexivity.
  - vm_compute; reflexivity.
  - unfold few. vm_compute. lia.
  - exact I.
  - intros [|[|[|[|i]]]] obj prop Hid; vm_compute in Hid; try discriminate Hid;
      injection Hid as <- <-; (split; [reflexivity|]); intros _; split; discriminate.
  - reflexivity.
  - vm_compute; reflexivity.
  - vm_compute; reflexivity.
  - constructor; [|constructor]. apply plain_and; [|apply plain_bool].
    apply (plain_compare _ _ _ _ _ _ _ (VString "marin") (JsString "marin") (VString "marin") (JsString "marin"));
      [eapply (operand_property _ _ _ _ 1 0 "name"); vm_compute; reflexivity
      |by apply (operand_literal _ _ _ _ (JString "marin"))|apply cmp_strings; by left].
Defined.

Lemma user_id_differs_witness :
  js_member (B := JsSample.boa) (to_js_value (B := JsSample.boa) FilterSample.request) "userId" = Some (JsString "u1") /\
  (forall name env id obj, env !! id = Some (VMember obj "userId") -> env !! obj = Some (VIdent name) ->
     eval (B := JsSample.boa) {| resolver_name := name; resolver_value := to_value FilterSample.request |} env (PVar id)
     = Ok (PLit JNull)) /\
  forall row prop obj like, Sem.sat like row (EBinary (EProperty prop obj) OpEq (EValue VNull)) = None.
Proof.
  apply (user_id_differs (B := JsSample.boa) (L := FilterSample.boa_laws) FilterSample.request "u1"); done.
Defined.
