(* ===== verification/PolicyProcess.v ===== *)
(** * Running the policies of an entity ([server/src/policy]: [mod.rs],
      [instances.rs])

    Each entity that is read or written goes through the policy functions of its
    type: the read policy decides, the [on*] functions transform, and what was
    transformed is remembered as dirty.  The functions are loaded once per
    request context and type, into a cache.

    The JavaScript engine is a parameter: a call gives a result, what its
    arguments are afterwards, and the engine's next state, which stands for
    everything a function may remember, including what objects it shares. *)

From S2P Require Import Prelude EntityValue Expr Types JsValue Engine PolicyRules PolicyEngine.

(** ** Actions and locations *)

Definition Action_try_from (value : Z) : result Action :=
  if (value =? 0)%Z then Ok Allow
  else if (value =? 1)%Z then Ok Deny
  else if (value =? 2)%Z then Ok Skip
  else if (value =? 3)%Z then Ok Log
  else bail "invalid Action".

Definition is_restrictive (a : Action) : bool :=
  match a with Deny | Skip => true | Allow | Log => false end.

(** The object the functions know as [Action]. *)
Definition Action_js_value {B : Boa} : JsValue :=
  JsObject (js_set (property_key "Log") (JsInteger 3)
    (js_set (property_key "Skip") (JsInteger 2)
    (js_set (property_key "Deny") (JsInteger 1)
    (js_set (property_key "Allow") (JsInteger 0) [])))).

Inductive Location := UsEast1 | UsWest | London | Germany.

Definition Location_from_str (s : string) : result Location :=
  if String.eqb s "us-east-1" then Ok UsEast1
  else if String.eqb s "us-west" then Ok UsWest
  else if String.eqb s "london" then Ok London
  else if String.eqb s "germany" then Ok Germany
  else bail ("unknown region " +:+ s).

(** [PolicyError] *)
Definition WritePermissionDenied (ty : ObjectType) : anyhow :=
  APolicyError ("could not write `" +:+ obj_name ty +:+ "` to disk: Permission denied").
Definition ReadPermissionDenied (ty : ObjectType) : anyhow :=
  APolicyError ("could not Read `" +:+ obj_name ty +:+ "`: Permission denied").
Definition DirtyEntity (ty : ObjectType) : anyhow :=
  APolicyError ("could not write `" +:+ obj_name ty +:+ "`: Entity is dirty: it was transformed by a policy.").

(** What a poll of a stream gives. *)
Inductive Poll (A : Type) := Ready (a : A) | Pending.
Arguments Ready {A} a.
Arguments Pending {A}.

(** ** The engine's calls *)

Inductive js_completion := Returned (v : JsValue) | Thrown (e : JsValue).

Class JsCalls (JsFunction engine : Type) := {
  js_call : JsFunction -> list JsValue -> engine -> js_completion * list JsValue * engine;
  (** the message of an error object, [None] for other objects *)
  js_error_message : JsValue -> option string;
}.

Definition as_js_object (v : JsValue) : bool :=
  match v with JsDate _ | JsBuffer _ | JsArray _ | JsObject _ => true | _ => false end.

Section Process.
Context {B : Boa} {BL : BoolLib} {JsFunction engine : Type} {JC : JsCalls JsFunction engine}.

Definition boa_err_to_anyhow {A} (e : JsValue) : result A :=
  if as_js_object e
  then bail (default "unknown error" (js_error_message (JsFunction := JsFunction) (engine := engine) e))
  else Panic "called `Option::unwrap()` on a `None` value".

(** ** Instances: the loaded policies of a type, and its dirty entities *)

Record ReadPolicyInstance := { rpi_function : JsFunction; rpi_expr : option Expr }.

Record PolicyEvalInstance := {
  inst_read : option ReadPolicyInstance;
  inst_functions : PolicyName -> option JsFunction;
  dirty : gset string;
  inst_ty : ObjectType;
  chisel_ctx : JsValue;
}.

Definition set_inst_read (r : ReadPolicyInstance) (i : PolicyEvalInstance) : PolicyEvalInstance :=
  {| inst_read := Some r; inst_functions := inst_functions i; dirty := dirty i; inst_ty := inst_ty i;
     chisel_ctx := chisel_ctx i |}.
Definition set_inst_function (name : PolicyName) (f : JsFunction) (i : PolicyEvalInstance) : PolicyEvalInstance :=
  {| inst_read := inst_read i;
     inst_functions := fun n =>
       match n, name with
       | Create, Create | Update, Update | OnRead, OnRead | OnCreate, OnCreate
       | OnUpdate, OnUpdate | GeoLoc, GeoLoc => Some f
       | _, _ => inst_functions i n
       end;
     dirty := dirty i; inst_ty := inst_ty i; chisel_ctx := chisel_ctx i |}.
Definition mark_dirty (id : string) (i : PolicyEvalInstance) : PolicyEvalInstance :=
  {| inst_read := inst_read i; inst_functions := inst_functions i; dirty := {[id]} ∪ dirty i;
     inst_ty := inst_ty i; chisel_ctx := chisel_ctx i |}.
Definition is_dirty (id : string) (i : PolicyEvalInstance) : bool := bool_decide (id ∈ dirty i).
Definition set_chisel_ctx (v : JsValue) (i : PolicyEvalInstance) : PolicyEvalInstance :=
  {| inst_read := inst_read i; inst_functions := inst_functions i; dirty := dirty i; inst_ty := inst_ty i;
     chisel_ctx := v |}.

(** [PolicyContext]: the registered policies and the request; the engine's
    state and the cache change and are passed around. *)
Record PolicyContext := { policies : PolicyStore JsFunction; request : RequestContext }.

Definition PolicyEvalInstance_new (ctx : PolicyContext) (ty : ObjectType) : PolicyEvalInstance :=
  {| inst_read := None; inst_functions := fun _ => None; dirty := ∅; inst_ty := ty;
     chisel_ctx := to_js_value (request ctx) |}.

(** ** The monad: one entity on its way through an instance *)

Record eval_state := { es_engine : engine; es_inst : PolicyEvalInstance; es_value : JsValue }.

Definition M (A : Type) : Type := eval_state -> result A * eval_state.

#[local] Instance M_ret : MRet M := fun A a s => (Ok a, s).
#[local] Instance M_bind : MBind M := fun A C f m s =>
  match m s with
  | (Ok a, s') => f a s'
  | (Err e, s') => (Err e, s')
  | (Panic w, s') => (Panic w, s')
  end.

Definition lift {A} (r : result A) : M A := fun s => (r, s).
Definition get_instance : M PolicyEvalInstance := fun s => (Ok (es_inst s), s).
Definition get_js_value : M JsValue := fun s => (Ok (es_value s), s).
Definition modify_instance (f : PolicyEvalInstance -> PolicyEvalInstance) : M unit := fun s =>
  (Ok (), {| es_engine := es_engine s; es_inst := f (es_inst s); es_value := es_value s |}).

(** [engine.call(function, &[value, chisel_ctx])]: the two arguments are the
    entity's object and the request's, and both may be changed by the call. *)
Definition call (f : JsFunction) : M JsValue := fun s =>
  let '(completion, args, e) := js_call f [es_value s; chisel_ctx (es_inst s)] (es_engine s) in
  let s' :=
    match args with
    | [value; ctx] => {| es_engine := e; es_inst := set_chisel_ctx ctx (es_inst s); es_value := value |}
    | _ => {| es_engine := e; es_inst := es_inst s; es_value := es_value s |}
    end in
  match completion with
  | Returned v => (Ok v, s')
  | Thrown e => (boa_err_to_anyhow e, s')
  end.

(** The policy of a name among a type's ([create_get_or_load_instance!]). *)
Definition type_function (name : PolicyName) (tp : TypePolicy JsFunction) : option JsFunction :=
  match name with
  | Read => None
  | Create => create tp
  | Update => update tp
  | OnRead => on_read tp
  | OnCreate => on_create tp
  | OnUpdate => on_update tp
  | GeoLoc => geoloc tp
  end.

Definition get_or_load (ctx : PolicyContext) (name : PolicyName) : M (option JsFunction) :=
  inst ← get_instance;
  match inst_functions inst name with
  | Some f => mret (Some f)
  | None =>
      match store_get (policies ctx) (obj_name (inst_ty inst)) ≫= type_function name with
      | Some f => _ ← modify_instance (set_inst_function name f); mret (Some f)
      | None => mret None
      end
  end.

Definition ReadPolicyInstance_new (ctx : PolicyContext) (policy : ReadPolicy JsFunction) : result ReadPolicyInstance :=
  expr ← eval_read_policy_expr policy (request ctx);
  Ok {| rpi_function := rp_function policy; rpi_expr := expr |}.

Definition get_or_load_read (ctx : PolicyContext) : M (option ReadPolicyInstance) :=
  inst ← get_instance;
  match inst_read inst with
  | Some i => mret (Some i)
  | None =>
      match store_get (policies ctx) (obj_name (inst_ty inst)) ≫= read with
      | Some policy =>
          instance ← lift (ReadPolicyInstance_new ctx policy);
          _ ← modify_instance (set_inst_read instance);
          mret (Some instance)
      | None => mret None
      end
  end.

Definition make_read_filter_expr (ctx : PolicyContext) : M (option Expr) :=
  i ← get_or_load_read ctx; mret (i ≫= rpi_expr).

(** ** Deciding *)

(** [Filter::get_action] *)
Definition action_of (v : JsValue) : result Action :=
  match v with
  | JsInteger action => Action_try_from action
  | JsUndefined => Ok Deny
  | _ => bail "invalid action"
  end.

Definition get_action (f : JsFunction) : M Action := v ← call f; lift (action_of v).

Definition get_read_action (ctx : PolicyContext) : M (option Action) :=
  i ← get_or_load_read ctx;
  match i with
  | Some i => a ← get_action (rpi_function i); mret (Some a)
  | None => mret None
  end.

Definition get_write_action (ctx : PolicyContext) (name : PolicyName) : M (option Action) :=
  r ← get_read_action ctx;
  if match r with Some action => is_restrictive action | None => false end then mret r
  else
    i ← get_or_load ctx name;
    match i with
    | Some f => a ← get_action f; mret (Some a)
    | None => mret None
    end.
Definition get_create_action (ctx : PolicyContext) : M (option Action) := get_write_action ctx Create.
Definition get_update_action (ctx : PolicyContext) : M (option Action) := get_write_action ctx Update.

(** ** Transforming *)

Definition transform (ctx : PolicyContext) (name : PolicyName) : M unit :=
  i ← get_or_load ctx name;
  match i with Some f => _ ← call f; mret () | None => mret () end.
Definition transform_on_read (ctx : PolicyContext) : M unit := transform ctx OnRead.
Definition transform_on_create (ctx : PolicyContext) : M unit := transform ctx OnCreate.
Definition transform_on_update (ctx : PolicyContext) : M unit := transform ctx OnUpdate.

Definition location_of (v : JsValue) : result Location :=
  match v with
  | JsString s => Location_from_str s
  | _ => bail "Expected geolocation to return a string."
  end.
Definition geo_loc (ctx : PolicyContext) : M (option Location) :=
  i ← get_or_load ctx GeoLoc;
  match i with
  | Some f => v ← call f; l ← lift (location_of v); mret (Some l)
  | None => mret None
  end.

(** ** Reading and writing *)

(** [try_into_map] *)
Definition try_into_map (v : EntityValue) : result EntityMap := as_map v.

(** [value["id"].as_str().unwrap()] *)
Definition entity_id (value : EntityMap) : result string :=
  id ← unwrap (alist_get "id" value) "index not found";
  match as_str id with
  | Ok id => Ok id
  | _ => Panic "called `Result::unwrap()` on an `Err` value"
  end.

Definition finish_read (value : EntityMap) : M EntityMap :=
  v ← get_js_value;
  new_val ← lift (js_value_to_entity_value v ≫= try_into_map);
  if map_eqb new_val value then mret new_val
  else
    id ← lift (entity_id value);
    _ ← modify_instance (mark_dirty id);
    mret new_val.

Definition read_steps (ctx : PolicyContext) (ty : ObjectType) (value : EntityMap) : M (option EntityMap) :=
  action ← get_read_action ctx;
  match action with
  | Some Deny => lift (Err (ReadPermissionDenied ty))
  | Some Skip => mret None
  | Some Allow | Some Log | None =>
      _ ← transform_on_read ctx;
      new_val ← finish_read value;
      mret (Some new_val)
  end.

Definition write_action (ctx : PolicyContext) (ty : ObjectType) (value : EntityMap)
    (action : Engine.WriteAction) : M (option Action) :=
  match action with
  | Engine.Create => get_create_action ctx
  | Engine.Update =>
      id ← lift (entity_id value);
      inst ← get_instance;
      if is_dirty id inst then lift (Err (DirtyEntity ty)) else get_update_action ctx
  end.

Definition write_steps (ctx : PolicyContext) (ty : ObjectType) (value : EntityMap)
    (write : Engine.WriteAction) : M (EntityMap * option Location) :=
  action ← write_action ctx ty value write;
  loc ← geo_loc ctx;
  _ ← match action with
      | Some Deny | Some Skip => lift (Err (WritePermissionDenied ty))
      | None | Some Allow | Some Log => mret ()
      end;
  _ ← match write with
      | Engine.Create => transform_on_create ctx
      | Engine.Update => transform_on_update ctx
      end;
  v ← get_js_value;
  new_val ← lift (js_value_to_entity_value v ≫= try_into_map);
  mret (new_val, loc).

(** ** The cache of a context *)

Record process_state := { ps_engine : engine; ps_cache : gmap string PolicyEvalInstance }.

Definition get_or_create_policy_instance (ctx : PolicyContext) (cache : gmap string PolicyEvalInstance)
    (ty : ObjectType) : PolicyEvalInstance :=
  match cache !! obj_name ty with Some i => i | None => PolicyEvalInstance_new ctx ty end.

(** The steps run on the instance in the cache, which keeps what they change
    even when they fail. *)
Definition on_instance {A} (ctx : PolicyContext) (ty : ObjectType) (value : EntityMap) (m : M A)
    (s : process_state) : result A * process_state :=
  let '(r, s') := m {| es_engine := ps_engine s;
                       es_inst := get_or_create_policy_instance ctx (ps_cache s) ty;
                       es_value := entity_map_to_js_value value |} in
  (r, {| ps_engine := es_engine s'; ps_cache := <[obj_name ty := es_inst s']> (ps_cache s) |}).

Definition process_read (ctx : PolicyContext) (ty : ObjectType) (value : EntityMap)
    : process_state -> result (option EntityMap) * process_state :=
  on_instance ctx ty value (read_steps ctx ty value).

Definition process_write (ctx : PolicyContext) (ty : ObjectType) (value : EntityMap)
    (write : Engine.WriteAction) : process_state -> result (EntityMap * option Location) * process_state :=
  on_instance ctx ty value (write_steps ctx ty value write).

(** ** Streams ([ValidatedEntityStream]) *)

(** One poll: what the inner stream gives, put through [process_read].  A
    skipped entity makes the stream pending, and it wakes its task. *)
Definition poll_next (ctx : PolicyContext) (ty : ObjectType) (stream : list (Poll (result EntityMap)))
    (s : process_state)
    : Poll (option (result EntityMap)) * list (Poll (result EntityMap)) * process_state :=
  match stream with
  | [] => (Ready None, [], s)
  | Pending :: stream => (Pending, stream, s)
  | Ready (Ok value) :: stream =>
      match process_read ctx ty value s with
      | (Ok (Some value), s) => (Ready (Some (Ok value)), stream, s)
      | (Ok None, s) => (Pending, stream, s)
      | (Err e, s) => (Ready (Some (Err e)), stream, s)
      | (Panic w, s) => (Ready (Some (Panic w)), stream, s)
      end
  | Ready (Err e) :: stream => (Ready (Some (Err e)), stream, s)
  | Ready (Panic w) :: stream => (Ready (Some (Panic w)), stream, s)
  end.
End Process.

#[global] Arguments ReadPolicyInstance : clear implicits.
#[global] Arguments PolicyEvalInstance : clear implicits.
#[global] Arguments PolicyContext : clear implicits.
#[global] Arguments eval_state : clear implicits.
#[global] Arguments process_state : clear implicits.
#[global] Arguments M : clear implicits.
