(* ===== verification/PolicyProcessSpec.v ===== *)
(** * What the policies of an entity guarantee

    Nothing is read or written past a policy that denies or skips it; an entity
    a policy transformed cannot be written back, whatever happens in between;
    entities without policies pass unchanged; a validated stream delivers every
    entity it is given. *)

From S2P Require Import Prelude EntityValue Expr Types JsValue Engine PolicyRules PolicyEngine PolicyProcess.

#[local] Arguments ev_eqb : simpl never.

(** What a policy function is called on: the entity's object, the request's
    object and the engine's state. *)
Definition situation (engine : Type) : Type := JsValue * JsValue * engine.

Section Spec.
Context {B : Boa} {BL : BoolLib} {JsFunction engine : Type} {JC : JsCalls JsFunction engine}.

#[local] Existing Instance M_ret.
#[local] Existing Instance M_bind.

Implicit Types (ctx : PolicyContext JsFunction) (s : eval_state JsFunction engine).

(** ** The monad *)

Lemma M_bind_ok {A C} (m : M JsFunction engine A) (f : A -> M JsFunction engine C) s c s' :
  (m ≫= f) s = (Ok c, s') <-> exists a s1, m s = (Ok a, s1) /\ f a s1 = (Ok c, s').
Proof.
  unfold mbind, M_bind. destruct (m s) as [[a|e|w] s1]; split; try done; try naive_solver.
Qed.

Lemma lift_ok {A} (r : result A) s a s' : lift r s = (Ok a, s') <-> r = Ok a /\ s' = s.
Proof. unfold lift. naive_solver. Qed.

Lemma ret_ok {A} (x : A) s a s' : mret (M := M JsFunction engine) x s = (Ok a, s') <-> a = x /\ s' = s.
Proof. unfold mret, M_ret. naive_solver. Qed.

(** ** Coherence of the cache

    Every loaded function is the one registered for the type. *)
Definition registered (ctx : PolicyContext JsFunction) (key : string) (name : PolicyName) : option JsFunction :=
  match name with
  | Read => rp_function <$> (policies ctx !! key ≫= read)
  | _ => policies ctx !! key ≫= type_function name
  end.

Record inst_ok (ctx : PolicyContext JsFunction) (key : string) (i : PolicyEvalInstance JsFunction) : Prop := {
  inst_key : obj_name (inst_ty i) = key;
  inst_read_ok : forall r, inst_read i = Some r -> registered ctx key Read = Some (rpi_function r);
  inst_functions_ok : forall name f, inst_functions i name = Some f -> registered ctx key name = Some f;
}.

(** How every step changes an instance: it stays coherent, and keeps its type
    and its dirty entities. *)
Record advances (ctx : PolicyContext JsFunction) (i i' : PolicyEvalInstance JsFunction) : Prop := {
  adv_ok : forall key, inst_ok ctx key i -> inst_ok ctx key i';
  adv_dirty : dirty i ⊆ dirty i';
  adv_ty : inst_ty i' = inst_ty i;
}.

Lemma advances_refl ctx i : advances ctx i i.
Proof. by constructor. Qed.
Lemma advances_trans ctx i j k : advances ctx i j -> advances ctx j k -> advances ctx i k.
Proof. intros [] []. constructor; [auto|set_solver|congruence]. Qed.

Definition steady (ctx : PolicyContext JsFunction) {A} (m : M JsFunction engine A) : Prop :=
  forall s r s', m s = (r, s') -> advances ctx (es_inst s) (es_inst s').

Lemma steady_ret ctx {A} (a : A) : steady ctx (mret (M := M JsFunction engine) a).
Proof. intros s r s' [= _ <-]. apply advances_refl. Qed.
Lemma steady_lift ctx {A} (a : result A) : steady ctx (lift a).
Proof. intros s r s' [= _ <-]. apply advances_refl. Qed.
Lemma steady_get ctx : steady ctx get_instance.
Proof. intros s r s' [= _ <-]. apply advances_refl. Qed.
Lemma steady_value ctx : steady ctx get_js_value.
Proof. intros s r s' [= _ <-]. apply advances_refl. Qed.
Lemma steady_bind ctx {A C} (m : M JsFunction engine A) (f : A -> M JsFunction engine C) :
  steady ctx m -> (forall a, steady ctx (f a)) -> steady ctx (m ≫= f).
Proof.
  intros Hm Hf s r s' H. unfold mbind, M_bind in H. destruct (m s) as [[a|e|w] s1] eqn:E.
  - eapply advances_trans; [by eapply Hm|by eapply Hf].
  - injection H as _ <-. by eapply Hm.
  - injection H as _ <-. by eapply Hm.
Qed.
Lemma steady_modify ctx f : (forall i, advances ctx i (f i)) -> steady ctx (modify_instance (engine := engine) f).
Proof. intros Hf s r s' [= _ <-]. apply Hf. Qed.

Lemma advances_chisel_ctx ctx v i : advances ctx i (set_chisel_ctx v i).
Proof. constructor; [|done|done]. intros key []. by constructor. Qed.
Lemma advances_mark_dirty ctx id i : advances ctx i (mark_dirty id i).
Proof. constructor; [|cbn; set_solver|done]. intros key []. by constructor. Qed.

Definition state_of (s : eval_state JsFunction engine) : situation engine :=
  (es_value s, chisel_ctx (es_inst s), es_engine s).

Lemma steady_call ctx f : steady ctx (call f).
Proof.
  intros s r s' H. unfold call in H.
  destruct (js_call f [es_value s; chisel_ctx (es_inst s)] (es_engine s)) as [[c args] e].
  destruct c; injection H as _ <-; destruct args as [|? [|? []]]; try apply advances_refl;
    apply advances_chisel_ctx.
Qed.

Lemma get_or_load_inv ctx name s r s' : get_or_load ctx name s = (r, s') ->
  advances ctx (es_inst s) (es_inst s') /\ state_of s' = state_of s /\
  exists o, r = Ok o /\
    forall key, inst_ok ctx key (es_inst s) -> name <> Read -> o = registered ctx key name.
Proof.
  intros H. unfold get_or_load, get_instance, mbind, M_bind, store_get in H.
  destruct (inst_functions (es_inst s) name) as [f|] eqn:Ef.
  { injection H as <- <-. split; [apply advances_refl|]. split; [done|].
    exists (Some f). split; [done|]. intros key Hok _. symmetry. by eapply inst_functions_ok. }
  change (policies ctx !! obj_name (inst_ty (es_inst s)) ≫= type_function name)
    with (option_bind _ _ (type_function name) (policies ctx !! obj_name (inst_ty (es_inst s)))) in H.
  destruct (option_bind _ _ _ _) as [f|] eqn:Ep.
  - cbn in H. injection H as <- <-. cbn. split; [|split; [done|]].
    + constructor; [|done|done]. intros key [Hk Hr Hf]. constructor; [done|done|]. subst key.
      intros n g. cbn. destruct n, name; try apply Hf; intros [= <-]; exact Ep.
    + exists (Some f). split; [done|]. intros key [<- _ _] Hne. symmetry. by destruct name.
  - injection H as <- <-. split; [apply advances_refl|]. split; [done|].
    exists None. split; [done|]. intros key [<- _ _] Hne. symmetry. by destruct name.
Qed.

Lemma steady_get_or_load ctx name : steady ctx (get_or_load ctx name).
Proof. intros s r s' H. by apply get_or_load_inv in H as [H _]. Qed.

Lemma get_or_load_read_inv ctx s r s' : get_or_load_read ctx s = (r, s') ->
  advances ctx (es_inst s) (es_inst s') /\ state_of s' = state_of s /\
  forall o key, r = Ok o -> inst_ok ctx key (es_inst s) -> rpi_function <$> o = registered ctx key Read.
Proof.
  intros H. unfold get_or_load_read, get_instance, mbind, M_bind, store_get in H.
  destruct (inst_read (es_inst s)) as [i|] eqn:Ei.
  { injection H as <- <-. split; [apply advances_refl|]. split; [done|].
    intros o key [= <-] Hok. symmetry. by eapply inst_read_ok. }
  change (policies ctx !! obj_name (inst_ty (es_inst s)) ≫= read)
    with (option_bind _ _ read (policies ctx !! obj_name (inst_ty (es_inst s)))) in H.
  destruct (option_bind _ _ _ _) as [p|] eqn:Ep.
  - unfold lift in H. destruct (ReadPolicyInstance_new ctx p) as [i|e|w] eqn:En; cbn in H; injection H as <- <-;
      [|split; [apply advances_refl|]; split; [done|]; discriminate..].
    unfold ReadPolicyInstance_new in En. apply bind_ok in En as (ex & _ & [= <-]). cbn.
    assert (forall key, inst_ok ctx key (es_inst s) -> registered ctx key Read = Some (rp_function p)) as Hreg.
    { intros key [<- _ _]. unfold registered. unfold mbind in *. by rewrite Ep. }
    split; [|split; [done|]].
    + constructor; [|done|done]. intros key Hok. constructor; [by destruct Hok| |by destruct Hok].
      cbn. intros r [= <-]. by apply Hreg.
    + intros o key [= <-] Hok. symmetry. by apply Hreg.
  - injection H as <- <-. split; [apply advances_refl|]. split; [done|].
    intros o key [= <-] [<- _ _]. unfold registered, mbind in *. by rewrite Ep.
Qed.

Lemma steady_get_or_load_read ctx : steady ctx (get_or_load_read ctx).
Proof. intros s r s' H. by apply get_or_load_read_inv in H as [H _]. Qed.
End Spec.

#[export] Hint Resolve steady_ret steady_lift steady_get steady_value steady_bind steady_call
  steady_modify advances_mark_dirty steady_get_or_load steady_get_or_load_read : steady.

(** The steps of reading and writing are made of steady ones. *)
Ltac steady :=
  repeat first
    [ progress intros | solve [auto with steady] | apply steady_bind
    | match goal with |- steady _ (match ?x with _ => _ end) => destruct x end ].

Section Steps.
Context {B : Boa} {BL : BoolLib} {JsFunction engine : Type} {JC : JsCalls JsFunction engine}.
Implicit Types (ctx : PolicyContext JsFunction) (s : eval_state JsFunction engine).

Lemma steady_get_action ctx f : steady ctx (get_action f).
Proof. unfold get_action. steady. Qed.
#[local] Hint Resolve steady_get_action : steady.
Lemma steady_get_read_action ctx : steady ctx (get_read_action ctx).
Proof. unfold get_read_action. steady. Qed.
#[local] Hint Resolve steady_get_read_action : steady.
Lemma steady_get_write_action ctx name : steady ctx (get_write_action ctx name).
Proof. unfold get_write_action. steady. Qed.
#[local] Hint Resolve steady_get_write_action : steady.
Lemma steady_transform ctx name : steady ctx (transform ctx name).
Proof. unfold transform. steady. Qed.
Lemma steady_geo_loc ctx : steady ctx (geo_loc ctx).
Proof. unfold geo_loc. steady. Qed.
#[local] Hint Resolve steady_transform steady_geo_loc : steady.
Lemma steady_finish_read ctx value : steady ctx (finish_read (engine := engine) value).
Proof. unfold finish_read. steady. Qed.
#[local] Hint Resolve steady_finish_read : steady.

Lemma steady_read ctx ty value : steady ctx (read_steps ctx ty value).
Proof. unfold read_steps, transform_on_read. steady. Qed.
Lemma steady_write ctx ty value write : steady ctx (write_steps ctx ty value write).
Proof.
  unfold write_steps, write_action, get_create_action, get_update_action, transform_on_create, transform_on_update.
  steady.
Qed.
End Steps.


(** ** What a call decides *)

Section Decide.
Context {B : Boa} {BL : BoolLib} {JsFunction engine : Type} {JC : JsCalls JsFunction engine}.
Implicit Types (ctx : PolicyContext JsFunction) (s : eval_state JsFunction engine).

(** Called on these arguments in this state, the function returns the action. *)
Definition decides (f : JsFunction) (value ctxv : JsValue) (e : engine) (a : Action) : Prop :=
  exists v args e', js_call f [value; ctxv] e = (Returned v, args, e') /\ action_of v = Ok a.

Definition permits (f : JsFunction) (value ctxv : JsValue) (e : engine) : Prop :=
  exists a, decides f value ctxv e a /\ is_restrictive a = false.

(** What a call of the function leaves of the situation it is called in: the
    function may change both objects, and the engine. *)
Definition after (f : option JsFunction) (st : situation engine) : situation engine :=
  match f with
  | None => st
  | Some f =>
      let '(value, ctxv, e) := st in
      match js_call f [value; ctxv] e with
      | (_, [value'; ctxv'], e') => (value', ctxv', e')
      | (_, _, e') => (value, ctxv, e')
      end
  end.

(** A policy lets the entity pass: there is none, or, called in this situation,
    it returns [Allow] or [Log]. *)
Definition passes (f : option JsFunction) (st : situation engine) : Prop :=
  match f with None => True | Some f => let '(value, ctxv, e) := st in permits f value ctxv e end.

(** The entity that is read back from a situation. *)
Definition entity_in (st : situation engine) : result EntityMap :=
  js_value_to_entity_value st.1.1 ≫= try_into_map.

Lemma call_after f s v s' : call f s = (Ok v, s') -> state_of s' = after (Some f) (state_of s).
Proof.
  unfold call, after, state_of, boa_err_to_anyhow.
  destruct (js_call _ _ _) as [[c args] e].
  destruct c as [w|w]; [|by destruct (as_js_object w)].
  intros [= _ <-]. by destruct args as [|? [|? []]].
Qed.

Lemma get_action_decides f s a s' : get_action f s = (Ok a, s') ->
  decides f (es_value s) (chisel_ctx (es_inst s)) (es_engine s) a /\
  state_of s' = after (Some f) (state_of s).
Proof.
  intros H. apply M_bind_ok in H as (v & s1 & Hc & H). apply lift_ok in H as [Ha ->].
  split; [|by eapply call_after].
  unfold call in Hc. destruct (js_call _ _ _) as [[c args] e] eqn:Ej.
  destruct c as [w|w]; [|by unfold boa_err_to_anyhow in Hc; destruct (as_js_object w)].
  injection Hc as -> _. by exists v, args, e.
Qed.

(** The policy that is registered passes when its action is not restrictive. *)
Definition not_restricted (a : option Action) : Prop := forall act, a = Some act -> is_restrictive act = false.

(** What a step of a registered function does: it comes out in the situation
    after the call. *)
Definition acts (o : option JsFunction) (s : eval_state JsFunction engine) (a : option Action)
    (s' : eval_state JsFunction engine) : Prop :=
  state_of s' = after o (state_of s) /\ (not_restricted a -> passes o (state_of s)).

Lemma get_read_action_spec ctx key s a s' : inst_ok ctx key (es_inst s) ->
  get_read_action ctx s = (Ok a, s') -> acts (registered ctx key Read) s a s'.
Proof.
  intros Hok H. apply M_bind_ok in H as (o & s1 & Hl & H).
  destruct (get_or_load_read_inv _ _ _ _ Hl) as (_ & Hst & Hreg).
  rewrite <- (Hreg o key eq_refl Hok). unfold acts. rewrite <- Hst. destruct o as [r|]; cbn.
  - apply M_bind_ok in H as (act & s2 & Ha & H). apply ret_ok in H as [-> ->].
    apply get_action_decides in Ha as [Hd ->]. split; [done|]. intros Hr. exists act. auto.
  - by apply ret_ok in H as [-> ->].
Qed.

Lemma get_write_action_spec ctx key name s a s' : name <> Read -> inst_ok ctx key (es_inst s) ->
  get_write_action ctx name s = (Ok a, s') -> not_restricted a ->
  passes (registered ctx key Read) (state_of s) /\
  passes (registered ctx key name) (after (registered ctx key Read) (state_of s)) /\
  state_of s' = after (registered ctx key name) (after (registered ctx key Read) (state_of s)).
Proof.
  intros Hname Hok H Hr. apply M_bind_ok in H as (r & s1 & Hread & H).
  destruct (get_read_action_spec _ _ _ _ _ Hok Hread) as [Hst Hpass].
  assert (not_restricted r) as Hr'.
  { intros act ->. destruct (is_restrictive act) eqn:Ea; [|done].
    apply ret_ok in H as [-> _]. by rewrite <- Ea, Hr. }
  split; [by apply Hpass|].
  replace (match r with Some action => is_restrictive action | None => false end) with false in H
    by (destruct r as [act|]; [by rewrite (Hr' act)|done]).
  apply M_bind_ok in H as (o & s2 & Hl & H).
  destruct (get_or_load_inv _ _ _ _ _ Hl) as (_ & Hst2 & o' & [= <-] & Hreg).
  assert (inst_ok ctx key (es_inst s1)) as Hok1 by (by eapply (steady_get_read_action ctx)).
  rewrite <- (Hreg key Hok1 Hname), <- Hst, <- Hst2. destruct o as [f|]; cbn.
  - apply M_bind_ok in H as (act & s3 & Ha & H). apply ret_ok in H as [-> ->].
    apply get_action_decides in Ha as [Hd ->]. split; [|done]. exists act. auto.
  - by apply ret_ok in H as [-> ->].
Qed.

Lemma transform_spec ctx key name s u s' : name <> Read -> inst_ok ctx key (es_inst s) ->
  transform ctx name s = (Ok u, s') -> state_of s' = after (registered ctx key name) (state_of s).
Proof.
  intros Hname Hok H. apply M_bind_ok in H as (o & s1 & Hl & H).
  destruct (get_or_load_inv _ _ _ _ _ Hl) as (_ & <- & o' & [= <-] & Hreg).
  rewrite <- (Hreg key Hok Hname). destruct o as [f|].
  - apply M_bind_ok in H as (v & s2 & Hc & H). apply ret_ok in H as [_ ->]. by eapply call_after.
  - by apply ret_ok in H as [_ ->].
Qed.

Lemma geo_loc_spec ctx key s l s' : inst_ok ctx key (es_inst s) ->
  geo_loc ctx s = (Ok l, s') -> state_of s' = after (registered ctx key GeoLoc) (state_of s).
Proof.
  intros Hok H. apply M_bind_ok in H as (o & s1 & Hl & H).
  destruct (get_or_load_inv _ _ _ _ _ Hl) as (_ & <- & o' & [= <-] & Hreg).
  rewrite <- (Hreg key Hok ltac:(done)). destruct o as [f|].
  - apply M_bind_ok in H as (v & s2 & Hc & H). apply M_bind_ok in H as (w & s3 & Hw & H).
    apply lift_ok in Hw as [_ ->]. apply ret_ok in H as [_ ->]. by eapply call_after.
  - by apply ret_ok in H as [_ ->].
Qed.

(** Reading. *)
Lemma finish_read_ok value s v s' : finish_read value s = (Ok v, s') ->
  entity_in (state_of s) = Ok v /\ state_of s' = state_of s.
Proof.
  intros H. apply M_bind_ok in H as (j & s1 & Hj & H). injection Hj as <- <-.
  apply M_bind_ok in H as (nv & s2 & Hn & H). apply lift_ok in Hn as [Hn ->].
  destruct (map_eqb nv value); [by apply ret_ok in H as [-> ->]|].
  apply M_bind_ok in H as (id & s2 & Hi & H). apply lift_ok in Hi as [_ ->].
  apply M_bind_ok in H as (u & s3 & Hm & H). injection Hm as _ <-. by apply ret_ok in H as [-> ->].
Qed.

Lemma read_steps_spec ctx ty key value s v s' : inst_ok ctx key (es_inst s) ->
  read_steps ctx ty value s = (Ok (Some v), s') ->
  passes (registered ctx key Read) (state_of s) /\
  entity_in (state_of s') = Ok v /\
  state_of s' = after (registered ctx key OnRead) (after (registered ctx key Read) (state_of s)).
Proof.
  intros Hok H. apply M_bind_ok in H as (a & s1 & Ha & H).
  destruct (get_read_action_spec _ _ _ _ _ Hok Ha) as [Hst Hpass].
  assert (inst_ok ctx key (es_inst s1)) as Hok1 by (by eapply (steady_get_read_action ctx)).
  split; [apply Hpass; intros act ->; by destruct act|]. rewrite <- Hst.
  destruct a as [[]|]; try done;
    (apply M_bind_ok in H as (u & s2 & Ht & H); apply M_bind_ok in H as (v' & s3 & Hf & H);
     apply ret_ok in H as [[= ->] ->]; apply finish_read_ok in Hf as [Hf ->];
     split; [done|]; by eapply transform_spec).
Qed.

(** An entity that comes out changed is dirty. *)
Lemma finish_read_dirty value s v s' id : finish_read value s = (Ok v, s') ->
  map_eqb v value = false -> entity_id value = Ok id -> id ∈ dirty (es_inst s').
Proof.
  intros H Hne Hid. apply M_bind_ok in H as (j & s1 & Hj & H). injection Hj as <- <-.
  apply M_bind_ok in H as (nv & s2 & Hn & H). apply lift_ok in Hn as [_ ->].
  destruct (map_eqb nv value) eqn:E; [apply ret_ok in H as [-> _]; by rewrite E in Hne|].
  apply M_bind_ok in H as (id' & s2 & Hi & H). apply lift_ok in Hi as [Hi ->].
  rewrite Hid in Hi. injection Hi as <-.
  apply M_bind_ok in H as (u & s3 & Hm & H). injection Hm as _ <-.
  apply ret_ok in H as [_ ->]. cbn. set_solver.
Qed.

Lemma read_steps_dirty ctx ty value s v s' id : read_steps ctx ty value s = (Ok (Some v), s') ->
  map_eqb v value = false -> entity_id value = Ok id -> id ∈ dirty (es_inst s').
Proof.
  intros H Hne Hid. apply M_bind_ok in H as (a & s1 & _ & H).
  destruct a as [[]|]; try done;
    (apply M_bind_ok in H as (u & s2 & _ & H); apply M_bind_ok in H as (v' & s3 & Hf & H);
     apply ret_ok in H as [[= ->] ->]; by eapply finish_read_dirty).
Qed.

(** Writing. *)
Definition write_name (w : Engine.WriteAction) : PolicyName :=
  match w with Engine.Create => Create | Engine.Update => Update end.

Definition transform_name (w : Engine.WriteAction) : PolicyName :=
  match w with Engine.Create => OnCreate | Engine.Update => OnUpdate end.

Lemma write_action_spec ctx ty key value w s a s' : inst_ok ctx key (es_inst s) ->
  write_action ctx ty value w s = (Ok a, s') -> not_restricted a ->
  (passes (registered ctx key Read) (state_of s) /\
   passes (registered ctx key (write_name w)) (after (registered ctx key Read) (state_of s)) /\
   state_of s' = after (registered ctx key (write_name w)) (after (registered ctx key Read) (state_of s))) /\
  (w = Engine.Update -> exists id, entity_id value = Ok id /\ id ∉ dirty (es_inst s)).
Proof.
  intros Hok Ha Hr. destruct w; cbn in Ha.
  - split; [|done]. by apply (get_write_action_spec ctx key Create s a s').
  - apply M_bind_ok in Ha as (id & s4 & Hid & Ha). apply lift_ok in Hid as [Hid ->].
    apply M_bind_ok in Ha as (i & s4 & Hi & Ha). injection Hi as <- <-.
    unfold is_dirty in Ha. destruct (decide (id ∈ dirty (es_inst s))) as [Hd|Hd].
    { rewrite bool_decide_true in Ha by done. done. }
    rewrite bool_decide_false in Ha by done.
    split; [by apply (get_write_action_spec ctx key Update s a s')|eauto].
Qed.

Lemma steady_write_action ctx ty value w : steady ctx (write_action (engine := engine) ctx ty value w).
Proof.
  unfold write_action, get_create_action, get_update_action. destruct w; [apply steady_get_write_action|].
  repeat (apply steady_bind; [auto with steady|intros]).
  destruct (is_dirty _ _); [auto with steady|apply steady_get_write_action].
Qed.

Lemma write_steps_spec ctx ty key value w s r s' : inst_ok ctx key (es_inst s) ->
  write_steps ctx ty value w s = (Ok r, s') ->
  passes (registered ctx key Read) (state_of s) /\
  passes (registered ctx key (write_name w)) (after (registered ctx key Read) (state_of s)) /\
  entity_in (state_of s') = Ok r.1 /\
  state_of s' =
    after (registered ctx key (transform_name w)) (after (registered ctx key GeoLoc)
      (after (registered ctx key (write_name w)) (after (registered ctx key Read) (state_of s)))) /\
  (w = Engine.Update -> exists id, entity_id value = Ok id /\ id ∉ dirty (es_inst s)).
Proof.
  intros Hok H. apply M_bind_ok in H as (a & s1 & Ha & H). apply M_bind_ok in H as (loc & s2 & Hg & H).
  apply M_bind_ok in H as (u & s3 & Hperm & H). apply M_bind_ok in H as (t & s4 & Ht & H).
  apply M_bind_ok in H as (j & s5 & Hj & H). injection Hj as <- <-.
  apply M_bind_ok in H as (nv & s6 & Hn & H). apply lift_ok in Hn as [Hn ->]. apply ret_ok in H as [-> ->].
  assert (not_restricted a) as Hr by (intros act ->; by destruct act).
  assert (s3 = s2) as -> by (by destruct a as [[]|]; try done; injection Hperm).
  assert (inst_ok ctx key (es_inst s1)) as Hok1 by (by eapply (steady_write_action ctx)).
  assert (inst_ok ctx key (es_inst s2)) as Hok2 by (by eapply (steady_geo_loc ctx)).
  destruct (write_action_spec _ _ _ _ _ _ _ _ Hok Ha Hr) as [(Hread & Hwrite & <-) Hdirty].
  split; [done|]. split; [done|]. split; [done|]. split; [|done].
  rewrite <- (geo_loc_spec ctx key s1 loc s2 Hok1 Hg).
  destruct w; (eapply transform_spec; [| |exact Ht]; [done|done]).
Qed.

Lemma write_steps_dirty ctx ty value s id : entity_id value = Ok id -> id ∈ dirty (es_inst s) ->
  (write_steps ctx ty value Engine.Update s).1 = Err (DirtyEntity ty).
Proof.
  intros Hid Hd. unfold write_steps, write_action, mbind, M_bind, lift, get_instance. rewrite Hid.
  unfold is_dirty. by rewrite bool_decide_true.
Qed.
End Decide.

(** ** The cache, over any sequence of operations *)

Section Cache.
Context {B : Boa} {BL : BoolLib} {JsFunction engine : Type} {JC : JsCalls JsFunction engine}.
Implicit Types (ctx : PolicyContext JsFunction) (s : process_state JsFunction engine).

Definition cache_ok (ctx : PolicyContext JsFunction) (s : process_state JsFunction engine) : Prop :=
  forall key i, ps_cache s !! key = Some i -> inst_ok ctx key i.

(** The dirty entities of a type. *)
Definition dirty_of (ty : ObjectType) (s : process_state JsFunction engine) : gset string :=
  match ps_cache s !! obj_name ty with Some i => dirty i | None => ∅ end.

Inductive operation :=
  | ReadEntity (ty : ObjectType) (value : EntityMap)
  | WriteEntity (ty : ObjectType) (value : EntityMap) (w : Engine.WriteAction).

Definition run_operation ctx (op : operation) s : process_state JsFunction engine :=
  match op with
  | ReadEntity ty value => (process_read ctx ty value s).2
  | WriteEntity ty value w => (process_write ctx ty value w s).2
  end.

(** One operation after another, whatever each of them returns. *)
Inductive step ctx : process_state JsFunction engine -> process_state JsFunction engine -> Prop :=
  | step_operation op s : step ctx s (run_operation ctx op s).
Definition reachable_from ctx := rtc (step ctx).

Lemma new_inst_ok ctx ty : inst_ok ctx (obj_name ty) (PolicyEvalInstance_new ctx ty).
Proof. by constructor. Qed.

Lemma get_or_create_ok ctx s ty : cache_ok ctx s ->
  inst_ok ctx (obj_name ty) (get_or_create_policy_instance ctx (ps_cache s) ty).
Proof.
  intros H. unfold get_or_create_policy_instance.
  destruct (ps_cache s !! obj_name ty) as [i|] eqn:E; [by apply H|]. apply new_inst_ok.
Qed.

Lemma on_instance_advances {A} ctx ty value (m : M JsFunction engine A) s r s' : steady ctx m ->
  on_instance ctx ty value m s = (r, s') ->
  (cache_ok ctx s -> cache_ok ctx s') /\ forall ty', dirty_of ty' s ⊆ dirty_of ty' s'.
Proof.
  intros Hm H. unfold on_instance in H. destruct (m _) as [r' es] eqn:E. injection H as _ <-.
  specialize (Hm _ _ _ E). cbn in Hm. split.
  - intros Hok key i. cbn. destruct (decide (key = obj_name ty)) as [->|Hne].
    + rewrite lookup_insert_eq. intros [= <-]. by apply Hm, get_or_create_ok.
    + rewrite lookup_insert_ne by done. apply Hok.
  - intros ty'. unfold dirty_of. cbn. destruct (decide (obj_name ty' = obj_name ty)) as [->|Hne].
    + rewrite lookup_insert_eq. destruct Hm as [_ Hd _]. unfold get_or_create_policy_instance in Hd.
      destruct (ps_cache s !! obj_name ty) as [i|]; [done|]. set_solver.
    + by rewrite lookup_insert_ne.
Qed.

Lemma step_advances ctx s s' : step ctx s s' ->
  (cache_ok ctx s -> cache_ok ctx s') /\ forall ty, dirty_of ty s ⊆ dirty_of ty s'.
Proof.
  destruct 1 as [[ty value|ty value w] s]; cbn.
  - destruct (process_read ctx ty value s) as [r s'] eqn:E.
    eapply on_instance_advances; [apply steady_read|exact E].
  - destruct (process_write ctx ty value w s) as [r s'] eqn:E.
    eapply on_instance_advances; [apply steady_write|exact E].
Qed.

Lemma reachable_advances ctx s s' : reachable_from ctx s s' ->
  (cache_ok ctx s -> cache_ok ctx s') /\ forall ty, dirty_of ty s ⊆ dirty_of ty s'.
Proof.
  induction 1 as [s|s1 s2 s3 H1 _ [IH1 IH2]]; [done|].
  destruct (step_advances _ _ _ H1) as [H2 H3]. split; [auto|]. intros ty. etrans; [apply H3|apply IH2].
Qed.

Lemma empty_cache_ok ctx e : cache_ok ctx {| ps_engine := e; ps_cache := ∅ |}.
Proof. intros key i H. cbn in H. by rewrite lookup_empty in H. Qed.

Lemma on_instance_ok {A} ctx ty value (m : M JsFunction engine A) s a s' :
  on_instance ctx ty value m s = (Ok a, s') ->
  exists es, m {| es_engine := ps_engine s; es_inst := get_or_create_policy_instance ctx (ps_cache s) ty;
                  es_value := entity_map_to_js_value value |} = (Ok a, es) /\
    ps_engine s' = es_engine es /\ dirty_of ty s' = dirty (es_inst es).
Proof.
  unfold on_instance. destruct (m _) as [r es] eqn:E. intros [= -> <-]. exists es. split; [done|].
  split; [done|]. unfold dirty_of. cbn. by rewrite lookup_insert_eq.
Qed.

Lemma get_or_create_dirty ctx s ty :
  dirty (get_or_create_policy_instance ctx (ps_cache s) ty) = dirty_of ty s.
Proof. unfold get_or_create_policy_instance, dirty_of. by destruct (ps_cache s !! obj_name ty). Qed.

(** ** Types without policies *)

Definition unpoliced ctx (ty : ObjectType) : Prop := policies ctx !! obj_name ty = None.

Lemma unpoliced_registered ctx ty name : unpoliced ctx ty -> registered ctx (obj_name ty) name = None.
Proof. unfold unpoliced, registered. intros H. by destruct name; rewrite H. Qed.

Lemma unpoliced_load ctx ty name (es : eval_state JsFunction engine) :
  unpoliced ctx ty -> name <> Read -> inst_ok ctx (obj_name ty) (es_inst es) ->
  get_or_load ctx name es = (Ok None, es).
Proof.
  intros Hu Hn [Hk _ Hf]. unfold get_or_load, get_instance, mbind, M_bind.
  destruct (inst_functions (es_inst es) name) as [f|] eqn:E.
  { apply Hf in E. by rewrite unpoliced_registered in E. }
  unfold store_get. rewrite Hk, Hu. done.
Qed.

Lemma unpoliced_load_read ctx ty (es : eval_state JsFunction engine) :
  unpoliced ctx ty -> inst_ok ctx (obj_name ty) (es_inst es) ->
  get_or_load_read ctx es = (Ok None, es).
Proof.
  intros Hu [Hk Hr _]. unfold get_or_load_read, get_instance, mbind, M_bind.
  destruct (inst_read (es_inst es)) as [i|] eqn:E.
  { specialize (Hr i eq_refl). by rewrite unpoliced_registered in Hr. }
  unfold store_get. rewrite Hk, Hu. done.
Qed.

Lemma unpoliced_read_steps ctx ty value (es : eval_state JsFunction engine) :
  unpoliced ctx ty -> inst_ok ctx (obj_name ty) (es_inst es) ->
  es_value es = entity_map_to_js_value value -> representable (EvMap value) -> no_nan (EvMap value) ->
  read_steps ctx ty value es = (Ok (Some value), es).
Proof.
  intros Hu Hok Hv Hrep Hnan. pose proof (survives _ Hrep) as Hsurv.
  change (entity_value_to_js_value (EvMap value)) with (entity_map_to_js_value value) in Hsurv.
  unfold read_steps, get_read_action, transform_on_read, transform, finish_read, get_js_value, lift, mbind, M_bind.
  rewrite (unpoliced_load_read ctx ty) by done. cbn.
  rewrite (unpoliced_load ctx ty) by done. cbn. rewrite Hv, Hsurv. cbn.
  unfold map_eqb. by rewrite ev_eqb_refl.
Qed.

Lemma unpoliced_write_steps ctx ty value w (es : eval_state JsFunction engine) :
  unpoliced ctx ty -> inst_ok ctx (obj_name ty) (es_inst es) ->
  es_value es = entity_map_to_js_value value -> representable (EvMap value) ->
  (w = Engine.Update -> exists id, entity_id value = Ok id /\ id ∉ dirty (es_inst es)) ->
  write_steps ctx ty value w es = (Ok (value, None), es).
Proof.
  intros Hu Hok Hv Hrep Hid. pose proof (survives _ Hrep) as Hsurv.
  change (entity_value_to_js_value (EvMap value)) with (entity_map_to_js_value value) in Hsurv.
  assert (forall name, name <> Read -> get_write_action ctx name es = (Ok None, es)) as Hact.
  { intros name Hn. unfold get_write_action, get_read_action, mbind, M_bind.
    rewrite (unpoliced_load_read ctx ty) by done. cbn. by rewrite (unpoliced_load ctx ty). }
  assert (write_action ctx ty value w es = (Ok None, es)) as Hwrite.
  { destruct w; [by apply Hact|]. destruct (Hid eq_refl) as (id & Hi & Hd).
    unfold write_action, lift, get_instance, mbind, M_bind. rewrite Hi. unfold is_dirty.
    rewrite bool_decide_false by done. by apply Hact. }
  unfold write_steps, mbind, M_bind. rewrite Hwrite. unfold geo_loc, mbind, M_bind.
  rewrite (unpoliced_load ctx ty) by done. cbn.
  destruct w; unfold transform_on_create, transform_on_update, transform, mbind, M_bind, get_js_value, lift;
    rewrite (unpoliced_load ctx ty) by done; cbn; by rewrite Hv, Hsurv.
Qed.

(** ** Streams *)

(** What a consumer gets from [n] polls. *)
Fixpoint polls ctx (ty : ObjectType) (n : nat) (stream : list (Poll (result EntityMap))) s
    : list (Poll (option (result EntityMap))) :=
  match n with
  | O => []
  | S n => let '(p, stream, s) := poll_next ctx ty stream s in p :: polls ctx ty n stream s
  end.

(** What the items of the inner stream become, one after the other. *)
Fixpoint validated ctx (ty : ObjectType) (items : list (result EntityMap)) s : list (result EntityMap) :=
  match items with
  | [] => []
  | Ok value :: items =>
      let '(r, s) := process_read ctx ty value s in
      match r with
      | Ok (Some v) => Ok v :: validated ctx ty items s
      | Ok None => validated ctx ty items s
      | Err e => Err e :: validated ctx ty items s
      | Panic w => Panic w :: validated ctx ty items s
      end
  | x :: items => x :: validated ctx ty items s
  end.

Definition ready_items {A} (l : list (Poll A)) : list A :=
  omap (fun p => match p with Ready a => Some a | Pending => None end) l.

Lemma polls_deliver ctx ty stream : forall s,
  ready_items (polls ctx ty (S (List.length stream)) stream s)
  = map Some (validated ctx ty (ready_items stream) s) ++ [None].
Proof.
  induction stream as [|p stream IH]; intros s; [done|].
  change (polls ctx ty (S (List.length (p :: stream))) (p :: stream) s)
    with (let '(q, stream', s') := poll_next ctx ty (p :: stream) s in
          q :: polls ctx ty (S (List.length stream)) stream' s').
  destruct p as [[value|e|w]|]; cbn [poll_next ready_items omap list_omap validated].
  - destruct (process_read ctx ty value s) as [[[v|]|e|w] s']; cbn [omap list_omap map app];
      try (f_equal); apply IH.
  - cbn. f_equal. apply IH.
  - cbn. f_equal. apply IH.
  - cbn. apply IH.
Qed.
End Cache.

(** ** Properties *)

Section Properties.
Context {B : Boa} {BL : BoolLib} {JsFunction engine : Type} {JC : JsCalls JsFunction engine}.
Implicit Types (ctx : PolicyContext JsFunction) (s : process_state JsFunction engine).

(** The situation in which the policies of a type are first called for an
    entity: on the entity's object, and on the request's object as the type's
    earlier calls left it. *)
Definition situation_of ctx (ty : ObjectType) (value : EntityMap) s : situation engine :=
  (entity_map_to_js_value value, chisel_ctx (get_or_create_policy_instance ctx (ps_cache s) ty), ps_engine s).

(** C2: nothing is read or written past a policy.  After any operations in a
    request context, an entity that is delivered passed the read policy
    registered for its type: called on the entity, it returned [Allow] or [Log]
    (where one is registered).  What is delivered is the entity's object as the
    read policy and then the [onRead] function left it.  An entity that is
    written passed the read policy on the entity that was given, and then the
    create (or update) policy on that same object; what is written is this object
    as the two policies, the [geoLoc] function and then the [onCreate] (or
    [onUpdate]) function left it, and one that is updated is not dirty.  The
    functions in the cache are the registered ones throughout. *)
Theorem policies_enforced ctx s e : reachable_from ctx {| ps_engine := e; ps_cache := ∅ |} s ->
  (forall ty value v s', process_read ctx ty value s = (Ok (Some v), s') ->
     let policy := registered ctx (obj_name ty) in
     let st := situation_of ctx ty value s in
     passes (policy Read) st /\
     entity_in (after (policy OnRead) (after (policy Read) st)) = Ok v) /\
  (forall ty value w r s', process_write ctx ty value w s = (Ok r, s') ->
     let policy := registered ctx (obj_name ty) in
     let st := situation_of ctx ty value s in
     let st1 := after (policy Read) st in
     let st2 := after (policy (write_name w)) st1 in
     passes (policy Read) st /\ passes (policy (write_name w)) st1 /\
     entity_in (after (policy (transform_name w)) (after (policy GeoLoc) st2)) = Ok r.1 /\
     (w = Engine.Update -> exists id, entity_id value = Ok id /\ id ∉ dirty_of ty s)) /\
  cache_ok ctx s.
Proof.
  intros Hreach. destruct (reachable_advances _ _ _ Hreach) as [Hok _].
  specialize (Hok (empty_cache_ok ctx e)). split; [|split]; [| |done].
  - intros ty value v s' H policy st. apply on_instance_ok in H as (es & H & _ & _).
    apply (read_steps_spec _ _ (obj_name ty)) in H as (H1 & H2 & H3); [|by apply get_or_create_ok].
    split; [exact H1|]. unfold policy, st, situation_of. by rewrite <- H2, H3.
  - intros ty value w r s' H policy st st1 st2. apply on_instance_ok in H as (es & H & _ & _).
    apply (write_steps_spec _ _ (obj_name ty)) in H as (H1 & H2 & H3 & H4 & H5); [|by apply get_or_create_ok].
    rewrite <- get_or_create_dirty with (ctx := ctx). split; [exact H1|]. split; [exact H2|]. split; [|exact H5].
    rewrite <- H3, H4. done.
Qed.

(** C3: what a policy transformed is never written back.  Once a read changes
    an entity, every later update of an entity with its id is refused as dirty,
    whatever reads and writes of whatever types come in between. *)
Theorem transformed_never_updated ctx s s1 s2 ty value v id :
  process_read ctx ty value s = (Ok (Some v), s1) -> map_eqb v value = false -> entity_id value = Ok id ->
  reachable_from ctx s1 s2 ->
  forall value', entity_id value' = Ok id ->
    (process_write ctx ty value' Engine.Update s2).1 = Err (DirtyEntity ty).
Proof.
  intros H Hne Hid Hreach value' Hid'. apply on_instance_ok in H as (es & H & _ & Hd).
  assert (id ∈ dirty_of ty s2) as Hdirty.
  { apply (reachable_advances _ _ _ Hreach). rewrite Hd. by eapply read_steps_dirty. }
  unfold process_write, on_instance. rewrite <- get_or_create_dirty with (ctx := ctx) in Hdirty.
  match goal with |- context [write_steps ctx ty value' Engine.Update ?es0] =>
    pose proof (write_steps_dirty ctx ty value' es0 id Hid' Hdirty) as Hw;
    destruct (write_steps ctx ty value' Engine.Update es0) as [r es'] end.
  exact Hw.
Qed.

(** A type without policies is transparent.  Its entities are read and
    written unchanged, nothing is marked dirty and the engine is not called: for
    every entity whose values the engine represents, without a [NaN] (a read
    entity with a [NaN] does not equal itself and becomes dirty). *)
Theorem unpoliced_transparent ctx s ty value : cache_ok ctx s -> unpoliced ctx ty ->
  representable (EvMap value) ->
  (no_nan (EvMap value) -> exists s', process_read ctx ty value s = (Ok (Some value), s') /\
     ps_engine s' = ps_engine s /\ dirty_of ty s' = dirty_of ty s) /\
  forall w, (w = Engine.Update -> exists id, entity_id value = Ok id /\ id ∉ dirty_of ty s) ->
    exists s', process_write ctx ty value w s = (Ok (value, None), s') /\
      ps_engine s' = ps_engine s /\ dirty_of ty s' = dirty_of ty s.
Proof.
  intros Hok Hu Hrep. pose proof (get_or_create_ok ctx s ty Hok) as Hi.
  rewrite <- get_or_create_dirty with (ctx := ctx). split; [intros Hnan|intros w Hw].
  - unfold process_read, on_instance. rewrite (unpoliced_read_steps ctx ty) by done.
    eexists. split; [reflexivity|]. split; [done|]. unfold dirty_of. cbn. by rewrite lookup_insert_eq.
  - unfold process_write, on_instance. rewrite (unpoliced_write_steps ctx ty) by done.
    eexists. split; [reflexivity|]. split; [done|]. unfold dirty_of. cbn. by rewrite lookup_insert_eq.
Qed.

(** A validated stream comes to its end and delivers every entity.  Polled
    once more than the inner stream has polls, it gives, in order, what
    [process_read] makes of each entity (an entity, or the error), and then
    ends; a skipped entity only makes it pending, and stops nothing. *)
Theorem stream_delivers ctx ty stream s :
  ready_items (polls ctx ty (S (List.length stream)) stream s)
  = map Some (validated ctx ty (ready_items stream) s) ++ [None].
Proof. apply polls_deliver. Qed.
End Properties.

Module ProcessSample.
Import JsSample.

(** Two functions: one that allows, one that renames the entity. *)
Inductive function := AllowAll | Rename.
Definition renamed (v : JsValue) : JsValue :=
  match v with JsObject props => JsObject (js_set (KString "name") (JsString "bob") props) | _ => v end.
#[export] Instance calls : JsCalls function unit := {
  js_call f args e :=
    match f, args with
    | Rename, [v; c] => (Returned v, [renamed v; c], e)
    | _, _ => (Returned (JsInteger 0), args, e)
    end;
  js_error_message _ := None;
}.
#[export] Instance no_library : BoolLib := { bool_simplify b := [b] }.

Definition person : ObjectType := {|
  obj_meta_id := None; obj_name := "Person"; obj_fields := []; obj_indexes := [];
  obj_chisel_id := {| fld_id := None; fld_name := "id"; fld_type_id := IdString; fld_labels := [];
    fld_default := None; fld_effective_default := None; fld_is_optional := false; fld_is_unique := true;
    fld_version_id := "dev" |};
  obj_backing_table := "ty_person"; obj_version_id := "dev" |}.

Definition allow_all : ReadPolicy function := {|
  rp_filter := None; rp_predicates := []; rp_env := []; rp_ctx_param_name := "ctx";
  rp_entity_param_name := "person"; rp_function := AllowAll |}.
Definition ctx : PolicyContext function := {|
  policies := {[ "Person" := {| read := Some allow_all; create := None; update := None; geoloc := None;
    on_read := Some Rename; on_create := None; on_update := None |} ]};
  request := {| method := "GET"; path := "/dev/people"; headers := []; user_id := None; token := None |} |}.
Definition start : process_state function unit := {| ps_engine := (); ps_cache := ∅ |}.
Definition alice : EntityMap := [("id", EvString "1"); ("name", EvString "alice")].
Definition free : ObjectType := {|
  obj_meta_id := None; obj_name := "Free"; obj_fields := []; obj_indexes := [];
  obj_chisel_id := obj_chisel_id person; obj_backing_table := "ty_free"; obj_version_id := "dev" |}.
End ProcessSample.

#[local] Existing Instance ProcessSample.calls.
#[local] Existing Instance ProcessSample.no_library.

Lemma policies_enforced_witness :
  exists v s', process_read (B := JsSample.boa) ProcessSample.ctx ProcessSample.person ProcessSample.alice
      ProcessSample.start = (Ok (Some v), s') /\
    exists c, permits ProcessSample.AllowAll (entity_map_to_js_value (B := JsSample.boa) ProcessSample.alice) c () /\
    entity_in (after (Some ProcessSample.Rename) (after (Some ProcessSample.AllowAll)
      (entity_map_to_js_value (B := JsSample.boa) ProcessSample.alice, c, ()))) = Ok v.
Proof.
  destruct (process_read (B := JsSample.boa) ProcessSample.ctx ProcessSample.person ProcessSample.alice
    ProcessSample.start) as [r s'] eqn:E.
  assert (r = Ok (Some [("id", EvString "1"); ("name", EvString "bob")])) as ->.
  { change r with ((r, s').1). rewrite <- E. vm_compute. reflexivity. }
  eexists _, s'. split; [reflexivity|].
  destruct (proj1 (policies_enforced (B := JsSample.boa) ProcessSample.ctx ProcessSample.start ()
    (rtc_refl _ _)) _ _ _ _ E) as [H1 H2].
  eexists. split; [exact H1|exact H2].
Defined.

Lemma transformed_never_updated_witness :
  (process_write (B := JsSample.boa) ProcessSample.ctx ProcessSample.person ProcessSample.alice Engine.Update
     (process_read (B := JsSample.boa) ProcessSample.ctx ProcessSample.person ProcessSample.alice
        ProcessSample.start).2).1 = Err (DirtyEntity ProcessSample.person).
Proof.
  destruct (process_read (B := JsSample.boa) ProcessSample.ctx ProcessSample.person ProcessSample.alice
    ProcessSample.start) as [r s'] eqn:E.
  assert (r = Ok (Some [("id", EvString "1"); ("name", EvString "bob")])) as ->.
  { change r with ((r, s').1). rewrite <- E. vm_compute. reflexivity. }
  apply (transformed_never_updated (B := JsSample.boa) _ _ _ s' _ _ _ "1" E); [vm_compute; reflexivity..| |reflexivity].
  apply rtc_refl.
Defined.

Lemma unpoliced_transparent_witness :
  exists s', process_write (B := JsSample.boa) ProcessSample.ctx ProcessSample.free ProcessSample.alice Engine.Create
    ProcessSample.start = (Ok (ProcessSample.alice, None), s').
Proof.
  destruct (unpoliced_transparent (B := JsSample.boa) ProcessSample.ctx ProcessSample.start ProcessSample.free
    ProcessSample.alice) as [_ H].
  - apply empty_cache_ok.
  - vm_compute. reflexivity.
  - cbn. repeat split; try tauto. apply (bool_decide_unpack _). by vm_compute.
  - destruct (H Engine.Create ltac:(discriminate)) as (s' & Hs & _). by exists s'.
Defined.
