(* ===== verification/ControlFlow.v ===== *)
(** * Control flow of policy functions ([chiselc/src/tools])

    [analysis/control_flow.rs]: the flow graph of a function's body.
    [analysis/region.rs]: the regions of a flow graph.  [functions.rs]: parsing an
    arrow function.  And [Policies::parse] ([policies.rs]), which makes the
    policies of an entity from the module that exports them. *)

From S2P Require Import Prelude Json PolicyRules.

(** ** Graphs ([petgraph])

    A node is its index; edges in the order they were added.  The edges of a
    node are iterated from the most recent one. *)

Inductive Edge := ETrue | EFalse | EFlow.
Inductive Node := NStmt | NStart | NEnd.

Record CfgGraph := { g_nodes : list Node; g_edges : list (nat * nat * Edge) }.

Definition add_node (node : Node) (g : CfgGraph) : CfgGraph * nat :=
  ({| g_nodes := g_nodes g ++ [node]; g_edges := g_edges g |}, List.length (g_nodes g)).

Definition add_edge (from to : nat) (edge : Edge) (g : CfgGraph) : CfgGraph :=
  {| g_nodes := g_nodes g; g_edges := g_edges g ++ [(from, to, edge)] |}.

(** [Graph::edges]: the targets and weights of the outgoing edges. *)
Definition edges (g : CfgGraph) (idx : nat) : list (nat * Edge) :=
  rev ((fun e => (e.1.2, e.2)) <$> filter (fun e => e.1.1 = idx) (g_edges g)).

Definition neighbors (g : CfgGraph) (idx : nat) : list nat := (edges g idx).*1.

(** [neighbors_directed(idx, Incoming)] *)
Definition incoming (g : CfgGraph) (idx : nat) : list nat :=
  rev ((fun e => e.1.1) <$> filter (fun e => e.1.2 = idx) (g_edges g)).

(** ** The builder of the flow graph *)

Record CFGBuilder := {
  inner : CfgGraph;
  previous : nat;
  map : StmtMap;
  end_ : nat;
}.

Definition with_graph (g : CfgGraph) (b : CFGBuilder) : CFGBuilder :=
  {| inner := g; previous := previous b; map := map b; end_ := end_ b |}.

Definition merge_out (from : list (nat * Edge)) (to : nat) (b : CFGBuilder) : CFGBuilder :=
  foldl (fun b '(root, edge) => with_graph (add_edge root to edge (inner b)) b) b from.

Definition add_stmt_node (stmt : Stmt) (b : CFGBuilder) : CFGBuilder * nat :=
  let '(g, idx) := add_node NStmt (inner b) in
  ({| inner := g; previous := idx; map := <[idx := stmt]> (map b); end_ := end_ b |}, idx).

Abbreviation outs := (list (nat * Edge)).

(** One turn of the loop of [block]. *)
Definition block_step (stmt : CFGBuilder -> Stmt -> result (CFGBuilder * (nat * outs)))
    (s : CFGBuilder * option nat * option outs) (x : Stmt)
    : result (CFGBuilder * option nat * option outs) :=
  let '(b, root, current) := s in
  '(b, (idx, o)) ← stmt b x;
  match root, current with
  | None, None => Ok (b, Some idx, Some o)
  | _, Some curr => Ok (merge_out curr idx b, root, Some o)
  | _, _ => Panic "internal error: entered unreachable code"
  end.

Fixpoint cfg_stmt (b : CFGBuilder) (stmt : Stmt) {struct stmt} : result (CFGBuilder * (nat * outs)) :=
  match stmt with
  | SBlock stmts =>
      '(b, root, current) ← foldM (block_step (fun b x => cfg_stmt b x)) (b, None, None) stmts;
      Ok (b, (default (previous b) root, default [] current))
  | SIf _ cons_stmt alt =>
      let '(b, root) := add_stmt_node stmt b in
      '(b, (cons_root, cons_out)) ← cfg_stmt b cons_stmt;
      let b := with_graph (add_edge root cons_root ETrue (inner b)) b in
      match alt with
      | Some alt =>
          '(b, (alt_root, alt_out)) ← cfg_stmt b alt;
          if negb (previous b =? end_ b)
          then Ok (with_graph (add_edge root alt_root EFalse (inner b)) b, (root, cons_out ++ alt_out))
          else Ok (b, (root, cons_out))
      | None => Ok (b, (root, cons_out ++ [(root, EFalse)]))
      end
  | SExpr | SDeclVar | SDeclOther | SEmpty =>
      let '(b, idx) := add_stmt_node stmt b in
      Ok (b, (idx, [(idx, EFlow)]))
  | SReturn _ =>
      let '(b, idx) := add_stmt_node stmt b in
      Ok (with_graph (add_edge idx (end_ b) EFlow (inner b)) b, (idx, []))
  | SUnsupported => bail "unsupported statement type"
  end.

Definition block (b : CFGBuilder) (stmts : list Stmt) : result (CFGBuilder * (nat * outs)) :=
  '(b, root, current) ← foldM (block_step cfg_stmt) (b, None, None) stmts;
  Ok (b, (default (previous b) root, default [] current)).

Record ControlFlow := { cf_graph : CfgGraph; cf_start : nat; cf_end : nat }.

Definition build (stmts : list Stmt) : result (ControlFlow * StmtMap) :=
  let '(g, start) := add_node NStart {| g_nodes := []; g_edges := [] |} in
  let '(g, e) := add_node NEnd g in
  '(b, (root, o)) ← block {| inner := g; previous := start; map := ∅; end_ := e |} stmts;
  let b := with_graph (add_edge start root EFlow (inner b)) b in
  let b := merge_out o e b in
  Ok ({| cf_graph := inner b; cf_start := start; cf_end := e |}, map b).

(** ** Regions *)

Inductive StmtKind := KConditional | KLoop | KBBComponent | KIgnore.

(** [petgraph::algo::dominators]: the strict dominators of a node, from the
    root; [None] for a node that the root does not reach. *)
Class Dominators := {
  strict_dominators : CfgGraph -> nat -> nat -> option (list nat);
}.

Section Regions.
Context {DM : Dominators} (cfg : ControlFlow) (visitor : nat -> result StmtKind).

Notation graph := (cf_graph cfg).

(** The true and the false target of a conditional node. *)
Definition get_cond_targets (idx : nat) : result (nat * nat) :=
  match edges graph idx with
  | [fst; snd] =>
      match fst.2, snd.2 with
      | ETrue, EFalse => Ok (fst.1, snd.1)
      | EFalse, ETrue => Ok (snd.1, fst.1)
      | _, _ => Panic "invalid if node branches"
      end
  | [] | [_] => Panic "invalid conditional node"
  | _ => Panic "invalid conditional node!"
  end.

Definition is_leader (idx : nat) : bool :=
  bool_decide (head (incoming graph idx) = Some (cf_start cfg))
  || (idx =? cf_end cfg)
  || (1 <? List.length (incoming graph idx))
  || (1 <? List.length (neighbors graph idx)).

(** The loop that gathers the statements of a basic block; a cycle of nodes
    that are no leaders would not end. *)
Fixpoint basic_block_loop (fuel : nat) (out : list nat) (current : nat) : result (list nat * nat) :=
  match fuel with
  | O => Panic "out of fuel"
  | S fuel =>
      if is_leader current then Ok (out, current)
      else
        next ← unwrap (head (neighbors graph current)) "called `Option::unwrap()` on a `None` value";
        basic_block_loop fuel (out ++ [current]) next
  end.

Definition make_basic_block (fuel : nat) (root : nat) : result (option Region * nat) :=
  if root =? cf_end cfg then Ok (None, root)
  else
    current ← unwrap (head (neighbors graph root)) "called `Option::unwrap()` on a `None` value";
    '(out, current) ← basic_block_loop fuel [root] current;
    Ok (Some (BasicBlock out), current).

Definition region_or_empty (r : option Region) : Region := default (BasicBlock []) r.

(** The cases of [make_region], [make_seq_region] being the recursive call. *)
Definition make_cond_region (make_seq_region : nat -> result (option Region * nat)) (idx : nat)
    : result (option Region * nat) :=
  '(cons_idx, alt_idx) ← get_cond_targets idx;
  '(cons_region, cons_end) ← make_seq_region cons_idx;
  '(alt_region, alt_end) ← make_seq_region alt_idx;
  _ ← rust_assert (cons_end =? alt_end) "the two branching region should flow into the same node.";
  Ok (Some (RCond (BasicBlock [idx]) (region_or_empty cons_region) (region_or_empty alt_region)),
      cons_end).

Definition make_region (fuel : nat) (make_seq_region : nat -> result (option Region * nat)) (root : nat)
    : result (option Region * nat) :=
  if root =? cf_end cfg then Ok (None, root)
  else
    match g_nodes graph !! root with
    | Some NStmt =>
        stmt ← visitor root;
        match stmt with
        | KBBComponent => make_basic_block fuel root
        | KConditional => make_cond_region make_seq_region root
        | _ => Panic "not implemented: unsupported statement"
        end
    | Some _ => Panic "There should not be an end of the cfg reaching here."
    | None => Panic "index out of bounds"
    end.

(** The loop of [make_seq_region]. *)
Fixpoint seq_loop (fuel : nat) (make : nat -> result (option Region * nat)) (root : nat)
    (regions : list Region) (current : nat) : result (list Region * nat) :=
  match fuel with
  | O => Panic "out of fuel"
  | S fuel =>
      '(region, next) ← make current;
      match region with
      | None => Ok (regions, current)
      | Some region =>
          doms ← unwrap (strict_dominators graph (cf_start cfg) next)
                   "called `Option::unwrap()` on a `None` value";
          if existsb (Nat.eqb root) doms then seq_loop fuel make root (regions ++ [region]) next
          else Ok (regions ++ [region], next)
      end
  end.

(** The recursion follows the graph: a fuel, which a cyclic graph exhausts. *)
Fixpoint make_seq_region (fuel : nat) (root : nat) : result (option Region * nat) :=
  match fuel with
  | O => Panic "out of fuel"
  | S fuel =>
      '(regions, current) ← seq_loop (S fuel) (make_region (S fuel) (make_seq_region fuel)) root [] root;
      Ok (match regions with
          | [] => None
          | r :: rs => Some (foldl RSeq r rs)
          end, current)
  end.

Definition from_cfg (fuel : nat) : result Region :=
  root ← unwrap (head (neighbors graph (cf_start cfg))) "called `Option::unwrap()` on a `None` value";
  '(maybe_region, e) ← make_seq_region fuel root;
  _ ← rust_assert (e =? cf_end cfg) "we should have reached the end of the CFG";
  Ok (region_or_empty maybe_region).

End Regions.

(** ** Parsing a function *)

Definition stmt_kind (m : StmtMap) (idx : nat) : result StmtKind :=
  stmt ← stmt_at m idx;
  match stmt with
  | SIf _ _ _ => Ok KConditional
  | SBlock _ | SEmpty => Ok KIgnore
  | SDeclVar | SExpr | SReturn _ => Ok KBBComponent
  | _ => Panic "not implemented"
  end.

Section Parse.
Context {DM : Dominators} {BL : BoolLib} {SW : Swc}.

(** [ArrowFunction::parse] *)
Definition parse_arrow (fuel : nat) (arrow : ArrowExpr) : result ArrowFunction :=
  match ar_body arrow with
  | inl stmts =>
      '(cfg, stmt_map) ← build stmts;
      regions ← from_cfg cfg (stmt_kind stmt_map) fuel;
      Ok {| orig := arrow; stmt_map := stmt_map; regions := regions |}
  | inr _ => Panic "not yet implemented"
  end.

(** ** The policies of a module

    The parts of a module that matter: the properties of the object it exports
    as default. *)

Inductive PropName := PnIdent (sym : string) | PnOther.
Inductive PropValue := PvArrow (arrow : ArrowExpr) | PvOther.
Inductive Prop_ := PropKeyValue (key : PropName) (value : PropValue) | PropOther | PropSpread.

Inductive ModuleItem :=
  | ExportDefaultObject (props : list Prop_)
  | ExportDefaultOther
  | OtherDecl
  | ModuleStmt.

Definition Policies := list (PolicyName * Policy).

#[export] Instance PolicyName_eq_dec : EqDecision PolicyName.
Proof. solve_decision. Defined.

(** [HashMap::insert]: the entry takes the place of one with its key. *)
Definition policies_insert (name : PolicyName) (p : Policy) (ps : Policies) : Policies :=
  filter (fun e => e.1 <> name) ps ++ [(name, p)].

Definition is_filter_name (name : PolicyName) : bool :=
  match name with Read | Create | Update => true | _ => false end.

Definition policy_body (fuel : nat) (name : PolicyName) (value : PropValue) : result Policy :=
  match value with
  | PvArrow arrow =>
      if is_filter_name name
      then arrow_func ← parse_arrow fuel arrow; PFilter <$> from_arrow arrow_func
      else PTransform <$> emit_arrow_js_code arrow
  | PvOther => bail "Only arrow functions are supported in policies"
  end.

Definition add_prop (fuel : nat) (policies : Policies) (prop : Prop_) : result Policies :=
  match prop with
  | PropKeyValue key value =>
      match key with
      | PnIdent sym =>
          match policy_name_from_str sym with
          | Ok policy_name =>
              body ← policy_body fuel policy_name value;
              Ok (policies_insert policy_name body policies)
          | Err _ => Ok policies
          | Panic w => Panic w
          end
      | PnOther => bail "expected property!"
      end
  | PropOther => bail "unexpexted property in policy object"
  | PropSpread => bail "expexted property"
  end.

Definition policies_parse (fuel : nat) (module : list ModuleItem) : result Policies :=
  foldM (fun policies item =>
    match item with
    | ExportDefaultObject props => foldM (add_prop fuel) policies props
    | ExportDefaultOther => bail "default export for policies should be an object."
    | OtherDecl | ModuleStmt => Ok policies
    end) [] module.

(** [Policies::parse_code]: the text must be UTF-8, and is parsed by [swc]. *)
Class SwcParser := {
  valid_utf8 : string -> bool;
  swc_parse : string -> result (list ModuleItem);
}.

Definition parse_code {SP : SwcParser} (fuel : nat) (code : string) : result Policies :=
  _ ← ensure (valid_utf8 code) "the provided code is not valid UTF-8";
  module ← swc_parse code;
  policies_parse fuel module.
End Parse.
