(* ===== verification/ControlFlowSpec.v ===== *)
(** * The regions of a policy function mean what its statements do

    [run_function] gives the body of a function its meaning on the syntax.  For
    functions made of [if], [return] and non-empty blocks, which are all the rest
    of the analysis accepts, parsing succeeds and the regions have the same
    meaning; an empty block breaks it. *)

From S2P Require Import Prelude Json EntityValue JsValue PolicyRules RulesSpec ControlFlow.

(** ** Meaning of statements *)

Section Exec.
Context {B : Boa}.

Definition return_value (arg : option JsExpr) : option Action :=
  match arg with
  | Some (JsMember (JsIdent obj) prop) =>
      if String.eqb obj "Action" then ok_option (action_of_name prop) else None
  | _ => None
  end.

(** [None]: no meaning; [Some None]: the end is reached; [Some (Some a)]: [a] is
    returned. *)
Fixpoint exec_stmt (r : scope) (s : Stmt) : option (option Action) :=
  match s with
  | SIf test cons_stmt alt =>
      v ← js_eval r test;
      if to_boolean v then exec_stmt r cons_stmt
      else match alt with Some alt => exec_stmt r alt | None => Some None end
  | SBlock stmts =>
      (fix exec_list l :=
         match l with
         | [] => Some None
         | s :: l => match exec_stmt r s with Some None => exec_list l | o => o end
         end) stmts
  | SReturn arg => Some <$> return_value arg
  | SExpr | SDeclVar | SDeclOther | SEmpty => Some None
  | SUnsupported => None
  end.

Definition exec_list (r : scope) (l : list Stmt) : option (option Action) := exec_stmt r (SBlock l).

(** What a call returns; [Deny] when it returns nothing. *)
Definition run_function (r : scope) (body : list Stmt) : option Action :=
  match exec_list r body with
  | Some (Some a) => Some a
  | Some None => Some Deny
  | None => None
  end.

Definition andThen (o : option (option Action)) (k : option Action) : option Action :=
  match o with
  | Some (Some a) => Some a
  | Some None => k
  | None => None
  end.

Definition andThen_seq (o1 o2 : option (option Action)) : option (option Action) :=
  match o1 with Some None => o2 | o => o end.

Lemma andThen_assoc o1 o2 k : andThen (andThen_seq o1 o2) k = andThen o1 (andThen o2 k).
Proof. by destruct o1 as [[a|]|]. Qed.

End Exec.

(** ** The functions the analysis is made for *)

Fixpoint pure_stmt (s : Stmt) : bool :=
  match s with
  | SIf _ cons_stmt alt =>
      pure_stmt cons_stmt && match alt with Some alt => pure_stmt alt | None => true end
  | SBlock stmts => negb (bool_decide (stmts = [])) && forallb pure_stmt stmts
  | SReturn _ => true
  | _ => false
  end.

Section Induction.
Context (P : Stmt -> Prop)
  (HIf : forall t c alt, P c -> match alt with Some a => P a | None => True end -> P (SIf t c alt))
  (HBlock : forall l, Forall P l -> P (SBlock l))
  (HOther : forall s, match s with SIf _ _ _ | SBlock _ => False | _ => True end -> P s).

Fixpoint stmt_nested_ind (s : Stmt) : P s.
Proof.
  destruct s as [t c alt|l|arg| | | | |]; try (apply HOther; exact I).
  - apply HIf; [apply stmt_nested_ind|]. destruct alt; [apply stmt_nested_ind|exact I].
  - apply HBlock. induction l as [|x l IH]; constructor; [apply stmt_nested_ind|exact IH].
Qed.
End Induction.

(** ** Decision trees in a graph *)

Definition out_edges (l : list (nat * nat * Edge)) (n : nat) : list (nat * Edge) :=
  (fun e => (e.1.2, e.2)) <$> filter (fun e => e.1.1 = n) l.

Lemma edges_rev g n : edges g n = rev (out_edges (g_edges g) n).
Proof. done. Qed.

Lemma out_edges_app l l' n : out_edges (l ++ l') n = out_edges l n ++ out_edges l' n.
Proof. unfold out_edges. by rewrite filter_app, fmap_app. Qed.

Lemma out_edges_none l n : Forall (fun e => e.1.1 <> n) l -> out_edges l n = [].
Proof.
  unfold out_edges. induction 1 as [|e l He _ IH]; [done|]. by rewrite filter_cons_False.
Qed.

(** The edges that the ends of a piece of the graph get to their target. *)
Definition outs_to (o : outs) (t n : nat) : list (nat * Edge) :=
  (fun e => (t, e.2)) <$> filter (fun e => e.1 = n) o.

Inductive tree (g : CfgGraph) (m : StmtMap) (e : nat) : nat -> option Region -> nat -> Prop :=
  | tree_end h : tree g m e e None h
  | tree_return n arg h :
      m !! n = Some (SReturn arg) -> g_nodes g !! n = Some NStmt -> n <> e ->
      out_edges (g_edges g) n = [(e, EFlow)] ->
      tree g m e n (Some (BasicBlock [n])) (S h)
  | tree_if n test c alt cn an rc ra h :
      m !! n = Some (SIf test c alt) -> g_nodes g !! n = Some NStmt -> n <> e ->
      out_edges (g_edges g) n = [(cn, ETrue); (an, EFalse)] ->
      tree g m e cn rc h -> tree g m e an ra h ->
      tree g m e n (Some (RCond (BasicBlock [n]) (region_or_empty rc) (region_or_empty ra))) (S h).

Lemma tree_higher g m e n r h h' : tree g m e n r h -> h <= h' -> tree g m e n r h'.
Proof.
  intros Ht. revert h'. induction Ht as [h|n arg h|n test c alt cn an rc ra h Hm Hn Hne Ho _ IHc _ IHa];
    intros h' Hle; [constructor|destruct h'; [lia|by econstructor]|].
  destruct h' as [|h']; [lia|]. econstructor; try done; [apply IHc|apply IHa]; lia.
Qed.

Definition flows (g : CfgGraph) (a b : nat) : Prop := b ∈ neighbors g a.

(** [strict_dominators] finds every node the root reaches. *)
Class DominatorLaws {DM : Dominators} := {
  strict_dominators_reached : forall g root n, rtc (flows g) root n ->
    is_Some (strict_dominators g root n);
}.

Lemma tree_reaches g m e n r h : tree g m e n r h -> rtc (flows g) n e.
Proof.
  induction 1 as [|n arg h _ _ _ Ho|n test c alt cn an rc ra h _ _ _ Ho _ IHc _ _]; [done| |].
  - apply rtc_once. unfold flows, neighbors. rewrite edges_rev, Ho. by left.
  - eapply rtc_l; [|exact IHc]. unfold flows, neighbors. rewrite edges_rev, Ho. cbn. right. by left.
Qed.

Section Make.
Context {DM : Dominators} (cfg : ControlFlow) (m : StmtMap).
Notation graph := (cf_graph cfg).
Notation e := (cf_end cfg).
Context (Hdom : is_Some (strict_dominators graph (cf_start cfg) e)).

Lemma make_seq_region_S v fuel root : make_seq_region cfg v (S fuel) root =
  ('(regions, current) ← seq_loop cfg (S fuel) (make_region cfg v (S fuel) (make_seq_region cfg v fuel)) root [] root;
   Ok (match regions with [] => None | r :: rs => Some (foldl RSeq r rs) end, current)).
Proof. done. Qed.

Lemma make_region_end fuel make : make_region cfg (stmt_kind m) fuel make e = Ok (None, e).
Proof. unfold make_region. by rewrite Nat.eqb_refl. Qed.

(** After a region that ends at the end there is nothing more to find. *)
Lemma seq_loop_once fuel make root region :
  make_region cfg (stmt_kind m) (S (S fuel)) make root = Ok (Some region, e) ->
  seq_loop cfg (S (S fuel)) (make_region cfg (stmt_kind m) (S (S fuel)) make) root [] root =
    Ok ([region], e).
Proof.
  intros H. destruct Hdom as [doms Hd]. set (fuel' := S fuel) in *. cbn [seq_loop].
  rewrite H. cbn. rewrite Hd. cbn. destruct (existsb (Nat.eqb root) doms); [|done].
  subst fuel'. cbn [seq_loop]. by rewrite make_region_end.
Qed.

Lemma is_leader_end : is_leader cfg e = true.
Proof. unfold is_leader. rewrite Nat.eqb_refl. by rewrite orb_true_r. Qed.

Lemma tree_make n r h fuel : tree graph m e n r h -> h < fuel ->
  make_seq_region cfg (stmt_kind m) fuel n = Ok (r, e).
Proof.
  intros Ht. revert fuel.
  induction Ht as [h|n arg h Hm Hn Hne Ho|n test c alt cn an rc ra h Hm Hn Hne Ho _ IHc _ IHa];
    intros fuel Hf.
  - destruct fuel as [|fuel]; [lia|]. cbn. by rewrite make_region_end.
  - destruct fuel as [|[|fuel]]; [lia..|]. rewrite make_seq_region_S.
    rewrite (seq_loop_once fuel _ n (BasicBlock [n])); [done|].
    unfold make_region, make_basic_block, stmt_kind, stmt_at, neighbors.
    destruct (Nat.eqb_spec n e) as [|_]; [done|].
    rewrite Hn, Hm, edges_rev, Ho. cbn. by rewrite is_leader_end.
  - destruct fuel as [|[|fuel]]; [lia..|]. rewrite make_seq_region_S.
    rewrite (seq_loop_once fuel _ n (RCond (BasicBlock [n]) (region_or_empty rc) (region_or_empty ra))); [done|].
    assert (stmt_kind m n = Ok KConditional) as Hk by (unfold stmt_kind, stmt_at; by rewrite Hm).
    unfold make_region, make_cond_region, get_cond_targets.
    destruct (Nat.eqb_spec n e) as [|_]; [done|].
    rewrite Hn, Hk, edges_rev, Ho. cbn [rev app mbind outcome_bind unwrap fst snd].
    rewrite (IHc (S fuel)), (IHa (S fuel)) by lia. cbn [mbind outcome_bind]. by rewrite Nat.eqb_refl.
Qed.

End Make.

(** ** What a piece of the graph means *)

Notation len b := (List.length (g_nodes (inner b))).

Section Compiled.
Context {B : Boa}.

(** In [g] the nodes from [lo] to [hi] have the edges [new], with the open ends
    [o] led to [t]. *)
Definition placed (g : CfgGraph) (m : StmtMap) (lo hi : nat) (new : list (nat * nat * Edge)) (m' : StmtMap)
    (o : outs) (t : nat) : Prop :=
  forall i, lo <= i -> i < hi ->
    out_edges (g_edges g) i = out_edges new i ++ outs_to o t i /\ m !! i = m' !! i /\
    g_nodes g !! i = Some NStmt.

Record wf (b : CFGBuilder) : Prop := {
  wf_edges : Forall (fun x => x.1.1 < len b) (g_edges (inner b));
  wf_end : end_ b < len b;
}.

(** Compiling from [b] to [b'] has added a piece whose root is [root] and whose
    open ends are [o], and that executes [ex]. *)
Record compiled (b b' : CFGBuilder) (root : nat) (o : outs) (ex : scope -> option (option Action)) : Prop := {
  cp_wf : wf b';
  cp_end : end_ b' = end_ b;
  cp_nodes : exists k, g_nodes (inner b') = g_nodes (inner b) ++ replicate (S k) NStmt;
  cp_previous : len b <= previous b' < len b';
  cp_map : forall i, i < len b -> map b' !! i = map b !! i;
  cp_outs : Forall (fun x => len b <= x.1 < len b') o;
  cp_new : exists new : list (nat * nat * Edge), g_edges (inner b') = g_edges (inner b) ++ new /\
    Forall (fun x => len b <= x.1.1 < len b') new /\
    forall g m t rt h, end_ b < len b -> placed g m (len b) (len b') new (map b') o t ->
      tree g m (end_ b) t rt h ->
      exists rs h', tree g m (end_ b) root (Some rs) h' /\
        forall r, run_region r m rs = andThen (ex r) (run_region r m (region_or_empty rt));
}.


Definition merged (o : outs) (t : nat) : list (nat * nat * Edge) := (fun x => (x.1, t, x.2)) <$> o.

Lemma merge_out_graph o t b : merge_out o t b =
  with_graph {| g_nodes := g_nodes (inner b); g_edges := g_edges (inner b) ++ merged o t |} b.
Proof.
  unfold merge_out, merged. revert b. induction o as [|[n e] o IH]; intros b; cbn.
  - rewrite app_nil_r. by destruct b as [[]].
  - rewrite IH. cbn. by rewrite <- app_assoc.
Qed.

Lemma out_edges_merged o t i : out_edges (merged o t) i = outs_to o t i.
Proof.
  unfold out_edges, outs_to, merged. induction o as [|[n e] o IH]; [done|].
  rewrite fmap_cons. destruct (decide (n = i)) as [->|Hne].
  - rewrite filter_cons_True by done. rewrite (filter_cons_True (fun x : nat * Edge => x.1 = i)) by done.
    rewrite !fmap_cons. f_equal. exact IH.
  - rewrite filter_cons_False by done. by rewrite (filter_cons_False (fun x : nat * Edge => x.1 = i)).
Qed.

Lemma outs_to_none o t i : Forall (fun x => x.1 <> i) o -> outs_to o t i = [].
Proof.
  unfold outs_to. induction 1 as [|x o Hx _ IH]; [done|]. by rewrite filter_cons_False.
Qed.

Lemma compiled_len b b' root o ex : compiled b b' root o ex -> len b < len b'.
Proof. intros [_ _ [k ->] _ _ _ _]. rewrite length_app, length_replicate. lia. Qed.

Lemma wf_compiled b b' root o ex : compiled b b' root o ex -> wf b'.
Proof. by intros []. Qed.

Lemma Forall_range (lo hi i : nat) (new : list (nat * nat * Edge)) :
  Forall (fun x => lo <= x.1.1 < hi) new -> i < lo \/ hi <= i -> out_edges new i = [].
Proof. intros H Hi. apply out_edges_none. eapply Forall_impl; [exact H|]. cbn. lia. Qed.

Lemma outs_range (lo hi t i : nat) (o : outs) :
  Forall (fun x => lo <= x.1 < hi) o -> i < lo \/ hi <= i -> outs_to o t i = [].
Proof. intros H Hi. apply outs_to_none. eapply Forall_impl; [exact H|]. cbn. lia. Qed.

(** The trees of a sequence: the first piece is led to the root of the second. *)
Lemma seq_placed g m lo mid hi new1 new2 m1 m2 o1 o2 r2 t :
  lo <= mid <= hi -> (forall i, i < mid -> m2 !! i = m1 !! i) ->
  Forall (fun x => lo <= x.1.1 < mid) new1 -> Forall (fun x => mid <= x.1.1 < hi) new2 ->
  Forall (fun x => lo <= x.1 < mid) o1 -> Forall (fun x => mid <= x.1 < hi) o2 ->
  placed g m lo hi (new1 ++ new2 ++ merged o1 r2) m2 o2 t ->
  placed g m lo mid new1 m1 o1 r2 /\ placed g m mid hi new2 m2 o2 t.
Proof.
  intros Hle Hm H1 H2 Ho1 Ho2 Hp. split; intros i Hlo Hhi.
  - destruct (Hp i ltac:(lia) ltac:(lia)) as (He & Hmi & Hn). split; [|split; [|done]].
    + rewrite He, !out_edges_app, out_edges_merged, (Forall_range _ _ i _ H2), (outs_range _ _ t i _ Ho2) by lia.
      by rewrite app_nil_r.
    + by rewrite Hmi, Hm by lia.
  - destruct (Hp i ltac:(lia) ltac:(lia)) as (He & Hmi & Hn). split; [|by split].
    rewrite He, !out_edges_app, out_edges_merged, (Forall_range _ _ i _ H1), (outs_range _ _ r2 i _ Ho1) by lia.
    by rewrite app_nil_r.
Qed.

Lemma compiled_seq b b1 b2 r1 r2 o1 o2 ex1 ex2 : compiled b b1 r1 o1 ex1 -> compiled b1 b2 r2 o2 ex2 ->
  compiled b (merge_out o1 r2 b2) r1 o2 (fun r => andThen_seq (ex1 r) (ex2 r)).
Proof.
  intros C1 C2. pose proof (compiled_len _ _ _ _ _ C1) as L1. pose proof (compiled_len _ _ _ _ _ C2) as L2.
  destruct C1 as [W1 E1 [k1 N1] P1 M1 O1 (new1 & G1 & R1 & T1)].
  destruct C2 as [W2 E2 [k2 N2] P2 M2 O2 (new2 & G2 & R2 & T2)].
  rewrite merge_out_graph. split; cbn.
  - split; cbn; [|apply W2]. apply Forall_app. split; [apply W2|]. apply Forall_fmap.
    eapply Forall_impl; [exact O1|]. cbn. lia.
  - congruence.
  - exists (k1 + S k2). rewrite N2, N1, <- app_assoc, <- replicate_add. done.
  - lia.
  - intros i Hi. by rewrite M2, M1 by lia.
  - eapply Forall_impl; [exact O2|]. cbn. lia.
  - exists (new1 ++ new2 ++ merged o1 r2). split; [by rewrite G2, G1, <- !app_assoc|]. split.
    { apply Forall_app; split; [|apply Forall_app; split; [|apply Forall_fmap]];
        (eapply Forall_impl; [eassumption|]; cbn; lia). }
    intros g m t rt h He Hp Ht.
    destruct (seq_placed g m (len b) (len b1) (len b2) new1 new2 (map b1) (map b2) o1 o2 r2 t)
      as [Hp1 Hp2]; try done; [lia|].
    destruct (T2 g m t rt h) as (rs2 & h2 & Ht2 & Hr2); [by rewrite E1; lia|done|by rewrite E1|].
    rewrite E1 in Ht2. destruct (T1 g m r2 (Some rs2) h2 He Hp1 Ht2) as (rs1 & h1 & Ht1 & Hr1).
    exists rs1, h1. split; [done|]. intros r. rewrite Hr1, andThen_assoc. cbn. by rewrite Hr2.
Qed.


(** *** Statements *)

Lemma add_stmt_node_wf s b : wf b -> wf (add_stmt_node s b).1.
Proof.
  intros [He Hd]. split; cbn; rewrite length_app; cbn; [|lia].
  eapply Forall_impl; [exact He|]. cbn. lia.
Qed.

Lemma compiled_return b arg : wf b ->
  exists b', cfg_stmt b (SReturn arg) = Ok (b', (len b, [])) /\
    compiled b b' (len b) [] (fun r => exec_stmt r (SReturn arg)).
Proof.
  intros [He Hd]. eexists. split; [reflexivity|].
  split; cbn; rewrite ?length_app; cbn; try done; try lia.
  - split; cbn; rewrite ?length_app; cbn; [|lia]. apply Forall_app. split; [|repeat constructor; cbn; lia].
    eapply Forall_impl; [exact He|]. cbn. lia.
  - by exists 0.
  - intros i Hi. by rewrite lookup_insert_ne by lia.
  - exists [(len b, end_ b, EFlow)]. split; [done|]. split; [repeat constructor; cbn; lia|].
    intros g m t rt h _ Hp _. destruct (Hp (len b) ltac:(lia) ltac:(lia)) as (Ho & Hm & Hn).
    rewrite lookup_insert_eq in Hm. exists (BasicBlock [len b]), 1. split.
    + apply (tree_return _ _ _ _ arg); [done|done|lia|]. rewrite Ho. unfold out_edges.
      by rewrite filter_cons_True by done.
    + intros r. cbn. rewrite Hm. unfold return_value.
      destruct arg as [[| | | | | |[] prop| |]|]; cbn; try done.
      destruct (String.eqb sym "Action"); cbn; [|done]. by destruct (action_of_name prop).
Qed.

Section If.
Context (b b1 : CFGBuilder) (test : JsExpr) (cons_stmt : Stmt) (alt : option Stmt)
  (c : nat) (o1 : outs) (ex1 : scope -> option (option Action)).
Notation s := (SIf test cons_stmt alt).
Notation n := (len b).
Context (Hwf : wf b) (C1 : compiled (add_stmt_node s b).1 b1 c o1 ex1).

Notation b1' := (with_graph (add_edge n c ETrue (inner b1)) b1).

Lemma start_len : len (add_stmt_node s b).1 = S n.
Proof. cbn. rewrite length_app. cbn. lia. Qed.

Lemma true_edge_wf : wf b1'.
Proof.
  pose proof (compiled_len _ _ _ _ _ C1) as L. rewrite start_len in L.
  destruct C1 as [[We Wd] _ _ _ _ _ _]. split; cbn; [|done].
  apply Forall_app. split; [done|]. repeat constructor. cbn. lia.
Qed.

(** The node of the test, once its two edges are there. *)
Lemma if_tree g m e an rc ra h1 h2 : m !! n = Some s -> g_nodes g !! n = Some NStmt -> e < n ->
  out_edges (g_edges g) n = [(c, ETrue); (an, EFalse)] ->
  tree g m e c rc h1 -> tree g m e an ra h2 ->
  exists rs h, tree g m e n (Some rs) h /\
    forall r, run_region r m rs =
      v ← js_eval r test;
      if to_boolean v then run_region r m (region_or_empty rc) else run_region r m (region_or_empty ra).
Proof.
  intros Hm Hn He Ho T1 T2. eexists _, (S (h1 `max` h2)). split.
  - apply (tree_if g m e n test cons_stmt alt c an); try done; [lia| |];
      (eapply tree_higher; [eassumption|lia]).
  - intros r. cbn. by rewrite Hm.
Qed.

Lemma compiled_if_then :
  compiled b b1' n (o1 ++ [(n, EFalse)])
    (fun r => v ← js_eval r test; if to_boolean v then ex1 r else Some None).
Proof.
  pose proof (compiled_len _ _ _ _ _ C1) as L. pose proof start_len as L0. rewrite L0 in L.
  pose proof true_edge_wf as W. destruct C1 as [_ E1 [k1 N1] P1 M1 O1 (new1 & G1 & R1 & T1)].
  rewrite L0 in *. pose proof Hwf as [We Wd]. split; cbn.
  - exact W.
  - exact E1.
  - exists (S k1). rewrite N1. cbn. by rewrite <- app_assoc.
  - lia.
  - intros i Hi. rewrite M1 by lia. cbn. by rewrite lookup_insert_ne by lia.
  - apply Forall_app. split; [|repeat constructor; cbn; lia]. eapply Forall_impl; [exact O1|]. cbn. lia.
  - exists (new1 ++ [(n, c, ETrue)]). split; [by rewrite G1, app_assoc|]. split.
    { apply Forall_app. split; [|repeat constructor; cbn; lia]. eapply Forall_impl; [exact R1|]. cbn. lia. }
    intros g m t rt h He Hp Ht.
    destruct (T1 g m t rt h) as (rs1 & h1 & Ht1 & Hr1); [cbn; lia| |by cbn|].
    { intros i Hlo Hhi. destruct (Hp i ltac:(lia) ltac:(lia)) as (Ho & Hm & Hn). split; [|by split].
      rewrite Ho, out_edges_app. unfold outs_to. rewrite filter_app, fmap_app.
      unfold out_edges at 2. rewrite filter_cons_False by (cbn; lia).
      rewrite (filter_cons_False _ (n, EFalse)) by (cbn; lia). cbn. by rewrite !app_nil_r. }
    destruct (Hp n ltac:(lia) ltac:(lia)) as (Ho & Hm & Hn).
    rewrite M1 in Hm by lia. cbn in Hm. rewrite lookup_insert_eq in Hm.
    assert (out_edges (g_edges g) n = [(c, ETrue); (t, EFalse)]) as Ho'.
    { rewrite Ho, out_edges_app, (Forall_range _ _ n _ R1) by lia. unfold outs_to.
      rewrite filter_app, fmap_app. fold (outs_to o1 t n). rewrite (outs_range _ _ t n _ O1) by lia.
      unfold out_edges. rewrite !filter_cons_True by done. done. }
    destruct (if_tree g m (end_ b) t (Some rs1) rt h1 h Hm Hn ltac:(lia) Ho' Ht1 Ht) as (rs & h' & Ht' & Hr).
    exists rs, h'. split; [done|]. intros r. rewrite Hr. destruct (js_eval r test) as [v|]; [|done].
    cbn. destruct (to_boolean v); [by rewrite Hr1|done].
Qed.

Context (b2 : CFGBuilder) (a : nat) (o2 : outs) (ex2 : scope -> option (option Action))
  (C2 : compiled b1' b2 a o2 ex2).

(** The edges of a node of either branch, or of the test, in the whole. *)
Lemma if_else_edges new1 new2 t i :
  Forall (fun x => S n <= x.1.1 < len b1) new1 -> Forall (fun x => len b1 <= x.1.1 < len b2) new2 ->
  Forall (fun x => S n <= x.1 < len b1) o1 -> Forall (fun x => len b1 <= x.1 < len b2) o2 ->
  S n < len b1 -> len b1 < len b2 -> n <= i < len b2 ->
  out_edges (new1 ++ [(n, c, ETrue)] ++ new2 ++ [(n, a, EFalse)]) i ++ outs_to (o1 ++ o2) t i =
  if decide (i = n) then [(c, ETrue); (a, EFalse)]
  else if decide (i < len b1) then out_edges new1 i ++ outs_to o1 t i
  else out_edges new2 i ++ outs_to o2 t i.
Proof.
  intros R1 R2 O1 O2 L1 L2 Hi. rewrite !out_edges_app. unfold outs_to at 1. rewrite filter_app, fmap_app.
  fold (outs_to o1 t i) (outs_to o2 t i). case_decide as Hn; [subst i|].
  - rewrite (Forall_range _ _ _ _ R1), (Forall_range _ _ _ _ R2), (outs_range _ _ t _ _ O1),
      (outs_range _ _ t _ _ O2) by lia.
    unfold out_edges. by rewrite !filter_cons_True by done.
  - assert (forall x e, out_edges [(n, x, e)] i = []) as Hone
      by (intros x e; unfold out_edges; by rewrite filter_cons_False by (cbn; lia)).
    rewrite !Hone. case_decide.
    + rewrite (Forall_range _ _ _ _ R2), (outs_range _ _ t _ _ O2) by lia. by rewrite !app_nil_r.
    + rewrite (Forall_range _ _ _ _ R1), (outs_range _ _ t _ _ O1) by lia. cbn. by rewrite app_nil_r.
Qed.

Lemma compiled_if_else :
  compiled b (with_graph (add_edge n a EFalse (inner b2)) b2) n (o1 ++ o2)
    (fun r => v ← js_eval r test; if to_boolean v then ex1 r else ex2 r).
Proof.
  pose proof (compiled_len _ _ _ _ _ C1) as L1. pose proof start_len as L0. rewrite L0 in L1.
  pose proof (compiled_len _ _ _ _ _ C2) as L2. cbn in L2.
  destruct C1 as [_ E1 [k1 N1] P1 M1 O1 (new1 & G1 & R1 & T1)].
  destruct C2 as [[W2 D2] E2 [k2 N2] P2 M2 O2 (new2 & G2 & R2 & T2)]. cbn in *|-.
  rewrite ?L0 in *. rewrite length_app in *. cbn in *|-. rewrite Nat.add_1_r in *.
  pose proof Hwf as [We Wd]. split; cbn.
  - split; cbn; [|done]. apply Forall_app. split; [done|]. repeat constructor. cbn. lia.
  - congruence.
  - exists (S k1 + S k2). rewrite N2, N1, <- !app_assoc. cbn. by rewrite replicate_add.
  - lia.
  - intros i Hi. rewrite M2, M1 by lia. by rewrite lookup_insert_ne by lia.
  - apply Forall_app. split; [eapply Forall_impl; [exact O1|]|eapply Forall_impl; [exact O2|]]; cbn; lia.
  - exists (new1 ++ [(n, c, ETrue)] ++ new2 ++ [(n, a, EFalse)]).
    split; [by rewrite G2, G1, <- !app_assoc|]. split.
    { repeat (apply Forall_app; split); try (repeat constructor; cbn; lia);
        (eapply Forall_impl; [eassumption|]; cbn; lia). }
    intros g m t rt h He Hp Ht.
    assert (forall i, n <= i < len b2 -> out_edges (g_edges g) i =
      (if decide (i = n) then [(c, ETrue); (a, EFalse)]
       else if decide (i < len b1) then out_edges new1 i ++ outs_to o1 t i
       else out_edges new2 i ++ outs_to o2 t i)) as Hout.
    { intros i Hi. destruct (Hp i ltac:(lia) ltac:(lia)) as (-> & _). by apply if_else_edges. }
    destruct (T1 g m t rt h) as (rs1 & h1 & Ht1 & Hr1); [lia| |done|].
    { intros i Hlo Hhi. destruct (Hp i ltac:(lia) ltac:(lia)) as (_ & Hm & Hn).
      rewrite Hout, decide_False, decide_True, Hm, M2 by lia. done. }
    destruct (T2 g m t rt h) as (rs2 & h2 & Ht2 & Hr2); [rewrite E1; lia| |by rewrite E1|].
    { intros i Hlo Hhi. destruct (Hp i ltac:(lia) ltac:(lia)) as (_ & Hm & Hn).
      rewrite Hout, decide_False, decide_False, Hm by lia. done. }
    rewrite E1 in Ht2. destruct (Hp n ltac:(lia) ltac:(lia)) as (_ & Hm & Hn).
    rewrite M2, M1, lookup_insert_eq in Hm by lia.
    assert (out_edges (g_edges g) n = [(c, ETrue); (a, EFalse)]) as Ho'
      by (rewrite Hout by lia; by rewrite decide_True).
    destruct (if_tree g m (end_ b) a (Some rs1) (Some rs2) h1 h2 Hm Hn ltac:(lia) Ho' Ht1 Ht2)
      as (rs & h' & Ht' & Hr).
    exists rs, h'. split; [done|]. intros r. rewrite Hr. destruct (js_eval r test) as [v|]; [|done].
    cbn. destruct (to_boolean v); [by rewrite Hr1|by rewrite Hr2].
Qed.

End If.

(** *** Every function of the class compiles *)

Definition good (s : Stmt) : Prop := pure_stmt s = true -> forall b, wf b ->
  exists b' root o, cfg_stmt b s = Ok (b', (root, o)) /\ compiled b b' root o (fun r => exec_stmt r s).

Lemma compiled_ext b b' root o ex ex' : (forall r, ex r = ex' r) ->
  compiled b b' root o ex -> compiled b b' root o ex'.
Proof.
  intros Hex [W E N P M O (new & G & R & T)]. split; try done. exists new. split; [done|split; [done|]].
  intros g m t rt h He Hp Ht. destruct (T g m t rt h He Hp Ht) as (rs & h' & Ht' & Hr).
  exists rs, h'. split; [done|]. intros r. by rewrite Hr, Hex.
Qed.

Lemma exec_list_cons r s l : exec_list r (s :: l) = andThen_seq (exec_stmt r s) (exec_list r l).
Proof. unfold exec_list, andThen_seq. cbn. by destruct (exec_stmt r s) as [[]|]. Qed.

Lemma block_rest l : Forall good l -> forallb pure_stmt l = true ->
  forall b b1 root o ex, compiled b b1 root o ex ->
  exists b2 o2, foldM (block_step cfg_stmt) (b1, Some root, Some o) l = Ok (b2, Some root, Some o2) /\
    compiled b b2 root o2 (fun r => andThen_seq (ex r) (exec_list r l)).
Proof.
  induction 1 as [|s l Hs _ IH]; cbn [forallb foldM]; intros Hp b b1 root o ex C.
  - exists b1, o. split; [done|]. eapply compiled_ext; [|exact C]. intros r. cbn. by destruct (ex r) as [[]|].
  - apply andb_prop in Hp as [Hps Hpl].
    destruct (Hs Hps b1 (wf_compiled _ _ _ _ _ C)) as (b2 & root2 & o2 & H2 & C2).
    pose proof (compiled_seq _ _ _ _ _ _ _ _ _ C C2) as C3.
    destruct (IH Hpl b _ root o2 _ C3) as (b4 & o4 & H4 & C4).
    exists b4, o4. split.
    + apply bind_ok. eexists. split; [|exact H4]. unfold block_step. rewrite H2. done.
    + eapply compiled_ext; [|exact C4]. intros r. rewrite exec_list_cons. cbn.
      by destruct (ex r) as [[]|].
Qed.

Lemma block_good l : Forall good l -> l <> [] -> forallb pure_stmt l = true -> forall b, wf b ->
  exists b' root o, foldM (block_step cfg_stmt) (b, None, None) l = Ok (b', Some root, Some o) /\
    compiled b b' root o (fun r => exec_list r l).
Proof.
  intros Hg Hne Hp b Hw. destruct l as [|s l]; [done|]. cbn in Hp. apply andb_prop in Hp as [Hps Hpl].
  apply Forall_cons in Hg as [Hs Hl]. destruct (Hs Hps b Hw) as (b1 & root & o & H1 & C1).
  destruct (block_rest l Hl Hpl b b1 root o _ C1) as (b2 & o2 & H2 & C2).
  exists b2, root, o2. split.
  - cbn [foldM]. apply bind_ok. eexists. split; [|exact H2]. unfold block_step. by rewrite H1.
  - eapply compiled_ext; [|exact C2]. intros r. by rewrite exec_list_cons.
Qed.

Lemma previous_not_end b b' root o ex : wf b -> compiled b b' root o ex -> (previous b' =? end_ b') = false.
Proof. intros [_ He] [_ E _ P _ _ _]. apply Nat.eqb_neq. rewrite E. lia. Qed.

Lemma cfg_block b l : cfg_stmt b (SBlock l) = block b l.
Proof. done. Qed.

Lemma all_good s : good s.
Proof.
  induction s as [test c alt IHc IHa|l Hl|s Hs] using stmt_nested_ind; intros Hp b Hw.
  - cbn in Hp. apply andb_prop in Hp as [Hpc Hpa].
    destruct (IHc Hpc _ (add_stmt_node_wf (SIf test c alt) b Hw)) as (b1 & cn & o1 & H1 & C1).
    destruct alt as [alt|].
    + destruct (IHa Hpa _ (true_edge_wf b b1 test c (Some alt) cn o1 _ C1)) as (b2 & an & o2 & H2 & C2).
      eexists _, _, _. split.
      * cbn [cfg_stmt]. unfold add_stmt_node, add_node in *. cbn in H1 |- *. rewrite H1. cbn.
        cbn in H2. rewrite H2. cbn. 
        rewrite (previous_not_end _ _ _ _ _ (true_edge_wf b b1 test c (Some alt) cn o1 _ C1) C2). reflexivity.
      * by apply (compiled_if_else b b1 test c (Some alt) cn o1 _ Hw C1).
    + eexists _, _, _. split.
      * cbn [cfg_stmt]. unfold add_stmt_node, add_node in *. cbn in H1 |- *. rewrite H1. reflexivity.
      * by apply (compiled_if_then b b1 test c None cn o1 _ Hw C1).
  - cbn in Hp. apply andb_prop in Hp as [Hne Hpl]. apply negb_true_iff, bool_decide_eq_false in Hne.
    destruct (block_good l Hl Hne Hpl b Hw) as (b' & root & o & H & C).
    exists b', root, o. split; [|exact C]. rewrite cfg_block. unfold block. by rewrite H.
  - destruct s; try done. destruct (compiled_return b arg Hw) as (b' & H & C). by exists b', (len b), [].
Qed.

End Compiled.

(** ** Parsing a function *)

Section Parse.
Context {B : Boa} {DM : Dominators} {DL : DominatorLaws}.

Definition start_builder : CFGBuilder :=
  {| inner := {| g_nodes := [NStart; NEnd]; g_edges := [] |}; previous := 0; map := ∅; end_ := 1 |}.

Lemma start_wf : wf start_builder.
Proof. split; cbn; [constructor|lia]. Qed.

(** The graph of a body is a decision tree below the start. *)
Lemma build_tree body : body <> [] -> forallb pure_stmt body = true ->
  exists cfg m root rs h, build body = Ok (cfg, m) /\ cf_start cfg = 0 /\ cf_end cfg = 1 /\
    neighbors (cf_graph cfg) 0 = [root] /\ tree (cf_graph cfg) m 1 root (Some rs) h /\
    forall r, run_region r m rs = run_function r body.
Proof.
  intros Hne Hp.
  destruct (block_good body ltac:(apply Forall_forall; intros; apply all_good) Hne Hp _ start_wf)
    as (b & root & o & H & C).
  destruct C as [_ E [k N] P M O (new & G & R & T)]. cbn in *|-.
  assert (Forall (fun x : nat * nat * Edge => x.1.1 <> 0) new) as R0
    by (eapply Forall_impl; [exact R|]; cbn; lia).
  assert (Forall (fun x => x.1 <> 0) o) as O0 by (eapply Forall_impl; [exact O|]; cbn; lia).
  set (g := {| g_nodes := g_nodes (inner b); g_edges := (new ++ [(0, root, EFlow)]) ++ merged o 1 |}).
  destruct (T g (map b) 1 None 0) as (rs & h & Ht & Hr); [lia| |constructor|].
  { intros i Hlo Hhi. split; [|split; [done|]].
    - subst g. cbn [g_edges]. rewrite !out_edges_app, out_edges_merged. unfold out_edges at 2.
      rewrite filter_cons_False by (cbn; lia). cbn. by rewrite app_nil_r.
    - cbn. rewrite N. destruct i as [|[|i]]; [lia..|]. cbn. rewrite N in Hhi. cbn in Hhi.
      rewrite length_replicate in Hhi. by apply (lookup_replicate_2 (S k)); lia. }
  exists {| cf_graph := g; cf_start := 0; cf_end := 1 |}, (map b), root, rs, h.
  split; [|split; [done|split; [done|split; [|split; [done|]]]]].
  - unfold build, block. cbn -[block_step]. fold start_builder. rewrite H. cbn -[merge_out].
    rewrite merge_out_graph. cbn. rewrite G. by subst g.
  - unfold neighbors. rewrite edges_rev. subst g. cbn [g_edges cf_graph].
    rewrite !out_edges_app, out_edges_merged, (out_edges_none _ _ R0), (outs_to_none _ _ _ O0).
    unfold out_edges. by rewrite filter_cons_True by done.
  - intros r. specialize (Hr r). change (run_region r (map b) rs = andThen (exec_list r body) (Some Deny)) in Hr.
    rewrite Hr. unfold run_function. by destruct (exec_list r body) as [[a|]|].
Qed.

Lemma parse_arrow_holds arrow body : ar_body arrow = inl body -> body <> [] ->
  forallb pure_stmt body = true ->
  exists a n, orig a = arrow /\ (forall fuel, n <= fuel -> parse_arrow fuel arrow = Ok a) /\
    forall r, run_region r (stmt_map a) (regions a) = run_function r body.
Proof.
  intros Hb Hne Hp.
  destruct (build_tree body Hne Hp) as (cfg & m & root & rs & h & H & Hs & He & Hn & Ht & Hr).
  exists {| orig := arrow; stmt_map := m; regions := rs |}, (S h). split; [done|]. split; [|exact Hr].
  intros fuel Hf. unfold parse_arrow. rewrite Hb, H. cbn. unfold from_cfg. rewrite Hs, Hn. cbn.
  assert (is_Some (strict_dominators (cf_graph cfg) (cf_start cfg) (cf_end cfg))) as Hd.
  { rewrite Hs, He. apply strict_dominators_reached. eapply rtc_l; [|by eapply tree_reaches].
    unfold flows. rewrite Hn. by left. }
  rewrite (tree_make cfg m Hd root (Some rs) h fuel) by (by rewrite ?He). cbn. by rewrite Nat.eqb_refl.
Qed.

End Parse.

(** ** Empty blocks *)

Definition return_action (name : string) : Stmt := SReturn (Some (JsMember (JsIdent "Action") name)).
Definition arrow_of (body : list Stmt) : ArrowExpr := {| ar_params := []; ar_body := inl body |}.

(** [if (test) { } return Action.Allow;] *)
Definition empty_then (test : JsExpr) : list Stmt := [SIf test (SBlock []) None; return_action "Allow"].
(** [if (test) { return Action.Skip; } else { } return Action.Allow;] *)
Definition empty_else (test : JsExpr) : list Stmt :=
  [SIf test (SBlock [return_action "Skip"]) (Some (SBlock [])); return_action "Allow"].

Section Empty.
Context {DM : Dominators} (test : JsExpr).

Definition empty_then_cfg : ControlFlow := {|
  cf_graph := {| g_nodes := [NStart; NEnd; NStmt; NStmt];
    g_edges := [(2, 2, ETrue); (3, 1, EFlow); (2, 3, EFalse); (0, 2, EFlow)] |};
  cf_start := 0; cf_end := 1;
|}.
Definition empty_then_map : StmtMap :=
  <[3 := return_action "Allow"]> {[2 := SIf test (SBlock []) None]}.

Lemma build_empty_then : build (empty_then test) = Ok (empty_then_cfg, empty_then_map).
Proof. done. Qed.

(** The true edge of the test leads back to it. *)
Lemma empty_then_loops fuel :
  make_seq_region empty_then_cfg (stmt_kind empty_then_map) fuel 2 = Panic "out of fuel".
Proof.
  induction fuel as [|fuel IH]; [done|]. rewrite make_seq_region_S. cbn [seq_loop].
  assert (forall fuel' make, make 2 = Panic "out of fuel" ->
    make_region empty_then_cfg (stmt_kind empty_then_map) fuel' make 2 = Panic "out of fuel") as Hcond.
  { intros fuel' make H. transitivity (make_cond_region empty_then_cfg make 2); [done|].
    unfold make_cond_region. change (get_cond_targets empty_then_cfg 2) with (Ok (2, 3) : result (nat * nat)).
    cbn [mbind outcome_bind]. by rewrite H. }
  by rewrite Hcond.
Qed.

Lemma empty_then_never_parsed fuel : parse_arrow fuel (arrow_of (empty_then test)) = Panic "out of fuel".
Proof.
  unfold parse_arrow. cbn [ar_body arrow_of]. rewrite build_empty_then. cbn [mbind outcome_bind].
  unfold from_cfg. change (head (neighbors (cf_graph empty_then_cfg) (cf_start empty_then_cfg))) with (Some 2).
  cbn [unwrap mbind outcome_bind]. by rewrite empty_then_loops.
Qed.

(** The two branches of the test lead to the same statement. *)
Definition empty_else_region : Region := RCond (BasicBlock [2]) (BasicBlock [3]) (BasicBlock [3]).
Definition empty_else_map : StmtMap :=
  <[4 := return_action "Allow"]> (<[3 := return_action "Skip"]>
    {[2 := SIf test (SBlock [return_action "Skip"]) (Some (SBlock []))]}).

Definition empty_else_cfg : ControlFlow := {|
  cf_graph := {| g_nodes := [NStart; NEnd; NStmt; NStmt; NStmt];
    g_edges := [(3, 1, EFlow); (2, 3, ETrue); (2, 3, EFalse); (4, 1, EFlow); (0, 2, EFlow)] |};
  cf_start := 0; cf_end := 1;
|}.

Lemma build_empty_else : build (empty_else test) = Ok (empty_else_cfg, empty_else_map).
Proof. done. Qed.

Lemma empty_else_tree h :
  tree (cf_graph empty_else_cfg) empty_else_map 1 2 (Some empty_else_region) (S (S h)).
Proof.
  assert (tree (cf_graph empty_else_cfg) empty_else_map 1 3 (Some (BasicBlock [3])) (S h))
    by by apply (tree_return _ _ _ _ (Some (JsMember (JsIdent "Action") "Skip"))).
  by apply (tree_if _ _ 1 2 test (SBlock [return_action "Skip"]) (Some (SBlock [])) 3 3
    (Some (BasicBlock [3])) (Some (BasicBlock [3]))).
Qed.

Lemma empty_else_parsed {DL : DominatorLaws} fuel : 2 < fuel ->
  parse_arrow fuel (arrow_of (empty_else test)) =
    Ok {| orig := arrow_of (empty_else test); stmt_map := empty_else_map; regions := empty_else_region |}.
Proof.
  intros Hf. unfold parse_arrow. cbn [ar_body arrow_of]. rewrite build_empty_else. cbn [mbind outcome_bind].
  unfold from_cfg. change (head (neighbors (cf_graph empty_else_cfg) (cf_start empty_else_cfg))) with (Some 2).
  cbn [unwrap mbind outcome_bind].
  rewrite (tree_make empty_else_cfg empty_else_map) with (r := Some empty_else_region) (h := 2).
  - done.
  - apply strict_dominators_reached. eapply rtc_l; [|exact (tree_reaches _ _ _ _ _ _ (empty_else_tree 0))].
    unfold flows. cbn. by left.
  - apply (empty_else_tree 0).
  - done.
Qed.
End Empty.

(** ** Properties *)

(** C20: the control flow analysis of a policy function is right and complete on
    the functions it is made for, those of [if], [else], [return] and non-empty
    blocks.  The body always parses (the recursion over its flow graph ends), and
    the regions of the graph, which all the rest of the analysis reads, return on
    every input what executing the statements in order returns, [Deny] when the
    end is reached. *)
Theorem parse_arrow_spec {B : Boa} {DM : Dominators} {DL : DominatorLaws} arrow body :
  ar_body arrow = inl body -> body <> [] -> forallb pure_stmt body = true ->
  exists a n, orig a = arrow /\ (forall fuel, n <= fuel -> parse_arrow fuel arrow = Ok a) /\
    forall r, run_region r (stmt_map a) (regions a) = run_function r body.
Proof. apply parse_arrow_holds. Qed.

(** C21: from source to filter.  The filter made from the source of a policy
    function holds exactly for the inputs on which executing its statements does
    not return [Action.Skip]: for a body that is not empty and is made of [if],
    [else], [return] and non-empty blocks whose tests have no effects, with fewer than
    256 distinct tests (and no more than the minimization takes), when it is
    evaluated on the truth its tests have on the input.  An empty block is misread
    ([empty_blocks_misread]). *)
Theorem policy_source_spec {B : Boa} {DM : Dominators} {DL : DominatorLaws} {BL : BoolLib} {SW : Swc}
    limit {Laws : BoolLaws limit} name arrow body :
  is_filter_name name = true ->
  ar_body arrow = inl body -> body <> [] -> forallb pure_stmt body = true ->
  exists n, forall fuel p, n <= fuel -> policy_body fuel name (PvArrow arrow) = Ok p ->
    exists fp, p = PFilter fp /\
      forall r a t, few limit (predicates fp) -> run_function r body = Some a ->
        faithful (var_values r (env fp)) (predicates fp) t ->
        filter_holds t (where_conds fp) = bool_decide (a <> Skip).
Proof.
  intros Hname Hb Hne Hp. destruct (parse_arrow_holds arrow body Hb Hne Hp) as (a & n & _ & Hparse & Hr).
  exists n. intros fuel p Hf H. unfold policy_body in H. rewrite Hname, Hparse in H by done.
  cbn in H. apply fmap_ok in H as (fp & Hfp & ->). exists fp. split; [done|].
  intros r x t Hfew Hx Ht. rewrite <- Hr in Hx.
  destruct (from_arrow_holds limit a fp Hfp Hfew) as (_ & _ & _ & Hf'). by apply (Hf' r).
Qed.

(** An empty block is misread.  After an empty [else], the branch that is
    not taken is given the statement before it: a function that returns
    [Action.Skip] only when its test is true gets regions that return it always.
    An empty [then] makes the test its own successor, and parsing recurses for
    ever; an empty function body panics. *)
Theorem empty_blocks_misread {B : Boa} {DM : Dominators} {DL : DominatorLaws} test :
  (forall r v fuel, js_eval r test = Some v -> to_boolean v = false -> 2 < fuel ->
    run_function r (empty_else test) = Some Allow /\
    exists a, parse_arrow fuel (arrow_of (empty_else test)) = Ok a /\
      run_region r (stmt_map a) (regions a) = Some Skip) /\
  (forall fuel, parse_arrow fuel (arrow_of (empty_then test)) = Panic "out of fuel") /\
  (forall fuel, parse_arrow (S (S fuel)) (arrow_of []) =
     Panic "There should not be an end of the cfg reaching here.").
Proof.
  split; [|split]; [|apply empty_then_never_parsed|done].
  intros r v fuel Hv Hf Hfuel. split.
  - unfold run_function. cbn. by rewrite Hv; cbn; rewrite Hf.
  - eexists. split; [by apply empty_else_parsed|].
    transitivity (v ← js_eval r test; if to_boolean v then Some Skip else Some Skip); [done|].
    rewrite Hv. cbn. by rewrite Hf.
Qed.

Module FlowSample.
Definition steps (g : CfgGraph) (avoid : nat) (seen : list nat) : list nat :=
  seen ++ filter (fun n => n <> avoid /\ ~ n ∈ seen) (seen ≫= neighbors g).
Definition reached (g : CfgGraph) (avoid root : nat) : list nat :=
  if decide (root = avoid) then []
  else Nat.iter (List.length (g_nodes g)) (steps g avoid) [root].

(** The nodes without which a node is not reached. *)
#[export] Instance dominators : Dominators := {
  strict_dominators g root n :=
    Some (filter (fun d => d <> n /\ ~ n ∈ reached g d root) (seq 0 (List.length (g_nodes g))));
}.
#[export] Instance dominator_laws : DominatorLaws.
Proof. split. intros g root n _. by eexists. Defined.

Definition body : list Stmt :=
  [SIf RulesSample.test (SBlock [return_action "Skip"]) None; return_action "Allow"].
Definition arrow : ArrowExpr :=
  {| ar_params := [PatIdent "person" None; PatIdent "ctx" None]; ar_body := inl body |}.
End FlowSample.

Lemma parse_arrow_spec_witness :
  (exists a n, orig a = FlowSample.arrow /\
    (forall fuel, n <= fuel -> parse_arrow (DM := FlowSample.dominators) fuel FlowSample.arrow = Ok a) /\
    forall r, run_region (B := JsSample.boa) r (stmt_map a) (regions a) =
      run_function (B := JsSample.boa) r FlowSample.body) /\
  run_function (B := JsSample.boa) RulesSample.inputs FlowSample.body = Some Skip.
Proof.
  split; [|by vm_compute].
  by apply (parse_arrow_spec (B := JsSample.boa) (DL := FlowSample.dominator_laws) FlowSample.arrow FlowSample.body).
Defined.

Lemma policy_source_spec_witness :
  (exists n, forall fuel p, n <= fuel ->
    policy_body (DM := FlowSample.dominators) (BL := RulesSample.no_minimization) (SW := RulesSample.printer)
      fuel Read (PvArrow FlowSample.arrow) = Ok p ->
    exists fp, p = PFilter fp /\
      forall r a t, few 10 (predicates fp) ->
        run_function (B := JsSample.boa) r FlowSample.body = Some a ->
        faithful (B := JsSample.boa) (var_values (B := JsSample.boa) r (env fp)) (predicates fp) t ->
        filter_holds t (where_conds fp) = bool_decide (a <> Skip)) /\
  is_ok (policy_body (DM := FlowSample.dominators) (BL := RulesSample.no_minimization) (SW := RulesSample.printer)
    5 Read (PvArrow FlowSample.arrow)) = true.
Proof.
  split; [|by vm_compute].
  by apply (policy_source_spec (B := JsSample.boa) (DL := FlowSample.dominator_laws) 10
    (Laws := RulesSample.no_minimization_laws 10) Read FlowSample.arrow FlowSample.body).
Defined.

Lemma empty_blocks_misread_witness :
  run_function (B := JsSample.boa) (fun _ => None) (empty_else (JsLiteral (LitBool false))) = Some Allow /\
  exists a, parse_arrow (DM := FlowSample.dominators) 3 (arrow_of (empty_else (JsLiteral (LitBool false)))) = Ok a /\
    run_region (B := JsSample.boa) (fun _ => None) (stmt_map a) (regions a) = Some Skip.
Proof.
  destruct (empty_blocks_misread (B := JsSample.boa) (DL := FlowSample.dominator_laws)
    (JsLiteral (LitBool false))) as [H _].
  apply (H (fun _ => None) (JsBoolean false) 3); [done|done|lia].
Defined.
