(* ===== verification/Meta.v ===== *)
(** * The metadata store ([server/src/datastore/meta/mod.rs])

    The tables in which the server keeps the types of all versions, their
    policies, modules and names, and the functions that write and read them.
    A table whose schema declares a key is a map from it; the order in which a
    query returns its rows is the database's choice, a parameter. *)

From S2P Require Import Prelude Ident Types Builtin TypeSystem Policies Query.

(** ** Tables

    The schema is the one [migrate.rs] builds.  An [auto_increment] key has the
    counter it draws from. *)

Record VersionInfo := { vi_name : string; vi_tag : string }.

#[export] Instance VersionInfo_eq_dec : EqDecision VersionInfo.
Proof. solve_decision. Defined.

Record FieldRow := {
  fr_field_type : string;
  fr_type_id : Z;
  fr_default_value : option string;
  fr_is_optional : bool;
  fr_is_unique : bool;
}.

#[export] Instance FieldRow_eq_dec : EqDecision FieldRow.
Proof. solve_decision. Defined.

Record IndexRow := { ir_type_id : Z; ir_fields : string }.

#[export] Instance IndexRow_eq_dec : EqDecision IndexRow.
Proof. solve_decision. Defined.

Record MetaDb := {
  db_types : gmap Z string;
  db_type_names : gmap string Z;
  db_fields : gmap Z FieldRow;
  db_field_names : gmap string Z;
  db_field_labels : list (string * Z);
  db_indexes : gmap Z IndexRow;
  db_next_type_id : Z;
  db_next_field_id : Z;
  db_next_index_id : Z;
  db_api_info : gmap string VersionInfo;
  db_modules : gmap (string * string) string;
  db_policies : gmap string string;
  db_policy_store : gmap string string;
}.

(** The database after the last migration, without data. *)
Definition empty_db : MetaDb :=
  {| db_types := ∅; db_type_names := ∅; db_fields := ∅; db_field_names := ∅;
     db_field_labels := []; db_indexes := ∅;
     db_next_type_id := 1; db_next_field_id := 1; db_next_index_id := 1;
     db_api_info := ∅; db_modules := ∅; db_policies := ∅; db_policy_store := ∅ |}.

(** ** Setters *)

Definition set_type_tables (types : gmap Z string) (names : gmap string Z) (next : Z) (db : MetaDb)
    : MetaDb :=
  {| db_types := types; db_type_names := names; db_fields := db_fields db;
     db_field_names := db_field_names db; db_field_labels := db_field_labels db;
     db_indexes := db_indexes db; db_next_type_id := next; db_next_field_id := db_next_field_id db;
     db_next_index_id := db_next_index_id db; db_api_info := db_api_info db;
     db_modules := db_modules db; db_policies := db_policies db;
     db_policy_store := db_policy_store db |}.

Definition set_field_tables (fields : gmap Z FieldRow) (names : gmap string Z)
    (labels : list (string * Z)) (next : Z) (db : MetaDb) : MetaDb :=
  {| db_types := db_types db; db_type_names := db_type_names db; db_fields := fields;
     db_field_names := names; db_field_labels := labels;
     db_indexes := db_indexes db; db_next_type_id := db_next_type_id db; db_next_field_id := next;
     db_next_index_id := db_next_index_id db; db_api_info := db_api_info db;
     db_modules := db_modules db; db_policies := db_policies db;
     db_policy_store := db_policy_store db |}.

Definition set_indexes (indexes : gmap Z IndexRow) (next : Z) (db : MetaDb) : MetaDb :=
  {| db_types := db_types db; db_type_names := db_type_names db; db_fields := db_fields db;
     db_field_names := db_field_names db; db_field_labels := db_field_labels db;
     db_indexes := indexes; db_next_type_id := db_next_type_id db;
     db_next_field_id := db_next_field_id db; db_next_index_id := next;
     db_api_info := db_api_info db; db_modules := db_modules db; db_policies := db_policies db;
     db_policy_store := db_policy_store db |}.

Definition set_version_tables (api_info : gmap string VersionInfo)
    (modules : gmap (string * string) string) (policies policy_store : gmap string string)
    (db : MetaDb) : MetaDb :=
  {| db_types := db_types db; db_type_names := db_type_names db; db_fields := db_fields db;
     db_field_names := db_field_names db; db_field_labels := db_field_labels db;
     db_indexes := db_indexes db; db_next_type_id := db_next_type_id db;
     db_next_field_id := db_next_field_id db; db_next_index_id := db_next_index_id db;
     db_api_info := api_info; db_modules := modules; db_policies := policies;
     db_policy_store := policy_store |}.

(** ** Statements

    A statement fails when it breaks a key or a foreign key; [execute] and its
    siblings put the query's text around the database's error. *)

Definition constraint (query : string) (holds : bool) : result unit :=
  with_context (ensure holds "constraint failed") ("Failed to execute query " +:+ query).

(** [INSERT INTO types (backing_table) VALUES ($1) RETURNING *] *)
Definition insert_types_row (backing_table : string) (db : MetaDb) : result (MetaDb * Z) :=
  _ ← constraint "INSERT INTO types (backing_table) VALUES ($1) RETURNING *"
        (bool_decide (map_Forall (fun _ t => t <> backing_table) (db_types db)));
  let id := db_next_type_id db in
  Ok (set_type_tables (<[id := backing_table]> (db_types db)) (db_type_names db) (id + 1) db, id).

(** [INSERT INTO type_names (type_id, name) VALUES ($1, $2)] *)
Definition insert_type_names_row (id : Z) (name : string) (db : MetaDb) : result MetaDb :=
  _ ← constraint "INSERT INTO type_names (type_id, name) VALUES ($1, $2)"
        (bool_decide (db_type_names db !! name = None /\ is_Some (db_types db !! id)));
  Ok (set_type_tables (db_types db) (<[name := id]> (db_type_names db)) (db_next_type_id db) db).

(** [INSERT INTO fields (...) VALUES (...) RETURNING *] *)
Definition insert_fields_row (row : FieldRow) (db : MetaDb) : result (MetaDb * Z) :=
  _ ← constraint "INSERT INTO fields" (bool_decide (is_Some (db_types db !! fr_type_id row)));
  let id := db_next_field_id db in
  Ok (set_field_tables (<[id := row]> (db_fields db)) (db_field_names db) (db_field_labels db)
        (id + 1) db, id).

(** [INSERT INTO field_names (field_name, field_id) VALUES ($1, $2)] *)
Definition insert_field_names_row (name : string) (id : Z) (db : MetaDb) : result MetaDb :=
  _ ← constraint "INSERT INTO field_names (field_name, field_id) VALUES ($1, $2)"
        (bool_decide (db_field_names db !! name = None /\ is_Some (db_fields db !! id)));
  Ok (set_field_tables (db_fields db) (<[name := id]> (db_field_names db)) (db_field_labels db)
        (db_next_field_id db) db).

(** [INSERT INTO field_labels (label_name, field_id) VALUES ($1, $2)] *)
Definition insert_field_labels_row (label : string) (id : Z) (db : MetaDb) : result MetaDb :=
  _ ← constraint "INSERT INTO field_labels (label_name, field_id) VALUES ($1, $2)"
        (bool_decide (is_Some (db_fields db !! id)));
  Ok (set_field_tables (db_fields db) (db_field_names db) (db_field_labels db ++ [(label, id)])
        (db_next_field_id db) db).

(** [INSERT INTO indexes (type_id, fields) VALUES ($1, $2)] *)
Definition insert_indexes_row (row : IndexRow) (db : MetaDb) : result MetaDb :=
  _ ← constraint "INSERT INTO indexes (type_id, fields) VALUES ($1, $2)"
        (bool_decide (is_Some (db_types db !! ir_type_id row)));
  let id := db_next_index_id db in
  Ok (set_indexes (<[id := row]> (db_indexes db)) (id + 1) db).

(** [UPDATE fields SET ... WHERE field_id = $4]; the default is not in the
    statement when [default] is [None]. *)
Definition update_fields_row (id : Z) (field_type : string) (is_optional is_unique : bool)
    (default : option string) (db : MetaDb) : MetaDb :=
  let update row :=
    {| fr_field_type := field_type; fr_type_id := fr_type_id row;
       fr_default_value := match default with
                           | None => fr_default_value row
                           | Some value => Some value
                           end;
       fr_is_optional := is_optional; fr_is_unique := is_unique |} in
  set_field_tables (alter update id (db_fields db)) (db_field_names db) (db_field_labels db)
    (db_next_field_id db) db.

(** [DELETE FROM field_labels WHERE field_id = $1] *)
Definition delete_field_labels (id : Z) (db : MetaDb) : MetaDb :=
  set_field_tables (db_fields db) (db_field_names db)
    (filter (fun r => r.2 <> id) (db_field_labels db)) (db_next_field_id db) db.

(** [DELETE FROM field_names WHERE field_id = $1] *)
Definition delete_field_names (id : Z) (db : MetaDb) : MetaDb :=
  set_field_tables (db_fields db) (filter (fun r => r.2 <> id) (db_field_names db))
    (db_field_labels db) (db_next_field_id db) db.

(** Deleting the fields that are not in [keep], with what refers to them:
    the foreign keys are declared [on_delete(Cascade)]. *)
Definition restrict_fields (keep : gmap Z FieldRow) (db : MetaDb) : MetaDb :=
  set_field_tables keep
    (filter (fun r => is_Some (keep !! r.2)) (db_field_names db))
    (filter (fun r => is_Some (keep !! r.2)) (db_field_labels db)) (db_next_field_id db) db.

(** [DELETE FROM fields WHERE field_id = $1] *)
Definition delete_fields (id : Z) (db : MetaDb) : MetaDb :=
  restrict_fields (delete id (db_fields db)) db.

(** [DELETE FROM types WHERE type_id = $1] *)
Definition delete_types (id : Z) (db : MetaDb) : MetaDb :=
  let db := restrict_fields (filter (fun r => fr_type_id r.2 <> id) (db_fields db)) db in
  let db := set_indexes (filter (fun r => ir_type_id r.2 <> id) (db_indexes db))
              (db_next_index_id db) db in
  set_type_tables (delete id (db_types db)) (filter (fun r => r.2 <> id) (db_type_names db))
    (db_next_type_id db) db.

(** [DELETE FROM type_names WHERE type_id = $1] *)
Definition delete_type_names (id : Z) (db : MetaDb) : MetaDb :=
  set_type_tables (db_types db) (filter (fun r => r.2 <> id) (db_type_names db))
    (db_next_type_id db) db.

(** [DELETE FROM indexes WHERE index_id = $1] *)
Definition delete_indexes_row (id : Z) (db : MetaDb) : MetaDb :=
  set_indexes (delete id (db_indexes db)) (db_next_index_id db) db.

(** ** Writing fields *)

Definition update_field_query (db : MetaDb) (delta : FieldDelta) : result MetaDb :=
  let field_id := fdl_id delta in
  let db :=
    match fdl_attrs delta with
    | Some field =>
        update_fields_row field_id (type_id_name (fad_type_id field)) (fad_is_optional field)
          (fad_is_unique field) (fad_default field) db
    | None => db
    end in
  match fdl_labels delta with
  | Some labels =>
      foldM (fun db label => insert_field_labels_row label field_id db)
        (delete_field_labels field_id db) labels
  | None => Ok db
  end.

Definition remove_field_query (db : MetaDb) (field : Field) : result MetaDb :=
  field_id ← option_context (fld_id field) "logical error. Trying to delete field without id";
  let db := delete_fields field_id db in
  let db := delete_field_names field_id db in
  Ok (delete_field_labels field_id db).

(** [Option::xor] *)
Definition option_xor {A} (a b : option A) : option A :=
  match a, b with
  | Some a, None => Some a
  | None, Some b => Some b
  | _, _ => None
  end.

Definition insert_field_query (ty : ObjectType) (recently_added_type_id : option Z)
    (db : MetaDb) (field : Field) : result MetaDb :=
  type_id ← option_context (option_xor (obj_meta_id ty) recently_added_type_id)
    "logical error. Seems like a type is at the same type pre-existing and recently added??";
  '(db, field_id) ← insert_fields_row
    {| fr_field_type := type_id_name (fld_type_id field); fr_type_id := type_id;
       fr_default_value := user_provided_default field;
       fr_is_optional := fld_is_optional field; fr_is_unique := fld_is_unique field |} db;
  let full_name := field_persisted_name field ty in
  _ ← ensure (length (split_on "."%char full_name) =? 3)
        "Expected version and type information as part of the field name. Should have caught sooner! Aborting";
  db ← insert_field_names_row full_name field_id db;
  foldM (fun db label => insert_field_labels_row label field_id db) db (fld_labels field).

(** ** Writing types *)

Definition insert_indexes (type_id : Z) (db : MetaDb) (indexes : list DbIndex) : result MetaDb :=
  foldM (fun db index =>
    insert_indexes_row {| ir_type_id := type_id; ir_fields := str_join ";" (idx_fields index) |} db)
    db indexes.

Definition delete_indexes (db : MetaDb) (indexes : list DbIndex) : result MetaDb :=
  foldM (fun db index =>
    index_id ← option_context (idx_meta_id index) "index id must be known when updating type";
    Ok (delete_indexes_row index_id db)) db indexes.

Definition insert_type (db : MetaDb) (ty : ObjectType) : result MetaDb :=
  '(db, id) ← insert_types_row (obj_backing_table ty) db;
  db ← insert_type_names_row id (persisted_name ty) db;
  db ← foldM (insert_field_query ty (Some id)) db (user_fields ty);
  insert_indexes id db (obj_indexes ty).

Definition remove_type (db : MetaDb) (ty : ObjectType) : result MetaDb :=
  type_id ← option_context (obj_meta_id ty) "logical error. Trying to delete type without id";
  db ← foldM remove_field_query db (user_fields ty);
  let db := delete_types type_id db in
  Ok (delete_type_names type_id db).

Definition update_type (db : MetaDb) (ty : ObjectType) (delta : ObjectDelta) : result MetaDb :=
  db ← foldM (insert_field_query ty None) db (added_fields delta);
  db ← foldM remove_field_query db (removed_fields delta);
  db ← foldM update_field_query db (updated_fields delta);
  db ← delete_indexes db (removed_indexes delta);
  type_id ← option_context (obj_meta_id ty) "object must have an id when it's being updated";
  insert_indexes type_id db (added_indexes delta).

(** ** Versions *)

Definition persist_version_info (version_id : string) (info : VersionInfo) (db : MetaDb) : MetaDb :=
  set_version_tables (<[version_id := info]> (db_api_info db)) (db_modules db) (db_policies db)
    (db_policy_store db) db.

(** The modules are the entries of a [HashMap], in some order. *)
Definition persist_modules (version_id : string) (modules : list (string * string)) (db : MetaDb)
    : result MetaDb :=
  let drop := filter (fun r => r.1.1 <> version_id) (db_modules db) in
  stored ← foldM (fun stored '(url, code) =>
    _ ← constraint "INSERT INTO modules (version, url, code) VALUES ($1, $2, $3)"
          (bool_decide (stored !! (version_id, url) = None));
    Ok (<[(version_id, url) := code]> stored)) drop modules;
  Ok (set_version_tables (db_api_info db) stored (db_policies db) (db_policy_store db) db).

Definition persist_policy_version (version_id policy : string) (db : MetaDb) : MetaDb :=
  set_version_tables (db_api_info db) (db_modules db) (<[version_id := policy]> (db_policies db))
    (db_policy_store db) db.

Definition delete_policy_version (version_id : string) (db : MetaDb) : MetaDb :=
  set_version_tables (db_api_info db) (db_modules db) (delete version_id (db_policies db))
    (db_policy_store db) db.

(** The JSON text of the policy sources ([serde_json]). *)
Class StoreText := {
  store_to_string : gmap string string -> result string;
  store_from_str : string -> result (gmap string string);
}.

Definition persist_policy_sources {ST : StoreText} (version_id : string)
    (sources : gmap string string) (db : MetaDb) : result MetaDb :=
  json ← store_to_string sources;
  Ok (set_version_tables (db_api_info db) (db_modules db) (db_policies db)
        (<[version_id := json]> (db_policy_store db)) db).

Definition load_policy_sources {ST : StoreText} (version_id : string) (db : MetaDb)
    : result (gmap string string) :=
  match db_policy_store db !! version_id with
  | Some json => store_from_str json
  | None => Ok ∅
  end.

Definition load_policy_system {RL : RegexLib} {ML : MethodLib} {YL : YamlLib} (version_id : string)
    (db : MetaDb) : result PolicySystem :=
  yaml ← with_context
    (option_context (db_policies db !! version_id)
       "no rows returned by a query that expected to return at least one row")
    "Failed to execute query SELECT policy_str FROM policies WHERE version = $1";
  from_yaml yaml.

(** ** Reading *)

(** The order of the rows of a query without [ORDER BY]. *)
Class RowOrder := { in_order : forall {A}, list A -> list A }.

Section Load.
Context {RO : RowOrder}.

Definition load_version_infos (db : MetaDb) : gmap string VersionInfo :=
  foldl (fun infos '(version_id, info) => <[version_id := info]> infos) ∅
    (in_order (map_to_list (db_api_info db))).

Definition load_modules (version_id : string) (db : MetaDb) : gmap string string :=
  let rows := in_order (filter (fun r => r.1.1 = version_id) (map_to_list (db_modules db))) in
  foldl (fun modules '(_, url, code) => <[url := code]> modules) ∅ rows.

(** The rows of the join of [field_names] and the fields of a type. *)
Definition field_rows (type_id : Z) (db : MetaDb) : list (string * Z * FieldRow) :=
  in_order (omap (fun '(field_name, field_id) =>
    match db_fields db !! field_id with
    | Some row =>
        if decide (fr_type_id row = type_id) then Some (field_name, field_id, row) else None
    | None => None
    end) (map_to_list (db_field_names db))).

Definition load_field_row (ts : TypeSystem) (db : MetaDb) (row : string * Z * FieldRow) : result Field :=
  let '(db_field_name, field_id, row) := row in
  match split_on "."%char db_field_name with
  | [version_id; _; field_name] =>
      ty ← map_err ts_error (lookup_type ts (fr_field_type row));
      let desc := {| ef_name := field_name; ef_ty := ty; ef_id := field_id;
                     ef_version_id := version_id |} in
      let labels := (in_order (filter (fun r => r.2 = field_id) (db_field_labels db))).*1 in
      Ok (Field_new desc labels (fr_default_value row) (fr_is_optional row) (fr_is_unique row))
  | _ => bail "Expected version and type information as part of the field name. Database corrupted?"
  end.

Definition load_type_fields (ts : TypeSystem) (type_id : Z) (db : MetaDb) : result (list Field) :=
  foldM (fun fields row => field ← load_field_row ts db row; Ok (fields ++ [field])) []
    (field_rows type_id db).

Definition load_type_indexes (type_id : Z) (backing_table : string) (db : MetaDb) : list DbIndex :=
  (fun '(index_id, row) => DbIndex_new index_id backing_table (split_on ";"%char (ir_fields row)))
  <$> in_order (filter (fun r => ir_type_id r.2 = type_id) (map_to_list (db_indexes db))).

(** The rows of the join of [types] and [type_names]. *)
Definition type_rows (db : MetaDb) : list (Z * string * string) :=
  in_order (omap (fun '(name, type_id) =>
    (fun backing_table => (type_id, backing_table, name)) <$> db_types db !! type_id)
    (map_to_list (db_type_names db))).

(** The type of a row, with what its fields refer to in [ts]. *)
Definition load_type (db : MetaDb) (ts : TypeSystem) (desc : ExistingObject) (type_id : Z)
    (backing_table : string) (fields : list Field) : result TypeSystem :=
  let indexes := load_type_indexes type_id backing_table db in
  ty ← ObjectType_new desc fields indexes;
  map_err ts_error (add_custom_type ts (Custom ty)).

Definition version_entry (builtin : BuiltinTypes) (tss : gmap string TypeSystem)
    (version_id : string) : TypeSystem :=
  default (TypeSystem_new builtin version_id) (tss !! version_id).

(** One turn of the first loop: a type whose fields do not load is kept for
    the second. *)
Definition load_first (builtin : BuiltinTypes) (db : MetaDb)
    (s : gmap string TypeSystem * list (Z * string * string)) (row : Z * string * string)
    : result (gmap string TypeSystem * list (Z * string * string)) :=
  let '(type_systems, failures) := s in
  let '(type_id, backing_table, type_name) := row in
  desc ← ExistingObject_new type_name backing_table type_id;
  let ts := version_entry builtin type_systems (eo_version_id desc) in
  let type_systems := <[eo_version_id desc := ts]> type_systems in
  match load_type_fields ts type_id db with
  | Ok fields =>
      ts ← load_type db ts desc type_id backing_table fields;
      Ok (<[eo_version_id desc := ts]> type_systems, failures)
  | Err _ => Ok (type_systems, failures ++ [row])
  | Panic w => Panic w
  end.

Definition load_again (builtin : BuiltinTypes) (db : MetaDb) (type_systems : gmap string TypeSystem)
    (row : Z * string * string) : result (gmap string TypeSystem) :=
  let '(type_id, backing_table, type_name) := row in
  desc ← ExistingObject_new type_name backing_table type_id;
  let ts := version_entry builtin type_systems (eo_version_id desc) in
  fields ← load_type_fields ts type_id db;
  ts ← load_type db ts desc type_id backing_table fields;
  Ok (<[eo_version_id desc := ts]> type_systems).

Definition load_type_systems (builtin : BuiltinTypes) (db : MetaDb)
    : result (gmap string TypeSystem) :=
  '(type_systems, failures) ← foldM (load_first builtin db) (∅, []) (type_rows db);
  foldM (load_again builtin db) type_systems failures.

End Load.
