(* ===== verification/MetaSpec.v ===== *)
(** * The metadata store: what it keeps

    [consistent]: the invariant of the tables.  [stores]: a row of [types], with
    the rows that refer to it, represents an object type.  Writing operations
    change the represented type as they are meant to and leave the other types
    alone; reading gives the represented type back. *)

From S2P Require Import Prelude Ident Types Builtin TypeSystem Policies Query Meta.

(** ** Vocabulary *)

Record consistent (db : MetaDb) : Prop := {
  c_types : forall id t, db_types db !! id = Some t -> (id < db_next_type_id db)%Z;
  c_type_names : forall n id, db_type_names db !! n = Some id -> is_Some (db_types db !! id);
  c_fields : forall fid row, db_fields db !! fid = Some row ->
    (fid < db_next_field_id db)%Z /\ is_Some (db_types db !! fr_type_id row);
  c_field_names : forall n fid, db_field_names db !! n = Some fid -> is_Some (db_fields db !! fid);
  c_labels : forall l fid, (l, fid) ∈ db_field_labels db -> is_Some (db_fields db !! fid);
  c_indexes : forall iid row, db_indexes db !! iid = Some row ->
    (iid < db_next_index_id db)%Z /\ is_Some (db_types db !! ir_type_id row);
}.

Definition labels_of (db : MetaDb) (fid : Z) : list string :=
  (filter (fun r => r.2 = fid) (db_field_labels db)).*1.

(** A field with its id. *)
Definition with_id (id : Z) (f : Field) : Field :=
  {| fld_id := Some id; fld_name := fld_name f; fld_type_id := fld_type_id f;
     fld_labels := fld_labels f; fld_is_optional := fld_is_optional f;
     fld_is_unique := fld_is_unique f; fld_default := fld_default f;
     fld_effective_default := fld_effective_default f; fld_version_id := fld_version_id f |}.

Definition field_row (tid : Z) (f : Field) : FieldRow :=
  {| fr_field_type := type_id_name (fld_type_id f); fr_type_id := tid;
     fr_default_value := fld_default f; fr_is_optional := fld_is_optional f;
     fr_is_unique := fld_is_unique f |}.

(** The rows of a field: its [fields] row, its one name and its labels, in some
    order. *)
Definition field_stored (db : MetaDb) (tid : Z) (ty : ObjectType) (f : Field) : Prop :=
  exists fid, fld_id f = Some fid /\ db_fields db !! fid = Some (field_row tid f) /\
    (forall n, db_field_names db !! n = Some fid <-> n = field_persisted_name f ty) /\
    labels_of db fid ≡ₚ fld_labels f.

Record fields_stored (db : MetaDb) (tid : Z) (ty : ObjectType) (fs : list Field) : Prop := {
  fs_each : Forall (field_stored db tid ty) fs;
  fs_ids : NoDup (fld_id <$> fs);
  fs_all : forall fid row, db_fields db !! fid = Some row -> fr_type_id row = tid ->
    Some fid ∈ fld_id <$> fs;
}.

Definition index_row (tid : Z) (i : DbIndex) : IndexRow :=
  {| ir_type_id := tid; ir_fields := str_join ";" (idx_fields i) |}.

Definition index_stored (db : MetaDb) (tid : Z) (table : string) (i : DbIndex) : Prop :=
  exists iid, i = DbIndex_new iid table (idx_fields i) /\
    db_indexes db !! iid = Some (index_row tid i).

Record indexes_stored (db : MetaDb) (tid : Z) (table : string) (l : list DbIndex) : Prop := {
  is_each : Forall (index_stored db tid table) l;
  is_ids : NoDup (idx_meta_id <$> l);
  is_all : forall iid row, db_indexes db !! iid = Some row -> ir_type_id row = tid ->
    Some iid ∈ idx_meta_id <$> l;
}.

Record stores (db : MetaDb) (tid : Z) (ty : ObjectType) : Prop := {
  st_id : obj_meta_id ty = Some tid;
  st_table : db_types db !! tid = Some (obj_backing_table ty);
  st_name : forall n, db_type_names db !! n = Some tid <-> n = persisted_name ty;
  st_fields : fields_stored db tid ty (obj_fields ty);
  st_indexes : indexes_stored db tid (obj_backing_table ty) (obj_indexes ty);
  st_chisel_id : obj_chisel_id ty = the_chisel_id;
}.

(** The rows of a type are the same in two states. *)
Record same_fields (tid : Z) (db db' : MetaDb) : Prop := {
  sf_row : forall fid row, fr_type_id row = tid ->
    db_fields db' !! fid = Some row <-> db_fields db !! fid = Some row;
  sf_name : forall fid row, db_fields db !! fid = Some row -> fr_type_id row = tid ->
    forall n, db_field_names db' !! n = Some fid <-> db_field_names db !! n = Some fid;
  sf_labels : forall fid row, db_fields db !! fid = Some row -> fr_type_id row = tid ->
    labels_of db' fid = labels_of db fid;
}.

Definition same_indexes (tid : Z) (db db' : MetaDb) : Prop :=
  forall iid row, ir_type_id row = tid ->
    db_indexes db' !! iid = Some row <-> db_indexes db !! iid = Some row.

Record same_type_row (tid : Z) (db db' : MetaDb) : Prop := {
  sty_row : db_types db' !! tid = db_types db !! tid;
  sty_name : forall n, db_type_names db' !! n = Some tid <-> db_type_names db !! n = Some tid;
}.

Definition same_rows (tid : Z) (db db' : MetaDb) : Prop :=
  same_type_row tid db db' /\ same_fields tid db db' /\ same_indexes tid db db'.

(** ** Frames *)

Lemma same_fields_refl tid db : same_fields tid db db.
Proof. by split. Qed.

Lemma same_fields_trans tid db1 db2 db3 :
  same_fields tid db1 db2 -> same_fields tid db2 db3 -> same_fields tid db1 db3.
Proof.
  intros [R1 N1 L1] [R2 N2 L2]. split.
  - intros fid row Hr. by rewrite R2, R1.
  - intros fid row Hf Hr n. pose proof (proj2 (R1 fid row Hr) Hf) as Hf2.
    by rewrite (N2 fid row Hf2 Hr), (N1 fid row Hf Hr).
  - intros fid row Hf Hr. pose proof (proj2 (R1 fid row Hr) Hf) as Hf2.
    by rewrite (L2 fid row Hf2 Hr), (L1 fid row Hf Hr).
Qed.

Lemma same_rows_refl tid db : same_rows tid db db.
Proof. repeat split; done. Qed.

Lemma same_rows_trans tid db1 db2 db3 :
  same_rows tid db1 db2 -> same_rows tid db2 db3 -> same_rows tid db1 db3.
Proof.
  intros ([T1 N1] & F1 & I1) ([T2 N2] & F2 & I2). split; [|split].
  - split; [by rewrite T2, T1|]. intros n. by rewrite N2, N1.
  - by eapply same_fields_trans.
  - intros iid row Hr. by rewrite (I2 iid row Hr), (I1 iid row Hr).
Qed.

#[export] Instance same_rows_preorder tid : PreOrder (same_rows tid).
Proof. split; [intros ?; apply same_rows_refl|intros ???; apply same_rows_trans]. Qed.

Lemma field_stored_same db db' tid ty f :
  same_fields tid db db' -> field_stored db tid ty f -> field_stored db' tid ty f.
Proof.
  intros [R N L] (fid & Hid & Hrow & Hname & Hlabels). exists fid. split; [done|].
  split; [by apply R|]. split; [intros n; by rewrite (N fid _ Hrow)|by rewrite (L fid _ Hrow)].
Qed.

Lemma fields_stored_same db db' tid ty fs :
  same_fields tid db db' -> fields_stored db tid ty fs -> fields_stored db' tid ty fs.
Proof.
  intros Hs [He Hn Ha]. split; [|done|].
  - eapply Forall_impl; [exact He|]. intros f. by apply field_stored_same.
  - intros fid row Hrow Hr. apply Hs in Hrow; [|done]. by eapply Ha.
Qed.

Lemma indexes_stored_same db db' tid table l :
  same_indexes tid db db' -> indexes_stored db tid table l -> indexes_stored db' tid table l.
Proof.
  intros Hs [He Hn Ha]. split; [|done|].
  - eapply Forall_impl; [exact He|]. intros i (iid & Hi & Hrow). exists iid. split; [done|by apply Hs].
  - intros iid row Hrow Hr. apply Hs in Hrow; [|done]. by eapply Ha.
Qed.

Lemma stores_same db db' tid ty : same_rows tid db db' -> stores db tid ty -> stores db' tid ty.
Proof.
  intros ([T N] & F & I) [H1 H2 H3 H4 H5 H6]. split; try done.
  - by rewrite T.
  - intros n. by rewrite N.
  - by eapply fields_stored_same.
  - by eapply indexes_stored_same.
Qed.

(** A step of the store that keeps the invariant, and every type but [tid]. *)
Definition step_keeps (tid : Z) (db db' : MetaDb) : Prop :=
  consistent db' /\ forall other, other <> tid -> same_rows other db db'.

(** ** Statements *)

Lemma constraint_ok q c u : constraint q c = Ok u <-> c = true.
Proof. unfold constraint. rewrite with_context_ok. apply ensure_ok. Qed.

Lemma set_field_tables_same db :
  set_field_tables (db_fields db) (db_field_names db) (db_field_labels db) (db_next_field_id db) db = db.
Proof. by destruct db. Qed.

Definition add_labels (fid : Z) (labels : list string) (db : MetaDb) : MetaDb :=
  set_field_tables (db_fields db) (db_field_names db)
    (db_field_labels db ++ ((fun l => (l, fid)) <$> labels)) (db_next_field_id db) db.

Lemma insert_label_ok fid l db db' :
  insert_field_labels_row l fid db = Ok db' <->
  is_Some (db_fields db !! fid) /\ add_labels fid [l] db = db'.
Proof.
  unfold insert_field_labels_row. rewrite bind_unit_ok, constraint_ok, bool_decide_eq_true.
  naive_solver.
Qed.

Lemma add_labels_cons fid l labels db :
  add_labels fid labels (add_labels fid [l] db) = add_labels fid (l :: labels) db.
Proof. unfold add_labels, set_field_tables; cbn. by rewrite <- app_assoc. Qed.

Lemma insert_labels_ok fid labels db db' :
  foldM (fun db label => insert_field_labels_row label fid db) db labels = Ok db' <->
  (labels <> [] -> is_Some (db_fields db !! fid)) /\ db' = add_labels fid labels db.
Proof.
  revert db. induction labels as [|l labels IH]; intros db; cbn [foldM].
  - unfold add_labels. cbn. rewrite app_nil_r, set_field_tables_same. naive_solver.
  - rewrite bind_ok. setoid_rewrite insert_label_ok. split.
    + intros (db1 & (Hf & <-) & [_ ->]%IH). by rewrite add_labels_cons.
    + intros [Hf ->]. eexists. split; [split; [by apply Hf|done]|].
      apply IH. rewrite add_labels_cons. split; [intros; by apply Hf|done].
Qed.

(** The state after a field is inserted. *)
Definition with_field (tid : Z) (ty : ObjectType) (f : Field) (db : MetaDb) : MetaDb :=
  let fid := db_next_field_id db in
  set_field_tables (<[fid := field_row tid f]> (db_fields db))
    (<[field_persisted_name f ty := fid]> (db_field_names db))
    (db_field_labels db ++ ((fun l => (l, fid)) <$> fld_labels f)) (fid + 1) db.

Lemma insert_field_ok ty recent db f db' :
  insert_field_query ty recent db f = Ok db' <->
  exists tid, option_xor (obj_meta_id ty) recent = Some tid /\ is_Some (db_types db !! tid) /\
    length (split_on "."%char (field_persisted_name f ty)) = 3 /\
    db_field_names db !! field_persisted_name f ty = None /\ db' = with_field tid ty f db.
Proof.
  unfold insert_field_query. rewrite bind_ok. setoid_rewrite option_context_ok.
  apply exist_proper; intros tid. apply and_iff_compat_l.
  unfold insert_fields_row. rewrite bind_ok. split.
  - intros ([db1 fid] & H1 & H). apply bind_unit_ok in H1 as [Ht%constraint_ok%bool_decide_eq_true H1].
    injection H1 as <- <-.
    apply bind_unit_ok in H as [Hlen%ensure_ok%Nat.eqb_eq H].
    apply bind_ok in H as (db2 & H2 & [_ ->]%insert_labels_ok).
    apply bind_unit_ok in H2 as [Hn%constraint_ok%bool_decide_eq_true [= <-]].
    destruct Hn as [Hn _]. by repeat split.
  - intros (Ht & Hlen & Hn & ->). eexists (_, _). split.
    { apply bind_unit_ok. split; [by apply constraint_ok, bool_decide_eq_true|done]. }
    apply bind_unit_ok. split; [by apply ensure_ok, Nat.eqb_eq|]. apply bind_ok. eexists. split.
    { apply bind_unit_ok. split; [|done]. apply constraint_ok, bool_decide_eq_true. split; [done|].
      cbn. rewrite lookup_insert_eq. by eexists. }
    apply insert_labels_ok. split; [|done]. intros _. cbn. rewrite lookup_insert_eq. by eexists.
Qed.

(** ** Inserting fields *)

Lemma labels_of_app db fid' labels fid :
  (filter (fun r => r.2 = fid) (db_field_labels db ++ ((fun l => (l, fid')) <$> labels))).*1 =
  labels_of db fid ++ if decide (fid' = fid) then labels else [].
Proof.
  rewrite filter_app, fmap_app. f_equal.
  destruct (decide (fid' = fid)) as [->|Hne]; (induction labels as [|l labels IH]; [done|]).
  - rewrite fmap_cons, filter_cons_True, fmap_cons, IH by done. done.
  - rewrite fmap_cons, filter_cons_False by done. done.
Qed.

Lemma labels_of_fresh db fid : consistent db -> db_fields db !! fid = None -> labels_of db fid = [].
Proof.
  intros Hc Hf. unfold labels_of. destruct (filter _ _) as [|[l fid'] r] eqn:E; [done|].
  assert ((l, fid') ∈ filter (fun r => r.2 = fid) (db_field_labels db)) as Hin by (rewrite E; left).
  apply list_elem_of_filter in Hin as [Heq Hin]. cbn in Heq. subst fid'.
  apply (c_labels _ Hc) in Hin. rewrite Hf in Hin. by destruct Hin.
Qed.

Lemma fresh_field db : consistent db -> db_fields db !! db_next_field_id db = None.
Proof.
  intros Hc. apply eq_None_not_Some. intros [row Hrow]. apply (c_fields _ Hc) in Hrow. lia.
Qed.

Section WithField.
Context (db : MetaDb) (tid : Z) (ty : ObjectType) (f : Field) (Hc : consistent db)
  (Ht : is_Some (db_types db !! tid)) (Hn : db_field_names db !! field_persisted_name f ty = None).

Notation db' := (with_field tid ty f db).
Notation next := (db_next_field_id db).

Lemma with_field_old fid : fid <> next ->
  db_fields db' !! fid = db_fields db !! fid /\
  (forall n, db_field_names db' !! n = Some fid <-> db_field_names db !! n = Some fid) /\
  labels_of db' fid = labels_of db fid.
Proof.
  intros Hne. cbn. rewrite lookup_insert_ne by done. split; [done|split].
  - intros n. destruct (decide (n = field_persisted_name f ty)) as [->|].
    + rewrite lookup_insert_eq, Hn. naive_solver.
    + by rewrite lookup_insert_ne.
  - unfold labels_of; cbn. rewrite labels_of_app, decide_False by done. apply app_nil_r.
Qed.

Lemma with_field_new : field_stored db' tid ty (with_id next f).
Proof.
  exists next. cbn. split; [done|]. rewrite lookup_insert_eq. split; [done|split].
  - intros n. destruct (decide (n = field_persisted_name f ty)) as [->|].
    + by rewrite lookup_insert_eq.
    + rewrite lookup_insert_ne by done. split; [|done].
      intros [row Hrow]%(c_field_names _ Hc). by rewrite fresh_field in Hrow.
  - unfold labels_of; cbn. rewrite labels_of_app, decide_True by done.
    by rewrite labels_of_fresh by (done || by apply fresh_field).
Qed.

Lemma with_field_consistent : consistent db'.
Proof.
  pose proof Hc as [C1 C2 C3 C4 C5 C6]. split; cbn; try done.
  - intros fid row. destruct (decide (fid = next)) as [->|].
    + rewrite lookup_insert_eq. intros [= <-]. split; [lia|done].
    + rewrite lookup_insert_ne by done. intros H%C3. split; [lia|apply H].
  - intros n fid. destruct (decide (n = field_persisted_name f ty)) as [->|].
    + rewrite lookup_insert_eq. intros [= <-]. rewrite lookup_insert_eq. by eexists.
    + rewrite lookup_insert_ne by done. intros H%C4. apply lookup_insert_is_Some'. by right.
  - intros l fid [H%C5|(? & [= -> ->] & _)%list_elem_of_fmap]%elem_of_app;
      apply lookup_insert_is_Some'; [by right|by left].
Qed.

Lemma with_field_same other : other <> tid -> same_rows other db db'.
Proof.
  intros Hne. split; [by split|split; [|done]].
  assert (forall fid row, fr_type_id row = other -> db_fields db !! fid = Some row -> fid <> next)
    as Hold.
  { intros fid row _ Hrow ->. by rewrite fresh_field in Hrow. }
  split.
  - intros fid row Hr. destruct (decide (fid = next)) as [->|Hf].
    + rewrite (fresh_field db) by done. cbn. rewrite lookup_insert_eq.
      split; [|done]. intros [= <-]. by destruct Hne.
    + by rewrite (proj1 (with_field_old fid Hf)).
  - intros fid row Hrow Hr. apply (with_field_old fid (Hold fid row Hr Hrow)).
  - intros fid row Hrow Hr. apply (with_field_old fid (Hold fid row Hr Hrow)).
Qed.

Lemma with_field_keeps : step_keeps tid db db'.
Proof. split; [apply with_field_consistent|apply with_field_same]. Qed.

Lemma with_field_stored fs :
  fields_stored db tid ty fs -> fields_stored db' tid ty (fs ++ [with_id next f]).
Proof.
  intros [He Hnd Ha].
  assert (forall g, field_stored db tid ty g -> fld_id g <> Some next) as Hold.
  { intros g (fid & -> & Hrow & _) [= ->]. by rewrite fresh_field in Hrow. }
  split.
  - apply Forall_app. split; [|by repeat constructor; apply with_field_new].
    eapply Forall_impl; [exact He|]. intros g Hg. pose proof (Hold g Hg) as Hne.
    destruct Hg as (fid & Hid & Hrow & Hnames & Hlabels). rewrite Hid in Hne.
    destruct (with_field_old fid) as (E1 & E2 & E3); [congruence|].
    exists fid. rewrite E1, E3. split; [done|split; [done|split; [|done]]].
    intros n. by rewrite E2.
  - rewrite fmap_app. apply NoDup_app. split; [done|split; [|by repeat constructor; set_solver]].
    intros id (g & -> & Hg)%list_elem_of_fmap Hin. rewrite Forall_forall in He.
    apply list_elem_of_singleton in Hin. by apply (Hold g (He g Hg)).
  - intros fid row Hrow Hr. rewrite fmap_app. apply elem_of_app. destruct (decide (fid = next)) as [->|Hf].
    + right. by left.
    + left. rewrite (proj1 (with_field_old fid Hf)) in Hrow. by eapply Ha.
Qed.

End WithField.

Fixpoint number_from (id : Z) (fs : list Field) : list Field :=
  match fs with
  | [] => []
  | f :: fs => with_id id f :: number_from (id + 1) fs
  end.

Lemma step_keeps_trans tid db1 db2 db3 :
  step_keeps tid db1 db2 -> step_keeps tid db2 db3 -> step_keeps tid db1 db3.
Proof.
  intros [_ K1] [C2 K2]. split; [done|]. intros other Ho. etrans; [by apply K1|by apply K2].
Qed.

Lemma insert_fields_fold ty recent tid fs db db' :
  option_xor (obj_meta_id ty) recent = Some tid -> consistent db ->
  foldM (insert_field_query ty recent) db fs = Ok db' ->
  step_keeps tid db db' /\ same_type_row tid db db' /\ db_indexes db' = db_indexes db /\
  (forall fs0, fields_stored db tid ty fs0 ->
     fields_stored db' tid ty (fs0 ++ number_from (db_next_field_id db) fs)).
Proof.
  intros Hx. revert db. induction fs as [|f fs IH]; intros db Hc; cbn [foldM].
  - intros [= <-]. split; [by split|split; [done|split; [done|]]].
    intros fs0. cbn. by rewrite app_nil_r.
  - intros (db1 & H1 & H)%bind_ok. apply insert_field_ok in H1 as (tid' & Hx' & Ht & _ & Hn & ->).
    rewrite Hx in Hx'. injection Hx' as <-.
    pose proof (with_field_keeps db tid ty f Hc Ht Hn) as Hk.
    destruct (IH _ (proj1 Hk) H) as (Hk' & [T N] & HI & HF).
    split; [by eapply step_keeps_trans|split; [|split; [done|]]].
    + split; [by rewrite T|]. intros n. by rewrite N.
    + intros fs0 H0. cbn [number_from].
      replace (fs0 ++ with_id (db_next_field_id db) f :: _) with
        ((fs0 ++ [with_id (db_next_field_id db) f]) ++ number_from (db_next_field_id db + 1) fs)
        by (by rewrite <- app_assoc).
      apply HF. by apply with_field_stored.
Qed.

(** ** Removing and updating fields *)

Definition without_field (fid : Z) (db : MetaDb) : MetaDb :=
  delete_field_labels fid (delete_field_names fid (delete_fields fid db)).

Lemma remove_field_ok db f db' :
  remove_field_query db f = Ok db' <-> exists fid, fld_id f = Some fid /\ db' = without_field fid db.
Proof.
  unfold remove_field_query. rewrite bind_ok. setoid_rewrite option_context_ok.
  apply exist_proper; intros fid. apply and_iff_compat_l. split; [by intros [= <-]|by intros ->].
Qed.

(** A change of the field tables that concerns the field [fid] only. *)
Record only_field (fid : Z) (db db' : MetaDb) : Prop := {
  of_row : forall g, g <> fid -> db_fields db' !! g = db_fields db !! g;
  of_name : forall g n, g <> fid -> db_field_names db' !! n = Some g <-> db_field_names db !! n = Some g;
  of_labels : forall g, g <> fid -> labels_of db' g = labels_of db g;
}.

Lemma only_field_stored fid db db' tid ty f :
  only_field fid db db' -> fld_id f <> Some fid ->
  field_stored db tid ty f -> field_stored db' tid ty f.
Proof.
  intros [R N L] Hne (g & Hid & Hrow & Hn & Hl).
  assert (g <> fid) as Hg by congruence. exists g.
  rewrite (R g Hg), (L g Hg). split; [done|split; [done|split; [|done]]]. intros n. by rewrite N.
Qed.

Lemma only_field_same fid tid db db' other :
  only_field fid db db' -> other <> tid ->
  (forall row, db_fields db !! fid = Some row -> fr_type_id row = tid) ->
  (forall row, db_fields db' !! fid = Some row -> fr_type_id row = tid) ->
  same_fields other db db'.
Proof.
  intros [R N L] Hne H H'.
  assert (forall g row, db_fields db !! g = Some row -> fr_type_id row = other -> g <> fid) as Hg.
  { intros g row Hrow Hr ->. apply H in Hrow. congruence. }
  split.
  - intros g row Hr. destruct (decide (g = fid)) as [->|Hne'].
    + split; intros Hrow; [apply H' in Hrow|apply H in Hrow]; congruence.
    + by rewrite R.
  - intros g row Hrow Hr n. apply N. by eapply Hg.
  - intros g row Hrow Hr. apply L. by eapply Hg.
Qed.

(** Deleting fields, with the rows that refer to them. *)
Lemma restrict_fields_names keep db n g :
  db_field_names (restrict_fields keep db) !! n = Some g <->
  db_field_names db !! n = Some g /\ is_Some (keep !! g).
Proof. cbn. by rewrite map_lookup_filter_Some. Qed.

Lemma restrict_fields_labels keep db g : is_Some (keep !! g) ->
  labels_of (restrict_fields keep db) g = labels_of db g.
Proof.
  intros Hg. unfold labels_of; cbn. by rewrite list_filter_filter_l by (intros [? ?]; cbn; by intros ->).
Qed.

Lemma restrict_fields_consistent keep db :
  keep ⊆ db_fields db -> consistent db -> consistent (restrict_fields keep db).
Proof.
  intros Hk [C1 C2 C3 C4 C5 C6]. split; cbn; try done.
  - intros fid row Hrow. apply C3. by eapply lookup_weaken.
  - intros n fid. by intros [_ H]%map_lookup_filter_Some.
  - intros l fid. by intros [H _]%list_elem_of_filter.
Qed.

Lemma without_field_consistent fid db : consistent db -> consistent (without_field fid db).
Proof.
  intros Hc. assert (consistent (delete_fields fid db)) as [C1 C2 C3 C4 C5 C6]
    by (apply restrict_fields_consistent; [apply delete_subseteq|done]).
  split; try done.
  - intros n g. cbn. intros [H _]%map_lookup_filter_Some. by eapply C4.
  - intros l g. cbn. intros [_ H]%list_elem_of_filter. by eapply C5.
Qed.

Lemma without_field_only fid db : consistent db -> only_field fid db (without_field fid db).
Proof.
  intros Hc. split.
  - intros g Hg. cbn. by rewrite lookup_delete_ne.
  - intros g n Hg. cbn. rewrite !map_lookup_filter_Some. cbn. rewrite lookup_delete_ne by done.
    split; [tauto|]. intros Hn. repeat split; [done| |done]. by eapply c_field_names.
  - intros g Hg. destruct (db_fields db !! g) as [row|] eqn:Hrow.
    + unfold labels_of. cbn. rewrite list_filter_filter_l by (intros [? ?]; cbn; congruence).
      rewrite list_filter_filter_l; [done|]. intros [? ?]; cbn. intros ->.
      rewrite lookup_delete_ne by done. by eexists.
    + rewrite (labels_of_fresh db), labels_of_fresh; try done; [by apply without_field_consistent|].
      cbn. by rewrite lookup_delete_ne.
Qed.

Lemma without_field_gone fid db : db_fields (without_field fid db) !! fid = None.
Proof. cbn. apply lookup_delete_eq. Qed.

(** The field belongs to the type [tid], or to none. *)
Definition field_of (tid fid : Z) (db : MetaDb) : Prop :=
  forall row, db_fields db !! fid = Some row -> fr_type_id row = tid.

Lemma only_field_keeps fid tid db db' :
  db_types db' = db_types db -> db_type_names db' = db_type_names db ->
  db_indexes db' = db_indexes db -> consistent db' -> only_field fid db db' ->
  field_of tid fid db -> field_of tid fid db' -> step_keeps tid db db'.
Proof.
  intros HT HN HI Hc Ho Hf Hf'. split; [done|]. intros other Hne. split; [|split].
  - split; [by rewrite HT|by rewrite HN].
  - by eapply only_field_same.
  - intros iid row _. by rewrite HI.
Qed.

Lemma without_field_keeps fid tid db : consistent db -> field_of tid fid db ->
  step_keeps tid db (without_field fid db).
Proof.
  intros Hc Hf. apply (only_field_keeps fid); try done.
  - by apply without_field_consistent.
  - by apply without_field_only.
  - intros row. by rewrite without_field_gone.
Qed.

Lemma without_field_stored fid tid db ty fs : consistent db ->
  fields_stored db tid ty fs ->
  fields_stored (without_field fid db) tid ty (filter (fun f => fld_id f <> Some fid) fs).
Proof.
  intros Hc [He Hn Ha]. split.
  - rewrite Forall_forall in He |- *. intros f [Hne Hf]%list_elem_of_filter.
    eapply only_field_stored; [by apply without_field_only|done|by apply He].
  - eapply sublist_NoDup; [exact Hn|]. by apply fmap_sublist, sublist_filter.
  - intros g row Hrow Hr. cbn in Hrow. apply lookup_delete_Some in Hrow as [Hne Hrow].
    specialize (Ha g row Hrow Hr). apply list_elem_of_fmap in Ha as (f & Hid & Hf).
    rewrite Hid. apply list_elem_of_fmap_2, list_elem_of_filter. split; [congruence|done].
Qed.

(** What an update makes of the stored field: the default is overwritten, never
    cleared. *)
Definition persist_delta (d : FieldDelta) (f : Field) : Field :=
  {| fld_id := fld_id f; fld_name := fld_name f;
     fld_type_id := match fdl_attrs d with Some a => fad_type_id a | None => fld_type_id f end;
     fld_labels := match fdl_labels d with Some l => l | None => fld_labels f end;
     fld_is_optional := match fdl_attrs d with Some a => fad_is_optional a | None => fld_is_optional f end;
     fld_is_unique := match fdl_attrs d with Some a => fad_is_unique a | None => fld_is_unique f end;
     fld_default := match fdl_attrs d with
                    | Some {| fad_default := Some v |} => Some v
                    | _ => fld_default f
                    end;
     fld_effective_default := fld_effective_default f;
     fld_version_id := fld_version_id f |}.

Definition with_delta (d : FieldDelta) (db : MetaDb) : MetaDb :=
  let fid := fdl_id d in
  let db :=
    match fdl_attrs d with
    | Some a => update_fields_row fid (type_id_name (fad_type_id a)) (fad_is_optional a)
                  (fad_is_unique a) (fad_default a) db
    | None => db
    end in
  match fdl_labels d with
  | Some labels => add_labels fid labels (delete_field_labels fid db)
  | None => db
  end.

Lemma update_field_query_ok db d db' : update_field_query db d = Ok db' <->
  (default [] (fdl_labels d) <> [] -> is_Some (db_fields db !! fdl_id d)) /\ db' = with_delta d db.
Proof.
  unfold update_field_query, with_delta. destruct (fdl_labels d) as [labels|]; cbn.
  - rewrite insert_labels_ok. destruct (fdl_attrs d); cbn; [|done]. by rewrite lookup_alter_eq, fmap_is_Some.
  - naive_solver.
Qed.

Lemma with_delta_row d db fid : db_fields (with_delta d db) !! fid =
  if decide (fid = fdl_id d) then
    (fun row => match fdl_attrs d with
     | Some a => {| fr_field_type := type_id_name (fad_type_id a); fr_type_id := fr_type_id row;
                    fr_default_value := match fad_default a with
                                        | None => fr_default_value row | Some v => Some v end;
                    fr_is_optional := fad_is_optional a; fr_is_unique := fad_is_unique a |}
     | None => row
     end) <$> db_fields db !! fid
  else db_fields db !! fid.
Proof.
  unfold with_delta. destruct (fdl_labels d), (fdl_attrs d) as [a|]; cbn; case_decide; subst;
    rewrite ?lookup_alter_eq, ?lookup_alter_ne by done; try done; by destruct (db_fields db !! _).
Qed.

Lemma with_delta_names d db : db_field_names (with_delta d db) = db_field_names db.
Proof. unfold with_delta. by destruct (fdl_labels d), (fdl_attrs d). Qed.

Lemma with_delta_frame d db : db_types (with_delta d db) = db_types db /\
  db_type_names (with_delta d db) = db_type_names db /\ db_indexes (with_delta d db) = db_indexes db /\
  db_next_type_id (with_delta d db) = db_next_type_id db /\
  db_next_field_id (with_delta d db) = db_next_field_id db /\
  db_next_index_id (with_delta d db) = db_next_index_id db.
Proof. unfold with_delta. by destruct (fdl_labels d), (fdl_attrs d). Qed.

Lemma with_delta_all_labels d db : db_field_labels (with_delta d db) =
  match fdl_labels d with
  | Some labels => filter (fun r => r.2 <> fdl_id d) (db_field_labels db) ++
                   ((fun l => (l, fdl_id d)) <$> labels)
  | None => db_field_labels db
  end.
Proof. unfold with_delta. by destruct (fdl_labels d), (fdl_attrs d). Qed.

Lemma with_delta_labels d db fid : labels_of (with_delta d db) fid =
  if decide (fid = fdl_id d) then default (labels_of db fid) (fdl_labels d) else labels_of db fid.
Proof.
  unfold labels_of. rewrite with_delta_all_labels.
  destruct (fdl_labels d) as [labels|]; [|by case_decide].
  rewrite filter_app, fmap_app.
  pose proof (labels_of_app empty_db (fdl_id d) labels fid) as H. cbn in H. rewrite H; clear H.
  rewrite list_filter_filter. case_decide as Hd.
  - subst. rewrite decide_True by done. cbn.
    induction (db_field_labels db) as [|[l g] r IH]; [done|]. rewrite filter_cons_False; [done|]. cbn. tauto.
  - rewrite decide_False by done. rewrite app_nil_r. f_equal. apply list_filter_iff.
    intros [l g]; cbn. split; [tauto|]. intros ->. done.
Qed.

Lemma with_delta_some d db fid : is_Some (db_fields (with_delta d db) !! fid) <-> is_Some (db_fields db !! fid).
Proof. rewrite with_delta_row. case_decide; by rewrite ?fmap_is_Some. Qed.

Lemma with_delta_consistent d db db' :
  consistent db -> update_field_query db d = Ok db' -> consistent db'.
Proof.
  intros [C1 C2 C3 C4 C5 C6] [Hl ->]%update_field_query_ok.
  pose proof (with_delta_frame d db) as (ET & EN & EI & E1 & E2 & E3).
  split; rewrite ?ET, ?EN, ?EI, ?E1, ?E2, ?E3; try done.
  - intros fid row. rewrite with_delta_row. case_decide; [|apply C3].
    intros (row0 & H0%C3 & ->)%fmap_Some. split; [apply H0|]. by destruct (fdl_attrs d); apply H0.
  - intros n fid. rewrite with_delta_names, with_delta_some. apply C4.
  - intros l fid. rewrite with_delta_all_labels, with_delta_some.
    destruct (fdl_labels d) as [labels|]; [|apply C5]. cbn in Hl.
    intros [[_ H]%list_elem_of_filter|(l' & [= -> ->] & H)%list_elem_of_fmap]%elem_of_app; [by eapply C5|].
    apply Hl. intros ->. by apply not_elem_of_nil in H.
Qed.

Lemma with_delta_only d db : only_field (fdl_id d) db (with_delta d db).
Proof.
  split.
  - intros g Hg. by rewrite with_delta_row, decide_False.
  - intros g n _. by rewrite with_delta_names.
  - intros g Hg. by rewrite with_delta_labels, decide_False.
Qed.

Lemma with_delta_of tid fid d db : field_of tid fid db -> field_of tid fid (with_delta d db).
Proof.
  intros Hf row. rewrite with_delta_row. case_decide; [|apply Hf].
  intros (row0 & H0%Hf & ->)%fmap_Some. by destruct (fdl_attrs d).
Qed.

Lemma with_delta_keeps tid d db db' : consistent db -> field_of tid (fdl_id d) db ->
  update_field_query db d = Ok db' -> step_keeps tid db db'.
Proof.
  intros Hc Hf Hu. pose proof (with_delta_consistent d db db' Hc Hu) as Hc'.
  apply update_field_query_ok in Hu as [_ ->].
  apply (only_field_keeps (fdl_id d)); try apply with_delta_frame; [done|apply with_delta_only|done|].
  by apply with_delta_of.
Qed.

Definition persist_at (d : FieldDelta) (f : Field) : Field :=
  if decide (fld_id f = Some (fdl_id d)) then persist_delta d f else f.

Lemma persist_at_id d f : fld_id (persist_at d f) = fld_id f.
Proof. unfold persist_at. by case_decide. Qed.

Lemma persist_at_name d f : fld_name (persist_at d f) = fld_name f.
Proof. unfold persist_at. by case_decide. Qed.

Lemma persist_at_version d f : fld_version_id (persist_at d f) = fld_version_id f.
Proof. unfold persist_at. by case_decide. Qed.

Lemma with_delta_stored d db tid ty fs :
  fields_stored db tid ty fs -> fields_stored (with_delta d db) tid ty (persist_at d <$> fs).
Proof.
  intros [He Hn Ha].
  assert (fld_id <$> (persist_at d <$> fs) = fld_id <$> fs) as Hids.
  { rewrite <- list_fmap_compose. apply list_fmap_ext. intros ? f _. apply persist_at_id. }
  split.
  - apply Forall_fmap. eapply Forall_impl; [exact He|]. intros f Hf. cbn. unfold persist_at.
    case_decide as Hd; [|by eapply only_field_stored; [apply with_delta_only|..]].
    destruct Hf as (fid & Hid & Hrow & Hnames & Hlabels). rewrite Hd in Hid. injection Hid as <-.
    exists (fdl_id d). rewrite with_delta_row, with_delta_labels, with_delta_names, !decide_True, Hrow by done.
    split; [done|split; [|split]].
    + cbn. unfold field_row, persist_delta; cbn. destruct (fdl_attrs d) as [[? [] ? ?]|]; done.
    + intros n. rewrite Hnames. done.
    + cbn. by destruct (fdl_labels d).
  - by rewrite Hids.
  - intros fid row. rewrite Hids, with_delta_row. case_decide; [|apply Ha].
    intros (row0 & H0 & ->)%fmap_Some Hr. apply (Ha fid row0 H0). by destruct (fdl_attrs d).
Qed.

(** ** Loops over fields *)

Lemma field_of_keeps tid fid db db' : db_fields db' ⊆ db_fields db ->
  field_of tid fid db -> field_of tid fid db'.
Proof. intros Hs Hf row Hrow. apply Hf. by eapply lookup_weaken. Qed.

Lemma without_field_subset fid db : db_fields (without_field fid db) ⊆ db_fields db.
Proof. cbn. apply delete_subseteq. Qed.

Definition drop_field (fs : list Field) (f : Field) : list Field :=
  filter (fun g => fld_id g <> fld_id f) fs.

Definition owned (tid : Z) (db : MetaDb) (id : option Z) : Prop :=
  exists fid, id = Some fid /\ field_of tid fid db.

Lemma remove_fields_fold tid ty removed db fs : consistent db ->
  fields_stored db tid ty fs -> Forall (fun f => owned tid db (fld_id f)) removed ->
  exists db', foldM remove_field_query db removed = Ok db' /\ step_keeps tid db db' /\
    same_type_row tid db db' /\ db_indexes db' = db_indexes db /\ db_fields db' ⊆ db_fields db /\
    fields_stored db' tid ty (foldl drop_field fs removed).
Proof.
  revert db fs. induction removed as [|f removed IH]; intros db fs Hc Hs Ho; cbn [foldM foldl].
  { exists db. split; [done|]. split; [by split|done]. }
  apply Forall_cons in Ho as [(fid & Hid & Hf) Ho].
  pose proof (without_field_keeps fid tid db Hc Hf) as Hk.
  destruct (IH (without_field fid db) (drop_field fs f)) as (db' & H & Hk' & [T N] & HI & HS & HF).
  - apply Hk.
  - unfold drop_field. rewrite Hid. by apply without_field_stored.
  - eapply Forall_impl; [exact Ho|]. intros g (gid & Hg & Hgf). exists gid. split; [done|].
    eapply field_of_keeps; [apply without_field_subset|done].
  - exists db'. split; [|split; [by eapply step_keeps_trans|split; [|split; [done|split; [|done]]]]].
    + apply bind_ok. exists (without_field fid db). split; [|done].
      apply remove_field_ok. by exists fid.
    + split; [by rewrite T|]. intros n. by rewrite N.
    + etrans; [exact HS|apply without_field_subset].
Qed.

Lemma update_fields_fold tid ty updated db db' fs : consistent db ->
  fields_stored db tid ty fs -> Forall (fun d => field_of tid (fdl_id d) db) updated ->
  foldM update_field_query db updated = Ok db' ->
  step_keeps tid db db' /\ same_type_row tid db db' /\ db_indexes db' = db_indexes db /\
  fields_stored db' tid ty (foldl (fun fs d => persist_at d <$> fs) fs updated).
Proof.
  revert db fs. induction updated as [|d updated IH]; intros db fs Hc Hs Ho; cbn [foldM foldl].
  { intros [= <-]. split; [by split|done]. }
  intros (db1 & H1 & H)%bind_ok. apply Forall_cons in Ho as [Hf Ho].
  pose proof (with_delta_keeps tid d db db1 Hc Hf H1) as Hk.
  apply update_field_query_ok in H1 as [_ ->].
  destruct (IH (with_delta d db) (persist_at d <$> fs)) as (Hk' & [T N] & HI & HF); try done.
  - apply Hk.
  - by apply with_delta_stored.
  - eapply Forall_impl; [exact Ho|]. intros g Hg. by apply with_delta_of.
  - destruct (with_delta_frame d db) as (ET & EN & EI & _).
    split; [by eapply step_keeps_trans|split; [|split; [by rewrite HI|done]]].
    split; [by rewrite T, ET|]. intros n. by rewrite N, EN.
Qed.

(** ** Indexes *)

Fixpoint number_indexes (id : Z) (table : string) (l : list DbIndex) : list DbIndex :=
  match l with
  | [] => []
  | i :: l => DbIndex_new id table (idx_fields i) :: number_indexes (id + 1) table l
  end.

(** A change of the table of indexes that concerns the type [tid] only. *)
Record only_indexes (tid : Z) (db db' : MetaDb) : Prop := {
  oi_rest : db' = set_indexes (db_indexes db') (db_next_index_id db') db;
  oi_others : forall other, other <> tid -> same_indexes other db db';
  oi_consistent : consistent db';
}.

Lemma set_indexes_same db : set_indexes (db_indexes db) (db_next_index_id db) db = db.
Proof. by destruct db. Qed.

Lemma only_indexes_refl tid db : consistent db -> only_indexes tid db db.
Proof. intros Hc. split; [by rewrite set_indexes_same|done|done]. Qed.

Lemma only_indexes_trans tid db1 db2 db3 :
  only_indexes tid db1 db2 -> only_indexes tid db2 db3 -> only_indexes tid db1 db3.
Proof.
  intros [R1 O1 C1] [R2 O2 C2]. split; [|intros other Ho|done].
  - rewrite R2, R1. by destruct db1.
  - intros iid row Hr. by rewrite (O2 other Ho iid row Hr), (O1 other Ho iid row Hr).
Qed.

Lemma only_indexes_keeps tid db db' : only_indexes tid db db' ->
  step_keeps tid db db' /\ same_type_row tid db db' /\ same_fields tid db db'.
Proof.
  intros [R O C].
  assert (db_types db' = db_types db /\ db_type_names db' = db_type_names db /\
    db_fields db' = db_fields db /\ db_field_names db' = db_field_names db /\
    db_field_labels db' = db_field_labels db) as (ET & EN & EF & EFN & EL) by (rewrite R; done).
  assert (forall other, same_type_row other db db') as HT by (split; [by rewrite ET|by rewrite EN]).
  assert (forall other, same_fields other db db') as HF.
  { split; intros; unfold labels_of; by rewrite ?EF, ?EFN, ?EL. }
  split; [|done]. split; [done|]. intros other Ho. split; [done|split; [done|by apply O]].
Qed.

Lemma insert_index_ok tid i db db' :
  insert_indexes_row (index_row tid i) db = Ok db' <->
  is_Some (db_types db !! tid) /\
  set_indexes (<[db_next_index_id db := index_row tid i]> (db_indexes db))
    (db_next_index_id db + 1) db = db'.
Proof.
  unfold insert_indexes_row. rewrite bind_unit_ok, constraint_ok, bool_decide_eq_true. naive_solver.
Qed.

Lemma insert_index_stored tid table i db db' l : consistent db ->
  insert_indexes_row (index_row tid i) db = Ok db' ->
  only_indexes tid db db' /\ db_next_index_id db' = (db_next_index_id db + 1)%Z /\
  (indexes_stored db tid table l ->
   indexes_stored db' tid table (l ++ [DbIndex_new (db_next_index_id db) table (idx_fields i)])).
Proof.
  intros [C1 C2 C3 C4 C5 C6] [Ht <-]%insert_index_ok.
  assert (forall iid row, db_indexes db !! iid = Some row -> iid <> db_next_index_id db) as Hfresh.
  { intros iid row H%C6 ->. lia. }
  split; [|split; [done|]].
  - split; [done| |].
    + intros other Ho iid row Hr. cbn. rewrite lookup_insert_Some. split.
      * intros [[_ <-]|[_ H]]; [by destruct Ho|done].
      * intros H. right. split; [|done]. apply Hfresh in H. done.
    + split; try done. cbn. intros iid row [[<- <-]|[_ H%C6]]%lookup_insert_Some.
      * split; [lia|done].
      * split; [lia|apply H].
  - intros [He Hn Ha]. split.
    + apply Forall_app. split.
      * eapply Forall_impl; [exact He|]. intros j (iid & Hj & Hrow). exists iid. split; [done|]. cbn.
        rewrite lookup_insert_ne; [done|]. apply Hfresh in Hrow. done.
      * repeat constructor. exists (db_next_index_id db). split; [done|]. cbn. by rewrite lookup_insert_eq.
    + rewrite fmap_app. apply NoDup_app. split; [done|split; [|by repeat constructor; set_solver]].
      intros id (j & -> & Hj)%list_elem_of_fmap Hin. rewrite Forall_forall in He.
      destruct (He j Hj) as (iid & Hj' & Hrow). apply list_elem_of_singleton in Hin.
      rewrite Hj' in Hin. cbn in Hin. injection Hin as ->. by apply Hfresh in Hrow.
    + cbn. intros iid row. rewrite fmap_app, elem_of_app, lookup_insert_Some.
      intros [[<- _]|[_ H]] Hr; [right; by left|left; by eapply Ha].
Qed.

Lemma insert_indexes_fold tid table l db db' l0 : consistent db ->
  insert_indexes tid db l = Ok db' ->
  only_indexes tid db db' /\
  (indexes_stored db tid table l0 ->
   indexes_stored db' tid table (l0 ++ number_indexes (db_next_index_id db) table l)).
Proof.
  unfold insert_indexes. revert db l0. induction l as [|i l IH]; intros db l0 Hc; cbn [foldM number_indexes].
  { intros [= <-]. rewrite app_nil_r. split; [by apply only_indexes_refl|done]. }
  intros (db1 & H1 & H)%bind_ok.
  destruct (insert_index_stored tid table i db db1 l0 Hc H1) as (Ho & Hnext & Hs).
  destruct (IH db1 (l0 ++ [DbIndex_new (db_next_index_id db) table (idx_fields i)])) as (Ho' & Hs');
    [apply Ho|done|].
  split; [by eapply only_indexes_trans|]. intros H0%Hs%Hs'. rewrite Hnext in H0.
  by rewrite <- app_assoc in H0.
Qed.

Definition drop_index (l : list DbIndex) (i : DbIndex) : list DbIndex :=
  filter (fun j => idx_meta_id j <> idx_meta_id i) l.

Definition index_owned (tid : Z) (db : MetaDb) (i : DbIndex) : Prop :=
  exists iid, idx_meta_id i = Some iid /\
    forall row, db_indexes db !! iid = Some row -> ir_type_id row = tid.

Lemma delete_index_stored tid table iid db l : consistent db ->
  (forall row, db_indexes db !! iid = Some row -> ir_type_id row = tid) ->
  only_indexes tid db (delete_indexes_row iid db) /\
  (indexes_stored db tid table l ->
   indexes_stored (delete_indexes_row iid db) tid table (filter (fun j => idx_meta_id j <> Some iid) l)).
Proof.
  intros [C1 C2 C3 C4 C5 C6] Hof. split.
  - split; [done| |].
    + intros other Ho jid row Hr. cbn. rewrite lookup_delete_Some. split; [tauto|].
      intros H. split; [|done]. intros ->. apply Hof in H. congruence.
    + split; try done. cbn. intros jid row [_ H]%lookup_delete_Some. by apply C6.
  - intros [He Hn Ha]. split.
    + rewrite Forall_forall in He |- *. intros j [Hne Hj]%list_elem_of_filter.
      destruct (He j Hj) as (jid & Hj' & Hrow). exists jid. split; [done|]. cbn.
      rewrite lookup_delete_ne; [done|]. rewrite Hj' in Hne. cbn in Hne. congruence.
    + eapply sublist_NoDup; [exact Hn|]. by apply fmap_sublist, sublist_filter.
    + cbn. intros jid row [Hne H]%lookup_delete_Some Hr. specialize (Ha jid row H Hr).
      apply list_elem_of_fmap in Ha as (j & Hid & Hj). rewrite Hid.
      apply list_elem_of_fmap_2, list_elem_of_filter. split; [congruence|done].
Qed.

Lemma delete_indexes_fold tid table removed db db' l : consistent db ->
  Forall (index_owned tid db) removed -> delete_indexes db removed = Ok db' ->
  only_indexes tid db db' /\
  (indexes_stored db tid table l -> indexes_stored db' tid table (foldl drop_index l removed)).
Proof.
  unfold delete_indexes. revert db l. induction removed as [|i removed IH]; intros db l Hc Ho; cbn [foldM foldl].
  { intros [= <-]. split; [by apply only_indexes_refl|done]. }
  apply Forall_cons in Ho as [(iid & Hid & Hof) Ho].
  intros (db1 & H1 & H)%bind_ok. rewrite Hid in H1. cbn in H1. injection H1 as <-.
  destruct (delete_index_stored tid table iid db l Hc Hof) as [Ho1 Hs1].
  destruct (IH (delete_indexes_row iid db) (drop_index l i)) as (Ho' & Hs'); [apply Ho1| |done|].
  - eapply Forall_impl; [exact Ho|]. intros j (jid & Hj & Hjf). exists jid. split; [done|].
    cbn. intros row [_ Hrow]%lookup_delete_Some. by apply Hjf.
  - split; [by eapply only_indexes_trans|]. intros H0%Hs1. apply Hs'. unfold drop_index. by rewrite Hid.
Qed.

(** ** Types *)

Definition with_ids (tid fid iid : Z) (ty : ObjectType) : ObjectType :=
  {| obj_meta_id := Some tid; obj_name := obj_name ty;
     obj_fields := number_from fid (obj_fields ty);
     obj_indexes := number_indexes iid (obj_backing_table ty) (obj_indexes ty);
     obj_chisel_id := obj_chisel_id ty; obj_backing_table := obj_backing_table ty;
     obj_version_id := obj_version_id ty |}.

(** What [stores] says of a field depends on the type's name only. *)
Lemma fields_stored_name db tid ty ty' fs : obj_name ty' = obj_name ty ->
  fields_stored db tid ty fs -> fields_stored db tid ty' fs.
Proof.
  intros Hn [He Hnd Ha]. split; [|done|done]. eapply Forall_impl; [exact He|].
  intros f (fid & H1 & H2 & H3 & H4). exists fid. unfold field_persisted_name in *. by rewrite Hn.
Qed.

Section NewType.
Context (db : MetaDb) (table name : string) (Hc : consistent db).
Notation id := (db_next_type_id db).

Definition with_type : MetaDb :=
  set_type_tables (<[id := table]> (db_types db)) (<[name := id]> (db_type_names db)) (id + 1) db.

Lemma fresh_type : db_types db !! id = None.
Proof. apply eq_None_not_Some. intros [t Ht%(c_types _ Hc)]. lia. Qed.

Lemma with_type_keeps : db_type_names db !! name = None -> step_keeps id db with_type.
Proof.
  intros Hn. pose proof Hc as [C1 C2 C3 C4 C5 C6]. pose proof fresh_type as Hfresh. split.
  - assert (forall x, is_Some (db_types db !! x) -> is_Some (<[id := table]> (db_types db) !! x)) as Hw.
    { intros x H. apply lookup_insert_is_Some'. by right. }
    split; cbn; try done.
    + intros x t [[<- _]|[_ H%C1]]%lookup_insert_Some; lia.
    + intros n x [[_ <-]|[_ H%C2]]%lookup_insert_Some; [|by apply Hw].
      rewrite lookup_insert_eq. by eexists.
    + intros fid row H%C3. split; [apply H|apply Hw, H].
    + intros iid row H%C6. split; [apply H|apply Hw, H].
  - intros other Ho. split; [|done]. split; cbn.
    + by rewrite lookup_insert_ne.
    + intros n. rewrite lookup_insert_Some. split; [intros [[_ <-]|[_ H]]; done|].
      intros H. right. split; [|done]. intros <-. by rewrite Hn in H.
Qed.

Lemma with_type_row : db_type_names db !! name = None -> db_types with_type !! id = Some table /\
  (forall n, db_type_names with_type !! n = Some id <-> n = name).
Proof.
  intros Hn. cbn. rewrite lookup_insert_eq. split; [done|]. intros n. rewrite lookup_insert_Some.
  split; [|intros ->; by left]. intros [[-> _]|[_ H%(c_type_names _ Hc)]]; [done|].
  rewrite fresh_type in H. by destruct H.
Qed.

Lemma with_type_no_rows ty : fields_stored with_type id ty [] /\ indexes_stored with_type id table [].
Proof.
  pose proof fresh_type as Hfresh. split; split; try apply Forall_nil_2; try constructor.
  - cbn. intros fid row [_ H]%(c_fields _ Hc) Hr. rewrite Hr, Hfresh in H. by destruct H.
  - cbn. intros iid row [_ H]%(c_indexes _ Hc) Hr. rewrite Hr, Hfresh in H. by destruct H.
Qed.

End NewType.

Lemma insert_type_steps db ty db' : insert_type db ty = Ok db' <->
  map_Forall (fun _ t => t <> obj_backing_table ty) (db_types db) /\
  db_type_names db !! persisted_name ty = None /\
  exists db2, foldM (insert_field_query ty (Some (db_next_type_id db)))
      (with_type db (obj_backing_table ty) (persisted_name ty)) (user_fields ty) = Ok db2 /\
    insert_indexes (db_next_type_id db) db2 (obj_indexes ty) = Ok db'.
Proof.
  unfold insert_type, insert_types_row, insert_type_names_row. split.
  - intros ([db1 id] & H1 & H)%bind_ok.
    apply bind_unit_ok in H1 as [Hm%constraint_ok%bool_decide_eq_true [= <- <-]].
    apply bind_ok in H as (db2 & H2 & H).
    apply bind_unit_ok in H2 as [Hn%constraint_ok%bool_decide_eq_true [= <-]].
    apply bind_ok in H as (db3 & H3 & H). split; [done|split; [apply Hn|]]. by exists db3.
  - intros (Hm & Hn & db2 & H2 & H). apply bind_ok. eexists (_, _). split.
    { apply bind_unit_ok. split; [by apply constraint_ok, bool_decide_eq_true|done]. }
    apply bind_ok. eexists. split.
    { apply bind_unit_ok. split; [|done]. apply constraint_ok, bool_decide_eq_true. split; [done|].
      cbn. rewrite lookup_insert_eq. by eexists. }
    apply bind_ok. exists db2. done.
Qed.

Lemma insert_type_stored db ty db' : consistent db ->
  obj_meta_id ty = None -> obj_chisel_id ty = the_chisel_id -> insert_type db ty = Ok db' ->
  step_keeps (db_next_type_id db) db db' /\
  exists iid, stores db' (db_next_type_id db)
    (with_ids (db_next_type_id db) (db_next_field_id db) iid ty).
Proof.
  intros Hc Hid Hch (_ & Hn & db2 & H2 & H3)%insert_type_steps.
  pose proof (with_type_keeps db (obj_backing_table ty) _ Hc Hn) as Hk1.
  destruct (with_type_row db (obj_backing_table ty) _ Hc Hn) as [Hrow Hname].
  destruct (with_type_no_rows db (obj_backing_table ty) (persisted_name ty) Hc ty) as [Hf0 Hi0].
  eapply insert_fields_fold in H2 as (Hk2 & [T2 N2] & HI2 & HF2); [|by rewrite Hid|apply Hk1].
  pose proof (proj1 Hk2) as Hc2. specialize (HF2 _ Hf0). cbn in HF2.
  assert (indexes_stored db2 (db_next_type_id db) (obj_backing_table ty) []) as Hi2.
  { eapply indexes_stored_same; [|exact Hi0]. intros iid row _. by rewrite HI2. }
  pose proof H3 as H3'.
  apply (insert_indexes_fold _ (obj_backing_table ty) _ _ _ []) in H3 as [Ho3 Hs3]; [|done].
  destruct (only_indexes_keeps _ _ _ Ho3) as (Hk3 & [T3 N3] & HF3).
  split; [by eapply step_keeps_trans; [|eapply step_keeps_trans]|].
  exists (db_next_index_id db2). split; cbn; try done.
  - by rewrite T3, T2.
  - intros n. by rewrite N3, N2, Hname.
  - eapply fields_stored_name; [|eapply fields_stored_same; [exact HF3|exact HF2]]. done.
  - exact (Hs3 Hi2).
Qed.

Lemma stored_owned db tid ty fs : fields_stored db tid ty fs ->
  Forall (fun f => owned tid db (fld_id f)) fs.
Proof.
  intros [He _ _]. eapply Forall_impl; [exact He|]. intros f (fid & Hid & Hrow & _).
  exists fid. split; [done|]. intros row Hrow'. rewrite Hrow in Hrow'. by injection Hrow' as <-.
Qed.

Lemma stored_index_owned db tid table l : indexes_stored db tid table l ->
  Forall (index_owned tid db) l.
Proof.
  intros [He _ _]. eapply Forall_impl; [exact He|]. intros i (iid & Hi & Hrow).
  exists iid. split; [by rewrite Hi|]. intros row Hrow'. rewrite Hrow in Hrow'. by injection Hrow' as <-.
Qed.

(** No row of any table is the type's, or refers to it. *)
Record no_rows (tid : Z) (db : MetaDb) : Prop := {
  nr_type : db_types db !! tid = None;
  nr_names : forall n, db_type_names db !! n <> Some tid;
  nr_fields : forall fid row, db_fields db !! fid = Some row -> fr_type_id row <> tid;
  nr_indexes : forall iid row, db_indexes db !! iid = Some row -> ir_type_id row <> tid;
}.

Lemma delete_types_same tid other db : consistent db -> other <> tid ->
  same_rows other db (delete_types tid db).
Proof.
  intros Hc Ho.
  assert (forall fid row, db_fields db !! fid = Some row -> fr_type_id row = other ->
    is_Some (filter (fun r => fr_type_id r.2 <> tid) (db_fields db) !! fid)) as Hkeep.
  { intros fid row Hrow Hr. exists row. apply map_lookup_filter_Some. cbn. split; congruence. }
  split; [|split; [split|]].
  - split; cbn; [by rewrite lookup_delete_ne|]. intros n. rewrite map_lookup_filter_Some. cbn. naive_solver.
  - intros fid row Hr. cbn. rewrite map_lookup_filter_Some. cbn. split; [tauto|]. split; congruence.
  - intros fid row Hrow Hr n. pose proof (Hkeep fid row Hrow Hr).
    pose proof (restrict_fields_names (filter (fun r => fr_type_id r.2 <> tid) (db_fields db)) db n fid)
      as Hnames. cbn in Hnames |- *. rewrite Hnames. tauto.
  - intros fid row Hrow Hr.
    apply (restrict_fields_labels (filter (fun r => fr_type_id r.2 <> tid) (db_fields db)) db fid).
    by eapply Hkeep.
  - intros iid row Hr. cbn. rewrite map_lookup_filter_Some. cbn. split; [tauto|]. split; congruence.
Qed.

Lemma delete_types_consistent tid db : consistent db -> consistent (delete_types tid db).
Proof.
  intros Hc. set (keep := filter (fun r => fr_type_id r.2 <> tid) (db_fields db)).
  assert (consistent (restrict_fields keep db)) as [C1 C2 C3 C4 C5 C6]
    by (apply restrict_fields_consistent; [apply map_filter_subseteq|done]).
  assert (forall x, x <> tid -> is_Some (db_types db !! x) -> is_Some (delete tid (db_types db) !! x))
    as Hw by (intros x Hx ?; by rewrite lookup_delete_ne).
  split; try done.
  - cbn. intros x t [_ H]%lookup_delete_Some. by eapply C1.
  - cbn. intros n x [H Hx]%map_lookup_filter_Some. apply Hw; [done|]. by eapply C2.
  - intros fid row Hrow. split; [by eapply C3|]. apply Hw; [|by eapply C3].
    by apply map_lookup_filter_Some in Hrow as [_ ?].
  - cbn. intros iid row [H Hr]%map_lookup_filter_Some. destruct (C6 iid row H).
    split; [done|by apply Hw].
Qed.

Lemma delete_types_no_rows tid db : no_rows tid (delete_types tid db).
Proof.
  split; cbn.
  - apply lookup_delete_eq.
  - by intros n [_ H]%map_lookup_filter_Some.
  - by intros fid row [_ H]%map_lookup_filter_Some.
  - by intros iid row [_ H]%map_lookup_filter_Some.
Qed.

Lemma delete_type_names_none tid db : no_rows tid db -> delete_type_names tid db = db.
Proof.
  intros [_ Hn _ _]. unfold delete_type_names. destruct db; cbn in *.
  unfold set_type_tables; cbn. f_equal. apply map_filter_id. intros n x H. cbn. intros ->. by apply (Hn n).
Qed.

Lemma remove_type_stored db tid ty : consistent db -> stores db tid ty ->
  exists db', remove_type db ty = Ok db' /\ step_keeps tid db db' /\ no_rows tid db'.
Proof.
  intros Hc Hs. pose proof (st_fields _ _ _ Hs) as Hf.
  destruct (remove_fields_fold tid ty (obj_fields ty) db _ Hc Hf (stored_owned _ _ _ _ Hf))
    as (db1 & H1 & Hk & _).
  exists (delete_types tid db1). split; [|split].
  - unfold remove_type. rewrite (st_id _ _ _ Hs). cbn. unfold user_fields. rewrite H1. cbn. f_equal.
    apply delete_type_names_none, delete_types_no_rows.
  - eapply step_keeps_trans; [exact Hk|]. split; [by apply delete_types_consistent, Hk|].
    intros other Ho. by apply delete_types_same; [apply Hk|].
  - apply delete_types_no_rows.
Qed.

(** What a delta makes of the stored type; [fid] and [iid] are the next ids. *)
Definition persisted (delta : ObjectDelta) (fid iid : Z) (ty : ObjectType) : ObjectType :=
  {| obj_meta_id := obj_meta_id ty; obj_name := obj_name ty;
     obj_fields := foldl (fun fs d => persist_at d <$> fs)
       (foldl drop_field (obj_fields ty ++ number_from fid (added_fields delta)) (removed_fields delta))
       (updated_fields delta);
     obj_indexes := foldl drop_index (obj_indexes ty) (removed_indexes delta) ++
       number_indexes iid (obj_backing_table ty) (added_indexes delta);
     obj_chisel_id := obj_chisel_id ty; obj_backing_table := obj_backing_table ty;
     obj_version_id := obj_version_id ty |}.

(** The delta speaks of the type's own fields and indexes. *)
Record delta_owned (ty : ObjectType) (delta : ObjectDelta) : Prop := {
  do_removed : Forall (fun f => fld_id f ∈ fld_id <$> obj_fields ty) (removed_fields delta);
  do_updated : Forall (fun d => Some (fdl_id d) ∈ fld_id <$> obj_fields ty) (updated_fields delta);
  do_indexes : Forall (fun i => idx_meta_id i ∈ idx_meta_id <$> obj_indexes ty) (removed_indexes delta);
}.

Lemma owned_ids db tid ty fs (ids : list (option Z)) : fields_stored db tid ty fs ->
  Forall (fun id => id ∈ fld_id <$> fs) ids -> Forall (owned tid db) ids.
Proof.
  intros Hs H. eapply Forall_impl; [exact H|]. cbn. intros id (f & -> & Hf)%list_elem_of_fmap.
  pose proof (stored_owned _ _ _ _ Hs) as Ho. rewrite Forall_forall in Ho. by apply Ho.
Qed.

(** The part of [update_type] that concerns fields. *)
Lemma update_type_fields db tid ty delta db1 db2 db3 : consistent db ->
  obj_meta_id ty = Some tid -> fields_stored db tid ty (obj_fields ty) -> delta_owned ty delta ->
  foldM (insert_field_query ty None) db (added_fields delta) = Ok db1 ->
  foldM remove_field_query db1 (removed_fields delta) = Ok db2 ->
  foldM update_field_query db2 (updated_fields delta) = Ok db3 ->
  step_keeps tid db db3 /\ same_type_row tid db db3 /\ db_indexes db3 = db_indexes db /\
  fields_stored db3 tid ty (obj_fields (persisted delta (db_next_field_id db) 0 ty)).
Proof.
  intros Hc Hid Hf [Dr Du _] H1 H2 H3.
  apply (insert_fields_fold _ _ tid) in H1 as (K1 & [T1 N1] & I1 & F1); [|by rewrite Hid|done].
  specialize (F1 _ Hf).
  assert (forall id, id ∈ fld_id <$> obj_fields ty ->
    id ∈ fld_id <$> obj_fields ty ++ number_from (db_next_field_id db) (added_fields delta)) as Hl.
  { intros id Hin. rewrite fmap_app. apply elem_of_app. by left. }
  destruct (remove_fields_fold tid ty (removed_fields delta) db1 _ (proj1 K1) F1)
    as (db2' & H2' & K2 & [T2 N2] & I2 & S2 & F2).
  { apply (Forall_fmap fld_id (owned tid db1)). eapply owned_ids; [exact F1|]. apply Forall_fmap.
    eapply Forall_impl; [exact Dr|]. intros f. apply Hl. }
  rewrite H2 in H2'. injection H2' as <-.
  destruct (update_fields_fold tid ty (updated_fields delta) db2 db3 _ (proj1 K2) F2)
    as (K3 & [T3 N3] & I3 & F3); [|done|].
  { assert (Forall (owned tid db1) ((fun d => Some (fdl_id d)) <$> updated_fields delta)) as Ho.
    { eapply owned_ids; [exact F1|]. apply Forall_fmap. eapply Forall_impl; [exact Du|]. intros d. apply Hl. }
    rewrite Forall_fmap in Ho. eapply Forall_impl; [exact Ho|]. cbn. intros d (fid & [= ->] & Hof).
    by eapply field_of_keeps. }
  split; [|split; [split; [congruence|intros n; by rewrite N3, N2, N1]|split; [congruence|done]]].
  do 2 (eapply step_keeps_trans; [eassumption|]). done.
Qed.

Lemma update_type_stored db tid ty delta db' : consistent db -> stores db tid ty ->
  delta_owned ty delta -> update_type db ty delta = Ok db' ->
  step_keeps tid db db' /\
  exists iid, stores db' tid (persisted delta (db_next_field_id db) iid ty).
Proof.
  intros Hc Hs Hd H. pose proof Hs as [Hid Htable Hname Hf Hi Hch].
  unfold update_type in H. apply bind_ok in H as (db1 & H1 & H). apply bind_ok in H as (db2 & H2 & H).
  apply bind_ok in H as (db3 & H3 & H). apply bind_ok in H as (db4 & H4 & H5).
  rewrite Hid in H5. cbn in H5.
  destruct (update_type_fields _ _ _ _ _ _ _ Hc Hid Hf Hd H1 H2 H3) as (K3 & [T3 N3] & EI & F3).
  assert (indexes_stored db3 tid (obj_backing_table ty) (obj_indexes ty)) as Hi3.
  { eapply indexes_stored_same; [|exact Hi]. intros iid row _. by rewrite EI. }
  apply (delete_indexes_fold tid (obj_backing_table ty) _ _ _ (obj_indexes ty)) in H4 as [O4 S4];
    [|apply K3|].
  2: { pose proof (do_indexes _ _ Hd) as Di. rewrite Forall_forall in Di |- *. intros i Hin.
       specialize (Di i Hin). apply list_elem_of_fmap in Di as (j & Hij & Hj).
       pose proof (stored_index_owned _ _ _ _ Hi3) as Ho. rewrite Forall_forall in Ho.
       destruct (Ho j Hj) as (iid & Hiid & Hr). exists iid. by rewrite Hij. }
  destruct (only_indexes_keeps _ _ _ O4) as (K4 & [T4 N4] & F4).
  apply (insert_indexes_fold tid (obj_backing_table ty) _ _ _
    (foldl drop_index (obj_indexes ty) (removed_indexes delta))) in H5 as [O5 S5]; [|apply K4].
  destruct (only_indexes_keeps _ _ _ O5) as (K5 & [T5 N5] & F5).
  split; [do 2 (eapply step_keeps_trans; [eassumption|]); done|].
  exists (db_next_index_id db4). split; cbn; try done.
  - by rewrite T5, T4, T3.
  - intros n. by rewrite N5, N4, N3, Hname.
  - eapply (fields_stored_name _ _ ty); [done|]. eapply fields_stored_same; [exact F5|].
    eapply fields_stored_same; [exact F4|exact F3].
  - by apply S5, S4.
Qed.
