(* ===== verification/MetaLoadSpec.v ===== *)
(** * Loading the metadata

    Reading a stored type gives it back up to the orders the database chooses;
    [load_type_systems], with its one retry, is a two-pass selection on the
    dependencies of the stored types. *)

From S2P Require Import Prelude Ident Types Builtin TypeSystem Policies Query Meta MetaSpec.

(** A query returns each of its rows once. *)
Class RowOrderLaws {RO : RowOrder} := {
  in_order_perm : forall A (l : list A), in_order l ≡ₚ l;
}.

Lemma foldM_append {E A B} (f : A -> outcome E B) acc l :
  foldM (fun acc x => y ← f x; Ok (acc ++ [y])) acc l = (ys ← mapM f l; Ok (acc ++ ys)).
Proof.
  revert acc. induction l as [|x l IH]; intros acc; cbn; [by rewrite app_nil_r|].
  destruct (f x) as [y| |]; cbn; [|done..]. rewrite IH.
  destruct (mapM f l); cbn; [|done..]. by rewrite <- app_assoc.
Qed.

Section Load.
Context {RO : RowOrder} {RL : RowOrderLaws}.

(** ** Rows *)

Definition row_of_field (tid : Z) (ty : ObjectType) (f : Field) : string * Z * FieldRow :=
  (field_persisted_name f ty, default 0%Z (fld_id f), field_row tid f).

Lemma field_rows_elem db tid n fid row :
  (n, fid, row) ∈ omap (fun '(field_name, field_id) =>
    match db_fields db !! field_id with
    | Some row => if decide (fr_type_id row = tid) then Some (field_name, field_id, row) else None
    | None => None
    end) (map_to_list (db_field_names db)) <->
  db_field_names db !! n = Some fid /\ db_fields db !! fid = Some row /\ fr_type_id row = tid.
Proof.
  rewrite list_elem_of_omap. split.
  - intros ([n' fid'] & Hin%elem_of_map_to_list & H).
    destruct (db_fields db !! fid') as [row'|] eqn:Hrow; [|done]. case_decide; [|done].
    injection H as <- <- <-. done.
  - intros (Hn & Hrow & Hr). exists (n, fid). split; [by apply elem_of_map_to_list|].
    rewrite Hrow. by rewrite decide_True.
Qed.

Lemma omap_key_NoDup {A B} (g : string * A -> option B) (key : B -> string) (l : list (string * A)) :
  (forall e y, g e = Some y -> key y = e.1) -> NoDup l.*1 -> NoDup (omap g l).
Proof.
  intros Hg. induction l as [|e l IH]; cbn; intros Hnd; [constructor|].
  apply NoDup_cons in Hnd as [He Hnd]. destruct (g e) as [y|] eqn:Hy; [|by apply IH].
  constructor; [|by apply IH]. intros (e' & He' & Hy')%list_elem_of_omap.
  apply He. rewrite <- (Hg e y Hy), (Hg e' y Hy'). by apply list_elem_of_fmap_2.
Qed.

Lemma row_of_field_inj tid ty fs db : fields_stored db tid ty fs -> NoDup (row_of_field tid ty <$> fs).
Proof.
  intros [He Hnd _]. rewrite Forall_forall in He. apply (NoDup_fmap_1 (fun r => Some r.1.2)).
  rewrite <- list_fmap_compose.
  replace ((fun r => Some r.1.2) ∘ row_of_field tid ty <$> fs) with (fld_id <$> fs); [done|].
  apply list_fmap_ext. intros i f Hf. cbn. apply list_elem_of_lookup_2 in Hf.
  destruct (He f Hf) as (fid & -> & _). done.
Qed.

Lemma field_rows_stored db tid ty fs : fields_stored db tid ty fs ->
  field_rows tid db ≡ₚ row_of_field tid ty <$> fs.
Proof.
  intros Hs. unfold field_rows. rewrite (in_order_perm _). apply NoDup_Permutation.
  - apply (omap_key_NoDup _ (fun y => y.1.1)); [|apply NoDup_fst_map_to_list].
    intros [n fid] y. destruct (db_fields db !! fid); [|done]. case_decide; [|done]. by intros [= <-].
  - by eapply row_of_field_inj.
  - pose proof Hs as [He Hnd Ha]. rewrite Forall_forall in He.
    intros [[n fid] row]. rewrite field_rows_elem, list_elem_of_fmap. split.
    + intros (Hn & Hrow & Hr). specialize (Ha fid row Hrow Hr).
      apply list_elem_of_fmap in Ha as (f & Hid & Hf). exists f. split; [|done].
      destruct (He f Hf) as (fid' & Hid' & Hrow' & Hname & _).
      unfold row_of_field. rewrite <- Hid. rewrite <- Hid in Hid'. injection Hid' as <-.
      apply Hname in Hn as ->. rewrite Hrow in Hrow'. by injection Hrow' as ->.
    + intros (f & Heq & Hf). destruct (He f Hf) as (fid' & Hid' & Hrow' & Hname & _).
      unfold row_of_field in Heq. rewrite Hid' in Heq. cbn in Heq. injection Heq as -> -> ->.
      split; [by apply Hname|done].
Qed.

(** ** Fields *)

Definition with_labels (labels : list string) (f : Field) : Field :=
  {| fld_id := fld_id f; fld_name := fld_name f; fld_type_id := fld_type_id f; fld_labels := labels;
     fld_is_optional := fld_is_optional f; fld_is_unique := fld_is_unique f;
     fld_default := fld_default f; fld_effective_default := fld_effective_default f;
     fld_version_id := fld_version_id f |}.

(** The same field, its labels perhaps in another order. *)
Definition reloaded (f g : Field) : Prop :=
  g = with_labels (fld_labels g) f /\ fld_labels g ≡ₚ fld_labels f.

Definition effective (t : TypeId) (default : option string) : option string :=
  match t with
  | IdBoolean => (fun x => if String.eqb x "false" then "false" else "true") <$> default
  | _ => default
  end.

(** The field's names are without dots, and it is as [Field::new] makes it. *)
Record plain_field (ty : ObjectType) (f : Field) : Prop := {
  pf_name : no_char "." (fld_name f);
  pf_version : fld_version_id f = obj_version_id ty;
  pf_default : fld_effective_default f = effective (fld_type_id f) (fld_default f);
}.

Definition plain_type (ty : ObjectType) : Prop :=
  no_char "." (obj_name ty) /\ no_char "." (obj_version_id ty).

Lemma persisted_name_split ty f : plain_type ty -> plain_field ty f ->
  split_on "." (field_persisted_name f ty) = [obj_version_id ty; obj_name ty; fld_name f].
Proof.
  intros [Hn Hv] [Hf Hfv _]. unfold field_persisted_name. rewrite Hfv. cbn.
  by rewrite !split_on_app, split_on_no_sep.
Qed.

(** The type of a field resolves, to a type it names. *)
Definition resolves (ts : TypeSystem) (t : TypeId) : Prop :=
  exists ty, lookup_type ts (type_id_name t) = Ok ty /\ type_id_of ty = t.

Lemma effective_type_id t default :
  effective (type_id_of t) default =
  match t with
  | TBoolean => (fun x => if String.eqb x "false" then "false" else "true") <$> default
  | _ => default
  end.
Proof. by destruct t. Qed.

Lemma load_field_row_stored ts db tid ty f : plain_type ty -> plain_field ty f ->
  resolves ts (fld_type_id f) -> field_stored db tid ty f ->
  exists g, load_field_row ts db (row_of_field tid ty f) = Ok g /\ reloaded f g.
Proof.
  intros Ht Hf (t & Hl & Hid) (fid & Hfid & _ & _ & Hlabels).
  set (labels := (in_order (filter (fun r => r.2 = fid) (db_field_labels db))).*1).
  exists (with_labels labels f). unfold load_field_row, row_of_field. rewrite Hfid. cbn [default].
  rewrite (persisted_name_split _ _ Ht Hf). cbn [field_row fr_field_type]. rewrite Hl. cbn.
  split.
  - f_equal. unfold Field_new, with_labels; cbn. rewrite (pf_default _ _ Hf), (pf_version _ _ Hf).
    by rewrite <- Hid, effective_type_id, Hfid.
  - split; [done|]. cbn. unfold labels. rewrite (in_order_perm _). by rewrite <- Hlabels.
Qed.

(** The other direction: a field whose type does not resolve stops the type
    from loading. *)
Lemma load_field_row_unresolved ts db tid ty f : plain_type ty -> plain_field ty f ->
  is_ok (lookup_type ts (type_id_name (fld_type_id f))) = false ->
  is_panic (lookup_type ts (type_id_name (fld_type_id f))) = false ->
  exists e, load_field_row ts db (row_of_field tid ty f) = Err e.
Proof.
  intros Ht Hf Hok Hp. unfold load_field_row, row_of_field.
  rewrite (persisted_name_split _ _ Ht Hf). cbn [field_row fr_field_type].
  destruct (lookup_type ts _); [done| |done]. by eexists.
Qed.

Definition type_loads (ts : TypeSystem) (ty : ObjectType) : Prop :=
  Forall (fun f => resolves ts (fld_type_id f)) (obj_fields ty).

(** Fields up to the order of the rows and of the labels. *)
Definition same_fields_read (fs gs : list Field) : Prop :=
  exists fs', fs' ≡ₚ fs /\ Forall2 reloaded fs' gs.

Lemma load_type_fields_stored ts db tid ty : plain_type ty ->
  Forall (plain_field ty) (obj_fields ty) -> fields_stored db tid ty (obj_fields ty) ->
  type_loads ts ty ->
  exists gs, load_type_fields ts tid db = Ok gs /\ same_fields_read (obj_fields ty) gs.
Proof.
  intros Ht Hp Hs Hl. pose proof (field_rows_stored _ _ _ _ Hs) as Hrows.
  apply Permutation_map_inv in Hrows as (fs' & Hrows & Hperm).
  symmetry in Hperm.
  assert (exists gs, mapM (load_field_row ts db) (field_rows tid db) = Ok gs /\ Forall2 reloaded fs' gs)
    as (gs & Hgs & Hr).
  { rewrite Hrows.
    assert (Forall (fun f => f ∈ obj_fields ty) fs') as Hin.
    { apply Forall_forall. intros f. by rewrite Hperm. }
    clear Hrows Hperm. setoid_rewrite mapM_ok.
    induction Hin as [|f fs' Hf _ (gs & Hgs & Hr)]; [by exists []|].
    destruct (load_field_row_stored ts db tid ty f) as (g & Hg & Hfg); try done.
    - rewrite Forall_forall in Hp. by apply Hp.
    - unfold type_loads in Hl. rewrite Forall_forall in Hl. by apply Hl.
    - pose proof (fs_each _ _ _ _ Hs) as He. rewrite Forall_forall in He. by apply He.
    - exists (g :: gs). split; by constructor. }
  exists gs. split; [|by exists fs'].
  unfold load_type_fields. rewrite foldM_append, Hgs. done.
Qed.

Lemma mapM_err {A B} (f : A -> result B) l :
  (forall x, x ∈ l -> is_panic (f x) = false) -> (exists x e, x ∈ l /\ f x = Err e) ->
  exists e, mapM f l = Err e.
Proof.
  induction l as [|x l IH]; intros Hp (y & e & Hy & He); [by apply not_elem_of_nil in Hy|]. cbn.
  pose proof (Hp x) as Hx. destruct (f x) as [z|e'|w] eqn:Hfx; [|by eexists|].
  - cbn. destruct IH as [e'' ->]; [| |by eexists].
    + intros z' Hz'. apply Hp. by right.
    + exists y, e. split; [|done]. apply elem_of_cons in Hy as [->|]; [congruence|done].
  - cbn in Hx. discriminate Hx. by left.
Qed.

Lemma load_type_fields_unresolved ts db tid ty : plain_type ty ->
  Forall (plain_field ty) (obj_fields ty) -> fields_stored db tid ty (obj_fields ty) ->
  (forall f, f ∈ obj_fields ty -> is_panic (lookup_type ts (type_id_name (fld_type_id f))) = false) ->
  (exists f, f ∈ obj_fields ty /\ is_ok (lookup_type ts (type_id_name (fld_type_id f))) = false) ->
  exists e, load_type_fields ts tid db = Err e.
Proof.
  intros Ht Hp Hs Hnp (f & Hf & Hbad). pose proof (field_rows_stored _ _ _ _ Hs) as Hrows.
  rewrite Forall_forall in Hp.
  assert (exists e, mapM (load_field_row ts db) (field_rows tid db) = Err e) as [e He].
  { apply mapM_err.
    - intros row. rewrite Hrows. intros (g & -> & Hg)%list_elem_of_fmap.
      unfold load_field_row, row_of_field. rewrite (persisted_name_split _ _ Ht (Hp g Hg)).
      cbn [field_row fr_field_type]. specialize (Hnp g Hg). by destruct (lookup_type ts _).
    - destruct (load_field_row_unresolved ts db tid ty f) as [e He]; try done; [by apply Hp|by apply Hnp|].
      exists (row_of_field tid ty f), e. split; [|done]. rewrite Hrows. by apply list_elem_of_fmap_2. }
  exists e. unfold load_type_fields. by rewrite foldM_append, He.
Qed.

(** ** Indexes *)

(** An index over at least one field, with names that the separator of the
    stored list does not occur in. *)
Definition plain_index (ty : ObjectType) (i : DbIndex) : Prop :=
  idx_fields i <> [] /\ Forall (no_char ";") (idx_fields i) /\
  Forall (fun n => n = "id" \/ n ∈ fld_name <$> obj_fields ty) (idx_fields i).

Definition row_of_index (tid : Z) (i : DbIndex) : Z * IndexRow :=
  (default 0%Z (idx_meta_id i), index_row tid i).

Lemma index_rows_stored db tid table l : indexes_stored db tid table l ->
  filter (fun r => ir_type_id r.2 = tid) (map_to_list (db_indexes db)) ≡ₚ row_of_index tid <$> l.
Proof.
  intros [He Hnd Ha]. rewrite Forall_forall in He. apply NoDup_Permutation.
  - apply NoDup_filter, NoDup_map_to_list.
  - apply (NoDup_fmap_1 (fun r => Some r.1)). rewrite <- list_fmap_compose.
    replace ((fun r => Some r.1) ∘ row_of_index tid <$> l) with (idx_meta_id <$> l); [done|].
    apply list_fmap_ext. intros k i Hi. cbn. apply list_elem_of_lookup_2 in Hi.
    destruct (He i Hi) as (iid & -> & _). done.
  - intros [iid row]. rewrite list_elem_of_filter, elem_of_map_to_list, list_elem_of_fmap. cbn. split.
    + intros [Hr Hrow]. specialize (Ha iid row Hrow Hr). apply list_elem_of_fmap in Ha as (i & Hid & Hi).
      exists i. split; [|done]. destruct (He i Hi) as (iid' & Hi' & Hrow').
      unfold row_of_index. rewrite <- Hid. rewrite Hi' in Hid. cbn in Hid. injection Hid as <-.
      rewrite Hrow in Hrow'. by injection Hrow' as ->.
    + intros (i & Heq & Hi). destruct (He i Hi) as (iid' & Hi' & Hrow').
      unfold row_of_index in Heq. rewrite Hi' in Heq at 1. cbn in Heq. injection Heq as -> ->. done.
Qed.

Lemma load_type_indexes_stored db tid table ty l : Forall (plain_index ty) l ->
  indexes_stored db tid table l -> load_type_indexes tid table db ≡ₚ l.
Proof.
  intros Hp Hs. unfold load_type_indexes. rewrite (in_order_perm _), (index_rows_stored _ _ _ _ Hs).
  rewrite <- list_fmap_compose. pose proof (is_each _ _ _ _ Hs) as He. clear Hs.
  replace (_ <$> l) with l; [done|]. induction He as [|i l (iid & Hi & _) _ IH]; [done|].
  apply Forall_cons in Hp as [(Hne & Hsep & _) Hp]. cbn. f_equal; [|by apply IH].
  rewrite split_on_joined by done. by rewrite Hi at 1 2.
Qed.

(** ** Types *)

(** The object type that is read for a stored one. *)
Record same_object (ty obj : ObjectType) : Prop := {
  so_id : obj_meta_id obj = obj_meta_id ty;
  so_name : obj_name obj = obj_name ty;
  so_version : obj_version_id obj = obj_version_id ty;
  so_table : obj_backing_table obj = obj_backing_table ty;
  so_chisel_id : obj_chisel_id obj = obj_chisel_id ty;
  so_fields : same_fields_read (obj_fields ty) (obj_fields obj);
  so_indexes : obj_indexes obj ≡ₚ obj_indexes ty;
}.

Lemma same_fields_read_forall (P : Field -> Prop) fs gs : same_fields_read fs gs ->
  (forall f g, reloaded f g -> P f -> P g) -> Forall P fs -> Forall P gs.
Proof.
  intros (fs' & Hperm & H2) HP Hall. rewrite <- Hperm in Hall. clear Hperm.
  induction H2 as [|f g fs' gs Hfg _ IH]; [done|]. apply Forall_cons in Hall as [Hf Hall].
  constructor; [by eapply HP|by apply IH].
Qed.

Lemma same_fields_read_names fs gs : same_fields_read fs gs -> fld_name <$> gs ≡ₚ fld_name <$> fs.
Proof.
  intros (fs' & Hperm & H2). rewrite <- Hperm. clear Hperm.
  induction H2 as [|f g fs' gs [Hfg _] _ IH]; [done|]. cbn. rewrite IH, Hfg. done.
Qed.

Record plain (ty : ObjectType) : Prop := {
  pl_type : plain_type ty;
  pl_fields : Forall (plain_field ty) (obj_fields ty);
  pl_indexes : Forall (plain_index ty) (obj_indexes ty);
}.

Definition desc_of (ty : ObjectType) (tid : Z) : ExistingObject :=
  {| eo_name := obj_name ty; eo_version_id := obj_version_id ty;
     eo_backing_table := obj_backing_table ty; eo_id := tid |}.

Lemma desc_of_ok ty tid : plain_type ty ->
  ExistingObject_new (persisted_name ty) (obj_backing_table ty) tid = Ok (desc_of ty tid).
Proof.
  intros [Hn Hv]. unfold ExistingObject_new, persisted_name. cbn.
  by rewrite split_on_app, split_on_no_sep.
Qed.

Lemma read_object db tid ty gs : plain ty -> stores db tid ty ->
  same_fields_read (obj_fields ty) gs ->
  exists obj, ObjectType_new (desc_of ty tid) gs (load_type_indexes tid (obj_backing_table ty) db) = Ok obj /\
    same_object ty obj.
Proof.
  intros [Ht Hf Hi] Hs Hg.
  pose proof (load_type_indexes_stored db tid _ ty _ Hi (st_indexes _ _ _ Hs)) as Hl.
  eexists. split.
  - apply ObjectType_new_ok. split; [|split; [|reflexivity]].
    + apply (same_fields_read_forall (fun f => fld_version_id f = obj_version_id ty) _ _ Hg).
      * intros f g [-> _]. done.
      * eapply Forall_impl; [exact Hf|]. by intros f [].
    + rewrite Hl. eapply Forall_impl; [exact Hi|]. intros i (_ & _ & H).
      eapply Forall_impl; [exact H|]. intros n. by rewrite (same_fields_read_names _ _ Hg).
  - split; cbn; try done; [by rewrite (st_id _ _ _ Hs)|by rewrite (st_chisel_id _ _ _ Hs)].
Qed.

(** Reading keeps the representation. *)
Lemma stores_reread db tid ty obj : same_object ty obj -> stores db tid ty -> stores db tid obj.
Proof.
  intros [Hid Hn Hv Ht Hch (fs' & Hp & H2) Hi] [S1 S2 S3 [Fe Fn Fa] [Ie In Ia] S6].
  rewrite <- Hp in Fe, Fn. setoid_rewrite <- Hp in Fa.
  assert (fld_id <$> obj_fields obj = fld_id <$> fs') as Hids.
  { clear -H2. induction H2 as [|f g fs gs [Hfg _] _ IH]; [done|]. cbn. rewrite IH, Hfg. done. }
  split; [congruence|congruence| | | |congruence].
  - intros n. rewrite S3. unfold persisted_name. by rewrite Hn, Hv.
  - split; [|by rewrite Hids|by rewrite Hids].
    clear -H2 Fe Hn. induction H2 as [|f g fs gs [Hfg Hl] _ IH]; [constructor|].
    apply Forall_cons in Fe as [(fid & F1 & F2 & F3 & F4) Fe]. constructor; [|by apply IH].
    exists fid. rewrite Hfg. cbn. split; [done|split; [done|split]].
    + intros n. rewrite F3. unfold field_persisted_name. cbn. by rewrite Hn.
    + by rewrite Hl.
  - rewrite Ht. split; [by rewrite Hi|by rewrite Hi|]. intros iid row. rewrite Hi. apply Ia.
Qed.

(** ** Two passes *)

Context (builtin_types : BuiltinTypes).

(** The type of a field is known once the types [loaded] are. *)
Definition type_known (loaded : list ObjectType) (version_id : string) (t : TypeId) : bool :=
  is_ok (lookup_builtin_type (TypeSystem_new builtin_types version_id) (type_id_name t))
  || existsb (fun o => String.eqb (obj_name o) (type_id_name t)
                       && String.eqb (obj_version_id o) version_id) loaded.

Definition can_load (loaded : list ObjectType) (ty : ObjectType) : bool :=
  forallb (fun f => type_known loaded (obj_version_id ty) (fld_type_id f)) (obj_fields ty).

Definition first_pass_step (s : list ObjectType * list ObjectType) (ty : ObjectType)
    : list ObjectType * list ObjectType :=
  let '(loaded, failed) := s in
  if can_load loaded ty then (loaded ++ [ty], failed) else (loaded, failed ++ [ty]).

Fixpoint second_pass (loaded failed : list ObjectType) : option (list ObjectType) :=
  match failed with
  | [] => Some loaded
  | ty :: failed => if can_load loaded ty then second_pass (loaded ++ [ty]) failed else None
  end.

Definition two_passes (tys : list ObjectType) : option (list ObjectType) :=
  let '(loaded, failed) := foldl first_pass_step ([], []) tys in second_pass loaded failed.

(** The field's type is a built-in one, or an entity of the version. *)
Definition well_typed (ty : ObjectType) (t : TypeId) : Prop :=
  match lookup_builtin_type (TypeSystem_new builtin_types (obj_version_id ty)) (type_id_name t) with
  | Ok t' => type_id_of t' = t
  | _ => t = IdEntity (type_id_name t) (obj_version_id ty)
  end.

Record stored_plain (db : MetaDb) (ty : ObjectType) : Prop := {
  sp_plain : plain ty;
  sp_typed : Forall (fun f => well_typed ty (fld_type_id f)) (obj_fields ty);
  sp_stores : exists tid, stores db tid ty;
}.

(** What the type systems hold: the [loaded] types. *)
Definition ts_holds (loaded : list ObjectType) (v : string) (ts : TypeSystem) : Prop :=
  ts_version_id ts = v /\ builtin ts = builtin_types /\
  forall n, match custom_types ts !! n with
    | Some e => exists ty obj, ty ∈ loaded /\ obj_name ty = n /\ obj_version_id ty = v /\
                  e = Custom obj /\ same_object ty obj
    | None => forall ty, ty ∈ loaded -> obj_version_id ty = v -> obj_name ty <> n
    end.

Definition holds (loaded : list ObjectType) (tss : gmap string TypeSystem) : Prop :=
  forall v, match tss !! v with
    | Some ts => ts_holds loaded v ts
    | None => forall ty, ty ∈ loaded -> obj_version_id ty <> v
    end.

Lemma lookup_builtin_type_ext ts ts' n : builtin ts = builtin ts' ->
  lookup_builtin_type ts n = lookup_builtin_type ts' n.
Proof.
  intros Hb. unfold lookup_builtin_type. generalize (S (String.length n)) as fuel. intros fuel.
  revert n. induction fuel as [|fuel IH]; intros n; [done|]. cbn.
  destruct (extract_type "Array" n); [by rewrite IH|]. by rewrite Hb.
Qed.

Lemma lookup_builtin_type_no_panic ts n : is_panic (lookup_builtin_type ts n) = false.
Proof.
  remember (String.length n) as k eqn:Hk. revert n Hk.
  induction (lt_wf k) as [k _ IH]. intros n ->. rewrite lookup_builtin_type_unfold.
  destruct (extract_type "Array" n) as [inner|] eqn:E.
  - apply is_panic_bind; [|done]. eapply IH; [|done]. by eapply extract_type_shorter.
  - destruct (extract_type "Id" n); [done|]. by destruct (types (builtin ts) !! n).
Qed.

Lemma lookup_type_no_panic ts n : is_panic (lookup_type ts n) = false.
Proof.
  unfold lookup_type, lookup_custom_type. pose proof (lookup_builtin_type_no_panic ts n).
  destruct (lookup_builtin_type ts n); [done| |done]. by destruct (custom_types ts !! n).
Qed.

Section Entry.
Context (loaded : list ObjectType) (v : string) (ts : TypeSystem) (Hts : ts_holds loaded v ts).

Lemma custom_known n : is_Some (custom_types ts !! n) <->
  existsb (fun o => String.eqb (obj_name o) n && String.eqb (obj_version_id o) v) loaded = true.
Proof.
  destruct Hts as (_ & _ & H). specialize (H n). rewrite existsb_exists. split.
  - intros [e He]. rewrite He in H. destruct H as (ty & obj & Hin & Hn & Hv & _).
    exists ty. rewrite Hn, Hv, !String.eqb_refl. split; [by apply list_elem_of_In|done].
  - intros (ty & Hin%list_elem_of_In & [Hn%String.eqb_eq Hv%String.eqb_eq]%andb_prop).
    destruct (custom_types ts !! n) as [e|]; [by eexists|]. by destruct (H ty Hin Hv).
Qed.

Lemma lookup_type_known t : is_ok (lookup_type ts (type_id_name t)) = type_known loaded v t.
Proof.
  unfold lookup_type, type_known.
  rewrite (lookup_builtin_type_ext ts (TypeSystem_new builtin_types v)) by (cbn; apply Hts).
  pose proof (lookup_builtin_type_no_panic (TypeSystem_new builtin_types v) (type_id_name t)).
  destruct (lookup_builtin_type _ _); [done| |done]. cbn [is_ok orb].
  pose proof (custom_known (type_id_name t)) as Hk. unfold lookup_custom_type.
  destruct (custom_types ts !! type_id_name t).
  - symmetry. apply Hk. by eexists.
  - symmetry. apply not_true_iff_false. intros [? ?]%Hk. done.
Qed.

Lemma resolves_known ty t : obj_version_id ty = v -> well_typed ty t ->
  type_known loaded v t = true -> resolves ts t.
Proof.
  intros Hv Hw Hk. rewrite <- lookup_type_known in Hk. unfold well_typed in Hw. rewrite Hv in Hw.
  unfold resolves. unfold lookup_type in Hk |- *.
  rewrite (lookup_builtin_type_ext ts (TypeSystem_new builtin_types v)) in Hk |- * by (cbn; apply Hts).
  destruct (lookup_builtin_type _ _) as [t'|e0|w]; [by exists t'| |done].
  unfold lookup_custom_type in *. destruct Hts as (_ & _ & H). specialize (H (type_id_name t)).
  destruct (custom_types ts !! type_id_name t) as [e|]; [|done].
  destruct H as (ty' & obj & _ & Hn & Hv' & -> & [_ Hon Hov _ _ _ _]).
  eexists. split; [done|]. cbn. by rewrite Hon, Hov, Hn, Hv'.
Qed.

(** A type of the version loads exactly when the types of its fields are known. *)
Lemma load_fields_known db ty tid : obj_version_id ty = v -> plain ty ->
  Forall (fun f => well_typed ty (fld_type_id f)) (obj_fields ty) -> stores db tid ty ->
  if can_load loaded ty
  then exists gs, load_type_fields ts tid db = Ok gs /\ same_fields_read (obj_fields ty) gs
  else exists e, load_type_fields ts tid db = Err e.
Proof.
  intros Hv Hp Hw Hs. rewrite Forall_forall in Hw. destruct (can_load loaded ty) eqn:Hc.
  - apply load_type_fields_stored; try apply Hp; [apply Hs|].
    unfold can_load in Hc. rewrite forallb_forall in Hc. apply Forall_forall. intros f Hf.
    apply (resolves_known ty); [done|by apply Hw|]. rewrite <- Hv. by apply Hc, list_elem_of_In.
  - eapply load_type_fields_unresolved; try apply Hp; [apply Hs|intros; apply lookup_type_no_panic|].
    unfold can_load in Hc. apply not_true_iff_false in Hc. rewrite forallb_forall in Hc.
    destruct (decide (Exists (fun f => type_known loaded (obj_version_id ty) (fld_type_id f) = false)
      (obj_fields ty))) as [He|He].
    + apply Exists_exists in He as (f & Hf & Hk). exists f. split; [done|].
      by rewrite lookup_type_known, <- Hv.
    + destruct Hc. intros f Hf. apply not_false_iff_true. intros Hk. apply He, Exists_exists.
      exists f. split; [by apply list_elem_of_In|done].
Qed.

(** Adding a type that was read. *)
Lemma add_read_type db ty tid gs : obj_version_id ty = v -> plain ty -> stores db tid ty ->
  same_fields_read (obj_fields ty) gs ->
  (forall o, o ∈ loaded -> obj_version_id o = v -> obj_name o <> obj_name ty) ->
  exists ts', load_type db ts (desc_of ty tid) tid (obj_backing_table ty) gs = Ok ts' /\
    ts_holds (loaded ++ [ty]) v ts'.
Proof.
  intros Hv Hp Hs Hg Hnew. destruct (read_object db tid ty gs Hp Hs Hg) as (obj & Hobj & Hsame).
  unfold load_type. rewrite Hobj. cbn. destruct Hts as (H1 & H2 & H3).
  assert (custom_types ts !! obj_name ty = None) as Hnone.
  { specialize (H3 (obj_name ty)). destruct (custom_types ts !! obj_name ty); [|done].
    destruct H3 as (o & _ & Hin & Hn & Hov & _). by destruct (Hnew o Hin Hov). }
  unfold add_custom_type, lookup_custom_type. cbn [object_type].
  rewrite (so_name _ _ Hsame), Hnone. cbn. eexists. split; [done|]. split; [done|split; [done|]].
  cbn. intros n. destruct (decide (n = obj_name ty)) as [->|Hne].
  - rewrite lookup_insert_eq. exists ty, obj. repeat split; try done; try apply Hsame. set_solver.
  - rewrite lookup_insert_ne by done. specialize (H3 n). destruct (custom_types ts !! n) as [e|].
    + destruct H3 as (o & obj' & Hin & Hrest). exists o, obj'. split; [set_solver|done].
    + intros o [Hin| ->%list_elem_of_singleton]%elem_of_app; [by apply H3|done].
Qed.

End Entry.

(** ** The loops *)

Definition row_of_type (ty : ObjectType) : Z * string * string :=
  (default 0%Z (obj_meta_id ty), obj_backing_table ty, persisted_name ty).

Lemma version_entry_holds loaded tss v : holds loaded tss ->
  ts_holds loaded v (version_entry builtin_types tss v).
Proof.
  intros H. unfold version_entry. specialize (H v). destruct (tss !! v) as [ts|]; [done|]. cbn.
  split; [done|split; [done|]]. intros n. cbn. rewrite lookup_empty.
  intros ty Hin Hv. by destruct (H ty Hin).
Qed.

Lemma holds_insert loaded tss v ts : holds loaded tss -> ts_holds loaded v ts ->
  holds loaded (<[v := ts]> tss).
Proof.
  intros H Hts v'. destruct (decide (v' = v)) as [->|Hne].
  - by rewrite lookup_insert_eq.
  - rewrite lookup_insert_ne by done. apply H.
Qed.

Lemma holds_extend loaded tss ty ts : holds loaded tss ->
  ts_holds (loaded ++ [ty]) (obj_version_id ty) ts ->
  holds (loaded ++ [ty]) (<[obj_version_id ty := ts]> tss).
Proof.
  intros H Hts v'. destruct (decide (v' = obj_version_id ty)) as [->|Hne].
  - by rewrite lookup_insert_eq.
  - rewrite lookup_insert_ne by done. specialize (H v'). destruct (tss !! v') as [ts'|].
    + destruct H as (H1 & H2 & H3). split; [done|split; [done|]]. intros n. specialize (H3 n).
      destruct (custom_types ts' !! n) as [e|].
      * destruct H3 as (o & obj & Hin & Hrest). exists o, obj. split; [set_solver|done].
      * intros o [Hin| ->%list_elem_of_singleton]%elem_of_app; [by apply H3|done].
    + intros o [Hin| ->%list_elem_of_singleton]%elem_of_app; [by apply H|done].
Qed.

Definition new_name (loaded : list ObjectType) (ty : ObjectType) : Prop :=
  forall o, o ∈ loaded -> obj_version_id o = obj_version_id ty -> obj_name o <> obj_name ty.

Section Step.
Context (db : MetaDb) (loaded : list ObjectType) (tss : gmap string TypeSystem) (ty : ObjectType)
  (Hh : holds loaded tss) (Hsp : stored_plain db ty) (Hnew : new_name loaded ty).

Lemma load_first_step failed : exists tss',
  load_first builtin_types db (tss, failed) (row_of_type ty) =
    Ok (tss', if can_load loaded ty then failed else failed ++ [row_of_type ty]) /\
  holds (if can_load loaded ty then loaded ++ [ty] else loaded) tss'.
Proof.
  destruct Hsp as [Hp Hw (tid & Hs)]. unfold load_first, row_of_type.
  rewrite (st_id _ _ _ Hs). change (default 0%Z (Some tid)) with tid. rewrite desc_of_ok by apply Hp. cbn [mbind outcome_bind desc_of eo_version_id].
  pose proof (version_entry_holds loaded tss (obj_version_id ty) Hh) as Hts.
  set (ts := version_entry builtin_types tss (obj_version_id ty)) in *.
  pose proof (load_fields_known loaded _ ts Hts db ty tid eq_refl Hp Hw Hs) as Hf.
  destruct (can_load loaded ty).
  - destruct Hf as (gs & -> & Hg).
    destruct (add_read_type loaded _ ts Hts db ty tid gs eq_refl Hp Hs Hg Hnew) as (ts' & Hl & Hts').
    rewrite Hl. eexists. split; [reflexivity|]. rewrite insert_insert_eq. by apply holds_extend.
  - destruct Hf as (e & ->). eexists. split; [reflexivity|]. by apply holds_insert.
Qed.

Lemma load_again_step :
  if can_load loaded ty
  then exists tss', load_again builtin_types db tss (row_of_type ty) = Ok tss' /\
    holds (loaded ++ [ty]) tss'
  else exists e, load_again builtin_types db tss (row_of_type ty) = Err e.
Proof.
  destruct Hsp as [Hp Hw (tid & Hs)]. unfold load_again, row_of_type.
  rewrite (st_id _ _ _ Hs). change (default 0%Z (Some tid)) with tid. rewrite desc_of_ok by apply Hp. cbn [mbind outcome_bind desc_of eo_version_id].
  pose proof (version_entry_holds loaded tss (obj_version_id ty) Hh) as Hts.
  set (ts := version_entry builtin_types tss (obj_version_id ty)) in *.
  pose proof (load_fields_known loaded _ ts Hts db ty tid eq_refl Hp Hw Hs) as Hf.
  destruct (can_load loaded ty).
  - destruct Hf as (gs & -> & Hg).
    destruct (add_read_type loaded _ ts Hts db ty tid gs eq_refl Hp Hs Hg Hnew) as (ts' & Hl & Hts').
    cbn. rewrite Hl. eexists. split; [reflexivity|]. by apply holds_extend.
  - destruct Hf as (e & ->). by eexists.
Qed.

End Step.

(** The stored types, in the order their rows are returned. *)
Record describes (db : MetaDb) (tys : list ObjectType) : Prop := {
  de_types : Forall (stored_plain db) tys;
  de_rows : type_rows db = row_of_type <$> tys;
}.

Lemma describes_names db tys : describes db tys -> NoDup (persisted_name <$> tys).
Proof.
  intros [_ Hrows]. replace (persisted_name <$> tys) with (snd <$> type_rows db).
  2: { rewrite Hrows, <- list_fmap_compose. done. }
  unfold type_rows. rewrite (in_order_perm _).
  assert (forall l : list (string * Z), NoDup l.*1 -> NoDup (snd <$> omap (fun '(name, type_id) =>
    (fun table => (type_id, table, name)) <$> db_types db !! type_id) l)) as H;
    [|apply H, NoDup_fst_map_to_list].
  induction l as [|[n x] l IH]; cbn; [constructor|]. intros [Hn Hnd]%NoDup_cons.
  destruct (db_types db !! x) as [t|]; cbn; [|by apply IH]. constructor; [|by apply IH].
  intros (y & Hy & ([n' x'] & Hin & Hy')%list_elem_of_omap)%list_elem_of_fmap. apply Hn.
  destruct (db_types db !! x') as [t'|]; [|done]. injection Hy' as <-. cbn in Hy. rewrite Hy.
  by apply (list_elem_of_fmap_2 fst) in Hin.
Qed.

Lemma first_pass_perm tys l f :
  (foldl first_pass_step (l, f) tys).1 ++ (foldl first_pass_step (l, f) tys).2 ≡ₚ l ++ f ++ tys.
Proof.
  revert l f. induction tys as [|ty tys IH]; intros l f; cbn; [by rewrite app_nil_r|].
  destruct (can_load l ty); rewrite IH; solve_Permutation.
Qed.

Lemma first_loop db tys l f tss : Forall (stored_plain db) (l ++ f ++ tys) ->
  NoDup (persisted_name <$> l ++ f ++ tys) -> holds l tss ->
  exists tss', foldM (load_first builtin_types db) (tss, row_of_type <$> f) (row_of_type <$> tys) =
    Ok (tss', row_of_type <$> (foldl first_pass_step (l, f) tys).2) /\
    holds (foldl first_pass_step (l, f) tys).1 tss'.
Proof.
  revert l f tss. induction tys as [|ty tys IH]; intros l f tss Hall Hnd Hh; cbn [fmap list_fmap foldM foldl].
  { by exists tss. }
  assert (stored_plain db ty) as Hsp.
  { rewrite Forall_forall in Hall. apply Hall. set_solver. }
  assert (new_name l ty) as Hnew.
  { intros o Ho Hv Hn. rewrite fmap_app in Hnd. apply NoDup_app in Hnd as (_ & Hd & _).
    apply (Hd (persisted_name o)); [by apply list_elem_of_fmap_2|].
    replace (persisted_name o) with (persisted_name ty) by (unfold persisted_name; congruence).
    apply list_elem_of_fmap_2. set_solver. }
  destruct (load_first_step db l tss ty Hh Hsp Hnew (row_of_type <$> f)) as (tss' & Hstep & Hh').
  cbn [first_pass_step]. destruct (can_load l ty).
  - assert ((l ++ [ty]) ++ f ++ tys ≡ₚ l ++ f ++ ty :: tys) as Hp by solve_Permutation.
    destruct (IH (l ++ [ty]) f tss') as (tss2 & H2 & Hh2); [by rewrite Hp|by rewrite Hp|done|].
    + exists tss2. split; [|done]. apply bind_ok. eexists. by split.
  - destruct (IH l (f ++ [ty]) tss') as (tss2 & H2 & Hh2); [| |done|].
    + by rewrite <- (app_assoc f).
    + by rewrite <- (app_assoc f).
    + exists tss2. split; [|done]. apply bind_ok. eexists. split; [exact Hstep|]. by rewrite fmap_app in H2.
Qed.

Lemma second_loop db l f tss : Forall (stored_plain db) (l ++ f) ->
  NoDup (persisted_name <$> l ++ f) -> holds l tss ->
  match second_pass l f with
  | Some all => all = l ++ f /\
      exists tss', foldM (load_again builtin_types db) tss (row_of_type <$> f) = Ok tss' /\ holds all tss'
  | None => exists e, foldM (load_again builtin_types db) tss (row_of_type <$> f) = Err e
  end.
Proof.
  revert l tss. induction f as [|ty f IH]; intros l tss Hall Hnd Hh; cbn [second_pass fmap list_fmap foldM].
  { rewrite app_nil_r. split; [done|]. by exists tss. }
  assert (stored_plain db ty) as Hsp.
  { rewrite Forall_forall in Hall. apply Hall. set_solver. }
  assert (new_name l ty) as Hnew.
  { intros o Ho Hv Hn. rewrite fmap_app in Hnd. apply NoDup_app in Hnd as (_ & Hd & _).
    apply (Hd (persisted_name o)); [by apply list_elem_of_fmap_2|].
    replace (persisted_name o) with (persisted_name ty) by (unfold persisted_name; congruence).
    apply list_elem_of_fmap_2. set_solver. }
  pose proof (load_again_step db l tss ty Hh Hsp Hnew) as Hstep. destruct (can_load l ty).
  - destruct Hstep as (tss' & Hs & Hh'). specialize (IH (l ++ [ty]) tss').
    rewrite <- app_assoc in IH. specialize (IH Hall Hnd Hh').
    destruct (second_pass (l ++ [ty]) f).
    + destruct IH as (-> & tss2 & H2 & Hh2). split; [done|]. exists tss2. split; [|done].
      apply bind_ok. eexists. by split.
    + destruct IH as (e & He). exists e. rewrite Hs. exact He.
  - destruct Hstep as (e & He). exists e. by rewrite He.
Qed.

Lemma load_type_systems_passes db tys : describes db tys ->
  match two_passes tys with
  | Some all => all ≡ₚ tys /\
      exists tss, load_type_systems builtin_types db = Ok tss /\ holds all tss
  | None => exists e, load_type_systems builtin_types db = Err e
  end.
Proof.
  intros Hd. pose proof (describes_names db tys Hd) as Hnd. destruct Hd as [Hall Hrows].
  unfold two_passes, load_type_systems. rewrite Hrows.
  destruct (first_loop db tys [] [] ∅ Hall Hnd) as (tss & Hf & Hh).
  { intros v. rewrite lookup_empty. intros ty Hin. by apply not_elem_of_nil in Hin. }
  cbn [fmap list_fmap] in Hf. rewrite Hf. cbn [mbind outcome_bind].
  pose proof (first_pass_perm tys [] []) as Hperm. cbn [app] in Hperm.
  destruct (foldl first_pass_step ([], []) tys) as [l f]. cbn [fst snd] in *.
  assert (Forall (stored_plain db) (l ++ f)) as Hall' by (by rewrite Hperm).
  assert (NoDup (persisted_name <$> l ++ f)) as Hnd' by (by rewrite Hperm).
  pose proof (second_loop db l f tss Hall' Hnd' Hh) as H.
  destruct (second_pass l f) as [all|]; [|done]. destruct H as [-> H]. done.
Qed.

End Load.
