(* ===== verification/MetaStoreSpec.v ===== *)
(** * The metadata store as a set of types

    The store refines a set of object types with insertion, removal and
    evolution; and what [generate_type_delta] computes, once written, is the
    new type - but for a default that was given up. *)

From S2P Require Import Prelude Ident Types Builtin TypeSystem Policies Query Meta MetaSpec MetaLoadSpec.

(** ** Updates of one field *)

Lemma persist_delta_idem d f : persist_delta d (persist_delta d f) = persist_delta d f.
Proof. unfold persist_delta. cbn. by destruct (fdl_attrs d) as [[? [] ? ?]|], (fdl_labels d). Qed.

Lemma persist_delta_id d f : fld_id (persist_delta d f) = fld_id f.
Proof. done. Qed.

Definition persist_all (us : list FieldDelta) (f : Field) : Field :=
  foldl (fun f d => persist_at d f) f us.

Lemma persist_all_map us (fs : list Field) :
  foldl (fun fs d => persist_at d <$> fs) fs us = persist_all us <$> fs.
Proof.
  revert fs. induction us as [|d us IH]; intros fs; cbn; [by rewrite list_fmap_id|].
  rewrite IH, <- list_fmap_compose. done.
Qed.

Lemma persist_all_none us f : (forall d, d ∈ us -> fld_id f <> Some (fdl_id d)) -> persist_all us f = f.
Proof.
  intros H. induction us as [|d us IH]; [done|]. unfold persist_all in *. cbn.
  unfold persist_at at 2. rewrite decide_False by (apply H; by left).
  apply IH. intros d' Hd'. apply H. by right.
Qed.

Lemma persist_all_fix us d f : (forall d', d' ∈ us -> fld_id f = Some (fdl_id d') -> d' = d) ->
  persist_all us (persist_delta d f) = persist_delta d f.
Proof.
  intros H. induction us as [|d' us IH]; [done|]. unfold persist_all in *. cbn.
  unfold persist_at at 2. case_decide as Hd.
  - rewrite (H d' (list_elem_of_here _ _) Hd), persist_delta_idem. apply IH. intros; apply H; [by right|done].
  - apply IH. intros; apply H; [by right|done].
Qed.

Lemma persist_all_one us d f : d ∈ us -> fld_id f = Some (fdl_id d) ->
  (forall d', d' ∈ us -> fld_id f = Some (fdl_id d') -> d' = d) ->
  persist_all us f = persist_delta d f.
Proof.
  intros Hin Hid H. induction us as [|d' us IH]; [by apply not_elem_of_nil in Hin|].
  unfold persist_all in *. cbn. unfold persist_at at 2. case_decide as Hd.
  - rewrite (H d' (list_elem_of_here _ _) Hd). apply persist_all_fix. intros; apply H; [by right|done].
  - apply elem_of_cons in Hin as [->|Hin]; [done|]. apply IH; [done|]. intros; apply H; [by right|done].
Qed.

Lemma drop_fields_elem removed fs f :
  f ∈ foldl drop_field fs removed <-> f ∈ fs /\ forall r, r ∈ removed -> fld_id f <> fld_id r.
Proof.
  revert fs. induction removed as [|r removed IH]; intros fs; cbn.
  { split; [intros H; split; [done|]|tauto]. intros r Hr. by apply not_elem_of_nil in Hr. }
  rewrite IH. unfold drop_field. rewrite list_elem_of_filter. split.
  - intros [[Hr Hf] Hrest]. split; [done|]. intros r' [->|Hr']%elem_of_cons; [done|by apply Hrest].
  - intros [Hf Hall]. split; [split; [|done]|]; [|intros r' Hr']; apply Hall; set_solver.
Qed.

Lemma number_from_elem id fs g : g ∈ number_from id fs <->
  exists i f, (id <= i)%Z /\ fs !! Z.to_nat (i - id) = Some f /\ g = with_id i f.
Proof.
  revert id. induction fs as [|f fs IH]; intros id; cbn [number_from].
  { split; [intros H; by apply not_elem_of_nil in H|]. by intros (i & f & _ & H & _). }
  rewrite elem_of_cons, IH. split.
  - intros [->|(i & f' & Hi & Hl & ->)].
    + exists id, f. rewrite Z.sub_diag. split; [lia|done].
    + exists i, f'. split; [lia|].
      by replace (Z.to_nat (i - id)) with (S (Z.to_nat (i - (id + 1)))) by lia.
  - intros (i & f' & Hi & Hl & ->). destruct (decide (i = id)) as [->|Hne].
    + rewrite Z.sub_diag in Hl. cbn in Hl. injection Hl as <-. by left.
    + right. exists i, f'. split; [lia|].
      by replace (Z.to_nat (i - id)) with (S (Z.to_nat (i - (id + 1)))) in Hl by lia.
Qed.

Lemma number_from_in id fs f : f ∈ fs -> exists i, (id <= i)%Z /\ with_id i f ∈ number_from id fs.
Proof.
  intros [k Hk]%list_elem_of_lookup. exists (id + Z.of_nat k)%Z. split; [lia|].
  apply number_from_elem. exists (id + Z.of_nat k)%Z, f. split; [lia|]. split; [|done].
  by replace (Z.to_nat (id + Z.of_nat k - id)) with k by lia.
Qed.

(** ** A delta, once written *)

Definition with_default (default : option string) (f : Field) : Field :=
  {| fld_id := fld_id f; fld_name := fld_name f; fld_type_id := fld_type_id f; fld_labels := fld_labels f;
     fld_is_optional := fld_is_optional f; fld_is_unique := fld_is_unique f; fld_default := default;
     fld_effective_default := fld_effective_default f; fld_version_id := fld_version_id f |}.

Section Evolution.
Context (db : MetaDb) (tid : Z) (ts : TypeSystem) (old_type new_type : ObjectType) (unsafe : bool)
  (delta : ObjectDelta).
Context (Hc : consistent db) (Hs : stores db tid old_type)
  (Hv : Forall (fun f => fld_version_id f = obj_version_id old_type) (obj_fields old_type))
  (Hd : generate_type_delta ts old_type new_type unsafe = Ok delta).

Notation om := (field_map_from old_type).
Notation nm := (field_map_from new_type).

Lemma stored_names : NoDup (fld_name <$> obj_fields old_type).
Proof.
  pose proof (st_fields _ _ _ Hs) as [He Hnd _]. rewrite Forall_forall in He, Hv.
  apply NoDup_fmap_2_strong; [|by eapply NoDup_fmap_1].
  intros f g Hf Hg Hname.
  destruct (He f Hf) as (i & Hi & _ & Hni & _), (He g Hg) as (j & Hj & _ & Hnj & _).
  assert (i = j) as <-.
  { assert (field_persisted_name f old_type = field_persisted_name g old_type) as Heq
      by (unfold field_persisted_name; by rewrite Hname, (Hv f Hf), (Hv g Hg)).
    pose proof (proj2 (Hni _) eq_refl) as H1. rewrite Heq, (proj2 (Hnj _) eq_refl) in H1.
    by injection H1. }
  apply list_elem_of_lookup in Hf as [k Hk], Hg as [l Hl].
  assert (k = l) as ->; [|congruence].
  apply (NoDup_lookup _ _ _ (fld_id f) Hnd); rewrite list_lookup_fmap, ?Hk, ?Hl; cbn; congruence.
Qed.

Lemma stored_get f : f ∈ obj_fields old_type <-> alist_get (fld_name f) om = Some f.
Proof. rewrite field_map_get_iff by apply stored_names. naive_solver. Qed.

Lemma stored_id f : f ∈ obj_fields old_type -> exists fid, fld_id f = Some fid /\ (fid < db_next_field_id db)%Z.
Proof.
  pose proof (fs_each _ _ _ _ (st_fields _ _ _ Hs)) as He. rewrite Forall_forall in He.
  intros (fid & Hid & Hrow & _)%He. exists fid. split; [done|]. apply (c_fields _ Hc _ _ Hrow).
Qed.

Lemma stored_id_inj f g : f ∈ obj_fields old_type -> g ∈ obj_fields old_type -> fld_id f = fld_id g -> f = g.
Proof.
  pose proof (fs_ids _ _ _ _ (st_fields _ _ _ Hs)) as Hnd.
  intros [k Hk]%list_elem_of_lookup [l Hl]%list_elem_of_lookup Hid.
  assert (k = l) as ->; [|congruence].
  apply (NoDup_lookup _ _ _ (fld_id f) Hnd); rewrite list_lookup_fmap, ?Hk, ?Hl; cbn; congruence.
Qed.

Lemma added_elem a : a ∈ added_fields delta <->
  alist_get (fld_name a) nm = Some a /\ alist_get (fld_name a) om = None.
Proof.
  apply generate_type_delta_ok in Hd as (_ & _ & _ & ->). cbn [added_fields].
  unfold added_of. rewrite list_elem_of_omap. split.
  - intros ([n f] & Hin & H). cbn in H. destruct (alist_get n om) eqn:Ho; [done|]. injection H as <-.
    pose proof (field_map_entry_name _ _ _ Hin) as Hn. subst n. by apply field_map_entry in Hin.
  - intros [Hn Ho]. exists (fld_name a, a). split; [by apply field_map_entry|]. cbn. by rewrite Ho.
Qed.

Lemma removed_elem r : r ∈ removed_fields delta <->
  alist_get (fld_name r) om = Some r /\ alist_get (fld_name r) nm = None.
Proof.
  apply generate_type_delta_ok in Hd as (_ & _ & _ & ->). cbn [removed_fields].
  rewrite list_elem_of_fmap. split.
  - intros ([n f] & -> & [Hk Hf]%remove_all_entry). cbn. pose proof (field_map_get _ _ _ Hf) as [_ Hn].
    subst n. split; [done|]. by apply alist_get_none.
  - intros [Ho Hn%alist_get_none]. exists (fld_name r, r). split; [done|]. by apply remove_all_entry.
Qed.

Lemma updated_elem d : d ∈ updated_fields delta <->
  exists f old, alist_get (fld_name f) nm = Some f /\ alist_get (fld_name f) om = Some old /\
    update_field ts new_type unsafe old f = Ok d.
Proof.
  apply generate_type_delta_ok in Hd as (_ & _ & _ & ->). cbn [updated_fields].
  rewrite updated_of_elem. split.
  - intros (n & f & old & Hin & Ho & Hu). exists f, old.
    pose proof (field_map_entry_name _ _ _ Hin) as Hn. subst n. by apply field_map_entry in Hin.
  - intros (f & old & Hn & Ho & Hu). exists (fld_name f), f, old. split; [by apply field_map_entry|done].
Qed.

Lemma updated_id d : d ∈ updated_fields delta ->
  exists f old, old ∈ obj_fields old_type /\ fld_id old = Some (fdl_id d) /\ fld_name old = fld_name f /\
    alist_get (fld_name f) nm = Some f /\ update_field ts new_type unsafe old f = Ok d.
Proof.
  intros (f & old & Hn & Ho & Hu)%updated_elem. exists f, old.
  destruct (update_field_ok _ _ _ _ _ _ Hu) as (_ & _ & _ & _ & Hid & _).
  apply field_map_get in Ho as [Hin Hname]. done.
Qed.

Lemma updated_unique d d' f : d ∈ updated_fields delta -> d' ∈ updated_fields delta ->
  f ∈ obj_fields old_type -> fld_id f = Some (fdl_id d) -> fld_id f = Some (fdl_id d') -> d' = d.
Proof.
  intros (g & o & Ho & Hio & Hno & Hg & Hu)%updated_id (g' & o' & Ho' & Hio' & Hno' & Hg' & Hu')%updated_id Hf H1 H2.
  assert (o = f) as -> by (apply stored_id_inj; congruence).
  assert (o' = f) as -> by (apply stored_id_inj; congruence).
  rewrite <- Hno, Hno', Hg' in Hg. injection Hg as ->. congruence.
Qed.

Lemma delta_is_owned : delta_owned old_type delta.
Proof.
  split.
  - apply Forall_forall. intros r [Ho _]%removed_elem. apply field_map_get in Ho as [Hr _].
    by apply list_elem_of_fmap_2.
  - apply Forall_forall. intros d (f & old & Hin & Hid & _)%updated_id. rewrite <- Hid.
    by apply list_elem_of_fmap_2.
  - apply generate_type_delta_ok in Hd as (_ & _ & _ & ->). cbn. apply Forall_forall.
    intros i [Hi _]%index_diff_elem. by apply list_elem_of_fmap_2.
Qed.

(** No update gives up a default that is stored. *)
Definition keeps_defaults : Prop :=
  forall d a f, d ∈ updated_fields delta -> fdl_attrs d = Some a -> fad_default a = None ->
    f ∈ obj_fields old_type -> fld_id f = Some (fdl_id d) -> fld_default f = None.

Lemma persist_delta_apply d f : persist_delta d f = Evolve.apply_field_delta d f.
Proof. unfold persist_delta, Evolve.apply_field_delta. by destruct (fdl_attrs d) as [[t [v|] o u]|]. Qed.

Notation fields' := (obj_fields (persisted delta (db_next_field_id db) 0 old_type)).

Lemma persisted_elem g : g ∈ fields' <->
  (exists f, f ∈ obj_fields old_type /\ is_Some (alist_get (fld_name f) nm) /\
     g = persist_all (updated_fields delta) f) \/
  (exists i a, (db_next_field_id db <= i)%Z /\ a ∈ added_fields delta /\ g = with_id i a /\
     g ∈ number_from (db_next_field_id db) (added_fields delta)).
Proof.
  cbn. rewrite persist_all_map, list_elem_of_fmap. setoid_rewrite drop_fields_elem.
  setoid_rewrite elem_of_app.
  assert (forall i a, (db_next_field_id db <= i)%Z -> forall f, f ∈ obj_fields old_type ->
    fld_id (with_id i a) <> fld_id f) as Hfresh.
  { intros i a Hi f (fid & -> & Hlt)%stored_id. cbn. intros [= ->]. lia. }
  assert (forall i a, (db_next_field_id db <= i)%Z ->
    persist_all (updated_fields delta) (with_id i a) = with_id i a) as Hall.
  { intros i a Hi. apply persist_all_none. intros d (f & old & Hin & <- & _)%updated_id. by apply Hfresh. }
  split.
  - intros (f & -> & [Hf|Hf] & Hr).
    + left. exists f. split; [done|split; [|done]]. destruct (alist_get (fld_name f) nm) eqn:E; [by eexists|].
      destruct (Hr f); [|done]. apply removed_elem. split; [by apply stored_get|done].
    + right. pose proof Hf as Hf'. apply number_from_elem in Hf as (i & a & Hi & Ha & ->).
      exists i, a. rewrite Hall by lia. split; [lia|]. split; [by apply list_elem_of_lookup_2 in Ha|done].
  - intros [(f & Hf & [h Hh] & ->)|(i & a & Hi & Ha & -> & Hin)].
    + exists f. split; [done|split; [by left|]]. intros r [Ho Hn]%removed_elem Hid.
      apply field_map_get in Ho as [Hr _]. rewrite (stored_id_inj f r Hf Hr Hid) in Hh. congruence.
    + exists (with_id i a). rewrite Hall by lia. split; [done|split; [by right|]].
      intros r [Ho _]%removed_elem. apply field_map_get in Ho as [Hr _]. by apply Hfresh.
Qed.

(** The update of a stored field, once written. *)
Lemma updated_written old f : old ∈ obj_fields old_type -> alist_get (fld_name old) nm = Some f ->
  exists d, d ∈ updated_fields delta /\ update_field ts new_type unsafe old f = Ok d /\
    persist_all (updated_fields delta) old = persist_delta d old.
Proof.
  intros Hold Hf. pose proof Hd as Hd'.
  apply generate_type_delta_ok in Hd' as (_ & Hentry & _ & _). rewrite Forall_forall in Hentry.
  pose proof (proj2 (field_map_entry _ _ _) Hf) as Hin. specialize (Hentry _ Hin).
  unfold entry_ok in Hentry. cbn in Hentry. rewrite (proj1 (stored_get old) Hold) in Hentry.
  destruct (update_field ts new_type unsafe old f) as [d| |] eqn:Hu; try done. exists d.
  destruct (update_field_ok _ _ _ _ _ _ Hu) as (_ & _ & _ & _ & Hid & _).
  pose proof (field_map_get _ _ _ Hf) as [_ Hname].
  assert (d ∈ updated_fields delta) as Hdin.
  { apply updated_elem. exists f, old. rewrite Hname. split; [done|split; [|done]]. by apply stored_get. }
  split; [done|split; [done|]]. apply persist_all_one; [done|done|].
  intros d' Hd' Hid'. by eapply updated_unique.
Qed.

(** A stored field is as the field [f] it was updated to, but that a default
    [f] has none of may stay; not so if the updates are [quiet]. *)
Record field_evolved (quiet : Prop) (g f : Field) : Prop := {
  fe_like : Evolve.same_field ts (with_default (fld_default f) g) f;
  fe_default : fld_default f = None \/ fld_default g = fld_default f;
  fe_quiet : quiet -> fld_default g = fld_default f;
}.

Lemma field_evolved_same quiet g f : field_evolved quiet g f -> quiet -> Evolve.same_field ts g f.
Proof. intros [(H1 & _ & H3 & H4 & H5 & H6) _ Hq] H. unfold Evolve.same_field in *. cbn in *. by rewrite Hq. Qed.

Lemma persist_delta_evolved old f d : old ∈ obj_fields old_type -> fld_name old = fld_name f ->
  d ∈ updated_fields delta -> update_field ts new_type unsafe old f = Ok d ->
  field_evolved keeps_defaults (persist_delta d old) f.
Proof.
  intros Hold Hname Hdin Hu. destruct (update_field_ok _ _ _ _ _ _ Hu) as (_ & _ & _ & _ & Hid & _ & Hsame).
  destruct (Hsame Hname) as (S1 & S2 & S3 & S4 & S5 & S6).
  rewrite <- persist_delta_apply in S1, S2, S3, S4, S5, S6.
  split.
  - by repeat split.
  - cbn in S2. destruct (fld_default f); [by right|by left].
  - intros Hk. rewrite S2. cbn. destruct (fld_default f) eqn:Ef; [done|]. cbn.
    pose proof (update_field_default _ _ _ _ _ _ Hu) as Ha. rewrite Ef in Ha.
    destruct (fdl_attrs d) as [a|] eqn:Ea; [by eapply Hk|done].
Qed.

(** With the default of the old field, if it has none of its own. *)
Lemma persist_delta_keeping old f d : fld_name old = fld_name f -> update_field ts new_type unsafe old f = Ok d ->
  Evolve.same_field ts (persist_delta d old) (Evolve.keeping (Some old) f).
Proof.
  intros Hname Hu. destruct (update_field_ok _ _ _ _ _ _ Hu) as (_ & _ & _ & _ & _ & _ & Hsame).
  rewrite persist_delta_apply. by apply Hsame.
Qed.

(** Every stored field is one of the new type with its default, or with that it had. *)
Lemma persisted_keeping g : g ∈ fields' -> exists f, alist_get (fld_name g) nm = Some f /\
  Evolve.same_field ts g (Evolve.keeping (alist_get (fld_name g) om) f).
Proof.
  intros [(old & Hold & [f Hf] & ->)|(i & a & _ & [Ha Hno]%added_elem & -> & _)]%persisted_elem.
  - destruct (updated_written old f Hold Hf) as (d & Hdin & Hu & ->).
    pose proof (field_map_get _ _ _ Hf) as [_ Hname]. exists f. cbn [fld_name persist_delta].
    split; [done|]. rewrite (proj1 (stored_get old) Hold). by apply persist_delta_keeping.
  - exists a. cbn [fld_name with_id]. split; [done|]. rewrite Hno. unfold Evolve.same_field. cbn.
    split; [done|]. split; [by destruct (fld_default a)|]. repeat split; [done|by left].
Qed.

(** Every stored field is one of the new type, and describes the same. *)
Lemma persisted_fields :
  (forall g, g ∈ fields' -> exists f, alist_get (fld_name g) nm = Some f /\ field_evolved keeps_defaults g f) /\
  (forall n f, alist_get n nm = Some f -> exists g, g ∈ fields' /\ fld_name g = n).
Proof.
  split.
  - intros g [(old & Hold & [f Hf] & ->)|(i & a & _ & [Ha _]%added_elem & -> & _)]%persisted_elem.
    + destruct (updated_written old f Hold Hf) as (d & Hdin & Hu & ->).
      pose proof (field_map_get _ _ _ Hf) as [_ Hname]. exists f. split; [done|].
      by apply persist_delta_evolved.
    + exists a. cbn. split; [done|]. split; [|by right|done].
      unfold Evolve.same_field. cbn. repeat split; try done. by left.
  - intros n f Hf. pose proof (field_map_get _ _ _ Hf) as [_ <-].
    destruct (alist_get (fld_name f) om) as [old|] eqn:Ho.
    + apply field_map_get in Ho as [Hold Hname]. rewrite <- Hname in Hf.
      destruct (updated_written old f Hold Hf) as (d & _ & _ & Hall).
      exists (persist_all (updated_fields delta) old). split; [|by rewrite Hall].
      apply persisted_elem. left. exists old. split; [done|split; [by eexists|done]].
    + assert (f ∈ added_fields delta) as Ha by (by apply added_elem).
      destruct (number_from_in (db_next_field_id db) _ _ Ha) as (i & Hi & Hin).
      exists (with_id i f). split; [|done]. apply persisted_elem. right. by exists i, f.
Qed.

End Evolution.

(** ** Indexes after a delta *)

Lemma drop_indexes_elem removed l i :
  i ∈ foldl drop_index l removed <-> i ∈ l /\ forall r, r ∈ removed -> idx_meta_id i <> idx_meta_id r.
Proof.
  revert l. induction removed as [|r removed IH]; intros l; cbn.
  { split; [intros H; split; [done|]|tauto]. intros r Hr. by apply not_elem_of_nil in Hr. }
  rewrite IH. unfold drop_index. rewrite list_elem_of_filter. split.
  - intros [[Hr Hf] Hrest]. split; [done|]. intros r' [->|Hr']%elem_of_cons; [done|by apply Hrest].
  - intros [Hf Hall]. split; [split; [|done]|]; [|intros r' Hr']; apply Hall; set_solver.
Qed.

Lemma number_indexes_fields id table l : idx_fields <$> number_indexes id table l = idx_fields <$> l.
Proof. revert id. induction l as [|i l IH]; intros id; cbn; [done|]. by rewrite IH. Qed.

Lemma persisted_indexes db tid ts old_type new_type unsafe delta fid iid fs : stores db tid old_type ->
  generate_type_delta ts old_type new_type unsafe = Ok delta ->
  fs ∈ idx_fields <$> obj_indexes (persisted delta fid iid old_type) <->
  fs ∈ idx_fields <$> obj_indexes new_type.
Proof.
  intros Hs Hd. apply generate_type_delta_ok in Hd as (_ & _ & _ & ->). cbn.
  rewrite fmap_app, elem_of_app, number_indexes_fields.
  pose proof (is_ids _ _ _ _ (st_indexes _ _ _ Hs)) as Hnd. split.
  - intros [(i & -> & [Hi Hr]%drop_indexes_elem)%list_elem_of_fmap|
            (i & -> & [Hi _]%index_diff_elem)%list_elem_of_fmap]; [|by apply list_elem_of_fmap_2].
    destruct (decide (idx_fields i ∈ idx_fields <$> obj_indexes new_type)) as [|Hn]; [done|].
    destruct (Hr i); [|done]. by apply index_diff_elem.
  - intros (j & -> & Hj)%list_elem_of_fmap.
    destruct (decide (idx_fields j ∈ idx_fields <$> obj_indexes old_type)) as [Ho|Ho].
    + left. apply list_elem_of_fmap in Ho as (i & Hij & Hi). rewrite Hij.
      apply list_elem_of_fmap_2, drop_indexes_elem. split; [done|].
      intros r [Hr Hn]%index_diff_elem Hid. apply Hn.
      assert (r = i) as ->; [|by rewrite <- Hij; apply list_elem_of_fmap_2].
      apply list_elem_of_lookup in Hi as [k Hk], Hr as [m Hm].
      assert (k = m) as ->; [|congruence].
      apply (NoDup_lookup _ _ _ (idx_meta_id i) Hnd); rewrite list_lookup_fmap, ?Hk, ?Hm; cbn; congruence.
    + right. by apply list_elem_of_fmap_2, index_diff_elem.
Qed.

(** The stored type describes the same as [ty]: its fields, by name, and the
    field lists of its indexes. *)
Record describes_type (quiet : Prop) (ts : TypeSystem) (o ty : ObjectType) : Prop := {
  dt_name : persisted_name o = persisted_name ty;
  dt_fields : forall g, g ∈ obj_fields o -> exists f,
    alist_get (fld_name g) (field_map_from ty) = Some f /\ field_evolved ts quiet g f;
  dt_all : forall n f, alist_get n (field_map_from ty) = Some f ->
    exists g, g ∈ obj_fields o /\ fld_name g = n;
  dt_indexes : forall fs, fs ∈ idx_fields <$> obj_indexes o <-> fs ∈ idx_fields <$> obj_indexes ty;
}.

Lemma persisted_describes db tid ts old_type new_type unsafe delta iid :
  consistent db -> stores db tid old_type ->
  Forall (fun f => fld_version_id f = obj_version_id old_type) (obj_fields old_type) ->
  generate_type_delta ts old_type new_type unsafe = Ok delta ->
  describes_type (keeps_defaults old_type delta) ts (persisted delta (db_next_field_id db) iid old_type) new_type.
Proof.
  intros Hc Hs Hv Hd.
  destruct (persisted_fields db tid ts old_type new_type unsafe delta Hc Hs Hv Hd) as [H1 H2].
  split; [|exact H1|exact H2|intros fs; by eapply persisted_indexes].
  apply generate_type_delta_ok in Hd as (Heq & _). unfold object_eqb in Heq.
  apply andb_prop in Heq as [Hn%String.eqb_eq Hver%String.eqb_eq].
  unfold persisted_name. cbn. congruence.
Qed.

(** What the name, type and version of a field have to satisfy. *)
Definition field_key (f : Field) : string * TypeId * string := (fld_name f, fld_type_id f, fld_version_id f).

Lemma update_field_attrs ts new_type unsafe old f d a : update_field ts new_type unsafe old f = Ok d ->
  fdl_attrs d = Some a -> fad_type_id a = fld_type_id f.
Proof.
  unfold update_field. intros H. apply bind_ok in H as (ty & _ & H). apply bind_ok in H as (oty & _ & H).
  apply bind_unit_ok in H as [_ H]. apply bind_unit_ok in H as [_ H]. apply bind_ok in H as (id & _ & [= <-]).
  cbn. destruct (_ || _); [|done]. by intros [= <-].
Qed.

(** The fields of an updated type are as those of the old and the new one. *)
Lemma persisted_keys (P : string * TypeId * string -> Prop) db tid ts old_type new_type unsafe delta iid :
  consistent db -> stores db tid old_type ->
  Forall (fun f => fld_version_id f = obj_version_id old_type) (obj_fields old_type) ->
  Forall (fun f => fld_version_id f = obj_version_id old_type) (obj_fields new_type) ->
  generate_type_delta ts old_type new_type unsafe = Ok delta ->
  Forall (fun f => P (field_key f)) (obj_fields old_type) ->
  Forall (fun f => P (field_key f)) (obj_fields new_type) ->
  Forall (fun f => P (field_key f)) (obj_fields (persisted delta (db_next_field_id db) iid old_type)).
Proof.
  intros Hc Hs Hv Hv' Hd Ho Hn. apply Forall_forall. intros g Hg.
  apply (persisted_elem db tid ts old_type new_type unsafe delta Hc Hs Hv Hd) in Hg.
  rewrite Forall_forall in Hv, Hv', Ho, Hn.
  destruct Hg as [(f & Hf & _ & ->)|(i & a & _ & Ha & -> & _)].
  - pose proof (Ho f Hf) as Hpf. unfold persist_all.
    assert (forall us g, (forall d, d ∈ us -> d ∈ updated_fields delta) -> fld_id g = fld_id f ->
      fld_name g = fld_name f -> fld_version_id g = fld_version_id f -> P (field_key g) ->
      P (field_key (foldl (fun f d => persist_at d f) g us))) as Hall; [|by apply Hall].
    induction us as [|d us IH]; intros g Hus Hid Hname Hver Hg; [done|]. cbn.
    apply IH; [intros; apply Hus; by right|..]; unfold persist_at; case_decide as Hdg; try done.
    unfold field_key, persist_delta. cbn. destruct (fdl_attrs d) as [a|] eqn:Ea; [|done].
    destruct (updated_id ts old_type new_type unsafe delta Hd d) as (f' & old & Hold & Hoid & Hon & Hget & Hu);
      [apply Hus; by left|].
    assert (old = f) as -> by (eapply stored_id_inj; [exact Hs|done|done|congruence]).
    apply field_map_get in Hget as [Hf' _]. pose proof (Hn f' Hf') as Hp. unfold field_key in Hp.
    rewrite (update_field_attrs _ _ _ _ _ _ _ Hu Ea), Hname, Hver, (Hv f Hf), Hon, <- (Hv' f' Hf'). exact Hp.
  - apply (added_elem ts old_type new_type unsafe delta Hd) in Ha as [Ha _].
    apply field_map_get in Ha as [Ha _]. exact (Hn a Ha).
Qed.

(** ** The store as a set of types *)

(** The store keeps exactly these types. *)
Record keeps (db : MetaDb) (tys : list ObjectType) : Prop := {
  ke_consistent : consistent db;
  ke_stores : Forall (fun ty => exists tid, stores db tid ty) tys;
  ke_ids : NoDup (obj_meta_id <$> tys);
  ke_all : forall n tid, db_type_names db !! n = Some tid -> Some tid ∈ obj_meta_id <$> tys;
}.

Inductive MetaOp :=
  | InsertType (ty : ObjectType)
  | UpdateType (ty : ObjectType) (delta : ObjectDelta)
  | RemoveType (ty : ObjectType).

Definition run_op (db : MetaDb) (op : MetaOp) : result MetaDb :=
  match op with
  | InsertType ty => insert_type db ty
  | UpdateType ty delta => update_type db ty delta
  | RemoveType ty => remove_type db ty
  end.

(** How the operation is used: a new type is inserted, and a stored one is
    changed or removed. *)
Definition op_allowed (tys : list ObjectType) (op : MetaOp) : Prop :=
  match op with
  | InsertType ty => obj_meta_id ty = None /\ obj_chisel_id ty = the_chisel_id
  | UpdateType ty delta => ty ∈ tys /\ delta_owned ty delta
  | RemoveType ty => ty ∈ tys
  end.

(** What the operation does to the set of types; the store picks the ids. *)
Inductive abs_step : list ObjectType -> MetaOp -> list ObjectType -> Prop :=
  | abs_insert tys ty tid fid iid :
      Some tid ∉ obj_meta_id <$> tys ->
      abs_step tys (InsertType ty) (tys ++ [with_ids tid fid iid ty])
  | abs_update l1 ty l2 delta fid iid :
      abs_step (l1 ++ ty :: l2) (UpdateType ty delta) (l1 ++ persisted delta fid iid ty :: l2)
  | abs_remove l1 ty l2 :
      abs_step (l1 ++ ty :: l2) (RemoveType ty) (l1 ++ l2).

Lemma keeps_id db tys ty : keeps db tys -> ty ∈ tys -> exists tid, obj_meta_id ty = Some tid /\ stores db tid ty.
Proof.
  intros [_ He _ _] Hin. rewrite Forall_forall in He. destruct (He ty Hin) as [tid Hs].
  exists tid. split; [apply Hs|done].
Qed.

Lemma keeps_others db tys tid db' o :
  keeps db tys -> step_keeps tid db db' -> o ∈ tys -> obj_meta_id o <> Some tid ->
  exists oid, stores db' oid o.
Proof.
  intros Hk [_ Hf] Ho Hne. destruct (keeps_id db tys o Hk Ho) as (oid & Hid & Hs). exists oid.
  eapply stores_same; [|exact Hs]. apply Hf. congruence.
Qed.

Lemma keeps_all_step db tys tid db' n x : keeps db tys -> step_keeps tid db db' -> x <> tid ->
  db_type_names db' !! n = Some x -> Some x ∈ obj_meta_id <$> tys.
Proof.
  intros Hk [_ Hf] Hne Hn. destruct (Hf x Hne) as ([_ HN] & _). apply HN in Hn. by eapply ke_all.
Qed.

Lemma insert_keeps db tys ty db' : keeps db tys -> op_allowed tys (InsertType ty) ->
  insert_type db ty = Ok db' ->
  exists tys', abs_step tys (InsertType ty) tys' /\ keeps db' tys'.
Proof.
  intros Hk [Hid Hch] H. pose proof (ke_consistent _ _ Hk) as Hc.
  destruct (insert_type_stored db ty db' Hc Hid Hch H) as [Hstep (iid & Hs)].
  assert (Some (db_next_type_id db) ∉ obj_meta_id <$> tys) as Hnew.
  { intros (o & Ho & Hin)%list_elem_of_fmap. destruct (keeps_id db tys o Hk Hin) as (oid & Hoid & Hos).
    rewrite Hoid in Ho. injection Ho as <-. pose proof (st_table _ _ _ Hos) as Ht.
    by rewrite fresh_type in Ht. }
  exists (tys ++ [with_ids (db_next_type_id db) (db_next_field_id db) iid ty]).
  split; [by constructor|]. split.
  - apply Hstep.
  - apply Forall_app. split; [|repeat constructor; by eexists]. apply Forall_forall. intros o Ho.
    eapply keeps_others; [done..|]. intros Hoid. apply Hnew. rewrite <- Hoid. by apply list_elem_of_fmap_2.
  - rewrite fmap_app. apply NoDup_app. split; [apply Hk|split].
    + intros x Hx ->%list_elem_of_singleton. by apply Hnew.
    + apply NoDup_singleton.
  - intros n x Hn. rewrite fmap_app. apply elem_of_app.
    destruct (decide (x = db_next_type_id db)) as [->|Hne]; [right; by left|left; by eapply keeps_all_step].
Qed.

(** Replacing or dropping the representation of one type. *)
Lemma keeps_replace db l1 ty l2 tid db' new : keeps db (l1 ++ ty :: l2) ->
  obj_meta_id ty = Some tid -> step_keeps tid db db' ->
  Forall (fun ty' => stores db' tid ty') new ->
  (new = [] /\ (forall n, db_type_names db' !! n <> Some tid)) \/ (exists ty', new = [ty']) ->
  keeps db' (l1 ++ new ++ l2).
Proof.
  intros Hk Hid Hstep Hnew Hcase.
  pose proof (ke_ids _ _ Hk) as Hnd. rewrite fmap_app, fmap_cons, <- Permutation_middle in Hnd.
  apply NoDup_cons in Hnd as [Hfresh Hnd]. rewrite Hid in Hfresh.
  assert (forall o, o ∈ l1 ++ l2 -> exists oid, stores db' oid o) as Hothers.
  { intros o Ho. apply (keeps_others db _ tid db' o Hk Hstep).
    { rewrite elem_of_app in Ho |- *. rewrite elem_of_cons. tauto. }
    intros Hoid. apply Hfresh. rewrite <- fmap_app, <- Hoid. by apply list_elem_of_fmap_2. }
  assert (Forall (fun ty' => obj_meta_id ty' = Some tid) new) as Hids
    by (eapply Forall_impl; [exact Hnew|]; intros ty'; apply st_id).
  split.
  - apply Hstep.
  - rewrite !Forall_app. split; [|split].
    + apply Forall_forall. intros o Ho. apply Hothers. set_solver.
    + eapply Forall_impl; [exact Hnew|]. eauto.
    + apply Forall_forall. intros o Ho. apply Hothers. set_solver.
  - destruct Hcase as [[-> _]|[ty' ->]].
    + by rewrite app_nil_l, fmap_app.
    + apply Forall_cons in Hids as [Hid' _]. rewrite fmap_app. cbn. rewrite <- Permutation_middle, Hid'.
      by constructor.
  - intros n x Hn. destruct (decide (x = tid)) as [->|Hne].
    + destruct Hcase as [[_ Hno]|[ty' ->]]; [by destruct (Hno n)|].
      apply Forall_cons in Hids as [Hid' _]. rewrite <- Hid'. apply list_elem_of_fmap_2. set_solver.
    + pose proof (keeps_all_step _ _ _ _ _ _ Hk Hstep Hne Hn) as Hin. rewrite fmap_app in Hin.
      rewrite fmap_cons, elem_of_app, elem_of_cons, Hid in Hin. rewrite !fmap_app, !elem_of_app.
      destruct Hin as [Hx|[[= ->]|Hx]]; [by left|done|by right; right].
Qed.

Lemma update_keeps db l1 ty l2 delta db' : keeps db (l1 ++ ty :: l2) -> delta_owned ty delta ->
  update_type db ty delta = Ok db' ->
  exists iid, keeps db' (l1 ++ persisted delta (db_next_field_id db) iid ty :: l2).
Proof.
  intros Hk Ho H. destruct (keeps_id db _ ty Hk) as (tid & Hid & Hs); [set_solver|].
  destruct (update_type_stored db tid ty delta db' (ke_consistent _ _ Hk) Hs Ho H) as [Hstep [iid Hs']].
  exists iid. apply (keeps_replace db l1 ty l2 tid db' [_] Hk Hid Hstep); [by constructor|right; by eexists].
Qed.

Lemma remove_keeps db l1 ty l2 : keeps db (l1 ++ ty :: l2) ->
  exists db', remove_type db ty = Ok db' /\ keeps db' (l1 ++ l2).
Proof.
  intros Hk. destruct (keeps_id db _ ty Hk) as (tid & Hid & Hs); [set_solver|].
  destruct (remove_type_stored db tid ty (ke_consistent _ _ Hk) Hs) as (db2 & H2 & Hstep & Hno).
  exists db2. split; [done|].
  apply (keeps_replace db l1 ty l2 tid db2 [] Hk Hid Hstep); [by constructor|left; split; [done|apply Hno]].
Qed.

(** The order of the types does not matter, nor that of what is in them. *)
Lemma keeps_perm db tys tys' : tys ≡ₚ tys' -> keeps db tys -> keeps db tys'.
Proof.
  intros Hp [Hc Hs Hi Ha]. split; [done|by rewrite <- Hp|by rewrite <- Hp|].
  intros n tid. rewrite <- Hp. apply Ha.
Qed.

Lemma keeps_reread db tys objs : Forall2 same_object tys objs -> keeps db tys -> keeps db objs.
Proof.
  intros H2 [Hc Hs Hi Ha].
  assert (obj_meta_id <$> objs = obj_meta_id <$> tys) as Hids
    by (clear -H2; induction H2 as [|ty obj tys objs [Hid _ _ _ _ _ _] _ IH]; cbn; congruence).
  split; [done| |by rewrite Hids|by rewrite Hids].
  clear -H2 Hs. induction H2 as [|ty obj tys objs Hso _ IH]; [constructor|].
  apply Forall_cons in Hs as [[tid Hs] Hrest]. constructor; [|by apply IH].
  exists tid. by eapply stores_reread.
Qed.

(** C15: The metadata store refines a set of types: from a store that keeps
    exactly [tys], an insertion, an update or a removal that succeeds leaves a
    store that keeps exactly the types the abstract operation gives, and a
    removal always succeeds.  No other type is touched. *)
Theorem store_refines db tys op : keeps db tys -> op_allowed tys op ->
  (forall db', run_op db op = Ok db' -> exists tys', abs_step tys op tys' /\ keeps db' tys') /\
  (forall ty, op = RemoveType ty -> is_ok (run_op db op) = true).
Proof.
  intros Hk Ha. destruct op as [ty|ty delta|ty]; cbn [run_op].
  - split; [|done]. intros db' H. by apply (insert_keeps db).
  - split; [|done]. intros db' H. destruct Ha as [Hin Ho]. apply list_elem_of_split in Hin as (l1 & l2 & ->).
    destruct (update_keeps db l1 ty l2 delta db' Hk Ho H) as (iid & Hk').
    eexists. split; [constructor|exact Hk'].
  - cbn in Ha. apply list_elem_of_split in Ha as (l1 & l2 & ->).
    destruct (remove_keeps db l1 ty l2 Hk) as (db2 & H2 & Hk2). rewrite H2.
    split; [|done]. intros db' [= <-]. eexists. split; [constructor|exact Hk2].
Qed.

(** C39: Evolving a stored type writes the new type.  When the delta that was computed
    from a stored type to a new one is written to the store, the store represents a
    type of the same name, version and table whose fields are exactly the new type's,
    with its types, optionality, uniqueness, labels and defaults - but a stored
    default stays where the new field has none -, whose indexed field lists are the
    new type's; and no other type is touched. *)
Theorem evolution_stored db tid ts old_type new_type unsafe delta db' :
  consistent db -> stores db tid old_type ->
  Forall (fun f => fld_version_id f = obj_version_id old_type) (obj_fields old_type) ->
  generate_type_delta ts old_type new_type unsafe = Ok delta ->
  update_type db old_type delta = Ok db' ->
  step_keeps tid db db' /\
  exists ty, stores db' tid ty /\ persisted_name ty = persisted_name new_type /\
    obj_backing_table ty = obj_backing_table old_type /\
    (forall g, g ∈ obj_fields ty -> exists f,
       alist_get (fld_name g) (field_map_from new_type) = Some f /\
       Evolve.same_field ts g (Evolve.keeping (alist_get (fld_name g) (field_map_from old_type)) f)) /\
    (forall n f, alist_get n (field_map_from new_type) = Some f ->
       exists g, g ∈ obj_fields ty /\ fld_name g = n) /\
    (forall fs, fs ∈ idx_fields <$> obj_indexes ty <-> fs ∈ idx_fields <$> obj_indexes new_type).
Proof.
  intros Hc Hs Hv Hd H.
  pose proof (delta_is_owned ts old_type new_type unsafe delta Hd) as Ho.
  destruct (update_type_stored db tid old_type delta db' Hc Hs Ho H) as [Hstep [iid Hs']].
  split; [done|]. exists (persisted delta (db_next_field_id db) iid old_type). split; [done|].
  destruct (persisted_describes db tid ts old_type new_type unsafe delta iid Hc Hs Hv Hd) as [H1 _ H3 H4].
  split; [done|split; [done|split; [|by split]]].
  intros g Hg. by eapply persisted_keeping.
Qed.

(** A default cannot be given up: whatever field update the delta holds,
    a field that is updated without a default keeps the default it has in the
    store. *)
Theorem given_up_default_stays db tid ts old_type new_type unsafe delta db' f d a :
  consistent db -> stores db tid old_type ->
  Forall (fun f => fld_version_id f = obj_version_id old_type) (obj_fields old_type) ->
  generate_type_delta ts old_type new_type unsafe = Ok delta ->
  update_type db old_type delta = Ok db' ->
  f ∈ obj_fields old_type -> d ∈ updated_fields delta -> fld_id f = Some (fdl_id d) ->
  fdl_attrs d = Some a -> fad_default a = None ->
  exists ty g, stores db' tid ty /\ g ∈ obj_fields ty /\ fld_name g = fld_name f /\
    fld_default g = fld_default f.
Proof.
  intros Hc Hs Hv Hd H Hf Hin Hid Ha Hnone.
  pose proof (delta_is_owned ts old_type new_type unsafe delta Hd) as Ho.
  destruct (update_type_stored db tid old_type delta db' Hc Hs Ho H) as [_ [iid Hs']].
  exists (persisted delta (db_next_field_id db) iid old_type), (persist_delta d f).
  split; [done|]. assert (persist_all (updated_fields delta) f = persist_delta d f) as Hall.
  { apply persist_all_one; [done|done|]. intros d' Hd' Hid'.
    by apply (updated_unique db tid ts old_type new_type unsafe delta Hs Hd d d' f). }
  split; [|split; [done|]].
  - rewrite <- Hall. apply (persisted_elem db tid ts old_type new_type unsafe delta Hc Hs Hv Hd).
    left. exists f. split; [done|split; [|done]].
    destruct (updated_id ts old_type new_type unsafe delta Hd d Hin)
      as (f' & old & Hold & Hoid & Hname & Hget & _).
    assert (f = old) as -> by (eapply stored_id_inj; [exact Hs|done|done|congruence]).
    rewrite Hname, Hget. by eexists.
  - cbn. rewrite Ha. destruct a as [t [v|] o u]; [done|]. done.
Qed.

(** ** Loading what is kept *)

Section Reload.
Context {RO : RowOrder} {RL : RowOrderLaws} (builtin_types : BuiltinTypes).

Lemma type_rows_elem db tid table n :
  (tid, table, n) ∈ type_rows db <-> db_type_names db !! n = Some tid /\ db_types db !! tid = Some table.
Proof.
  unfold type_rows. rewrite (in_order_perm _), list_elem_of_omap. split.
  - intros ([n' x] & Hin%elem_of_map_to_list & H). destruct (db_types db !! x) as [t|] eqn:Ht; [|done].
    cbn in H. by injection H as <- <- <-.
  - intros [Hn Ht]. exists (n, tid). split; [by apply elem_of_map_to_list|]. by rewrite Ht.
Qed.

Lemma type_rows_NoDup db : NoDup (type_rows db).
Proof.
  unfold type_rows. rewrite (in_order_perm _).
  apply (omap_key_NoDup _ snd); [|apply NoDup_fst_map_to_list].
  intros [n x] y. destruct (db_types db !! x); [|done]. by intros [= <-].
Qed.

Lemma keeps_rows db tys : keeps db tys -> type_rows db ≡ₚ row_of_type <$> tys.
Proof.
  intros Hk. apply NoDup_Permutation.
  - apply type_rows_NoDup.
  - apply (NoDup_fmap_1 (fun r => Some r.1.1)). rewrite <- list_fmap_compose.
    replace ((fun r => Some r.1.1) ∘ row_of_type <$> tys) with (obj_meta_id <$> tys); [apply Hk|].
    apply list_fmap_ext. intros i o Ho%list_elem_of_lookup_2. cbn.
    destruct (keeps_id db tys o Hk Ho) as (oid & -> & _). done.
  - intros [[tid table] n]. rewrite type_rows_elem, list_elem_of_fmap. split.
    + intros [Hn Ht]. pose proof (ke_all _ _ Hk n tid Hn) as (o & Ho & Hin)%list_elem_of_fmap.
      exists o. split; [|done]. destruct (keeps_id db tys o Hk Hin) as (oid & Hoid & Hos).
      unfold row_of_type. rewrite <- Ho. rewrite <- Ho in Hoid. injection Hoid as <-.
      apply (st_name _ _ _ Hos) in Hn as ->. rewrite (st_table _ _ _ Hos) in Ht. by injection Ht as ->.
    + intros (o & Heq & Hin). destruct (keeps_id db tys o Hk Hin) as (oid & Hoid & Hos).
      unfold row_of_type in Heq. rewrite Hoid in Heq. injection Heq as -> -> ->.
      split; [by apply (st_name _ _ _ Hos)|apply Hos].
Qed.

(** A type as the server stores them: its names are free of the separators, and
    its fields have types of its version or built-in ones. *)
Definition loadable_type (ty : ObjectType) : Prop :=
  plain ty /\ Forall (fun f => well_typed builtin_types ty (fld_type_id f)) (obj_fields ty).

Lemma holds_perm l l' tss : l ≡ₚ l' -> holds builtin_types l tss -> holds builtin_types l' tss.
Proof.
  intros Hp H v. specialize (H v). destruct (tss !! v) as [ts|].
  - destruct H as (H1 & H2 & H3). split; [done|split; [done|]]. intros n. specialize (H3 n).
    destruct (custom_types ts !! n).
    + destruct H3 as (ty & obj & Hin & Hrest). exists ty, obj. by rewrite <- Hp.
    + intros ty. rewrite <- Hp. apply H3.
  - intros ty. rewrite <- Hp. apply H.
Qed.

Lemma keeps_load db tys : keeps db tys -> Forall loadable_type tys ->
  exists order, order ≡ₚ tys /\ type_rows db = row_of_type <$> order /\
  match two_passes builtin_types order with
  | Some _ => exists tss, load_type_systems builtin_types db = Ok tss /\ holds builtin_types tys tss
  | None => exists e, load_type_systems builtin_types db = Err e
  end.
Proof.
  intros Hk Hl. pose proof (keeps_rows db tys Hk) as Hrows.
  apply Permutation_map_inv in Hrows as (order & Hrows & Hperm). exists order.
  split; [done|split; [done|]].
  assert (describes builtin_types db order) as Hd.
  { split; [|done]. rewrite <- Hperm. pose proof (ke_stores _ _ Hk) as Hs.
    rewrite Forall_forall in Hs, Hl |- *. intros ty Hin. destruct (Hl ty Hin). by split; [| |apply Hs]. }
  pose proof (load_type_systems_passes builtin_types db order Hd) as H.
  destruct (two_passes builtin_types order) as [all|]; [|done].
  destruct H as [Hall (tss & Hload & Hh)]. exists tss. split; [done|].
  eapply holds_perm; [|exact Hh]. by rewrite Hall.
Qed.

(** C19: Loading the type systems is a selection in two passes: in the order in
    which the database returns the types, a type is loaded when the types of its
    fields are known, otherwise it is tried once more after the first pass.
    Loading succeeds exactly when this finds every type, and then each version's
    type system holds exactly the stored types of the version, field by field. *)
Theorem load_type_systems_spec db tys : keeps db tys -> Forall loadable_type tys ->
  exists order, order ≡ₚ tys /\ type_rows db = row_of_type <$> order /\
  match two_passes builtin_types order with
  | Some _ => exists tss, load_type_systems builtin_types db = Ok tss /\ holds builtin_types tys tss
  | None => exists e, load_type_systems builtin_types db = Err e
  end.
Proof. apply keeps_load. Qed.

Lemma first_pass_sorted tys pre : (forall l ty r, tys = l ++ ty :: r -> can_load builtin_types (pre ++ l) ty = true) ->
  foldl (first_pass_step builtin_types) (pre, []) tys = (pre ++ tys, []).
Proof.
  revert pre. induction tys as [|ty tys IH]; intros pre H; cbn; [by rewrite app_nil_r|].
  pose proof (H [] ty tys eq_refl) as H0. rewrite app_nil_r in H0. rewrite H0.
  rewrite IH; [by rewrite <- app_assoc|]. intros l ty' r ->. rewrite <- app_assoc.
  by apply (H (ty :: l) ty' r).
Qed.

(** Types that are returned after the types they refer to all load. *)
Lemma two_passes_sorted tys : (forall l ty r, tys = l ++ ty :: r -> can_load builtin_types l ty = true) ->
  two_passes builtin_types tys = Some tys.
Proof. intros H. unfold two_passes. rewrite (first_pass_sorted tys []) by done. done. Qed.

End Reload.

(** ** Witnesses *)

Module MetaSample.

#[export] Instance order : RowOrder := { in_order A l := l }.
#[export] Instance order_laws : RowOrderLaws.
Proof. by split. Qed.

Definition builtins : BuiltinTypes := {| types := builtin_table |}.

Definition field (name : string) (ty : Type_) (default : option string) (is_optional : bool) : Field :=
  Field_new {| nf_name := name; nf_ty := ty; nf_version_id := "dev" |} ["pii"] default is_optional false.

Definition object (name : string) (fields : list Field) : ObjectType :=
  {| obj_meta_id := None; obj_name := name; obj_fields := fields; obj_indexes := [];
     obj_chisel_id := the_chisel_id; obj_backing_table := "ty_" +:+ name +:+ "_0";
     obj_version_id := "dev" |}.

Definition run_ops (db : MetaDb) (ops : list MetaOp) : result MetaDb := foldM run_op db ops.

Definition after (ops : list MetaOp) : MetaDb :=
  match run_ops empty_db ops with Ok db => db | _ => empty_db end.

Lemma keeps_empty : keeps empty_db [].
Proof.
  split; [|constructor|constructor|by intros n tid; cbn; rewrite lookup_empty].
  split; cbn; intros *; rewrite ?lookup_empty; try done. intros H; by apply not_elem_of_nil in H.
Qed.

Definition post : ObjectType := object "Post" [field "title" TString (Some "untitled") false].
Definition new_post : ObjectType := object "Post" [field "title" TString None false].
Definition renamed_post : ObjectType :=
  object "Post" [field "title" TString (Some "none") false; field "stars" TFloat (Some "0") false].

Definition stored_post : ObjectType := with_ids 1 1 1 post.
Definition post_db : MetaDb := after [InsertType post].
Definition dev : TypeSystem := TypeSystem_new builtins "dev".

Lemma post_inserted : insert_type empty_db post = Ok post_db.
Proof. vm_compute. reflexivity. Qed.

Lemma post_stored : consistent post_db /\ stores post_db 1 stored_post.
Proof.
  destruct (insert_type_stored empty_db post post_db (ke_consistent _ _ keeps_empty) eq_refl eq_refl
    post_inserted) as [[Hc _] [iid Hs]].
  split; [exact Hc|exact Hs].
Qed.

Lemma post_kept : keeps post_db [stored_post].
Proof.
  destruct post_stored as [Hc Hs]. split; [done| | |].
  - constructor; [by exists 1%Z|constructor].
  - apply NoDup_singleton.
  - assert (db_type_names post_db = {["dev.Post" := 1%Z]}) as -> by (vm_compute; reflexivity).
    intros n tid [_ <-]%lookup_singleton_Some. left.
Qed.

Lemma post_loadable : loadable_type builtins stored_post.
Proof.
  split; [split|].
  - split; intros H; vm_compute in H; decompose sum H; discriminate.
  - repeat constructor; intros H; vm_compute in H; decompose sum H; discriminate.
  - constructor.
  - constructor; [vm_compute; reflexivity|constructor].
Qed.

Definition delta_to (new : ObjectType) : ObjectDelta :=
  match generate_type_delta dev stored_post new false with
  | Ok d => d
  | _ => {| added_fields := []; removed_fields := []; updated_fields := [];
            added_indexes := []; removed_indexes := [] |}
  end.

Definition updated_db (new : ObjectType) : MetaDb :=
  match update_type post_db stored_post (delta_to new) with Ok db => db | _ => empty_db end.

Definition given_up : FieldDelta :=
  {| fdl_id := 1;
     fdl_attrs := Some {| fad_type_id := IdString; fad_default := None; fad_is_optional := false;
                          fad_is_unique := false |};
     fdl_labels := None |}.

(** A chain: each type came before the one it refers to, and the references
    were added later. *)
Definition chain : list MetaOp :=
  let a := object "A" [] in let b := object "B" [] in let d := object "D" [] in
  let link n := field "next" (TEntity (Custom (object n []))) None true in
  let add f := {| added_fields := [f]; removed_fields := []; updated_fields := [];
                  added_indexes := []; removed_indexes := [] |} in
  [InsertType a; InsertType b; InsertType d;
   UpdateType (with_ids 1 1 1 a) (add (link "B")); UpdateType (with_ids 2 1 1 b) (add (link "D"))].

Definition chain_db : MetaDb := after chain.

End MetaSample.

#[local] Existing Instance MetaSample.order.
#[local] Existing Instance MetaSample.order_laws.

Lemma store_refines_witness :
  exists tys', abs_step [] (InsertType MetaSample.post) tys' /\ keeps MetaSample.post_db tys'.
Proof.
  refine (proj1 (store_refines empty_db [] (InsertType MetaSample.post) MetaSample.keeps_empty _)
    MetaSample.post_db MetaSample.post_inserted).
  split; reflexivity.
Defined.

Lemma evolution_stored_witness :
  exists ty, stores (MetaSample.updated_db MetaSample.new_post) 1 ty /\
    (forall g, g ∈ obj_fields ty -> exists f,
       alist_get (fld_name g) (field_map_from MetaSample.new_post) = Some f /\
       Evolve.same_field MetaSample.dev g
         (Evolve.keeping (alist_get (fld_name g) (field_map_from MetaSample.stored_post)) f)).
Proof.
  destruct MetaSample.post_stored as [Hc Hs].
  destruct (evolution_stored MetaSample.post_db 1 MetaSample.dev MetaSample.stored_post
    MetaSample.new_post false (MetaSample.delta_to MetaSample.new_post)
    (MetaSample.updated_db MetaSample.new_post)) as (_ & ty & Hty & _ & _ & Hf & _).
  - exact Hc.
  - exact Hs.
  - repeat constructor.
  - vm_compute. reflexivity.
  - vm_compute. reflexivity.
  - exists ty. split; [exact Hty|exact Hf].
Defined.

Lemma given_up_default_stays_witness :
  exists ty g, stores (MetaSample.updated_db MetaSample.new_post) 1 ty /\ g ∈ obj_fields ty /\
    fld_name g = "title" /\ fld_default g = Some "untitled".
Proof.
  destruct MetaSample.post_stored as [Hc Hs].
  apply (given_up_default_stays MetaSample.post_db 1 MetaSample.dev MetaSample.stored_post
    MetaSample.new_post false (MetaSample.delta_to MetaSample.new_post)
    (MetaSample.updated_db MetaSample.new_post)
    (with_id 1 (MetaSample.field "title" TString (Some "untitled") false)) MetaSample.given_up
    {| fad_type_id := IdString; fad_default := None; fad_is_optional := false; fad_is_unique := false |}).
  - exact Hc.
  - exact Hs.
  - repeat constructor.
  - vm_compute. reflexivity.
  - vm_compute. reflexivity.
  - left.
  - vm_compute. left.
  - reflexivity.
  - reflexivity.
  - reflexivity.
Defined.

Lemma load_type_systems_spec_witness :
  exists tss, load_type_systems MetaSample.builtins MetaSample.post_db = Ok tss /\
    holds MetaSample.builtins [MetaSample.stored_post] tss.
Proof.
  destruct (load_type_systems_spec MetaSample.builtins MetaSample.post_db [MetaSample.stored_post])
    as (order & Hperm & _ & H).
  - exact MetaSample.post_kept.
  - constructor; [exact MetaSample.post_loadable|constructor].
  - apply Permutation_singleton_r in Hperm as ->.
    assert (two_passes MetaSample.builtins [MetaSample.stored_post] = Some [MetaSample.stored_post]) as Hp
      by (vm_compute; reflexivity).
    rewrite Hp in H. exact H.
Defined.

(** One retry is not enough: three types stored one by one, then linked each
    to the next by updates that succeed, are a store from which the type systems
    of no version load any more. *)
Theorem one_retry_not_enough :
  is_ok (MetaSample.run_ops empty_db MetaSample.chain) = true /\
  is_ok (load_type_systems MetaSample.builtins MetaSample.chain_db) = false.
Proof. vm_compute. split; reflexivity. Qed.
