(* ===== verification/ReloadSpec.v ===== *)
(** * Type systems that reflect the store

    The objects of a type system that was loaded are a representation of what
    the store keeps of its version. *)

From S2P Require Import Prelude Ident Types Builtin TypeSystem Policies Query Meta MetaSpec MetaLoadSpec MetaStoreSpec.

#[local] Arguments lookup_builtin_type : simpl never.

(** The objects of a type system. *)
Definition objects (ts : TypeSystem) : list ObjectType :=
  (fun e => object_type e.2) <$> map_to_list (custom_types ts).

(** They are the types of the version, each under its name. *)
Definition version_types (v : string) (ts : TypeSystem) : Prop :=
  forall n e, custom_types ts !! n = Some e ->
    exists o, e = Custom o /\ obj_name o = n /\ obj_version_id o = v /\
      Forall (fun f => fld_version_id f = v) (obj_fields o).

Lemma objects_version v ts : version_types v ts -> Forall (fun o => obj_version_id o = v) (objects ts).
Proof.
  intros Hv. apply Forall_forall. intros o ([n e] & -> & Hin%elem_of_map_to_list)%list_elem_of_fmap.
  by destruct (Hv _ _ Hin) as (o & -> & _ & Ho & _).
Qed.

(** ** What a row does not hold *)

(** The default a field is loaded with is computed from the one it stores. *)
Definition refreshed_field (f : Field) : Field :=
  {| fld_id := fld_id f; fld_name := fld_name f; fld_type_id := fld_type_id f; fld_labels := fld_labels f;
     fld_is_optional := fld_is_optional f; fld_is_unique := fld_is_unique f; fld_default := fld_default f;
     fld_effective_default := effective (fld_type_id f) (fld_default f);
     fld_version_id := fld_version_id f |}.

Definition refreshed (ty : ObjectType) : ObjectType :=
  {| obj_meta_id := obj_meta_id ty; obj_name := obj_name ty; obj_fields := refreshed_field <$> obj_fields ty;
     obj_indexes := obj_indexes ty; obj_chisel_id := obj_chisel_id ty;
     obj_backing_table := obj_backing_table ty; obj_version_id := obj_version_id ty |}.

Lemma stores_refreshed db tid ty : stores db tid ty -> stores db tid (refreshed ty).
Proof.
  intros [S1 S2 S3 [Fe Fn Fa] [Ie In Ia] S6]. 
  assert (fld_id <$> obj_fields (refreshed ty) = fld_id <$> obj_fields ty) as Hids
    by (cbn; by rewrite <- list_fmap_compose).
  split; [done..| |by split|done].
  split; [|by rewrite Hids|by rewrite Hids]. cbn. apply Forall_fmap. exact Fe.
Qed.

Lemma keeps_refreshed db others tys : keeps db (others ++ tys) -> keeps db (others ++ (refreshed <$> tys)).
Proof.
  intros [Hc Hs Hi Ha].
  assert (obj_meta_id <$> (others ++ (refreshed <$> tys)) = obj_meta_id <$> (others ++ tys)) as Hids
    by (by rewrite !fmap_app, <- list_fmap_compose).
  split; [done| |by rewrite Hids|by rewrite Hids]. apply Forall_app in Hs as [Hs1 Hs2].
  apply Forall_app. split; [done|]. apply Forall_fmap. eapply Forall_impl; [exact Hs2|].
  intros ty [tid Hs]. exists tid. by apply stores_refreshed.
Qed.

Section Loadable.
Context (builtin_types : BuiltinTypes).

Lemma same_object_loadable ty obj : same_object ty obj -> loadable_type builtin_types ty ->
  loadable_type builtin_types obj.
Proof.
  intros [_ Hn Hv _ _ Hf Hi] [[[P1 P2] P3 P4] Hw]. split; [split|].
  - split; by rewrite ?Hn, ?Hv.
  - apply (same_fields_read_forall (plain_field obj) _ _ Hf); [intros f g [-> _] [? ? ?]; by split|].
    eapply Forall_impl; [exact P3|]. intros f [? ? ?]. by split; rewrite ?Hv.
  - rewrite Hi. eapply Forall_impl; [exact P4|]. intros i (I1 & I2 & I3). split; [done|split; [done|]].
    eapply Forall_impl; [exact I3|]. intros n. by rewrite (same_fields_read_names _ _ Hf).
  - apply (same_fields_read_forall (fun f => well_typed builtin_types obj (fld_type_id f)) _ _ Hf);
      [by intros f g [-> _]|].
    eapply Forall_impl; [exact Hw|]. intros f. unfold well_typed. by rewrite Hv.
Qed.

(** What the name, type and version of a field of a version [v] satisfy. *)
Definition plain_key (v : string) (k : string * TypeId * string) : Prop :=
  no_char "." k.1.1 /\
  match lookup_builtin_type (TypeSystem_new builtin_types v) (type_id_name k.1.2) with
  | Ok t' => type_id_of t' = k.1.2
  | _ => k.1.2 = IdEntity (type_id_name k.1.2) v
  end /\ k.2 = v.

Lemma loadable_keys ty : loadable_type builtin_types ty ->
  Forall (fun f => plain_key (obj_version_id ty) (field_key f)) (obj_fields ty).
Proof.
  intros [[_ Hf _] Hw]. rewrite Forall_forall in Hf, Hw. apply Forall_forall. intros f Hin.
  destruct (Hf f Hin). split; [done|split; [by apply Hw|done]].
Qed.

Lemma refreshed_loadable ty : plain_type ty ->
  Forall (fun f => plain_key (obj_version_id ty) (field_key f)) (obj_fields ty) ->
  Forall (plain_index ty) (obj_indexes ty) -> loadable_type builtin_types (refreshed ty).
Proof.
  intros Ht Hk Hi. split; [split; [done| |]|]; cbn.
  - apply Forall_fmap. eapply Forall_impl; [exact Hk|]. intros f (H1 & _ & H3). by split.
  - eapply Forall_impl; [exact Hi|]. intros i (I1 & I2 & I3). split; [done|split; [done|]].
    cbn. rewrite <- list_fmap_compose. exact I3.
  - apply Forall_fmap. eapply Forall_impl; [exact Hk|]. intros f (_ & H2 & _). exact H2.
Qed.

End Loadable.

(** ** The objects that were loaded *)

Section Held.
Context (builtin_types : BuiltinTypes).

Lemma keeps_names db tys ty ty' : keeps db tys -> ty ∈ tys -> ty' ∈ tys ->
  obj_name ty = obj_name ty' -> obj_version_id ty = obj_version_id ty' -> ty = ty'.
Proof.
  intros Hk Hin Hin' Hn Hv. destruct (keeps_id db tys ty Hk Hin) as (t & Ht & Hs).
  destruct (keeps_id db tys ty' Hk Hin') as (t' & Ht' & Hs').
  assert (t = t') as <-.
  { pose proof (proj2 (st_name _ _ _ Hs _) eq_refl) as H1.
    pose proof (proj2 (st_name _ _ _ Hs' _) eq_refl) as H2.
    unfold persisted_name in *. rewrite Hn, Hv, H2 in H1. by injection H1. }
  apply list_elem_of_lookup in Hin as [k Hk1], Hin' as [l Hl1].
  assert (k = l) as ->; [|congruence].
  apply (NoDup_lookup _ _ _ (Some t) (ke_ids _ _ Hk)); rewrite list_lookup_fmap, ?Hk1, ?Hl1; cbn; congruence.
Qed.

Lemma held_objects db others tys v ts : keeps db (others ++ tys) ->
  Forall (fun o => obj_version_id o <> v) others -> Forall (fun o => obj_version_id o = v) tys ->
  ts_holds builtin_types (others ++ tys) v ts ->
  exists tys', tys' ≡ₚ tys /\ Forall2 same_object tys' (objects ts).
Proof.
  intros Hk Ho Hv (_ & _ & H3). rewrite Forall_forall in Ho, Hv.
  assert (Forall (fun o => exists ty, ty ∈ tys /\ same_object ty o) (objects ts)) as Hall.
  { apply Forall_forall. intros o ([n e] & -> & Hin%elem_of_map_to_list)%list_elem_of_fmap.
    specialize (H3 n). rewrite Hin in H3. destruct H3 as (ty & obj & Hty & _ & Htv & -> & Hs).
    exists ty. split; [|done]. apply elem_of_app in Hty as [Hty|]; [|done]. by destruct (Ho ty Hty). }
  apply Forall_exists_Forall2_r in Hall as (tys' & H2).
  exists tys'. split; [|eapply Forall2_impl; [exact H2|]; by intros ty o [_ ?]].
  assert (obj_name <$> tys' = (map_to_list (custom_types ts)).*1) as Hnames.
  { unfold objects in H2. apply Forall2_fmap_r in H2.
    assert (Forall (fun e => obj_name (object_type e.2) = e.1) (map_to_list (custom_types ts))) as He.
    { apply Forall_forall. intros [n e] Hin%elem_of_map_to_list. specialize (H3 n). rewrite Hin in H3.
      destruct H3 as (ty & obj & _ & Hn & _ & -> & Hs). cbn. by rewrite (so_name _ _ Hs). }
    clear -H2 He. induction H2 as [|ty e tys' l [_ Hs] _ IH]; [done|].
    apply Forall_cons in He as [Hn He]. cbn. rewrite <- (so_name _ _ Hs), Hn. f_equal. by apply IH. }
  apply NoDup_Permutation.
  - apply (NoDup_fmap_1 obj_name). rewrite Hnames. apply NoDup_fst_map_to_list.
  - pose proof (ke_ids _ _ Hk) as Hi. rewrite fmap_app in Hi. apply NoDup_app in Hi as (_ & _ & Hi).
    by eapply NoDup_fmap_1.
  - intros ty. split.
    + intros [k Hl]%list_elem_of_lookup. by destruct (Forall2_lookup_l _ _ _ _ _ H2 Hl) as (o & _ & ? & _).
    + intros Hin. assert (obj_name ty ∈ obj_name <$> tys') as (ty' & Hn & Hin')%list_elem_of_fmap.
      { rewrite Hnames. specialize (H3 (obj_name ty)). destruct (custom_types ts !! obj_name ty) as [e|] eqn:He.
        - apply (list_elem_of_fmap_2 fst (map_to_list _) (obj_name ty, e)). by apply elem_of_map_to_list.
        - exfalso. apply (H3 ty); [by apply elem_of_app; right|by apply Hv|done]. }
      assert (ty' ∈ tys) as Hin2.
      { apply list_elem_of_lookup in Hin' as [k Hl]. by destruct (Forall2_lookup_l _ _ _ _ _ H2 Hl) as (o & _ & ? & _). }
      rewrite (keeps_names db (others ++ tys) ty ty' Hk); [done|by apply elem_of_app; right..|done|].
      by rewrite (Hv ty Hin), (Hv ty' Hin2).
Qed.

Lemma held_version db others tys v ts : keeps db (others ++ tys) ->
  Forall (loadable_type builtin_types) (others ++ tys) -> ts_holds builtin_types (others ++ tys) v ts ->
  version_types v ts.
Proof.
  intros Hk Hl (_ & _ & H3) n e He. specialize (H3 n). rewrite He in H3.
  destruct H3 as (ty & obj & Hin & Hn & Hv & -> & Hs). exists obj.
  split; [done|]. rewrite (so_name _ _ Hs), (so_version _ _ Hs). split; [done|split; [done|]].
  rewrite Forall_forall in Hl. pose proof (same_object_loadable _ _ _ Hs (Hl ty Hin)) as [[_ Hf _] _].
  eapply Forall_impl; [exact Hf|]. intros f [_ Hfv _]. by rewrite Hfv, (so_version _ _ Hs).
Qed.

(** The type system of a version reflects the store. *)
Record reflects (others : list ObjectType) (v : string) (ts : TypeSystem) (db : MetaDb) : Prop := {
  rf_version : ts_version_id ts = v;
  rf_builtin : builtin ts = builtin_types;
  rf_types : version_types v ts;
  rf_keeps : keeps db (others ++ objects ts);
  rf_loadable : Forall (loadable_type builtin_types) (others ++ objects ts);
  rf_others : Forall (fun o => obj_version_id o <> v) others;
}.

Context {RO : RowOrder} {RL : RowOrderLaws}.

(** The type system that is loaded, or a new one for a version without types. *)
Lemma load_reflects db others tys v tss : keeps db (others ++ tys) ->
  Forall (loadable_type builtin_types) (others ++ tys) ->
  Forall (fun o => obj_version_id o <> v) others -> Forall (fun o => obj_version_id o = v) tys ->
  load_type_systems builtin_types db = Ok tss ->
  let ts := default (TypeSystem_new builtin_types v) (tss !! v) in
  reflects others v ts db /\ exists tys', tys' ≡ₚ tys /\ Forall2 same_object tys' (objects ts).
Proof.
  intros Hk Hl Ho Hv Hload. destruct (keeps_load builtin_types db _ Hk Hl) as (order & _ & _ & H).
  destruct (two_passes builtin_types order); [|destruct H as [e He]; congruence].
  destruct H as (tss' & Htss & Hh). assert (tss' = tss) as -> by congruence.
  assert (ts_holds builtin_types (others ++ tys) v (default (TypeSystem_new builtin_types v) (tss !! v))) as Hts.
  { specialize (Hh v). destruct (tss !! v) as [ts|]; [done|]. cbn. split; [done|split; [done|]].
    intros n. cbn. rewrite lookup_empty. intros ty Hin Hvt. by destruct (Hh ty Hin). }
  set (ts := default (TypeSystem_new builtin_types v) (tss !! v)) in *.
  destruct (held_objects db others tys v ts Hk Ho Hv Hts) as (tys' & Hp & H2). split; [|by exists tys'].
  split; [apply Hts|apply Hts|by eapply held_version| | |done].
  - eapply keeps_reread; [|eapply keeps_perm; [apply Permutation_app_head; symmetry; exact Hp|exact Hk]].
    apply Forall2_app; [|done]. clear. induction others as [|o l IH]; [constructor|]. constructor; [|done].
    split; try done. exists (obj_fields o). split; [done|]. clear. induction (obj_fields o) as [|f fs IHf]; [constructor|].
    constructor; [|done]. split; [by destruct f|done].
  - apply Forall_app in Hl as [Hl1 Hl2]. apply Forall_app. split; [done|]. rewrite <- Hp in Hl2.
    clear -H2 Hl2. induction H2 as [|ty o tys' l Hs _ IH]; [constructor|].
    apply Forall_cons in Hl2 as [H Hl2]. constructor; [by eapply same_object_loadable|by apply IH].
Qed.

End Held.
