(* ===== verification/Apply.v ===== *)
(** * Applying a version ([server/src/apply.rs])

    [apply] turns a request into a plan (which types are inserted, updated and
    removed), writes it to the metadata, reads the types back, and changes the
    tables of the data.  The metadata are committed before the rest: what is
    returned is the new state together with a result, since an error after the
    commit leaves the metadata written. *)

From S2P Require Import Prelude Ident Types Builtin TypeSystem Policies Query Engine PolicyRules ControlFlow Meta.

(** ** The request ([proto/chisel.proto]) *)

Inductive TypeEnum :=
  | TeString | TeNumber | TeBool | TeJsDate | TeArrayBuffer
  | TeEntity (name : string)
  | TeEntityId (entity_name : string)
  | TeArray (value_type : option TypeMsg)
with TypeMsg := mkTypeMsg (type_enum : option TypeEnum).

Record FieldDefinition := {
  def_name : string;
  def_field_type : option TypeMsg;
  def_labels : list string;
  def_is_optional : bool;
  def_default_value : option string;
  def_is_unique : bool;
}.

Record AddTypeRequest := { at_name : string; at_field_defs : list FieldDefinition }.
Record IndexCandidate := { ic_entity_name : string; ic_properties : list string }.
Record PolicyUpdateRequest := { pu_policy_config : string; pu_path : string }.

Record ApplyRequest := {
  rq_version_id : string;
  rq_types : list AddTypeRequest;
  rq_index_candidates : list IndexCandidate;
  rq_policies : list PolicyUpdateRequest;
  rq_modules : list (string * string);
  rq_allow_type_deletion : bool;
  rq_version_tag : string;
  rq_app_name : string;
}.

(** ** Field types *)

Definition type_enum (m : TypeMsg) : option TypeEnum := let 'mkTypeMsg t := m in t.

(** [FieldDefinition::field_type] *)
Definition field_type (field : FieldDefinition) : result TypeEnum :=
  msg ← option_context (def_field_type field) "field_type of field is None";
  option_context (type_enum msg) "type_enum of field is None".

(** [ContainerType::value_type] *)
Definition value_type {A} (k : TypeEnum -> result A) (value_type : option TypeMsg) : result A :=
  match value_type with
  | None => bail "value_type of ContainerType is None"
  | Some (mkTypeMsg None) => bail "type_enum of value_type of ContainerType is None"
  | Some (mkTypeMsg (Some t)) => k t
  end.

(** [TypeEnum::is_builtin] *)
Fixpoint is_builtin (ts : TypeSystem) (t : TypeEnum) : result bool :=
  match t with
  | TeString | TeNumber | TeBool | TeJsDate | TeArrayBuffer | TeEntityId _ => Ok true
  | TeEntity name => Ok (is_ok (lookup_builtin_type ts name))
  | TeArray inner => value_type (is_builtin ts) inner
  end.

(** [TypeEnum::get_builtin] *)
Fixpoint get_builtin (ts : TypeSystem) (t : TypeEnum) : result Type_ :=
  match t with
  | TeString => Ok TString
  | TeNumber => Ok TFloat
  | TeBool => Ok TBoolean
  | TeJsDate => Ok TJsDate
  | TeArrayBuffer => Ok TArrayBuffer
  | TeEntity name => map_err ts_error (lookup_builtin_type ts name)
  | TeEntityId entity_name => Ok (TEntityId entity_name)
  | TeArray inner => value_type (fun t => TArray <$> get_builtin ts t) inner
  end.

(** [From<Type> for TypeMsg] *)
Fixpoint type_msg_of (ty : Type_) : TypeMsg :=
  mkTypeMsg (Some (match ty with
    | TFloat => TeNumber
    | TString => TeString
    | TBoolean => TeBool
    | TJsDate => TeJsDate
    | TArrayBuffer => TeArrayBuffer
    | TEntity entity => TeEntity (obj_name (object_type entity))
    | TEntityId entity_name => TeEntityId entity_name
    | TArray elem_type => TeArray (Some (type_msg_of elem_type))
    end)).

(** ** Indexes *)

(** [aggregate_indexes] *)
Definition aggregate_indexes (indexes : list IndexCandidate) : gmap string (list DbIndex) :=
  foldl (fun index_map candidate =>
    let idx := DbIndex_new_from_fields (ic_properties candidate) in
    match index_map !! ic_entity_name candidate with
    | Some type_indexes => <[ic_entity_name candidate := type_indexes ++ [idx]]> index_map
    | None => <[ic_entity_name candidate := [idx]]> index_map
    end) ∅ indexes.

(** ** The order of the types

    [petgraph::GraphMap]: nodes and edges, each once.  [toposort] and the
    [permutation] crate are parameters. *)

Record TypeGraph := { tg_nodes : list string; tg_edges : list (string * string) }.

Definition tg_add_node (name : string) (g : TypeGraph) : TypeGraph :=
  {| tg_nodes := if decide (name ∈ tg_nodes g) then tg_nodes g else tg_nodes g ++ [name];
     tg_edges := tg_edges g |}.
Definition tg_add_edge (from to : string) (g : TypeGraph) : TypeGraph :=
  {| tg_nodes := tg_nodes g;
     tg_edges := if decide ((from, to) ∈ tg_edges g) then tg_edges g else tg_edges g ++ [(from, to)] |}.

Class GraphLib := {
  toposort : TypeGraph -> option (list string);
  (** [Permutation::oneline(order)] and [apply_inv_slice_in_place] *)
  apply_inv_slice : forall {A}, list nat -> list A -> result (list A);
}.

Section Sort.
Context {GL : GraphLib} (ts : TypeSystem).

(** The edge of a field. *)
Definition add_field_edge (ty_name : string) (graph : TypeGraph) (field : FieldDefinition)
    : result TypeGraph :=
  t ← field_type field;
  match t with
  | TeEntity name =>
      b ← is_builtin ts t;
      if negb b then Ok (tg_add_edge name ty_name (tg_add_node name graph)) else Ok graph
  | _ => Ok graph
  end.

Definition add_type_node (s : TypeGraph * gmap string nat * nat) (ty : AddTypeRequest)
    : result (TypeGraph * gmap string nat * nat) :=
  let '(graph, ty_pos, pos) := s in
  graph ← foldM (add_field_edge (at_name ty)) (tg_add_node (at_name ty) graph) (at_field_defs ty);
  Ok (graph, <[at_name ty := pos]> ty_pos, S pos).

Definition sort_custom_types (types : list AddTypeRequest) : result (list AddTypeRequest) :=
  '(graph, ty_pos, _) ← foldM add_type_node ({| tg_nodes := []; tg_edges := [] |}, ∅, 0) types;
  nodes ← option_context (toposort graph) "cycle detected in models";
  order ← mapM (fun ty => option_context (ty_pos !! ty) "unknown type") nodes;
  apply_inv_slice order types.

End Sort.

(** ** Policies *)

(** [Path::file_name]: the last component, when it is a name. *)
Definition file_name (path : string) : option string :=
  match last (filter (fun c => c <> "" /\ c <> ".") (split_on "/"%char path)) with
  | Some c => if String.eqb c ".." then None else Some c
  | None => None
  end.

(** [Path::extension]: what follows the last dot of the file name, unless it
    begins with that dot. *)
Definition extension (path : string) : option string :=
  name ← file_name path;
  let parts := split_on "."%char name in
  match parts with
  | [] | [_] => None
  | [""; _] => None
  | _ => last parts
  end.

Section ParsePolicies.
Context {RL : RegexLib} {ML : MethodLib} {YL : YamlLib}.
Context {DM : Dominators} {BL : BoolLib} {SW : Swc} {SP : SwcParser}.
Record ParsedPolicies := {
  pp_policy_system : PolicySystem * string;
  pp_policy_sources : gmap string string;
}.

(** The feature flag of the server, and the fuel of the analysis. *)
Context (typescript_policies : bool) (fuel : nat).

Definition parse_policy (s : option (PolicySystem * string) * gmap string string)
    (p : PolicyUpdateRequest) : result (option (PolicySystem * string) * gmap string string) :=
  let '(policy_system, policy_sources) := s in
  let is_ts := match extension (pu_path p) with Some e => String.eqb e "ts" | None => false end in
  if is_ts && typescript_policies then
    entity_name ← option_context (n ← file_name (pu_path p); strip_suffix ".ts" n) "invalid policy path";
    let policy_code := pu_policy_config p in
    _ ← parse_code fuel policy_code;
    Ok (policy_system, <[entity_name := policy_code]> policy_sources)
  else
    match policy_system with
    | None =>
        system ← from_yaml (pu_policy_config p);
        Ok (Some (system, pu_policy_config p), policy_sources)
    | Some _ => bail "Currently only one policy file is supported"
    end.

(** [ParsedPolicies::parse] *)
Definition parse_policies (request : list PolicyUpdateRequest) : result ParsedPolicies :=
  '(policy_system, policy_sources) ← foldM parse_policy (None, ∅) request;
  Ok {| pp_policy_system := default (PolicySystem_default, "") policy_system;
        pp_policy_sources := policy_sources |}.

End ParsePolicies.

(** ** The tables of the data *)

Record Table := { tb_columns : list ColumnDef; tb_rows : Z }.
Abbreviation Tables := (gmap string Table).

(** [MetaService::count_rows] *)
Definition count_rows (tables : Tables) (ty : ObjectType) : result Z :=
  table ← with_context (option_context (tables !! obj_backing_table ty) "no such table")
            "Failed to execute query SELECT COUNT";
  Ok (tb_rows table).

Definition has_column (name : string) (cols : list ColumnDef) : bool :=
  existsb (fun c => String.eqb (cd_name c) name) cols.

(** A statement, on the tables; statements on indexes change no table.
    [CREATE TABLE] is written with [IF NOT EXISTS]. *)
Definition run_on_tables (tables : Tables) (s : Statement) : result Tables :=
  match s with
  | CreateTable table cols =>
      match tables !! table with
      | Some _ => Ok tables
      | None => Ok (<[table := {| tb_columns := cols; tb_rows := 0 |}]> tables)
      end
  | DropTable table =>
      _ ← option_context (tables !! table) "no such table";
      Ok (delete table tables)
  | AddColumn table col =>
      t ← option_context (tables !! table) "no such table";
      _ ← ensure (negb (has_column (cd_name col) (tb_columns t))) "duplicate column name";
      Ok (<[table := {| tb_columns := tb_columns t ++ [col]; tb_rows := tb_rows t |}]> tables)
  | DropColumn table name =>
      t ← option_context (tables !! table) "no such table";
      _ ← ensure (has_column name (tb_columns t)) "no such column";
      Ok (<[table := {| tb_columns := List.filter (fun c => negb (String.eqb (cd_name c) name)) (tb_columns t);
                        tb_rows := tb_rows t |}]> tables)
  | CreateIndex _ | DropIndex _ _ => Ok tables
  end.

(** The statements of a transaction; what fails rolls it back. *)
Definition run_transaction (tables : Tables) (e : executed) : result Tables :=
  tables ← foldM run_on_tables tables e.1;
  _ ← e.2;
  Ok tables.

(** ** The plan *)

Record Plan := {
  to_insert : list ObjectType;
  to_update : list (ObjectType * ObjectDelta);
  to_remove : list ObjectType;
}.

Section Apply.
Context {GL : GraphLib} {RO : RowOrder} {ST : StoreText}.
Context {RL : RegexLib} {ML : MethodLib} {YL : YamlLib}.
Context {DM : Dominators} {BL : BoolLib} {SW : Swc} {SP : SwcParser}.
Context (typescript_policies : bool) (fuel : nat).
(** The text of the identifier drawn for a new type. *)
Context (uuid : string -> string).

(** One turn of the loop over the types that exist. *)
Definition find_removed (tables : Tables) (type_names : list string)
    (s : list ObjectType * list (ObjectType * Z)) (entry : string * Entity)
    : result (list ObjectType * list (ObjectType * Z)) :=
  let '(to_remove, to_remove_has_data) := s in
  let '(existing, removed) := entry in
  if decide (existing ∈ type_names) then Ok s
  else
    cnt ← count_rows tables (object_type removed);
    if (cnt =? 0)%Z then Ok (to_remove ++ [object_type removed], to_remove_has_data)
    else Ok (to_remove, to_remove_has_data ++ [(object_type removed, cnt)]).

Definition removed_types (ts : TypeSystem) (tables : Tables) (type_names : list string)
    (allow_type_deletion : bool) : result (list ObjectType) :=
  '(to_remove, to_remove_has_data) ←
    foldM (find_removed tables type_names) ([], []) (in_order (map_to_list (custom_types ts)));
  _ ← ensure (bool_decide (to_remove_has_data = []) || allow_type_deletion)
        "Trying to remove models from the models file, but the following models still have data";
  Ok (to_remove ++ to_remove_has_data.*1).

(** The type of a field. *)
Definition resolve_field (ts : TypeSystem) (type_names : list string) (new_types : gmap string Entity)
    (field : FieldDefinition) : result Type_ :=
  field_ty ← field_type field;
  match field_ty with
  | TeEntityId entity_name =>
      if decide (entity_name ∈ type_names) then Ok (TEntityId entity_name)
      else bail "field of entity is of type Id, but the entity is undefined"
  | _ =>
      b ← is_builtin ts field_ty;
      if (b : bool) then get_builtin ts field_ty
      else
        match field_ty with
        | TeEntity entity_name =>
            match new_types !! entity_name with
            | Some ty => Ok (TEntity ty)
            | None => bail "field type is neither a built-in nor a custom type"
            end
        | _ => bail "field is neither entity, entity id or be a builtin"
        end
  end.

Definition make_field (ts : TypeSystem) (version_id : string) (type_names : list string)
    (new_types : gmap string Entity) (field : FieldDefinition) : result Field :=
  field_ty ← resolve_field ts type_names new_types field;
  desc ← NewField_new (def_name field) field_ty version_id;
  Ok (Field_new desc (def_labels field) (def_default_value field) (def_is_optional field)
        (def_is_unique field)).

Definition make_type (ts : TypeSystem) (version_id : string) (type_names : list string)
    (indexes : gmap string (list DbIndex)) (new_types : gmap string Entity) (type_def : AddTypeRequest)
    : result ObjectType :=
  let name := at_name type_def in
  _ ← ensure (negb (is_ok (lookup_builtin_type ts name))) "custom type expected";
  fields ← mapM (make_field ts version_id type_names new_types) (at_field_defs type_def);
  let ty_indexes := default [] (indexes !! name) in
  ObjectType_new (NewObject_new (uuid name) name version_id) fields ty_indexes.

(** One turn of the loop over the sorted types. *)
Definition plan_type (ts : TypeSystem) (tables : Tables) (version_id : string) (type_names : list string)
    (indexes : gmap string (list DbIndex))
    (s : gmap string Entity * list ObjectType * list (ObjectType * ObjectDelta))
    (type_def : AddTypeRequest)
    : result (gmap string Entity * list ObjectType * list (ObjectType * ObjectDelta)) :=
  let '(new_types, to_insert, to_update) := s in
  ty ← make_type ts version_id type_names indexes new_types type_def;
  let new_types := <[at_name type_def := Custom ty]> new_types in
  match lookup_custom_type ts (at_name type_def) with
  | Ok old_type =>
      cnt ← count_rows tables (object_type old_type);
      delta ← map_err ts_error (generate_type_delta ts (object_type old_type) ty (cnt =? 0)%Z);
      Ok (new_types, to_insert, to_update ++ [(object_type old_type, delta)])
  | Err (NoSuchType _) => Ok (new_types, to_insert ++ [ty], to_update)
  | Err e => Err (ts_error e)
  | Panic w => Panic w
  end.

(** What [apply] decides before it writes anything. *)
Definition make_plan (ts : TypeSystem) (tables : Tables) (version_id : string) (rq : ApplyRequest)
    : result Plan :=
  let type_names := at_name <$> rq_types rq in
  to_remove ← removed_types ts tables type_names (rq_allow_type_deletion rq);
  let indexes := aggregate_indexes (rq_index_candidates rq) in
  types ← sort_custom_types ts (rq_types rq);
  '(_, to_insert, to_update) ← foldM (plan_type ts tables version_id type_names indexes) (∅, [], []) types;
  Ok {| to_insert := to_insert; to_update := to_update; to_remove := to_remove |}.

(** ** Carrying it out *)

Definition write_types (plan : Plan) (db : MetaDb) : result MetaDb :=
  db ← foldM insert_type db (to_insert plan);
  db ← foldM (fun db '(old, delta) => update_type db old delta) db (to_update plan);
  foldM remove_type db (to_remove plan).

(** The transaction on the metadata. *)
Definition write_meta (version_id : string) (version_info : VersionInfo) (modules : gmap string string)
    (policies : ParsedPolicies) (plan : Plan) (db : MetaDb) : result MetaDb :=
  db ← persist_policy_sources version_id (pp_policy_sources policies) db;
  let db := persist_policy_version version_id (pp_policy_system policies).2 db in
  let db := persist_version_info version_id version_info db in
  db ← persist_modules version_id (in_order (map_to_list modules)) db;
  write_types plan db.

(** The types of the version, read again. *)
Definition reload (builtin_types : BuiltinTypes) (version_id : string) (db : MetaDb) : result TypeSystem :=
  tss ← load_type_systems builtin_types db;
  Ok (default (TypeSystem_new builtin_types version_id) (tss !! version_id)).

Definition refresh (ts : TypeSystem) (ty : ObjectType) : result ObjectType :=
  object_type <$> map_err ts_error (lookup_custom_type ts (obj_name ty)).

Definition refresh_update (ts : TypeSystem) (e : ObjectType * ObjectDelta)
    : result (ObjectType * ObjectDelta) :=
  updated_ty ← refresh ts e.1; Ok (updated_ty, e.2).

(** The transaction on the tables. *)
Definition write_tables (ts : TypeSystem) (plan : Plan) (tables : Tables) : result Tables :=
  to_insert ← mapM (refresh ts) (to_insert plan);
  to_update ← mapM (refresh_update ts) (to_update plan);
  run_transaction tables
    (exec_then (exec_each create_table to_insert)
    (exec_then (exec_each drop_table (to_remove plan))
               (exec_each (fun '(old, delta) => alter_table old delta) to_update))).

Record ApplyResult := {
  ar_type_system : TypeSystem;
  ar_policy_system : PolicySystem;
  ar_type_names_user_order : list string;
  ar_labels : list string;
  ar_policy_sources : gmap string string;
}.

(** The state [apply] changes: the type system of the version, the metadata and
    the tables of the data. *)
Record ApplyState := { as_type_system : TypeSystem; as_meta : MetaDb; as_tables : Tables }.

(** An operation that fails leaves the state of before it. *)
Definition attempt {S A B} (s : S) (r : result A) (k : A -> S * result B) : S * result B :=
  match r with
  | Ok a => k a
  | Err e => (s, Err e)
  | Panic w => (s, Panic w)
  end.

Definition apply (builtin_types : BuiltinTypes) (rq : ApplyRequest) (version_id : string)
    (version_info : VersionInfo) (modules : gmap string string) (s : ApplyState)
    : ApplyState * result ApplyResult :=
  attempt s (make_plan (as_type_system s) (as_tables s) version_id rq) (fun plan =>
  attempt s (parse_policies typescript_policies fuel (rq_policies rq)) (fun policies =>
  attempt s (write_meta version_id version_info modules policies plan (as_meta s)) (fun db =>
  let s := {| as_type_system := as_type_system s; as_meta := db; as_tables := as_tables s |} in
  attempt s (reload builtin_types version_id db) (fun ts =>
  let s := {| as_type_system := ts; as_meta := db; as_tables := as_tables s |} in
  attempt s (write_tables ts plan (as_tables s)) (fun tables =>
  ({| as_type_system := ts; as_meta := db; as_tables := tables |},
   Ok {| ar_type_system := ts;
         ar_policy_system := (pp_policy_system policies).1;
         ar_type_names_user_order := at_name <$> rq_types rq;
         ar_labels := in_order (map_to_list (labels (pp_policy_system policies).1)).*1;
         ar_policy_sources := pp_policy_sources policies |})))))).

End Apply.
