(* ===== verification/SortSpec.v ===== *)
(** * The order in which types are built

    [sort_custom_types] puts a type after the types its fields refer to, for any
    topological sort. *)

From stdpp Require Import sorting.
From S2P Require Import Prelude Ident Types Builtin TypeSystem Query Meta Apply.

#[local] Arguments lookup_builtin_type : simpl never.

(** ** Graphs *)

Definition before {A} (a b : A) (l : list A) : Prop :=
  exists i j, l !! i = Some a /\ l !! j = Some b /\ i < j.

Record tg_wf (g : TypeGraph) : Prop := {
  tw_nodes : NoDup (tg_nodes g);
  tw_edges : forall a b, (a, b) ∈ tg_edges g -> a ∈ tg_nodes g /\ b ∈ tg_nodes g;
}.

(** [toposort] puts the source of every edge before its target, or finds a
    cycle.  Applying the inverse of a permutation in one-line notation takes the
    elements at its positions, and in any case only reorders. *)
Class GraphLaws {GL : GraphLib} := {
  toposort_order : forall g order, tg_wf g -> toposort g = Some order ->
    order ≡ₚ tg_nodes g /\ forall a b, (a, b) ∈ tg_edges g -> before a b order;
  toposort_cycle : forall g, tg_wf g -> toposort g = None ->
    exists n, tc (fun a b => (a, b) ∈ tg_edges g) n n;
  apply_inv_slice_ok : forall A order (l : list A), order ≡ₚ seq 0 (length l) ->
    apply_inv_slice order l = Ok (omap (fun i => l !! i) order);
  apply_inv_slice_perm : forall A order (l l' : list A), apply_inv_slice order l = Ok l' -> l' ≡ₚ l;
}.

Section Sort.
Context (ts : TypeSystem).

(** The custom entity a field needs first. *)
Definition dep (field : FieldDefinition) : option string :=
  match field_type field with
  | Ok (TeEntity name) => if is_ok (lookup_builtin_type ts name) then None else Some name
  | _ => None
  end.

Definition deps (ty : AddTypeRequest) : list string := omap dep (at_field_defs ty).

Definition depends (types : list AddTypeRequest) (a b : string) : Prop :=
  exists ty, ty ∈ types /\ at_name ty = b /\ a ∈ deps ty.

Definition typed (ty : AddTypeRequest) : Prop :=
  Forall (fun f => is_ok (field_type f) = true) (at_field_defs ty).

Lemma add_field_edge_ok n g f g' : add_field_edge ts n g f = Ok g' <->
  is_ok (field_type f) = true /\
  g' = match dep f with Some d => tg_add_edge d n (tg_add_node d g) | None => g end.
Proof.
  unfold add_field_edge, dep. destruct (field_type f) as [t| |]; cbn; [|by split; [|intros []]..].
  assert (forall g1 : TypeGraph, (Ok (E := anyhow) g1 = Ok g' <-> true = true /\ g' = g1)) as Hok.
  { intros g1. split; [by intros [= <-]|by intros [_ ->]]. }
  destruct t; cbn; try apply Hok. destruct (is_ok (lookup_builtin_type ts name)); apply Hok.
Qed.

Lemma add_node_elem n g x : x ∈ tg_nodes (tg_add_node n g) <-> x ∈ tg_nodes g \/ x = n.
Proof. unfold tg_add_node; cbn. case_decide; set_solver. Qed.

Lemma add_edge_elem a b g x y : (x, y) ∈ tg_edges (tg_add_edge a b g) <->
  (x, y) ∈ tg_edges g \/ (x = a /\ y = b).
Proof. unfold tg_add_edge; cbn. case_decide; set_solver. Qed.

Lemma add_node_wf n g : tg_wf g -> tg_wf (tg_add_node n g).
Proof.
  intros [Hn He]. split.
  - cbn. case_decide; [done|]. apply NoDup_app. split; [done|]. split; [|apply NoDup_singleton].
    intros x Hx ->%list_elem_of_singleton. done.
  - intros a b [Ha Hb]%He. rewrite !add_node_elem. tauto.
Qed.

Lemma add_edge_wf a b g : tg_wf g -> a ∈ tg_nodes g -> b ∈ tg_nodes g -> tg_wf (tg_add_edge a b g).
Proof.
  intros [Hn He] Ha Hb. split; [done|]. intros x y [H|[-> ->]]%add_edge_elem; [by apply He|done].
Qed.

(** The graph of the types seen so far. *)
Record graph_inv (seen : list AddTypeRequest) (g : TypeGraph) : Prop := {
  gi_wf : tg_wf g;
  gi_nodes : forall x, x ∈ tg_nodes g <-> x ∈ at_name <$> seen \/ exists ty, ty ∈ seen /\ x ∈ deps ty;
  gi_edges : forall a b, (a, b) ∈ tg_edges g <-> depends seen a b;
}.

Lemma field_edges n fields g g' : foldM (add_field_edge ts n) g fields = Ok g' ->
  Forall (fun f => is_ok (field_type f) = true) fields /\
  (tg_wf g -> n ∈ tg_nodes g -> tg_wf g') /\
  (forall x, x ∈ tg_nodes g' <-> x ∈ tg_nodes g \/ x ∈ omap dep fields) /\
  (forall a b, (a, b) ∈ tg_edges g' <-> (a, b) ∈ tg_edges g \/ (b = n /\ a ∈ omap dep fields)).
Proof.
  revert g. induction fields as [|f fields IH]; intros g; cbn [foldM omap].
  { intros [= <-]. split; [constructor|]. split; [done|]. split; intros; rewrite elem_of_nil; tauto. }
  intros H. apply bind_ok in H as (g1 & [Hf ->]%add_field_edge_ok & H).
  destruct (IH _ H) as (Ht & Hw & Hn & He). split; [by constructor|].
  cbn. destruct (dep f) as [d|].
  - split; [|split].
    + intros W Hin. apply Hw; [|by apply add_node_elem; left].
      apply add_edge_wf; [by apply add_node_wf|apply add_node_elem; by right|apply add_node_elem; by left].
    + intros x. rewrite Hn. change (tg_nodes (tg_add_edge d n (tg_add_node d g))) with (tg_nodes (tg_add_node d g)).
      rewrite add_node_elem, elem_of_cons. tauto.
    + intros a b. rewrite He, add_edge_elem, elem_of_cons. cbn. tauto.
  - split; [exact Hw|]. split; [exact Hn|exact He].
Qed.

Lemma field_edges_total n fields g : Forall (fun f => is_ok (field_type f) = true) fields ->
  exists g', foldM (add_field_edge ts n) g fields = Ok g'.
Proof.
  intros H. revert g. induction H as [|f fields Hf _ IH]; intros g; [by eexists|]. cbn.
  set (g1 := match dep f with Some d => tg_add_edge d n (tg_add_node d g) | None => g end).
  assert (add_field_edge ts n g f = Ok g1) as -> by (by apply add_field_edge_ok). apply IH.
Qed.

Definition empty_graph : TypeGraph := {| tg_nodes := []; tg_edges := [] |}.

(** The position of each name, when no name occurs twice. *)
Definition positions_inv (seen : list AddTypeRequest) (pos : gmap string nat) : Prop :=
  forall n i, pos !! n = Some i <-> (at_name <$> seen) !! i = Some n.

Lemma graph_built types g pos k : NoDup (at_name <$> types) ->
  foldM (add_type_node ts) (empty_graph, ∅, 0) types = Ok (g, pos, k) ->
  Forall typed types /\ graph_inv types g /\ positions_inv types pos.
Proof.
  intros Hnd H.
  enough (Forall typed types /\ graph_inv types g /\ (NoDup (at_name <$> types) -> positions_inv types pos) /\
    k = length types) as (? & ? & ? & _) by tauto.
  refine (foldM_inv (add_type_node ts) (fun seen s => Forall typed seen /\ graph_inv seen s.1.1 /\
    (NoDup (at_name <$> seen) -> positions_inv seen s.1.2) /\ s.2 = length seen) types _ (g, pos, k) _ _ H).
  - split; [constructor|]. split; [|split; [|done]].
    + split; cbn; [split; cbn; [constructor|set_solver]|set_solver|]. intros a b. split; [set_solver|].
      intros (ty & Hin & _). by apply not_elem_of_nil in Hin.
    + intros _ n i. cbn. by rewrite lookup_empty.
  - clear H. intros seen ty [[g1 pos1] k1] s2 (Ht & Hg & Hpos & Hk) H. cbn in Hg, Hpos, Hk.
    unfold add_type_node in H. apply bind_ok in H as (g2 & Hf & [= <-]). cbn.
    destruct (field_edges _ _ _ _ Hf) as (Ht2 & Hw & Hn & He). destruct Hg as [Gw Gn Ge].
    split; [apply Forall_app; by repeat constructor|]. split; [|split].
    + split.
      * apply Hw; [by apply add_node_wf|apply add_node_elem; by right].
      * intros x. rewrite Hn, add_node_elem, Gn, fmap_app, elem_of_app. cbn.
        rewrite list_elem_of_singleton. split.
        -- intros [[[Hx|(ty' & Hin & Hd)]|Hx]|Hx]; [tauto|right; exists ty'; set_solver|tauto|].
           right. exists ty. set_solver.
        -- intros [[Hx|Hx]|(ty' & [Hin| ->%list_elem_of_singleton]%elem_of_app & Hd)]; [tauto|tauto| |by right].
           left. left. right. by exists ty'.
      * intros a b. rewrite He. cbn. rewrite Ge. unfold depends. split.
        -- intros [(ty' & Hin & Hb & Ha)|[-> Ha]]; [exists ty'|exists ty]; set_solver.
        -- intros (ty' & [Hin| ->%list_elem_of_singleton]%elem_of_app & Hb & Ha); [left; by exists ty'|by right].
    + rewrite fmap_app. intros Hnd'. apply NoDup_app in Hnd' as (Hnd' & Hnew & _).
      intros n i. rewrite fmap_app. cbn. rewrite lookup_insert_Some, (Hpos Hnd' _ _).
      rewrite lookup_snoc_Some, length_fmap, Hk. split.
      * intros [[-> ->]|[Hne Hi]]; [by right|left]. split; [|done]. apply lookup_lt_Some in Hi.
        by rewrite length_fmap in Hi.
      * intros [[Hlt Hi]|[-> ->]]; [|by left]. right. split; [|done]. intros Heq.
        apply (Hnew n); [by eapply list_elem_of_lookup_2|rewrite <- Heq; by left].
    + rewrite length_app, Hk. cbn. lia.
Qed.

Lemma graph_total types s : Forall typed types -> exists s', foldM (add_type_node ts) s types = Ok s'.
Proof.
  intros H. revert s. induction H as [|ty types Ht _ IH]; intros [[g pos] k]; [by eexists|]. cbn.
  destruct (field_edges_total (at_name ty) _ (tg_add_node (at_name ty) g) Ht) as [g' ->]. apply IH.
Qed.


(** The positions of an order of the names. *)
Lemma positions_ok types pos order l : NoDup (at_name <$> types) -> positions_inv types pos ->
  NoDup order -> (forall n, n ∈ at_name <$> types -> n ∈ order) ->
  mapM (fun ty => option_context (pos !! ty) "unknown type") order = Ok l ->
  l ≡ₚ seq 0 (length types) /\ Forall2 (fun n i => (at_name <$> types) !! i = Some n) order l.
Proof.
  intros Hnd Hpos Hno Hall H%mapM_ok.
  assert (Forall2 (fun n i => (at_name <$> types) !! i = Some n) order l) as H2.
  { eapply Forall2_impl; [exact H|]. intros n i Hi%option_context_ok. by apply Hpos. }
  split; [|done]. apply NoDup_Permutation; [|apply NoDup_seq|].
  - clear -H2 Hno. induction H2 as [|n i order l Hi H2 IH]; [constructor|].
    apply NoDup_cons in Hno as [Hn Hno]. constructor; [|by apply IH].
    intros Hin. apply Hn. apply list_elem_of_lookup in Hin as [k Hk].
    destruct (Forall2_lookup_r _ _ _ _ _ H2 Hk) as (m & Hm & Hmi). rewrite Hi in Hmi. injection Hmi as ->.
    by eapply list_elem_of_lookup_2.
  - intros i. rewrite elem_of_seq. split.
    + intros [k Hk]%list_elem_of_lookup. destruct (Forall2_lookup_r _ _ _ _ _ H2 Hk) as (n & _ & Hi).
      apply lookup_lt_Some in Hi. rewrite length_fmap in Hi. lia.
    + intros [_ Hlt]. destruct (lookup_lt_is_Some_2 (at_name <$> types) i) as [n Hn];
        [by rewrite length_fmap|].
      assert (n ∈ order) as Hin by (by apply Hall; eapply list_elem_of_lookup_2).
      apply list_elem_of_lookup in Hin as [k Hk].
      destruct (Forall2_lookup_l _ _ _ _ _ H2 Hk) as (j & Hj & Hnj).
      assert (i = j) as -> by (by eapply (NoDup_lookup (at_name <$> types))).
      by eapply list_elem_of_lookup_2.
Qed.

Lemma names_of_positions (types : list AddTypeRequest) order l :
  Forall2 (fun n i => (at_name <$> types) !! i = Some n) order l ->
  at_name <$> omap (fun i => types !! i) l = order.
Proof.
  induction 1 as [|n i order l Hi _ IH]; [done|]. cbn.
  rewrite list_lookup_fmap in Hi. destruct (types !! i) as [ty|]; [|done]. cbn in Hi |- *.
  rewrite IH. congruence.
Qed.

(** The types a type needs come before it. *)
Definition deps_first (sorted : list AddTypeRequest) : Prop :=
  forall i ty d, sorted !! i = Some ty -> d ∈ deps ty ->
    exists j ty', j < i /\ sorted !! j = Some ty' /\ at_name ty' = d.

Context {GL : GraphLib} {LG : GraphLaws}.

Lemma sort_ok types sorted : NoDup (at_name <$> types) -> sort_custom_types ts types = Ok sorted ->
  sorted ≡ₚ types /\ deps_first sorted.
Proof.
  intros Hnd H. unfold sort_custom_types in H. apply bind_ok in H as ([[g pos] k] & Hg & H).
  destruct (graph_built types g pos k Hnd Hg) as (_ & [Gw Gn Ge] & Hpos).
  apply bind_ok in H as (order & Ho%option_context_ok & H). apply bind_ok in H as (l & Hl & H).
  destruct (toposort_order g order Gw Ho) as [Hperm Hbefore].
  assert (NoDup order) as Hno by (rewrite Hperm; apply Gw).
  destruct (positions_ok types pos order l Hnd Hpos Hno) as [Hseq H2]; [|done|].
  { intros n Hn. rewrite Hperm. apply Gn. by left. }
  split; [by eapply apply_inv_slice_perm|].
  rewrite (apply_inv_slice_ok _ _ _ Hseq) in H. injection H as <-.
  pose proof (names_of_positions _ _ _ H2) as Hnames.
  intros i ty d Hi Hd.
  assert (ty ∈ types) as Hin.
  { apply list_elem_of_lookup_2 in Hi. apply list_elem_of_omap in Hi as (j & _ & Hj).
    by eapply list_elem_of_lookup_2. }
  destruct (Hbefore d (at_name ty)) as (a & b & Ha & Hb & Hlt); [apply Ge; by exists ty|].
  rewrite <- Hnames in Ha, Hb. rewrite list_lookup_fmap in Ha.
  destruct (omap _ l !! a) as [ty'|] eqn:Ha'; [|done]. cbn in Ha. injection Ha as Ha.
  exists a, ty'. split; [|done].
  assert (i = b) as ->; [|done]. rewrite <- Hnames in Hno.
  eapply (NoDup_lookup _ _ _ (at_name ty) Hno); [|done]. by rewrite list_lookup_fmap, Hi.
Qed.

Lemma sort_total types : NoDup (at_name <$> types) -> Forall typed types ->
  (forall ty d, ty ∈ types -> d ∈ deps ty -> d ∈ at_name <$> types) ->
  (forall n, ~ tc (depends types) n n) -> exists sorted, sort_custom_types ts types = Ok sorted.
Proof.
  intros Hnd Ht Hdef Hac. unfold sort_custom_types.
  destruct (graph_total types (empty_graph, ∅, 0) Ht) as [[[g pos] k] Hg]. fold empty_graph. rewrite Hg. cbn.
  destruct (graph_built types g pos k Hnd Hg) as (_ & [Gw Gn Ge] & Hpos).
  destruct (toposort g) as [order|] eqn:Ho.
  - cbn. destruct (toposort_order g order Gw Ho) as [Hperm _].
    assert (exists l, mapM (fun ty => option_context (pos !! ty) "unknown type") order = Ok l) as [l Hl].
    { assert (Forall (fun n => is_Some (pos !! n)) order) as Hall.
      { apply Forall_forall. intros n. rewrite Hperm, Gn. intros Hn.
        assert (n ∈ at_name <$> types) as [i Hi]%list_elem_of_lookup
          by (destruct Hn as [|(ty & Hin & Hd)]; [done|by eapply Hdef]).
        exists i. by apply Hpos. }
      clear -Hall. induction Hall as [|n order [i Hi] _ [l Hl]]; [by exists []|].
      exists (i :: l). apply mapM_ok. constructor; [by rewrite Hi|by apply mapM_ok]. }
    rewrite Hl. cbn.
    destruct (positions_ok types pos order l Hnd Hpos) as [Hseq _]; [rewrite Hperm; apply Gw| |done|].
    { intros n Hn. rewrite Hperm. apply Gn. by left. }
    rewrite (apply_inv_slice_ok _ _ _ Hseq). by eexists.
  - exfalso. destruct (toposort_cycle g Gw Ho) as [n Hn]. apply (Hac n).
    assert (forall a b, tc (fun a b => (a, b) ∈ tg_edges g) a b -> tc (depends types) a b) as Htc; [|by apply Htc].
    induction 1 as [a b H|a b c H _ IH]; [apply tc_once|eapply tc_l; [|exact IH]]; by apply Ge.
Qed.

Lemma sort_no_panic types : NoDup (at_name <$> types) -> is_panic (sort_custom_types ts types) = false.
Proof.
  intros Hnd. unfold sort_custom_types. apply is_panic_bind.
  { apply (foldM_no_panic _ (fun _ => True)); [done| |done]. intros [[g pos] k] ty _ _. unfold add_type_node.
    apply is_panic_bind; [|done]. apply (foldM_no_panic _ (fun _ => True)); [done| |done].
    intros g1 f _ _. unfold add_field_edge, field_type. destruct (def_field_type f) as [[[t|]]|]; try done.
    destruct t; try done. cbn. by destruct (is_ok _). }
  intros [[g pos] k] Hg. destruct (graph_built types g pos k Hnd Hg) as (_ & [Gw Gn Ge] & Hpos).
  destruct (toposort g) as [order|] eqn:Ho; [|done]. cbn.
  destruct (toposort_order g order Gw Ho) as [Hperm _]. apply is_panic_bind.
  - apply mapM_no_panic. intros n _. by destruct (pos !! n).
  - intros l Hl. destruct (positions_ok types pos order l Hnd Hpos) as [Hseq _]; [rewrite Hperm; apply Gw| |done|].
    { intros n Hn. rewrite Hperm. apply Gn. by left. }
    by rewrite (apply_inv_slice_ok _ _ _ Hseq).
Qed.

(** The types of a request are put in an order in which each comes after the
    types its fields refer to, whatever topological sort is used.  The order is
    one of the same types; it exists unless a field has no type, a field refers
    to a type that is not defined, or types refer to each other in a cycle. *)
Theorem sort_custom_types_spec types : NoDup (at_name <$> types) ->
  match sort_custom_types ts types with
  | Ok sorted => sorted ≡ₚ types /\ deps_first sorted
  | Err _ => ~ (Forall typed types /\
                (forall ty d, ty ∈ types -> d ∈ deps ty -> d ∈ at_name <$> types) /\
                (forall n, ~ tc (depends types) n n))
  | Panic _ => False
  end.
Proof.
  intros Hnd. pose proof (sort_no_panic types Hnd) as Hp.
  destruct (sort_custom_types ts types) as [sorted|e|w] eqn:Hs; [by apply sort_ok| |done].
  intros (Ht & Hd & Hac). destruct (sort_total types Hnd Ht Hd Hac) as [sorted Ho]. congruence.
Qed.

End Sort.

(** ** A topological sort

    A node without a source among those left is taken first. *)

Module GraphSample.

Definition source (edges : list (string * string)) (nodes : list string) : option string :=
  List.find (fun n => negb (existsb (fun m => bool_decide ((m, n) ∈ edges)) nodes)) nodes.

Fixpoint topo (fuel : nat) (edges : list (string * string)) (nodes : list string) : option (list string) :=
  match fuel, nodes with
  | _, [] => Some []
  | O, _ => None
  | S fuel, nodes =>
      n ← source edges nodes;
      cons n <$> topo fuel edges (filter (fun m => m <> n) nodes)
  end.

Lemma source_some edges nodes n : source edges nodes = Some n ->
  n ∈ nodes /\ forall m, m ∈ nodes -> (m, n) ∉ edges.
Proof.
  intros [Hin H]%List.find_some. split; [by apply list_elem_of_In|]. intros m Hm He.
  apply negb_true_iff, not_true_iff_false in H. apply H, existsb_exists. exists m.
  split; [by apply list_elem_of_In|by apply bool_decide_eq_true].
Qed.

Lemma source_none edges nodes n : source edges nodes = None -> n ∈ nodes ->
  exists m, m ∈ nodes /\ (m, n) ∈ edges.
Proof.
  intros H Hin%list_elem_of_In. apply (List.find_none _ _ H), negb_false_iff, existsb_exists in Hin.
  destruct Hin as (m & Hm & He%bool_decide_eq_true). exists m. split; [by apply list_elem_of_In|done].
Qed.

Lemma take_out (n : string) nodes : NoDup nodes -> n ∈ nodes -> n :: filter (fun m => m <> n) nodes ≡ₚ nodes.
Proof.
  intros Hnd Hin. apply NoDup_Permutation; [|done|].
  - constructor; [|by apply NoDup_filter]. rewrite list_elem_of_filter. tauto.
  - intros x. rewrite elem_of_cons, list_elem_of_filter. destruct (decide (x = n)) as [->|]; tauto.
Qed.

Lemma topo_step fuel edges n0 l :
  topo (S fuel) edges (n0 :: l) =
    n ← source edges (n0 :: l); cons n <$> topo fuel edges (filter (fun m => m <> n) (n0 :: l)).
Proof. reflexivity. Qed.

Lemma topo_order edges fuel nodes order : NoDup nodes -> topo fuel edges nodes = Some order ->
  order ≡ₚ nodes /\ forall a b, (a, b) ∈ edges -> a ∈ nodes -> b ∈ nodes -> before a b order.
Proof.
  revert nodes order. induction fuel as [|fuel IH]; intros [|n0 nodes0] order Hnd H; try done.
  1,2: injection H as <-; split; [done|]; intros a b _ Ha; by apply not_elem_of_nil in Ha.
  rewrite topo_step in H. set (nodes := n0 :: nodes0) in *. destruct (source edges nodes) as [n|] eqn:Hn; [|done]. cbn in H.
  destruct (topo fuel edges _) as [rest|] eqn:Hr; [|done]. injection H as <-.
  destruct (source_some _ _ _ Hn) as [Hin Hsrc]. pose proof (take_out n nodes Hnd Hin) as Ht.
  destruct (IH (filter (fun m => m <> n) nodes) rest) as [Hp Hb]; [by apply NoDup_filter|exact Hr|].
  split; [by rewrite Hp|]. intros a b He Ha Hb'.
  destruct (decide (b = n)) as [->|Hbn]; [by destruct (Hsrc a Ha)|].
  assert (b ∈ filter (fun m => m <> n) nodes) as Hbr by (by apply list_elem_of_filter).
  destruct (decide (a = n)) as [->|Han].
  - rewrite <- Hp in Hbr. apply list_elem_of_lookup in Hbr as [j Hj]. exists 0, (S j). split; [done|]. split; [done|lia].
  - destruct (Hb a b He) as (i & j & Hi & Hj & Hlt); [by apply list_elem_of_filter|done|].
    exists (S i), (S j). split; [done|]. split; [done|lia].
Qed.

Lemma topo_stuck edges fuel nodes : length nodes <= fuel -> topo fuel edges nodes = None ->
  exists n l, (forall x, x ∈ n :: l -> exists y, y ∈ n :: l /\ (y, x) ∈ edges).
Proof.
  revert nodes. induction fuel as [|fuel IH]; intros [|n0 nodes0] Hlen H; try done; [cbn in Hlen; lia|].
  rewrite topo_step in H. destruct (source edges (n0 :: nodes0)) as [n|] eqn:Hn.
  - apply (IH (filter (fun m => m <> n) (n0 :: nodes0))).
    2: { cbn [mbind option_bind] in H. by destruct (topo fuel edges _). }
    destruct (source_some _ _ _ Hn) as [Hin _].
    assert (forall l : list string, n ∈ l -> length (filter (fun m => m <> n) l) < length l) as Hlt.
    { clear. induction l as [|x l IH]; [by intros ?%not_elem_of_nil|]. rewrite filter_cons. cbn.
      pose proof (length_filter (fun m => m <> n) l) as Hle. case_decide as Hx; [|intros _; lia].
      intros [->|H]%elem_of_cons; [done|]. apply IH in H. cbn. lia. }
    apply Hlt in Hin. cbn [length] in Hin, Hlen. lia.
  - exists n0, nodes0. intros x. by apply source_none.
Qed.

Lemma duplicate (l : list string) : ~ NoDup l -> exists i j x, i < j /\ l !! i = Some x /\ l !! j = Some x.
Proof.
  induction l as [|x l IH]; intros H; [by destruct H; constructor|].
  destruct (decide (x ∈ l)) as [[j Hj]%list_elem_of_lookup|Hx].
  - exists 0, (S j), x. split; [lia|done].
  - destruct IH as (i & j & y & Hlt & Hi & Hj); [intros Hnd; apply H; by constructor|].
    exists (S i), (S j), y. split; [lia|done].
Qed.

Lemma cycle (R : string -> string -> Prop) n l : (forall x, x ∈ n :: l -> exists y, y ∈ n :: l /\ R y x) ->
  exists x, tc R x x.
Proof.
  intros H. set (nodes := n :: l) in *.
  assert (forall k, exists p, length p = S k /\ (forall x, x ∈ p -> x ∈ nodes) /\
    forall i j x y, i < j -> p !! i = Some x -> p !! j = Some y -> tc R x y) as Hpath.
  { induction k as [|k ([|x p] & Hlen & Hin & Hp)].
    - exists [n]. split; [done|]. split; [intros x ->%list_elem_of_singleton; left|].
      intros [|i] [|j] x y Hij Hi Hj; try lia; done.
    - done.
    - destruct (H x) as (y & Hy & Hr); [apply Hin; left|]. exists (y :: x :: p). split; [cbn in *; lia|].
      split; [intros z [->|Hz]%elem_of_cons; [done|by apply Hin]|].
      intros [|i] [|j] a b Hij Ha Hb; try lia; cbn in Ha; [|by apply (Hp i j); [lia|..]].
      injection Ha as <-. destruct j as [|j]; cbn in Hb; [injection Hb as <-; by apply tc_once|].
      eapply tc_l; [exact Hr|]. by apply (Hp 0 (S j)); [lia|..]. }
  destruct (Hpath (length nodes)) as (p & Hlen & Hin & Hp).
  destruct (duplicate p) as (i & j & x & Hlt & Hi & Hj).
  - intros Hnd. pose proof (submseteq_length _ _ (NoDup_submseteq p nodes Hnd Hin)). lia.
  - exists x. by apply (Hp i j).
Qed.

#[export] Instance graph_lib : GraphLib := {
  toposort g := topo (length (tg_nodes g)) (tg_edges g) (tg_nodes g);
  apply_inv_slice A order l :=
    if decide (merge_sort le order = seq 0 (length l)) then Ok (omap (fun i => l !! i) order) else bail "not a permutation";
}.

Lemma omap_positions {A} (l : list A) : omap (fun i => l !! i) (seq 0 (length l)) = l.
Proof.
  assert (forall pre, omap (fun i => (pre ++ l) !! i) (seq (length pre) (length l)) = l) as H; [|apply (H [])].
  induction l as [|x l IH]; intros pre; [done|]. cbn. rewrite list_lookup_middle by done. f_equal.
  specialize (IH (pre ++ [x])). rewrite <- app_assoc, length_app, Nat.add_1_r in IH. exact IH.
Qed.

#[export] Instance graph_laws : GraphLaws.
Proof.
  split.
  - intros g order [Hn He] H. destruct (topo_order _ _ _ _ Hn H) as [Hp Hb]. split; [done|].
    intros a b Hab. destruct (He a b Hab). by apply Hb.
  - intros g _ H. destruct (topo_stuck _ _ _ (le_n _) H) as (n & l & Hl). by eapply cycle.
  - intros A order l Hp. cbn. rewrite decide_True; [done|].
    apply (StronglySorted_unique le); [apply (StronglySorted_merge_sort _)| |].
    + clear Hp. generalize 0. induction (length l) as [|n IH]; intros k; cbn; constructor; [apply IH|].
      apply Forall_forall. intros i Hi%elem_of_seq. lia.
    + by rewrite merge_sort_Permutation.
  - intros A order l l' H. cbn in H. case_decide as Hs; [|done]. injection H as <-.
    transitivity (omap (fun i => l !! i) (seq 0 (length l))); [|by rewrite omap_positions]. rewrite <- Hs. by rewrite (merge_sort_Permutation le order).
Qed.

Definition field (name : string) (t : TypeEnum) : FieldDefinition :=
  {| def_name := name; def_field_type := Some (mkTypeMsg (Some t)); def_labels := [];
     def_is_optional := false; def_default_value := None; def_is_unique := false |}.

Definition person : AddTypeRequest := {| at_name := "Person"; at_field_defs := [field "name" TeString] |}.
Definition post : AddTypeRequest :=
  {| at_name := "Post"; at_field_defs := [field "text" TeString; field "author" (TeEntity "Person")] |}.
Definition dev : TypeSystem := TypeSystem_new {| types := builtin_table |} "dev".

End GraphSample.

#[local] Existing Instance GraphSample.graph_lib.
#[local] Existing Instance GraphSample.graph_laws.

Lemma sort_custom_types_spec_witness :
  sort_custom_types GraphSample.dev [GraphSample.post; GraphSample.person] =
    Ok [GraphSample.person; GraphSample.post] /\
  deps_first GraphSample.dev [GraphSample.person; GraphSample.post].
Proof.
  assert (sort_custom_types GraphSample.dev [GraphSample.post; GraphSample.person] =
    Ok [GraphSample.person; GraphSample.post]) as Hs by (vm_compute; reflexivity).
  split; [exact Hs|].
  pose proof (sort_custom_types_spec GraphSample.dev [GraphSample.post; GraphSample.person]) as H.
  rewrite Hs in H. apply H. vm_compute. constructor; [|apply NoDup_singleton].
  intros Hin%list_elem_of_singleton. discriminate Hin.
Defined.
