(* ===== verification/ApplySample.v ===== *)
(** * Libraries for the examples of the control plane

    A concrete instance of each library that [apply] and the server are given,
    and a small application. *)

From S2P Require Import Prelude Ident Types Builtin TypeSystem Policies Query PolicyRules ControlFlow Meta Apply SortSpec.

(** The text of the policy sources is read back as it was written. *)
Class StoreTextLaws {ST : StoreText} := {
  store_text_read : forall m s, store_to_string m = Ok s -> store_from_str s = Ok m;
}.

Module ApplySample.

Fixpoint bits (p : positive) : string :=
  match p with
  | xH => ""
  | xO p => String "0" (bits p)
  | xI p => String "1" (bits p)
  end.
Fixpoint of_bits (s : string) : positive :=
  match s with
  | String c s => if Ascii.eqb c "0"%char then xO (of_bits s) else xI (of_bits s)
  | EmptyString => xH
  end.

Lemma of_bits_bits p : of_bits (bits p) = p.
Proof. induction p as [p IH|p IH|]; [..|done]; simpl; by rewrite IH. Qed.

#[export] Instance store_text : StoreText := {
  store_to_string m := Ok (bits (encode (map_to_list m)));
  store_from_str s := option_context (list_to_map <$> decode (A := list (string * string)) (of_bits s)) "not a map";
}.
#[export] Instance store_text_laws : StoreTextLaws.
Proof.
  split. intros m s [= <-]. cbn. rewrite of_bits_bits, decode_encode. cbn. by rewrite list_to_map_to_list.
Qed.

#[export] Instance regexes : RegexLib :=
  { Regex := string; regex_new s := Ok s; is_match r s := String.eqb r s }.
#[export] Instance methods : MethodLib :=
  { Method := string; method_eq_dec := String.string_dec; method_from_str s := Some s; method_as_str s := s;
    method_OPTIONS := "OPTIONS" }.
(** The only policy file is the empty one. *)
#[export] Instance yaml : YamlLib := {
  yaml_from_str s :=
    if String.eqb s "" then Ok {| yp_routes := None; yp_endpoints := None; yp_labels := None |}
    else bail "invalid policy file";
}.
#[export] Instance dominators : Dominators := { strict_dominators _ _ _ := Some [] }.
#[export] Instance no_minimization : BoolLib := { bool_simplify b := [b] }.
#[export] Instance printer : Swc := { emit_arrow_js_code _ := Ok "() => {}" }.
#[export] Instance parser : SwcParser := { valid_utf8 _ := true; swc_parse _ := Ok [] }.

Definition builtins : BuiltinTypes := {| types := builtin_table |}.

Lemma builtins_new : BuiltinTypes_new = Ok builtins.
Proof. vm_compute. reflexivity. Qed.

Definition uuid (name : string) : string := "0".

Definition request (types : list AddTypeRequest) (deletion : bool) : ApplyRequest :=
  {| rq_types := types; rq_index_candidates := [{| ic_entity_name := "Post"; ic_properties := ["text"] |}];
     rq_policies := []; rq_allow_type_deletion := deletion; rq_version_id := "dev";
     rq_modules := [("file:///__root.ts", "export default {}")]; rq_version_tag := "v1"; rq_app_name := "blog" |}.

End ApplySample.
