(* ===== verification/ApplySpec.v ===== *)
(** * What applying a version does

    The order of the types, the decisions of the plan, what a failure leaves,
    and what is kept of the data and of the metadata. *)

From S2P Require Import Prelude Ident Types Builtin TypeSystem Policies Query Engine EngineSpec PolicyRules ControlFlow Meta MetaSpec MetaLoadSpec MetaStoreSpec Apply SortSpec ApplySample.

#[local] Arguments lookup_builtin_type : simpl never.

Lemma attempt_ok {S A B} (s s' : S) (r : result A) (k : A -> S * result B) b :
  attempt s r k = (s', Ok b) <-> exists a, r = Ok a /\ k a = (s', Ok b).
Proof. unfold attempt. destruct r; naive_solver. Qed.

(** ** The tables of versions

    Writing types does not touch them. *)

Definition version_tables (db : MetaDb) :=
  (db_api_info db, db_modules db, db_policies db, db_policy_store db).

Lemma foldM_kept {S A T} (g : S -> T) (f : S -> A -> result S) l s s' :
  (forall s x s', f s x = Ok s' -> g s' = g s) -> foldM f s l = Ok s' -> g s' = g s.
Proof.
  intros Hf H. by refine (foldM_inv f (fun _ s1 => g s1 = g s) l s s' eq_refl _ H);
    intros ? x s1 s2 <- ?%Hf.
Qed.

Lemma constrained {A} q c (k : result A) a :
  (_ ← constraint q c; k) = Ok a -> k = Ok a.
Proof. intros H. by apply bind_unit_ok in H as [_ H]. Qed.

Lemma insert_label_kept l id db db' : insert_field_labels_row l id db = Ok db' ->
  version_tables db' = version_tables db.
Proof. intros H%constrained. by injection H as <-. Qed.

Lemma insert_field_kept ty recent db f db' : insert_field_query ty recent db f = Ok db' ->
  version_tables db' = version_tables db.
Proof.
  unfold insert_field_query. intros H. apply bind_ok in H as (tid & _ & H).
  apply bind_ok in H as ([db1 fid] & H1%constrained & H). injection H1 as <- <-.
  apply bind_unit_ok in H as [_ H]. apply bind_ok in H as (db2 & H2%constrained & H). injection H2 as <-.
  apply (foldM_kept version_tables) in H; [exact H|]. intros ???. by apply insert_label_kept.
Qed.

Lemma update_field_kept db d db' : update_field_query db d = Ok db' -> version_tables db' = version_tables db.
Proof.
  unfold update_field_query. destruct (fdl_labels d) as [labels|].
  - intros H. apply (foldM_kept version_tables) in H; [|intros ???; by apply insert_label_kept].
    rewrite H. by destruct (fdl_attrs d).
  - intros [= <-]. by destruct (fdl_attrs d).
Qed.

Lemma remove_field_kept db f db' : remove_field_query db f = Ok db' -> version_tables db' = version_tables db.
Proof. intros (fid & _ & ->)%remove_field_ok. done. Qed.

Lemma insert_indexes_kept tid db l db' : insert_indexes tid db l = Ok db' -> version_tables db' = version_tables db.
Proof.
  apply (foldM_kept version_tables). intros db1 i db2 H%constrained. by injection H as <-.
Qed.

Lemma delete_indexes_kept db l db' : delete_indexes db l = Ok db' -> version_tables db' = version_tables db.
Proof.
  apply (foldM_kept version_tables). intros db1 i db2 H.
  apply bind_ok in H as (iid & _ & H). by injection H as <-.
Qed.

Lemma insert_type_kept db ty db' : insert_type db ty = Ok db' -> version_tables db' = version_tables db.
Proof.
  unfold insert_type. intros H. apply bind_ok in H as ([db1 id] & H1%constrained & H). injection H1 as <- <-.
  apply bind_ok in H as (db2 & H2%constrained & H). injection H2 as <-.
  apply bind_ok in H as (db3 & H3 & H%insert_indexes_kept). rewrite H.
  apply (foldM_kept version_tables) in H3; [exact H3|]. intros ???. by apply insert_field_kept.
Qed.

Lemma remove_type_kept db ty db' : remove_type db ty = Ok db' -> version_tables db' = version_tables db.
Proof.
  unfold remove_type. intros H. apply bind_ok in H as (tid & _ & H).
  apply bind_ok in H as (db1 & H1 & H). injection H as <-.
  apply (foldM_kept version_tables) in H1; [exact H1|]. intros ???. by apply remove_field_kept.
Qed.

Lemma update_type_kept db ty d db' : update_type db ty d = Ok db' -> version_tables db' = version_tables db.
Proof.
  unfold update_type. intros H.
  apply bind_ok in H as (db1 & H1 & H). apply bind_ok in H as (db2 & H2 & H).
  apply bind_ok in H as (db3 & H3 & H). apply bind_ok in H as (db4 & H4%delete_indexes_kept & H).
  apply bind_ok in H as (tid & _ & H%insert_indexes_kept).
  apply (foldM_kept version_tables) in H1; [|intros ???; by apply insert_field_kept].
  apply (foldM_kept version_tables) in H2; [|intros ???; by apply remove_field_kept].
  apply (foldM_kept version_tables) in H3; [|intros ???; by apply update_field_kept].
  congruence.
Qed.

Lemma write_types_kept plan db db' : write_types plan db = Ok db' -> version_tables db' = version_tables db.
Proof.
  unfold write_types. intros H. apply bind_ok in H as (db1 & H1 & H). apply bind_ok in H as (db2 & H2 & H).
  apply (foldM_kept version_tables) in H1; [|intros ???; by apply insert_type_kept].
  apply (foldM_kept version_tables) in H2; [|intros ? [] ?; by apply update_type_kept].
  apply (foldM_kept version_tables) in H; [|intros ???; by apply remove_type_kept].
  congruence.
Qed.

(** ** The plan *)

Section Plan.
Context {GL : GraphLib} {LG : GraphLaws} {RO : RowOrder} {LR : RowOrderLaws}.
Context (ts : TypeSystem) (tables : Tables) (type_names : list string).

(** The stored types the request does not name. *)
Definition dropped_types : list ObjectType :=
  (fun e => object_type e.2) <$> filter (fun e => e.1 ∉ type_names) (map_to_list (custom_types ts)).

Lemma find_removed_all entries l1 l2 : 
  foldM (find_removed tables type_names) ([], []) entries = Ok (l1, l2) ->
  l1 ++ l2.*1 ≡ₚ (fun e => object_type e.2) <$> filter (fun e => e.1 ∉ type_names) entries /\
  Forall (fun o => count_rows tables o = Ok 0%Z) l1 /\
  Forall (fun e => count_rows tables e.1 = Ok e.2) l2.
Proof.
  intros H. refine (foldM_inv (find_removed tables type_names) (fun seen s =>
    s.1 ++ s.2.*1 ≡ₚ (fun e => object_type e.2) <$> filter (fun e => e.1 ∉ type_names) seen /\
    Forall (fun o => count_rows tables o = Ok 0%Z) s.1 /\
    Forall (fun e => count_rows tables e.1 = Ok e.2) s.2) entries ([], []) (l1, l2) _ _ H); [done|].
  intros seen [n e] [r1 r2] s2 (Hp & H1 & H2) Hs. cbn in Hp, H1, H2. unfold find_removed in Hs.
  rewrite filter_app, fmap_app. destruct (decide (n ∈ type_names)) as [Hin|Hout].
  - injection Hs as <-. cbn [fst snd]. rewrite filter_cons_False by (cbn; tauto). cbn. by rewrite app_nil_r.
  - apply bind_ok in Hs as (cnt & Hc & Hs). rewrite filter_cons_True by done. cbn.
    destruct (Z.eqb_spec cnt 0) as [->|Hne]; injection Hs as <-; cbn; rewrite <- Hp.
    + split; [|split; [|done]]; [|apply Forall_app; by repeat constructor].
      rewrite <- !app_assoc. apply Permutation_app_head. by rewrite Permutation_app_comm.
    + split; [|split; [done|]]; [|apply Forall_app; by repeat constructor].
      rewrite fmap_app. cbn. by rewrite app_assoc.
Qed.

Lemma removed_types_ok allow l : removed_types ts tables type_names allow = Ok l ->
  l ≡ₚ dropped_types /\
  Forall (fun o => exists cnt, count_rows tables o = Ok cnt /\ (cnt = 0%Z \/ allow = true)) l.
Proof.
  unfold removed_types. intros H. apply bind_ok in H as ([l1 l2] & Hf & H).
  apply bind_unit_ok in H as [Hg%ensure_ok [= <-]].
  destruct (find_removed_all _ _ _ Hf) as (Hp & H1 & H2). split.
  - rewrite Hp. unfold dropped_types. by rewrite (in_order_perm _).
  - apply Forall_app. split.
    + eapply Forall_impl; [exact H1|]. intros o Ho. exists 0%Z. split; [done|by left].
    + apply orb_prop in Hg as [Hnil%bool_decide_eq_true|Ha]; [by rewrite Hnil|].
      apply Forall_fmap. eapply Forall_impl; [exact H2|]. intros [o c] Hc. exists c. split; [done|by right].
Qed.

Context (uuid : string -> string) (version_id : string) (indexes : gmap string (list DbIndex)).

(** What one turn of the loop did with a type. *)
Abbreviation plan_step := (AddTypeRequest * ObjectType * option (ObjectType * ObjectDelta))%type.

(** The types made so far, by name. *)
Definition new_types_ok (new_types : gmap string Entity) : Prop :=
  forall n e, new_types !! n = Some e ->
    exists ty, e = Custom ty /\ obj_name ty = n /\ obj_version_id ty = version_id.

Definition made (tdef : AddTypeRequest) (ty : ObjectType) : Prop :=
  exists new_types, new_types_ok new_types /\
    make_type uuid ts version_id type_names indexes new_types tdef = Ok ty.

Lemma make_type_object new_types tdef ty :
  make_type uuid ts version_id type_names indexes new_types tdef = Ok ty ->
  exists fields, mapM (make_field ts version_id type_names new_types) (at_field_defs tdef) = Ok fields /\
    Forall (fun i => Forall (fun n => n = "id" \/ n ∈ fld_name <$> fields) (idx_fields i))
      (default [] (indexes !! at_name tdef)) /\
    ty = {| obj_meta_id := None; obj_name := at_name tdef; obj_fields := fields;
            obj_indexes := default [] (indexes !! at_name tdef); obj_chisel_id := the_chisel_id;
            obj_backing_table := no_backing_table (NewObject_new (uuid (at_name tdef)) (at_name tdef) version_id);
            obj_version_id := version_id |}.
Proof.
  unfold make_type. intros H. apply bind_unit_ok in H as [_ H]. apply bind_ok in H as (fields & Hf & H).
  apply ObjectType_new_ok in H as (_ & Hi & ->). exists fields. by split; [|split].
Qed.

Definition step_ok (st : plan_step) : Prop :=
  let '(tdef, ty, update) := st in
  made tdef ty /\
  match update with
  | None => custom_types ts !! at_name tdef = None
  | Some (old, delta) => exists e cnt, custom_types ts !! at_name tdef = Some e /\ old = object_type e /\
      count_rows tables old = Ok cnt /\ generate_type_delta ts old ty (cnt =? 0)%Z = Ok delta
  end.

Definition inserted_type (st : plan_step) : option ObjectType :=
  match st.2 with None => Some st.1.2 | Some _ => None end.

Lemma plan_loop sorted nt ins upd :
  foldM (plan_type uuid ts tables version_id type_names indexes) (∅, [], []) sorted = Ok (nt, ins, upd) ->
  exists steps : list plan_step, steps.*1.*1 = sorted /\ Forall step_ok steps /\
    ins = omap inserted_type steps /\ upd = omap snd steps.
Proof.
  intros H. refine (proj2 (_ : new_types_ok nt /\ _)). refine (foldM_inv (plan_type uuid ts tables version_id type_names indexes)
    (fun seen s => new_types_ok s.1.1 /\
       exists steps : list plan_step, steps.*1.*1 = seen /\ Forall step_ok steps /\
       s.1.2 = omap inserted_type steps /\ s.2 = omap snd steps)
    sorted (∅, [], []) (nt, ins, upd) _ _ H); [by split; [|exists []]|].
  clear H. intros seen tdef [[nt1 ins1] upd1] s2 (Hnt & steps & Hseen & Hs & Hi & Hu) H.
  cbn in Hnt, Hi, Hu. unfold plan_type in H. apply bind_ok in H as (ty & Hty & H).
  assert (new_types_ok (<[at_name tdef := Custom ty]> nt1)) as Hnt2.
  { destruct (make_type_object _ _ _ Hty) as (fields & _ & _ & ->).
    intros n e [[<- <-]|[_ He]]%lookup_insert_Some; [by eexists|by apply Hnt]. }
  assert (forall u, step_ok (tdef, ty, u) -> Forall step_ok (steps ++ [(tdef, ty, u)]) /\
    (steps ++ [(tdef, ty, u)]).*1.*1 = seen ++ [tdef]) as Hadd.
  { intros u Hok. split; [apply Forall_app; split; [done|by apply Forall_singleton]|]. by rewrite !fmap_app, Hseen. }
  unfold lookup_custom_type in H. destruct (custom_types ts !! at_name tdef) as [e|] eqn:He.
  - apply bind_ok in H as (cnt & Hc & H). apply bind_ok in H as (delta & Hd%map_err_ok & [= <-]).
    split; [done|]. exists (steps ++ [(tdef, ty, Some (object_type e, delta))]). cbn.
    destruct (Hadd (Some (object_type e, delta))) as [H1 H2].
    { split; [by exists nt1|]. by exists e, cnt. }
    split; [done|split; [done|]]. rewrite !omap_app, Hi, Hu. cbn. by rewrite app_nil_r.
  - injection H as <-. split; [done|]. exists (steps ++ [(tdef, ty, None)]). cbn.
    destruct (Hadd None) as [H1 H2]; [split; [by exists nt1|done]|].
    split; [done|split; [done|]]. rewrite !omap_app, Hi, Hu. cbn. by rewrite app_nil_r.
Qed.

End Plan.

(** ** The request, step by step *)

Section Request.
Context {GL : GraphLib} {LG : GraphLaws} {RO : RowOrder} {LR : RowOrderLaws} {ST : StoreText}.
Context {RL : RegexLib} {ML : MethodLib} {YL : YamlLib}.
Context {DM : Dominators} {BL : BoolLib} {SW : Swc} {SP : SwcParser}.
Context (typescript_policies : bool) (fuel : nat) (uuid : string -> string).

(** Either nothing happened, or the metadata were written; they may then fail to
    load, which leaves the type system as it was, or the transaction on the
    tables may fail. *)
Lemma apply_cases builtin_types rq v info modules s s' r :
  apply typescript_policies fuel uuid builtin_types rq v info modules s = (s', r) ->
  (s' = s /\ is_ok r = false) \/
  exists plan policies, make_plan uuid (as_type_system s) (as_tables s) v rq = Ok plan /\
    parse_policies typescript_policies fuel (rq_policies rq) = Ok policies /\
    write_meta v info modules policies plan (as_meta s) = Ok (as_meta s') /\
    ((is_ok (reload builtin_types v (as_meta s')) = false /\ as_type_system s' = as_type_system s /\
      as_tables s' = as_tables s /\ is_ok r = false) \/
     (reload builtin_types v (as_meta s') = Ok (as_type_system s') /\
      ((as_tables s' = as_tables s /\ is_ok r = false) \/
       (write_tables (as_type_system s') plan (as_tables s) = Ok (as_tables s') /\
        r = Ok {| ar_type_system := as_type_system s'; ar_policy_system := (pp_policy_system policies).1;
                  ar_type_names_user_order := at_name <$> rq_types rq;
                  ar_labels := in_order (map_to_list (labels (pp_policy_system policies).1)).*1;
                  ar_policy_sources := pp_policy_sources policies |})))).
Proof.
  unfold apply. destruct (make_plan _ _ _ _ _) as [plan| |] eqn:Hplan; [|by intros [= <- <-]; left..].
  cbn [attempt]. destruct (parse_policies _ _ _) as [policies| |] eqn:Hpol; [|by intros [= <- <-]; left..].
  cbn [attempt]. destruct (write_meta _ _ _ _ _ _) as [db| |] eqn:Hdb; [|by intros [= <- <-]; left..].
  cbn [attempt]. intros H. right. exists plan, policies. split; [done|split; [done|]].
  destruct (reload builtin_types v db) as [ts| |] eqn:Hts; cbn [attempt] in H;
    [|injection H as <- <-; cbn; split; [done|by left; rewrite Hts]..].
  cbn [as_tables] in H.
  destruct (write_tables ts plan (as_tables s)) as [tables| |] eqn:Ht; cbn [attempt] in H;
    injection H as <- <-; cbn; (split; [done|right; split; [done|]]); [right|left|left]; done.
Qed.

Lemma make_plan_ok ts tables v rq plan : NoDup (at_name <$> rq_types rq) ->
  make_plan uuid ts tables v rq = Ok plan ->
  exists steps, steps.*1.*1 ≡ₚ rq_types rq /\
    Forall (step_ok ts tables (at_name <$> rq_types rq) uuid v (aggregate_indexes (rq_index_candidates rq))) steps /\
    to_insert plan = omap inserted_type steps /\ to_update plan = omap snd steps /\
    to_remove plan ≡ₚ dropped_types ts (at_name <$> rq_types rq) /\
    Forall (fun o => exists cnt, count_rows tables o = Ok cnt /\ (cnt = 0%Z \/ rq_allow_type_deletion rq = true))
      (to_remove plan).
Proof.
  intros Hnd H. unfold make_plan in H. apply bind_ok in H as (rem & [Hr1 Hr2]%removed_types_ok & H).
  apply bind_ok in H as (sorted & Hsort & H). apply (sort_ok ts) in Hsort as [Hp _]; [|done].
  apply bind_ok in H as ([[nt ins] upd] & Hl & [= <-]).
  destruct (plan_loop _ _ _ _ _ _ _ _ _ _ Hl) as (steps & Hs & Hok & -> & ->). exists steps.
  rewrite Hs. cbn. done.
Qed.

(** ** The tables *)

Lemma exec_then_elem s a b : s ∈ (exec_then a b).1 -> s ∈ a.1 \/ s ∈ b.1.
Proof. unfold exec_then. destruct a as [l []]; cbn; [by intros ?%elem_of_app|by left..]. Qed.

Lemma exec_each_elem {A} (f : A -> executed) l s : s ∈ (exec_each f l).1 -> exists x, x ∈ l /\ s ∈ (f x).1.
Proof.
  induction l as [|x l IH]; cbn; [by intros ?%not_elem_of_nil|].
  intros [H|(y & Hy & H)%IH]%exec_then_elem; [exists x|exists y]; (split; [|done]); [by left|by right].
Qed.

(** The table a statement drops. *)
Definition drops (s : Statement) : option string := match s with DropTable t => Some t | _ => None end.

Lemma indexes_drop_none ty l s : s ∈ (drop_indexes ty l).1 \/ s ∈ (create_indexes ty l).1 -> drops s = None.
Proof.
  intros [(i & _ & H)%exec_each_elem|(i & _ & H)%exec_each_elem]; destruct (_ : result string);
    try (by apply not_elem_of_nil in H); by apply list_elem_of_singleton in H as ->.
Qed.

Lemma create_table_drops ty s : s ∈ (create_table ty).1 -> drops s = None.
Proof.
  intros [->%list_elem_of_singleton|H]%exec_then_elem; [done|]. apply (indexes_drop_none ty (obj_indexes ty)). by right.
Qed.

Lemma drop_table_drops ty s t : s ∈ (drop_table ty).1 -> drops s = Some t -> t = obj_backing_table ty.
Proof.
  intros [H| ->%list_elem_of_singleton]%exec_then_elem Hs; [|by injection Hs].
  rewrite (indexes_drop_none ty (obj_indexes ty)) in Hs; [done|by left].
Qed.

Lemma alter_table_drops ty delta s : s ∈ (alter_table ty delta).1 -> drops s = None.
Proof.
  intros [H|[H|[H|H]%exec_then_elem]%exec_then_elem]%exec_then_elem.
  - eapply indexes_drop_none. by left.
  - by apply exec_each_elem in H as (f & _ & ->%list_elem_of_singleton).
  - by apply exec_each_elem in H as (f & _ & ->%list_elem_of_singleton).
  - eapply indexes_drop_none. by right.
Qed.

Definition kept_table (t : string) (tb : Table) (tables : Tables) : Prop :=
  exists tb', tables !! t = Some tb' /\ tb_rows tb' = tb_rows tb.

(** Only [DROP TABLE] loses rows. *)
Lemma run_on_tables_kept t tb tables s tables' : kept_table t tb tables -> drops s <> Some t ->
  run_on_tables tables s = Ok tables' -> kept_table t tb tables'.
Proof.
  intros (tb1 & Ht & Hr) Hd H. destruct s as [table cols|table|table col|table name|sql|name table];
    cbn [run_on_tables] in H; [| | | |by injection H as <-; exists tb1..].
  - destruct (tables !! table) eqn:E; injection H as <-; [by exists tb1|].
    exists tb1. rewrite lookup_insert_ne by congruence. done.
  - apply bind_ok in H as (tb2 & _ & [= <-]). exists tb1. rewrite lookup_delete_ne by (cbn in Hd; congruence). done.
  - apply bind_ok in H as (tb2 & H2%option_context_ok & H). apply bind_unit_ok in H as [_ [= <-]].
    destruct (decide (table = t)) as [->|Hne]; [|exists tb1; by rewrite lookup_insert_ne].
    eexists. rewrite lookup_insert_eq. split; [done|]. cbn. congruence.
  - apply bind_ok in H as (tb2 & H2%option_context_ok & H). apply bind_unit_ok in H as [_ [= <-]].
    destruct (decide (table = t)) as [->|Hne]; [|exists tb1; by rewrite lookup_insert_ne].
    eexists. rewrite lookup_insert_eq. split; [done|]. cbn. congruence.
Qed.

Lemma run_transaction_kept t tb tables e tables' : kept_table t tb tables ->
  Forall (fun s => drops s <> Some t) e.1 -> run_transaction tables e = Ok tables' -> kept_table t tb tables'.
Proof.
  intros Ht Hs H. unfold run_transaction in H. apply bind_ok in H as (tables1 & H & [_ [= <-]]%bind_unit_ok).
  revert tables Ht H. induction Hs as [|s l Hs _ IH]; intros tables Ht H; cbn [foldM] in H; [by injection H as <-|].
  apply bind_ok in H as (tables2 & H2 & H). eapply IH; [|exact H]. by eapply run_on_tables_kept.
Qed.

(** The tables that writing a plan drops. *)
Lemma write_tables_kept ts plan tables tables' t tb : tables !! t = Some tb ->
  t ∉ obj_backing_table <$> to_remove plan -> write_tables ts plan tables = Ok tables' -> kept_table t tb tables'.
Proof.
  intros Ht Hn H. unfold write_tables in H.
  apply bind_ok in H as (ins & _ & H). apply bind_ok in H as (upd & _ & H).
  eapply run_transaction_kept; [by exists tb| |exact H]. apply Forall_forall.
  intros s [Hs|[Hs|Hs]%exec_then_elem]%exec_then_elem; apply exec_each_elem in Hs as (x & Hx & Hs).
  - by rewrite (create_table_drops _ _ Hs).
  - intros Hd. apply Hn. rewrite (drop_table_drops _ _ _ Hs Hd). by apply list_elem_of_fmap_2.
  - destruct x as [old delta]. by rewrite (alter_table_drops _ _ _ Hs).
Qed.

(** C13: Applying a version loses no data unasked: a table that was there keeps
    its rows, whatever the outcome of [apply], unless it is the table of a type
    of the version that the request does not name - and then it had no rows, or
    the request allowed deletion. *)
Theorem apply_drops_only builtin_types rq v info modules s s' r t tb : NoDup (at_name <$> rq_types rq) ->
  apply typescript_policies fuel uuid builtin_types rq v info modules s = (s', r) ->
  as_tables s !! t = Some tb ->
  (exists tb', as_tables s' !! t = Some tb' /\ tb_rows tb' = tb_rows tb) \/
  (exists n e, custom_types (as_type_system s) !! n = Some e /\ n ∉ at_name <$> rq_types rq /\
     obj_backing_table (object_type e) = t /\ (tb_rows tb = 0%Z \/ rq_allow_type_deletion rq = true)).
Proof.
  intros Hnd H Ht. apply apply_cases in H as [[-> _]|(plan & policies & Hplan & _ & _ & Hcase)]; [left; by exists tb|].
  destruct Hcase as [(_ & _ & -> & _)|[_ [[-> _]|[Hw _]]]]; [left; by exists tb|left; by exists tb|].
  destruct (decide (t ∈ obj_backing_table <$> to_remove plan)) as [(o & -> & Hin)%list_elem_of_fmap|Hn];
    [right|left; by eapply write_tables_kept].
  destruct (make_plan_ok _ _ _ _ _ Hnd Hplan) as (_ & _ & _ & _ & _ & Hr & Hc).
  rewrite Forall_forall in Hc. destruct (Hc o Hin) as (cnt & Hcnt & Hallowed).
  rewrite Hr in Hin. apply list_elem_of_fmap in Hin as ([n e] & -> & [Hout He%elem_of_map_to_list]%list_elem_of_filter).
  exists n, e. split; [done|split; [done|split; [done|]]]. unfold count_rows in Hcnt. rewrite Ht in Hcnt.
  cbn in Hcnt. injection Hcnt as <-. exact Hallowed.
Qed.

End Request.

(** ** Witness *)

Module RequestSample.

#[local] Existing Instance MetaSample.order.
#[local] Existing Instance GraphSample.graph_lib.
Import ApplySample.

Definition start : ApplyState :=
  {| as_type_system := TypeSystem_new builtins "dev"; as_meta := empty_db; as_tables := ∅ |}.
Definition blog : ApplyRequest := request [GraphSample.post; GraphSample.person] false.
Definition info : VersionInfo := {| vi_name := "blog"; vi_tag := "v1" |}.
Definition code : gmap string string := {["file:///__root.ts" := "export default {}"]}.
Definition run (rq : ApplyRequest) (s : ApplyState) : ApplyState * result ApplyResult :=
  apply true 100 uuid builtins rq "dev" info code s.

(** After the blog was applied and one post was written. *)
Definition with_post : ApplyState :=
  let s := (run blog start).1 in
  {| as_type_system := as_type_system s; as_meta := as_meta s;
     as_tables := alter (fun t => {| tb_columns := tb_columns t; tb_rows := 1 |}) "ty_Post_0" (as_tables s) |}.

(** The tables and their rows. *)
Definition rows (s : ApplyState) : list (string * Z) := (fun '(n, t) => (n, tb_rows t)) <$> map_to_list (as_tables s).

End RequestSample.

#[local] Existing Instance MetaSample.order.
#[local] Existing Instance MetaSample.order_laws.
#[local] Existing Instance GraphSample.graph_lib.
#[local] Existing Instance GraphSample.graph_laws.
Import ApplySample RequestSample.

Lemma apply_drops_only_witness :
  let s' := (run (request [GraphSample.person] true) with_post).1 in
  rows s' = [("ty_Person_0", 0%Z)] /\
  exists tb, as_tables with_post !! "ty_Person_0" = Some tb /\
  ((exists tb', as_tables s' !! "ty_Person_0" = Some tb' /\ tb_rows tb' = tb_rows tb) \/
   (exists n e, custom_types (as_type_system with_post) !! n = Some e /\ n ∉ ["Person"] /\
      obj_backing_table (object_type e) = "ty_Person_0" /\ (tb_rows tb = 0%Z \/ true = true))).
Proof.
  intros s'. split; [vm_compute; reflexivity|].
  destruct (as_tables with_post !! "ty_Person_0") as [tb|] eqn:Ht; [|vm_compute in Ht; discriminate Ht].
  exists tb. split; [reflexivity|].
  apply (apply_drops_only true 100 uuid builtins (request [GraphSample.person] true) "dev" info code with_post s'
    (run (request [GraphSample.person] true) with_post).2 "ty_Person_0" tb).
  - apply NoDup_singleton.
  - exact (surjective_pairing (run (request [GraphSample.person] true) with_post)).
  - exact Ht.
Defined.
