(* ===== verification/ApplyStoreSpec.v ===== *)
(** * What applying a version stores

    The metadata after [apply] hold, for the version, the types of the request
    and nothing else, and the types of other versions are as before. *)

From S2P Require Import Prelude Ident Types Builtin TypeSystem Policies Query Engine EngineSpec PolicyRules ControlFlow Meta MetaSpec MetaLoadSpec MetaStoreSpec ReloadSpec Apply SortSpec ApplySample ApplySpec.

#[local] Arguments lookup_builtin_type : simpl never.

(** ** Writing a plan *)

Lemma set_version_tables_keeps a b c d db tys : keeps db tys -> keeps (set_version_tables a b c d db) tys.
Proof.
  intros [[C1 C2 C3 C4 C5 C6] Hs Hi Ha]. split; [by split| |done|done].
  eapply Forall_impl; [exact Hs|]. intros ty (tid & [S1 S2 S3 [F1 F2 F3] [I1 I2 I3] S6]).
  exists tid. split; try done; by split.
Qed.

Definition new_object (ty : ObjectType) : Prop := obj_meta_id ty = None /\ obj_chisel_id ty = the_chisel_id.

Definition stored_new (ty o : ObjectType) : Prop := exists tid fid iid, o = with_ids tid fid iid ty.

Lemma inserts_kept ins db tys db' : keeps db tys -> Forall new_object ins ->
  foldM insert_type db ins = Ok db' ->
  exists news, Forall2 stored_new ins news /\ keeps db' (tys ++ news).
Proof.
  intros Hk Hn. revert db tys Hk. induction Hn as [|ty ins Hty _ IH]; intros db tys Hk; cbn [foldM].
  - intros [= <-]. exists []. by rewrite app_nil_r.
  - intros H. apply bind_ok in H as (db1 & H1 & H).
    destruct (insert_keeps db tys ty db1 Hk Hty H1) as (tys1 & Hstep & Hk1).
    inversion Hstep as [? ? tid fid iid Hfresh| |]; subst.
    destruct (IH db1 _ Hk1 H) as (news & H2 & Hk'). exists (with_ids tid fid iid ty :: news).
    split; [constructor; [by exists tid, fid, iid|done]|]. by rewrite <- app_assoc in Hk'.
Qed.

Lemma removes_kept rem db tys : keeps db (tys ++ rem) ->
  exists db', foldM remove_type db rem = Ok db' /\ keeps db' tys.
Proof.
  revert db. induction rem as [|ty rem IH]; intros db Hk; cbn [foldM].
  - rewrite app_nil_r in Hk. by exists db.
  - destruct (remove_keeps db tys ty rem Hk) as (db1 & -> & Hk1). cbn. by apply IH.
Qed.

(** A type of the version, with the fields such a type has. *)
Definition keyed (builtin_types : BuiltinTypes) (v : string) (o : ObjectType) : Prop :=
  obj_version_id o = v /\ Forall (fun f => plain_key builtin_types v (field_key f)) (obj_fields o).

Lemma keyed_version bt v o : keyed bt v o -> Forall (fun f => fld_version_id f = v) (obj_fields o).
Proof. intros [_ Hk]. eapply Forall_impl; [exact Hk|]. by intros f (_ & _ & ?). Qed.

Lemma describes_weaken (q q' : Prop) ts o ty : (q' -> q) -> describes_type q ts o ty -> describes_type q' ts o ty.
Proof.
  intros Hq [D1 D2 D3 D4]. split; [done| |done|done]. intros g Hg. destruct (D2 g Hg) as (f & Hf & [F1 F2 F3]).
  exists f. split; [done|]. split; [done|done|by intros ?%Hq%F3].
Qed.

Section Written.
Context (bt : BuiltinTypes) (v : string) (quiet : Prop) (ts : TypeSystem).

(** An update that [generate_type_delta] computed, from a type of the store. *)
Definition sound_update (e : ObjectType * ObjectDelta) (ty : ObjectType) : Prop :=
  keyed bt v e.1 /\ keyed bt v ty /\ (quiet -> keeps_defaults e.1 e.2) /\
  exists unsafe, generate_type_delta ts e.1 ty unsafe = Ok e.2.

Lemma updates_kept upd tys db rest db' : keeps db (rest ++ upd.*1) -> Forall2 sound_update upd tys ->
  foldM (fun db '(old, delta) => update_type db old delta) db upd = Ok db' ->
  exists news, Forall2 (describes_type quiet ts) news tys /\ Forall (keyed bt v) news /\ keeps db' (rest ++ news).
Proof.
  intros Hk H2. revert db rest Hk.
  induction H2 as [|[old delta] ty upd tys (Ho & Hn & Hq & unsafe & Hdelta) _ IH]; intros db rest Hk; cbn [foldM].
  - intros [= <-]. exists []. by split; [|split].
  - intros H. apply bind_ok in H as (db1 & H1 & H). cbn in *.
    destruct (keeps_id db _ old Hk) as (tid & Hid & Hs); [set_solver|].
    destruct (update_keeps db rest old upd.*1 delta db1 Hk) as (iid & Hk1);
      [by eapply delta_is_owned|done|].
    set (o := persisted delta (db_next_field_id db) iid old) in *.
    destruct (IH db1 (rest ++ [o])) as (news & Hdesc & Hkey & Hk'); [by rewrite <- app_assoc|done|].
    pose proof (keyed_version _ _ _ Ho) as Hvo. pose proof (keyed_version _ _ _ Hn) as Hvn.
    pose proof (ke_consistent _ _ Hk) as Hc.
    destruct Ho as [Hov Ho], Hn as [Hnv Hn]. rewrite <- Hov in Hvo, Hvn.
    exists (o :: news). split; [|split].
    + constructor; [|done]. eapply describes_weaken; [exact Hq|]. by eapply persisted_describes.
    + constructor; [|done]. split; [done|]. by eapply persisted_keys.
    + by rewrite <- app_assoc in Hk'.
Qed.

(** An inserted type describes itself. *)
Lemma number_from_fields id fs : Forall2 (fun f g => exists i, g = with_id i f) fs (number_from id fs).
Proof. revert id. induction fs as [|f fs IH]; intros id; constructor; [by eexists|apply IH]. Qed.

Lemma inserted_keyed ty o : stored_new ty o -> keyed bt v ty -> keyed bt v o.
Proof.
  intros (tid & fid & iid & ->) [Hv Hk]. split; [done|]. cbn.
  pose proof (number_from_fields fid (obj_fields ty)) as H2. clear Hv.
  induction H2 as [|f g fs gs [i ->] _ IH]; [constructor|]. apply Forall_cons in Hk as [Hf Hk].
  constructor; [done|by apply IH].
Qed.

Lemma inserted_describes db tid ty o : stores db tid o -> stored_new ty o -> keyed bt v ty ->
  describes_type quiet ts o ty.
Proof.
  intros Hs Hnew Hk. pose proof (keyed_version _ _ _ (inserted_keyed ty o Hnew Hk)) as Hv.
  destruct Hk as [Hov _]. destruct Hnew as (tid' & fid & iid & ->).
  pose proof (number_from_fields fid (obj_fields ty)) as H2.
  assert (NoDup (fld_name <$> obj_fields ty)) as Hnd.
  { assert (fld_name <$> number_from fid (obj_fields ty) = fld_name <$> obj_fields ty) as <-.
    { clear -H2. induction H2 as [|f g fs gs [i ->] _ IH]; cbn; [done|by rewrite IH]. }
    apply (stored_names db tid (with_ids tid' fid iid ty) Hs). cbn in *. by rewrite Hov. }
  split; [done| | |].
  - cbn. intros g [k Hk]%list_elem_of_lookup. destruct (Forall2_lookup_r _ _ _ _ _ H2 Hk) as (f & Hf & i & ->).
    exists f. cbn. split.
    + apply field_map_get_iff; [done|]. split; [by eapply list_elem_of_lookup_2|done].
    + split; [|by right|done]. repeat split; try done. by left.
  - intros n f [Hf Hn]%field_map_get_iff; [|done]. cbn. apply list_elem_of_lookup in Hf as [k Hk].
    destruct (Forall2_lookup_l _ _ _ _ _ H2 Hk) as (g & Hg & i & ->). exists (with_id i f).
    split; [by eapply list_elem_of_lookup_2|done].
  - intros fs. cbn. by rewrite number_indexes_fields.
Qed.

Lemma inserted_all db tys ins news : keeps db tys -> (forall o, o ∈ news -> o ∈ tys) ->
  Forall2 stored_new ins news -> Forall (keyed bt v) ins ->
  Forall2 (describes_type quiet ts) news ins /\ Forall (keyed bt v) news.
Proof.
  intros Hk Hin H2. induction H2 as [|ty o ins news Ho _ IH]; intros Hks; [by split|].
  apply Forall_cons in Hks as [Hty Hks]. destruct IH as [IH1 IH2]; [intros; apply Hin; by right|done|].
  destruct (keeps_id db tys o Hk) as (tid & _ & Hs); [apply Hin; by left|].
  split; constructor; [by eapply inserted_describes|done|by eapply inserted_keyed|done].
Qed.

End Written.

(** ** The types of a version *)

Lemma map_to_list_restrict {A} (m : gmap string A) names : NoDup names ->
  filter (fun e => e.1 ∈ names) (map_to_list m) ≡ₚ omap (fun n => (fun a => (n, a)) <$> m !! n) names.
Proof.
  intros Hnd. apply NoDup_Permutation.
  - apply NoDup_filter, NoDup_map_to_list.
  - induction Hnd as [|n names Hn _ IH]; cbn; [constructor|]. destruct (m !! n) as [a|]; cbn; [|done].
    constructor; [|done]. intros (n' & Hin & H)%list_elem_of_omap.
    destruct (m !! n'); [|done]. cbn in H. by injection H as <- _.
  - intros [n a]. rewrite list_elem_of_filter, elem_of_map_to_list, list_elem_of_omap. cbn. split.
    + intros [Hn Ha]. exists n. by rewrite Ha.
    + intros (n' & Hn & H). destruct (m !! n') eqn:E; [|done]. cbn in H. by injection H as <- <-.
Qed.

Section Write.
Context {RO : RowOrder} {LR : RowOrderLaws}.
Context (uuid : string -> string) (bt : BuiltinTypes) (quiet : Prop) (ts : TypeSystem) (tables : Tables)
  (v : string) (type_names : list string) (indexes : gmap string (list DbIndex)).

Abbreviation plan_step := (AddTypeRequest * ObjectType * option (ObjectType * ObjectDelta))%type.
Notation step_ok := (step_ok ts tables type_names uuid v indexes).

Definition updated_type (st : plan_step) : option ObjectType :=
  match st.2 with None => None | Some _ => Some st.1.2 end.

Lemma steps_split (steps : list plan_step) :
  omap inserted_type steps ++ omap updated_type steps ≡ₚ steps.*1.*2.
Proof.
  induction steps as [|[[tdef ty] [u|]] steps IH]; cbn; [done| |by f_equiv].
  rewrite <- Permutation_middle. by f_equiv.
Qed.

Lemma updated_olds (steps : list plan_step) : Forall step_ok steps ->
  (omap snd steps).*1 = (fun e => object_type e.2) <$>
    omap (fun n => (fun a => (n, a)) <$> custom_types ts !! n) (at_name <$> steps.*1.*1).
Proof.
  induction 1 as [|[[tdef ty] u] steps [_ H] _ IH]; [done|]. cbn. destruct u as [[old delta]|].
  - destruct H as (e & cnt & -> & -> & _). cbn. by rewrite IH.
  - rewrite H. cbn. apply IH.
Qed.

Lemma objects_split (steps : list plan_step) : NoDup (at_name <$> steps.*1.*1) ->
  at_name <$> steps.*1.*1 ≡ₚ type_names -> Forall step_ok steps ->
  objects ts ≡ₚ (omap snd steps).*1 ++ dropped_types ts type_names.
Proof.
  intros Hnd Hnames Hs. rewrite (updated_olds _ Hs), <- map_to_list_restrict by done.
  unfold objects, dropped_types. rewrite <- fmap_app. apply fmap_Permutation.
  rewrite (list_filter_iff (fun e : string * Entity => e.1 ∈ at_name <$> steps.*1.*1)
    (fun e => e.1 ∈ type_names)) by (intros e; by rewrite Hnames).
  symmetry. apply (filter_app_complement (fun e : string * Entity => e.1 ∈ type_names)).
Qed.

Lemma made_new tdef ty : made ts type_names uuid v indexes tdef ty -> new_object ty.
Proof. intros (nt & _ & (fields & _ & _ & ->)%make_type_object). done. Qed.

Lemma inserted_steps (steps : list plan_step) (P : ObjectType -> Prop) :
  Forall (fun st => P st.1.2) steps -> Forall P (omap inserted_type steps).
Proof. induction 1 as [|[[tdef ty] [u|]] steps Hm _ IH]; cbn; [constructor|done|by constructor]. Qed.

(** The stored types are known, and so are the types that were built. *)
Definition steps_keyed (steps : list plan_step) : Prop :=
  Forall (fun st => keyed bt v st.1.2) steps /\
  forall n e, custom_types ts !! n = Some e -> keyed bt v (object_type e).

Definition quiet_steps (steps : list plan_step) : Prop :=
  quiet -> Forall (fun st => match st.2 with Some (old, delta) => keeps_defaults old delta | None => True end) steps.

Lemma steps_sound (steps : list plan_step) : Forall step_ok steps -> steps_keyed steps -> quiet_steps steps ->
  Forall2 (sound_update bt v quiet ts) (omap snd steps) (omap updated_type steps).
Proof.
  intros Hs [Hk Hold] Hq. induction Hs as [|[[tdef ty] u] steps [_ H] _ IH]; [constructor|].
  apply Forall_cons in Hk as [Hty Hk].
  assert (Forall2 (sound_update bt v quiet ts) (omap snd steps) (omap updated_type steps)) as Hrest.
  { apply IH; [done|]. intros q. specialize (Hq q). by apply Forall_cons in Hq as [_ Hq]. }
  destruct u as [[old delta]|]; [|done].
  destruct H as (e & cnt & He & -> & _ & Hdelta). cbn. constructor; [|done].
  split; [by eapply Hold|split; [done|split; [|by eexists]]].
  intros q. specialize (Hq q). by apply Forall_cons in Hq as [Hq _].
Qed.

(** Writing the plan leaves, next to the types of other versions, one type for
    each one built. *)
Lemma plan_written others plan (steps : list plan_step) db db' :
  keeps db (others ++ objects ts) ->
  NoDup (at_name <$> steps.*1.*1) -> at_name <$> steps.*1.*1 ≡ₚ type_names -> Forall step_ok steps ->
  steps_keyed steps -> quiet_steps steps ->
  to_insert plan = omap inserted_type steps -> to_update plan = omap snd steps ->
  to_remove plan ≡ₚ dropped_types ts type_names ->
  write_types plan db = Ok db' ->
  exists tys built, keeps db' (others ++ tys) /\ built ≡ₚ steps.*1.*2 /\
    Forall2 (describes_type quiet ts) tys built /\ Forall (keyed bt v) tys.
Proof.
  intros Hk Hnd Hnames Hs Hkeys Hq Hi Hu Hr H. unfold write_types in H. rewrite Hi, Hu in H.
  apply bind_ok in H as (db1 & H1 & H). apply bind_ok in H as (db2 & H2 & H3).
  destruct (inserts_kept (omap inserted_type steps) db _ db1 Hk) as (ins' & Hins & Hk1); [|done|].
  { apply inserted_steps. eapply Forall_impl; [exact Hs|]. intros [[tdef ty] u] [Hm _]. by eapply made_new. }
  destruct (updates_kept bt v quiet ts (omap snd steps) (omap updated_type steps) db1
    (others ++ ins' ++ to_remove plan) db2) as (news & Hdesc & Hkn & Hk2); [|by apply steps_sound|done|].
  { eapply keeps_perm; [|exact Hk1]. rewrite (objects_split steps), Hr by done. solve_Permutation. }
  destruct (removes_kept (to_remove plan) db2 (others ++ ins' ++ news)) as (db3 & H3' & Hk3).
  { eapply keeps_perm; [|exact Hk2]. solve_Permutation. }
  rewrite H3 in H3'. injection H3' as <-.
  destruct (inserted_all bt v quiet ts db' _ (omap inserted_type steps) ins' Hk3) as [Hdi Hki]; [set_solver|done| |].
  { apply inserted_steps, Hkeys. }
  exists (ins' ++ news), (omap inserted_type steps ++ omap updated_type steps).
  split; [done|]. split; [apply steps_split|]. split; [by apply Forall2_app|by apply Forall_app].
Qed.

End Write.

(** ** What a request asks for *)

(** The type a field is to have. *)
Fixpoint wanted_type (v : string) (ts : TypeSystem) (t : TypeEnum) : TypeId :=
  match t with
  | TeString => IdString
  | TeNumber => IdFloat
  | TeBool => IdBoolean
  | TeJsDate => IdJsDate
  | TeArrayBuffer => IdArrayBuffer
  | TeEntity name =>
      match lookup_builtin_type ts name with Ok ty => type_id_of ty | _ => IdEntity name v end
  | TeEntityId entity_name => IdEntityId entity_name
  | TeArray (Some (mkTypeMsg (Some t))) => IdArray (wanted_type v ts t)
  | TeArray _ => IdString
  end.

(** A default that is no longer asked for may stay; not so if [quiet]. *)
Record field_matches (quiet : Prop) (v : string) (ts : TypeSystem) (fd : FieldDefinition) (g : Field) : Prop := {
  fm_name : fld_name g = def_name fd;
  fm_labels : fld_labels g ≡ₚ def_labels fd;
  fm_optional : fld_is_optional g = def_is_optional fd;
  fm_unique : fld_is_unique g = def_is_unique fd;
  fm_default : def_default_value fd = None \/ fld_default g = def_default_value fd;
  fm_quiet : quiet -> fld_default g = def_default_value fd;
  fm_type : exists t, field_type fd = Ok t /\ Evolve.same_type ts (fld_type_id g) (wanted_type v ts t);
}.

Record stored_as (quiet : Prop) (v : string) (ts : TypeSystem) (candidates : list IndexCandidate) (tdef : AddTypeRequest)
    (o : ObjectType) : Prop := {
  sa_name : obj_name o = at_name tdef;
  sa_version : obj_version_id o = v;
  sa_fields : forall g, g ∈ obj_fields o -> exists fd, fd ∈ at_field_defs tdef /\ field_matches quiet v ts fd g;
  sa_all : forall fd, fd ∈ at_field_defs tdef -> exists g, g ∈ obj_fields o /\ fld_name g = def_name fd;
  sa_indexes : forall fs, fs ∈ idx_fields <$> obj_indexes o <->
    exists c, c ∈ candidates /\ ic_entity_name c = at_name tdef /\ ic_properties c = fs;
}.

Section Wanted.
Context (v : string) (ts : TypeSystem).

Lemma get_builtin_wanted : forall t ty, get_builtin ts t = Ok ty -> type_id_of ty = wanted_type v ts t.
Proof.
  fix IH 1. intros [| | | | |name|name|[[[t|]]|]] ty H; cbn in H; try done; try by injection H as <-.
  - apply map_err_ok in H. cbn. by rewrite H.
  - apply fmap_ok in H as (ty' & H & ->). cbn. by rewrite (IH t ty' H).
Qed.

Lemma resolve_field_type type_names new_types fd ty : new_types_ok v new_types ->
  resolve_field ts type_names new_types fd = Ok ty ->
  exists t, field_type fd = Ok t /\ type_id_of ty = wanted_type v ts t.
Proof.
  intros Hnt H. unfold resolve_field in H. apply bind_ok in H as (t & Ht & H). exists t. split; [done|].
  assert ((b ← is_builtin ts t; if (b : bool) then get_builtin ts t else
    match t with
    | TeEntity entity_name =>
        match new_types !! entity_name with
        | Some ty => Ok (TEntity ty)
        | None => bail "field type is neither a built-in nor a custom type"
        end
    | _ => bail "field is neither entity, entity id or be a builtin"
    end) = Ok ty -> type_id_of ty = wanted_type v ts t) as Hrest.
  { clear H. intros H. apply bind_ok in H as (b & Hb & H). destruct b; [by apply get_builtin_wanted|].
    destruct t as [| | | | |name|name|inner]; try done. cbn in Hb. injection Hb as Hb.
    destruct (new_types !! name) as [e|] eqn:He; [|done]. injection H as <-.
    destruct (Hnt name e He) as (o & -> & Hn & Ho). cbn. rewrite Hn, Ho.
    by destruct (lookup_builtin_type ts name). }
  destruct t; try (by apply Hrest). case_decide; [|done]. by injection H as <-.
Qed.

(** The field made for a definition. *)
Definition field_made (fd : FieldDefinition) (f : Field) : Prop :=
  fld_id f = None /\ fld_name f = def_name fd /\ fld_labels f = def_labels fd /\
  fld_is_optional f = def_is_optional fd /\ fld_is_unique f = def_is_unique fd /\
  fld_default f = def_default_value fd /\ fld_version_id f = v /\
  fld_effective_default f = effective (fld_type_id f) (fld_default f) /\
  exists t, field_type fd = Ok t /\ fld_type_id f = wanted_type v ts t.

Lemma make_field_made type_names new_types fd f : new_types_ok v new_types ->
  make_field ts v type_names new_types fd = Ok f -> field_made fd f.
Proof.
  intros Hnt H. unfold make_field in H. apply bind_ok in H as (ty & Hty & H).
  destruct (resolve_field_type _ _ _ _ Hnt Hty) as (t & Ht & Hid).
  apply bind_ok in H as (desc & [= <-] & [= <-]). unfold field_made, Field_new. cbn.
  repeat split; try done; [|by exists t]. by rewrite effective_type_id.
Qed.

Lemma made_object uuid type_names indexes tdef ty : made ts type_names uuid v indexes tdef ty ->
  obj_name ty = at_name tdef /\ obj_version_id ty = v /\ Forall2 field_made (at_field_defs tdef) (obj_fields ty) /\
  obj_indexes ty = default [] (indexes !! at_name tdef).
Proof.
  intros (nt & Hnt & (fields & Hf & _ & ->)%make_type_object). cbn. split; [done|split; [done|split; [|done]]].
  apply mapM_ok in Hf. eapply Forall2_impl; [exact Hf|]. intros fd f. by apply make_field_made.
Qed.

Lemma aggregate_elem candidates n i :
  i ∈ default [] (aggregate_indexes candidates !! n) <->
  exists c, c ∈ candidates /\ ic_entity_name c = n /\ i = DbIndex_new_from_fields (ic_properties c).
Proof.
  unfold aggregate_indexes.
  enough (forall (m : gmap string (list DbIndex)), i ∈ default [] (foldl (fun index_map candidate =>
    let idx := DbIndex_new_from_fields (ic_properties candidate) in
    match index_map !! ic_entity_name candidate with
    | Some type_indexes => <[ic_entity_name candidate := type_indexes ++ [idx]]> index_map
    | None => <[ic_entity_name candidate := [idx]]> index_map
    end) m candidates !! n) <-> i ∈ default [] (m !! n) \/
    exists c, c ∈ candidates /\ ic_entity_name c = n /\ i = DbIndex_new_from_fields (ic_properties c)) as H.
  { rewrite H, lookup_empty. cbn. split; [intros [Hn|?]; [by apply not_elem_of_nil in Hn|done]|by right]. }
  induction candidates as [|c candidates IH]; intros m; cbn.
  { split; [by left|]. intros [H|(c & Hc & _)]; [done|by apply not_elem_of_nil in Hc]. }
  rewrite IH. clear IH.
  assert (i ∈ default [] ((match m !! ic_entity_name c with
      | Some type_indexes => <[ic_entity_name c := type_indexes ++ [DbIndex_new_from_fields (ic_properties c)]]> m
      | None => <[ic_entity_name c := [DbIndex_new_from_fields (ic_properties c)]]> m
      end) !! n) <-> i ∈ default [] (m !! n) \/ (ic_entity_name c = n /\ i = DbIndex_new_from_fields (ic_properties c)))
    as ->.
  { destruct (decide (ic_entity_name c = n)) as [<-|Hne].
    - destruct (m !! ic_entity_name c); rewrite lookup_insert_eq; cbn; rewrite ?elem_of_app, ?list_elem_of_singleton;
        [tauto|]. split; [by right|]. intros [H|[_ ->]]; [by apply not_elem_of_nil in H|done].
    - destruct (m !! ic_entity_name c); rewrite lookup_insert_ne by done; tauto. }
  split.
  - intros [[H|[Hn Hi]]|(c' & Hc & Hn & Hi)]; [by left|right; exists c; split; [by left|done]|].
    right. exists c'. split; [by right|done].
  - intros [H|(c' & [->|Hc]%elem_of_cons & Hn & Hi)]; [by left; left|by left; right|right; by exists c'].
Qed.

(** A stored type that describes the built one is what was asked for. *)
Lemma describes_stored_as quiet uuid type_names candidates tdef ty o :
  made ts type_names uuid v (aggregate_indexes candidates) tdef ty -> obj_version_id o = v ->
  describes_type quiet ts o ty -> stored_as quiet v ts candidates tdef o.
Proof.
  intros (Hn & Hv & H2 & Hi)%made_object Ho [D1 D2 D3 D4]. split.
  - unfold persisted_name in D1. rewrite Ho, Hv in D1. rewrite <- Hn.
    apply (inj (String.append v)) in D1. by injection D1.
  - done.
  - intros g (f & Hf & [(S1 & _ & S3 & S4 & S5 & S6) S2 Hq])%D2. cbn in *. apply field_map_get in Hf as [Hin _].
    apply list_elem_of_lookup in Hin as [k Hk]. destruct (Forall2_lookup_r _ _ _ _ _ H2 Hk) as (fd & Hfd & Hm).
    destruct Hm as (_ & M1 & M2 & M3 & M4 & M5 & _ & _ & t & Ht & M6).
    exists fd. split; [by eapply list_elem_of_lookup_2|].
    split; rewrite <- ?M5; try congruence; try done. exists t. by rewrite <- M6.
  - intros fd [k Hk]%list_elem_of_lookup. destruct (Forall2_lookup_l _ _ _ _ _ H2 Hk) as (f & Hf & _ & M1 & _).
    assert (is_Some (alist_get (fld_name f) (field_map_from ty))) as [f' Hf'].
    { destruct (alist_get (fld_name f) (field_map_from ty)) eqn:E; [by eexists|]. exfalso.
      apply alist_get_none in E. apply E. apply field_map_keys, list_elem_of_fmap_2. by eapply list_elem_of_lookup_2. }
    destruct (D3 _ _ Hf') as (g & Hg & Hgn). exists g. split; [done|congruence].
  - intros fs. rewrite D4, Hi. split.
    + intros (i & -> & (c & Hc & Hcn & ->)%aggregate_elem)%list_elem_of_fmap. by exists c.
    + intros (c & Hc & Hcn & <-). apply list_elem_of_fmap. exists (DbIndex_new_from_fields (ic_properties c)).
      split; [done|]. apply aggregate_elem. by exists c.
Qed.

(** Loading changes none of it. *)
Lemma stored_as_refreshed quiet candidates tdef o :
  stored_as quiet v ts candidates tdef o -> stored_as quiet v ts candidates tdef (refreshed o).
Proof.
  intros [S1 S2 S3 S4 S5]. split; [done|done| | |done].
  - cbn. intros g (f & -> & Hf)%list_elem_of_fmap. destruct (S3 f Hf) as (fd & Hfd & [? ? ? ? ? ? ?]).
    exists fd. split; [done|by split].
  - intros fd (f & Hf & Hn)%S4. exists (refreshed_field f). split; [by apply list_elem_of_fmap_2|done].
Qed.

Lemma stored_as_reread quiet candidates tdef o o' : same_object o o' ->
  stored_as quiet v ts candidates tdef o -> stored_as quiet v ts candidates tdef o'.
Proof.
  intros [_ Hn Hv _ _ (fs & Hp & H2) Hi] [S1 S2 S3 S4 S5]. split; [congruence|congruence| | |].
  - intros g [k Hk]%list_elem_of_lookup. destruct (Forall2_lookup_r _ _ _ _ _ H2 Hk) as (f & Hf & Hg & Hl).
    apply list_elem_of_lookup_2 in Hf. rewrite Hp in Hf. destruct (S3 f Hf) as (fd & Hfd & [F1 F2 F3 F4 F5 F6 F7]).
    exists fd. split; [done|]. rewrite Hg. split; try done. cbn. by rewrite Hl.
  - intros fd (f & Hf & Hname)%S4. rewrite <- Hp in Hf. apply list_elem_of_lookup in Hf as [k Hk].
    destruct (Forall2_lookup_l _ _ _ _ _ H2 Hk) as (g & Hg & Heq & _).
    exists g. split; [by eapply list_elem_of_lookup_2|]. by rewrite Heq.
  - intros fs'. rewrite <- S5. by rewrite Hi.
Qed.

End Wanted.

(** ** A request that can be loaded again *)

Record plain_request (v : string) (rq : ApplyRequest) : Prop := {
  pr_version : no_char "." v;
  pr_types : forall tdef, tdef ∈ rq_types rq -> no_char "." (at_name tdef) /\
    forall fd, fd ∈ at_field_defs tdef -> no_char "." (def_name fd);
  pr_indexes : forall c, c ∈ rq_index_candidates rq ->
    ic_properties c <> [] /\ Forall (no_char ";") (ic_properties c);
  pr_names : NoDup (at_name <$> rq_types rq);
}.

Section PlainRequest.
Context (v : string) (bt : BuiltinTypes) (Hbt : BuiltinTypes_new = Ok bt).

Lemma fresh_wf : ts_wf (TypeSystem_new bt v).
Proof. split; [done|]. intros n e. cbn. by rewrite lookup_empty. Qed.

Lemma get_builtin_known ts : builtin ts = bt ->
  forall t ty, get_builtin ts t = Ok ty -> builtin_type (TypeSystem_new bt v) ty.
Proof.
  intros Hts. fix IH 1. intros [| | | | |name|name|[[[t|]]|]] ty H; cbn in H; try done; try by injection H as <-.
  - apply map_err_ok in H. rewrite (lookup_builtin_type_ext ts (TypeSystem_new bt v)) in H by done.
    by apply (lookup_builtin_type_sound _ _ _ fresh_wf) in H as [_ H].
  - apply fmap_ok in H as (ty' & H & ->). cbn. by apply (IH t).
Qed.

(** The type of a field that was built is one of the version. *)
Lemma resolve_field_known ts type_names new_types fd ty : builtin ts = bt -> new_types_ok v new_types ->
  resolve_field ts type_names new_types fd = Ok ty ->
  match lookup_builtin_type (TypeSystem_new bt v) (type_id_name (type_id_of ty)) with
  | Ok t' => type_id_of t' = type_id_of ty
  | _ => type_id_of ty = IdEntity (type_id_name (type_id_of ty)) v
  end.
Proof.
  intros Hts Hnt H. rewrite type_id_of_name.
  assert (builtin_type (TypeSystem_new bt v) ty ->
    match lookup_builtin_type (TypeSystem_new bt v) (type_name ty) with
    | Ok t' => type_id_of t' = type_id_of ty
    | _ => type_id_of ty = IdEntity (type_name ty) v
    end) as Hknown by (intros Hb; by rewrite (lookup_builtin_type_name _ _ fresh_wf Hb)).
  unfold resolve_field in H. apply bind_ok in H as (t & _ & H).
  destruct (match t with TeEntityId _ => true | _ => false end) eqn:Hid.
  { destruct t; try done. case_decide; [|done]. injection H as <-. by apply Hknown. }
  assert ((b ← is_builtin ts t; if (b : bool) then get_builtin ts t else
    match t with
    | TeEntity entity_name =>
        match new_types !! entity_name with
        | Some ty => Ok (TEntity ty)
        | None => bail "field type is neither a built-in nor a custom type"
        end
    | _ => bail "field is neither entity, entity id or be a builtin"
    end) = Ok ty) as H' by (by destruct t).
  clear H. apply bind_ok in H' as (b & Hb & H). destruct b; [by apply Hknown; eapply get_builtin_known|].
  destruct t as [| | | | |name|name|inner]; try done. cbn in Hb. injection Hb as Hb.
  destruct (new_types !! name) as [e|] eqn:He; [|done]. injection H as <-.
  destruct (Hnt name e He) as (o & -> & Hn & Ho). cbn. rewrite Hn, Ho.
  rewrite (lookup_builtin_type_ext ts (TypeSystem_new bt v)) in Hb by done.
  by destruct (lookup_builtin_type _ name).
Qed.

Lemma made_keyed ts uuid type_names indexes tdef ty : builtin ts = bt ->
  (forall fd, fd ∈ at_field_defs tdef -> no_char "." (def_name fd)) ->
  made ts type_names uuid v indexes tdef ty -> keyed bt v ty.
Proof.
  intros Hts Hplain (nt & Hnt & (fields & Hf & _ & ->)%make_type_object). split; [done|]. cbn.
  apply mapM_ok in Hf. induction Hf as [|fd f fds fs Hfd _ IH]; [constructor|].
  constructor; [|apply IH; intros; apply Hplain; by right].
  unfold make_field in Hfd. apply bind_ok in Hfd as (t & Ht & H). injection H as <-.
  split; [apply Hplain; by left|split; [|done]]. by eapply resolve_field_known.
Qed.

(** What was stored for a request can be loaded. *)
Lemma described_loadable quiet ts uuid type_names rq tdef ty o : plain_request v rq -> tdef ∈ rq_types rq ->
  made ts type_names uuid v (aggregate_indexes (rq_index_candidates rq)) tdef ty ->
  describes_type quiet ts o ty -> keyed bt v o -> loadable_type bt (refreshed o).
Proof.
  intros [Pv Pt Pi _] Hin Hm Hd [Hov Hk].
  pose proof (describes_stored_as v ts quiet _ _ _ _ _ _ Hm Hov Hd) as [S1 _ _ _ _].
  destruct (Pt tdef Hin) as [Pn _]. apply refreshed_loadable; [split; by rewrite ?S1, ?Hov|by rewrite Hov|].
  apply Forall_forall. intros i Hi. destruct Hd as [_ _ D3 D4].
  assert (idx_fields i ∈ idx_fields <$> obj_indexes ty) as Hty by (apply D4; by apply list_elem_of_fmap_2).
  destruct Hm as (nt & _ & (fields & _ & Hix & ->)%make_type_object). cbn [obj_indexes] in Hty.
  apply list_elem_of_fmap in Hty as (j & Hij & Hj). rewrite Forall_forall in Hix. specialize (Hix j Hj).
  apply aggregate_elem in Hj as (c & Hc & _ & ->). unfold plain_index. rewrite Hij. destruct (Pi c Hc) as [P1 P2].
  split; [done|split; [done|]]. eapply Forall_impl; [exact Hix|]. intros n [->|Hn]; [by left|]. right.
  assert (is_Some (alist_get n (field_map_from {| obj_meta_id := None; obj_name := at_name tdef;
    obj_fields := fields; obj_indexes := default [] (aggregate_indexes (rq_index_candidates rq) !! at_name tdef);
    obj_chisel_id := the_chisel_id; obj_backing_table := no_backing_table (NewObject_new (uuid (at_name tdef)) (at_name tdef) v);
    obj_version_id := v |}))) as [f Hf].
  { destruct (alist_get n (field_map_from _)) eqn:E; [by eexists|]. exfalso.
    apply alist_get_none in E. apply E. by apply field_map_keys. }
  destruct (D3 n f Hf) as (g & Hg & <-). by apply list_elem_of_fmap_2.
Qed.

End PlainRequest.

(** ** Applying a request *)

Section Apply.
Context {GL : GraphLib} {LG : GraphLaws} {RO : RowOrder} {LR : RowOrderLaws} {ST : StoreText}.
Context {RL : RegexLib} {ML : MethodLib} {YL : YamlLib}.
Context {DM : Dominators} {BL : BoolLib} {SW : Swc} {SP : SwcParser}.
Context (typescript_policies : bool) (fuel : nat) (uuid : string -> string).

(** No field of a stored type gives up its default. *)
Definition gives_up_no_default (ts : TypeSystem) (types : list AddTypeRequest) : Prop :=
  forall tdef e fd f, tdef ∈ types -> custom_types ts !! at_name tdef = Some e -> fd ∈ at_field_defs tdef ->
    f ∈ obj_fields (object_type e) -> fld_name f = def_name fd -> def_default_value fd = None ->
    fld_default f = None.

Lemma step_keeps_defaults ts tables v names indexes types tdef ty old delta db tid :
  gives_up_no_default ts types -> tdef ∈ types -> stores db tid old ->
  step_ok ts tables names uuid v indexes (tdef, ty, Some (old, delta)) -> keeps_defaults old delta.
Proof.
  intros Hg Hin Hs [Hm (e & cnt & He & -> & _ & Hd)] d a f Hdin Ha Hnone Hf Hid.
  destruct (updated_id ts _ _ _ _ Hd d Hdin) as (f' & old & Hold & Hoid & Hname & Hget & Hu).
  assert (f = old) as -> by (eapply stored_id_inj; [exact Hs|done|done|congruence]).
  apply field_map_get in Hget as [Hf' _]. destruct (made_object _ _ _ _ _ _ _ Hm) as (_ & _ & H2 & _).
  apply list_elem_of_lookup in Hf' as [k Hk]. destruct (Forall2_lookup_r _ _ _ _ _ H2 Hk) as (fd & Hfd & Hmade).
  destruct Hmade as (_ & M1 & _ & _ & _ & M5 & _).
  apply (Hg tdef e fd old); try done; [by eapply list_elem_of_lookup_2|congruence|].
  pose proof (update_field_default _ _ _ _ _ _ Hu) as Hdef. rewrite Ha in Hdef. congruence.
Qed.

Lemma write_meta_types v info modules policies plan db db' tys : keeps db tys ->
  write_meta v info modules policies plan db = Ok db' ->
  exists db1, keeps db1 tys /\ write_types plan db1 = Ok db'.
Proof.
  intros Hk H. unfold write_meta in H. apply bind_ok in H as (db1 & H1 & H).
  unfold persist_policy_sources in H1. apply bind_ok in H1 as (json & _ & [= <-]).
  apply bind_ok in H as (db2 & H2 & H). unfold persist_modules in H2.
  apply bind_ok in H2 as (stored & _ & [= <-]). eexists. split; [|exact H].
  by do 4 apply set_version_tables_keeps.
Qed.

Lemma steps_quiet ts tables v names indexes types (steps : list (AddTypeRequest * ObjectType * option (ObjectType * ObjectDelta))) db others :
  keeps db (others ++ objects ts) -> Forall (step_ok ts tables names uuid v indexes) steps ->
  Forall (fun st => st.1.1 ∈ types) steps -> quiet_steps (gives_up_no_default ts types) steps.
Proof.
  intros Hk Hs Ht Hg. rewrite Forall_forall in Hs, Ht. apply Forall_forall.
  intros [[tdef ty] [[old delta]|]] Hin; [|done]. cbn.
  pose proof (Hs _ Hin) as [_ (e & cnt & He & -> & _)].
  destruct (keeps_id db _ (object_type e) Hk) as (tid & _ & Hst).
  { apply elem_of_app. right. apply list_elem_of_fmap. exists (at_name tdef, e).
    split; [done|]. by apply elem_of_map_to_list. }
  eapply (step_keeps_defaults ts); [exact Hg|by eapply (Ht _ Hin)|exact Hst|by apply Hs].
Qed.

(** The metadata after a request: the types of the version are those asked for. *)
Lemma meta_written bt rq v info modules policies plan ts tables db db' others : BuiltinTypes_new = Ok bt ->
  plain_request v rq -> reflects bt others v ts db -> make_plan uuid ts tables v rq = Ok plan ->
  write_meta v info modules policies plan db = Ok db' ->
  exists tys types, keeps db' (others ++ tys) /\ types ≡ₚ rq_types rq /\
    Forall2 (stored_as (gives_up_no_default ts (rq_types rq)) v ts (rq_index_candidates rq)) types tys /\
    Forall (fun o => loadable_type bt (refreshed o)) tys.
Proof.
  intros Hbt Hpr Hrf Hplan Hmeta. pose proof (pr_names _ _ Hpr) as Hnd.
  destruct (make_plan_ok _ _ _ _ _ _ Hnd Hplan) as (steps & Hp & Hs & Hi & Hu & Hr & _).
  destruct (write_meta_types _ _ _ _ _ _ _ _ (rf_keeps _ _ _ _ _ Hrf) Hmeta) as (db1 & Hk1 & Hw).
  assert (Forall (fun st => st.1.1 ∈ rq_types rq) steps) as Htdef.
  { apply Forall_forall. intros st Hin. rewrite <- Hp. by do 2 apply (list_elem_of_fmap_2 fst) in Hin. }
  assert (Forall (fun st => made ts (at_name <$> rq_types rq) uuid v
    (aggregate_indexes (rq_index_candidates rq)) st.1.1 st.1.2) steps) as Hm
    by (eapply Forall_impl; [exact Hs|]; by intros [[? ?] ?] [Hm _]).
  assert (steps_keyed bt ts v steps) as Hkeys.
  { split.
    - rewrite Forall_forall in Htdef, Hm. apply Forall_forall. intros st Hin.
      eapply made_keyed; [exact Hbt|apply Hrf| |by apply Hm]. intros fd. by apply Hpr, Htdef.
    - intros n e He. pose proof (rf_types _ _ _ _ _ Hrf n e He) as (o & -> & _ & Ho & _). split; [done|].
      cbn. rewrite <- Ho. apply loadable_keys. pose proof (rf_loadable _ _ _ _ _ Hrf) as Hl.
      rewrite Forall_forall in Hl. apply Hl, elem_of_app. right.
      apply list_elem_of_fmap. exists (n, Custom o). split; [done|by apply elem_of_map_to_list]. }
  destruct (plan_written uuid bt (gives_up_no_default ts (rq_types rq)) ts tables v (at_name <$> rq_types rq)
    (aggregate_indexes (rq_index_candidates rq)) others plan steps db1 db')
    as (tys & built & Hk' & Hb & Hdesc & Hkey); try done; [by rewrite Hp..|by eapply steps_quiet|].
  rewrite <- list_fmap_compose in Hb. apply Permutation_map_inv in Hb as (steps' & -> & Hperm).
  exists tys, (steps'.*1.*1). split; [done|]. split; [by rewrite <- Hperm|]. rewrite Hperm in Hm, Htdef.
  clear -Hdesc Hm Htdef Hkey Hpr. revert tys Hdesc Hkey.
  induction Hm as [|st steps' Hm _ IH]; intros tys Hdesc Hkey; cbn in *; inversion Hdesc as [|o ? tys' ? Ho Hd]; subst; [by split|].
  apply Forall_cons in Hkey as [Hk Hkey], Htdef as [Ht Htdef].
  destruct (IH Htdef tys' Hd Hkey) as [IH1 IH2]. split; constructor; [|done| |done].
  - eapply describes_stored_as; [exact Hm|apply Hk|done].
  - by eapply described_loadable.
Qed.

(** Read again, they are the type system. *)
Lemma written_reflects bt rq v info modules policies plan ts tables db db' ts' others : BuiltinTypes_new = Ok bt ->
  plain_request v rq -> reflects bt others v ts db -> make_plan uuid ts tables v rq = Ok plan ->
  write_meta v info modules policies plan db = Ok db' -> reload bt v db' = Ok ts' ->
  reflects bt others v ts' db' /\ exists types, types ≡ₚ rq_types rq /\
    Forall2 (stored_as (gives_up_no_default ts (rq_types rq)) v ts (rq_index_candidates rq)) types (objects ts').
Proof.
  intros Hbt Hpr Hrf Hplan Hmeta Hre.
  destruct (meta_written _ _ _ _ _ _ _ _ _ _ _ _ Hbt Hpr Hrf Hplan Hmeta) as (tys & types & Hk & Hp & H2 & Hl).
  unfold reload in Hre. apply bind_ok in Hre as (tss & Hload & [= <-]).
  assert (Forall2 (stored_as (gives_up_no_default ts (rq_types rq)) v ts (rq_index_candidates rq)) types
    (refreshed <$> tys)) as H2'.
  { apply Forall2_fmap_r. eapply Forall2_impl; [exact H2|]. intros *. apply stored_as_refreshed. }
  destruct (load_reflects bt db' others (refreshed <$> tys) v tss) as (Hrf' & tys' & Hperm & Hsame).
  - by apply keeps_refreshed.
  - apply Forall_app. split; [|by apply Forall_fmap].
    pose proof (rf_loadable _ _ _ _ _ Hrf) as Hlo. by apply Forall_app in Hlo as [? _].
  - apply Hrf.
  - clear -H2'. induction H2' as [|tdef o types l [_ Ho _ _ _] _ IH]; by constructor.
  - done.
  - split; [done|]. apply Forall2_flip in H2'. destruct (Permutation_Forall2 (symmetry Hperm) H2') as (types' & Hp' & H2'').
    exists types'. split; [by rewrite <- Hp', Hp|]. clear -H2'' Hsame. revert types' H2''.
    induction Hsame as [|o o' tys' l Hs _ IH]; intros types' H2; inversion H2; subst; constructor.
    + by eapply stored_as_reread.
    + by apply IH.
Qed.

(** C23: Applying a version keeps the memory and the metadata together: if the
    type system of the version represents exactly the stored types of the
    version, and other versions have the types [others], then this is so after
    [apply], whether it succeeds or fails, unless the metadata it wrote cannot
    be loaded again. *)
Theorem apply_reflects bt rq v info modules s s' r others : BuiltinTypes_new = Ok bt -> plain_request v rq ->
  reflects bt others v (as_type_system s) (as_meta s) ->
  apply typescript_policies fuel uuid bt rq v info modules s = (s', r) ->
  is_ok (reload bt v (as_meta s')) = true ->
  reflects bt others v (as_type_system s') (as_meta s').
Proof.
  intros Hbt Hpr Hrf [[-> _]|(plan & policies & Hplan & _ & Hmeta & Hcase)]%apply_cases Hok; [done|].
  destruct Hcase as [[Hbad _]|[Hre _]]; [congruence|]. by eapply written_reflects.
Qed.

(** C12: A version that is applied stores what was asked for: after a request
    that succeeds, the types of the version - in memory and in the metadata -
    are those of the request, each with its fields (name, type, labels,
    optionality, uniqueness) and the indexes its queries want, whatever types
    the version had; a default is the one asked for, except that one the field
    had may stay when the request has none.  The types of other versions are
    as they were. *)
Theorem apply_stores bt rq v info modules s s' r others : BuiltinTypes_new = Ok bt -> plain_request v rq ->
  reflects bt others v (as_type_system s) (as_meta s) ->
  apply typescript_policies fuel uuid bt rq v info modules s = (s', Ok r) ->
  keeps (as_meta s') (others ++ objects (as_type_system s')) /\
  exists types, types ≡ₚ rq_types rq /\
    Forall2 (stored_as (gives_up_no_default (as_type_system s) (rq_types rq)) v (as_type_system s)
      (rq_index_candidates rq)) types (objects (as_type_system s')).
Proof.
  intros Hbt Hpr Hrf [[_ Hbad]|(plan & policies & Hplan & _ & Hmeta & Hcase)]%apply_cases; [done|].
  destruct Hcase as [(_ & _ & _ & Hbad)|[Hre _]]; [done|].
  destruct (written_reflects _ _ _ _ _ _ _ _ _ _ _ _ _ Hbt Hpr Hrf Hplan Hmeta Hre) as [Hrf' Htypes].
  split; [apply Hrf'|done].
Qed.

End Apply.

(** ** Witnesses *)

Module StoreSample.

Export ApplySample RequestSample.

Lemma start_reflects : reflects builtins [] "dev" (as_type_system start) (as_meta start).
Proof.
  split; [done|done| |exact MetaSample.keeps_empty|constructor|constructor].
  intros n e. cbn. by rewrite lookup_empty.
Qed.

Ltac plain_name := intros H; vm_compute in H; decompose sum H; discriminate.

Lemma blog_plain : plain_request "dev" blog.
Proof.
  split.
  - plain_name.
  - intros tdef Hin. cbn in Hin. repeat (apply elem_of_cons in Hin as [->|Hin]); [| |by apply not_elem_of_nil in Hin];
      (split; [plain_name|]); intros fd Hfd; cbn in Hfd;
      repeat (apply elem_of_cons in Hfd as [->|Hfd]; [plain_name|]); by apply not_elem_of_nil in Hfd.
  - intros c ->%list_elem_of_singleton. split; [done|]. repeat constructor; plain_name.
  - apply (bool_decide_unpack _). vm_compute. exact I.
Qed.

(** What [run] computes, read from its parts. *)
Definition types_in (s : ApplyState) : list (string * list string) :=
  (fun o => (obj_name o, fld_name <$> obj_fields o)) <$> objects (as_type_system s).

End StoreSample.

#[local] Existing Instance MetaSample.order.
#[local] Existing Instance MetaSample.order_laws.
#[local] Existing Instance GraphSample.graph_lib.
#[local] Existing Instance GraphSample.graph_laws.
Import StoreSample.

Lemma apply_reflects_witness :
  let s' := (run blog RequestSample.start).1 in
  reflects builtins [] "dev" (as_type_system s') (as_meta s') /\
  types_in s' = [("Post", ["author"; "text"]); ("Person", ["name"])].
Proof.
  intros s'. split.
  - apply (apply_reflects true 100 uuid builtins blog "dev" info
      {["file:///__root.ts" := "export default {}"]} RequestSample.start s' (run blog RequestSample.start).2 []).
    + exact builtins_new.
    + exact blog_plain.
    + exact start_reflects.
    + unfold s', run. apply surjective_pairing.
    + vm_compute. reflexivity.
  - vm_compute. reflexivity.
Defined.

Lemma apply_stores_witness :
  let s' := (run blog RequestSample.start).1 in
  exists types, types ≡ₚ rq_types blog /\
    Forall2 (stored_as (gives_up_no_default (as_type_system RequestSample.start) (rq_types blog)) "dev"
      (as_type_system RequestSample.start) (rq_index_candidates blog)) types (objects (as_type_system s')).
Proof.
  intros s'. destruct ((run blog RequestSample.start).2) as [r|e|w] eqn:Hr; [|vm_compute in Hr; discriminate Hr..].
  refine (proj2 (apply_stores true 100 uuid builtins blog "dev" info
    {["file:///__root.ts" := "export default {}"]} RequestSample.start s' r [] builtins_new blog_plain start_reflects _)).
  rewrite <- Hr. exact (surjective_pairing (run blog RequestSample.start)).
Defined.
