(* ===== verification/Rpc.v ===== *)
(** * The control plane ([server/src/rpc.rs], [server.rs], [trunk.rs])

    The calls that apply, delete, populate and describe versions, and the start
    of the server, on the state they share: the type systems in memory, the
    trunk of running versions, the metadata and the tables of the data. *)

From stdpp Require Import sorting.
From S2P Require Import Prelude Json Ident Types Builtin TypeSystem Policies EntityValue Query Engine PolicyRules ControlFlow Meta Apply.

(** ** State *)

Section Rpc.
Context {GL : GraphLib} {RO : RowOrder} {ST : StoreText}.
Context {RL : RegexLib} {ML : MethodLib} {YL : YamlLib}.
Context {DM : Dominators} {BL : BoolLib} {SW : Swc} {SP : SwcParser}.

(** A running version ([version.rs]). *)
Record Version := {
  v_version_id : string;
  v_info : VersionInfo;
  v_type_system : TypeSystem;
  v_policy_system : PolicySystem;
  v_policy_sources : gmap string string;
}.

(** The workers of a version, given its modules, become ready or not
    ([version::spawn] and [wait_until_ready]); a canary only tries the code. *)
Context (wait_until_ready : Version -> gmap string string -> bool -> result unit).
Context (typescript_policies : bool) (fuel : nat) (uuid : string -> string).
Context (builtin_types : BuiltinTypes).

Record Server := {
  type_systems : gmap string TypeSystem;
  trunk : gmap string Version;
  meta : MetaDb;
  tables : Tables;
}.

Definition set_trunk (t : gmap string Version) (s : Server) : Server :=
  {| type_systems := type_systems s; trunk := t; meta := meta s; tables := tables s |}.

(** ** The trunk *)

Definition list_versions (t : gmap string Version) : list Version := in_order (map_to_list t).*2.
Definition get_version (t : gmap string Version) (version_id : string) : option Version := t !! version_id.
Definition add_version (v : Version) (t : gmap string Version) : gmap string Version :=
  <[v_version_id v := v]> t.
Definition remove_version (version_id : string) (t : gmap string Version)
    : option Version * gmap string Version := (t !! version_id, delete version_id t).

(** ** Apply *)

Record ApplyResponse := { resp_types : list string; resp_labels : list string }.

(** [collect] into a [HashMap]: a later module replaces one of its URL. *)
Definition collect_modules (modules : list (string * string)) : gmap string string :=
  foldl (fun m '(url, code) => <[url := code]> m) ∅ modules.

Definition validate_modules (version_id : string) (info : VersionInfo) (modules : gmap string string)
    : result unit :=
  wait_until_ready
    {| v_version_id := version_id; v_info := info;
       v_type_system := TypeSystem_new builtin_types version_id;
       v_policy_system := PolicySystem_default; v_policy_sources := ∅ |} modules true.

(** The state [Apply.apply] works on: the type system of the version is
    [entry(version_id).or_insert_with(...)]. *)
Definition apply_state (s : Server) (version_id : string) : ApplyState :=
  {| as_type_system := version_entry builtin_types (type_systems s) version_id;
     as_meta := meta s; as_tables := tables s |}.
Definition from_apply_state (version_id : string) (a : ApplyState) (s : Server) : Server :=
  {| type_systems := <[version_id := as_type_system a]> (type_systems s); trunk := trunk s;
     meta := as_meta a; tables := as_tables a |}.

Definition apply (request : ApplyRequest) (s : Server) : Server * result ApplyResponse :=
  attempt s (validate_version_id (rq_version_id request)) (fun version_id =>
  let info := {| vi_name := rq_app_name request; vi_tag := rq_version_tag request |} in
  let modules := collect_modules (rq_modules request) in
  attempt s (with_context (validate_modules version_id info modules)
              "The provided code does not seem to work") (fun _ =>
  let '(a, result) := Apply.apply typescript_policies fuel uuid builtin_types request version_id info modules
                        (apply_state s version_id) in
  let s := from_apply_state version_id a s in
  attempt s result (fun result =>
  let version :=
    {| v_version_id := version_id; v_info := info; v_type_system := ar_type_system result;
       v_policy_system := ar_policy_system result; v_policy_sources := ar_policy_sources result |} in
  attempt s (with_context (wait_until_ready version modules false)
              "The version did not start up correcly, but the database has already been modified")
    (fun _ =>
  (set_trunk (add_version version (trunk s)) s,
   Ok {| resp_types := ar_type_names_user_order result; resp_labels := ar_labels result |}))))).

(** ** Delete *)

Definition delete (version_id : string) (s : Server) : Server * result string :=
  match remove_version version_id (trunk s) with
  | (None, _) => (s, bail "Version does not exist")
  | (Some version, trunk) =>
      let s := set_trunk trunk s in
      let entities_to_remove :=
        (fun e => object_type e.2) <$> in_order (map_to_list (custom_types (v_type_system version))) in
      attempt s (foldM remove_type (delete_policy_version (v_version_id version) (meta s)) entities_to_remove)
        (fun meta =>
      let s := {| type_systems := type_systems s; trunk := trunk; meta := meta; tables := tables s |} in
      attempt s (run_transaction (tables s) (exec_each drop_table entities_to_remove)) (fun tables =>
      ({| type_systems := type_systems s; trunk := trunk; meta := meta; tables := tables |},
       Ok ("Deleted " +:+ quoted (v_version_id version)))))
  end.

(** ** Populate *)

Section Populate.
Context {FT : FloatText} {JT : JsonText} {UU : UuidLib} {BT : BytesText}.
(** The identifiers drawn for a row that has none. *)
Context (new_v4 : EntityMap -> list string -> string).
(** The rows of a type, each read or failed. *)
Context (query_rows : ObjectType -> list (result EntityMap)).

(** The insertions made, and how it ended. *)
Abbreviation inserted := (list SqlWithArguments * result unit)%type.

(** One type; its insertions are rolled back when it fails. *)
Definition populate_type (ty_obj ty_obj_to : ObjectType) : result (list SqlWithArguments) :=
  _ ← with_context (check_if_safe_to_populate ty_obj_to ty_obj) "Not possible to evolve type";
  mapM (fun row =>
    row ← with_context row "population can't proceed as reading from the underlying database failed";
    prepare_insertion_shallow (new_v4 row) ty_obj_to row) (query_rows ty_obj).

Fixpoint populate_each (to : TypeSystem) (entries : list (string * Entity)) : inserted :=
  match entries with
  | [] => ([], Ok ())
  | (ty_name, ty_obj) :: entries =>
      match custom_types to !! ty_name with
      | None => populate_each to entries
      | Some ty_obj_to =>
          match populate_type (object_type ty_obj) (object_type ty_obj_to) with
          | Ok queries => let '(rest, r) := populate_each to entries in (queries ++ rest, r)
          | Err e => ([], Err e)
          | Panic w => ([], Panic w)
          end
      end
  end.

(** [TypeSystem::populate_types] *)
Definition populate_types (to from : TypeSystem) : inserted :=
  populate_each to (in_order (map_to_list (custom_types from))).

Definition populate (to_version_id from_version_id : string) (s : Server)
    : list SqlWithArguments * result string :=
  attempt [] (option_context (get_version (trunk s) to_version_id) "To-version does not exist")
    (fun to_version =>
  attempt [] (option_context (get_version (trunk s) from_version_id) "From-version does not exist")
    (fun from_version =>
  let '(queries, r) := populate_types (v_type_system to_version) (v_type_system from_version) in
  (queries, _ ← r; Ok "OK"))).
End Populate.

(** ** Describe *)

Record TypeDefinition := { td_name : string; td_field_defs : list FieldDefinition }.
Record VersionDefinition := {
  vd_version_id : string;
  vd_type_defs : list TypeDefinition;
  vd_label_policy_defs : list string;
}.

Definition describe_field (ts : TypeSystem) (field : Field) : result FieldDefinition :=
  field_type ← unwrap (ok_option (get ts (fld_type_id field))) "called `Result::unwrap()` on an `Err` value";
  Ok {| def_name := fld_name field;
        def_field_type := Some (type_msg_of field_type);
        def_labels := fld_labels field;
        def_is_optional := fld_is_optional field;
        def_default_value := user_provided_default field;
        def_is_unique := fld_is_unique field |}.

Definition describe_type (ts : TypeSystem) (entity : Entity) : result TypeDefinition :=
  field_defs ← mapM (describe_field ts) (all_fields (object_type entity));
  Ok {| td_name := obj_name (object_type entity); td_field_defs := field_defs |}.

Definition def_le (x y : TypeDefinition) : Prop := str_le (td_name x) (td_name y).
#[export] Instance def_le_dec : RelDecision def_le.
Proof. intros x y. unfold def_le. apply _. Defined.

Definition describe_version (version : Version) : result VersionDefinition :=
  let ts := v_type_system version in
  type_defs ← mapM (describe_type ts) (in_order (map_to_list (custom_types ts))).*2;
  Ok {| vd_version_id := v_version_id version;
        vd_type_defs := merge_sort def_le type_defs;
        vd_label_policy_defs :=
          str_sort (in_order (map_to_list (labels (v_policy_system version)))).*1 |}.

Definition describe (s : Server) : result (list VersionDefinition) :=
  mapM describe_version (list_versions (trunk s)).

(** ** Starting the server *)

Definition root_url : string := "file:///__root.ts".

(** One turn of the loop of [start_versions]. *)
Definition start_version (tss : gmap string TypeSystem) (db : MetaDb) (t : gmap string Version)
    (entry : string * VersionInfo) : result (gmap string Version) :=
  let '(version_id, info) := entry in
  let type_system := version_entry builtin_types tss version_id in
  policy_system ← load_policy_system version_id db;
  let modules := load_modules version_id db in
  policy_sources ← load_policy_sources version_id db;
  if negb (bool_decide (is_Some (modules !! root_url))) then Ok t
  else
    Ok (add_version
          {| v_version_id := version_id; v_info := info; v_type_system := type_system;
             v_policy_system := policy_system; v_policy_sources := policy_sources |} t).

Definition start_versions (tss : gmap string TypeSystem) (db : MetaDb) (t : gmap string Version)
    : result (gmap string Version) :=
  foldM (start_version tss db) t (in_order (map_to_list (load_version_infos db))).

Definition builtin_version (tag : string) : Version :=
  {| v_version_id := "__chiselstrike";
     v_info := {| vi_name := "ChiselStrike Internal API"; vi_tag := tag |};
     v_type_system := TypeSystem_new builtin_types "__chiselstrike";
     v_policy_system := PolicySystem_default; v_policy_sources := ∅ |}.

(** What [make_server] and [run] do with the metadata they find: the types are
    loaded, the versions started, then the one of the built-in routes. *)
Definition start (tag : string) (db : MetaDb) (tables : Tables) : result Server :=
  tss ← load_type_systems builtin_types db;
  t ← start_versions tss db ∅;
  Ok {| type_systems := tss; trunk := add_version (builtin_version tag) t; meta := db; tables := tables |}.

End Rpc.
