(* ===== verification/RpcSpec.v ===== *)
(** * What the control plane keeps

    A version that was applied is there when the server starts again; what a
    start finds in the metadata, and what deleting a version leaves. *)

From S2P Require Import Prelude Json Ident Types Builtin TypeSystem Policies EntityValue Query Engine EngineSpec PolicyRules ControlFlow Meta MetaSpec MetaLoadSpec MetaStoreSpec Apply SortSpec ApplySample ApplySpec Rpc.

(** An empty policy file has no routes and no labels: a document without
    content is read as a mapping without keys. *)
Class YamlLaws {YL : YamlLib} := {
  yaml_empty : yaml_from_str "" = Ok {| yp_routes := None; yp_endpoints := None; yp_labels := None |};
}.

(** ** Maps read from rows *)

Lemma foldl_insert {A} (l : list (string * A)) (m : gmap string A) : NoDup l.*1 ->
  foldl (fun m '(k, a) => <[k := a]> m) m l = list_to_map l ∪ m.
Proof.
  revert m. induction l as [|[k a] l IH]; intros m Hnd; cbn [foldl]; [simpl; by rewrite map_empty_union|].
  apply NoDup_cons in Hnd as [Hk Hnd]. rewrite IH by done. cbn. apply map_eq. intros k'.
  rewrite !lookup_union. destruct (decide (k' = k)) as [->|Hne].
  - rewrite !lookup_insert_eq, not_elem_of_list_to_map_1 by done. by destruct (m !! k).
  - by rewrite !lookup_insert_ne.
Qed.

Section Server.
Context {GL : GraphLib} {LG : GraphLaws} {RO : RowOrder} {LR : RowOrderLaws}.
Context {ST : StoreText} {SL : StoreTextLaws}.
Context {RL : RegexLib} {ML : MethodLib} {YL : YamlLib} {YS : YamlLaws}.
Context {DM : Dominators} {BL : BoolLib} {SW : Swc} {SP : SwcParser}.

Lemma rows_of_map {A} (m : gmap string A) : list_to_map (in_order (map_to_list m)) = m.
Proof.
  rewrite <- (list_to_map_to_list m) at 2. apply list_to_map_proper; [|by apply in_order_perm].
  rewrite (in_order_perm _). apply NoDup_fst_map_to_list.
Qed.

Lemma rows_keys {A} (m : gmap string A) : NoDup (in_order (map_to_list m)).*1.
Proof. rewrite (in_order_perm _). apply NoDup_fst_map_to_list. Qed.

Lemma load_version_infos_all db : load_version_infos db = db_api_info db.
Proof.
  unfold load_version_infos. rewrite foldl_insert by apply rows_keys.
  by rewrite rows_of_map, map_union_empty.
Qed.

(** ** The modules of a version *)

Lemma persist_modules_lookup v m db db' :
  persist_modules v (in_order (map_to_list m)) db = Ok db' ->
  version_tables db' = (db_api_info db, db_modules db', db_policies db, db_policy_store db) /\
  forall v' url, db_modules db' !! (v', url) = if decide (v' = v) then m !! url else db_modules db !! (v', url).
Proof.
  unfold persist_modules. intros H. apply bind_ok in H as (stored & H & [= <-]). split; [done|]. cbn.
  rewrite <- (rows_of_map m).
  refine (foldM_inv _ (fun done stored => forall v' url, stored !! (v', url) =
    if decide (v' = v) then (list_to_map done : gmap string string) !! url else db_modules db !! (v', url))
    _ _ _ _ _ H).
  - intros v' url. cbn. rewrite lookup_empty, map_lookup_filter. destruct (db_modules db !! (v', url)); cbn;
      repeat case_guard; repeat case_decide; done.
  - clear H. intros done [url code] s1 s2 Hs H. apply bind_unit_ok in H as [Hc [= <-]].
    apply constraint_ok, bool_decide_eq_true in Hc. intros v' url'. rewrite list_to_map_app, lookup_union. cbn.
    specialize (Hs v' url') as Hs'. destruct (decide ((v', url') = (v, url))) as [[= -> ->]|Hne].
    + rewrite lookup_insert_eq, decide_True by done. rewrite Hs, decide_True in Hc by done. by rewrite Hc, lookup_insert_eq.
    + rewrite lookup_insert_ne by congruence. rewrite Hs'. case_decide as Hv; [|done]. subst v'.
      rewrite lookup_insert_ne, lookup_empty by congruence. by destruct (_ !! url').
Qed.

Lemma load_modules_lookup v db url : load_modules v db !! url = db_modules db !! (v, url).
Proof.
  unfold load_modules. set (rows := in_order _).
  assert (forall m, foldl (fun modules '(_, url, code) => <[url := code]> modules) m rows =
    foldl (fun m '(k, a) => <[k := a]> m) m ((fun r : string * string * string => (r.1.2, r.2)) <$> rows)) as ->.
  { induction rows as [|[[? ?] ?] rows IH]; intros m; cbn; [done|apply IH]. }
  assert (forall r, r ∈ rows <-> r.1.1 = v /\ db_modules db !! r.1 = Some r.2) as Hr.
  { intros [k c]. unfold rows. by rewrite (in_order_perm _), list_elem_of_filter, elem_of_map_to_list. }
  assert (NoDup ((fun r : string * string * string => (r.1.2, r.2)) <$> rows).*1) as Hnd.
  { rewrite <- list_fmap_compose. apply NoDup_fmap_2_strong.
    - intros [[v1 u1] c1] [[v2 u2] c2] [? H1]%Hr [? H2]%Hr ?. cbn in *. subst. congruence.
    - unfold rows. rewrite (in_order_perm _). apply NoDup_filter, NoDup_map_to_list. }
  rewrite foldl_insert, map_union_empty by done. apply option_eq. intros code.
  rewrite <- elem_of_list_to_map, list_elem_of_fmap by done. split.
  - intros ([[v' u'] c'] & Heq & Hin). apply Hr in Hin as [Hv H]. cbn in *. congruence.
  - intros H. exists (v, url, code). split; [done|]. by apply Hr.
Qed.

(** ** The rows of a version *)

Context (typescript_policies : bool) (fuel : nat) (uuid : string -> string) (builtin_types : BuiltinTypes).

Lemma from_yaml_empty : from_yaml "" = Ok PolicySystem_default.
Proof. unfold from_yaml. rewrite yaml_empty. reflexivity. Qed.

Lemma parse_policies_yaml request p : parse_policies typescript_policies fuel request = Ok p ->
  from_yaml (pp_policy_system p).2 = Ok (pp_policy_system p).1.
Proof.
  unfold parse_policies. intros H. apply bind_ok in H as ([system sources] & H & [= <-]). cbn.
  assert (forall sys cfg, system = Some (sys, cfg) -> from_yaml cfg = Ok sys) as Hs.
  { refine (foldM_inv _ (fun _ s => forall sys cfg, s.1 = Some (sys, cfg) -> from_yaml cfg = Ok sys)
      _ (None, ∅) (system, sources) _ _ H); [done|].
    clear H. intros seen p [sys1 src1] [sys2 src2] Hs H. cbn in *. destruct (_ && _).
    - apply bind_ok in H as (n & _ & H). apply bind_ok in H as (c & _ & [= <- _]). exact Hs.
    - destruct sys1; [done|]. apply bind_ok in H as (sys & Hy & [= <- _]). by intros ? ? [= <- <-]. }
  destruct system as [[sys cfg]|]; cbn; [by apply Hs|]. apply from_yaml_empty.
Qed.

(** What writing the metadata of a version leaves in the tables of versions. *)
Record version_written (v : string) (info : VersionInfo) (modules : gmap string string) (policies : ParsedPolicies)
    (db db' : MetaDb) : Prop := {
  vw_info : db_api_info db' = <[v := info]> (db_api_info db);
  vw_policy : db_policies db' = <[v := (pp_policy_system policies).2]> (db_policies db);
  vw_sources : exists json, store_to_string (pp_policy_sources policies) = Ok json /\
    db_policy_store db' = <[v := json]> (db_policy_store db);
  vw_modules : forall v' url,
    db_modules db' !! (v', url) = if decide (v' = v) then modules !! url else db_modules db !! (v', url);
}.

Lemma write_meta_versions v info modules policies plan db db' :
  write_meta v info modules policies plan db = Ok db' -> version_written v info modules policies db db'.
Proof.
  unfold write_meta. intros H. apply bind_ok in H as (db1 & H1 & H).
  unfold persist_policy_sources in H1. apply bind_ok in H1 as (json & Hj & [= <-]).
  apply bind_ok in H as (db2 & [H2 Hm]%persist_modules_lookup & H%write_types_kept).
  unfold version_tables in *. cbn in *. rewrite H2 in H. injection H as E1 E2 E3 E4.
  split; [done|done|by exists json|]. intros v' url. by rewrite E2, Hm.
Qed.

Definition policies_load (v : string) (db : MetaDb) : Prop :=
  is_ok (load_policy_system v db) = true /\ is_ok (load_policy_sources v db) = true.

Lemma written_policies request v info modules policies db db' :
  parse_policies typescript_policies fuel request = Ok policies -> version_written v info modules policies db db' ->
  load_policy_system v db' = Ok (pp_policy_system policies).1 /\
  load_policy_sources v db' = Ok (pp_policy_sources policies).
Proof.
  intros Hp [_ H2 (json & Hj & H3) _]. unfold load_policy_system, load_policy_sources.
  rewrite H2, H3, !lookup_insert_eq. cbn. split; [by eapply parse_policies_yaml|by apply store_text_read].
Qed.

Lemma other_policies v v' info modules policies db db' : v' <> v -> version_written v info modules policies db db' ->
  db_api_info db' !! v' = db_api_info db !! v' /\ db_policies db' !! v' = db_policies db !! v' /\
  load_policy_system v' db' = load_policy_system v' db /\ load_policy_sources v' db' = load_policy_sources v' db.
Proof.
  intros Hne [H1 H2 (json & Hj & H3) _]. unfold load_policy_system, load_policy_sources.
  by rewrite H1, H2, H3, !lookup_insert_ne.
Qed.

(** ** The start *)

(** The version that is started from its rows. *)
Definition stored_version (tss : gmap string TypeSystem) (db : MetaDb) (version_id : string) (info : VersionInfo)
    : option Version :=
  match load_policy_system version_id db, load_policy_sources version_id db with
  | Ok policy_system, Ok policy_sources =>
      if decide (is_Some (db_modules db !! (version_id, root_url))) then
        Some {| v_version_id := version_id; v_info := info;
                v_type_system := version_entry builtin_types tss version_id;
                v_policy_system := policy_system; v_policy_sources := policy_sources |}
      else None
  | _, _ => None
  end.

Lemma start_version_ok tss db t v info t' : start_version builtin_types tss db t (v, info) = Ok t' <->
  policies_load v db /\
  t' = match stored_version tss db v info with Some version => <[v := version]> t | None => t end.
Proof.
  unfold start_version, stored_version, policies_load. rewrite load_modules_lookup.
  destruct (load_policy_system v db) as [p| |]; cbn; [|by split; [|intros [[] _]]..].
  destruct (load_policy_sources v db) as [src| |]; cbn; [|by split; [|intros [[] _]]..].
  case_decide as Hr; [rewrite bool_decide_true by done|rewrite bool_decide_false by done]; cbn;
    (split; [by intros [= <-]|by intros [_ ->]]).
Qed.

Lemma start_loop tss db l t t' : NoDup l.*1 -> foldM (start_version builtin_types tss db) t l = Ok t' ->
  Forall (fun e => policies_load e.1 db) l /\
  forall v, t' !! v = match (list_to_map l : gmap string VersionInfo) !! v with
                      | Some info => match stored_version tss db v info with Some ver => Some ver | None => t !! v end
                      | None => t !! v
                      end.
Proof.
  revert t. induction l as [|[v0 info] l IH]; intros t Hnd H; cbn [foldM] in H.
  { injection H as <-. split; [constructor|]. intros v. simpl. by rewrite lookup_empty. }
  apply NoDup_cons in Hnd as [Hv0 Hnd].
  apply bind_ok in H as (t1 & [Hp ->]%start_version_ok & H). destruct (IH _ Hnd H) as [Hl Hv].
  split; [by constructor|]. intros v. rewrite Hv. cbn. destruct (decide (v = v0)) as [->|Hne].
  - rewrite lookup_insert_eq, not_elem_of_list_to_map_1 by done.
    destruct (stored_version tss db v0 info); [by rewrite lookup_insert_eq|done].
  - rewrite lookup_insert_ne by done. by destruct (stored_version tss db v0 info); rewrite ?lookup_insert_ne.
Qed.

Lemma start_loop_total tss db l t : Forall (fun e => policies_load e.1 db) l ->
  exists t', foldM (start_version builtin_types tss db) t l = Ok t'.
Proof.
  intros H. revert t. induction H as [|[v info] l Hv _ IH]; intros t; [by eexists|]. cbn [foldM].
  rewrite (proj2 (start_version_ok tss db t v info _) (conj Hv eq_refl)). apply IH.
Qed.

Lemma start_ok tag db tables s : start builtin_types tag db tables = Ok s <->
  exists tss t, load_type_systems builtin_types db = Ok tss /\ start_versions builtin_types tss db ∅ = Ok t /\
    s = {| type_systems := tss; trunk := add_version (builtin_version builtin_types tag) t; meta := db; Rpc.tables := tables |}.
Proof.
  unfold start. split.
  - intros H. apply bind_ok in H as (tss & H1 & H). apply bind_ok in H as (t & H2 & [= <-]). by exists tss, t.
  - intros (tss & t & -> & H & ->). cbn. by rewrite H.
Qed.

Lemma start_versions_lookup tss db t : start_versions builtin_types tss db ∅ = Ok t ->
  (forall v info, db_api_info db !! v = Some info -> policies_load v db) /\
  forall v, t !! v = (info ← db_api_info db !! v; stored_version tss db v info).
Proof.
  unfold start_versions. rewrite load_version_infos_all. intros H.
  destruct (start_loop _ _ _ _ _ (rows_keys _) H) as [Hl Hv]. split.
  - intros v info Hi. rewrite Forall_forall in Hl. apply (Hl (v, info)).
    by rewrite (in_order_perm _), elem_of_map_to_list.
  - intros v. rewrite Hv, rows_of_map, lookup_empty. destruct (db_api_info db !! v); [|done]. cbn.
    by destruct (stored_version _ _ _ _).
Qed.

(** A start finds what the metadata hold.  It succeeds exactly when the types
    load and every version that has a row has a policy system and policy sources
    that can be read; then the running versions are those with a row and a root
    module, each with its information, types and policies, and the version of the
    built-in routes. *)
Theorem start_spec tag db tables :
  match start builtin_types tag db tables with
  | Ok s => meta s = db /\ Rpc.tables s = tables /\ load_type_systems builtin_types db = Ok (type_systems s) /\
      (forall v info, db_api_info db !! v = Some info -> policies_load v db) /\
      trunk s !! "__chiselstrike" = Some (builtin_version builtin_types tag) /\
      forall v, v <> "__chiselstrike" ->
        trunk s !! v = (info ← db_api_info db !! v; stored_version (type_systems s) db v info)
  | _ => is_ok (load_type_systems builtin_types db) = false \/
      exists v info, db_api_info db !! v = Some info /\ ~ policies_load v db
  end.
Proof.
  destruct (start builtin_types tag db tables) as [s|e|w] eqn:Hs.
  { apply start_ok in Hs as (tss & t & Hl & [Hp Ht]%start_versions_lookup & ->). cbn.
    split; [done|split; [done|split; [done|split; [done|split]]]]; unfold add_version; cbn.
    - by rewrite lookup_insert_eq.
    - intros v Hv. by rewrite lookup_insert_ne. }
  all: destruct (load_type_systems builtin_types db) as [tss| |] eqn:Hl; [right|by left..].
  all: assert (is_ok (start_versions builtin_types tss db ∅) = false) as Hn
    by (unfold start in Hs; rewrite Hl in Hs; cbn in Hs; by destruct (start_versions builtin_types tss db ∅)).
  all: unfold start_versions in Hn; rewrite load_version_infos_all in Hn.
  all: destruct (decide (Forall (fun e => is_ok (load_policy_system e.1 db) = true /\
    is_ok (load_policy_sources e.1 db) = true) (in_order (map_to_list (db_api_info db))))) as [Hall|Hnot].
  1,3: destruct (start_loop_total tss db _ ∅ Hall) as [t Ht]; by rewrite Ht in Hn.
  all: apply not_Forall_Exists, Exists_exists in Hnot as ([v info] & Hin & Hv); [|apply _].
  all: rewrite (in_order_perm _), elem_of_map_to_list in Hin; by exists v, info.
Qed.

(** ** The calls *)

Context (wait_until_ready : Version -> gmap string string -> bool -> result unit).

Notation rpc_apply := (Rpc.apply wait_until_ready typescript_policies fuel uuid builtin_types).

(** Either [Apply.apply] was not called, or its state was taken over, and the
    version that is run afterwards is what it made. *)
Lemma rpc_apply_cases rq s s' r : rpc_apply rq s = (s', r) ->
  (s' = s /\ is_ok r = false) \/
  exists v a res, validate_version_id (rq_version_id rq) = Ok v /\
    Apply.apply typescript_policies fuel uuid builtin_types rq v
      {| vi_name := rq_app_name rq; vi_tag := rq_version_tag rq |} (collect_modules (rq_modules rq))
      (apply_state builtin_types s v) = (a, res) /\
    ((s' = from_apply_state v a s /\ is_ok r = false) \/
     exists ar, res = Ok ar /\ is_ok r = true /\
       s' = set_trunk (add_version {| v_version_id := v;
              v_info := {| vi_name := rq_app_name rq; vi_tag := rq_version_tag rq |};
              v_type_system := ar_type_system ar; v_policy_system := ar_policy_system ar;
              v_policy_sources := ar_policy_sources ar |} (trunk s)) (from_apply_state v a s)).
Proof.
  unfold Rpc.apply. destruct (validate_version_id _) as [v| |] eqn:Hv; [|by intros [= <- <-]; left..].
  cbn [attempt]. destruct (with_context (validate_modules _ _ _ _ _) _) as [u| |]; [|by intros [= <- <-]; left..].
  cbn [attempt]. destruct (Apply.apply _ _ _ _ _ _ _ _ _) as [a res] eqn:Ha. intros H. right.
  exists v, a, res. split; [done|]. split; [exact Ha|].
  destruct res as [ar| |]; cbn [attempt] in H; [|by injection H as <- <-; left..].
  destruct (with_context (wait_until_ready _ _ _) _); cbn [attempt] in H; injection H as <- <-; [right|by left..].
  by exists ar.
Qed.

(** ** The states of a server *)

(** What is running can be started again, and what has a row and cannot has no
    policies. *)
Record server_inv (s : Server) : Prop := {
  si_key : forall v ver, trunk s !! v = Some ver -> v_version_id ver = v;
  si_running : forall v ver, trunk s !! v = Some ver -> v <> "__chiselstrike" ->
    is_Some (db_api_info (meta s) !! v) /\ policies_load v (meta s);
  si_rows : forall v info, db_api_info (meta s) !! v = Some info ->
    policies_load v (meta s) \/ (trunk s !! v = None /\ db_policies (meta s) !! v = None);
}.

(** The calls that change the state, with any outcome, and a restart. *)
Inductive server_step : Server -> Server -> Prop :=
  | step_apply rq s : server_step s (rpc_apply rq s).1
  | step_delete v s : server_step s (Rpc.delete v s).1
  | step_restart tag s s' : start builtin_types tag (meta s) (Rpc.tables s) = Ok s' -> server_step s s'.

Lemma start_inv tag db tables s : start builtin_types tag db tables = Ok s -> server_inv s.
Proof.
  intros (tss & t & _ & [Hp Ht]%start_versions_lookup & ->)%start_ok.
  assert (forall v ver, add_version (builtin_version builtin_types tag) t !! v = Some ver ->
    (v = "__chiselstrike" /\ ver = builtin_version builtin_types tag) \/
    exists info, db_api_info db !! v = Some info /\ stored_version tss db v info = Some ver) as Hv.
  { unfold add_version. intros v ver [[<- <-]|[Hne H]]%lookup_insert_Some; [by left|right].
    rewrite Ht in H. destruct (db_api_info db !! v) as [info|]; [|done]. by exists info. }
  split; cbn.
  - intros v ver [[-> ->]|(info & _ & H)]%Hv; [done|]. unfold stored_version in H.
    destruct (load_policy_system v db); [|done..]. destruct (load_policy_sources v db); [|done..].
    case_decide; [|done]. by injection H as <-.
  - intros v ver [[-> _]|(info & Hi & _)]%Hv Hne; [done|]. split; [by eexists|by eapply Hp].
  - intros v info Hi. left. by eapply Hp.
Qed.

Lemma apply_meta rq v info modules s s' r :
  Apply.apply typescript_policies fuel uuid builtin_types rq v info modules s = (s', r) ->
  (s' = s /\ is_ok r = false) \/
  exists policies, parse_policies typescript_policies fuel (rq_policies rq) = Ok policies /\
    version_written v info modules policies (as_meta s) (as_meta s') /\
    forall ar, r = Ok ar -> reload builtin_types v (as_meta s') = Ok (as_type_system s') /\
      ar_type_system ar = as_type_system s' /\ ar_policy_system ar = (pp_policy_system policies).1 /\
      ar_policy_sources ar = pp_policy_sources policies.
Proof.
  intros [H|(plan & policies & _ & Hp & Hm%write_meta_versions & H)]%apply_cases; [by left|right].
  exists policies. split; [done|split; [done|]]. intros ar ->.
  destruct H as [(_ & _ & _ & [=])|[Hl [[_ [=]]|[_ [= ->]]]]]. done.
Qed.

Lemma apply_step_inv rq s : server_inv s -> server_inv (rpc_apply rq s).1.
Proof.
  intros Hs. destruct (rpc_apply rq s) as [s' r] eqn:H. cbn [fst].
  apply rpc_apply_cases in H as [[-> _]|(v & a & res & _ & Ha & Hs')]; [done|].
  assert (meta s' = as_meta a /\ (trunk s' = trunk s \/ exists ver ar, res = Ok ar /\ v_version_id ver = v /\
    trunk s' = <[v := ver]> (trunk s))) as [Hmeta Htrunk].
  { destruct Hs' as [[-> _]|(ar & -> & _ & ->)]; cbn; [split; [done|by left]|]. split; [done|]. right.
    eexists _, ar. split; [done|]. unfold add_version. cbn. split; [|reflexivity]. done. }
  clear Hs'. apply apply_meta in Ha as [[-> Hbad]|(policies & Hp & Hw & _)].
  - destruct Htrunk as [Ht|(ver & ar & -> & _)]; [|done]. destruct Hs as [H1 H2 H3].
    split; rewrite Ht, ?Hmeta; [exact H1|exact H2|exact H3].
  - destruct (written_policies _ _ _ _ _ _ _ Hp Hw) as [L1 L2].
    assert (policies_load v (as_meta a)) as Hload by (split; [by rewrite L1|by rewrite L2]).
    assert (is_Some (db_api_info (as_meta a) !! v)) as Hinfo
      by (rewrite (vw_info _ _ _ _ _ _ Hw), lookup_insert_eq; by eexists).
    assert (forall v' ver, v' <> v -> trunk s' !! v' = Some ver <-> trunk s !! v' = Some ver) as Hother.
    { intros v' ver Hne. destruct Htrunk as [->|(ver0 & _ & _ & _ & ->)]; [done|]. by rewrite lookup_insert_ne. }
    destruct Hs as [H1 H2 H3]. split; rewrite ?Hmeta.
    + intros v' ver H. destruct Htrunk as [Ht|(ver0 & _ & _ & Hk & Ht)]; rewrite Ht in H; [by apply H1|].
      apply lookup_insert_Some in H as [[<- <-]|[_ H]]; [done|by apply H1].
    + intros v' ver H Hi. destruct (decide (v' = v)) as [->|Hne]; [done|].
      apply Hother in H; [|done]. destruct (H2 v' ver H Hi) as [E1 [E2 E3]].
      destruct (other_policies v v' _ _ _ _ _ Hne Hw) as (F1 & _ & F3 & F4).
      unfold policies_load. cbn in F1. by rewrite F1, F3, F4.
    + intros v' info H. destruct (decide (v' = v)) as [->|Hne]; [by left|].
      destruct (other_policies v v' _ _ _ _ _ Hne Hw) as (F1 & F2 & F3 & F4). cbn in *.
      rewrite F1 in H. unfold policies_load. rewrite F2, F3, F4. destruct (H3 v' info H) as [|[T P]]; [by left|right].
      split; [|done]. destruct (trunk s' !! v') as [ver|] eqn:E; [|done]. apply Hother in E; [congruence|done].
Qed.

Definition entities (ver : Version) : list ObjectType :=
  (fun e => object_type e.2) <$> in_order (map_to_list (custom_types (v_type_system ver))).

Lemma delete_cases v s s' r : Rpc.delete v s = (s', r) ->
  (trunk s !! v = None /\ s' = s /\ is_ok r = false) \/
  exists ver, trunk s !! v = Some ver /\ trunk s' = base.delete v (trunk s) /\ type_systems s' = type_systems s /\
    ((meta s' = meta s /\ Rpc.tables s' = Rpc.tables s /\ is_ok r = false) \/
     (version_tables (meta s') = (db_api_info (meta s), db_modules (meta s),
                                  base.delete (v_version_id ver) (db_policies (meta s)), db_policy_store (meta s)) /\
      (is_ok r = true -> run_transaction (Rpc.tables s) (exec_each drop_table (entities ver)) = Ok (Rpc.tables s')))).
Proof.
  unfold Rpc.delete, remove_version. destruct (trunk s !! v) as [ver|] eqn:Hv; [|by intros [= <- <-]; left].
  intros H. right. exists ver. split; [done|].
  change ((fun e : string * Entity => object_type e.2) <$> in_order (map_to_list (custom_types (v_type_system ver))))
    with (entities ver) in H.
  destruct (foldM remove_type _ (entities ver)) as [db| |] eqn:Hdb; cbn [attempt] in H;
    [|injection H as <- <-; split; [done|split; [done|by left]]..].
  assert (version_tables db = version_tables (delete_policy_version (v_version_id ver) (meta s))) as Ht
    by (eapply foldM_kept; [|exact Hdb]; intros ???; apply remove_type_kept).
  cbn [set_trunk Rpc.tables] in H.
  destruct (run_transaction (Rpc.tables s) _) as [tables| |] eqn:Hr; cbn [attempt] in H; injection H as <- <-; cbn;
    (split; [done|split; [done|right; split; [exact Ht|done]]]).
Qed.

Lemma delete_step_inv v s : server_inv s -> server_inv (Rpc.delete v s).1.
Proof.
  intros Hs. destruct (Rpc.delete v s) as [s' r] eqn:H. cbn [fst].
  destruct Hs as [H1 H2 H3]. apply delete_cases in H as [(_ & -> & _)|(ver & Hv & Ht & _ & H)]; [by split|].
  assert (forall v' ver', trunk s' !! v' = Some ver' -> v' <> v /\ trunk s !! v' = Some ver') as Hsub.
  { intros v' ver' H'. rewrite Ht in H'. apply lookup_delete_Some in H' as [? ?]. done. }
  destruct H as [(Hm & _ & _)|[Hm _]].
  - split; rewrite ?Hm.
    + intros v' ver' [_ H']%Hsub. by apply H1.
    + intros v' ver' [_ H']%Hsub. by eapply H2.
    + intros v' info Hi. destruct (H3 v' info Hi) as [|[T P]]; [by left|right]. split; [|done].
      rewrite Ht. by apply lookup_delete_None; right.
  - pose proof (H1 v ver Hv) as Hk. rewrite Hk in Hm. unfold version_tables in Hm. injection Hm as M1 _ M3 M4.
    assert (forall v', v' <> v -> policies_load v' (meta s) -> policies_load v' (meta s')) as Hload.
    { intros v' Hne. unfold policies_load, load_policy_system, load_policy_sources.
      by rewrite M3, M4, lookup_delete_ne. }
    split.
    + intros v' ver' [_ H']%Hsub. by apply H1.
    + intros v' ver' [Hne H']%Hsub Hi. rewrite M1. destruct (H2 v' ver' H' Hi) as [? ?]. split; [done|by apply Hload].
    + rewrite M1, M3. intros v' info Hi. rewrite Ht. destruct (decide (v' = v)) as [->|Hne].
      * right. by rewrite !lookup_delete_eq.
      * rewrite !lookup_delete_ne by done. destruct (H3 v' info Hi) as [|[T P]]; [left; by apply Hload|by right].
Qed.

Lemma reachable_inv tag db tables s0 s : start builtin_types tag db tables = Ok s0 -> rtc server_step s0 s -> server_inv s.
Proof.
  intros Hs Hsteps. apply start_inv in Hs. induction Hsteps as [|s0 s1 s2 Hstep _ IH]; [done|]. apply IH.
  destruct Hstep as [rq s|v s|tag' s s' H]; [by apply apply_step_inv|by apply delete_step_inv|by eapply start_inv].
Qed.

(** C22: Whatever calls a server has answered, with whatever outcome: every
    running version, but that of the built-in routes, has a row in the metadata
    and policies that can be read, under its own name; a version with a row whose
    policies cannot be read is not running and has none. *)
Theorem server_invariant tag db tables s0 s :
  start builtin_types tag db tables = Ok s0 -> rtc server_step s0 s -> server_inv s.
Proof. apply reachable_inv. Qed.

(** C14: A version that was applied is there after a restart: when the server
    answers that a version was applied, a start from the metadata it left runs
    the same version - its information, types, policies and policy sources -
    and finds the modules that were sent, provided they hold the root module. *)
Theorem apply_survives_restart rq s s' resp v tag s'' :
  rpc_apply rq s = (s', Ok resp) -> validate_version_id (rq_version_id rq) = Ok v ->
  is_Some (collect_modules (rq_modules rq) !! root_url) ->
  start builtin_types tag (meta s') (Rpc.tables s') = Ok s'' ->
  exists ver, trunk s' !! v = Some ver /\ trunk s'' !! v = Some ver /\
    load_modules v (meta s'') = collect_modules (rq_modules rq).
Proof.
  intros H Hv Hroot Hstart.
  apply rpc_apply_cases in H as [[_ [=]]|(v' & a & res & Hv' & Ha & [[_ [=]]|(ar & -> & _ & ->)])].
  assert (v' = v) as -> by congruence.
  apply apply_meta in Ha as [[_ [=]]|(policies & Hp & Hw & Har)].
  destruct (Har ar eq_refl) as (Hl & E1 & E2 & E3). destruct (written_policies _ _ _ _ _ _ _ Hp Hw) as [L1 L2].
  apply start_ok in Hstart as (tss & t & Htss & [_ Ht]%start_versions_lookup & ->).
  eexists. cbn. unfold add_version. cbn. rewrite lookup_insert_eq. split; [done|].
  pose proof (validate_version_id_ok _ _ Hv) as (Heq & _ & Hbuiltin & _). rewrite <- Heq in Hbuiltin.
  rewrite lookup_insert_ne, Ht by (intros E; by apply Hbuiltin). cbn.
  rewrite (vw_info _ _ _ _ _ _ Hw), lookup_insert_eq. cbn. unfold stored_version. cbn in L1, L2, Htss. rewrite L1, L2.
  assert (is_Some (db_modules (as_meta a) !! (v, root_url))) as Hr
    by (by rewrite (vw_modules _ _ _ _ _ _ Hw), decide_True by done).
  rewrite decide_True by exact Hr.
  unfold reload in Hl. rewrite Htss in Hl. cbn in Hl. injection Hl as Hts. split.
  - unfold version_entry. by rewrite E1, E2, E3, Hts.
  - apply map_eq. intros url. rewrite load_modules_lookup. by rewrite (vw_modules _ _ _ _ _ _ Hw), decide_True.
Qed.

(** A server does not start any more after a version was deleted: the row of
    the version stays, its policies go, and the start reads both.  This is so for
    every version but that of the built-in routes, whatever was called before. *)
Theorem deleted_version_stops_start tag db tables s0 s v s' msg tag' :
  start builtin_types tag db tables = Ok s0 -> rtc server_step s0 s -> v <> "__chiselstrike" ->
  Rpc.delete v s = (s', Ok msg) -> is_ok (start builtin_types tag' (meta s') (Rpc.tables s')) = false.
Proof.
  intros Hs0 Hsteps Hne H. pose proof (reachable_inv _ _ _ _ _ Hs0 Hsteps) as [H1 H2 _].
  apply delete_cases in H as [(_ & _ & [=])|(ver & Hv & _ & _ & [(_ & _ & [=])|[Hm _]])].
  destruct (H2 v ver Hv Hne) as [[info Hi] _]. rewrite (H1 v ver Hv) in Hm. unfold version_tables in Hm.
  injection Hm as M1 _ M3 _.
  destruct (start builtin_types tag' (meta s') (Rpc.tables s')) as [s''| |] eqn:Hstart; [|done..].
  apply start_ok in Hstart as (tss & t & _ & [Hp _]%start_versions_lookup & _).
  rewrite <- M1 in Hi. destruct (Hp v info Hi) as [Hl _]. unfold load_policy_system in Hl.
  by rewrite M3, lookup_delete_eq in Hl.
Qed.

(** ** Tables that are gone *)

Lemma run_drops_gone t tables e tables' : run_transaction tables e = Ok tables' -> DropTable t ∈ e.1 ->
  Forall (fun s => forall t' cols, s <> CreateTable t' cols) e.1 -> tables' !! t = None.
Proof.
  unfold run_transaction. intros H. apply bind_ok in H as (tables1 & H & [_ [= <-]]%bind_unit_ok).
  assert (forall l tables tables1, Forall (fun s => forall t' cols, s <> CreateTable t' cols) l ->
    tables !! t = None -> foldM run_on_tables tables l = Ok tables1 -> tables1 !! t = None) as Hkeep.
  { clear. induction l as [|s l IH]; intros tables tables1 Hl Ht H; cbn [foldM] in H; [by injection H as <-|].
    apply Forall_cons in Hl as [Hs Hl]. apply bind_ok in H as (tables2 & H2 & H). eapply IH; [done| |exact H].
    destruct s as [table cols|table|table col|table name|sql|name table]; cbn [run_on_tables] in H2;
      [by destruct (Hs table cols)| | | |by injection H2 as <-..].
    - apply bind_ok in H2 as (tb & _ & [= <-]). apply lookup_delete_None. by right.
    - apply bind_ok in H2 as (tb & Hb%option_context_ok & H2). apply bind_unit_ok in H2 as [_ [= <-]].
      apply lookup_insert_None. split; [done|congruence].
    - apply bind_ok in H2 as (tb & Hb%option_context_ok & H2). apply bind_unit_ok in H2 as [_ [= <-]].
      apply lookup_insert_None. split; [done|congruence]. }
  destruct e as [l r]. cbn in *. clear r. revert tables H. induction l as [|s l IH]; intros tables H Hin Hl;
    [by apply not_elem_of_nil in Hin|]. cbn [foldM] in H. apply bind_ok in H as (tables2 & H2 & H).
  apply Forall_cons in Hl as [_ Hl]. apply elem_of_cons in Hin as [<-|Hin]; [|by eapply IH].
  cbn [run_on_tables] in H2. apply bind_ok in H2 as (tb & _ & [= <-]).
  eapply Hkeep; [exact Hl| |exact H]. apply lookup_delete_eq.
Qed.

Lemma drop_table_statements ty s : s ∈ (drop_table ty).1 -> forall t cols, s <> CreateTable t cols.
Proof.
  intros [(i & _ & H)%exec_each_elem| ->%list_elem_of_singleton]%exec_then_elem; [|done].
  destruct (_ : result string); try (by apply not_elem_of_nil in H). by apply list_elem_of_singleton in H as ->.
Qed.

Lemma exec_each_ok {A} (f : A -> executed) l x : (exec_each f l).2 = Ok () -> x ∈ l ->
  (f x).2 = Ok () /\ forall s, s ∈ (f x).1 -> s ∈ (exec_each f l).1.
Proof.
  induction l as [|y l IH]; [by intros _ ?%not_elem_of_nil|]. unfold exec_each; cbn. fold (exec_each f l).
  destruct (f y) as [ly [[]| |]] eqn:Hy; cbn; [|done..]. intros H [->|Hx]%elem_of_cons.
  - rewrite Hy. cbn. split; [done|]. intros s Hs. apply elem_of_app. by left.
  - destruct (IH H Hx) as [H1 H2]. split; [done|]. intros s Hs. apply elem_of_app. right. by apply H2.
Qed.

Lemma dropped_gone tables l tables' ty : run_transaction tables (exec_each drop_table l) = Ok tables' ->
  ty ∈ l -> tables' !! obj_backing_table ty = None.
Proof.
  intros H Hin. eapply run_drops_gone; [exact H| |].
  - unfold run_transaction in H. apply bind_ok in H as (tables1 & _ & [H2 _]%bind_unit_ok).
    destruct (exec_each_ok drop_table l ty H2 Hin) as [Hty Hall]. apply Hall. unfold drop_table in *.
    destruct (drop_indexes ty (obj_indexes ty)) as [l1 [[]| |]]; cbn in *; [|done..].
    apply elem_of_app. right. left.
  - apply Forall_forall. intros s (o & _ & Hs)%exec_each_elem. by apply (drop_table_statements o).
Qed.

Lemma foldM_stuck {S A} (f : S -> A -> result S) l s x : x ∈ l -> (forall s, is_ok (f s x) = false) ->
  is_ok (foldM f s l) = false.
Proof.
  intros Hin Hx. revert s. induction l as [|y l IH]; intros s; [by apply not_elem_of_nil in Hin|]. cbn [foldM].
  apply elem_of_cons in Hin as [<-|Hin].
  - specialize (Hx s). by destruct (f s x).
  - destruct (f s y); [|done..]. by apply IH.
Qed.

Lemma is_ok_bind {A B} (m : result A) (k : A -> result B) : is_ok m = false -> is_ok (m ≫= k) = false.
Proof. by destruct m. Qed.

Lemma is_ok_bind_r {A B} (m : result A) (k : A -> result B) :
  (forall a, m = Ok a -> is_ok (k a) = false) -> is_ok (m ≫= k) = false.
Proof. destruct m; [|done..]. intros H. by apply H. Qed.

(** No plan is made over a type whose table is gone. *)
Lemma plan_without_table ts tables v rq n e : custom_types ts !! n = Some e ->
  tables !! obj_backing_table (object_type e) = None -> is_ok (make_plan uuid ts tables v rq) = false.
Proof.
  intros He Hgone.
  assert (is_ok (count_rows tables (object_type e)) = false) as Hc by (unfold count_rows; by rewrite Hgone).
  unfold make_plan. destruct (decide (n ∈ at_name <$> rq_types rq)) as [Hin|Hout].
  - apply is_ok_bind_r. intros rem _. apply is_ok_bind_r. intros sorted Hs. apply is_ok_bind.
    assert (sorted ≡ₚ rq_types rq) as Hp.
    { unfold sort_custom_types in Hs. apply bind_ok in Hs as ([[g pos] k] & _ & Hs).
      apply bind_ok in Hs as (order & _ & Hs). apply bind_ok in Hs as (l & _ & Hs).
      by eapply apply_inv_slice_perm. }
    apply list_elem_of_fmap in Hin as (tdef & -> & Hin). rewrite <- Hp in Hin.
    eapply foldM_stuck; [exact Hin|]. intros [[nt ins] upd]. unfold plan_type.
    apply is_ok_bind_r. intros ty _. unfold lookup_custom_type. rewrite He. cbn. by apply is_ok_bind.
  - apply is_ok_bind. unfold removed_types. apply is_ok_bind.
    eapply (foldM_stuck _ _ _ (n, e)); [by rewrite (in_order_perm _), elem_of_map_to_list|].
    intros [l1 l2]. unfold find_removed. rewrite decide_False by done. by apply is_ok_bind.
Qed.

(** A version that was deleted cannot be applied again while the server runs:
    the type systems in memory keep its types, whose tables are gone, so every
    request for the version fails, and leaves the metadata, the tables and the
    running versions as they are. *)
Theorem reapply_after_delete_fails v ver s s' msg rq s'' r n e : trunk s !! v = Some ver ->
  type_systems s !! v = Some (v_type_system ver) -> custom_types (v_type_system ver) !! n = Some e ->
  Rpc.delete v s = (s', Ok msg) -> validate_version_id (rq_version_id rq) = Ok v -> rpc_apply rq s' = (s'', r) ->
  is_ok r = false /\ meta s'' = meta s' /\ Rpc.tables s'' = Rpc.tables s' /\ trunk s'' = trunk s'.
Proof.
  intros Hver Hts He Hd Hv H.
  apply delete_cases in Hd as [(_ & _ & [=])|(ver' & Hver' & Ht & Hsame & [(_ & _ & [=])|[_ Hrun]])].
  assert (ver' = ver) as -> by congruence. specialize (Hrun eq_refl).
  assert (Rpc.tables s' !! obj_backing_table (object_type e) = None) as Hgone.
  { eapply dropped_gone; [exact Hrun|]. unfold entities. apply list_elem_of_fmap. exists (n, e).
    split; [done|]. by rewrite (in_order_perm _), elem_of_map_to_list. }
  apply rpc_apply_cases in H as [[-> Hr]|(v' & a & res & Hv' & Ha & H)]; [done|].
  assert (v' = v) as -> by congruence.
  assert (is_ok (make_plan uuid (as_type_system (apply_state builtin_types s' v))
    (as_tables (apply_state builtin_types s' v)) v rq) = false) as Hplan.
  { cbn. rewrite Hsame. unfold version_entry. rewrite Hts. by eapply plan_without_table. }
  apply apply_cases in Ha as [[-> Hres]|(plan & policies & Hp & _)]; [|by rewrite Hp in Hplan].
  destruct H as [[-> Hr]|(ar & -> & _)]; [|done]. done.
Qed.

End Server.

(** ** Witnesses *)

#[local] Existing Instance MetaSample.order.
#[local] Existing Instance MetaSample.order_laws.
#[local] Existing Instance GraphSample.graph_lib.
#[local] Existing Instance GraphSample.graph_laws.
Import ApplySample.

Module ServerSample.

#[export] Instance yaml_laws : YamlLaws.
Proof. split. reflexivity. Qed.

(** Workers that are ready at once. *)
Definition ready (v : Version) (modules : gmap string string) (is_canary : bool) : result unit := Ok ().

Definition started (db : MetaDb) (tables : Tables) : Server :=
  match start builtins "1.0" db tables with
  | Ok s => s
  | _ => {| type_systems := ∅; trunk := ∅; meta := db; Rpc.tables := tables |}
  end.
Definition fresh : Server := started empty_db ∅.

Definition call (rq : ApplyRequest) (s : Server) : Server * result ApplyResponse :=
  Rpc.apply ready true 100 uuid builtins rq s.
Definition blog : ApplyRequest := request [GraphSample.post; GraphSample.person] false.
Definition applied : Server := (call blog fresh).1.
Definition deleted : Server := (Rpc.delete "dev" applied).1.

Lemma fresh_started : start builtins "1.0" empty_db ∅ = Ok fresh.
Proof. vm_compute. reflexivity. Qed.

Lemma applied_reachable : rtc (server_step true 100 uuid builtins ready) fresh applied.
Proof. apply rtc_once. exact (step_apply true 100 uuid builtins ready blog fresh). Qed.

Definition message : string := "Deleted " +:+ quoted "dev".

Lemma deleted_ok : Rpc.delete "dev" applied = (deleted, Ok message).
Proof.
  assert ((Rpc.delete "dev" applied).2 = Ok message) as <- by (vm_compute; reflexivity).
  apply surjective_pairing.
Qed.

Lemma applied_started :
  start builtins "1.0" (meta applied) (Rpc.tables applied) = Ok (started (meta applied) (Rpc.tables applied)).
Proof.
  unfold started.
  assert (is_ok (start builtins "1.0" (meta applied) (Rpc.tables applied)) = true) as H by (vm_compute; reflexivity).
  revert H. generalize (start builtins "1.0" (meta applied) (Rpc.tables applied)). by intros [].
Qed.

(** The running versions and their types. *)
Definition running (s : Server) : list (string * list string) :=
  (fun '(v, ver) => (v, (map_to_list (custom_types (v_type_system ver))).*1)) <$> map_to_list (trunk s).

End ServerSample.
#[local] Existing Instance ServerSample.yaml_laws.

Lemma start_spec_witness :
  let s := ServerSample.started (meta ServerSample.applied) (Rpc.tables ServerSample.applied) in
  meta s = meta ServerSample.applied /\
  ServerSample.running s = [("__chiselstrike", []); ("dev", ["Post"; "Person"])].
Proof.
  intros s. split; [|vm_compute; reflexivity].
  pose proof (start_spec builtins "1.0" (meta ServerSample.applied) (Rpc.tables ServerSample.applied)) as H.
  rewrite ServerSample.applied_started in H. exact (proj1 H).
Defined.

Lemma server_invariant_witness :
  server_inv ServerSample.applied /\ ServerSample.running ServerSample.applied <> [].
Proof.
  split; [|vm_compute; discriminate].
  exact (server_invariant true 100 uuid builtins ServerSample.ready "1.0" empty_db ∅ ServerSample.fresh
    ServerSample.applied ServerSample.fresh_started ServerSample.applied_reachable).
Defined.

Lemma apply_survives_restart_witness :
  exists ver, trunk ServerSample.applied !! "dev" = Some ver /\
    trunk (ServerSample.started (meta ServerSample.applied) (Rpc.tables ServerSample.applied)) !! "dev" = Some ver.
Proof.
  destruct ((ServerSample.call ServerSample.blog ServerSample.fresh).2) as [resp|e|w] eqn:Hr;
    [|vm_compute in Hr; discriminate Hr..].
  destruct (apply_survives_restart true 100 uuid builtins ServerSample.ready ServerSample.blog ServerSample.fresh
    ServerSample.applied resp "dev" "1.0"
    (ServerSample.started (meta ServerSample.applied) (Rpc.tables ServerSample.applied))) as (ver & H1 & H2 & _).
  - rewrite <- Hr. exact (surjective_pairing (ServerSample.call ServerSample.blog ServerSample.fresh)).
  - vm_compute. reflexivity.
  - vm_compute. eexists. reflexivity.
  - exact ServerSample.applied_started.
  - exists ver. split; [exact H1|exact H2].
Defined.

Lemma deleted_version_stops_start_witness :
  is_ok (start builtins "1.0" (meta ServerSample.deleted) (Rpc.tables ServerSample.deleted)) = false.
Proof.
  apply (deleted_version_stops_start true 100 uuid builtins ServerSample.ready "1.0" empty_db ∅ ServerSample.fresh
    ServerSample.applied "dev" ServerSample.deleted ServerSample.message "1.0" ServerSample.fresh_started
    ServerSample.applied_reachable).
  - discriminate.
  - exact ServerSample.deleted_ok.
Defined.

Lemma reapply_after_delete_fails_witness :
  is_ok (ServerSample.call ServerSample.blog ServerSample.deleted).2 = false.
Proof.
  destruct (trunk ServerSample.applied !! "dev") as [ver|] eqn:Hver; [|vm_compute in Hver; discriminate Hver].
  destruct (custom_types (v_type_system ver) !! "Person") as [e|] eqn:He.
  2: { vm_compute in Hver. injection Hver as <-. vm_compute in He. discriminate He. }
  refine (proj1 (reapply_after_delete_fails true 100 uuid builtins ServerSample.ready "dev" ver ServerSample.applied
    ServerSample.deleted ServerSample.message ServerSample.blog (ServerSample.call ServerSample.blog ServerSample.deleted).1
    (ServerSample.call ServerSample.blog ServerSample.deleted).2 "Person" e Hver _ He ServerSample.deleted_ok _ _)).
  - vm_compute in Hver. injection Hver as <-. vm_compute. reflexivity.
  - vm_compute. reflexivity.
  - exact (surjective_pairing (ServerSample.call ServerSample.blog ServerSample.deleted)).
Defined.
