(* ===== verification/Rewriter.v ===== *)
(** * The rewriting of filter calls ([chiselc])

    The compiler finds calls such as [Person.cursor().filter(p => p.age > 40)],
    reads the predicate into a query expression and emits a call of an internal
    method that gets both, so that the filter runs in the database.  It also
    collects which properties are filtered by, as candidates for indexes
    ([query.rs], [filtering.rs], [symbols.rs], [utils.rs], [transforms],
    [rewrite.rs]). *)

From S2P Require Import Prelude.

(** ** Syntax trees

    What the rewriter inspects of [swc]'s trees; positions are left out, and
    what is only copied is kept as its text. *)
Module Ast.

Inductive BinaryOp :=
  | EqEq | NotEq | EqEqEq | NotEqEq | Lt | LtEq | Gt | GtEq | LogicalOr | LogicalAnd | OtherBinOp (src : string).

#[export] Instance BinaryOp_eq_dec : EqDecision BinaryOp.
Proof. solve_decision. Defined.

Inductive Lit := Num (value : f64) | Str (value : string) | Bool (value : bool) | OtherLit (src : string).
Inductive MemberProp := PropIdent (sym : string) | PropOther (src : string).
Inductive Pat := PatIdent (sym : string) (type_ann : string) | PatOther (src : string).
Inductive PropName := NameIdent (sym : string) | NameStr (value : string) | NameOther (src : string).

Inductive Expr :=
  | Ident (sym : string)
  | Literal (lit : Lit)
  | Bin (e : BinExpr)
  | Paren (expr : Expr)
  | Member (e : MemberExpr)
  | Call (e : CallExpr)
  | Arrow (e : ArrowExpr)
  | Await (arg : Expr)
  | Object (props : list PropOrSpread)
  | Other (src : string)
with BinExpr := mkBin (op : BinaryOp) (left right : Expr)
with MemberExpr := mkMember (obj : Expr) (prop : MemberProp)
with CallExpr := mkCall (callee : Callee) (args : list ExprOrSpread) (type_args : option string)
with Callee := Super | Import | CalleeExpr (expr : Expr)
with ExprOrSpread := mkArg (spread : bool) (expr : Expr)
with ArrowExpr := mkArrow (params : list Pat) (body : BlockStmtOrExpr) (rest : string)
with BlockStmtOrExpr := BlockStmt (stmts : list Stmt) | BodyExpr (expr : Expr)
with Stmt :=
  | Return (arg : option Expr)
  | ExprStmt (expr : Expr)
  | VarDecl (kind : string) (decls : list VarDeclarator)
  | OtherStmt (src : string)
with VarDeclarator := mkVar (name : Pat) (init : option Expr)
with PropOrSpread :=
  | KeyValue (key : PropName) (value : Expr)
  | Shorthand (sym : string)
  | OtherProp (src : string)
  | Spread (src : string).

Inductive ModuleItem :=
  | ItemStmt (stmt : Stmt)
  | ExportDefaultFn (signature : string) (body : option (list Stmt))
  | OtherDecl (src : string).

Abbreviation Module_ := (list ModuleItem).

Definition callee_of (call : CallExpr) : Callee := let 'mkCall callee _ _ := call in callee.
Definition args_of (call : CallExpr) : list ExprOrSpread := let 'mkCall _ args _ := call in args.
Definition arg_expr (arg : ExprOrSpread) : Expr := let 'mkArg _ e := arg in e.

End Ast.

(** ** Query expressions ([query.rs]) *)
Module Ir.

Inductive QBinaryOp := And | Eq | Gt | GtEq | Lt | LtEq | NotEq | Or.
Inductive QValue := Bool (b : bool) | Num (n : f64) | Str (s : string).

Inductive QExpr :=
  | BinaryExpr (left : QExpr) (op : QBinaryOp) (right : QExpr)
  | PropertyAccess (object : QExpr) (property : string)
  | Identifier (ident : string)
  | EValue (value : QValue).

Record Scan := { entity_type : string; alias : string }.

Inductive Operator :=
  | OFilter (f : Filter)
  | OScan (s : Scan)
with Filter := mkFilter (function : string) (call_expr : Ast.CallExpr) (query_expr : Ast.Expr)
    (post_expr : option Ast.Expr) (parameters : list string) (predicate : QExpr) (input : Operator).

Definition predicate_of (f : Filter) : QExpr := let 'mkFilter _ _ _ _ _ predicate _ := f in predicate.

(** Insertion into an [IndexSet]: the first occurrence counts. *)
Definition set_insert (x : string) (l : list string) : list string := if decide (x ∈ l) then l else l ++ [x].

Fixpoint expr_to_props (expr : QExpr) (props : list string) : list string :=
  match expr with
  | BinaryExpr lhs _ rhs => expr_to_props rhs (expr_to_props lhs props)
  | PropertyAccess _ property => set_insert property props
  | _ => props
  end.

(** [Filter::properties] *)
Definition properties (f : Filter) : list string := expr_to_props (predicate_of f) [].

End Ir.

(** ** Filter properties ([filtering.rs]) *)

Record FilterProperties := { entity_name : string; fp_properties : list string }.

Definition filter_properties (entity_name : string) (properties : list string) : option FilterProperties :=
  match properties with
  | [] => None
  | _ => Some {| entity_name := entity_name; fp_properties := properties |}
  end.

Definition from_filter (entity_name : string) (filter : Ir.Filter) : option FilterProperties :=
  filter_properties entity_name (Ir.properties filter).

Definition prop_name_to_string (prop_name : Ast.PropName) : option string :=
  match prop_name with
  | Ast.NameIdent sym => Some sym
  | Ast.NameStr value => Some value
  | Ast.NameOther _ => None
  end.

Definition object_prop (properties : list string) (prop : Ast.PropOrSpread) : result (list string) :=
  match prop with
  | Ast.KeyValue key _ =>
      Ok (match prop_name_to_string key with Some n => Ir.set_insert n properties | None => properties end)
  | Ast.Shorthand sym => Ok (Ir.set_insert sym properties)
  | Ast.OtherProp _ | Ast.Spread _ => Panic "not yet implemented"
  end.

Definition from_object_lit (entity_name : string) (props : list Ast.PropOrSpread)
    : result (option FilterProperties) :=
  filter_properties entity_name <$> foldM object_prop [] props.

(** ** Symbols and shapes ([symbols.rs], [utils.rs]) *)

Abbreviation Symbols := (gset string).

Definition is_entity (symbols : Symbols) (type_name : string) : bool := bool_decide (type_name ∈ symbols).

Definition is_ident_member_prop (member_prop : Ast.MemberProp) (value : string) : bool :=
  match member_prop with
  | Ast.PropIdent sym => String.eqb sym value
  | Ast.PropOther _ => false
  end.

Definition ident_to_string (expr : Ast.Expr) : option string :=
  match expr with Ast.Ident sym => Some sym | _ => None end.

Definition is_call_to_entity_method (expr : Ast.Expr) (method : string) (symbols : Symbols) : bool :=
  match expr with
  | Ast.Member (Ast.mkMember obj prop) =>
      match ident_to_string obj with
      | Some ty => if negb (is_entity symbols ty) then false else is_ident_member_prop prop method
      | None => is_ident_member_prop prop method
      end
  | _ => false
  end.

Definition pat_to_string (pat : Ast.Pat) : option string :=
  match pat with Ast.PatIdent sym _ => Some sym | Ast.PatOther _ => None end.

(** ** Predicates ([transforms/utils.rs]) *)

Fixpoint lookup_entity_type (expr : Ast.Expr) : result string :=
  match expr with
  | Ast.Member (Ast.mkMember obj _) => lookup_entity_type obj
  | Ast.Call (Ast.mkCall callee _ _) =>
      match callee with
      | Ast.CalleeExpr expr => lookup_entity_type expr
      | _ => Panic "not yet implemented"
      end
  | Ast.Ident sym => Ok sym
  | _ => bail "Failed to look up entity type from call chain"
  end.

Definition lookup_callee_entity_type (callee : Ast.Callee) : result string :=
  match callee with
  | Ast.CalleeExpr expr => lookup_entity_type expr
  | _ => Panic "not yet implemented"
  end.

Definition convert_binary_op (op : Ast.BinaryOp) : option Ir.QBinaryOp :=
  match op with
  | Ast.EqEq => Some Ir.Eq
  | Ast.Gt => Some Ir.Gt
  | Ast.GtEq => Some Ir.GtEq
  | Ast.Lt => Some Ir.Lt
  | Ast.LtEq => Some Ir.LtEq
  | Ast.NotEq => Some Ir.NotEq
  | Ast.LogicalAnd => Some Ir.And
  | Ast.LogicalOr => Some Ir.Or
  | _ => None
  end.

(** A computed member is not yet implemented. *)
Fixpoint convert_expr (expr : Ast.Expr) : result (option Ir.QExpr) :=
  match expr with
  | Ast.Bin bin_expr => convert_bin_expr bin_expr
  | Ast.Paren expr => convert_expr expr
  | Ast.Literal (Ast.Num n) => Ok (Some (Ir.EValue (Ir.Num n)))
  | Ast.Literal (Ast.Str s) => Ok (Some (Ir.EValue (Ir.Str s)))
  | Ast.Member (Ast.mkMember obj prop) =>
      obj ← convert_expr obj;
      match obj with
      | None => Ok None
      | Some obj =>
          match prop with
          | Ast.PropIdent sym => Ok (Some (Ir.PropertyAccess obj sym))
          | Ast.PropOther _ => Panic "not yet implemented"
          end
      end
  | Ast.Ident sym => Ok (Some (Ir.Identifier sym))
  | _ => Ok None
  end
with convert_bin_expr (expr : Ast.BinExpr) : result (option Ir.QExpr) :=
  match expr with
  | Ast.mkBin op lhs rhs =>
      lhs ← convert_expr lhs;
      rhs ← convert_expr rhs;
      match lhs, convert_binary_op op, rhs with
      | Some lhs, Some op, Some rhs => Ok (Some (Ir.BinaryExpr lhs op rhs))
      | _, _, _ => Ok None
      end
  end.

Definition convert_filter_expr (expr : Ast.Expr) : result (option Ir.QExpr) :=
  match expr with
  | Ast.Bin bin_expr => convert_bin_expr bin_expr
  | Ast.Literal (Ast.Bool value) => Ok (Some (Ir.EValue (Ir.Bool value)))
  | _ => Ok None
  end.

(** ** Splitting ([transforms/filter/splitting.rs]) *)

Definition split_and_convert_expr (expr : Ast.Expr)
    : result (option (Ast.Expr * Ir.QExpr) * option Ast.Expr) :=
  qexpr ← convert_filter_expr expr;
  match qexpr with
  | Some qexpr => Ok (Some (expr, qexpr), None)
  | None =>
      match expr with
      | Ast.Bin (Ast.mkBin Ast.LogicalAnd lhs rhs) =>
          qleft ← convert_filter_expr lhs;
          match qleft with
          | Some qleft => Ok (Some (lhs, qleft), Some rhs)
          | None => Ok (None, None)
          end
      | _ => Ok (None, None)
      end
  end.

Definition rewrite_filter_arrow (arrow : Ast.ArrowExpr) (expr : Ast.Expr) : result Ast.Expr :=
  let 'Ast.mkArrow params body rest := arrow in
  match body with
  | Ast.BlockStmt [Ast.Return (Some _)] =>
      Ok (Ast.Arrow (Ast.mkArrow params (Ast.BlockStmt [Ast.Return (Some expr)]) rest))
  | Ast.BlockStmt [_] => Panic "not yet implemented"
  | Ast.BlockStmt _ => Panic "assertion failed: `(left == right)`"
  | Ast.BodyExpr _ => Ok (Ast.Arrow (Ast.mkArrow params (Ast.BodyExpr expr) rest))
  end.

(** What is inferred of a call: the operator, and the properties filtered by. *)
Abbreviation inferred := (option Ir.Operator * option FilterProperties)%type.

(** The predicate of an arrow function, when its body is one. *)
Definition arrow_predicate (body : Ast.BlockStmtOrExpr) : result (option Ast.Expr) :=
  match body with
  | Ast.BlockStmt [Ast.Return (Some expr)] => Ok (Some expr)
  | Ast.BlockStmt [Ast.Return None] => Panic "not yet implemented"
  | Ast.BlockStmt _ => Ok None
  | Ast.BodyExpr expr => Ok (Some expr)
  end.

Definition extract_arrow (call_expr : Ast.CallExpr) (arrow : Ast.ArrowExpr) (entity_type function : string)
    : result inferred :=
  let 'Ast.mkArrow params body _ := arrow in
  match params with
  | [param] =>
      param ← unwrap (pat_to_string param) "called `Option::unwrap()` on a `None` value";
      expr ← arrow_predicate body;
      match expr with
      | None => Ok (None, None)
      | Some expr =>
          '(query, post_expr) ← split_and_convert_expr expr;
          match query with
          | None => Ok (None, None)
          | Some (query_expr, predicate) =>
              query_expr ← rewrite_filter_arrow arrow query_expr;
              post_expr ← match post_expr with
                          | Some post_expr => Some <$> rewrite_filter_arrow arrow post_expr
                          | None => Ok None
                          end;
              let filter := Ir.mkFilter function call_expr query_expr post_expr [param] predicate
                              (Ir.OScan {| Ir.entity_type := entity_type; Ir.alias := param |}) in
              Ok (Some (Ir.OFilter filter), from_filter entity_type filter)
          end
      end
  | _ => Ok (None, None)
  end.

Definition extract_filter (call_expr : Ast.CallExpr) (entity_type function : string) : result inferred :=
  match Ast.args_of call_expr with
  | [arg] =>
      match Ast.arg_expr arg with
      | Ast.Arrow arrow => extract_arrow call_expr arrow entity_type function
      | Ast.Object object_lit => props ← from_object_lit entity_type object_lit; Ok (None, props)
      | _ => Ok (None, None)
      end
  | _ => Ok (None, None)
  end.

(** ** The calls that are rewritten ([transforms/filter.rs], [transforms/find.rs]) *)

Definition is_rewritable_filter (callee : Ast.Callee) (symbols : Symbols) : bool :=
  match callee with
  | Ast.CalleeExpr (Ast.Member (Ast.mkMember obj prop)) =>
      is_ident_member_prop prop "filter" &&
      match obj with
      | Ast.Call (Ast.mkCall (Ast.CalleeExpr expr) _ _) => is_call_to_entity_method expr "cursor" symbols
      | _ => false
      end
  | _ => false
  end.

(** The entity type, or nothing when it cannot be looked up. *)
Definition with_entity_type (callee : Ast.Callee) (k : string -> result inferred) : result inferred :=
  match lookup_callee_entity_type callee with
  | Ok entity_type => k entity_type
  | Err _ => Ok (None, None)
  | Panic w => Panic w
  end.

Definition infer_filter (call_expr : Ast.CallExpr) (symbols : Symbols) : result inferred :=
  if is_rewritable_filter (Ast.callee_of call_expr) symbols then
    with_entity_type (Ast.callee_of call_expr) (fun entity_type => extract_filter call_expr entity_type "__filter")
  else Ok (None, None).

Definition is_rewritable_find (function : string) (callee : Ast.Callee) (symbols : Symbols) : bool :=
  match callee with
  | Ast.CalleeExpr expr => is_call_to_entity_method expr function symbols
  | _ => false
  end.

Definition infer_rewritable_find (call_expr : Ast.CallExpr) (symbols : Symbols) : option string :=
  if is_rewritable_find "findMany" (Ast.callee_of call_expr) symbols then Some "__findMany"
  else if is_rewritable_find "findOne" (Ast.callee_of call_expr) symbols then Some "__findOne"
  else None.

Definition infer_find (call_expr : Ast.CallExpr) (symbols : Symbols) : result inferred :=
  match infer_rewritable_find call_expr symbols with
  | Some function =>
      with_entity_type (Ast.callee_of call_expr) (fun entity_type => extract_filter call_expr entity_type function)
  | None => Ok (None, None)
  end.

(** ** Emitting ([transforms/filter/emit.rs]) *)

Definition make_bool_lit (value : bool) : Ast.Expr := Ast.Literal (Ast.Bool value).
Definition make_str_lit (raw_str : string) : Ast.Expr := Ast.Literal (Ast.Str raw_str).
Definition make_num_lit (num : f64) : Ast.Expr := Ast.Literal (Ast.Num num).

Definition key_value (key : string) (value : Ast.Expr) : Ast.PropOrSpread :=
  Ast.KeyValue (Ast.NameIdent key) value.

Definition make_expr_type (expr_type : string) : Ast.PropOrSpread := key_value "exprType" (make_str_lit expr_type).

Definition binary_op_to_ts (binary_op : Ir.QBinaryOp) : Ast.Expr :=
  make_str_lit
    (match binary_op with
     | Ir.And => "And"
     | Ir.Eq => "Eq"
     | Ir.Gt => "Gt"
     | Ir.GtEq => "GtEq"
     | Ir.Lt => "Lt"
     | Ir.LtEq => "LtEq"
     | Ir.NotEq => "NotEq"
     | Ir.Or => "Or"
     end).

Fixpoint position (x : string) (l : list string) : option nat :=
  match l with
  | [] => None
  | y :: l => if String.eqb y x then Some 0 else S <$> position x l
  end.

Definition identifier_to_ts (ident : string) (params : list string) : Ast.Expr :=
  match position ident params with
  | Some pos =>
      Ast.Object [make_expr_type "Parameter"; key_value "position" (make_num_lit (f64_of_Z (Z.of_nat pos)))]
  | None => Ast.Object [make_expr_type "Value"; key_value "value" (Ast.Ident ident)]
  end.

Definition value_to_ts (lit : Ir.QValue) : Ast.Expr :=
  Ast.Object [make_expr_type "Value"; key_value "value"
    (match lit with
     | Ir.Bool v => make_bool_lit v
     | Ir.Str s => make_str_lit s
     | Ir.Num n => make_num_lit n
     end)].

Fixpoint expr_to_ts (expr : Ir.QExpr) (params : list string) : Ast.Expr :=
  match expr with
  | Ir.BinaryExpr lhs op rhs =>
      Ast.Object [make_expr_type "Binary"; key_value "left" (expr_to_ts lhs params);
                  key_value "op" (binary_op_to_ts op); key_value "right" (expr_to_ts rhs params)]
  | Ir.PropertyAccess object property =>
      Ast.Object [make_expr_type "Property"; key_value "object" (expr_to_ts object params);
                  key_value "property" (make_str_lit property)]
  | Ir.Identifier ident => identifier_to_ts ident params
  | Ir.EValue val => value_to_ts val
  end.

Definition rewrite_filter_callee (callee : Ast.Callee) (function : string) : result Ast.Callee :=
  match callee with
  | Ast.CalleeExpr (Ast.Member (Ast.mkMember obj _)) =>
      Ok (Ast.CalleeExpr (Ast.Member (Ast.mkMember obj (Ast.PropIdent function))))
  | _ => Panic "not yet implemented"
  end.

Definition to_ts_expr (filter : Ir.Operator) : result Ast.CallExpr :=
  match filter with
  | Ir.OFilter (Ir.mkFilter function call_expr query_expr post_expr parameters predicate _) =>
      callee ← rewrite_filter_callee (Ast.callee_of call_expr) function;
      let args := [Ast.mkArg false query_expr; Ast.mkArg false (expr_to_ts predicate parameters)] in
      let args := match post_expr with Some post => args ++ [Ast.mkArg false post] | None => args end in
      Ok (Ast.mkCall callee args None)
  | Ir.OScan _ => Panic "not yet implemented: TypeScript target only supports filtering."
  end.

(** ** The rewriter ([rewrite.rs]) *)

(** The properties found so far are threaded through. *)
Abbreviation Indexes := (list FilterProperties).

Section Rewriter.
Context (symbols : Symbols).

Definition push_index (index : option FilterProperties) (indexes : Indexes) : Indexes :=
  match index with Some index => indexes ++ [index] | None => indexes end.

(** The two attempts on a call: the emitted call, if one succeeds. *)
Definition rewrite_call_as_filter (call_expr : Ast.CallExpr) (indexes : Indexes)
    : result (option Ast.CallExpr * Indexes) :=
  '(filter, index) ← infer_filter call_expr symbols;
  let indexes := push_index index indexes in
  match filter with
  | Some filter => call ← to_ts_expr filter; Ok (Some call, indexes)
  | None =>
      '(filter, index) ← infer_find call_expr symbols;
      let indexes := push_index index indexes in
      match filter with
      | Some filter => call ← to_ts_expr filter; Ok (Some call, indexes)
      | None => Ok (None, indexes)
      end
  end.

Fixpoint map_indexed {A B} (f : A -> Indexes -> result (B * Indexes)) (l : list A) (indexes : Indexes)
    : result (list B * Indexes) :=
  match l with
  | [] => Ok ([], indexes)
  | x :: l =>
      '(y, indexes) ← f x indexes;
      '(l, indexes) ← map_indexed f l indexes;
      Ok (y :: l, indexes)
  end.

Definition option_indexed {A B} (f : A -> Indexes -> result (B * Indexes)) (o : option A) (indexes : Indexes)
    : result (option B * Indexes) :=
  match o with
  | None => Ok (None, indexes)
  | Some x => '(y, indexes) ← f x indexes; Ok (Some y, indexes)
  end.

Fixpoint rewrite_expr (expr : Ast.Expr) (indexes : Indexes) : result (Ast.Expr * Indexes) :=
  match expr with
  | Ast.Arrow arrow_expr => '(e, indexes) ← rewrite_arrow_expr arrow_expr indexes; Ok (Ast.Arrow e, indexes)
  | Ast.Await arg => '(e, indexes) ← rewrite_expr arg indexes; Ok (Ast.Await e, indexes)
  | Ast.Call call_expr => '(e, indexes) ← rewrite_call_expr call_expr indexes; Ok (Ast.Call e, indexes)
  | Ast.Member member_expr => '(e, indexes) ← rewrite_member_expr member_expr indexes; Ok (Ast.Member e, indexes)
  | _ => Ok (expr, indexes)
  end
with rewrite_arrow_expr (arrow_expr : Ast.ArrowExpr) (indexes : Indexes) : result (Ast.ArrowExpr * Indexes) :=
  match arrow_expr with
  | Ast.mkArrow params body rest =>
      '(body, indexes) ← rewrite_body body indexes; Ok (Ast.mkArrow params body rest, indexes)
  end
with rewrite_body (body : Ast.BlockStmtOrExpr) (indexes : Indexes) : result (Ast.BlockStmtOrExpr * Indexes) :=
  match body with
  | Ast.BlockStmt stmts => '(stmts, indexes) ← map_indexed rewrite_stmt stmts indexes; Ok (Ast.BlockStmt stmts, indexes)
  | Ast.BodyExpr expr => '(expr, indexes) ← rewrite_expr expr indexes; Ok (Ast.BodyExpr expr, indexes)
  end
with rewrite_stmt (stmt : Ast.Stmt) (indexes : Indexes) : result (Ast.Stmt * Indexes) :=
  match stmt with
  | Ast.VarDecl kind decls =>
      '(decls, indexes) ← map_indexed rewrite_var_declarator decls indexes; Ok (Ast.VarDecl kind decls, indexes)
  | Ast.ExprStmt expr => '(expr, indexes) ← rewrite_expr expr indexes; Ok (Ast.ExprStmt expr, indexes)
  | _ => Ok (stmt, indexes)
  end
with rewrite_var_declarator (decl : Ast.VarDeclarator) (indexes : Indexes) : result (Ast.VarDeclarator * Indexes) :=
  match decl with
  | Ast.mkVar name init =>
      '(init, indexes) ← option_indexed rewrite_expr init indexes; Ok (Ast.mkVar name init, indexes)
  end
with rewrite_callee (callee : Ast.Callee) (indexes : Indexes) : result (Ast.Callee * Indexes) :=
  match callee with
  | Ast.CalleeExpr expr => '(expr, indexes) ← rewrite_expr expr indexes; Ok (Ast.CalleeExpr expr, indexes)
  | _ => Ok (callee, indexes)
  end
with rewrite_expr_or_spread (arg : Ast.ExprOrSpread) (indexes : Indexes) : result (Ast.ExprOrSpread * Indexes) :=
  match arg with
  | Ast.mkArg spread expr => '(expr, indexes) ← rewrite_expr expr indexes; Ok (Ast.mkArg spread expr, indexes)
  end
with rewrite_call_expr (call_expr : Ast.CallExpr) (indexes : Indexes) : result (Ast.CallExpr * Indexes) :=
  match call_expr with
  | Ast.mkCall callee args type_args =>
      '(call, indexes) ← rewrite_call_as_filter call_expr indexes;
      match call with
      | Some call => Ok (call, indexes)
      | None =>
          '(args, indexes) ← map_indexed rewrite_expr_or_spread args indexes;
          '(callee, indexes) ← rewrite_callee callee indexes;
          Ok (Ast.mkCall callee args type_args, indexes)
      end
  end
with rewrite_member_expr (member_expr : Ast.MemberExpr) (indexes : Indexes) : result (Ast.MemberExpr * Indexes) :=
  match member_expr with
  | Ast.mkMember obj prop => '(obj, indexes) ← rewrite_expr obj indexes; Ok (Ast.mkMember obj prop, indexes)
  end.

Definition rewrite_block_stmt (stmts : list Ast.Stmt) (indexes : Indexes) : result (list Ast.Stmt * Indexes) :=
  map_indexed rewrite_stmt stmts indexes.

Definition rewrite_item (item : Ast.ModuleItem) (indexes : Indexes) : result (Ast.ModuleItem * Indexes) :=
  match item with
  | Ast.ItemStmt stmt => '(stmt, indexes) ← rewrite_stmt stmt indexes; Ok (Ast.ItemStmt stmt, indexes)
  | Ast.ExportDefaultFn signature body =>
      '(body, indexes) ← option_indexed rewrite_block_stmt body indexes;
      Ok (Ast.ExportDefaultFn signature body, indexes)
  | Ast.OtherDecl _ => Ok (item, indexes)
  end.

(** [Rewriter::rewrite], from no indexes. *)
Definition rewrite (m : Ast.Module_) : result (Ast.Module_ * Indexes) := map_indexed rewrite_item m [].

End Rewriter.
