(* ===== verification/RewriterSpec.v ===== *)
(** * What the rewriting of filter calls keeps

    The meaning of predicates in TypeScript, the reading of emitted expressions
    by the server, and the theorems on [Rewriter]: emitted filters select what
    the predicates select, the properties recorded are the ones accessed, and
    nothing else of a module changes. *)

From S2P Require Import Prelude Json Expr Rewriter.

#[local] Existing Instance Ast.BinaryOp_eq_dec.

(** ** The reading of emitted expressions

    [Deserialize] of the server's expressions, as derived from their
    attributes; the keys of an object literal are distinct.  An expression
    under [Not] would need a tag that the outer one has taken. *)
Definition value_deserialize (j : json) : option Value :=
  match j with
  | JNull => Some VNull
  | JBool b => Some (VBool b)
  | JNumber (PosInt n) => Some (VU64 n)
  | JNumber (NegInt n) => Some (VI64 n)
  | JNumber (Float f) => Some (VF64 f)
  | JString s => Some (VString s)
  | JArray _ | JObject _ => None
  end.

Definition op_deserialize (j : json) : option BinaryOp :=
  s ← as_str j;
  alist_get s [("Eq", OpEq); ("NotEq", OpNotEq); ("Lt", OpLt); ("LtEq", OpLtEq); ("Gt", OpGt); ("GtEq", OpGtEq);
    ("And", OpAnd); ("Or", OpOr); ("Like", OpLike); ("NotLike", OpNotLike)].

Fixpoint expr_deserialize (j : json) : option Expr :=
  match j with
  | JObject m =>
      let inner := map (fun '(k, v) => (k, expr_deserialize v)) m in
      tag ← alist_get "exprType" m;
      tag ← as_str tag;
      if String.eqb tag "Value" then EValue <$> (alist_get "value" m ≫= value_deserialize)
      else if String.eqb tag "Parameter" then
        position ← alist_get "position" m;
        match position with
        | JNumber n => EParameter ∘ Z.to_nat <$> num_as_u64 n
        | _ => None
        end
      else if String.eqb tag "Property" then
        property ← alist_get "property" m ≫= as_str;
        object ← mjoin (alist_get "object" inner);
        Some (EProperty property object)
      else if String.eqb tag "Binary" then
        lhs ← mjoin (alist_get "left" inner);
        op ← alist_get "op" m ≫= op_deserialize;
        rhs ← mjoin (alist_get "right" inner);
        Some (EBinary lhs op rhs)
      else None
  | _ => None
  end.

(** ** Predicates in TypeScript *)

(** Values; an entity is known by the path of properties that leads to it. *)
Inductive TsValue :=
  | TBool (b : bool)
  | TNum (f : f64)
  | TStr (s : string)
  | TNull
  | TEntity (path : list string)
  | TOther.

#[export] Instance TsValue_eq_dec : EqDecision TsValue.
Proof. solve_decision. Defined.

(** JavaScript's [ToBoolean]. *)
Definition truthy (v : TsValue) : bool :=
  match v with
  | TBool b => b
  | TNum f => negb (f64_eqb f (f64_of_Z 0)) && negb (bool_decide (SpecFloat.SFcompare f f = None))
  | TStr s => negb (String.eqb s "")
  | TNull => false
  | TEntity _ | TOther => true
  end.

(** What a stored value reads as: numbers are stored as floats. *)
Definition ts_of_stored (v : Value) : TsValue :=
  match v with
  | VBool b => TBool b
  | VF64 f => TNum f
  | VString s => TStr s
  | VNull => TNull
  | VU64 _ | VI64 _ => TOther
  end.

(** Comparisons that convert neither operand; [null] equals none of the scalars. *)
Definition ts_order (op : Ast.BinaryOp) (c : option comparison) : option bool :=
  match op with
  | Ast.EqEq => Some (match c with Some Eq => true | _ => false end)
  | Ast.NotEq => Some (match c with Some Eq => false | _ => true end)
  | Ast.Lt => Some (match c with Some Lt => true | _ => false end)
  | Ast.LtEq => Some (match c with Some (Lt | Eq) => true | _ => false end)
  | Ast.Gt => Some (match c with Some Gt => true | _ => false end)
  | Ast.GtEq => Some (match c with Some (Gt | Eq) => true | _ => false end)
  | _ => None
  end.
Definition ts_equal (op : Ast.BinaryOp) (b : bool) : option bool :=
  match op with
  | Ast.EqEq => Some b
  | Ast.NotEq => Some (negb b)
  | _ => None
  end.
Definition ts_compare (op : Ast.BinaryOp) (v w : TsValue) : option bool :=
  match v, w with
  | TNum f, TNum g => ts_order op (SpecFloat.SFcompare f g)
  | TStr s, TStr t => ts_equal op (String.eqb s t)
  | TBool a, TBool b => ts_equal op (Bool.eqb a b)
  | TNull, TNull => ts_equal op true
  | TNull, (TNum _ | TStr _ | TBool _) | (TNum _ | TStr _ | TBool _), TNull => ts_equal op false
  | _, _ => None
  end.

Section Meaning.
(** The variables in scope, the entities an entity refers to, and the meaning of
    whatever is not modelled. *)
Context (scope : string -> option TsValue) (relation : list string -> bool).
Context (host : Ast.Expr -> Sem.row -> option TsValue).
(** The parameter of the arrow function. *)
Context (param : string).

Definition read_property (row : Sem.row) (path : list string) : TsValue :=
  if relation path then TEntity path else ts_of_stored (row path).

Fixpoint ts_eval (row : Sem.row) (expr : Ast.Expr) : option TsValue :=
  match expr with
  | Ast.Paren e => ts_eval row e
  | Ast.Literal (Ast.Num f) => Some (TNum f)
  | Ast.Literal (Ast.Str s) => Some (TStr s)
  | Ast.Literal (Ast.Bool b) => Some (TBool b)
  | Ast.Ident x => if String.eqb param x then Some (TEntity []) else scope x
  | Ast.Member (Ast.mkMember obj (Ast.PropIdent prop)) =>
      match ts_eval row obj with
      | Some (TEntity path) => Some (read_property row (path ++ [prop]))
      | _ => host expr row
      end
  | Ast.Bin (Ast.mkBin op lhs rhs) =>
      match op with
      | Ast.LogicalAnd => v ← ts_eval row lhs; if truthy v then ts_eval row rhs else Some v
      | Ast.LogicalOr => v ← ts_eval row lhs; if truthy v then Some v else ts_eval row rhs
      | _ =>
          v ← ts_eval row lhs;
          w ← ts_eval row rhs;
          match ts_compare op v w with
          | Some b => Some (TBool b)
          | None => host expr row
          end
      end
  | _ => host expr row
  end.

(** Does the predicate keep the entity? *)
Definition ts_keeps (row : Sem.row) (expr : Ast.Expr) : option bool := truthy <$> ts_eval row expr.

(** ** The emitted object

    Numbers come to the server as the transport writes them. *)
Context (wire : f64 -> number).

Definition wire_number (f : f64) : json := if f64_is_finite f then JNumber (wire f) else JNull.

Definition ts_to_json (v : TsValue) : option json :=
  match v with
  | TBool b => Some (JBool b)
  | TNum f => Some (wire_number f)
  | TStr s => Some (JString s)
  | TNull => Some JNull
  | TEntity _ | TOther => None
  end.

Fixpoint literal_json (expr : Ast.Expr) : option json :=
  match expr with
  | Ast.Literal (Ast.Num f) => Some (wire_number f)
  | Ast.Literal (Ast.Str s) => Some (JString s)
  | Ast.Literal (Ast.Bool b) => Some (JBool b)
  | Ast.Ident x => scope x ≫= ts_to_json
  | Ast.Object props =>
      JObject <$> (fix entries props := match props with
        | [] => Some []
        | Ast.KeyValue (Ast.NameIdent key) value :: props =>
            j ← literal_json value; rest ← entries props; Some ((key, j) :: rest)
        | _ => None
        end) props
  | _ => None
  end.

(** ** Predicates that SQL and TypeScript agree on *)

(** A property of the entity, through the entities it refers to. *)
Fixpoint access (expr : Ast.Expr) : option (list string) :=
  match expr with
  | Ast.Ident x => if String.eqb param x then Some [] else None
  | Ast.Paren e => access e
  | Ast.Member (Ast.mkMember obj (Ast.PropIdent prop)) =>
      path ← access obj;
      if bool_decide (path = []) || relation path then Some (path ++ [prop]) else None
  | _ => None
  end.

(** What the emitted object can be built of: accesses to the entity, literals,
    and variables that hold scalars. *)
Fixpoint readable (expr : Ast.Expr) : bool :=
  match expr with
  | Ast.Paren e => readable e
  | Ast.Literal (Ast.Num _) | Ast.Literal (Ast.Str _) => true
  | Ast.Ident x => negb (String.eqb param x) && bool_decide (is_Some (scope x ≫= ts_to_json))
  | Ast.Member _ => bool_decide (is_Some (access expr))
  | Ast.Bin (Ast.mkBin op lhs rhs) => bool_decide (is_Some (convert_binary_op op)) && readable lhs && readable rhs
  | _ => false
  end.

(** Operands that are compared alike: finite numbers by all six operators,
    strings and booleans by [==] and [!=]. *)
Definition comparable (op : Ast.BinaryOp) (v w : option TsValue) : bool :=
  match v, w with
  | Some (TNum f), Some (TNum g) => f64_is_finite f && f64_is_finite g && bool_decide (is_Some (ts_order op None))
  | Some (TStr _), Some (TStr _) | Some (TBool _), Some (TBool _) => bool_decide (op = Ast.EqEq \/ op = Ast.NotEq)
  | _, _ => false
  end.

(** A binary expression, perhaps in parentheses. *)
Fixpoint is_bin (expr : Ast.Expr) : bool :=
  match expr with
  | Ast.Paren e => is_bin e
  | Ast.Bin _ => true
  | _ => false
  end.

(** Only booleans are tested and only comparable operands are compared, as far
    as evaluation on the row gets. *)
Fixpoint plain (row : Sem.row) (expr : Ast.Expr) : bool :=
  match expr with
  | Ast.Paren e => plain row e
  | Ast.Literal (Ast.Bool _) => true
  | Ast.Bin (Ast.mkBin op lhs rhs) =>
      match op with
      | Ast.LogicalAnd => plain row lhs && (bool_decide (ts_eval row lhs = Some (TBool false)) || plain row rhs)
      | Ast.LogicalOr => plain row lhs && (bool_decide (ts_eval row lhs = Some (TBool true)) || plain row rhs)
      | _ =>
          comparable op (ts_eval row lhs) (ts_eval row rhs) &&
          (negb (is_bin lhs) || plain row lhs) && (negb (is_bin rhs) || plain row rhs)
      end
  | Ast.Ident _ | Ast.Member _ => match ts_eval row expr with Some (TBool _) => true | _ => false end
  | _ => false
  end.
End Meaning.

(** ** Induction on predicates *)
Section PredicateInd.
Context (P : Ast.Expr -> Prop).
Context (Hparen : forall e, P e -> P (Ast.Paren e)).
Context (Hbin : forall op lhs rhs, P lhs -> P rhs -> P (Ast.Bin (Ast.mkBin op lhs rhs))).
Context (Hmember : forall obj prop, P obj -> P (Ast.Member (Ast.mkMember obj prop))).
Context (Hleaf : forall e, match e with Ast.Paren _ | Ast.Bin _ | Ast.Member _ => False | _ => True end -> P e).

Fixpoint predicate_ind (e : Ast.Expr) : P e :=
  match e with
  | Ast.Paren e => Hparen e (predicate_ind e)
  | Ast.Bin (Ast.mkBin op lhs rhs) => Hbin op lhs rhs (predicate_ind lhs) (predicate_ind rhs)
  | Ast.Member (Ast.mkMember obj prop) => Hmember obj prop (predicate_ind obj)
  | e => Hleaf e I
  end.
End PredicateInd.

(** ** What the transport promises *)

(** A number is written so that it is read as an equal one, and zero as an
    integer. *)
Definition number_value (n : number) : Value := default VNull (value_deserialize (JNumber n)).

Class WireLaws (wire : f64 -> number) := {
  wire_zero : wire (f64_of_Z 0) = PosInt 0;
  wire_wire f g : f64_is_finite f = true -> f64_is_finite g = true ->
    Sem.vcompare (number_value (wire f)) (number_value (wire g)) = SpecFloat.SFcompare f g;
  wire_l f g : f64_is_finite f = true -> f64_is_finite g = true ->
    Sem.vcompare (number_value (wire f)) (VF64 g) = SpecFloat.SFcompare f g;
  wire_r f g : f64_is_finite f = true -> f64_is_finite g = true ->
    Sem.vcompare (VF64 f) (number_value (wire g)) = SpecFloat.SFcompare f g;
}.

Section Keeps.
Context (scope : string -> option TsValue) (relation : list string -> bool).
Context (host : Ast.Expr -> Sem.row -> option TsValue) (param : string).
Context (wire : f64 -> number) {W : WireLaws wire} (like : string -> string -> bool).

Abbreviation eval := (ts_eval scope relation host param).
Abbreviation simple := (plain scope relation host param).
Abbreviation reads := (readable scope relation param wire).

(** The value of an expression in SQL stands for the one in TypeScript. *)
Definition represents (t : TsValue) (v : Value) : Prop :=
  match t with
  | TBool b => v = VBool b
  | TStr s => v = VString s
  | TNum f => f64_is_finite f = true -> v = VF64 f \/ v = number_value (wire f)
  | TNull | TEntity _ | TOther => True
  end.

(** The server reads the object emitted for the query expression as [y]. *)
Definition read_as (x : Ir.QExpr) (y : Expr) : Prop :=
  exists j, literal_json scope wire (expr_to_ts x [param]) = Some j /\ expr_deserialize j = Some y.

(** [y] has the value of [e] on every row. *)
Definition agrees (e : Ast.Expr) (y : Expr) : Prop := forall row t,
  negb (is_bin e) || simple row e = true -> eval row e = Some t -> represents t (Sem.eval like row y).

Lemma finite_compare f g : f64_is_finite f = true -> f64_is_finite g = true ->
  exists c, SpecFloat.SFcompare f g = Some c.
Proof. destruct f, g; cbn; intros; try done; repeat case_match; eauto. Qed.

Lemma comparable_compare op v w : comparable op v w = true ->
  exists t u b, v = Some t /\ w = Some u /\ ts_compare op t u = Some b.
Proof.
  intros Hc. assert (forall o, is_Some (ts_order op None) -> is_Some (ts_order op o)) as Ho by (by destruct op).
  destruct v as [[]|], w as [[]|]; cbn in Hc; try done; do 2 eexists.
  - apply bool_decide_eq_true in Hc as [-> | ->]; by eexists.
  - apply andb_prop in Hc as [_ Hc]. apply bool_decide_eq_true in Hc.
    destruct (Ho (SpecFloat.SFcompare f f0) Hc) as [b Hb]. by exists b.
  - apply bool_decide_eq_true in Hc as [-> | ->]; by eexists.
Qed.

Lemma plain_bool row e : simple row e = true -> exists b, eval row e = Some (TBool b).
Proof.
  induction e as [e IH|op lhs rhs IHl IHr|obj prop _|e He] using predicate_ind; intros Hp.
  - apply IH, Hp.
  - assert (Hlogic : op = Ast.LogicalAnd \/ op = Ast.LogicalOr \/ comparable op (eval row lhs) (eval row rhs) = true).
    { destruct op; cbn in Hp; auto; apply andb_prop in Hp as [Hp _]; apply andb_prop in Hp as [Hp _]; auto. }
    destruct Hlogic as [-> |[-> |Hc]]; cbn in Hp |- *.
    + apply andb_prop in Hp as [Hl Hr]. destruct (IHl Hl) as [b Hb]. rewrite Hb in Hr |- *. cbn.
      destruct b; [|by eexists]. apply IHr. by case_bool_decide.
    + apply andb_prop in Hp as [Hl Hr]. destruct (IHl Hl) as [b Hb]. rewrite Hb in Hr |- *. cbn.
      destruct b; [by eexists|]. apply IHr. by case_bool_decide.
    + destruct (comparable_compare _ _ _ Hc) as (t & u & b & Ht & Hu & Hb).
      rewrite Ht, Hu. cbn. rewrite Hb. destruct op; try (by eexists); by destruct t, u.
  - unfold plain in Hp. repeat case_match; try done. by eexists.
  - destruct e as [x|[]| | | | | | | |]; cbn in Hp |- *; try done; try by eexists.
    repeat case_match; try done. by eexists.
Qed.

(** *** Reading what is emitted *)

Definition server_op (op : Ir.QBinaryOp) : BinaryOp :=
  match op with
  | Ir.And => OpAnd | Ir.Eq => OpEq | Ir.Gt => OpGt | Ir.GtEq => OpGtEq
  | Ir.Lt => OpLt | Ir.LtEq => OpLtEq | Ir.NotEq => OpNotEq | Ir.Or => OpOr
  end.

Lemma read_binary x1 y1 op x2 y2 : read_as x1 y1 -> read_as x2 y2 ->
  read_as (Ir.BinaryExpr x1 op x2) (EBinary y1 (server_op op) y2).
Proof.
  intros (j1 & H1 & D1) (j2 & H2 & D2). eexists. split.
  - cbn. rewrite H1. cbn. rewrite H2. done.
  - cbn. rewrite D1, D2. cbn. by destruct op.
Qed.

Lemma read_property_access x y prop : read_as x y -> read_as (Ir.PropertyAccess x prop) (EProperty prop y).
Proof.
  intros (j & Hj & D). eexists. split.
  - cbn. rewrite Hj. done.
  - cbn. by rewrite D.
Qed.

Lemma read_value lit j v : literal_json scope wire lit = Some j -> value_deserialize j = Some v ->
  forall x, expr_to_ts x [param] = Ast.Object [make_expr_type "Value"; key_value "value" lit] -> read_as x (EValue v).
Proof.
  intros Hj Hv x Hx. eexists. rewrite Hx. split.
  - cbn. rewrite Hj. done.
  - change ((EValue <$> value_deserialize j) = Some (EValue v)). by rewrite Hv.
Qed.

Lemma read_param : read_as (Ir.Identifier param) (EParameter 0).
Proof.
  eexists. cbn. unfold identifier_to_ts. cbn. rewrite String.eqb_refl. cbn. split; [done|].
  unfold wire_number. cbn -[f64_of_Z]. by rewrite wire_zero.
Qed.

Lemma access_converts e path : access relation param e = Some path ->
  (exists x y, convert_expr e = Ok (Some x) /\ read_as x y /\ Sem.chain y = Some path) /\
  forall row, eval row e = Some (if decide (path = []) then TEntity [] else read_property relation row path).
Proof.
  revert path. induction e as [e IH|op lhs rhs _ _|obj prop IH|e He] using predicate_ind; intros path Hp; [by apply IH|done| |].
  - destruct prop as [prop|]; [|done]. cbn in Hp.
    destruct (access relation param obj) as [c|] eqn:Hc; [|done]. cbn in Hp.
    destruct (_ || _) eqn:Hr in Hp; [|done]. injection Hp as <-.
    destruct (IH c eq_refl) as [(x & y & Hx & Hy & Hch) Hev]. split.
    + eexists _, _. cbn. rewrite Hx. split; [done|]. split; [by apply read_property_access|]. cbn. by rewrite Hch.
    + intros row. cbn. rewrite Hev. destruct (decide (c ++ [prop] = [])); [by destruct c|].
      destruct (decide (c = [])) as [-> |Hne]; [done|]. rewrite bool_decide_eq_false_2 in Hr by done.
      cbn in Hr. unfold read_property at 1. by rewrite Hr.
  - destruct e as [z| | | | | | | | |]; cbn in Hp |- *; try done.
    destruct (String.eqb_spec param z) as [<-|]; [|done]. injection Hp as <-. split; [|done].
    eexists _, _. split; [done|]. split; [apply read_param|done].
Qed.

(** *** Values *)

Lemma value_deserialize_number n : value_deserialize (JNumber n) = Some (number_value n).
Proof. by destruct n. Qed.

Lemma ts_to_json_represents t j : ts_to_json wire t = Some j ->
  exists v, value_deserialize j = Some v /\ represents t v.
Proof.
  destruct t; cbn; intros [= <-]; try (by eexists). unfold wire_number.
  destruct (f64_is_finite f) eqn:Hf; [|exists VNull; by split].
  exists (number_value (wire f)). split; [apply value_deserialize_number|auto].
Qed.

Lemma represents_stored row path : represents (read_property relation row path) (row path).
Proof. unfold read_property. destruct (relation path); [done|]. destruct (row path); cbn; auto. Qed.

Lemma represents_numbers f g v w : f64_is_finite f = true -> f64_is_finite g = true ->
  represents (TNum f) v -> represents (TNum g) w -> Sem.vcompare v w = SpecFloat.SFcompare f g.
Proof.
  intros Hf Hg Hv Hw. destruct (Hv Hf) as [-> | ->], (Hw Hg) as [-> | ->].
  - done.
  - by apply wire_r.
  - by apply wire_l.
  - by apply wire_wire.
Qed.

(** Comparable operands compare alike. *)
Lemma represents_compare op iop t u v w b : comparable op (Some t) (Some u) = true ->
  convert_binary_op op = Some iop -> ts_compare op t u = Some b -> represents t v -> represents u w ->
  Sem.cmp_holds (server_op iop) <$> Sem.vcompare v w = Some b.
Proof.
  intros Hc Hop Hb Hv Hw. destruct t, u; cbn in Hc; try done.
  - apply bool_decide_eq_true in Hc as [-> | ->]; injection Hop as <-; injection Hb as <-; cbn in Hv, Hw; subst;
      cbn; by destruct b0, b1.
  - apply andb_prop in Hc as [Hc _]. apply andb_prop in Hc as [Hf Hg].
    rewrite (represents_numbers _ _ _ _ Hf Hg Hv Hw). cbn in Hb.
    destruct (finite_compare _ _ Hf Hg) as [c Hcmp]. rewrite Hcmp in Hb |- *.
    destruct op; try done; injection Hop as <-; injection Hb as <-; by destruct c.
  - apply bool_decide_eq_true in Hc as [-> | ->]; injection Hop as <-; injection Hb as <-; cbn in Hv, Hw; subst;
      cbn; destruct (String.compare s s0) eqn:E, (String.eqb_spec s s0) as [->|]; try done;
      try (by apply String.compare_eq_iff in E); by rewrite str_compare_refl in E.
Qed.

(** *** The conversion of a predicate *)

Lemma agrees_logic op iop lhs rhs y1 y2 : op = Ast.LogicalAnd \/ op = Ast.LogicalOr ->
  convert_binary_op op = Some iop -> agrees lhs y1 -> agrees rhs y2 ->
  agrees (Ast.Bin (Ast.mkBin op lhs rhs)) (EBinary y1 (server_op iop) y2).
Proof.
  intros Hop Hi H1 H2 row t Hp Ht. cbn [is_bin negb orb] in Hp.
  assert (Hside : forall e y b, agrees e y -> simple row e = true -> eval row e = Some (TBool b) ->
    Sem.eval like row y = VBool b).
  { intros e y b Ha Hs He. exact (Ha row (TBool b) ltac:(rewrite Hs; apply orb_true_r) He). }
  destruct Hop as [-> | ->]; injection Hi as <-; cbn in Hp, Ht |- *; apply andb_prop in Hp as [Hl Hr];
    destruct (plain_bool _ _ Hl) as [b Hb]; rewrite (Hside _ _ _ H1 Hl Hb); rewrite Hb in Hr, Ht; cbn in Hr, Ht;
    destruct b; try (injection Ht as <-; first [done|by destruct (Sem.truth _) as [[]|]]);
    rewrite bool_decide_eq_false_2 in Hr by done; destruct (plain_bool _ _ Hr) as [c Hc]; rewrite (Hside _ _ _ H2 Hr Hc); rewrite Hc in Ht; injection Ht as <-;
    by destruct c.
Qed.

Lemma agrees_compare op iop lhs rhs y1 y2 : op <> Ast.LogicalAnd -> op <> Ast.LogicalOr ->
  convert_binary_op op = Some iop -> agrees lhs y1 -> agrees rhs y2 ->
  agrees (Ast.Bin (Ast.mkBin op lhs rhs)) (EBinary y1 (server_op iop) y2).
Proof.
  intros Ha Ho Hi H1 H2 row t Hp Ht. cbn [is_bin negb orb] in Hp.
  assert (comparable op (eval row lhs) (eval row rhs) && (negb (is_bin lhs) || simple row lhs) &&
    (negb (is_bin rhs) || simple row rhs) = true) as Hs by (by destruct op).
  apply andb_prop in Hs as [Hs Hr]. apply andb_prop in Hs as [Hc Hl].
  destruct (comparable_compare _ _ _ Hc) as (u & w & b & Hu & Hw & Hb).
  assert (t = TBool b) as ->.
  { cbn in Ht. rewrite Hu, Hw in Ht. cbn in Ht. rewrite Hb in Ht. destruct op; congruence. }
  pose proof (H1 row u Hl Hu) as R1. pose proof (H2 row w Hr Hw) as R2. rewrite Hu, Hw in Hc.
  pose proof (represents_compare _ _ _ _ _ _ _ Hc Hi Hb R1 R2) as Heq. cbn.
  destruct op; try done; injection Hi as <-; cbn; cbn in Heq; by rewrite Heq.
Qed.

Lemma readable_converts e : reads e = true ->
  exists x y, convert_expr e = Ok (Some x) /\ read_as x y /\ expr_wf y = true /\ agrees e y.
Proof.
  induction e as [e IH|op lhs rhs IHl IHr|obj prop _|e He] using predicate_ind; intros Hr.
  - exact (IH Hr).
  - cbn in Hr. apply andb_prop in Hr as [Hr Hrr]. apply andb_prop in Hr as [Hop Hrl].
    apply bool_decide_eq_true in Hop as [iop Hop].
    destruct (IHl Hrl) as (x1 & y1 & C1 & R1 & W1 & A1). destruct (IHr Hrr) as (x2 & y2 & C2 & R2 & W2 & A2).
    exists (Ir.BinaryExpr x1 iop x2), (EBinary y1 (server_op iop) y2).
    split; [cbn; rewrite C1; cbn; rewrite C2; cbn; by rewrite Hop|]. split; [by apply read_binary|].
    split; [cbn; by rewrite W1, W2|].
    destruct (decide (op = Ast.LogicalAnd)), (decide (op = Ast.LogicalOr)); eauto using agrees_logic, agrees_compare.
  - apply bool_decide_eq_true in Hr as [path Hp]. pose proof (access_converts _ _ Hp) as [(x & y & C & R & Hch) Hev].
    exists x, y. split; [done|]. split; [done|].
    assert (exists p o, y = EProperty p o) as (p & o & ->).
    { destruct y as [| |p o| |]; [done| |by eauto|done|done]. destruct position as [|]; [|done]. injection Hch as <-.
      cbn in Hp. destruct prop; [|done]. destruct (access _ _ obj) as [c|]; [|done]. cbn in Hp.
      destruct (_ || _) in Hp; [|done]. injection Hp as Hp. by destruct c. }
    assert (path <> []) as Hne by (cbn in Hch; destruct (Sem.chain o) as [c|]; [injection Hch as <-; by destruct c|done]).
    split; [cbn in Hch |- *; apply is_chain_chain; destruct (Sem.chain o); [by eexists|done]|].
    intros row t _ Ht. rewrite Hev, decide_False in Ht by done. injection Ht as <-.
    cbn in Hch |- *. destruct (Sem.chain o) as [c|]; [|done]. injection Hch as <-. apply represents_stored.
  - destruct e as [z|[f|s| |]| | | | | | | |]; cbn in Hr; try done.
    + apply andb_prop in Hr as [Hz Hs]. apply bool_decide_eq_true in Hs as [j Hj].
      destruct (scope z) as [t|] eqn:Hsc; [|done]. cbn in Hj. destruct (ts_to_json_represents _ _ Hj) as (v & Hv & Hrep).
      exists (Ir.Identifier z), (EValue v). split; [done|]. split; [|split; [done|]].
      * apply (read_value (Ast.Ident z) j v); [cbn; by rewrite Hsc|done|]. cbn. unfold identifier_to_ts. cbn.
        destruct (String.eqb param z); [done|done].
      * intros row t' _ Ht. cbn in Ht |- *. destruct (String.eqb param z); [done|]. congruence.
    + destruct (ts_to_json_represents (TNum f) _ eq_refl) as (v & Hv & Hrep).
      exists (Ir.EValue (Ir.Num f)), (EValue v). split; [done|].
      split; [by apply (read_value (make_num_lit f) _ _ eq_refl Hv)|]. split; [done|].
      intros row t _ [= <-]. exact Hrep.
    + exists (Ir.EValue (Ir.Str s)), (EValue (VString s)). split; [done|].
      split; [by apply (read_value (make_str_lit s) _ _ eq_refl eq_refl)|]. split; [done|].
      by intros row t _ [= <-].
Qed.
End Keeps.

(** ** A rewritten call *)

(** The body [body] of an arrow function, with another predicate. *)
Definition with_predicate (body : Ast.BlockStmtOrExpr) (e : Ast.Expr) : Ast.BlockStmtOrExpr :=
  match body with
  | Ast.BlockStmt _ => Ast.BlockStmt [Ast.Return (Some e)]
  | Ast.BodyExpr _ => Ast.BodyExpr e
  end.

(** The predicate [e] is [q], or [q && r]. *)
Definition splits (e q : Ast.Expr) (post : option Ast.Expr) : Prop :=
  match post with
  | None => e = q
  | Some r => e = Ast.Bin (Ast.mkBin Ast.LogicalAnd q r)
  end.

(** The arguments of the internal method: the arrow function of [q], the object
    of [x], the arrow function of the rest. *)
Definition emitted_args (param ty rest : string) (body : Ast.BlockStmtOrExpr) (q : Ast.Expr) (x : Ir.QExpr)
    (post : option Ast.Expr) : list Ast.ExprOrSpread :=
  let arrow e := Ast.mkArg false (Ast.Arrow (Ast.mkArrow [Ast.PatIdent param ty] (with_predicate body e) rest)) in
  [arrow q; Ast.mkArg false (expr_to_ts x [param])] ++ match post with Some r => [arrow r] | None => [] end.

Lemma split_and_convert_splits e q x post : split_and_convert_expr e = Ok (Some (q, x), post) ->
  splits e q post /\ convert_filter_expr q = Ok (Some x).
Proof.
  unfold split_and_convert_expr. intros H. apply bind_ok in H as (qx & Hq & H).
  destruct qx as [qx|]; [by injection H as <- <- <-|]. destruct e as [| |[op lhs rhs]| | | | | | |]; try done.
  destruct op; try done. apply bind_ok in H as (ql & Hl & H).
  destruct ql as [ql|]; [|done]. by injection H as <- <- <-.
Qed.

Lemma arrow_predicate_body body e : arrow_predicate body = Ok (Some e) -> body = with_predicate body e.
Proof.
  destruct body as [stmts|b]; cbn; [|by intros [= ->]].
  destruct stmts as [|[[a|]| | |] [|]]; try done. by intros [= ->].
Qed.

Lemma rewrite_filter_arrow_body params body rest e e' : arrow_predicate body = Ok (Some e) ->
  rewrite_filter_arrow (Ast.mkArrow params body rest) e' = Ok (Ast.Arrow (Ast.mkArrow params (with_predicate body e') rest)).
Proof. intros H. rewrite (arrow_predicate_body _ _ H). by destruct body. Qed.

(** What [extract_filter] finds. *)
Lemma extract_filter_some call entity function op index :
  extract_filter call entity function = Ok (Some op, index) ->
  exists spread param ty body rest e q x post,
    Ast.args_of call = [Ast.mkArg spread (Ast.Arrow (Ast.mkArrow [Ast.PatIdent param ty] body rest))] /\
    arrow_predicate body = Ok (Some e) /\ split_and_convert_expr e = Ok (Some (q, x), post) /\
    index = filter_properties entity (Ir.expr_to_props x []) /\
    (forall callee, rewrite_filter_callee (Ast.callee_of call) function = Ok callee ->
     to_ts_expr op = Ok (Ast.mkCall callee (emitted_args param ty rest body q x post) None)).
Proof.
  unfold extract_filter. destruct (Ast.args_of call) as [|[spread arg] [|]]; try done. cbn [Ast.arg_expr].
  destruct arg as [| | | | | |[params body rest]| |props|]; try done;
    [|intros H; by apply bind_ok in H as (props' & _ & H)].
  cbn [extract_arrow]. destruct params as [|pat [|]]; try done. intros H. apply bind_ok in H as (param & Hp & H).
  destruct pat as [sym ty|]; [|done]. injection Hp as ->.
  apply bind_ok in H as (e & He & H). destruct e as [e|]; [|done].
  apply bind_ok in H as ([query post] & Hs & H). destruct query as [[q x]|]; [|done].
  apply bind_ok in H as (qe & Hq & H). rewrite (rewrite_filter_arrow_body _ _ _ _ q He) in Hq. injection Hq as <-.
  apply bind_ok in H as (po & Hpo & H). injection H as <- <-.
  assert (po = (fun r => Ast.Arrow (Ast.mkArrow [Ast.PatIdent param ty] (with_predicate body r) rest)) <$> post) as ->.
  { destruct post as [r|]; [|by injection Hpo as <-].
    rewrite (rewrite_filter_arrow_body _ _ _ _ r He) in Hpo. by injection Hpo as <-. }
  exists spread, param, ty, body, rest, e, q, x, post.
  do 4 (split; [done|]). intros callee Hc. cbn. rewrite Hc. by destruct post.
Qed.

Lemma entity_method_prop expr method symbols : is_call_to_entity_method expr method symbols = true ->
  exists obj, expr = Ast.Member (Ast.mkMember obj (Ast.PropIdent method)).
Proof.
  destruct expr as [| | | |[obj prop]| | | | |]; try done. cbn. intros H.
  assert (is_ident_member_prop prop method = true) as Hp
    by (destruct (ident_to_string obj); [destruct (negb _) in H|]; done).
  destruct prop as [sym|]; [|done]. apply String.eqb_eq in Hp as ->. by exists obj.
Qed.

Lemma with_entity_type_some callee k op index : with_entity_type callee k = Ok (Some op, index) ->
  exists entity, lookup_callee_entity_type callee = Ok entity /\ k entity = Ok (Some op, index).
Proof. unfold with_entity_type. destruct (lookup_callee_entity_type callee); try done. by eexists. Qed.

(** The methods that are rewritten, each to one of its own. *)
Definition rewritable : list string := ["filter"; "findMany"; "findOne"].

Lemma infer_filter_some call symbols op index : infer_filter call symbols = Ok (Some op, index) ->
  exists obj entity, Ast.callee_of call = Ast.CalleeExpr (Ast.Member (Ast.mkMember obj (Ast.PropIdent "filter"))) /\
    lookup_callee_entity_type (Ast.callee_of call) = Ok entity /\
    extract_filter call entity "__filter" = Ok (Some op, index).
Proof.
  unfold infer_filter. destruct (is_rewritable_filter _ _) eqn:Hr; [|done]. intros H.
  apply with_entity_type_some in H as (entity & He & H).
  destruct (Ast.callee_of call) as [| |[| | | |[obj prop]| | | | |]]; try done. cbn in Hr.
  apply andb_prop in Hr as [Hp _]. destruct prop as [sym|]; [|done]. apply String.eqb_eq in Hp as ->. eauto.
Qed.

Lemma infer_find_some call symbols op index : infer_find call symbols = Ok (Some op, index) ->
  exists method obj entity, method ∈ ["findMany"; "findOne"] /\
    Ast.callee_of call = Ast.CalleeExpr (Ast.Member (Ast.mkMember obj (Ast.PropIdent method))) /\
    lookup_callee_entity_type (Ast.callee_of call) = Ok entity /\
    extract_filter call entity ("__" +:+ method) = Ok (Some op, index).
Proof.
  unfold infer_find, infer_rewritable_find, is_rewritable_find. intros H.
  destruct (Ast.callee_of call) as [| |expr] eqn:Hc; try done.
  destruct (is_call_to_entity_method expr "findMany" symbols) eqn:Hm;
    [|destruct (is_call_to_entity_method expr "findOne" symbols) eqn:Ho; [|done]].
  - apply with_entity_type_some in H as (entity & He & H). apply entity_method_prop in Hm as [obj ->].
    exists "findMany", obj, entity. repeat split; try done. set_solver.
  - apply with_entity_type_some in H as (entity & He & H). apply entity_method_prop in Ho as [obj ->].
    exists "findOne", obj, entity. repeat split; try done. set_solver.
Qed.

(** Everything about a call that is rewritten. *)
Lemma rewritten_call symbols call indexes call' indexes' :
  rewrite_call_as_filter symbols call indexes = Ok (Some call', indexes') ->
  exists method obj entity spread param ty body rest e q x post,
    method ∈ rewritable /\
    Ast.callee_of call = Ast.CalleeExpr (Ast.Member (Ast.mkMember obj (Ast.PropIdent method))) /\
    lookup_callee_entity_type (Ast.callee_of call) = Ok entity /\
    Ast.args_of call = [Ast.mkArg spread (Ast.Arrow (Ast.mkArrow [Ast.PatIdent param ty] body rest))] /\
    arrow_predicate body = Ok (Some e) /\ split_and_convert_expr e = Ok (Some (q, x), post) /\
    call' = Ast.mkCall (Ast.CalleeExpr (Ast.Member (Ast.mkMember obj (Ast.PropIdent ("__" +:+ method)))))
              (emitted_args param ty rest body q x post) None /\
    indexes' = push_index (filter_properties entity (Ir.expr_to_props x [])) indexes.
Proof.
  unfold rewrite_call_as_filter. intros H. apply bind_ok in H as ([filter index] & Hf & H).
  destruct filter as [filter|].
  - apply bind_ok in H as (c & Hc & H). injection H as <- <-.
    apply infer_filter_some in Hf as (obj & entity & Hcallee & He & Hx).
    apply extract_filter_some in Hx as (spread & param & ty & body & rest & e & q & x & post & Ha & Hb & Hs & -> & Ht).
    rewrite Hcallee in Ht. rewrite (Ht _ eq_refl) in Hc. injection Hc as <-.
    exists "filter", obj, entity, spread, param, ty, body, rest, e, q, x, post.
    repeat (split; [done || set_solver|]). done.
  - apply bind_ok in H as ([filter index'] & Hf' & H). destruct filter as [filter|]; [|done].
    apply bind_ok in H as (c & Hc & H). injection H as <- <-.
    apply infer_find_some in Hf' as (method & obj & entity & Hm & Hcallee & He & Hx).
    apply extract_filter_some in Hx as (spread & param & ty & body & rest & e & q & x & post & Ha & Hb & Hs & -> & Ht).
    rewrite Hcallee in Ht. rewrite (Ht _ eq_refl) in Hc. injection Hc as <-.
    exists method, obj, entity, spread, param, ty, body, rest, e, q, x, post.
    repeat (split; [done || set_solver|]).
    assert (index = None) as ->; [|done].
    unfold infer_filter in Hf. rewrite Hcallee in Hf. cbn in Hf.
    assert (String.eqb method "filter" = false) as Hne by (apply String.eqb_neq; set_solver).
    rewrite Hne in Hf. cbn in Hf. by injection Hf.
Qed.

(** A predicate the server can be sent: a literal, or operators on what is readable. *)
Definition sendable (scope : string -> option TsValue) (relation : list string -> bool) (param : string)
    (wire : f64 -> number) (q : Ast.Expr) : bool :=
  match q with Ast.Literal (Ast.Bool _) => true | _ => readable scope relation param wire q end.

Lemma sendable_converts scope relation host param wire `{!WireLaws wire} like q x :
  convert_filter_expr q = Ok (Some x) -> sendable scope relation param wire q = true ->
  exists y, read_as scope param wire x y /\ expr_wf y = true /\
    agrees scope relation host param wire like q y.
Proof.
  intros Hq Hs. destruct q as [|[| |b|]|b| | | | | | |]; try done.
  - injection Hq as <-. exists (EValue (VBool b)).
    split; [by apply (read_value scope param wire (make_bool_lit b) _ _ eq_refl eq_refl)|]. split; [done|].
    by intros row t _ [= <-].
  - destruct (readable_converts scope relation host param wire like _ Hs) as (x' & y & Hx & Hy & Hwf & Ha).
    assert (x' = x) as -> by (cbn in Hx, Hq; congruence). by exists y.
Qed.

(** C5: A rewritten call of [filter], [findMany] or [findOne] calls the
    internal method of the same object with two or three arguments: the arrow
    function of a predicate [q], an object, and the arrow function of the
    rest [r] of the predicate where it was split.  Evaluated, [q && r] keeps
    what the whole predicate kept, always.  The object is read by the server as a
    well-formed filter if [q] reads properties of the entity, literals and variables
    that hold scalars; and then, on the rows on which [q] tests only booleans and
    compares only finite numbers, or strings and booleans for equality, SQL gives
    the filter the truth TypeScript gives [q].  On other rows it need not: a
    missing property makes an inequality true in TypeScript and unknown in SQL
    ([inequality_loses_nulls]). *)
Theorem rewritten_filter_spec symbols call indexes call' indexes' :
  rewrite_call_as_filter symbols call indexes = Ok (Some call', indexes') ->
  exists method obj spread param ty body rest e q x post,
    method ∈ rewritable /\
    call' = Ast.mkCall (Ast.CalleeExpr (Ast.Member (Ast.mkMember obj (Ast.PropIdent ("__" +:+ method)))))
              (emitted_args param ty rest body q x post) None /\
    Ast.callee_of call = Ast.CalleeExpr (Ast.Member (Ast.mkMember obj (Ast.PropIdent method))) /\
    Ast.args_of call = [Ast.mkArg spread (Ast.Arrow (Ast.mkArrow [Ast.PatIdent param ty] body rest))] /\
    body = with_predicate body e /\
    forall scope relation host row,
      ts_keeps scope relation host param row e =
        (b ← ts_keeps scope relation host param row q;
         match post with
         | Some r => if (b : bool) then ts_keeps scope relation host param row r else Some false
         | None => Some b
         end) /\
      forall wire like, WireLaws wire -> sendable scope relation param wire q = true ->
        exists j y, literal_json scope wire (expr_to_ts x [param]) = Some j /\ expr_deserialize j = Some y /\
          expr_wf y = true /\
          (plain scope relation host param row q = true ->
           exists b, ts_keeps scope relation host param row q = Some b /\ Sem.sat like row y = Some b).
Proof.
  intros H. apply rewritten_call in H as (method & obj & entity & spread & param & ty & body & rest & e & q & x & post &
    Hm & Hc & _ & Ha & Hb & Hs & -> & _).
  exists method, obj, spread, param, ty, body, rest, e, q, x, post. do 4 (split; [done|]).
  split; [by apply arrow_predicate_body|]. intros scope relation host row.
  apply split_and_convert_splits in Hs as [Hsp Hq]. split.
  - destruct post as [r|]; cbn in Hsp; subst e; unfold ts_keeps.
    + cbn. destruct (ts_eval _ _ _ _ row q) as [v|]; [|done]. cbn. destruct (truthy v) eqn:Ht; [done|]. cbn. by rewrite Ht.
    + by destruct (ts_eval _ _ _ _ row q).
  - intros wire like HW Hsend.
    destruct (sendable_converts scope relation host param wire like q x Hq Hsend) as (y & (j & Hj & Hy) & Hwf & Hag).
    exists j, y. do 3 (split; [done|]). intros Hp. destruct (plain_bool _ _ _ _ _ _ Hp) as [b Hev].
    exists b. unfold ts_keeps. rewrite Hev. split; [done|].
    assert (Sem.eval like row y = VBool b) as Hy' by (apply (Hag row (TBool b)); [by rewrite Hp; apply orb_true_r|done]).
    unfold Sem.sat. by rewrite Hy'.
Qed.

(** A call that is split: [Person.findMany(p => p.age > 40 && p.name != banned && notify(p))]. *)
Module FilterSample.

Definition symbols : Symbols := {["Person"]}.
Definition property (prop : string) : Ast.Expr := Ast.Member (Ast.mkMember (Ast.Ident "p") (Ast.PropIdent prop)).
Definition older : Ast.Expr :=
  Ast.Bin (Ast.mkBin Ast.Gt (property "age") (Ast.Literal (Ast.Num (f64_of_Z 40)))).
Definition query : Ast.Expr :=
  Ast.Bin (Ast.mkBin Ast.LogicalAnd older
    (Ast.Bin (Ast.mkBin Ast.NotEq (property "name") (Ast.Ident "banned")))).
Definition notify : Ast.Expr :=
  Ast.Call (Ast.mkCall (Ast.CalleeExpr (Ast.Ident "notify")) [Ast.mkArg false (Ast.Ident "p")] None).
Definition arrow (e : Ast.Expr) : Ast.ExprOrSpread :=
  Ast.mkArg false (Ast.Arrow (Ast.mkArrow [Ast.PatIdent "p" ""] (Ast.BodyExpr e) "")).
Definition method (name : string) : Ast.Callee :=
  Ast.CalleeExpr (Ast.Member (Ast.mkMember (Ast.Ident "Person") (Ast.PropIdent name))).
Definition call : Ast.CallExpr :=
  Ast.mkCall (method "findMany") [arrow (Ast.Bin (Ast.mkBin Ast.LogicalAnd query notify))] None.

Definition predicate : Ir.QExpr :=
  Ir.BinaryExpr
    (Ir.BinaryExpr (Ir.PropertyAccess (Ir.Identifier "p") "age") Ir.Gt (Ir.EValue (Ir.Num (f64_of_Z 40)))) Ir.And
    (Ir.BinaryExpr (Ir.PropertyAccess (Ir.Identifier "p") "name") Ir.NotEq (Ir.Identifier "banned")).
Definition rewritten : Ast.CallExpr :=
  Ast.mkCall (method "__findMany")
    [arrow query; Ast.mkArg false (expr_to_ts predicate ["p"]); arrow notify] None.

Lemma call_rewritten : rewrite_call_as_filter symbols call [] =
  Ok (Some rewritten, [{| entity_name := "Person"; fp_properties := ["age"; "name"] |}]).
Proof. vm_compute. reflexivity. Qed.

(** What the predicate is evaluated in. *)
Definition scope (x : string) : option TsValue := if String.eqb x "banned" then Some (TStr "Eve") else None.
Definition relation (path : list string) : bool := false.
Definition host (e : Ast.Expr) (row : Sem.row) : option TsValue := None.
Definition row (path : list string) : Value :=
  if decide (path = ["age"]) then VF64 (f64_of_Z 41) else if decide (path = ["name"]) then VString "Bob" else VNull.
Definition like (s t : string) : bool := String.eqb s t.

(** A transport that writes zero as an integer and every other number as a float. *)
Definition wire (f : f64) : number :=
  match f with SpecFloat.S754_zero _ => PosInt 0 | _ => Float f end.

#[local] Instance wire_laws : WireLaws wire.
Proof. by split; [|intros f g Hf Hg; destruct f, g..]. Qed.

End FilterSample.

Lemma rewritten_filter_spec_witness :
  rewrite_call_as_filter FilterSample.symbols FilterSample.call [] =
    Ok (Some FilterSample.rewritten, [{| entity_name := "Person"; fp_properties := ["age"; "name"] |}]) /\
  exists j y,
    literal_json FilterSample.scope FilterSample.wire (expr_to_ts FilterSample.predicate ["p"]) = Some j /\
    expr_deserialize j = Some y /\ Sem.sat FilterSample.like FilterSample.row y = Some true.
Proof.
  split; [exact FilterSample.call_rewritten|].
  destruct (rewritten_filter_spec _ _ _ _ _ FilterSample.call_rewritten) as
    (method & obj & spread & param & ty & body & rest & e & q & x & post & _ & Hcall & _ & Hargs & _ & Hmeaning).
  injection Hargs as <- <- <- <- <-.
  pose proof (f_equal (fun c => Ast.arg_expr <$> Ast.args_of c !! 0) Hcall) as Hq.
  pose proof (f_equal (fun c => Ast.arg_expr <$> Ast.args_of c !! 1) Hcall) as Hobj.
  change (Some (expr_to_ts FilterSample.predicate ["p"]) = Some (expr_to_ts x ["p"])) in Hobj. apply (inj Some) in Hobj.
  change (Some (Ast.arg_expr (FilterSample.arrow FilterSample.query)) = Some (Ast.arg_expr (FilterSample.arrow q))) in Hq.
  assert (FilterSample.query = q) as <- by (unfold FilterSample.arrow in Hq; cbn [Ast.arg_expr] in Hq; congruence).
  destruct (Hmeaning FilterSample.scope FilterSample.relation FilterSample.host FilterSample.row) as [_ Hsql].
  destruct (Hsql FilterSample.wire FilterSample.like FilterSample.wire_laws) as (j & y & Hj & Hy & _ & Hp);
    [vm_compute; reflexivity|].
  exists j, y. split; [rewrite Hobj; exact Hj|]. split; [exact Hy|].
  destruct Hp as (b & Hb & Hs); [vm_compute; reflexivity|].
  assert (b = true) as -> by (revert Hb; vm_compute; congruence). exact Hs.
Defined.

(** ** The properties recorded *)

(** The last names of the accesses in a predicate. *)
Fixpoint accessed (e : Ast.Expr) : list string :=
  match e with
  | Ast.Paren e => accessed e
  | Ast.Bin (Ast.mkBin _ lhs rhs) => accessed lhs ++ accessed rhs
  | Ast.Member (Ast.mkMember _ (Ast.PropIdent prop)) => [prop]
  | _ => []
  end.

Lemma set_insert_NoDup x l : NoDup l -> NoDup (Ir.set_insert x l).
Proof.
  intros Hl. unfold Ir.set_insert. case_decide; [done|]. apply NoDup_app.
  split; [done|]. split; [set_solver|apply NoDup_singleton].
Qed.

Lemma set_insert_elem x y l : y ∈ Ir.set_insert x l <-> y ∈ l \/ y = x.
Proof. unfold Ir.set_insert. case_decide; set_solver. Qed.

Lemma expr_to_props_accessed e : forall x props, convert_expr e = Ok (Some x) -> NoDup props ->
  NoDup (Ir.expr_to_props x props) /\
  forall p, p ∈ Ir.expr_to_props x props <-> p ∈ props \/ p ∈ accessed e.
Proof.
  induction e as [e IH|op lhs rhs IHl IHr|obj prop _|e He] using predicate_ind; intros x props Hx Hp.
  - exact (IH x props Hx Hp).
  - cbn in Hx. apply bind_ok in Hx as (xl & Hl & Hx). apply bind_ok in Hx as (xr & Hr & Hx).
    destruct xl as [xl|]; [|done]. destruct (convert_binary_op op); [|done]. destruct xr as [xr|]; [|done].
    injection Hx as <-. destruct (IHl xl props Hl Hp) as [Nl El].
    destruct (IHr xr (Ir.expr_to_props xl props) Hr Nl) as [Nr Er]. split; [exact Nr|].
    intros p. cbn. rewrite Er, El, elem_of_app. tauto.
  - cbn in Hx. apply bind_ok in Hx as (xo & Ho & Hx). destruct xo as [xo|]; [|done].
    destruct prop as [prop|]; [|done]. injection Hx as <-. cbn. split; [by apply set_insert_NoDup|].
    intros p. rewrite set_insert_elem, list_elem_of_singleton. done.
  - destruct e as [z|[]| | | | | | | |]; try done; injection Hx as <-; cbn; (split; [done|]); set_solver.
Qed.

(** Rewriting a call records the entity at the root of the call chain with
    the last name of every property access of the predicate that is sent to the
    server: each once, and no others.  Nothing is recorded for a predicate that
    accesses no property. *)
Theorem recorded_properties_spec symbols call indexes call' indexes' :
  rewrite_call_as_filter symbols call indexes = Ok (Some call', indexes') ->
  exists entity param ty rest body q x post,
    Ast.args_of call' = emitted_args param ty rest body q x post /\
    lookup_callee_entity_type (Ast.callee_of call) = Ok entity /\
    (accessed q = [] /\ indexes' = indexes \/
     exists props, props <> [] /\ NoDup props /\ (forall p, p ∈ props <-> p ∈ accessed q) /\
       indexes' = indexes ++ [{| entity_name := entity; fp_properties := props |}]).
Proof.
  intros H. apply rewritten_call in H as (method & obj & entity & spread & param & ty & body & rest & e & q & x & post &
    _ & _ & He & _ & _ & Hs & -> & ->).
  exists entity, param, ty, rest, body, q, x, post. do 2 (split; [done|]).
  apply split_and_convert_splits in Hs as [_ Hq].
  assert (NoDup (Ir.expr_to_props x []) /\ forall p, p ∈ Ir.expr_to_props x [] <-> p ∈ accessed q) as [Hn Hx].
  { destruct q as [|[]| | | | | | | |]; try done; [injection Hq as <-; split; [constructor|set_solver]|].
    destruct (expr_to_props_accessed (Ast.Bin e0) x [] Hq ltac:(constructor)) as [Hn Hx]. split; [done|].
    intros p. rewrite Hx. set_solver. }
  destruct (Ir.expr_to_props x []) as [|p props] eqn:Hprops; [left|right].
  - split; [|done]. destruct (accessed q) as [|p l]; [done|]. exfalso. by apply (not_elem_of_nil p), Hx, list_elem_of_here.
  - by exists (p :: props).
Qed.

Lemma recorded_properties_spec_witness :
  rewrite_call_as_filter FilterSample.symbols FilterSample.call [] =
    Ok (Some FilterSample.rewritten, [{| entity_name := "Person"; fp_properties := ["age"; "name"] |}]) /\
  exists entity, lookup_callee_entity_type (Ast.callee_of FilterSample.call) = Ok entity /\ entity = "Person".
Proof.
  split; [exact FilterSample.call_rewritten|].
  destruct (recorded_properties_spec _ _ _ _ _ FilterSample.call_rewritten) as
    (entity & param & ty & rest & body & q & x & post & _ & He & _).
  exists entity. split; [exact He|]. injection He as <-. reflexivity.
Defined.

(** ** What the rewriter changes *)

Section Changes.
Context (symbols : Symbols).

(** The trees differ only in rewritten calls. *)
Inductive changed : Ast.Expr -> Ast.Expr -> Prop :=
  | changed_same e : changed e e
  | changed_filter call call' indexes indexes' :
      rewrite_call_as_filter symbols call indexes = Ok (Some call', indexes') ->
      changed (Ast.Call call) (Ast.Call call')
  | changed_await e e' : changed e e' -> changed (Ast.Await e) (Ast.Await e')
  | changed_member obj obj' prop : changed obj obj' ->
      changed (Ast.Member (Ast.mkMember obj prop)) (Ast.Member (Ast.mkMember obj' prop))
  | changed_call callee callee' args args' type_args : changed_callee callee callee' ->
      Forall2 changed_arg args args' ->
      changed (Ast.Call (Ast.mkCall callee args type_args)) (Ast.Call (Ast.mkCall callee' args' type_args))
  | changed_arrow params e e' rest : changed e e' ->
      changed (Ast.Arrow (Ast.mkArrow params (Ast.BodyExpr e) rest)) (Ast.Arrow (Ast.mkArrow params (Ast.BodyExpr e') rest))
  | changed_block params stmts stmts' rest : Forall2 changed_stmt stmts stmts' ->
      changed (Ast.Arrow (Ast.mkArrow params (Ast.BlockStmt stmts) rest))
        (Ast.Arrow (Ast.mkArrow params (Ast.BlockStmt stmts') rest))
with changed_callee : Ast.Callee -> Ast.Callee -> Prop :=
  | changed_callee_same callee : changed_callee callee callee
  | changed_callee_expr e e' : changed e e' -> changed_callee (Ast.CalleeExpr e) (Ast.CalleeExpr e')
with changed_arg : Ast.ExprOrSpread -> Ast.ExprOrSpread -> Prop :=
  | changed_arg_expr spread e e' : changed e e' -> changed_arg (Ast.mkArg spread e) (Ast.mkArg spread e')
with changed_stmt : Ast.Stmt -> Ast.Stmt -> Prop :=
  | changed_stmt_same stmt : changed_stmt stmt stmt
  | changed_expr_stmt e e' : changed e e' -> changed_stmt (Ast.ExprStmt e) (Ast.ExprStmt e')
  | changed_var_decl kind decls decls' : Forall2 changed_var decls decls' ->
      changed_stmt (Ast.VarDecl kind decls) (Ast.VarDecl kind decls')
with changed_var : Ast.VarDeclarator -> Ast.VarDeclarator -> Prop :=
  | changed_var_none name : changed_var (Ast.mkVar name None) (Ast.mkVar name None)
  | changed_var_init name e e' : changed e e' -> changed_var (Ast.mkVar name (Some e)) (Ast.mkVar name (Some e')).

Inductive changed_item : Ast.ModuleItem -> Ast.ModuleItem -> Prop :=
  | changed_item_same item : changed_item item item
  | changed_item_stmt stmt stmt' : changed_stmt stmt stmt' ->
      changed_item (Ast.ItemStmt stmt) (Ast.ItemStmt stmt')
  | changed_item_fn signature stmts stmts' : Forall2 changed_stmt stmts stmts' ->
      changed_item (Ast.ExportDefaultFn signature (Some stmts)) (Ast.ExportDefaultFn signature (Some stmts')).

(** *** Induction on what the rewriter visits *)
Section VisitInd.
Context (P : Ast.Expr -> Prop) (Q : Ast.Stmt -> Prop).
Context (Hawait : forall e, P e -> P (Ast.Await e)).
Context (Hmember : forall obj prop, P obj -> P (Ast.Member (Ast.mkMember obj prop))).
Context (Hcall : forall callee args type_args, (forall e, callee = Ast.CalleeExpr e -> P e) ->
  Forall (fun arg => P (Ast.arg_expr arg)) args -> P (Ast.Call (Ast.mkCall callee args type_args))).
Context (Harrow : forall params e rest, P e -> P (Ast.Arrow (Ast.mkArrow params (Ast.BodyExpr e) rest))).
Context (Hblock : forall params stmts rest, Forall Q stmts ->
  P (Ast.Arrow (Ast.mkArrow params (Ast.BlockStmt stmts) rest))).
Context (Hleaf : forall e, match e with
  | Ast.Await _ | Ast.Member _ | Ast.Call _ | Ast.Arrow _ => False | _ => True end -> P e).
Context (Hexpr : forall e, P e -> Q (Ast.ExprStmt e)).
Context (Hvar : forall kind decls, Forall (fun decl => let 'Ast.mkVar _ init := decl in from_option P True init) decls ->
  Q (Ast.VarDecl kind decls)).
Context (Hstmt : forall stmt, match stmt with Ast.ExprStmt _ | Ast.VarDecl _ _ => False | _ => True end -> Q stmt).

Fixpoint visit_ind (e : Ast.Expr) : P e :=
  match e with
  | Ast.Await e => Hawait e (visit_ind e)
  | Ast.Member (Ast.mkMember obj prop) => Hmember obj prop (visit_ind obj)
  | Ast.Call (Ast.mkCall callee args type_args) =>
      Hcall callee args type_args
        (match callee with
         | Ast.CalleeExpr e' => fun e H => match H in _ = c return (match c with Ast.CalleeExpr e => P e | _ => True end) with
                                          | eq_refl => visit_ind e' end
         | _ => fun e H => match H in _ = c return (match c with Ast.CalleeExpr e => P e | _ => True end) with
                           | eq_refl => I end
         end)
        ((fix go args := match args return Forall (fun arg => P (Ast.arg_expr arg)) args with
          | [] => List.Forall_nil _
          | Ast.mkArg spread e :: args => List.Forall_cons _ (Ast.mkArg spread e) _ (visit_ind e) (go args)
          end) args)
  | Ast.Arrow (Ast.mkArrow params (Ast.BodyExpr e) rest) => Harrow params e rest (visit_ind e)
  | Ast.Arrow (Ast.mkArrow params (Ast.BlockStmt stmts) rest) =>
      Hblock params stmts rest
        ((fix go stmts := match stmts return Forall Q stmts with
          | [] => List.Forall_nil _
          | stmt :: stmts => List.Forall_cons _ _ _ (visit_stmt_ind stmt) (go stmts)
          end) stmts)
  | e => Hleaf e I
  end
with visit_stmt_ind (stmt : Ast.Stmt) : Q stmt :=
  match stmt with
  | Ast.ExprStmt e => Hexpr e (visit_ind e)
  | Ast.VarDecl kind decls =>
      Hvar kind decls
        ((fix go decls := match decls return Forall (fun decl => let 'Ast.mkVar _ init := decl in from_option P True init) decls with
          | [] => List.Forall_nil _
          | Ast.mkVar name (Some e) :: decls => List.Forall_cons _ (Ast.mkVar name (Some e)) _ (visit_ind e) (go decls)
          | Ast.mkVar name None :: decls => List.Forall_cons _ (Ast.mkVar name None) _ I (go decls)
          end) decls)
  | stmt => Hstmt stmt I
  end.
Definition visit_both : (forall e, P e) /\ (forall stmt, Q stmt) := conj visit_ind visit_stmt_ind.
End VisitInd.

(** *** The rewriter *)

(** A step of the rewriter: a result in relation [R], nothing recorded lost. *)
Definition step {A} (R : A -> A -> Prop) (f : A -> Indexes -> result (A * Indexes)) (x : A) : Prop :=
  forall indexes y indexes', f x indexes = Ok (y, indexes') -> R x y /\ indexes `prefix_of` indexes'.

Lemma map_indexed_step {A} (R : A -> A -> Prop) f (l : list A) :
  Forall (step R f) l -> step (Forall2 R) (map_indexed f) l.
Proof.
  induction 1 as [|x l Hx _ IH]; intros indexes y indexes' H; cbn in H; [by injection H as <- <-|].
  apply bind_ok in H as ([x' i1] & H1 & H). apply bind_ok in H as ([l' i2] & H2 & H). injection H as <- <-.
  destruct (Hx _ _ _ H1), (IH _ _ _ H2). split; [by constructor|by etrans].
Qed.

Lemma push_index_prefix index indexes : indexes `prefix_of` push_index index indexes.
Proof. destruct index; [by eexists|done]. Qed.

Lemma call_as_filter_prefix call indexes call' indexes' :
  rewrite_call_as_filter symbols call indexes = Ok (call', indexes') -> indexes `prefix_of` indexes'.
Proof.
  unfold rewrite_call_as_filter. intros H. apply bind_ok in H as ([filter i1] & _ & H).
  destruct filter; [apply bind_ok in H as (c & _ & H); injection H as _ <-; apply push_index_prefix|].
  apply bind_ok in H as ([filter i2] & _ & H).
  assert (indexes `prefix_of` push_index i2 (push_index i1 indexes)) as Hp
    by (etrans; apply push_index_prefix).
  destruct filter; [apply bind_ok in H as (c & _ & H)|]; by injection H as _ <-.
Qed.

Lemma rewrite_callee_step callee : (forall e, callee = Ast.CalleeExpr e -> step changed (rewrite_expr symbols) e) ->
  step changed_callee (rewrite_callee symbols) callee.
Proof.
  intros IH indexes y indexes' H. destruct callee as [| |e]; try (injection H as <- <-; by split; [constructor|]).
  cbn in H. apply bind_ok in H as ([e' i] & He & H). injection H as <- <-.
  destruct (IH e eq_refl _ _ _ He). by split; [constructor|].
Qed.

Lemma rewrite_args_step args : Forall (fun arg => step changed (rewrite_expr symbols) (Ast.arg_expr arg)) args ->
  step (Forall2 changed_arg) (map_indexed (rewrite_expr_or_spread symbols)) args.
Proof.
  intros H. apply map_indexed_step. eapply Forall_impl; [exact H|]. intros [spread e] He indexes y indexes' Hr.
  cbn in Hr. apply bind_ok in Hr as ([e' i] & Hr & Heq). injection Heq as <- <-.
  destruct (He _ _ _ Hr). by split; [constructor|].
Qed.

Lemma rewrite_decls_step decls :
  Forall (fun decl => let 'Ast.mkVar _ init := decl in from_option (step changed (rewrite_expr symbols)) True init) decls ->
  step (Forall2 changed_var) (map_indexed (rewrite_var_declarator symbols)) decls.
Proof.
  intros H. apply map_indexed_step. eapply Forall_impl; [exact H|]. intros [name [e|]] He indexes y indexes' Hr; cbn in Hr.
  - apply bind_ok in Hr as ([e' i] & Hr & Heq). injection Heq as <- <-.
    apply bind_ok in Hr as ([e'' i'] & Hr & Heq). injection Heq as <- <-.
    destruct (He _ _ _ Hr). by split; [constructor|].
  - injection Hr as <- <-. by split; [constructor|].
Qed.

Lemma rewrite_call_step callee args type_args :
  (forall e, callee = Ast.CalleeExpr e -> step changed (rewrite_expr symbols) e) ->
  Forall (fun arg => step changed (rewrite_expr symbols) (Ast.arg_expr arg)) args ->
  step changed (rewrite_expr symbols) (Ast.Call (Ast.mkCall callee args type_args)).
Proof.
  intros Hc Ha indexes y indexes' H. cbn [rewrite_expr] in H. apply bind_ok in H as ([call i] & H & Heq).
  injection Heq as <- <-. cbn [rewrite_call_expr] in H. apply bind_ok in H as ([filter i1] & Hf & H).
  pose proof (call_as_filter_prefix _ _ _ _ Hf) as Hp. destruct filter as [call'|].
  - injection H as <- <-. split; [by eapply changed_filter|done].
  - apply bind_ok in H as ([args' i2] & Hargs & H). apply bind_ok in H as ([callee' i3] & Hcallee & H).
    injection H as <- <-. destruct (rewrite_args_step _ Ha _ _ _ Hargs), (rewrite_callee_step _ Hc _ _ _ Hcallee).
    split; [by constructor|]. by do 2 etrans.
Qed.

Lemma rewrite_step : (forall e, step changed (rewrite_expr symbols) e) /\
  (forall stmt, step changed_stmt (rewrite_stmt symbols) stmt).
Proof.
  apply visit_both.
  - intros e IH indexes y indexes' H. cbn in H. apply bind_ok in H as ([e' i] & H & Heq). injection Heq as <- <-.
    destruct (IH _ _ _ H). by split; [constructor|].
  - intros obj prop IH indexes y indexes' H. cbn in H. apply bind_ok in H as ([m i] & H & Heq). injection Heq as <- <-.
    apply bind_ok in H as ([e' i'] & H & Heq). injection Heq as <- <-. destruct (IH _ _ _ H). by split; [constructor|].
  - apply rewrite_call_step.
  - intros params e rest IH indexes y indexes' H. cbn in H. apply bind_ok in H as ([a i] & H & Heq).
    injection Heq as <- <-. apply bind_ok in H as ([b i'] & H & Heq). injection Heq as <- <-.
    apply bind_ok in H as ([e' i] & H & Heq). injection Heq as <- <-. destruct (IH _ _ _ H). by split; [constructor|].
  - intros params stmts rest IH indexes y indexes' H. cbn in H. apply bind_ok in H as ([a i] & H & Heq).
    injection Heq as <- <-. apply bind_ok in H as ([b i'] & H & Heq). injection Heq as <- <-.
    apply bind_ok in H as ([e' i] & H & Heq). injection Heq as <- <-.
    destruct (map_indexed_step _ _ _ IH _ _ _ H). by split; [constructor|].
  - intros e He indexes y indexes' H. destruct e; try done; injection H as <- <-; by split; [constructor|].
  - intros e IH indexes y indexes' H. cbn in H. apply bind_ok in H as ([e' i] & H & Heq). injection Heq as <- <-.
    destruct (IH _ _ _ H). by split; [constructor|].
  - intros kind decls IH indexes y indexes' H. cbn in H. apply bind_ok in H as ([d i] & H & Heq). injection Heq as <- <-.
    destruct (rewrite_decls_step _ IH _ _ _ H). by split; [constructor|].
  - intros stmt Hs indexes y indexes' H. destruct stmt; try done; injection H as <- <-; by split; [constructor|].
Qed.

Lemma rewrite_item_step item : step changed_item (rewrite_item symbols) item.
Proof.
  destruct item as [stmt|signature body|src]; intros indexes y indexes' H; cbn in H.
  - apply bind_ok in H as ([stmt' i] & H & Heq). injection Heq as <- <-.
    destruct (proj2 rewrite_step stmt _ _ _ H). by split; [constructor|].
  - apply bind_ok in H as ([body' i] & H & Heq). injection Heq as <- <-. destruct body as [stmts|]; cbn in H.
    + apply bind_ok in H as ([stmts' i'] & H & Heq). injection Heq as <- <-.
      assert (step (Forall2 changed_stmt) (map_indexed (rewrite_stmt symbols)) stmts) as Hs
        by (apply map_indexed_step, Forall_true, rewrite_step).
      destruct (Hs _ _ _ H). by split; [constructor|].
    + injection H as <- <-. by split; [constructor|].
  - injection H as <- <-. by split; [constructor|].
Qed.
End Changes.

(** Rewriting a module changes nothing but calls: item by item the
    result is the module with some calls replaced by what
    [rewrite_call_as_filter] emits for them, and everything else, whatever it
    holds, as it was. *)
Theorem rewrite_changes_calls symbols m m' indexes : rewrite symbols m = Ok (m', indexes) ->
  Forall2 (changed_item symbols) m m'.
Proof.
  intros H. assert (step (Forall2 (changed_item symbols)) (map_indexed (rewrite_item symbols)) m) as Hm
    by (apply map_indexed_step, Forall_true, rewrite_item_step).
  by destruct (Hm _ _ _ H).
Qed.

(** [export default function f() \{ const people = await Person.findMany(...); \}] *)
Definition sample_module (call : Ast.CallExpr) : Ast.Module_ :=
  [Ast.OtherDecl "import Person";
   Ast.ExportDefaultFn "function f" (Some [Ast.VarDecl "const"
     [Ast.mkVar (Ast.PatIdent "people" "") (Some (Ast.Await (Ast.Call call)))]])].

Lemma sample_rewritten : rewrite FilterSample.symbols (sample_module FilterSample.call) =
  Ok (sample_module FilterSample.rewritten, [{| entity_name := "Person"; fp_properties := ["age"; "name"] |}]).
Proof. vm_compute. reflexivity. Qed.

Lemma rewrite_changes_calls_witness :
  rewrite FilterSample.symbols (sample_module FilterSample.call) =
    Ok (sample_module FilterSample.rewritten, [{| entity_name := "Person"; fp_properties := ["age"; "name"] |}]) /\
  Forall2 (changed_item FilterSample.symbols) (sample_module FilterSample.call) (sample_module FilterSample.rewritten).
Proof.
  split; [exact sample_rewritten|]. exact (rewrite_changes_calls _ _ _ _ sample_rewritten).
Defined.

(** ** Where the two languages part *)

(** [p => p.prop != s], for a literal [s]. *)
Definition differs (prop s : string) : Ast.Expr :=
  Ast.Bin (Ast.mkBin Ast.NotEq (Ast.Member (Ast.mkMember (Ast.Ident "p") (Ast.PropIdent prop))) (Ast.Literal (Ast.Str s))).
Definition find_differing (prop s : string) : Ast.CallExpr :=
  Ast.mkCall (FilterSample.method "findMany") [FilterSample.arrow (differs prop s)] None.

(** On an entity whose optional property is not set, [p => p.prop != s]
    is true in TypeScript; the filter the call is rewritten to is unknown in
    SQL, so the database leaves the entity out: the rewritten call returns
    fewer entities than the one it replaces. *)
Theorem inequality_loses_nulls prop s scope relation host wire like row : WireLaws wire ->
  row [prop] = VNull -> relation [prop] = false ->
  exists call' x y j,
    rewrite_call_as_filter FilterSample.symbols (find_differing prop s) [] =
      Ok (Some call', [{| entity_name := "Person"; fp_properties := [prop] |}]) /\
    Ast.args_of call' = [FilterSample.arrow (differs prop s); Ast.mkArg false (expr_to_ts x ["p"])] /\
    literal_json scope wire (expr_to_ts x ["p"]) = Some j /\ expr_deserialize j = Some y /\
    ts_keeps scope relation host "p" row (differs prop s) = Some true /\ Sem.sat like row y = None.
Proof.
  intros HW Hrow Hrel.
  set (x := Ir.BinaryExpr (Ir.PropertyAccess (Ir.Identifier "p") prop) Ir.NotEq (Ir.EValue (Ir.Str s))).
  assert (read_as scope "p" wire x (EBinary (EProperty prop (EParameter 0)) OpNotEq (EValue (VString s)))) as (j & Hj & Hy).
  { apply (read_binary scope "p" wire); [apply read_property_access, read_param; done|].
    by apply (read_value scope "p" wire (make_str_lit s) _ _ eq_refl eq_refl). }
  exists (Ast.mkCall (FilterSample.method "__findMany")
            [FilterSample.arrow (differs prop s); Ast.mkArg false (expr_to_ts x ["p"])] None), x.
  eexists _, j. split.
  { unfold rewrite_call_as_filter, find_differing, infer_find, infer_rewritable_find. cbn -[FilterSample.symbols].
    assert (is_entity FilterSample.symbols "Person" = true) as -> by (vm_compute; reflexivity). cbn.
    unfold from_filter, Ir.properties. cbn. unfold Ir.set_insert. rewrite decide_False by (by intros ?%not_elem_of_nil). done. }
  do 3 (split; [done|]). split.
  - unfold ts_keeps. cbn. unfold read_property. rewrite String.eqb_refl. cbn. by rewrite Hrel, Hrow.
  - unfold Sem.sat. cbn. by rewrite Hrow.
Qed.

Lemma inequality_loses_nulls_witness :
  exists call' x y j,
    rewrite_call_as_filter FilterSample.symbols (find_differing "nick" "Bob") [] =
      Ok (Some call', [{| entity_name := "Person"; fp_properties := ["nick"] |}]) /\
    Ast.args_of call' = [FilterSample.arrow (differs "nick" "Bob"); Ast.mkArg false (expr_to_ts x ["p"])] /\
    literal_json FilterSample.scope FilterSample.wire (expr_to_ts x ["p"]) = Some j /\ expr_deserialize j = Some y /\
    ts_keeps FilterSample.scope FilterSample.relation FilterSample.host "p" FilterSample.row (differs "nick" "Bob") = Some true /\
    Sem.sat FilterSample.like FilterSample.row y = None.
Proof.
  exact (inequality_loses_nulls "nick" "Bob" FilterSample.scope FilterSample.relation FilterSample.host FilterSample.wire
    FilterSample.like FilterSample.row FilterSample.wire_laws eq_refl eq_refl).
Defined.
