(* ===== verification/Migrate.v ===== *)
(** * Migrations of the metadata schema ([server/src/datastore/meta/migrate.rs],
    [migrate_to_2.rs], [mod.rs])

    A server that starts brings the metadata tables from the version that wrote
    them to its own, step by step, in one transaction; it may first copy two
    old SQLite files into one. *)

From S2P Require Import Prelude Engine Meta.

(** ** The database

    Tables with their definitions, as the statements build them.  Every foreign
    key cascades on deletion, and none refers to a table that is renamed or
    dropped here. *)

Inductive AnyKind := Sqlite | Postgres.

#[export] Instance AnyKind_eq_dec : EqDecision AnyKind.
Proof. solve_decision. Defined.

Inductive ColumnType := Integer | Text | Boolean | Uuid | Jsonb | OtherType (name : string).

#[export] Instance ColumnType_eq_dec : EqDecision ColumnType.
Proof. solve_decision. Defined.

Record ColumnDef := {
  cd_name : string;
  cd_type : ColumnType;
  cd_auto_increment : bool;
  cd_primary_key : bool;
  cd_unique_key : bool;
}.

#[export] Instance ColumnDef_eq_dec : EqDecision ColumnDef.
Proof. solve_decision. Defined.

Definition col (name : string) (ty : ColumnType) : ColumnDef :=
  {| cd_name := name; cd_type := ty; cd_auto_increment := false; cd_primary_key := false; cd_unique_key := false |}.
Definition unique_key (c : ColumnDef) : ColumnDef :=
  {| cd_name := cd_name c; cd_type := cd_type c; cd_auto_increment := cd_auto_increment c;
     cd_primary_key := cd_primary_key c; cd_unique_key := true |}.
Definition primary_key (c : ColumnDef) : ColumnDef :=
  {| cd_name := cd_name c; cd_type := cd_type c; cd_auto_increment := cd_auto_increment c;
     cd_primary_key := true; cd_unique_key := cd_unique_key c |}.
Definition auto_increment (c : ColumnDef) : ColumnDef :=
  {| cd_name := cd_name c; cd_type := cd_type c; cd_auto_increment := true;
     cd_primary_key := cd_primary_key c; cd_unique_key := cd_unique_key c |}.

Record ForeignKey := { fk_column : string; fk_ref_table : string; fk_ref_column : string }.

#[export] Instance ForeignKey_eq_dec : EqDecision ForeignKey.
Proof. solve_decision. Defined.

Record TableDef := {
  td_columns : list ColumnDef;
  td_primary_key : list string;
  td_foreign_keys : list ForeignKey;
}.

#[export] Instance TableDef_eq_dec : EqDecision TableDef.
Proof. solve_decision. Defined.

Inductive Cell := CNull | CText (s : string) | CInt (n : Z) | CBool (b : bool).

#[export] Instance Cell_eq_dec : EqDecision Cell.
Proof. solve_decision. Defined.

Record Table := { t_def : TableDef; t_rows : list (list Cell) }.
Abbreviation Database := (gmap string Table).

Definition position (name : string) (def : TableDef) : option nat :=
  fst <$> list_find (fun c => cd_name c = name) (td_columns def).

(** The cell of a row under a column. *)
Definition cell (def : TableDef) (name : string) (row : list Cell) : option Cell :=
  i ← position name def; row !! i.

(** ** Keys *)

Definition keys_of (def : TableDef) : list (list string) :=
  (match td_primary_key def with [] => [] | key => [key] end) ++
  omap (fun c => if cd_primary_key c || cd_unique_key c then Some [cd_name c] else None) (td_columns def).

(** The values of a key; a row with a [NULL] among them conflicts with none. *)
Definition key_values (def : TableDef) (key : list string) (row : list Cell) : option (list Cell) :=
  values ← mapM (fun name => cell def name row) key;
  if bool_decide (CNull ∈ values) then None else Some values.

Definition keys_hold (def : TableDef) (rows : list (list Cell)) : bool :=
  forallb (fun key => bool_decide (NoDup (omap (key_values def key) rows))) (keys_of def).

(** ** Transactions

    A statement that fails has no effect; in Postgres it also aborts the
    transaction, and every later statement fails. *)

Record Transaction := { tx_db : Database; tx_aborted : bool }.

Definition Tx (A : Type) : Type := Transaction -> Transaction * result A.

#[export] Instance Tx_ret : MRet Tx := fun A a tx => (tx, Ok a).
#[export] Instance Tx_bind : MBind Tx := fun A B k m tx =>
  match m tx with
  | (tx, Ok a) => k a tx
  | (tx, Err e) => (tx, Err e)
  | (tx, Panic w) => (tx, Panic w)
  end.

Definition lift {A} (r : result A) : Tx A := fun tx => (tx, r).
(** [let _: Result<_> = ...] *)
Definition ignore {A} (m : Tx A) : Tx unit := fun tx =>
  match m tx with
  | (tx, Panic w) => (tx, Panic w)
  | (tx, _) => (tx, Ok ())
  end.

Inductive SchemaStatement :=
  | CreateTable (name : string) (if_not_exists : bool) (def : TableDef)
  | DropTable (name : string)
  | RenameTable (from to : string)
  | AddColumn (table : string) (c : ColumnDef).

Section Kind.
Context (kind : AnyKind).

Definition statement {A} (f : Database -> option (Database * A)) : Tx A := fun tx =>
  if tx_aborted tx then (tx, Err (AMsg "current transaction is aborted"))
  else
    match f (tx_db tx) with
    | Some (db, a) => ({| tx_db := db; tx_aborted := false |}, Ok a)
    | None =>
        ({| tx_db := tx_db tx; tx_aborted := bool_decide (kind = Postgres) |}, Err (AMsg "Failed to execute query"))
    end.

Definition run_schema (stmt : SchemaStatement) (db : Database) : option Database :=
  match stmt with
  | CreateTable name if_not_exists def =>
      match db !! name with
      | Some _ => if if_not_exists then Some db else None
      | None => Some (<[name := {| t_def := def; t_rows := [] |}]> db)
      end
  | DropTable name => match db !! name with Some _ => Some (base.delete name db) | None => None end
  | RenameTable from to =>
      match db !! from, db !! to with
      | Some t, None => Some (<[to := t]> (base.delete from db))
      | _, _ => None
      end
  | AddColumn table c =>
      match db !! table with
      | Some t =>
          if decide (cd_name c ∈ cd_name <$> td_columns (t_def t)) then None
          else
            let def := {| td_columns := td_columns (t_def t) ++ [c]; td_primary_key := td_primary_key (t_def t);
                          td_foreign_keys := td_foreign_keys (t_def t) |} in
            Some (<[table := {| t_def := def; t_rows := (fun row => row ++ [CNull]) <$> t_rows t |}]> db)
      | None => None
      end
  end.

Definition execute_stmt (stmt : SchemaStatement) : Tx unit :=
  statement (fun db => (., ()) <$> run_schema stmt db).

(** [SELECT columns FROM table], in any order. *)
Context {RO : RowOrder}.

Definition select (columns : list string) (table : string) : Tx (list (list Cell)) :=
  statement (fun db =>
    t ← db !! table;
    _ ← mapM (fun c => position c (t_def t)) columns;
    rows ← mapM (fun row => mapM (fun c => cell (t_def t) c row) columns) (t_rows t);
    Some (db, in_order rows)).

(** [INSERT INTO table (columns) VALUES rows] *)
Definition place (def : TableDef) (columns : list string) (values : list Cell) : list Cell :=
  (fun c => default CNull (alist_get (cd_name c) (zip columns values))) <$> td_columns def.

Definition insert (table : string) (columns : list string) (rows : list (list Cell)) : Tx unit :=
  statement (fun db =>
    t ← db !! table;
    if negb (forallb (fun c => bool_decide (is_Some (position c (t_def t)))) columns) then None
    else
      let rows := t_rows t ++ (place (t_def t) columns <$> rows) in
      if keys_hold (t_def t) rows then Some (<[table := {| t_def := t_def t; t_rows := rows |}]> db, ()) else None).
End Kind.

(** ** The sources of old versions ([migrate_to_2.rs]) *)

Record SourceRow := { sr_path : string; sr_code : string }.
Record ModuleRow := { mr_version_id : string; mr_url : string; mr_code : string }.
Record Source := { s_path : string; s_code : string }.
Record EndpointSource := { route : string; source : Source }.
Record VersionSourceMap := { vsm_version_id : string; endpoints : list EndpointSource; others : list Source }.
Record SourcePath := { sp_version_id : string; sp_path : string; endpoint_route : option string }.

Definition parse_source_path (path : string) : option SourcePath :=
  let path := trim_start_char "/"%char path in
  '(version_id, rel_path) ← split_once "/"%char path;
  let endpoint_route :=
    match split_once "/"%char rel_path with
    | Some (dir, endpoint_rel_path) =>
        if String.eqb dir "endpoints" || String.eqb dir "routes"
        then Some (trim_end_matches ".js" (trim_end_matches ".ts" endpoint_rel_path))
        else None
    | None => None
    end in
  Some {| sp_version_id := version_id; sp_path := path; endpoint_route := endpoint_route |}.

Definition path_to_url (path : string) : string := "file:///" +:+ path.

Definition endpoint_lines (i : nat) (endpoint : EndpointSource) : list string :=
  let import_url := path_to_url (s_path (source endpoint)) in
  ["import endpoint" +:+ pretty i +:+ " from " +:+ debug_str import_url +:+ ";";
   "routeMap.prefix(" +:+ debug_str (route endpoint) +:+ ", RouteMap.convert(endpoint" +:+ pretty i +:+ ", " +:+
     debug_str (route endpoint) +:+ "));"].

Definition codegen_root (version_id : string) (endpoints : list EndpointSource) : ModuleRow :=
  let lines :=
    ["// this code was migrated by server/src/datastore/meta/migrate_to_2.rs";
     "import { RouteMap } from 'chisel://api/routing.ts';";
     "import { TopicMap } from 'chisel://api/kafka.ts';";
     "export const routeMap = new RouteMap();";
     "export const topicMap = new TopicMap();";
     ""] ++ concat (imap endpoint_lines endpoints) in
  {| mr_version_id := version_id; mr_url := "file:///__root.ts"; mr_code := str_join newline lines |}.

Definition migrate_source (version_id : string) (source : Source) : ModuleRow :=
  {| mr_version_id := version_id; mr_url := path_to_url (s_path source); mr_code := s_code source |}.

Definition migrate_version (source_map : VersionSourceMap) : list ModuleRow :=
  codegen_root (vsm_version_id source_map) (endpoints source_map) ::
  ((fun endpoint => migrate_source (vsm_version_id source_map) (source endpoint)) <$> endpoints source_map) ++
  (migrate_source (vsm_version_id source_map) <$> others source_map).

Definition add_source (source_maps : gmap string VersionSourceMap) (row : SourceRow) : gmap string VersionSourceMap :=
  match parse_source_path (sr_path row) with
  | None => source_maps
  | Some source_path =>
      let source := {| s_path := sp_path source_path; s_code := sr_code row |} in
      let version_id := sp_version_id source_path in
      let source_map := default {| vsm_version_id := version_id; endpoints := []; others := [] |}
                          (source_maps !! version_id) in
      <[version_id :=
          match endpoint_route source_path with
          | Some route =>
              {| vsm_version_id := vsm_version_id source_map;
                 endpoints := endpoints source_map ++ [{| route := route; source := source |}];
                 others := others source_map |}
          | None =>
              {| vsm_version_id := vsm_version_id source_map; endpoints := endpoints source_map;
                 others := others source_map ++ [source] |}
          end]> source_maps
  end.

Section Steps.
(** The order of the rows of a query and of the entries of a [HashMap]. *)
Context {RO : RowOrder}.
(** Does Postgres cast the text to JSON? *)
Context (valid_json : string -> bool).
Context (kind : AnyKind).

Abbreviation execute_stmt := (execute_stmt kind).

Definition migrate_sources (source_rows : list SourceRow) : list ModuleRow :=
  concat (migrate_version <$> (in_order (map_to_list (foldl add_source ∅ source_rows))).*2).

(** ** The steps *)

(** [id INTEGER REFERENCES table(id) ON DELETE CASCADE] and tables made of columns. *)
Definition references (column table ref_column : string) : ForeignKey :=
  {| fk_column := column; fk_ref_table := table; fk_ref_column := ref_column |}.
Definition table (columns : list ColumnDef) (foreign_keys : list ForeignKey) : TableDef :=
  {| td_columns := columns; td_primary_key := []; td_foreign_keys := foreign_keys |}.

Definition types_0 : TableDef :=
  table [primary_key (auto_increment (col "type_id" Integer)); unique_key (col "backing_table" Text);
         unique_key (col "api_version" Text)] [].
Definition type_names_0 : TableDef :=
  table [col "type_id" Integer; unique_key (col "name" Text)] [references "type_id" "types" "type_id"].
Definition fields_0 : TableDef :=
  table [primary_key (auto_increment (col "field_id" Integer)); col "field_type" Text; col "default_value" Text;
         col "is_optional" Boolean; col "type_id" Integer] [references "type_id" "types" "type_id"].
Definition field_names_0 : TableDef :=
  table [unique_key (col "field_name" Text); col "field_id" Integer] [references "field_id" "fields" "field_id"].
Definition field_labels_0 : TableDef :=
  table [col "label_name" Text; col "field_id" Integer] [references "field_id" "fields" "field_id"].
Definition endpoints_0 : TableDef := table [unique_key (col "path" Text); col "code" Text] [].
Definition sessions_0 : TableDef := table [primary_key (col "token" Uuid); col "user_id" Text] [].
Definition policies_0 : TableDef := table [unique_key (col "version" Text); col "policy_str" Text] [].

Definition migrate_from_empty_to_0 : Tx unit :=
  _ ← execute_stmt (CreateTable "types" false types_0);
  _ ← execute_stmt (CreateTable "type_names" false type_names_0);
  _ ← execute_stmt (CreateTable "fields" false fields_0);
  _ ← execute_stmt (CreateTable "field_names" false field_names_0);
  _ ← execute_stmt (CreateTable "field_labels" false field_labels_0);
  _ ← execute_stmt (CreateTable "endpoints" true endpoints_0);
  _ ← execute_stmt (CreateTable "sessions" true sessions_0);
  execute_stmt (CreateTable "policies" false policies_0).

Definition chisel_version_0_7 : TableDef := table [unique_key (col "version_id" Text); col "version" Text] [].
Definition is_unique_0_7 : ColumnDef := col "is_unique" Boolean.

Definition migrate_from_0_to_0_7 : Tx unit :=
  _ ← execute_stmt (CreateTable "chisel_version" false chisel_version_0_7);
  execute_stmt (AddColumn "fields" is_unique_0_7).

Definition api_info_1 : TableDef :=
  table [unique_key (col "api_version" Text); col "app_name" Text; col "version_tag" Text] [].
Definition indexes_1 : TableDef :=
  table [primary_key (auto_increment (col "index_id" Integer)); col "type_id" Integer; col "fields" Text]
    [references "type_id" "types" "type_id"].

(** The tables that may have been dropped and renamed already. *)
Definition migrate_from_0_7_to_1 : Tx unit :=
  _ ← execute_stmt (CreateTable "api_info" true api_info_1);
  _ ← execute_stmt (CreateTable "indexes" true indexes_1);
  _ ← ignore (execute_stmt (DropTable "sessions"));
  ignore (execute_stmt (RenameTable "endpoints" "sources")).

Definition modules_2 : TableDef :=
  {| td_columns := [col "version" Text; col "url" Text; col "code" Text];
     td_primary_key := ["version"; "url"]; td_foreign_keys := [] |}.

(** [row.get] into a [String]. *)
Definition get_string (row : list Cell) (i : nat) : result string :=
  match row !! i with
  | Some (CText s) => Ok s
  | _ => Panic "called `Result::unwrap()` on an `Err` value"
  end.

Definition source_row (row : list Cell) : result SourceRow :=
  path ← get_string row 0;
  code ← get_string row 1;
  Ok {| sr_path := path; sr_code := code |}.

Definition module_values (module_row : ModuleRow) : list Cell :=
  [CText (mr_version_id module_row); CText (mr_url module_row); CText (mr_code module_row)].

Definition migrate_to_2 : Tx unit :=
  _ ← execute_stmt (CreateTable "modules" false modules_2);
  source_rows ← select kind ["path"; "code"] "sources";
  source_rows ← lift (mapM source_row source_rows);
  let module_rows := migrate_sources source_rows in
  _ ← (match module_rows with
       | [] => mret ()
       | _ => insert kind "modules" ["version"; "url"; "code"] (module_values <$> module_rows)
       end : Tx unit);
  execute_stmt (DropTable "sources").

Definition policy_store_3 : TableDef :=
  {| td_columns := [col "version" Text; col "store" Text]; td_primary_key := ["version"]; td_foreign_keys := [] |}.

Definition migrate_to_3 : Tx unit := execute_stmt (CreateTable "policy_store" false policy_store_3).

(** The join of [fields], [field_names] and [types]. *)
Definition joined_fields (db : Database) : option (Database * list (list Cell)) :=
  fields ← db !! "fields";
  names ← db !! "field_names";
  types ← db !! "types";
  let get t c row := cell (t_def t) c row in
  rows ← mapM (fun '(f, n, t) =>
    field_id ← get fields "field_id" f; field_type ← get fields "field_type" f; type_id ← get fields "type_id" f;
    name ← get names "field_name" n; name_id ← get names "field_id" n;
    id ← get types "type_id" t; backing_table ← get types "backing_table" t;
    Some (if bool_decide (field_id = name_id) && bool_decide (field_id <> CNull) &&
             bool_decide (type_id = id) && bool_decide (type_id <> CNull)
          then Some [name; field_type; backing_table] else None))
    (f ← t_rows fields; n ← t_rows names; t ← t_rows types; [(f, n, t)]);
  Some (db, in_order (omap id rows)).

Record FieldTo4 := { full_name : string; type_ : string; backing_table : string }.

Definition field_to_4 (row : list Cell) : result FieldTo4 :=
  full_name ← get_string row 0;
  type_ ← get_string row 1;
  backing_table ← get_string row 2;
  Ok {| full_name := full_name; type_ := type_; backing_table := backing_table |}.

(** [ALTER TABLE table ALTER COLUMN column TYPE jsonb USING column::jsonb]: a
    text is cast when it is JSON, and the other types have no cast. *)
Definition castable (ty : ColumnType) (c : option Cell) : bool :=
  match ty, c with
  | (Text | Jsonb), Some CNull | Jsonb, Some _ => true
  | Text, Some (CText s) => valid_json s
  | _, _ => false
  end.
Definition has_cast (ty : ColumnType) : bool := match ty with Text | Jsonb => true | _ => false end.
Definition alter_to_jsonb (table column : string) (db : Database) : option (Database * unit) :=
  t ← db !! table;
  i ← position column (t_def t);
  c ← td_columns (t_def t) !! i;
  if has_cast (cd_type c) && forallb (fun row => castable (cd_type c) (row !! i)) (t_rows t) then
    let altered := {| cd_name := cd_name c; cd_type := Jsonb; cd_auto_increment := cd_auto_increment c;
                      cd_primary_key := cd_primary_key c; cd_unique_key := cd_unique_key c |} in
    let def := {| td_columns := <[i := altered]> (td_columns (t_def t)); td_primary_key := td_primary_key (t_def t);
                  td_foreign_keys := td_foreign_keys (t_def t) |} in
    Some (<[table := {| t_def := def; t_rows := t_rows t |}]> db, ())
  else None.

Definition migrate_field_to_4 (field : FieldTo4) : Tx unit :=
  '(_, field_name) ← lift (option_context (rsplit_once "."%char (full_name field)) "Field name has unexpected format");
  statement kind (alter_to_jsonb (backing_table field) field_name).

Fixpoint each {A} (f : A -> Tx unit) (l : list A) : Tx unit :=
  match l with
  | [] => mret ()
  | x :: l => _ ← f x; each f l
  end.

Definition migrate_to_4 : Tx unit :=
  if decide (kind = Sqlite) then mret ()
  else
    rows ← statement kind joined_fields;
    fields ← lift (mapM field_to_4 rows);
    each migrate_field_to_4 (filter (fun field => starts_with (type_ field) "Array" = true) fields).

(** [migrate_schema_step] *)
Definition migrate_schema_step (old_version : string) : Tx (option string) :=
  if String.eqb old_version "empty" then _ ← migrate_from_empty_to_0; mret (Some "0")
  else if String.eqb old_version "0" then _ ← migrate_from_0_to_0_7; mret (Some "0.7")
  else if String.eqb old_version "0.7" then _ ← migrate_from_0_7_to_1; mret (Some "1")
  else if String.eqb old_version "1" then _ ← migrate_to_2; mret (Some "2")
  else if String.eqb old_version "2" then _ ← migrate_to_3; mret (Some "3")
  else if String.eqb old_version "3" then _ ← migrate_to_4; mret (Some "4")
  else if String.eqb old_version "4" then mret None
  else lift (bail "Don't know how to migrate from version").

(** ** The migration ([mod.rs]) *)

(** [name NOT LIKE 'sqlite_%']: the underscore stands for any character. *)
Definition sqlite_table (name : string) : bool :=
  starts_with (str_lower name) "sqlite" && (7 <=? String.length name).

Definition list_tables (db : Database) : list string :=
  filter (fun name => kind = Postgres \/ sqlite_table name = false) (map_to_list db).*1.

Definition select_version (db : Database) : option (Database * list (list Cell)) :=
  t ← db !! "chisel_version";
  _ ← position "version" (t_def t);
  _ ← position "version_id" (t_def t);
  let rows := filter (fun row => cell (t_def t) "version_id" row = Some (CText "chiselstrike")) (t_rows t) in
  rows ← mapM (fun row => v ← cell (t_def t) "version" row; Some [v]) (take 1 (in_order rows));
  Some (db, rows).

Definition get_schema_version : Tx string :=
  tables ← statement kind (fun db => Some (db, list_tables db));
  rows ← (if decide ("chisel_version" ∈ tables) then statement kind select_version else mret [] : Tx (list (list Cell)));
  match rows with
  | row :: _ => lift (get_string row 0)
  | [] => mret (if decide (tables = []) then "empty" else "0")
  end.

(** [INSERT INTO chisel_version ... ON CONFLICT(version_id) DO UPDATE ...] *)
Definition upsert_version (version : string) (db : Database) : option (Database * unit) :=
  t ← db !! "chisel_version";
  i ← position "version" (t_def t);
  _ ← position "version_id" (t_def t);
  if decide (["version_id"] ∈ keys_of (t_def t)) then
    let ours row := bool_decide (cell (t_def t) "version_id" row = Some (CText "chiselstrike")) in
    let rows :=
      if existsb ours (t_rows t)
      then (fun row => if ours row then <[i := CText version]> row else row) <$> t_rows t
      else t_rows t ++ [place (t_def t) ["version"; "version_id"] [CText version; CText "chiselstrike"]] in
    if keys_hold (t_def t) rows
    then Some (<["chisel_version" := {| t_def := t_def t; t_rows := rows |}]> db, ()) else None
  else None.

(** Nothing, when the fuel runs out. *)
Fixpoint migrate_loop (fuel : nat) (version : string) : Tx (option string) :=
  match fuel with
  | 0 => mret None
  | S fuel =>
      new_version ← migrate_schema_step version;
      match new_version with
      | Some new_version => migrate_loop fuel new_version
      | None => mret (Some version)
      end
  end.

Definition begin_transaction (db : Database) : Transaction := {| tx_db := db; tx_aborted := false |}.

(** A transaction that fails is rolled back. *)
Definition in_transaction {A} (m : Tx A) (db : Database) : Database * result A :=
  match m (begin_transaction db) with
  | (tx, Ok a) => (tx_db tx, Ok a)
  | (_, Err e) => (db, Err e)
  | (_, Panic w) => (db, Panic w)
  end.

Definition migrate_schema (fuel : nat) (db : Database) : Database * result (option unit) :=
  in_transaction (
    version ← get_schema_version;
    version ← migrate_loop fuel version;
    match version with
    | None => mret None
    | Some version => _ ← statement kind (upsert_version version); mret (Some ())
    end) db.

(** ** Two files become one *)

(** [INSERT INTO 'name' SELECT * from 'db'.name] *)
Definition insert_all (name : string) (rows : list (list Cell)) (db : Database) : option (Database * unit) :=
  t ← db !! name;
  if forallb (fun row => length row =? length (td_columns (t_def t))) rows && keys_hold (t_def t) (t_rows t ++ rows)
  then Some (<[name := {| t_def := t_def t; t_rows := t_rows t ++ rows |}]> db, ()) else None.

Definition copy_table (entry : string * Table) : Tx unit :=
  let '(name, t) := entry in
  _ ← execute_stmt (CreateTable name true (t_def t));
  statement kind (insert_all name (in_order (t_rows t))).

Definition copy_source (source : Database) : Tx unit :=
  each copy_table (in_order (filter (fun e => sqlite_table e.1 = false) (map_to_list source))).

Definition maybe_migrate_split_sqlite_database_inner (sources : list Database) : Tx bool :=
  tables ← statement kind (fun db => Some (db, list_tables db));
  if decide (tables = []) then _ ← each copy_source sources; mret true else mret false.

(** The old files, those that exist with their tables. *)
Definition maybe_migrate_split_sqlite_database (sources : list (option Database)) (db : Database)
    : Database * result unit :=
  if decide (kind = Sqlite) then
    let not_found := filter (fun s => bool_decide (is_Some s) = false) sources in
    if length not_found =? length sources then (db, Ok ())
    else if negb (bool_decide (not_found = [])) then (db, Err (AMsg "Some of the old sqlite files were not found"))
    else
      match in_transaction (maybe_migrate_split_sqlite_database_inner (omap id sources)) db with
      | (db, Ok _) => (db, Ok ())
      | (db, Err e) => (db, Err e)
      | (db, Panic w) => (db, Panic w)
      end
  else (db, Err (AMsg "Can't migrate postgres tables yet")).

End Steps.
