(* ===== verification/MigrateSpec.v ===== *)
(** * What the migrations keep

    The theorems on [Migrate]: the sources of old versions become modules, the
    migration of the schema ends and keeps the content of the metadata, and
    where it cannot succeed. *)

From S2P Require Import Prelude Engine Meta MetaLoadSpec Migrate.

(** ** The sources of old versions *)

Section Sources.
Context {RO : RowOrder} {ROL : RowOrderLaws}.

Definition in_version (v : string) (row : SourceRow) : option SourcePath :=
  sp ← parse_source_path (sr_path row);
  if decide (sp_version_id sp = v) then Some sp else None.

(** The endpoints and the other sources of a version, in the order of the rows. *)
Definition endpoint_of (v : string) (row : SourceRow) : option EndpointSource :=
  sp ← in_version v row;
  (fun r => {| route := r; source := {| s_path := sp_path sp; s_code := sr_code row |} |}) <$> endpoint_route sp.
Definition other_of (v : string) (row : SourceRow) : option Source :=
  sp ← in_version v row;
  match endpoint_route sp with
  | Some _ => None
  | None => Some {| s_path := sp_path sp; s_code := sr_code row |}
  end.
Definition map_of (v : string) (rows : list SourceRow) : VersionSourceMap :=
  {| vsm_version_id := v; endpoints := omap (endpoint_of v) rows; others := omap (other_of v) rows |}.

Lemma omap_snoc {A B} (f : A -> option B) l x : omap f (l ++ [x]) = omap f l ++ match f x with Some y => [y] | None => [] end.
Proof. rewrite omap_app. cbn. by destruct (f x). Qed.

Lemma endpoint_of_none v row : in_version v row = None -> endpoint_of v row = None /\ other_of v row = None.
Proof. unfold endpoint_of, other_of. by intros ->. Qed.

(** The versions that have sources. *)
Abbreviation has_sources v rows := (Exists (fun row => is_Some (in_version v row)) rows).

Lemma no_sources v rows : ~ has_sources v rows -> omap (endpoint_of v) rows = [] /\ omap (other_of v) rows = [].
Proof.
  induction rows as [|r rows IH]; intros Hn; [done|]. cbn.
  destruct (in_version v r) eqn:E; [destruct Hn; left; by rewrite E|].
  destruct (endpoint_of_none _ _ E) as [-> ->]. apply IH. intros H. apply Hn. by right.
Qed.

(** The map of the sources of every version. *)
Lemma source_maps_lookup rows v :
  foldl add_source ∅ rows !! v = if decide (has_sources v rows) then Some (map_of v rows) else None.
Proof.
  induction rows as [|row rows IH] using rev_ind.
  { rewrite decide_False; [apply lookup_empty|]. intros H. by apply Exists_nil in H. }
  rewrite foldl_app. cbn [foldl]. unfold add_source at 1. unfold map_of. rewrite !omap_snoc.
  assert (in_version v row = None ->
    (if decide (has_sources v rows) then Some (map_of v rows) else None) =
    (if decide (has_sources v (rows ++ [row])) then Some {| vsm_version_id := v;
      endpoints := omap (endpoint_of v) rows ++ match endpoint_of v row with Some y => [y] | None => [] end;
      others := omap (other_of v) rows ++ match other_of v row with Some y => [y] | None => [] end |} else None)) as Hnone.
  { intros Hin. destruct (endpoint_of_none _ _ Hin) as [-> ->]. rewrite !app_nil_r.
    apply decide_ext. rewrite Exists_app, Exists_cons, Exists_nil, Hin.
    split; [by left|]. by intros [H|[[? H]|H]]. }
  destruct (parse_source_path (sr_path row)) as [sp|] eqn:Hp;
    [|rewrite IH; apply Hnone; unfold in_version; by rewrite Hp].
  destruct (decide (sp_version_id sp = v)) as [Hv|Hv].
  - assert (in_version v row = Some sp) as Hin by (unfold in_version; rewrite Hp; cbn; by rewrite decide_True).
    rewrite decide_True by (apply Exists_app; right; left; by rewrite Hin).
    unfold endpoint_of at 2, other_of at 2. rewrite Hin. cbn. rewrite Hv, lookup_insert_eq, IH. f_equal.
    case_decide as Hd; [|destruct (no_sources _ _ Hd) as [-> ->]];
      destruct (endpoint_route sp); cbn; by rewrite ?app_nil_r.
  - rewrite lookup_insert_ne, IH by done. apply Hnone. unfold in_version. rewrite Hp. cbn. by rewrite decide_False.
Qed.

(** The modules of a version. *)
Lemma migrate_sources_elem rows m : m ∈ migrate_sources rows <->
  exists v, has_sources v rows /\ m ∈ migrate_version (map_of v rows).
Proof.
  unfold migrate_sources. rewrite elem_of_concat. split.
  - intros (l & Hm & Hl). apply list_elem_of_fmap in Hl as (sm & -> & Hl).
    apply list_elem_of_fmap in Hl as ([v sm'] & -> & Hin). rewrite (in_order_perm _) in Hin.
    apply elem_of_map_to_list in Hin.
    rewrite source_maps_lookup in Hin. case_decide as Hd; [|done]. injection Hin as <-. by exists v.
  - intros (v & Hex & Hm). exists (migrate_version (map_of v rows)). split; [done|].
    apply list_elem_of_fmap_2, (list_elem_of_fmap_2 snd _ (v, map_of v rows)).
    rewrite (in_order_perm _). apply elem_of_map_to_list. rewrite source_maps_lookup. by rewrite decide_True.
Qed.

(** The module a row becomes: none when its path names no version. *)
Definition module_of (row : SourceRow) : option ModuleRow :=
  (fun sp => {| mr_version_id := sp_version_id sp; mr_url := "file:///" +:+ sp_path sp; mr_code := sr_code row |})
  <$> parse_source_path (sr_path row).

Lemma migrate_version_elem v rows m : m ∈ migrate_version (map_of v rows) <->
  m = codegen_root v (omap (endpoint_of v) rows) \/
  exists row, row ∈ rows /\ module_of row = Some m /\ mr_version_id m = v.
Proof.
  unfold migrate_version. rewrite elem_of_cons, elem_of_app, !list_elem_of_fmap. cbn.
  setoid_rewrite list_elem_of_omap. unfold endpoint_of, other_of, in_version, module_of. split.
  - intros [->|[(e & -> & row & Hrow & He)|(o & -> & row & Hrow & Ho)]]; [by left|right; exists row; split; [done|]..].
    + destruct (parse_source_path _) as [sp|]; [|done]. cbn in He |- *. case_decide as Hv; [|done]. cbn in He.
      destruct (endpoint_route sp); [|done]. injection He as <-. cbn. unfold migrate_source, path_to_url. cbn. by rewrite Hv.
    + destruct (parse_source_path _) as [sp|]; [|done]. cbn in Ho |- *. case_decide as Hv; [|done]. cbn in Ho.
      destruct (endpoint_route sp); [done|]. injection Ho as <-. cbn. unfold migrate_source, path_to_url. cbn. by rewrite Hv.
  - intros [->|(row & Hrow & Hm & Hv)]; [by left|right].
    destruct (parse_source_path (sr_path row)) as [sp|] eqn:Hp; [|done]. cbn in Hm. injection Hm as <-. cbn in Hv. subst v.
    destruct (endpoint_route sp) as [r|] eqn:Hr; [left|right].
    + eexists. split; [|exists row; split; [done|rewrite Hp; cbn; rewrite decide_True by done; cbn; by rewrite Hr]]. done.
    + eexists. split; [|exists row; split; [done|rewrite Hp; cbn; rewrite decide_True by done; cbn; by rewrite Hr]]. done.
Qed.

(** *** Keys *)

Definition module_key (m : ModuleRow) : string * string := (mr_version_id m, mr_url m).
Definition trimmed (row : SourceRow) : string := trim_start_char "/"%char (sr_path row).

Lemma parse_path path sp : parse_source_path path = Some sp ->
  sp_path sp = trim_start_char "/"%char path /\ sp_path sp <> "__root.ts".
Proof.
  unfold parse_source_path. intros H. destruct (split_once _ (trim_start_char _ path)) as [[v rel]|] eqn:E; [|done].
  injection H as <-. cbn. split; [done|]. intros Hr. by rewrite Hr in E.
Qed.

Lemma NoDup_omap {A B K} (f : A -> option B) (g : A -> K) (h : B -> K) l :
  NoDup (g <$> l) -> (forall x y, f x = Some y -> h y = g x) -> NoDup (h <$> omap f l).
Proof.
  intros Hn Hf. induction l as [|x l IH]; [constructor|]. cbn in Hn |- *. apply NoDup_cons in Hn as [Hx Hn].
  destruct (f x) as [y|] eqn:E; [|by apply IH]. cbn. constructor; [|by apply IH].
  intros Hy. apply Hx. rewrite <- (Hf _ _ E). apply list_elem_of_fmap in Hy as (y' & -> & Hy').
  apply list_elem_of_omap in Hy' as (x' & Hx' & E'). rewrite (Hf _ _ E'). by apply list_elem_of_fmap_2.
Qed.

Lemma endpoint_of_parse v row e : endpoint_of v row = Some e ->
  exists sp, parse_source_path (sr_path row) = Some sp /\ s_path (source e) = sp_path sp /\ is_Some (endpoint_route sp).
Proof.
  unfold endpoint_of, in_version. destruct (parse_source_path (sr_path row)) as [sp|]; [|done]. cbn.
  case_decide; [|done]. cbn. destruct (endpoint_route sp) eqn:E; [|done]. intros [= <-]. exists sp. by rewrite E.
Qed.
Lemma other_of_parse v row o : other_of v row = Some o ->
  exists sp, parse_source_path (sr_path row) = Some sp /\ s_path o = sp_path sp /\ endpoint_route sp = None.
Proof.
  unfold other_of, in_version. destruct (parse_source_path (sr_path row)) as [sp|]; [|done]. cbn.
  case_decide; [|done]. cbn. destruct (endpoint_route sp) eqn:E; [done|]. intros [= <-]. exists sp. by rewrite E.
Qed.

(** A path decides what it is parsed to. *)
Lemma parse_trimmed path : parse_source_path path = parse_source_path (trim_start_char "/"%char path).
Proof.
  unfold parse_source_path. enough (trim_start_char "/"%char (trim_start_char "/"%char path) = trim_start_char "/"%char path) as -> by done.
  induction path as [|c path IH]; [done|]. cbn. destruct (Ascii.eqb c "/") eqn:E; [done|]. cbn. by rewrite E.
Qed.

(** The paths of the modules of a version, the root apart. *)
Lemma version_paths v rows : NoDup (trimmed <$> rows) ->
  NoDup ((s_path ∘ source <$> omap (endpoint_of v) rows) ++ (s_path <$> omap (other_of v) rows)).
Proof.
  intros Hn. apply NoDup_app. split; [|split].
  - apply (NoDup_omap _ trimmed); [done|]. intros row e (sp & Hp & He & _)%endpoint_of_parse.
    cbn. rewrite He. by apply parse_path.
  - intros p Hp Ho. apply list_elem_of_fmap in Hp as (e & -> & He). apply list_elem_of_fmap in Ho as (o & Hpo & Ho).
    apply list_elem_of_omap in He as (r1 & _ & He), Ho as (r2 & _ & Ho).
    apply endpoint_of_parse in He as (sp & Hp & He & [r Hr]). apply other_of_parse in Ho as (sp' & Hp' & Ho & Hr').
    cbn in Hpo. rewrite He, Ho in Hpo. rewrite (proj1 (parse_path _ _ Hp)), (proj1 (parse_path _ _ Hp')) in Hpo.
    rewrite parse_trimmed, Hpo, <- parse_trimmed in Hp. congruence.
  - apply (NoDup_omap _ trimmed); [done|]. intros row o (sp & Hp & -> & _)%other_of_parse. by apply parse_path.
Qed.

#[local] Instance path_to_url_inj : Inj (=) (=) path_to_url.
Proof. intros p q. apply (inj (String.append "file:///")). Qed.

Lemma migrate_version_keys v rows : NoDup (trimmed <$> rows) ->
  NoDup (module_key <$> migrate_version (map_of v rows)) /\
  Forall (fun m => mr_version_id m = v) (migrate_version (map_of v rows)).
Proof.
  intros Hn. split.
  - apply (NoDup_fmap_1 snd). rewrite <- list_fmap_compose. unfold migrate_version.
    rewrite fmap_cons, fmap_app, <- !list_fmap_compose. cbn -[String.append].
    pose proof (version_paths v rows Hn) as Hp. constructor.
    + rewrite elem_of_app, !list_elem_of_fmap. unfold compose. cbn -[path_to_url].
      intros [(e & He & Hin)|(o & Ho & Hin)]; apply list_elem_of_omap in Hin as (row & _ & Hin).
      * apply endpoint_of_parse in Hin as (sp & Hsp & Hpath & _). apply parse_path in Hsp as [_ Hne].
        apply Hne. rewrite <- Hpath. by apply path_to_url_inj.
      * apply other_of_parse in Hin as (sp & Hsp & Hpath & _). apply parse_path in Hsp as [_ Hne].
        apply Hne. rewrite <- Hpath. by apply path_to_url_inj.
    + apply (NoDup_fmap_2 path_to_url) in Hp.
      by rewrite fmap_app, <- !list_fmap_compose in Hp.
  - apply Forall_forall. intros m Hm. apply migrate_version_elem in Hm as [->|(row & _ & _ & Hv)]; done.
Qed.

Lemma NoDup_concat_keyed {A V K} (f : A -> list ModuleRow) (g : A -> V) (h : ModuleRow -> K) (ver : ModuleRow -> V) l :
  NoDup (g <$> l) -> (forall x, x ∈ l -> NoDup (h <$> f x) /\ Forall (fun m => ver m = g x) (f x)) ->
  (forall m m', h m = h m' -> ver m = ver m') -> NoDup (h <$> concat (f <$> l)).
Proof.
  intros Hn Hf Hh. induction l as [|x l IH]; [constructor|]. cbn in Hn |- *. apply NoDup_cons in Hn as [Hx Hn].
  rewrite fmap_app. destruct (Hf x (list_elem_of_here _ _)) as [Hk Hv]. apply NoDup_app. split; [done|]. split.
  - intros k Hk1 Hk2. apply list_elem_of_fmap in Hk1 as (m & -> & Hm). apply list_elem_of_fmap in Hk2 as (m' & Hkk & Hm').
    apply elem_of_concat in Hm' as (ms & Hm' & Hms). apply list_elem_of_fmap in Hms as (y & -> & Hy).
    destruct (Hf y ltac:(by right)) as [_ Hvy]. rewrite Forall_forall in Hv, Hvy.
    apply Hx. rewrite <- (Hv m Hm), (Hh _ _ Hkk), (Hvy m' Hm'). by apply list_elem_of_fmap_2.
  - apply IH; [done|]. intros y Hy. apply Hf. by right.
Qed.

Lemma migrate_sources_keys rows : NoDup (trimmed <$> rows) -> NoDup (module_key <$> migrate_sources rows).
Proof.
  intros Hn. unfold migrate_sources. set (m := foldl add_source ∅ rows). rewrite <- list_fmap_compose.
  assert (forall e, e ∈ in_order (map_to_list m) -> e.2 = map_of e.1 rows) as Hm.
  { intros [v sm] He. rewrite (in_order_perm _) in He. apply elem_of_map_to_list in He. unfold m in He.
    rewrite source_maps_lookup in He. case_decide; [|done]. by injection He as <-. }
  apply (NoDup_concat_keyed _ fst _ mr_version_id).
  - rewrite (in_order_perm _). apply NoDup_fst_map_to_list.
  - intros e He. cbn. rewrite (Hm e He). by apply migrate_version_keys.
  - by intros x y [= ? _].
Qed.

(** The sources of old versions become modules: every source whose path
    starts with a version is a module of that version, under the address of its
    path, and every version that has sources gets one root module, whose code
    maps the routes of its endpoints, in the order of the rows; there are no
    others.  When no two paths agree, no two modules have the same key. *)
Theorem migrate_sources_spec rows :
  (forall m, m ∈ migrate_sources rows <->
    (exists row, row ∈ rows /\ module_of row = Some m) \/
    (exists v row sp, row ∈ rows /\ parse_source_path (sr_path row) = Some sp /\ sp_version_id sp = v /\
       m = codegen_root v (omap (endpoint_of v) rows))) /\
  (NoDup (trimmed <$> rows) -> NoDup (module_key <$> migrate_sources rows)).
Proof.
  split; [|apply migrate_sources_keys]. intros m. rewrite migrate_sources_elem. split.
  - intros (v & Hex & Hm). apply migrate_version_elem in Hm as [->|(row & Hrow & Hm & _)]; [right|left; by exists row].
    apply Exists_exists in Hex as (row & Hrow & [sp Hsp]). unfold in_version in Hsp.
    destruct (parse_source_path (sr_path row)) as [sp'|] eqn:Hp; [|done]. cbn in Hsp. case_decide as Hv; [|done].
    by exists v, row, sp'.
  - intros [(row & Hrow & Hm)|(v & row & sp & Hrow & Hp & Hv & ->)].
    + unfold module_of in Hm. destruct (parse_source_path (sr_path row)) as [sp|] eqn:Hp; [|done].
      injection Hm as Hm. exists (sp_version_id sp). split.
      * apply Exists_exists. exists row. split; [done|]. unfold in_version. rewrite Hp. cbn. by rewrite decide_True.
      * apply migrate_version_elem. right. exists row. split; [done|]. unfold module_of. rewrite Hp. cbn.
        rewrite Hm. by rewrite <- Hm.
    + exists v. split; [|apply migrate_version_elem; by left].
      apply Exists_exists. exists row. split; [done|]. unfold in_version. rewrite Hp. cbn. by rewrite decide_True.
Qed.
End Sources.

(** ** What a database of each version looks like *)

Definition rows_of (db : Database) (name : string) : list (list Cell) := from_option t_rows [] (db !! name).
Definition holds (db : Database) (name : string) (def : TableDef) : Prop := t_def <$> db !! name = Some def.
Definition optional (db : Database) (name : string) (def : TableDef) : Prop :=
  db !! name = None \/ holds db name def.

Definition fields_0_7 : TableDef :=
  {| td_columns := td_columns fields_0 ++ [is_unique_0_7]; td_primary_key := []; td_foreign_keys := td_foreign_keys fields_0 |}.

(** The tables that are there in every version. *)
Definition core (fields_def : TableDef) (db : Database) : Prop :=
  holds db "types" types_0 /\ holds db "type_names" type_names_0 /\ holds db "fields" fields_def /\
  holds db "field_names" field_names_0 /\ holds db "field_labels" field_labels_0 /\ holds db "policies" policies_0.

(** All names the migrations use. *)
Definition meta_names : list string :=
  ["types"; "type_names"; "fields"; "field_names"; "field_labels"; "policies"; "endpoints"; "sessions"; "chisel_version";
   "api_info"; "indexes"; "sources"; "modules"; "policy_store"].

Lemma meta_name n : bool_decide (n ∈ meta_names) = true -> n ∈ meta_names.
Proof. apply bool_decide_eq_true. Qed.

(** The sources, before they are modules: releases up to 0.10 call them endpoints. *)
Definition has_code (db : Database) : Prop :=
  holds db "sources" endpoints_0 \/ db !! "sources" = None /\ holds db "endpoints" endpoints_0.

(** The tables of a version.  Databases of version 0.7 were written by several
    releases. *)
Inductive shape : string -> Database -> Prop :=
  | shape_empty db : (forall n, n ∈ meta_names -> db !! n = None) -> shape "empty" db
  | shape_0 db : core fields_0 db -> optional db "api_info" api_info_1 -> optional db "indexes" indexes_1 ->
      has_code db -> db !! "chisel_version" = None -> db !! "modules" = None -> db !! "policy_store" = None -> shape "0" db
  | shape_0_7 db : core fields_0_7 db -> optional db "api_info" api_info_1 -> optional db "indexes" indexes_1 ->
      has_code db -> holds db "chisel_version" chisel_version_0_7 -> db !! "modules" = None ->
      db !! "policy_store" = None -> shape "0.7" db
  | shape_1 db : core fields_0_7 db -> holds db "api_info" api_info_1 -> holds db "indexes" indexes_1 ->
      holds db "sources" endpoints_0 -> holds db "chisel_version" chisel_version_0_7 -> db !! "modules" = None ->
      db !! "policy_store" = None -> shape "1" db
  | shape_2 db : core fields_0_7 db -> holds db "api_info" api_info_1 -> holds db "indexes" indexes_1 ->
      holds db "chisel_version" chisel_version_0_7 -> holds db "modules" modules_2 ->
      db !! "policy_store" = None -> shape "2" db
  | shape_3 db v : v ∈ ["3"; "4"] -> core fields_0_7 db -> holds db "api_info" api_info_1 -> holds db "indexes" indexes_1 ->
      holds db "chisel_version" chisel_version_0_7 -> holds db "modules" modules_2 ->
      holds db "policy_store" policy_store_3 -> shape v db.

(** The version the database says it has. *)
Definition recorded (v : string) (db : Database) : Prop :=
  if decide (v ∈ ["empty"; "0"]) then db !! "chisel_version" = None
  else rows_of db "chisel_version" = [[CText "chiselstrike"; CText v]].

(** *** What it holds *)

Section Content.
Context {RO : RowOrder}.

Definition code_rows (db : Database) : list (list Cell) :=
  match db !! "sources" with Some t => t_rows t | None => rows_of db "endpoints" end.
Definition source_of (row : list Cell) : option SourceRow :=
  match row with [CText p; CText c] => Some {| sr_path := p; sr_code := c |} | _ => None end.

(** Texts, and no two paths that agree. *)
Definition sources_ok (db : Database) : Prop :=
  Forall (fun row => is_Some (source_of row)) (code_rows db) /\ NoDup (trimmed <$> omap source_of (code_rows db)).

(** The content of the metadata, whatever version stores it. *)
Record Content := {
  c_types : list (list Cell);
  c_type_names : list (list Cell);
  c_fields : list (list Cell);
  c_field_names : list (list Cell);
  c_field_labels : list (list Cell);
  c_policies : list (list Cell);
  c_api_info : list (list Cell);
  c_indexes : list (list Cell);
  c_modules : list (list Cell);
  c_policy_store : list (list Cell);
}.

Definition content (v : string) (db : Database) : Content :=
  {| c_types := rows_of db "types";
     c_type_names := rows_of db "type_names";
     c_fields := if decide (v = "0") then (fun row => row ++ [CNull]) <$> rows_of db "fields" else rows_of db "fields";
     c_field_names := rows_of db "field_names";
     c_field_labels := rows_of db "field_labels";
     c_policies := rows_of db "policies";
     c_api_info := rows_of db "api_info";
     c_indexes := rows_of db "indexes";
     c_modules :=
       if decide (v ∈ ["0"; "0.7"; "1"])
       then module_values <$> migrate_sources (omap source_of (in_order (code_rows db)))
       else rows_of db "modules";
     c_policy_store := rows_of db "policy_store" |}.
End Content.

(** *** Steps *)

Definition live (db : Database) : Transaction := {| tx_db := db; tx_aborted := false |}.
Definition runs {A} (m : Tx A) (db db' : Database) (a : A) : Prop := m (live db) = (live db', Ok a).

Lemma runs_bind {A B} (m : Tx A) (k : A -> Tx B) db db' db'' a b :
  runs m db db' a -> runs (k a) db' db'' b -> runs (m ≫= k) db db'' b.
Proof. unfold runs. intros Hm Hk. cbn. unfold mbind, Tx_bind. by rewrite Hm. Qed.

Lemma runs_ret {A} (a : A) db : runs (mret a) db db a.
Proof. done. Qed.

Section Steps.
Context {RO : RowOrder} {ROL : RowOrderLaws}.

Lemma runs_create kind name b def db : db !! name = None ->
  runs (execute_stmt kind (CreateTable name b def)) db (<[name := {| t_def := def; t_rows := [] |}]> db) ().
Proof. unfold runs, execute_stmt, statement. cbn. by intros ->. Qed.

(** A table that may be there, created if it is not. *)
Definition ensured (name : string) (def : TableDef) (db : Database) : Database :=
  match db !! name with Some _ => db | None => <[name := {| t_def := def; t_rows := [] |}]> db end.

Lemma runs_ensure kind name def db :
  runs (execute_stmt kind (CreateTable name true def)) db (ensured name def db) ().
Proof. unfold runs, execute_stmt, statement, ensured. cbn. by destruct (db !! name). Qed.

Lemma runs_add_column kind name c db t : db !! name = Some t -> cd_name c ∉ cd_name <$> td_columns (t_def t) ->
  runs (execute_stmt kind (AddColumn name c)) db
    (<[name := {| t_def := {| td_columns := td_columns (t_def t) ++ [c]; td_primary_key := td_primary_key (t_def t);
                             td_foreign_keys := td_foreign_keys (t_def t) |};
                  t_rows := (fun row => row ++ [CNull]) <$> t_rows t |}]> db) ().
Proof. unfold runs, execute_stmt, statement. cbn. intros -> Hc. by rewrite decide_False. Qed.

Lemma runs_drop kind name db : is_Some (db !! name) ->
  runs (execute_stmt kind (DropTable name)) db (base.delete name db) ().
Proof. unfold runs, execute_stmt, statement. cbn. by intros [t ->]. Qed.

(** Statements whose failure is ignored, in SQLite. *)
Lemma runs_ignore_drop name db :
  runs (ignore (execute_stmt Sqlite (DropTable name))) db (base.delete name db) ().
Proof.
  unfold runs, ignore, execute_stmt, statement. cbn. destruct (db !! name) eqn:E; [done|].
  cbn. by rewrite delete_id.
Qed.

Definition renamed (from to : string) (db : Database) : Database :=
  match db !! from, db !! to with
  | Some t, None => <[to := t]> (base.delete from db)
  | _, _ => db
  end.

Lemma runs_ignore_rename from to db :
  runs (ignore (execute_stmt Sqlite (RenameTable from to))) db (renamed from to db) ().
Proof.
  unfold runs, ignore, execute_stmt, statement, renamed. cbn.
  destruct (db !! from); [|done]. by destruct (db !! to).
Qed.

(** A step from one version to the next: the shape of the new version, the same
    content, no other table touched. *)
Record upgrades (v v' : string) (db db' : Database) : Prop := {
  up_shape : shape v' db';
  up_content : content v' db' = content v db;
  up_frame : forall n, n ∉ meta_names -> db' !! n = db !! n;
  up_sources : v' ∈ ["0"; "0.7"; "1"] -> code_rows db' = code_rows db;
  up_version : rows_of db' "chisel_version" = rows_of db "chisel_version";
}.

Lemma in_order_nil {A} : in_order ([] : list A) = [].
Proof. apply Permutation_nil. symmetry. apply in_order_perm. Qed.

Lemma migrate_sources_nil : migrate_sources [] = [].
Proof. unfold migrate_sources. cbn [foldl]. rewrite map_to_list_empty, in_order_nil. done. Qed.

(** Lookups in the result of a step. *)
Ltac lookups := unfold optional, has_code, code_rows in *; unfold holds, rows_of in *; simplify_map_eq; try done.
Ltac frame Hn :=
  repeat first [rewrite lookup_insert_ne by (intros <-; apply Hn; set_solver)
               |rewrite lookup_delete_ne by (intros <-; apply Hn; set_solver)]; done.

Lemma step_empty valid kind db : shape "empty" db ->
  exists db', runs (migrate_schema_step valid kind "empty") db db' (Some "0") /\ upgrades "empty" "0" db db'.
Proof.
  inversion 1 as [db0 Hn| | | | |? ? Hv]; subst; [|set_solver]. eexists. split.
  - change (migrate_schema_step valid kind "empty") with (_ ← migrate_from_empty_to_0 kind; mret (M := Tx) (Some "0")).
    eapply runs_bind; [|apply runs_ret]. unfold migrate_from_empty_to_0.
    repeat (eapply runs_bind; [apply runs_create; rewrite ?lookup_insert_ne by done; apply Hn; set_solver|]).
    apply runs_create; rewrite ?lookup_insert_ne by done; apply Hn; set_solver.
  - assert (db !! "api_info" = None /\ db !! "indexes" = None /\ db !! "chisel_version" = None /\ db !! "modules" = None /\
      db !! "policy_store" = None /\ db !! "sources" = None /\ db !! "types" = None /\ db !! "type_names" = None /\
      db !! "fields" = None /\ db !! "field_names" = None /\ db !! "field_labels" = None /\ db !! "policies" = None /\
      db !! "endpoints" = None) as (? & ? & ? & ? & ? & ? & ? & ? & ? & ? & ? & ? & ?) by (repeat split; apply Hn; set_solver).
    split.
    + apply shape_0; unfold core; repeat split; lookups; try (by left). right; split; by simplify_map_eq.
    + unfold content. f_equal; lookups. cbn. rewrite in_order_nil.
      change (omap source_of []) with (@nil SourceRow). by rewrite migrate_sources_nil.
    + intros n Hne. frame Hne.
    + intros _. lookups.
    + lookups.
Qed.

Lemma step_0 valid kind db : shape "0" db ->
  exists db', runs (migrate_schema_step valid kind "0") db db' (Some "0.7") /\ upgrades "0" "0.7" db db'.
Proof.
  inversion 1 as [|? Hcore Hapi Hidx Hcode Hv Hm Hp| | | |? ? Hv]; subst; [|set_solver].
  destruct Hcore as (Ht & Hn & Hf & Hfn & Hl & Hpol).
  destruct (db !! "fields") as [f|] eqn:Ef; [|unfold holds in Hf; by rewrite Ef in Hf].
  assert (t_def f = fields_0) as Hfd by (unfold holds in Hf; rewrite Ef in Hf; by injection Hf). clear Hf.
  eexists. split.
  - change (migrate_schema_step valid kind "0") with (_ ← migrate_from_0_to_0_7 kind; mret (M := Tx) (Some "0.7")).
    eapply runs_bind; [|apply runs_ret]. unfold migrate_from_0_to_0_7. eapply runs_bind; [by apply runs_create|].
    apply runs_add_column; [by rewrite lookup_insert_ne|]. rewrite Hfd. cbn. set_solver.
  - rewrite Hfd. split.
    + apply shape_0_7; unfold core; repeat split; lookups.
    + unfold content. f_equal; lookups.
    + intros n Hne. frame Hne.
    + intros _. lookups.
    + lookups.
Qed.

Lemma step_0_7 valid db : shape "0.7" db ->
  exists db', runs (migrate_schema_step valid Sqlite "0.7") db db' (Some "1") /\ upgrades "0.7" "1" db db'.
Proof.
  inversion 1 as [| |? Hcore Hapi Hidx Hcode Hv Hm Hp| | |? ? Hv]; subst; [|set_solver].
  destruct Hcore as (Ht & Hn & Hf & Hfn & Hl & Hpol). eexists. split.
  - change (migrate_schema_step valid Sqlite "0.7") with (_ ← migrate_from_0_7_to_1 Sqlite; mret (M := Tx) (Some "1")).
    eapply runs_bind; [|apply runs_ret]. unfold migrate_from_0_7_to_1.
    repeat (eapply runs_bind; [apply runs_ensure|]). eapply runs_bind; [apply runs_ignore_drop|apply runs_ignore_rename].
  - set (db2 := ensured "indexes" indexes_1 (ensured "api_info" api_info_1 db)).
    assert (forall n, n <> "api_info" -> n <> "indexes" -> db2 !! n = db !! n) as Hsame.
    { intros n H1 H2. unfold db2, ensured. repeat case_match; by rewrite ?lookup_insert_ne. }
    assert (holds db2 "api_info" api_info_1 /\ rows_of db2 "api_info" = rows_of db "api_info" /\
      holds db2 "indexes" indexes_1 /\ rows_of db2 "indexes" = rows_of db "indexes") as (Ha & Har & Hi & Hir).
    { unfold db2, ensured. destruct (db !! "api_info") as [a|] eqn:Ea, (db !! "indexes") as [b|] eqn:Eb;
        rewrite ?lookup_insert_ne, ?Ea, ?Eb by done; unfold optional, holds, rows_of in *; rewrite ?Ea, ?Eb in *;
        simplify_map_eq; naive_solver. }
    clearbody db2.
    assert (forall n, n <> "api_info" -> n <> "indexes" -> n <> "sessions" -> n <> "endpoints" -> n <> "sources" ->
      renamed "endpoints" "sources" (base.delete "sessions" db2) !! n = db !! n) as Hs.
    { intros n H1 H2 H3 H4 H5. rewrite <- Hsame by done. unfold renamed.
      repeat case_match; by rewrite ?lookup_insert_ne, ?lookup_delete_ne by done. }
    assert (forall n, n = "api_info" \/ n = "indexes" ->
      renamed "endpoints" "sources" (base.delete "sessions" db2) !! n = db2 !! n) as Hs2.
    { intros n Hne. unfold renamed. repeat case_match; destruct Hne as [-> | ->];
        by rewrite ?lookup_insert_ne, ?lookup_delete_ne by done. }
    assert (exists t, renamed "endpoints" "sources" (base.delete "sessions" db2) !! "sources" = Some t /\
      t_def t = endpoints_0 /\ t_rows t = code_rows db) as (t & Hst & Hsd & Hsr).
    { unfold renamed, code_rows. rewrite !lookup_delete_ne, !Hsame by done.
      unfold has_code, holds, rows_of in Hcode |- *. destruct Hcode as [Hc|[Hc He]].
      - destruct (db !! "sources") as [t|] eqn:Et; [|done]. injection Hc as Hc. exists t.
        repeat split; [|done]. case_match; by rewrite ?lookup_delete_ne, Hsame.
      - rewrite Hc. destruct (db !! "endpoints") as [t|] eqn:Et; [|done]. injection He as He. exists t.
        by rewrite lookup_insert_eq. }
    set (db' := renamed _ _ _) in *. clearbody db'. split.
    + apply shape_1; unfold core; repeat split; unfold holds in *; rewrite ?Hs, ?Hs2, ?Hst by (done || auto); try done. cbn. by rewrite Hsd.
    + unfold content. f_equal; unfold rows_of in *; rewrite ?Hs, ?Hs2 by (done || auto); try done. cbn.
      unfold code_rows at 1. by rewrite Hst, Hsr.
    + intros n Hne. apply Hs; intros ->; apply Hne; set_solver.
    + intros _. unfold code_rows at 1. by rewrite Hst, Hsr.
    + unfold rows_of. by rewrite Hs.
Qed.

(** *** The sources become modules *)

Lemma runs_select kind db t : db !! "sources" = Some t -> t_def t = endpoints_0 ->
  Forall (fun row => is_Some (source_of row)) (t_rows t) ->
  runs (select kind ["path"; "code"] "sources") db db (in_order (t_rows t)).
Proof.
  intros Ht Hd Hrows. unfold runs, select, statement. cbn [tx_aborted live tx_db]. rewrite Ht. cbn [mbind option_bind].
  rewrite Hd. change (mapM (fun c => position c endpoints_0) ["path"; "code"]) with (Some [0; 1]). cbn [mbind option_bind].
  rewrite (proj2 (mapM_Some _ _ (t_rows t))); [done|]. apply Forall2_same_length_lookup. split; [done|].
  intros i row row' Hrow Hrow'. assert (row' = row) as -> by congruence.
  destruct (Forall_lookup_1 _ _ _ _ Hrows Hrow) as [r Hr].
  by destruct row as [|[|p| |] [|[|c| |] [|]]]; try done.
Qed.

Lemma source_rows_read rows : Forall (fun row => is_Some (source_of row)) rows ->
  mapM source_row rows = Ok (omap source_of rows).
Proof.
  induction 1 as [|row rows [r Hr] _ IH]; [done|]. destruct row as [|[|p| |] [|[|c| |] [|]]]; try done.
  change (mapM source_row ([CText p; CText c] :: rows)) with
    (y ← source_row [CText p; CText c]; k ← mapM source_row rows; Ok (y :: k)).
  by rewrite IH.
Qed.

(** Modules with different keys fit in the new table. *)
Lemma runs_insert_modules kind db ms : db !! "modules" = Some {| t_def := modules_2; t_rows := [] |} ->
  NoDup (module_key <$> ms) ->
  runs (insert kind "modules" ["version"; "url"; "code"] (module_values <$> ms)) db
    (<["modules" := {| t_def := modules_2; t_rows := module_values <$> ms |}]> db) ().
Proof.
  intros Ht Hn. unfold runs, insert, statement. cbn [tx_aborted live tx_db]. rewrite Ht. cbn [mbind option_bind t_def t_rows].
  change (negb (forallb _ ["version"; "url"; "code"])) with false. cbn [app].
  assert ((place modules_2 ["version"; "url"; "code"] <$> (module_values <$> ms)) = module_values <$> ms) as ->.
  { rewrite <- list_fmap_compose. by apply list_fmap_ext. }
  assert (keys_hold modules_2 (module_values <$> ms) = true) as ->; [|done].
  unfold keys_hold. change (keys_of modules_2) with [["version"; "url"]]. cbn [forallb]. rewrite andb_true_r.
  apply bool_decide_eq_true.
  assert (omap (key_values modules_2 ["version"; "url"]) (module_values <$> ms) =
    (fun m => [CText (mr_version_id m); CText (mr_url m)]) <$> ms) as ->.
  { clear. induction ms as [|m ms IH]; [done|]. cbn [fmap list_fmap omap list_omap]. rewrite IH.
    unfold key_values. change (mapM _ ["version"; "url"]) with (Some [CText (mr_version_id m); CText (mr_url m)]).
    cbn [mbind option_bind]. rewrite bool_decide_eq_false_2; [done|]. set_solver. }
  apply (NoDup_fmap_1 (fun cells => match cells with [CText v; CText u] => (v, u) | _ => ("", "") end)).
  by rewrite <- list_fmap_compose.
Qed.

Lemma omap_perm {A B} (f : A -> option B) l l' : l ≡ₚ l' -> omap f l ≡ₚ omap f l'.
Proof. by intros ->. Qed.

Lemma runs_migrate_to_2 kind db t : db !! "modules" = None -> db !! "sources" = Some t -> t_def t = endpoints_0 ->
  Forall (fun row => is_Some (source_of row)) (t_rows t) -> NoDup (trimmed <$> omap source_of (t_rows t)) ->
  runs (migrate_to_2 kind) db
    (base.delete "sources" (<["modules" := {| t_def := modules_2;
       t_rows := module_values <$> migrate_sources (omap source_of (in_order (t_rows t))) |}]> db)) ().
Proof.
  intros Hm Ht Hd Hr Hn. unfold migrate_to_2. set (ms := migrate_sources _).
  eapply runs_bind; [by apply runs_create|].
  eapply runs_bind; [apply (runs_select _ _ t); [by rewrite lookup_insert_ne|done..]|].
  eapply (runs_bind _ _ _ _ _ (omap source_of (in_order (t_rows t)))).
  { unfold runs, lift. rewrite source_rows_read; [done|]. by rewrite (in_order_perm _). }
  assert (NoDup (module_key <$> ms)) as Hk.
  { apply migrate_sources_keys. rewrite (omap_perm _ _ _ (in_order_perm _ (t_rows t))). done. }
  cbv zeta. fold ms. apply (runs_bind _ _ _ (<["modules" := {| t_def := modules_2; t_rows := module_values <$> ms |}]> db) _ ()).
  - rewrite <- (insert_insert_eq db "modules" {| t_def := modules_2; t_rows := module_values <$> ms |}
      {| t_def := modules_2; t_rows := [] |}).
    destruct ms as [|m ms'] eqn:E.
    + rewrite insert_insert_eq. apply runs_ret.
    + rewrite <- E in *. apply runs_insert_modules; [by rewrite lookup_insert_eq|done].
  - apply runs_drop. rewrite lookup_insert_ne by done. by exists t.
Qed.

Lemma step_1 valid kind db : shape "1" db -> sources_ok db ->
  exists db', runs (migrate_schema_step valid kind "1") db db' (Some "2") /\ upgrades "1" "2" db db'.
Proof.
  inversion 1 as [| | |? Hcore Hapi Hidx Hs Hv Hm Hp| |? ? Hv]; subst; [|set_solver]. intros [Hr Hn].
  destruct Hcore as (Ht & Htn & Hf & Hfn & Hl & Hpol).
  destruct (db !! "sources") as [t|] eqn:Et; [|unfold holds in Hs; by rewrite Et in Hs].
  assert (t_def t = endpoints_0) as Hd by (unfold holds in Hs; rewrite Et in Hs; by injection Hs). clear Hs.
  assert (code_rows db = t_rows t) as Hc by (unfold code_rows; by rewrite Et). rewrite Hc in Hr, Hn.
  eexists. split.
  - change (migrate_schema_step valid kind "1") with (_ ← migrate_to_2 kind; mret (M := Tx) (Some "2")).
    eapply runs_bind; [|apply runs_ret]. by apply (runs_migrate_to_2 _ _ t).
  - split.
    + apply shape_2; unfold core; repeat split; lookups.
    + unfold content. rewrite Hc. f_equal; lookups.
    + intros n Hne. frame Hne.
    + intros Hv2. set_solver.
    + lookups.
Qed.

Lemma step_2 valid kind db : shape "2" db ->
  exists db', runs (migrate_schema_step valid kind "2") db db' (Some "3") /\ upgrades "2" "3" db db'.
Proof.
  inversion 1 as [| | | |? Hcore Hapi Hidx Hv Hm Hp|? ? Hv]; subst; [|set_solver].
  destruct Hcore as (Ht & Htn & Hf & Hfn & Hl & Hpol). eexists. split.
  - change (migrate_schema_step valid kind "2") with (_ ← migrate_to_3 kind; mret (M := Tx) (Some "3")).
    eapply runs_bind; [|apply runs_ret]. by apply runs_create.
  - split.
    + apply shape_3; unfold core; repeat split; lookups. set_solver.
    + unfold content. f_equal; lookups.
    + intros n Hne. frame Hne.
    + intros Hv2. set_solver.
    + lookups.
Qed.

Lemma step_3 valid db : shape "3" db ->
  runs (migrate_schema_step valid Sqlite "3") db db (Some "4") /\ upgrades "3" "4" db db.
Proof.
  intros H. split; [done|]. split; try done.
  inversion H; subst. apply shape_3; try done. set_solver.
Qed.

Lemma step_4 valid kind db : runs (migrate_schema_step valid kind "4") db db None.
Proof. done. Qed.

(** *** All steps *)

(** From version [v] the loop gets to version 4, with [n] units of fuel. *)
Definition reaches (n : nat) (v : string) : Prop := forall valid db, shape v db ->
  (v ∈ ["0"; "0.7"; "1"] -> sources_ok db) ->
  exists db', runs (migrate_loop valid Sqlite n v) db db' (Some "4") /\ upgrades v "4" db db'.

Lemma reaches_4 k : reaches (1 + k) "4".
Proof.
  intros valid db H _. exists db. split; [|by split].
  change (migrate_loop valid Sqlite (1 + k) "4") with
    (new ← migrate_schema_step valid Sqlite "4";
     match new with Some v => migrate_loop valid Sqlite k v | None => mret (M := Tx) (Some "4") end).
  eapply runs_bind; [apply step_4|apply runs_ret].
Qed.

Lemma reaches_step n v v' : reaches n v' ->
  (forall valid db, shape v db -> (v ∈ ["0"; "0.7"; "1"] -> sources_ok db) ->
    exists db', runs (migrate_schema_step valid Sqlite v) db db' (Some v') /\ upgrades v v' db db') ->
  (v' ∈ ["0"; "0.7"; "1"] -> v ∈ ["0"; "0.7"; "1"] \/ v = "empty") -> reaches (S n) v.
Proof.
  intros Hn Hstep Hv valid db Hs Hok. destruct (Hstep valid db Hs Hok) as (db1 & Hr1 & [S1 C1 F1 O1 V1]).
  destruct (Hn valid db1 S1) as (db2 & Hr2 & [S2 C2 F2 O2 V2]).
  - intros Hin. unfold sources_ok. rewrite (O1 Hin). destruct (Hv Hin) as [H| ->]; [by apply Hok|].
    inversion Hs as [? Hnone| | | | |? ? Hbad]; subst; [|set_solver].
    assert (code_rows db = []) as ->; [|split; constructor].
    unfold code_rows, rows_of.
    by rewrite (Hnone "sources" ltac:(by apply meta_name)), (Hnone "endpoints" ltac:(by apply meta_name)).
  - exists db2. split.
    + change (migrate_loop valid Sqlite (S n) v) with
        (new ← migrate_schema_step valid Sqlite v;
         match new with Some v => migrate_loop valid Sqlite n v | None => mret (M := Tx) (Some v) end).
      by eapply runs_bind.
    + split; [done|congruence|intros m Hm; by rewrite F2, F1|intros Hbad; set_solver|congruence].
Qed.

Lemma reaches_3 k : reaches (2 + k) "3".
Proof.
  apply (reaches_step (1 + k) _ "4"); [apply reaches_4| |set_solver]. intros valid db H _. exists db. by apply step_3.
Qed.
Lemma reaches_2 k : reaches (3 + k) "2".
Proof. apply (reaches_step (2 + k) _ "3"); [apply reaches_3|intros valid db H _; by apply step_2|set_solver]. Qed.
Lemma reaches_1 k : reaches (4 + k) "1".
Proof.
  apply (reaches_step (3 + k) _ "2"); [apply reaches_2| |set_solver].
  intros valid db H Hok. apply step_1; [done|apply Hok; set_solver].
Qed.
Lemma reaches_0_7 k : reaches (5 + k) "0.7".
Proof. apply (reaches_step (4 + k) _ "1"); [apply reaches_1|intros valid db H _; by apply step_0_7|set_solver]. Qed.
Lemma reaches_0 k : reaches (6 + k) "0".
Proof. apply (reaches_step (5 + k) _ "0.7"); [apply reaches_0_7|intros valid db H _; by apply step_0|set_solver]. Qed.
Lemma reaches_empty k : reaches (7 + k) "empty".
Proof. apply (reaches_step (6 + k) _ "0"); [apply reaches_0|intros valid db H _; by apply step_empty|auto]. Qed.

Lemma reaches_all n v valid db : 7 <= n -> shape v db -> (v ∈ ["0"; "0.7"; "1"] -> sources_ok db) ->
  exists db', runs (migrate_loop valid Sqlite n v) db db' (Some "4") /\ upgrades v "4" db db'.
Proof.
  intros Hn Hs Hok.
  assert (exists k, n = 7 + k) as [k ->] by (exists (n - 7); lia).
  assert (reaches (7 + k) v) as Hr; [|by apply Hr].
  inversion Hs as [| | | | |? ? Hv]; subst;
    [apply reaches_empty|apply (reaches_0 (1 + k))|apply (reaches_0_7 (2 + k))|apply (reaches_1 (3 + k))|apply (reaches_2 (4 + k))|].
  apply elem_of_cons in Hv as [-> |Hv]; [apply (reaches_3 (5 + k))|].
  apply list_elem_of_singleton in Hv as ->. apply (reaches_4 (6 + k)).
Qed.

(** *** The version of a database *)

Lemma in_order_one {A} (x : A) : in_order [x] = [x].
Proof. apply Permutation_singleton_r, in_order_perm. Qed.

Lemma list_tables_elem kind db name : name ∈ list_tables kind db <->
  is_Some (db !! name) /\ (kind = Postgres \/ sqlite_table name = false).
Proof.
  unfold list_tables. rewrite list_elem_of_filter, list_elem_of_fmap. split.
  - intros [Hk ([n t] & -> & Hin)]. apply elem_of_map_to_list in Hin. by split; [exists t|].
  - intros [[t Ht] Hk]. split; [done|]. exists (name, t). split; [done|]. by apply elem_of_map_to_list.
Qed.

Lemma select_version_recorded v db : holds db "chisel_version" chisel_version_0_7 ->
  rows_of db "chisel_version" = [[CText "chiselstrike"; CText v]] -> select_version db = Some (db, [[CText v]]).
Proof.
  unfold holds, rows_of, select_version. destruct (db !! "chisel_version") as [t|]; [|done].
  cbn [fmap option_fmap option_map from_option mbind option_bind]. intros [= ->] ->.
  change (position "version" chisel_version_0_7) with (Some 1).
  change (position "version_id" chisel_version_0_7) with (Some 0). cbn [mbind option_bind].
  rewrite filter_cons_True, filter_nil by done. rewrite in_order_one. done.
Qed.

Lemma version_of v kind db : shape v db -> recorded v db -> (v = "empty" -> list_tables kind db = []) ->
  runs (get_schema_version kind) db db v.
Proof.
  intros Hs Hv He. unfold get_schema_version.
  eapply (runs_bind _ _ _ db _ (list_tables kind db)); [done|].
  unfold recorded in Hv. destruct (decide (v ∈ ["empty"; "0"])) as [Hin|Hout].
  - assert ("chisel_version" ∉ list_tables kind db) as Hno by (rewrite list_tables_elem, Hv; by intros [[? ?] _]).
    rewrite (decide_False _ _ Hno).
    eapply runs_bind; [apply runs_ret|]. cbn beta iota.
    apply elem_of_cons in Hin as [-> |Hin]; [by rewrite (He eq_refl)|]. apply list_elem_of_singleton in Hin as ->.
    rewrite decide_False; [apply runs_ret|]. intros Hnil.
    assert ("types" ∈ list_tables kind db) as Ht; [|rewrite Hnil in Ht; by apply not_elem_of_nil in Ht].
    apply list_tables_elem. split; [|by right].
    inversion Hs as [|? Hcore| | | |? ? Hbad]; subst; [|set_solver].
    destruct Hcore as (Ht & _). unfold holds in Ht. by destruct (db !! "types").
  - assert (holds db "chisel_version" chisel_version_0_7) as Hh
      by (inversion Hs; subst; try done; set_solver).
    assert ("chisel_version" ∈ list_tables kind db) as Hyes
      by (apply list_tables_elem; split; [|by right]; unfold holds in Hh; by destruct (db !! "chisel_version")).
    rewrite (decide_True _ _ Hyes). eapply (runs_bind _ _ _ db _ [[CText v]]); [|apply runs_ret].
    unfold runs, statement. cbn [tx_aborted tx_db live]. by rewrite (select_version_recorded v).
Qed.

(** Writing the version down. *)
Lemma runs_upsert kind db w rows : holds db "chisel_version" chisel_version_0_7 ->
  rows_of db "chisel_version" = rows -> rows = [] \/ (exists v, rows = [[CText "chiselstrike"; CText v]]) ->
  runs (statement kind (upsert_version w)) db
    (<["chisel_version" := {| t_def := chisel_version_0_7; t_rows := [[CText "chiselstrike"; CText w]] |}]> db) ().
Proof.
  intros Hd <- Hr. unfold runs, statement. cbn [tx_aborted tx_db live]. unfold upsert_version.
  unfold holds, rows_of in *. destruct (db !! "chisel_version") as [[d rs]|]; [|done].
  cbn in Hd, Hr. injection Hd as ->. cbn [mbind option_bind t_def t_rows].
  by destruct Hr as [-> |[v ->]].
Qed.

Lemma loop_4 valid kind n db : 1 <= n -> runs (migrate_loop valid kind n "4") db db (Some "4").
Proof.
  destruct n as [|n]; [lia|]. intros _.
  change (migrate_loop valid kind (S n) "4") with
    (new ← migrate_schema_step valid kind "4";
     match new with Some v => migrate_loop valid kind n v | None => mret (M := Tx) (Some "4") end).
  eapply runs_bind; [apply step_4|apply runs_ret].
Qed.

(** A database with the version written down. *)
Definition stamped (db : Database) : Database :=
  <["chisel_version" := {| t_def := chisel_version_0_7; t_rows := [[CText "chiselstrike"; CText "4"]] |}]> db.

Lemma stamped_4 db : shape "4" db ->
  shape "4" (stamped db) /\ recorded "4" (stamped db) /\ content "4" (stamped db) = content "4" db /\
  stamped (stamped db) = stamped db.
Proof.
  intros S1. inversion S1 as [| | | | |? ? _ Hcore Hapi Hidx Hc Hm Hp]; subst.
  destruct Hcore as (? & ? & ? & ? & ? & ?). unfold stamped. split; [|split; [|split]].
  - apply shape_3; unfold core; repeat split; lookups. set_solver.
  - unfold recorded, rows_of. rewrite decide_False by set_solver. by rewrite lookup_insert_eq.
  - unfold content. f_equal; unfold rows_of; by rewrite lookup_insert_ne.
  - by rewrite insert_insert_eq.
Qed.

Lemma migrate_run valid kind n v db db' : runs (get_schema_version kind) db db v ->
  runs (migrate_loop valid kind n v) db db' (Some "4") -> holds db' "chisel_version" chisel_version_0_7 ->
  rows_of db' "chisel_version" = [] \/ (exists w, rows_of db' "chisel_version" = [[CText "chiselstrike"; CText w]]) ->
  migrate_schema valid kind n db = (stamped db', Ok (Some ())).
Proof.
  intros H1 H2 H3 H4. unfold migrate_schema, in_transaction.
  match goal with |- context [?f (begin_transaction db)] => assert (runs f db (stamped db') (Some ())) as Hr end.
  { eapply runs_bind; [exact H1|]. eapply runs_bind; [exact H2|]. cbn beta iota.
    eapply runs_bind; [|apply runs_ret]. by eapply runs_upsert. }
  unfold runs in Hr. change (begin_transaction db) with (live db). by rewrite Hr.
Qed.

Lemma shape_4_version db : shape "4" db -> holds db "chisel_version" chisel_version_0_7.
Proof. inversion 1; subst; done. Qed.

(** C16: On SQLite, with at least seven units of fuel, the migration of a
    database written by any earlier version succeeds: the database is then of
    version 4 and says so, and holds the same content - the rows of every
    table, fields without uniqueness not unique, and instead of the old sources
    the modules they become.  No table that is not the metadata's is touched,
    and migrating once more changes nothing. *)
Theorem migrate_schema_spec valid n v db : 7 <= n -> shape v db -> recorded v db ->
  (v = "empty" -> list_tables Sqlite db = []) -> (v ∈ ["0"; "0.7"; "1"] -> sources_ok db) ->
  exists db', migrate_schema valid Sqlite n db = (db', Ok (Some ())) /\
    shape "4" db' /\ recorded "4" db' /\ content "4" db' = content v db /\
    (forall name, name ∉ meta_names -> db' !! name = db !! name) /\
    migrate_schema valid Sqlite n db' = (db', Ok (Some ())).
Proof.
  intros Hn Hs Hv He Hok.
  destruct (reaches_all n v valid db Hn Hs Hok) as (db1 & Hrun & [S1 C1 F1 _ V1]).
  destruct (stamped_4 _ S1) as (S' & V' & C' & I'). exists (stamped db1).
  split; [|split; [done|split; [done|split; [congruence|split]]]].
  - apply (migrate_run _ _ _ v); [by apply version_of|done|by apply shape_4_version|]. rewrite V1.
    unfold recorded in Hv. case_decide; [left; unfold rows_of; by rewrite Hv|right; by exists v].
  - intros name Hname. unfold stamped. rewrite lookup_insert_ne by (intros <-; apply Hname; by apply meta_name). by apply F1.
  - rewrite <- I' at 2. apply (migrate_run _ _ _ "4"); [by apply version_of|apply loop_4; lia|by apply shape_4_version|].
    right. exists "4". unfold recorded in V'. by rewrite decide_False in V' by set_solver.
Qed.
End Steps.
