(* ===== verification/MigrateErrorSpec.v ===== *)
(** * How migrations end and fail

    The migration of the schema ends on every database and is all or nothing;
    two kinds of Postgres databases it cannot migrate; and the copy of old
    SQLite files. *)

From S2P Require Import Prelude Engine Meta MetaLoadSpec MetaStoreSpec Migrate MigrateSpec.

(** ** Termination *)

(** The steps left after a version. *)
Definition rank (v : string) : nat :=
  if String.eqb v "empty" then 6 else if String.eqb v "0" then 5 else if String.eqb v "0.7" then 4
  else if String.eqb v "1" then 3 else if String.eqb v "2" then 2 else if String.eqb v "3" then 1 else 0.

Lemma then_ret {A B} (m : Tx A) (b c : B) tx tx' : (_ ← m; mret (M := Tx) b) tx = (tx', Ok c) -> c = b.
Proof. cbn. unfold mbind, Tx_bind. destruct (m tx) as [tx1 [a| |]]; [|done..]. by intros [= _ ->]. Qed.

Section Ends.
Context {RO : RowOrder} (valid : string -> bool) (kind : AnyKind).

Lemma step_rank v w tx tx' : migrate_schema_step valid kind v tx = (tx', Ok (Some w)) -> rank w < rank v.
Proof.
  unfold migrate_schema_step. intros H.
  repeat match type of H with context [String.eqb v ?c] =>
    destruct (String.eqb_spec v c) as [-> |];
      [first [apply then_ret in H; injection H as ->; vm_compute; lia|by inversion H]|]
  end. by inversion H.
Qed.

Lemma loop_ends n v tx : rank v < n -> forall tx', migrate_loop valid kind n v tx <> (tx', Ok None).
Proof.
  revert v tx. induction n as [|n IH]; intros v tx Hr tx' H; [lia|].
  change (migrate_loop valid kind (S n) v tx) with
    ((new ← migrate_schema_step valid kind v;
      match new with Some v => migrate_loop valid kind n v | None => mret (M := Tx) (Some v) end) tx) in H.
  unfold mbind, Tx_bind in H. destruct (migrate_schema_step valid kind v tx) as [tx1 [[w|]| |]] eqn:E; try done.
  apply step_rank in E. by apply (IH w tx1 ltac:(lia) tx').
Qed.

Lemma rank_bound v : rank v < 7.
Proof. unfold rank. repeat case_match; lia. Qed.

(** C17: The migration of any database, whatever it contains and whatever version
    it claims, ends within seven steps: it succeeds, or fails and leaves the
    database as it was. *)
Theorem migrate_schema_ends n db : 7 <= n -> exists db' r, migrate_schema valid kind n db = (db', r) /\
  (r = Ok (Some ()) \/ (is_ok r = false /\ db' = db)).
Proof.
  intros Hn. unfold migrate_schema, in_transaction.
  match goal with |- context [?f (begin_transaction db)] => set (m := f) end.
  assert (forall tx', m (begin_transaction db) <> (tx', Ok None)) as Hm.
  { intros tx' H. unfold m, mbind, Tx_bind in H.
    destruct (get_schema_version kind (begin_transaction db)) as [tx1 [v| |]]; try done.
    destruct (migrate_loop valid kind n v tx1) as [tx2 [[w|]| |]] eqn:E; try done.
    - destruct (statement kind (upsert_version w) tx2) as [tx3 [| |]]; done.
    - exfalso. apply (loop_ends n v tx1) in E; [done|]. pose proof (rank_bound v). lia. }
  destruct (m (begin_transaction db)) as [tx [[[]|]| |]].
  - eexists _, _. split; [done|by left].
  - by destruct (Hm tx).
  - eexists _, _. split; [done|by right].
  - eexists _, _. split; [done|by right].
Qed.
End Ends.

(** ** Postgres *)

Section Postgres.
Context {RO : RowOrder} {ROL : RowOrderLaws} (valid : string -> bool).

Lemma statement_aborted {A} kind (f : Database -> option (Database * A)) tx : tx_aborted tx = true ->
  exists e, statement kind f tx = (tx, Err e).
Proof. unfold statement. intros ->. by eexists. Qed.

Lemma ignore_aborted kind stmt tx : tx_aborted tx = true -> ignore (execute_stmt kind stmt) tx = (tx, Ok ()).
Proof. intros H. unfold ignore, execute_stmt. by destruct (statement_aborted kind (fun db => (., ()) <$> run_schema stmt db) tx H) as [e ->]. Qed.

(** What fails in a transaction that is rolled back. *)
Lemma failed {A} (m : Tx A) db tx e : m (begin_transaction db) = (tx, Err e) -> in_transaction m db = (db, Err e).
Proof. unfold in_transaction. by intros ->. Qed.

Lemma bind_ok_tx {A B} (m : Tx A) (k : A -> Tx B) tx tx' a r : m tx = (tx', Ok a) -> k a tx' = r -> (m ≫= k) tx = r.
Proof. unfold mbind, Tx_bind. by intros ->. Qed.
Lemma bind_err_tx {A B} (m : Tx A) (k : A -> Tx B) tx tx' e : m tx = (tx', Err e) -> (m ≫= k) tx = (tx', Err e).
Proof. unfold mbind, Tx_bind. by intros ->. Qed.

(** The step to version 1 aborts the transaction, and does not notice. *)
Lemma step_0_7_aborts db : db !! "sessions" = None ->
  exists tx, migrate_schema_step valid Postgres "0.7" (live db) = (tx, Ok (Some "1")) /\ tx_aborted tx = true.
Proof.
  intros Hs. set (db2 := ensured "indexes" indexes_1 (ensured "api_info" api_info_1 db)).
  exists {| tx_db := db2; tx_aborted := true |}. split; [|done].
  change (migrate_schema_step valid Postgres "0.7") with (_ ← migrate_from_0_7_to_1 Postgres; mret (M := Tx) (Some "1")).
  apply (bind_ok_tx _ _ _ {| tx_db := db2; tx_aborted := true |} ()); [|done]. unfold migrate_from_0_7_to_1.
  eapply bind_ok_tx; [apply (runs_ensure Postgres "api_info")|]. eapply bind_ok_tx; [apply (runs_ensure Postgres "indexes")|].
  fold db2. apply (bind_ok_tx _ _ _ {| tx_db := db2; tx_aborted := true |} ()); [|by apply ignore_aborted].
  unfold ignore, execute_stmt, statement, live, run_schema. cbn [tx_aborted tx_db].
  assert (db2 !! "sessions" = None) as -> by (unfold db2, ensured; repeat case_match; by rewrite ?lookup_insert_ne).
  done.
Qed.

Lemma aborted_step v tx : tx_aborted tx = true -> v = "1" -> exists e, migrate_schema_step valid Postgres v tx = (tx, Err e).
Proof.
  intros Ha ->.
  destruct (statement_aborted Postgres (fun db => (., ()) <$> run_schema (CreateTable "modules" false modules_2) db) tx Ha) as [e He].
  exists e. apply bind_err_tx, bind_err_tx. exact He.
Qed.

(** A Postgres database of the releases that had dropped the sessions
    already, and still called their schema 0.7, is never migrated: the
    statement that drops the table fails, its error is ignored, but Postgres
    has aborted the transaction and refuses every later statement. *)
Theorem dropped_sessions_not_migrated n db : 7 <= n -> shape "0.7" db -> recorded "0.7" db ->
  db !! "sessions" = None -> exists e, migrate_schema valid Postgres n db = (db, Err e).
Proof.
  intros Hn Hs Hv Hd.
  destruct (step_0_7_aborts db Hd) as (tx & Hstep & Ha). destruct (aborted_step "1" tx Ha eq_refl) as [e He].
  exists e. unfold migrate_schema. apply (failed _ _ tx). change (begin_transaction db) with (live db).
  eapply bind_ok_tx; [by apply (version_of "0.7")|]. apply bind_err_tx.
  destruct n as [|[|n]]; [lia..|]. eapply bind_ok_tx; [exact Hstep|]. by apply bind_err_tx.
Qed.

(** *** Columns without a cast *)

(** The column of a table that holds a type JSON cannot be made of. *)
Definition uncastable (db : Database) (table column : string) : Prop :=
  exists t i c, db !! table = Some t /\ position column (t_def t) = Some i /\ td_columns (t_def t) !! i = Some c /\
    has_cast (cd_type c) = false.

Lemma position_names def def' name : cd_name <$> td_columns def = cd_name <$> td_columns def' ->
  position name def = position name def'.
Proof.
  unfold position. generalize (td_columns def), (td_columns def'). clear def def'. intros l.
  induction l as [|c l IH]; intros [|c' l'] H; [done..|]. injection H as Hc H. cbn. rewrite Hc.
  case_decide; [done|]. specialize (IH l' H).
  destruct (list_find _ l) as [[i x]|], (list_find _ l') as [[i' x']|]; cbn in IH |- *; congruence.
Qed.

Lemma position_name def name i c : position name def = Some i -> td_columns def !! i = Some c -> cd_name c = name.
Proof.
  unfold position. intros H Hc. apply fmap_Some in H as ([j x] & Hf & ->). apply list_find_Some in Hf as (Hj & Hn & _).
  cbn in Hc. congruence.
Qed.

Lemma alter_uncastable db db' t2 c2 table column : uncastable db table column ->
  alter_to_jsonb valid t2 c2 db = Some (db', ()) -> uncastable db' table column.
Proof.
  intros (t & i & c & Ht & Hi & Hc & Hn) H. unfold alter_to_jsonb in H.
  destruct (db !! t2) as [t'|] eqn:Et; [|done]. cbn in H. destruct (position c2 (t_def t')) as [j|] eqn:Ej; [|done].
  cbn in H. destruct (td_columns (t_def t') !! j) as [c'|] eqn:Ec; [|done]. cbn in H.
  destruct (has_cast (cd_type c')) eqn:Hcast; [|done]. cbn in H. destruct (forallb _ _); [|done]. injection H as <-.
  destruct (decide (t2 = table)) as [-> |Hne].
  - assert (t' = t) as -> by congruence.
    assert (i <> j) as Hij by (intros ->; congruence).
    eexists _, i, c. rewrite lookup_insert_eq. split; [done|]. cbn [t_def td_columns]. split; [|split; [|done]].
    + rewrite <- Hi. apply position_names. cbn. rewrite list_fmap_insert. apply list_insert_id.
      rewrite list_lookup_fmap, Ec. done.
    + by rewrite list_lookup_insert_ne by done.
  - exists t, i, c. by rewrite lookup_insert_ne.
Qed.

Lemma alter_blocked db table column : uncastable db table column -> alter_to_jsonb valid table column db = None.
Proof.
  intros (t & i & c & Ht & Hi & Hc & Hn). unfold alter_to_jsonb. rewrite Ht. cbn. rewrite Hi. cbn. rewrite Hc. cbn.
  by rewrite Hn.
Qed.

Lemma alter_field f tx tx' r : migrate_field_to_4 valid Postgres f tx = (tx', r) -> tx_aborted tx = false -> is_ok r = true ->
  exists column, (exists prefix, rsplit_once "."%char (full_name f) = Some (prefix, column)) /\
    tx_aborted tx' = false /\ alter_to_jsonb valid (backing_table f) column (tx_db tx) = Some (tx_db tx', ()).
Proof.
  unfold migrate_field_to_4, mbind, Tx_bind, lift. intros H Ha Hr.
  destruct (rsplit_once _ (full_name f)) as [[p column]|]; cbn in H; [|injection H as <- <-; done].
  unfold statement in H. rewrite Ha in H. exists column. split; [by exists p|].
  destruct (alter_to_jsonb _ _ _ (tx_db tx)) as [[db' []]|]; injection H as <- <-; done.
Qed.

Lemma alters_blocked l tx tx' r table column f prefix : f ∈ l -> backing_table f = table ->
  rsplit_once "."%char (full_name f) = Some (prefix, column) -> tx_aborted tx = false ->
  uncastable (tx_db tx) table column -> each (migrate_field_to_4 valid Postgres) l tx = (tx', r) -> is_ok r = false.
Proof.
  intros Hf Hb Hs. revert tx. induction l as [|g l IH]; intros tx Ha Hu H; [by apply not_elem_of_nil in Hf|].
  cbn [each] in H. unfold mbind, Tx_bind in H.
  destruct (migrate_field_to_4 valid Postgres g tx) as [tx1 r1] eqn:E.
  destruct r1 as [[]| |]; [|by injection H as _ <-..].
  destruct (alter_field _ _ _ _ E Ha eq_refl) as (c & [p Hp] & Ha1 & Halter).
  apply elem_of_cons in Hf as [-> |Hf].
  - assert (c = column) as -> by congruence. rewrite Hb, alter_blocked in Halter; done.
  - apply (IH Hf tx1 Ha1); [by eapply alter_uncastable|done].
Qed.

(** The stored field of a type whose name starts with Array, in a column that has no cast. *)
Record array_column (db : Database) (fields names types : Table) (table column : string) : Prop := {
  ac_fields : db !! "fields" = Some fields;
  ac_names : db !! "field_names" = Some names;
  ac_types : db !! "types" = Some types;
  ac_rows : exists f n t id tid ty prefix name, f ∈ t_rows fields /\ n ∈ t_rows names /\ t ∈ t_rows types /\
    cell (t_def fields) "field_id" f = Some (CInt id) /\ cell (t_def names) "field_id" n = Some (CInt id) /\
    cell (t_def fields) "type_id" f = Some (CInt tid) /\ cell (t_def types) "type_id" t = Some (CInt tid) /\
    cell (t_def fields) "field_type" f = Some (CText ty) /\ starts_with ty "Array" = true /\
    cell (t_def names) "field_name" n = Some (CText name) /\ rsplit_once "."%char name = Some (prefix, column) /\
    cell (t_def types) "backing_table" t = Some (CText table);
  ac_column : uncastable db table column;
}.

Lemma joined_elem db db' rows fields names types table column : array_column db fields names types table column ->
  joined_fields db = Some (db', rows) ->
  db' = db /\ exists name ty prefix, [CText name; CText ty; CText table] ∈ rows /\
    starts_with ty "Array" = true /\ rsplit_once "."%char name = Some (prefix, column).
Proof.
  intros [Hf Hn Ht (f & n & t & id & tid & ty & prefix & name & Hinf & Hinn & Hint & C1 & C2 & C3 & C4 & C5 & Hs & C6 & Hsp & C7) _] H.
  unfold joined_fields in H. rewrite Hf, Hn, Ht in H. cbn [mbind option_bind] in H.
  match type of H with context [mapM ?g ?l] => destruct (mapM g l) as [out|] eqn:Em; [|done] end.
  cbn [mbind option_bind] in H. injection H as <- <-. split; [done|].
  exists name, ty, prefix. split; [|done]. rewrite (in_order_perm _). apply list_elem_of_omap.
  apply mapM_Some in Em. assert ((f, n, t) ∈ (f ← t_rows fields; n ← t_rows names; t ← t_rows types; [(f, n, t)])) as Hin.
  { apply list_elem_of_bind. exists f. split; [|exact Hinf]. apply list_elem_of_bind. exists n. split; [|exact Hinn].
    apply list_elem_of_bind. exists t. split; [|exact Hint]. apply list_elem_of_here. }
  apply list_elem_of_lookup in Hin as [i Hi]. destruct (Forall2_lookup_l _ _ _ _ _ Em Hi) as (o & Ho & Hrow).
  cbn in Hrow. rewrite C1, C5, C3, C6, C2, C4, C7 in Hrow. cbn in Hrow. rewrite !bool_decide_eq_true_2 in Hrow by done.
  injection Hrow as <-. exists (Some [CText name; CText ty; CText table]). split; [by eapply list_elem_of_lookup_2|done].
Qed.

(** A Postgres database with a field of a type whose name starts with
    "Array" but whose column holds no text - every field of type ArrayBuffer,
    which is stored as bytes - is not migrated from version 3: casting the
    column to JSON is refused. *)
Theorem array_buffers_not_migrated n db fields names types table column : 7 <= n -> shape "3" db ->
  recorded "3" db -> array_column db fields names types table column ->
  exists r, migrate_schema valid Postgres n db = (db, r) /\ is_ok r = false.
Proof.
  intros Hn Hs Hv Hac. unfold migrate_schema, in_transaction.
  match goal with |- context [?f (begin_transaction db)] => set (m := f) end.
  enough (forall tx a, m (begin_transaction db) <> (tx, Ok a)) as Hno.
  { destruct (m (begin_transaction db)) as [tx [a| |]]; [by destruct (Hno tx a)|by eexists..]. }
  intros tx a H. unfold m in H. change (begin_transaction db) with (live db) in H.
  pose proof (version_of "3" Postgres db Hs Hv ltac:(done)) as Hver. unfold runs in Hver.
  unfold mbind at 1, Tx_bind at 1 in H. rewrite Hver in H.
  unfold mbind at 1, Tx_bind at 1 in H. destruct n as [|n]; [lia|].
  change (migrate_loop valid Postgres (S n) "3" (live db)) with
    ((new ← (_ ← migrate_to_4 valid Postgres; mret (M := Tx) (Some "4"));
      match new with Some v => migrate_loop valid Postgres n v | None => mret (M := Tx) (Some "3") end) (live db)) in H.
  enough (forall tx', migrate_to_4 valid Postgres (live db) <> (tx', Ok ())) as H4.
  { unfold mbind at 1, Tx_bind at 1 in H. unfold mbind at 1, Tx_bind at 1 in H.
    destruct (migrate_to_4 valid Postgres (live db)) as [tx1 [[]| |]]; [by destruct (H4 tx1)|done..]. }
  clear H. intros tx' H. unfold migrate_to_4 in H. rewrite decide_False in H by done.
  unfold mbind at 1, Tx_bind at 1, statement at 1 in H. cbn [tx_aborted tx_db live] in H.
  destruct (joined_fields db) as [[db' rows]|] eqn:Ej; [|done].
  destruct (joined_elem _ _ _ _ _ _ _ _ Hac Ej) as (-> & name & ty & prefix & Hin & Hst & Hsp).
  unfold mbind at 1, Tx_bind at 1, lift in H. destruct (mapM field_to_4 rows) as [fs| |] eqn:Em; try done.
  apply mapM_ok in Em. apply list_elem_of_lookup in Hin as [i Hi].
  destruct (Forall2_lookup_l _ _ _ _ _ Em Hi) as (f & Hf & Hrow). injection Hrow as <-.
  assert (is_ok (Ok () : result unit) = false) as Hfalse; [|done].
  eapply (alters_blocked _ (live db) tx' _ table column {| full_name := name; type_ := ty; backing_table := table |} prefix);
    [|done|exact Hsp|done|exact (ac_column _ _ _ _ _ _ Hac)|exact H].
  apply list_elem_of_filter. split; [exact Hst|]. by eapply list_elem_of_lookup_2.
Qed.
End Postgres.

(** ** Two files become one *)

Section Split.
Context {RO : RowOrder} {ROL : RowOrderLaws}.

Lemma statement_ok {A} kind (f : Database -> option (Database * A)) db tx a :
  statement kind f (live db) = (tx, Ok a) -> exists db', tx = live db' /\ f db = Some (db', a).
Proof.
  unfold statement, live. cbn. destruct (f db) as [[db' a']|]; [|done]. intros [= <- <-]. by exists db'.
Qed.

Lemma copy_table_rows name t db tx : copy_table Sqlite (name, t) (live db) = (tx, Ok ()) ->
  exists db', tx = live db' /\ forall n, rows_of db' n ≡ₚ rows_of db n ++ if decide (n = name) then t_rows t else [].
Proof.
  unfold copy_table, mbind, Tx_bind. intros H.
  pose proof (runs_ensure Sqlite name (t_def t) db) as Hc. unfold runs in Hc. rewrite Hc in H.
  apply statement_ok in H as (db' & -> & H). exists db'. split; [done|]. unfold insert_all in H.
  assert (forall n, rows_of (ensured name (t_def t) db) n = rows_of db n) as He.
  { intros n. unfold ensured, rows_of. destruct (db !! name) eqn:E; [done|].
    destruct (decide (n = name)) as [-> |]; [by rewrite lookup_insert_eq, E|by rewrite lookup_insert_ne]. }
  destruct (ensured name (t_def t) db !! name) as [t'|] eqn:Et; [|done]. cbn in H.
  destruct (_ && _); [|done]. injection H as <-. intros n. rewrite <- He. unfold rows_of.
  destruct (decide (n = name)) as [-> |Hne].
  - rewrite lookup_insert_eq, Et. cbn. by rewrite (in_order_perm _).
  - rewrite lookup_insert_ne by done. by rewrite app_nil_r.
Qed.

Lemma each_cons {A} (f : A -> Tx unit) x l tx tx' : each f (x :: l) tx = (tx', Ok ()) ->
  exists tx1, f x tx = (tx1, Ok ()) /\ each f l tx1 = (tx', Ok ()).
Proof.
  cbn. unfold mbind, Tx_bind. destruct (f x tx) as [tx1 [[]| |]]; [|done..]. intros Heq. by exists tx1.
Qed.

Lemma copy_tables_rows l db tx : NoDup l.*1 -> each (copy_table Sqlite) l (live db) = (tx, Ok ()) ->
  exists db', tx = live db' /\
    forall n, rows_of db' n ≡ₚ rows_of db n ++ rows_of (list_to_map l : Database) n.
Proof.
  revert db. induction l as [|[name t] l IH]; intros db Hn H.
  { injection H as <-. exists db. split; [done|]. intros n. change (list_to_map [] : Database) with (∅ : Database).
    unfold rows_of at 3. rewrite lookup_empty. by rewrite app_nil_r. }
  apply each_cons in H as (tx1 & H1 & H). apply copy_table_rows in H1 as (db1 & -> & H1).
  cbn in Hn. apply NoDup_cons in Hn as [Hnot Hn]. destruct (IH db1 Hn H) as (db' & -> & H'). exists db'. split; [done|].
  intros n. rewrite H', H1. rewrite <- app_assoc. f_equiv. cbn [list_to_map foldr]. unfold rows_of.
  destruct (decide (n = name)) as [-> |Hne]; cbn.
  - rewrite lookup_insert_eq, (not_elem_of_list_to_map_1 _ _ Hnot). cbn. by rewrite app_nil_r.
  - by rewrite lookup_insert_ne.
Qed.

(** The rows of a table that a file brings. *)
Definition brought (source : Database) (n : string) : list (list Cell) :=
  if sqlite_table n then [] else rows_of source n.

Lemma copy_source_rows source db tx : copy_source Sqlite source (live db) = (tx, Ok ()) ->
  exists db', tx = live db' /\ forall n, rows_of db' n ≡ₚ rows_of db n ++ brought source n.
Proof.
  unfold copy_source. set (l := in_order _). intros H.
  assert (l ≡ₚ filter (fun e => sqlite_table e.1 = false) (map_to_list source)) as Hl by apply in_order_perm.
  assert (NoDup l.*1) as Hn.
  { rewrite Hl. apply NoDup_fmap_fst; [|apply NoDup_filter, NoDup_map_to_list].
    intros x y1 y2 H1 H2. apply list_elem_of_filter in H1 as [_ H1], H2 as [_ H2].
    apply elem_of_map_to_list in H1, H2. congruence. }
  destruct (copy_tables_rows l db tx Hn H) as (db' & -> & H'). exists db'. split; [done|]. intros n. rewrite H'.
  f_equiv. unfold brought, rows_of. destruct (sqlite_table n) eqn:Es.
  - rewrite (not_elem_of_list_to_map_1 l n); [done|]. intros Hin. apply list_elem_of_fmap in Hin as ([m t] & -> & Hin).
    rewrite Hl in Hin. apply list_elem_of_filter in Hin as [Hin _]. cbn in Hin, Es. congruence.
  - destruct (source !! n) as [t|] eqn:E.
    + rewrite (elem_of_list_to_map_1 l n t Hn); [done|]. rewrite Hl. apply list_elem_of_filter.
      split; [done|]. by apply elem_of_map_to_list.
    + rewrite (not_elem_of_list_to_map_1 l n); [done|]. intros Hin. apply list_elem_of_fmap in Hin as ([m t] & -> & Hin).
      rewrite Hl in Hin. apply list_elem_of_filter in Hin as [_ Hin]. apply elem_of_map_to_list in Hin. cbn in E. congruence.
Qed.

Lemma copy_sources_rows sources db tx : each (copy_source Sqlite) sources (live db) = (tx, Ok ()) ->
  exists db', tx = live db' /\ forall n, rows_of db' n ≡ₚ rows_of db n ++ (s ← sources; brought s n).
Proof.
  revert db. induction sources as [|s sources IH]; intros db H.
  { injection H as <-. exists db. split; [done|]. intros n. cbn. by rewrite app_nil_r. }
  apply each_cons in H as (tx1 & H1 & H). apply copy_source_rows in H1 as (db1 & -> & H1).
  destruct (IH db1 H) as (db' & -> & H'). exists db'. split; [done|]. intros n. rewrite H', H1, <- app_assoc. done.
Qed.

Lemma missing_spec (sources : list (option Database)) :
  let missing := filter (fun s => bool_decide (is_Some s) = false) sources in
  (length missing = length sources <-> Forall (fun s => s = None) sources) /\
  (missing = [] <-> Forall is_Some sources).
Proof.
  cbv zeta. assert (forall s : option Database, bool_decide (is_Some s) = false <-> s = None) as Hs.
  { intros [d|]; [rewrite bool_decide_eq_true_2 by done|rewrite bool_decide_eq_false_2 by (by intros [? ?])]; done. }
  induction sources as [|s sources [IH1 IH2]]; [split; split; constructor|].
  pose proof (length_filter (fun s : option Database => bool_decide (is_Some s) = false) sources) as Hlen.
  rewrite !Forall_cons, <- IH1, <- IH2. destruct s as [d|].
  - rewrite filter_cons_False by (rewrite Hs; done). cbn. split; [split; [lia|by intros [? ?]]|].
    split; [by split|by intros [? ?]].
  - rewrite filter_cons_True by (by rewrite Hs). cbn. split; [split; [intros [= Heq]; by split|by intros [_ ->]]|].
    split; [done|by intros [[? ?] ?]].
Qed.

(** C18: Bringing old SQLite files into a new one is all or nothing.  It does
    nothing when no file is there or the new one has tables, and refuses when
    only some files are there; otherwise, when it succeeds, every table has
    exactly the rows of all files together, and when it fails the database is
    as it was. *)
Theorem split_migration_spec sources db :
  let '(db', r) := maybe_migrate_split_sqlite_database Sqlite sources db in
  (is_ok r = false -> db' = db) /\
  (Forall (fun s => s = None) sources -> db' = db /\ r = Ok ()) /\
  (Exists (fun s => s = None) sources -> Exists is_Some sources -> is_ok r = false) /\
  (list_tables Sqlite db <> [] -> Forall is_Some sources -> db' = db /\ r = Ok ()) /\
  (list_tables Sqlite db = [] -> Forall is_Some sources -> sources <> [] -> r = Ok () ->
   forall n, rows_of db' n ≡ₚ rows_of db n ++ (s ← omap id sources; brought s n)).
Proof.
  unfold maybe_migrate_split_sqlite_database. rewrite decide_True by done.
  destruct (missing_spec sources) as [Hall Hnone]. set (missing := filter _ sources) in *.
  destruct (Nat.eqb_spec (length missing) (length sources)) as [Hl|Hl].
  { apply Hall in Hl. split; [done|]. split; [done|]. split; [|split; [done|]].
    - intros _ He. exfalso. apply Exists_exists in He as (s & Hin & [d Hd]). rewrite Forall_forall in Hl.
      by rewrite (Hl s Hin) in Hd.
    - intros _ Hsome Hne _. exfalso. destruct sources as [|s sources]; [done|].
      apply Forall_cons in Hl as [-> _]. by apply Forall_cons in Hsome as [[? ?] _]. }
  assert (~ Forall (fun s => s = None) sources) as Hn1 by (by rewrite <- Hall).
  destruct (decide (missing = [])) as [Hm|Hm].
  - rewrite bool_decide_eq_true_2 by done. cbn [negb]. apply Hnone in Hm.
    assert (~ Exists (fun s => s = None) sources) as Hn2.
    { intros (s & Hin & ->)%Exists_exists. rewrite Forall_forall in Hm. by destruct (Hm None Hin). }
    unfold in_transaction, maybe_migrate_split_sqlite_database_inner, mbind, Tx_bind.
    change (statement Sqlite (fun db => Some (db, list_tables Sqlite db)) (begin_transaction db)) with
      (live db, Ok (list_tables Sqlite db) : result (list string)). cbv iota beta.
    destruct (decide (list_tables Sqlite db = [])) as [Ht|Ht].
    + destruct (each (copy_source Sqlite) (omap id sources) (live db)) as [tx [[]| |]] eqn:E; cbn; [|repeat split; done..].
      apply copy_sources_rows in E as (db' & -> & Hrows). repeat split; try done.
    + cbn. repeat split; done.
  - rewrite bool_decide_eq_false_2 by done. cbn. repeat split; try done; intros; exfalso; apply Hm; by apply Hnone.
Qed.
End Split.

(** ** Examples *)

#[local] Existing Instance MetaSample.order.
#[local] Existing Instance MetaSample.order_laws.

Module MigrateSample.

Definition valid (s : string) : bool := true.
Definition text (s : string) : Cell := CText s.
Definition tab (def : TableDef) (rows : list (list Cell)) : Table := {| t_def := def; t_rows := rows |}.

Definition rows : list SourceRow :=
  [{| sr_path := "/dev/routes/hello.ts"; sr_code := "export default () => 1" |};
   {| sr_path := "/dev/lib/x.ts"; sr_code := "export const x = 1" |};
   {| sr_path := "unversioned.ts"; sr_code := "" |}].

(** What all versions from 0.7 on have: a type with one field. *)
Definition base (field_type : string) : list (string * Table) :=
  [("types", tab types_0 [[CInt 1; text "ty_File"; CNull]]);
   ("type_names", tab type_names_0 [[CInt 1; text "dev.File"]]);
   ("fields", tab fields_0_7 [[CInt 1; text field_type; CNull; CBool false; CInt 1; CBool false]]);
   ("field_names", tab field_names_0 [[text "dev.File.data"; CInt 1]]);
   ("field_labels", tab field_labels_0 []);
   ("policies", tab policies_0 []);
   ("ty_File", tab (table [col "id" Text; col "data" (OtherType "bytea")] []) [[text "1"; CNull]])].

Definition version (v : string) : string * Table :=
  ("chisel_version", tab chisel_version_0_7 [[text "chiselstrike"; text v]]).

(** A database of release 0.10: sessions are gone, sources still called endpoints. *)
Definition db_0_7 : Database :=
  list_to_map (base "string" ++ [version "0.7"; ("api_info", tab api_info_1 []);
    ("endpoints", tab endpoints_0 [[text "/dev/routes/hello.ts"; text "export default () => 1"]])]).

Definition db_3 : Database :=
  list_to_map (base "ArrayBuffer" ++ [version "3"; ("api_info", tab api_info_1 []); ("indexes", tab indexes_1 []);
    ("modules", tab modules_2 []); ("policy_store", tab policy_store_3 [])]).

Lemma shape_db_0_7 : shape "0.7" db_0_7.
Proof.
  apply shape_0_7; try (vm_compute; reflexivity).
  - repeat split; vm_compute; reflexivity.
  - right. vm_compute. reflexivity.
  - left. vm_compute. reflexivity.
  - right. split; vm_compute; reflexivity.
Qed.

Lemma shape_db_3 : shape "3" db_3.
Proof.
  apply shape_3; try (vm_compute; reflexivity); [set_solver|].
  repeat split; vm_compute; reflexivity.
Qed.

Lemma sources_db_0_7 : sources_ok db_0_7.
Proof.
  change (sources_ok db_0_7) with
    (Forall (fun row => is_Some (source_of row)) [[text "/dev/routes/hello.ts"; text "export default () => 1"]] /\
     NoDup ["dev/routes/hello.ts"]).
  split; [repeat constructor; by eexists|apply NoDup_singleton].
Qed.

Lemma array_db_3 : exists fields names types, array_column db_3 fields names types "ty_File" "data".
Proof.
  eexists _, _, _. split; [vm_compute; reflexivity..| |].
  - exists [CInt 1; text "ArrayBuffer"; CNull; CBool false; CInt 1; CBool false], [text "dev.File.data"; CInt 1],
      [CInt 1; text "ty_File"; CNull], 1%Z, 1%Z, "ArrayBuffer", "dev.File", "dev.File.data".
    repeat split; try (vm_compute; reflexivity); apply list_elem_of_here.
  - eexists _, 1, _. repeat split; vm_compute; reflexivity.
Qed.

(** The two old files. *)
Definition meta_file : Database := list_to_map [("types", tab types_0 [[CInt 1; text "ty_File"; CNull]])].
Definition data_file : Database := list_to_map [("ty_File", tab (table [col "id" Text] []) [[text "1"]])].
Definition joined : Database := (maybe_migrate_split_sqlite_database Sqlite [Some meta_file; Some data_file] ∅).1.

Lemma split_runs : maybe_migrate_split_sqlite_database Sqlite [Some meta_file; Some data_file] ∅ = (joined, Ok ()).
Proof. vm_compute. reflexivity. Qed.

End MigrateSample.

Lemma migrate_sources_spec_witness :
  NoDup (trimmed <$> MigrateSample.rows) /\ NoDup (module_key <$> migrate_sources MigrateSample.rows).
Proof.
  assert (NoDup (trimmed <$> MigrateSample.rows)) as H.
  { change (NoDup ["dev/routes/hello.ts"; "dev/lib/x.ts"; "unversioned.ts"]). apply (bool_decide_unpack _). vm_compute. exact I. }
  split; [exact H|]. exact (proj2 (migrate_sources_spec MigrateSample.rows) H).
Defined.

Lemma migrate_schema_spec_witness : exists db',
  migrate_schema MigrateSample.valid Sqlite 7 MigrateSample.db_0_7 = (db', Ok (Some ())) /\ shape "4" db' /\
  c_modules (content "4" db') = module_values <$> migrate_sources
    [{| sr_path := "/dev/routes/hello.ts"; sr_code := "export default () => 1" |}].
Proof.
  destruct (migrate_schema_spec MigrateSample.valid 7 "0.7" MigrateSample.db_0_7) as (db' & H & Hs & _ & Hc & _ & _);
    [lia|exact MigrateSample.shape_db_0_7|vm_compute; reflexivity|discriminate|intros _; exact MigrateSample.sources_db_0_7|].
  exists db'. split; [exact H|]. split; [exact Hs|]. rewrite Hc. reflexivity.
Defined.

Lemma migrate_schema_ends_witness : 7 <= 7 /\ exists db' r,
  migrate_schema MigrateSample.valid Postgres 7 MigrateSample.db_3 = (db', r) /\
  (r = Ok (Some ()) \/ (is_ok r = false /\ db' = MigrateSample.db_3)).
Proof. split; [lia|]. exact (migrate_schema_ends MigrateSample.valid Postgres 7 MigrateSample.db_3 ltac:(lia)). Defined.

Lemma dropped_sessions_not_migrated_witness : exists e,
  migrate_schema MigrateSample.valid Postgres 7 MigrateSample.db_0_7 = (MigrateSample.db_0_7, Err e).
Proof.
  apply dropped_sessions_not_migrated; [lia|exact MigrateSample.shape_db_0_7|vm_compute; reflexivity..].
Defined.

Lemma array_buffers_not_migrated_witness : exists r,
  migrate_schema MigrateSample.valid Postgres 7 MigrateSample.db_3 = (MigrateSample.db_3, r) /\ is_ok r = false.
Proof.
  destruct MigrateSample.array_db_3 as (fields & names & types & Hac).
  apply (array_buffers_not_migrated MigrateSample.valid 7 MigrateSample.db_3 fields names types "ty_File" "data");
    [lia|exact MigrateSample.shape_db_3|vm_compute; reflexivity|exact Hac].
Defined.

Lemma split_migration_spec_witness :
  rows_of MigrateSample.joined "ty_File" ≡ₚ [[CText "1"]] /\
  rows_of MigrateSample.joined "types" ≡ₚ [[CInt 1; CText "ty_File"; CNull]].
Proof.
  pose proof (split_migration_spec [Some MigrateSample.meta_file; Some MigrateSample.data_file] ∅) as H.
  rewrite MigrateSample.split_runs in H. destruct H as (_ & _ & _ & _ & H).
  specialize (H ltac:(vm_compute; reflexivity) ltac:(repeat constructor; by eexists) ltac:(discriminate) eq_refl).
  split; [rewrite (H "ty_File")|rewrite (H "types")]; vm_compute; reflexivity.
Defined.
