(* ===== verification/Models.v ===== *)
(** * The models of an application ([cli/src/ts.rs])

    The command line interface reads the classes of the models files and turns
    them into the types of an apply request.  The parser of TypeScript (swc) and
    the reading of the files are parameters; the tree is modelled as far as this
    code looks at it.  What the code prints on the way (the spans of errors, a
    warning about entity fields) changes nothing and is left out. *)

From S2P Require Import Prelude Builtin PolicyRules Apply.

(** ** The tree of TypeScript *)
Module Ts.

Inductive Keyword := StringKeyword | NumberKeyword | BooleanKeyword | OtherKeyword.
Inductive EntityName := Ident (sym : string) | QualifiedName.

Inductive Type_ :=
  | KeywordType (kind : Keyword)
  | TypeRef (type_name : EntityName) (type_params : option (list Type_))
  | ArrayType (elem_type : Type_)
  | OtherType.

Inductive UnaryOp := Minus | Plus | Bang | Tilde | TypeOf | Void | Delete.

(** [Lit] is [PolicyRules.JsLit]. *)
Inductive Expr :=
  | ELit (lit : JsLit)
  | EUnary (op : UnaryOp) (arg : Expr)
  | EIdent (sym : string)
  | ECall (callee : Callee) (args : list Expr)
  | ENew
  | EOther
with Callee := CSuper | CImport | CExpr (e : Expr).

Inductive PropName := NameIdent (sym : string) (optional : bool) | NameOther.

Record ClassProp := {
  key : PropName;
  value : option Expr;
  type_ann : option Type_;
  decorators : list Expr;
}.

Inductive ClassMember := MemberProp (p : ClassProp) | Constructor | MemberOther.
Inductive Decl := DClass (ident : string) (body : list ClassMember) | DOther.
Inductive ModuleItem := ExportDecl (decl : Decl) | Import | Stmt | DeclOther.

End Ts.

(** The text of an operator, as swc prints it. *)
Definition op_text (op : Ts.UnaryOp) : string :=
  match op with
  | Ts.Minus => "-" | Ts.Plus => "+" | Ts.Bang => "!" | Ts.Tilde => "~"
  | Ts.TypeOf => "typeof" | Ts.Void => "void" | Ts.Delete => "delete"
  end.

(** Reading a file and parsing a module; the lexer may have reported errors
    before the parser starts. *)
Class TsParser := {
  load_file : string -> result string;
  take_errors : string -> bool;
  parse_typescript_module : string -> result (list Ts.ModuleItem);
}.

(** ** Types *)

(** [TypeEnum::array] *)
Definition te_array (inner : TypeEnum) : TypeEnum := TeArray (Some (mkTypeMsg (Some inner))).

(** [Display]; the element type of an array is unwrapped. *)
Fixpoint type_enum_display (t : TypeEnum) : result string :=
  match t with
  | TeString => Ok "string"
  | TeNumber => Ok "number"
  | TeBool => Ok "boolean"
  | TeJsDate => Ok "jsDate"
  | TeArrayBuffer => Ok "ArrayBuffer"
  | TeEntity name => Ok name
  | TeEntityId entity_name => Ok ("Id<" +:+ entity_name +:+ ">")
  | TeArray (Some (mkTypeMsg (Some inner))) =>
      inner ← type_enum_display inner; Ok ("Array<" +:+ inner +:+ ">")
  | TeArray _ => Panic "called `Result::unwrap()` on an `Err` value"
  end.

Fixpoint type_enum_eqb (a b : TypeEnum) : bool :=
  match a, b with
  | TeString, TeString | TeNumber, TeNumber | TeBool, TeBool | TeJsDate, TeJsDate
  | TeArrayBuffer, TeArrayBuffer => true
  | TeEntity n, TeEntity m | TeEntityId n, TeEntityId m => String.eqb n m
  | TeArray (Some (mkTypeMsg (Some a))), TeArray (Some (mkTypeMsg (Some b))) => type_enum_eqb a b
  | TeArray (Some (mkTypeMsg None)), TeArray (Some (mkTypeMsg None)) | TeArray None, TeArray None => true
  | _, _ => false
  end.

Definition get_ident_string (x : Ts.Expr) : result string :=
  match x with
  | Ts.EIdent id => Ok id
  | _ => bail "expected an identifier"
  end.

Definition get_field_info (x : Ts.PropName) : result (string * bool) :=
  match x with
  | Ts.NameIdent id optional => Ok (id, optional)
  | Ts.NameOther => bail "expected an identifier"
  end.

Definition map_entity_id (type_params : option (list Ts.Type_)) : result TypeEnum :=
  type_params ← option_context type_params "type Id must have type parameter";
  match type_params with
  | [Ts.TypeRef (Ts.Ident entity_name) _] => Ok (TeEntityId entity_name)
  | [_] => bail "the type argument of type Id must refer to an entity"
  | _ => bail "type Id requires exactly one type argument"
  end.

Definition map_keyword (kind : Ts.Keyword) : result TypeEnum :=
  match kind with
  | Ts.StringKeyword => Ok TeString
  | Ts.NumberKeyword => Ok TeNumber
  | Ts.BooleanKeyword => Ok TeBool
  | Ts.OtherKeyword => bail "type keyword not supported"
  end.

Fixpoint map_array_type (x : Ts.Type_) : result TypeEnum :=
  let err := bail "only arrays of primitive types are supported" in
  match x with
  | Ts.ArrayType elem_type =>
      te_array <$>
        match elem_type with
        | Ts.KeywordType kind => map_keyword kind
        | Ts.ArrayType _ => map_array_type elem_type
        | Ts.TypeRef (Ts.Ident ident_name) type_params =>
            if String.eqb ident_name "Date" then Ok TeJsDate
            else if String.eqb ident_name "Id" then map_entity_id type_params
            else err
        | _ => err
        end
  | _ => Panic "trying to map as array a type which is not an array"
  end.

Definition map_type (x : Ts.Type_) : result TypeEnum :=
  match x with
  | Ts.KeywordType kind => map_keyword kind
  | Ts.TypeRef (Ts.Ident ident_name) type_params =>
      if String.eqb ident_name "Date" then Ok TeJsDate
      else if String.eqb ident_name "ArrayBuffer" then Ok TeArrayBuffer
      else if String.eqb ident_name "Id" then map_entity_id type_params
      else Ok (TeEntity ident_name)
  | Ts.TypeRef Ts.QualifiedName _ => bail "qualified names are not supported"
  | Ts.ArrayType _ => map_array_type x
  | Ts.OtherType => bail "type is not supported"
  end.

Section Parse.
Context {FT : FloatText} {TP : TsParser}.

(** ** Default values and decorators *)

Definition parse_literal (x : JsLit) : result (string * TypeEnum) :=
  match x with
  | LitStr s => Ok (s, TeString)
  | LitBool b => Ok (if b then "true" else "false", TeBool)
  | LitNum n => Ok (f64_display n, TeNumber)
  | LitNull | LitOther => bail "literal not supported"
  end.

(** An expression that is no literal and no unary operator has no value here. *)
Fixpoint get_field_value (x : Ts.Expr) : result (option (string * TypeEnum)) :=
  match x with
  | Ts.ELit k => Some <$> parse_literal k
  | Ts.EUnary op arg =>
      value ← get_field_value arg;
      '(text, ty) ← option_context value "unexpected empty expression";
      Ok (Some (op_text op +:+ text, ty))
  | _ => Ok None
  end.

(** The labels of a call of [labels]. *)
Definition add_label (output : list string) (arg : Ts.Expr) : result (list string) :=
  value ← get_field_value arg;
  match value with
  | Some (label, ty) =>
      _ ← ensure (type_enum_eqb ty TeString) "Only strings accepted as labels";
      Ok (output ++ [label])
  | None => Ok output
  end.

Definition get_type_decorator (s : list string * bool) (dec : Ts.Expr) : result (list string * bool) :=
  let '(output, is_unique) := s in
  match dec with
  | Ts.ECall callee args =>
      callee ← match callee with
               | Ts.CExpr e => Ok e
               | _ => bail "expected expression"
               end;
      name ← get_ident_string callee;
      _ ← ensure (String.eqb name "labels") "decorator is not supported by ChiselStrike";
      output ← foldM add_label output args;
      Ok (output, is_unique)
  | Ts.EIdent name =>
      _ ← ensure (negb (String.eqb name "labels")) "expected a call-like decorator";
      _ ← ensure (String.eqb name "unique") "decorator is not supported by ChiselStrike";
      Ok (output, true)
  | _ => bail "expected a call-like decorator"
  end.

Definition get_type_decorators (x : list Ts.Expr) : result (list string * bool) :=
  foldM get_type_decorator ([], false) x.

(** ** Classes *)

(** The type and the default value of a field. *)
Definition field_type_and_default (type_ann : option Ts.Type_) (value : option Ts.Expr)
    : result (TypeEnum * option string) :=
  match type_ann, value with
  | Some type_ann, Some value =>
      field_type ← map_type type_ann;
      value ← get_field_value value;
      match value with
      | Some (default_value, value_type) =>
          if type_enum_eqb field_type value_type then Ok (field_type, Some default_value)
          else
            _ ← type_enum_display field_type;
            _ ← type_enum_display value_type;
            bail "field is of another type than its default value"
      | None => Ok (field_type, None)
      end
  | Some type_ann, None =>
      field_type ← map_type type_ann; Ok (field_type, None)
  | None, Some value =>
      value ← get_field_value value;
      match value with
      | Some (default_value, value_type) => Ok (value_type, Some default_value)
      | None => bail "field needs an explicit type annotation"
      end
  | None, None => bail "field needs a type annotation or a default value"
  end.

Definition parse_class_prop (x : Ts.ClassProp) : result FieldDefinition :=
  '(field_name, is_optional) ← get_field_info (Ts.key x);
  _ ← ensure (negb (String.eqb field_name "id")) "Creating a field with the name `id` is not supported.";
  '(field_type, default_value) ← field_type_and_default (Ts.type_ann x) (Ts.value x);
  '(labels, is_unique) ← get_type_decorators (Ts.decorators x);
  _ ← match field_type with
      | TeEntity _ =>
          if is_optional then Ok ()
          else match Ts.value x with
               | None | Some Ts.ENew => Ok ()
               | Some _ => bail "field of entity type has unexpected initializer"
               end
      | _ => Ok ()
      end;
  Ok {| def_name := field_name;
        def_is_optional := is_optional;
        def_is_unique := is_unique;
        def_default_value := default_value;
        def_field_type := Some (mkTypeMsg (Some field_type));
        def_labels := labels |}.

(** One turn of the loop over the members of a class. *)
Definition parse_member (field_defs : list FieldDefinition) (member : Ts.ClassMember)
    : result (list FieldDefinition) :=
  match member with
  | Ts.MemberProp x =>
      fd ← parse_class_prop x;
      _ ← ensure (negb (existsb (fun field => String.eqb (def_name field) (def_name fd)) field_defs))
            "found duplicate field on entity type";
      Ok (field_defs ++ [fd])
  | Ts.Constructor => bail "invalid type file"
  | Ts.MemberOther => Ok field_defs
  end.

(** What the parsing collects: the types, and the set of their names. *)
Abbreviation Parsed := (list AddTypeRequest * gset string)%type.

Definition parse_class_decl (s : Parsed) (decl : Ts.Decl) : result Parsed :=
  let '(type_vec, valid_types) := s in
  match decl with
  | Ts.DClass name body =>
      _ ← ensure (bool_decide (name ∉ valid_types)) "Model defined twice";
      let valid_types := {[name]} ∪ valid_types in
      field_defs ← foldM parse_member [] body;
      Ok (type_vec ++ [{| at_name := name; at_field_defs := field_defs |}], valid_types)
  | Ts.DOther => bail "invalid type file"
  end.

Definition parse_item (s : Parsed) (item : Ts.ModuleItem) : result Parsed :=
  match item with
  | Ts.ExportDecl decl => parse_class_decl s decl
  | Ts.Import | Ts.Stmt => Ok s
  | Ts.DeclOther => bail "invalid type file"
  end.

(** ** Files *)

Definition parse_one_file (s : Parsed) (filename : string) : result Parsed :=
  code ← load_file filename;
  _ ← ensure (negb (take_errors code)) "Exiting on parsing errors";
  body ← parse_typescript_module code;
  foldM parse_item s body.

Definition validate_field (valid_entities : gset string) (field : FieldDefinition) : result unit :=
  t ← field_type field;
  match t with
  | TeEntity name =>
      ensure (bool_decide (name ∈ valid_entities) || is_auth_entity_name name)
        "field in class is of unknown entity type"
  | _ => Ok ()
  end.

Definition validate_type_vec (type_vec : list AddTypeRequest) (valid_entities : gset string) : result unit :=
  foldM (fun _ t => foldM (fun _ field => validate_field valid_entities field) () (at_field_defs t)) () type_vec.

Definition parse_types (files : list string) : result (list AddTypeRequest) :=
  '(type_vec, valid_types) ← foldM parse_one_file ([], ∅) files;
  _ ← validate_type_vec type_vec valid_types;
  Ok type_vec.

End Parse.
