(* ===== verification/ModelsSpec.v ===== *)
(** * The models that are accepted, and what the server makes of them

    Which models files parse, and to which types; that the types are well
    formed, and that the server builds them. *)

From S2P Require Import Prelude Ident Types Builtin TypeSystem Query Engine PolicyRules Meta Apply SortSpec ApplySample ApplySpec MetaStoreSpec ApplyStoreSpec Models.

#[local] Arguments is_auth_entity_name : simpl never.

(** ** What the annotations of a class mean *)

(** The type of the elements of an array, or of a field. *)
Inductive elem_denotes : Ts.Type_ -> TypeEnum -> Prop :=
  | ed_string : elem_denotes (Ts.KeywordType Ts.StringKeyword) TeString
  | ed_number : elem_denotes (Ts.KeywordType Ts.NumberKeyword) TeNumber
  | ed_boolean : elem_denotes (Ts.KeywordType Ts.BooleanKeyword) TeBool
  | ed_date params : elem_denotes (Ts.TypeRef (Ts.Ident "Date") params) TeJsDate
  | ed_id n params :
      elem_denotes (Ts.TypeRef (Ts.Ident "Id") (Some [Ts.TypeRef (Ts.Ident n) params])) (TeEntityId n)
  | ed_array x t : elem_denotes x t -> elem_denotes (Ts.ArrayType x) (te_array t).

(** The type of a field: buffers and entities are not kept in arrays. *)
Inductive denotes : Ts.Type_ -> TypeEnum -> Prop :=
  | de_elem x t : elem_denotes x t -> denotes x t
  | de_buffer params : denotes (Ts.TypeRef (Ts.Ident "ArrayBuffer") params) TeArrayBuffer
  | de_entity n params : n ∉ ["Date"; "ArrayBuffer"; "Id"] ->
      denotes (Ts.TypeRef (Ts.Ident n) params) (TeEntity n).

(** Literals and what unary operators make of them; anything else is computed
    when the program runs. *)
Inductive constant {FT : FloatText} : Ts.Expr -> string -> TypeEnum -> Prop :=
  | const_string s : constant (Ts.ELit (LitStr s)) s TeString
  | const_bool b : constant (Ts.ELit (LitBool b)) (if b then "true" else "false") TeBool
  | const_number n : constant (Ts.ELit (LitNum n)) (f64_display n) TeNumber
  | const_unary op e s t : constant e s t -> constant (Ts.EUnary op e) (op_text op +:+ s) t.

Definition computed (e : Ts.Expr) : bool :=
  match e with Ts.ELit _ | Ts.EUnary _ _ => false | _ => true end.

Lemma type_enum_eqb_eq : forall a b, type_enum_eqb a b = true <-> a = b.
Proof.
  fix IH 1. intros a b. split.
  - destruct a as [| | | | |n|n|[[[a|]]|]], b as [| | | | |m|m|[[[b|]]|]]; cbn; try done;
      try (by intros ->%String.eqb_eq). by intros ->%IH.
  - intros <-. destruct a as [| | | | |n|n|[[[a|]]|]]; cbn; try done; try apply String.eqb_refl. by apply IH.
Qed.

Lemma map_keyword_ok k t : map_keyword k = Ok t <-> elem_denotes (Ts.KeywordType k) t.
Proof.
  split; [destruct k; cbn; try done; intros [= <-]; constructor|].
  by inversion 1.
Qed.

Lemma map_entity_id_ok params t : map_entity_id params = Ok t <->
  elem_denotes (Ts.TypeRef (Ts.Ident "Id") params) t.
Proof.
  split; [|by inversion 1].
  destruct params as [[|[|[n|]| |] [|]]|]; cbn; try done. intros [= <-]. constructor.
Qed.

(** A named type that may be an element. *)
Lemma elem_ref_ok n params t : elem_denotes (Ts.TypeRef (Ts.Ident n) params) t <->
  (n = "Date" /\ t = TeJsDate) \/ (n = "Id" /\ map_entity_id params = Ok t).
Proof.
  rewrite map_entity_id_ok. split.
  - inversion 1; subst; [by left|by right].
  - intros [[-> ->]|[-> H]]; [constructor|done].
Qed.

Lemma map_array_type_ok : forall x t, map_array_type (Ts.ArrayType x) = Ok t <->
  elem_denotes (Ts.ArrayType x) t.
Proof.
  assert (forall x t, elem_denotes (Ts.ArrayType x) t <-> exists u, elem_denotes x u /\ t = te_array u) as Harr.
  { intros x t. split; [inversion 1; by eexists|intros (u & Hu & ->); by constructor]. }
  fix IH 1. intros x t. rewrite Harr. cbn [map_array_type]. rewrite fmap_ok.
  assert (forall u, (match x with
     | Ts.KeywordType kind => map_keyword kind
     | Ts.ArrayType _ => map_array_type x
     | Ts.TypeRef (Ts.Ident ident_name) type_params =>
         if String.eqb ident_name "Date" then Ok TeJsDate
         else if String.eqb ident_name "Id" then map_entity_id type_params
         else bail "only arrays of primitive types are supported"
     | _ => bail "only arrays of primitive types are supported"
     end = Ok u) <-> elem_denotes x u) as Hx; [|split; intros (u & Hu & ->); exists u; by rewrite Hx in *].
  intros u. destruct x as [k|[n|] params|y|].
  - apply map_keyword_ok.
  - rewrite elem_ref_ok. destruct (String.eqb_spec n "Date") as [->|]; [|destruct (String.eqb_spec n "Id") as [->|]].
    + split; [intros [= <-]; by left|by intros [[_ ->]|[? _]]].
    + split; [by right|by intros [[? _]|[_ ?]]].
    + split; [done|by intros [[? _]|[? _]]].
  - split; [done|by inversion 1].
  - apply IH.
  - split; [done|by inversion 1].
Qed.

Lemma map_type_ok x t : map_type x = Ok t <-> denotes x t.
Proof.
  assert (denotes x t <-> elem_denotes x t \/
    (exists params, x = Ts.TypeRef (Ts.Ident "ArrayBuffer") params /\ t = TeArrayBuffer) \/
    (exists n params, n ∉ ["Date"; "ArrayBuffer"; "Id"] /\ x = Ts.TypeRef (Ts.Ident n) params /\ t = TeEntity n)) as ->.
  { split; [inversion 1; subst; [by left|right; left; by eexists|right; right; by eexists _, _]|].
    intros [H|[(p & -> & ->)|(n & p & Hn & -> & ->)]]; by constructor. }
  destruct x as [k|[n|] params|y|]; cbn [map_type].
  - rewrite map_keyword_ok. split; [by left|intros [H|[(p & H & _)|(n & p & _ & H & _)]]; done].
  - rewrite elem_ref_ok. destruct (String.eqb_spec n "Date") as [->|H1];
      [|destruct (String.eqb_spec n "ArrayBuffer") as [->|H2]; [|destruct (String.eqb_spec n "Id") as [->|H3]]].
    + split; [intros [= <-]; by left; left|]. intros [[[_ ->]|[? _]]|[(p & ? & _)|(m & p & Hm & [= <- _] & _)]]; try done.
      exfalso. apply Hm. by left.
    + split; [intros [= <-]; right; left; by eexists|].
      intros [[[? _]|[? _]]|[(p & ? & ->)|(m & p & Hm & [= <- _] & _)]]; try done. exfalso. apply Hm. right. by left.
    + split; [intros H; left; by right|].
      intros [[[? _]|[_ ?]]|[(p & ? & _)|(m & p & Hm & [= <- _] & _)]]; try done.
      exfalso. apply Hm. right. right. by left.
    + split.
      * intros [= <-]. right. right. exists n, params. split; [|done].
        intros [->|[->|[->|?%elem_of_nil]%elem_of_cons]%elem_of_cons]%elem_of_cons; done.
      * intros [[[? _]|[? _]]|[(p & [= ? _] & _)|(m & p & _ & [= -> _] & ->)]]; done.
  - split; [done|intros [H|[(p & H & _)|(n & p & _ & H & _)]]; inversion H].
  - rewrite map_array_type_ok. split; [by left|intros [H|[(p & H & _)|(n & p & _ & H & _)]]; done].
  - split; [done|intros [H|[(p & H & _)|(n & p & _ & H & _)]]; inversion H].
Qed.

(** Every type that is read can be printed: the [unwrap] of [Display] is safe. *)
Lemma elem_display x t : elem_denotes x t -> is_ok (type_enum_display t) = true.
Proof.
  induction 1 as [| | | | |x t _ IH]; try done. cbn. by destruct (type_enum_display t).
Qed.

Lemma denotes_display x t : denotes x t -> is_ok (type_enum_display t) = true.
Proof. intros [y u H|p|n p Hn]; [by eapply elem_display|done..]. Qed.

(** ** Values and decorators *)

Section Values.
Context {FT : FloatText}.

Lemma get_field_value_ok e : forall o, get_field_value e = Ok o <->
  match o with Some (s, t) => constant e s t | None => computed e = true end.
Proof.
  induction e as [l|op e IH|n|c args| |]; intros o; cbn [get_field_value computed];
    try (split; [by intros [= <-]|by destruct o as [[s t]|]; [inversion 1|]]).
  - destruct l; cbn; (split; [try (intros [= <-]; constructor); done|]);
      (destruct o as [[s' t]|]; [inversion 1; subst|]; done).
  - split.
    + intros H. apply bind_ok in H as (v & Hv%IH & H). apply bind_ok in H as ([s t] & ->%option_context_ok & [= <-]).
      by constructor.
    + destruct o as [[s t]|]; [|done]. inversion 1 as [| | |op' e' s' t' Hc]; subst.
      apply bind_ok. exists (Some (s', t)). split; [by apply IH|]. done.
Qed.

(** The labels of a decorator. *)
Definition label_of (arg : Ts.Expr) : option string :=
  match get_field_value arg with Ok (Some (s, TeString)) => Some s | _ => None end.

Definition label_arg (arg : Ts.Expr) : Prop := computed arg = true \/ exists s, constant arg s TeString.

Definition decorator_ok (dec : Ts.Expr) : Prop :=
  dec = Ts.EIdent "unique" \/
  exists args, dec = Ts.ECall (Ts.CExpr (Ts.EIdent "labels")) args /\ Forall label_arg args.

Definition decorator_labels (dec : Ts.Expr) : list string :=
  match dec with Ts.ECall _ args => omap label_of args | _ => [] end.

Lemma label_of_constant e s : constant e s TeString -> label_of e = Some s.
Proof.
  intros H. unfold label_of. by rewrite (proj2 (get_field_value_ok e (Some (s, TeString))) H).
Qed.

Lemma label_of_computed e : computed e = true -> label_of e = None.
Proof. intros H. unfold label_of. by rewrite (proj2 (get_field_value_ok e None) H). Qed.

Lemma add_label_ok out arg out' : add_label out arg = Ok out' <->
  label_arg arg /\ out' = out ++ option_list (label_of arg).
Proof.
  unfold add_label. split.
  - intros H. apply bind_ok in H as ([[s t]|] & Hv%get_field_value_ok & H); cbn in Hv.
    + apply bind_unit_ok in H as [->%ensure_ok%type_enum_eqb_eq [= <-]].
      split; [right; by exists s|]. by rewrite (label_of_constant _ _ Hv).
    + injection H as <-. split; [by left|]. rewrite (label_of_computed _ Hv). cbn. by rewrite app_nil_r.
  - intros [[H|[s H]] ->]; apply bind_ok.
    + exists None. split; [by apply get_field_value_ok|]. rewrite (label_of_computed _ H). cbn. by rewrite app_nil_r.
    + exists (Some (s, TeString)). split; [by apply get_field_value_ok|]. by rewrite (label_of_constant _ _ H).
Qed.

Lemma add_labels_ok args : forall out out', foldM add_label out args = Ok out' <->
  Forall label_arg args /\ out' = out ++ omap label_of args.
Proof.
  induction args as [|arg args IH]; intros out out'; cbn [foldM].
  { cbn. rewrite app_nil_r. split; [by intros [= <-]|by intros [_ ->]]. }
  rewrite bind_ok. cbn. split.
  - intros (o & [Ha ->]%add_label_ok & [Hs ->]%IH). split; [by constructor|].
    rewrite <- app_assoc. by destruct (label_of arg).
  - intros [[Ha Hs]%Forall_cons ->]. exists (out ++ option_list (label_of arg)).
    split; [by apply add_label_ok|]. apply IH. split; [done|]. rewrite <- app_assoc. by destruct (label_of arg).
Qed.

Definition unique_decorator (dec : Ts.Expr) : bool :=
  match dec with Ts.EIdent n => String.eqb n "unique" | _ => false end.

Lemma get_type_decorator_ok s dec s' : get_type_decorator s dec = Ok s' <->
  decorator_ok dec /\ s' = (s.1 ++ decorator_labels dec, s.2 || unique_decorator dec).
Proof.
  destruct s as [out u]. cbn [fst snd]. split.
  - destruct dec as [l|op e|n|c args| |]; cbn [get_type_decorator]; try done; intros H.
    + apply bind_unit_ok in H as [_ H]. apply bind_unit_ok in H as [Hn%ensure_ok [= <-]].
      apply String.eqb_eq in Hn as ->. split; [by left|]. cbn. by rewrite app_nil_r, orb_true_r.
    + destruct c as [| |e]; [done..|]. cbn in H. apply bind_ok in H as (n & Hn & H).
      destruct e; try done. injection Hn as ->. apply bind_unit_ok in H as [Hn%ensure_ok H].
      apply String.eqb_eq in Hn as ->. apply bind_ok in H as (o & [Ha ->]%add_labels_ok & [= <-]).
      split; [right; by exists args|]. cbn. by rewrite orb_false_r.
  - intros [[->|(args & -> & Ha)] ->]; cbn [get_type_decorator].
    + cbn. by rewrite app_nil_r, orb_true_r.
    + cbn. rewrite (proj2 (add_labels_ok args out _) (conj Ha eq_refl)). cbn. by rewrite orb_false_r.
Qed.

Lemma get_type_decorators_ok decs labels u : get_type_decorators decs = Ok (labels, u) <->
  Forall decorator_ok decs /\ labels = decs ≫= decorator_labels /\ u = existsb unique_decorator decs.
Proof.
  unfold get_type_decorators.
  assert (forall s s', foldM get_type_decorator s decs = Ok s' <-> Forall decorator_ok decs /\
    s' = (s.1 ++ (decs ≫= decorator_labels), s.2 || existsb unique_decorator decs)) as ->.
  { induction decs as [|d decs IH]; intros [out b] s'; cbn [foldM mbind list_bind existsb].
    { cbn. rewrite app_nil_r, orb_false_r. split; [by intros [= <-]|by intros [_ ->]]. }
    rewrite bind_ok. cbn [fst snd]. split.
    - intros (s1 & [Hd ->]%get_type_decorator_ok & [Hs ->]%IH). split; [by constructor|]. cbn [fst snd].
      by rewrite <- app_assoc, orb_assoc.
    - intros [[Hd Hs]%Forall_cons ->]. eexists. split; [by apply get_type_decorator_ok|]. apply IH.
      split; [done|]. cbn [fst snd]. by rewrite <- app_assoc, orb_assoc. }
  cbn. split; [by intros [H [= -> ->]]|by intros (H & -> & ->)].
Qed.

(** ** Fields *)

(** The default of a field of type [t]. *)
Definition declared_default (ann : option Ts.Type_) (value : option Ts.Expr) (t : TypeEnum)
    (default : option string) : Prop :=
  match default, value with
  | Some d, Some e => constant e d t
  | Some _, None => False
  | None, Some e => computed e = true /\ is_Some ann
  | None, None => is_Some ann
  end.

(** An entity field without [?] is created with the object, if at all. *)
Definition entity_initializer (x : Ts.ClassProp) (t : TypeEnum) (is_optional : bool) : Prop :=
  match t, is_optional with
  | TeEntity _, false => Ts.value x = None \/ Ts.value x = Some Ts.ENew
  | _, _ => True
  end.

Lemma field_type_and_default_ok ann value t d : field_type_and_default ann value = Ok (t, d) <->
  (forall a, ann = Some a -> denotes a t) /\ declared_default ann value t d.
Proof.
  assert (forall a, map_type a = Ok t <-> forall a', Some a = Some a' -> denotes a' t) as Ht.
  { intros a. rewrite map_type_ok. split; [by intros H a' [= <-]|by intros H; apply H]. }
  unfold field_type_and_default, declared_default. destruct ann as [a|], value as [e|].
  - rewrite <- Ht. split.
    + intros H. apply bind_ok in H as (t1 & H1 & H). apply bind_ok in H as ([[s u]|] & Hv%get_field_value_ok & H).
      * destruct (type_enum_eqb t1 u) eqn:E.
        -- injection H as <- <-. apply type_enum_eqb_eq in E as <-. by split.
        -- apply bind_ok in H as (? & _ & H). by apply bind_ok in H as (? & _ & H).
      * injection H as <- <-. by split; [|split; [|eexists]].
    + intros [H1 Hd]. rewrite H1. cbn [mbind]. destruct d as [d|].
        rewrite (proj2 (get_field_value_ok e (Some (d, t))) Hd). cbn.
        by rewrite (proj2 (type_enum_eqb_eq t t) eq_refl).
      * by rewrite (proj2 (get_field_value_ok e None) (proj1 Hd)).
  - rewrite <- Ht. split.
    + intros H. apply bind_ok in H as (t1 & H1 & [= -> <-]). by split; [|eexists].
    + intros [-> Hd]. by destruct d.
  - split.
    + intros H. apply bind_ok in H as ([[s u]|] & Hv%get_field_value_ok & H); [|done]. by injection H as -> <-.
    + intros [_ Hd]. destruct d as [d|]; [|by destruct Hd as [_ [? ?]]].
      by rewrite (proj2 (get_field_value_ok e (Some (d, t))) Hd).
  - split; [done|]. intros [_ Hd]. by destruct d; [|destruct Hd].
Qed.

(** What a property of a class declares. *)
Record declared_field (x : Ts.ClassProp) (f : FieldDefinition) : Prop := {
  df_name : Ts.key x = Ts.NameIdent (def_name f) (def_is_optional f);
  df_not_id : def_name f <> "id";
  df_type : exists t, def_field_type f = Some (mkTypeMsg (Some t)) /\
    (forall a, Ts.type_ann x = Some a -> denotes a t) /\
    declared_default (Ts.type_ann x) (Ts.value x) t (def_default_value f) /\
    entity_initializer x t (def_is_optional f);
  df_decorators : Forall decorator_ok (Ts.decorators x);
  df_labels : def_labels f = Ts.decorators x ≫= decorator_labels;
  df_unique : def_is_unique f = existsb unique_decorator (Ts.decorators x);
}.

Lemma entity_initializer_ok x t opt (u : unit) :
  match t with
  | TeEntity _ =>
      if opt : bool then Ok ()
      else match Ts.value x with
           | None | Some Ts.ENew => Ok ()
           | Some _ => bail "field of entity type has unexpected initializer"
           end
  | _ => Ok ()
  end = Ok u <-> entity_initializer x t opt.
Proof.
  destruct u. unfold entity_initializer. destruct t, opt; try done.
  destruct (Ts.value x) as [[]|]; split; try done; try (by right); try (by left); by intros [|].
Qed.

Lemma parse_class_prop_ok x f : parse_class_prop x = Ok f <-> declared_field x f.
Proof.
  unfold parse_class_prop. split.
  - intros H. apply bind_ok in H as ([n opt] & Hn & H). apply bind_unit_ok in H as [Hid%ensure_ok H].
    apply bind_ok in H as ([t d] & [Ht Hd]%field_type_and_default_ok & H).
    apply bind_ok in H as ([ls u] & (Hdec & Hl & Hu)%get_type_decorators_ok & H).
    apply bind_ok in H as ([] & Hi%entity_initializer_ok & [= <-]).
    split; cbn; try done; [| |by exists t].
    + destruct (Ts.key x); [|done]. by injection Hn as -> ->.
    + intros ->. by rewrite String.eqb_refl in Hid.
  - intros [Hn Hid (t & Hft & Ht & Hd & Hi) Hdec Hl Hu]. rewrite Hn. cbn.
    apply String.eqb_neq in Hid. rewrite Hid. cbn.
    rewrite (proj2 (field_type_and_default_ok _ _ t _) (conj Ht Hd)). cbn.
    rewrite (proj2 (get_type_decorators_ok _ _ _) (conj Hdec (conj Hl Hu))). cbn.
    rewrite (proj2 (entity_initializer_ok x t (def_is_optional f) ()) Hi). cbn.
    rewrite <- Hft. by destruct f.
Qed.

(** ** Classes *)

Definition prop_of (m : Ts.ClassMember) : option Ts.ClassProp :=
  match m with Ts.MemberProp p => Some p | _ => None end.

Record declared_class (c : string * list Ts.ClassMember) (ty : AddTypeRequest) : Prop := {
  dc_name : at_name ty = c.1;
  dc_no_constructor : Ts.Constructor ∉ c.2;
  dc_fields : Forall2 declared_field (omap prop_of c.2) (at_field_defs ty);
  dc_distinct : NoDup (def_name <$> at_field_defs ty);
}.

(** The check for duplicates. *)
Lemma new_field_name fds fd : NoDup (def_name <$> fds) ->
  negb (existsb (fun field => String.eqb (def_name field) (def_name fd)) fds) = true <->
  NoDup (def_name <$> fds ++ [fd]).
Proof.
  intros Hnd. rewrite negb_true_iff, <- not_true_iff_false, existsb_exists, fmap_app, NoDup_app. split.
  - intros Hn. split; [done|split; [|apply NoDup_singleton]]. intros n (g & -> & Hg)%list_elem_of_fmap Heq.
    apply list_elem_of_singleton in Heq. apply Hn. exists g. split; [by apply list_elem_of_In|by apply String.eqb_eq].
  - intros (_ & Hn & _) (g & Hg%list_elem_of_In & Heq%String.eqb_eq). apply (Hn (def_name g)).
    + by apply list_elem_of_fmap_2.
    + rewrite Heq. by left.
Qed.

Lemma parse_members_ok body : forall fds fds', NoDup (def_name <$> fds) ->
  foldM parse_member fds body = Ok fds' <->
  exists new, fds' = fds ++ new /\ Ts.Constructor ∉ body /\ Forall2 declared_field (omap prop_of body) new /\
    NoDup (def_name <$> fds').
Proof.
  induction body as [|m body IH]; intros fds fds' Hnd; cbn [foldM].
  { split.
    - intros [= <-]. exists []. rewrite app_nil_r. split; [done|split; [apply not_elem_of_nil|by split]].
    - intros (new & -> & _ & H & _). apply Forall2_nil_inv_l in H as ->. by rewrite app_nil_r. }
  rewrite bind_ok. destruct m as [x| |]; cbn [parse_member omap list_omap prop_of].
  - split.
    + intros (fds1 & H1 & H). apply bind_ok in H1 as (fd & Hfd%parse_class_prop_ok & H1).
      apply bind_unit_ok in H1 as [Hnew%ensure_ok [= <-]]. apply (new_field_name _ _ Hnd) in Hnew.
      apply (IH _ _ Hnew) in H as (new & -> & Hc & H2 & Hnd'). exists (fd :: new). rewrite <- app_assoc in *.
      split; [done|split; [by apply not_elem_of_cons|]]. by split; [constructor|].
    + intros (new & -> & [_ Hc]%not_elem_of_cons & H2 & Hnd').
      inversion H2 as [|x' fd xs new' Hfd H2']; subst. rewrite (cons_middle fd fds new'), app_assoc in Hnd' |- *.
      assert (NoDup (def_name <$> fds ++ [fd])) as Hnd1 by (rewrite fmap_app in Hnd'; by apply NoDup_app in Hnd' as [? _]).
      exists (fds ++ [fd]). split; [|by apply IH; [|exists new']].
      apply bind_ok. exists fd. split; [by apply parse_class_prop_ok|].
      apply (new_field_name _ _ Hnd) in Hnd1. by rewrite Hnd1.
  - split; [by intros (? & ? & _)|]. intros (new & _ & Hc & _). exfalso. apply Hc. by left.
  - split.
    + intros (? & [= <-] & H). apply (IH _ _ Hnd) in H as (new & -> & Hc & H2 & Hnd'). exists new.
      split; [done|split; [by apply not_elem_of_cons|done]].
    + intros (new & -> & [_ Hc]%not_elem_of_cons & H2 & Hnd'). exists fds. split; [done|]. apply IH; [done|by exists new].
Qed.

(** ** Files *)

Definition class_of (item : Ts.ModuleItem) : option (string * list Ts.ClassMember) :=
  match item with Ts.ExportDecl (Ts.DClass n body) => Some (n, body) | _ => None end.

(** An item of a models file: a statement, an import or an exported class. *)
Definition allowed_item (item : Ts.ModuleItem) : Prop :=
  item = Ts.Stmt \/ item = Ts.Import \/ is_Some (class_of item).

Abbreviation names tys := (list_to_set (C := gset string) (at_name <$> tys)).

Lemma parse_class_decl_ok tys n body s : NoDup (at_name <$> tys) ->
  parse_class_decl (tys, names tys) (Ts.DClass n body) = Ok s <->
  exists ty, s = (tys ++ [ty], names (tys ++ [ty])) /\ declared_class (n, body) ty /\ NoDup (at_name <$> tys ++ [ty]).
Proof.
  intros Hnd. cbn [parse_class_decl].
  assert (forall ty, at_name ty = n -> names (tys ++ [ty]) = {[n]} ∪ names tys) as Hset.
  { intros ty <-. rewrite fmap_app, list_to_set_app_L. cbn. set_solver. }
  split.
  - intros H. apply bind_unit_ok in H as [Hnew%ensure_ok%bool_decide_eq_true H].
    apply bind_ok in H as (fds & Hf & [= <-]).
    apply parse_members_ok in Hf as (new & -> & Hc & H2 & Hd); [|constructor].
    exists {| at_name := n; at_field_defs := [] ++ new |}. rewrite Hset by done.
    split; [done|]. split; [by split|]. rewrite fmap_app. apply NoDup_app. split; [done|].
    split; [|apply NoDup_singleton]. intros m Hm ->%list_elem_of_singleton. apply Hnew. by apply elem_of_list_to_set.
  - intros (ty & -> & [Hn Hc H2 Hd] & Hnd'). cbn in Hn, Hc, H2. rewrite Hset by done.
    rewrite bool_decide_true; cbn.
    + apply bind_ok. exists (at_field_defs ty). split; [|by rewrite <- Hn; destruct ty].
      apply parse_members_ok; [constructor|]. by exists (at_field_defs ty).
    + rewrite elem_of_list_to_set. intros Hm. rewrite fmap_app in Hnd'. apply NoDup_app in Hnd' as (_ & Hnd' & _).
      apply (Hnd' n Hm). cbn. rewrite Hn. by left.
Qed.

Lemma parse_items_ok items : forall tys s, NoDup (at_name <$> tys) ->
  foldM parse_item (tys, names tys) items = Ok s <->
  exists new, s = (tys ++ new, names (tys ++ new)) /\ Forall allowed_item items /\
    Forall2 declared_class (omap class_of items) new /\ NoDup (at_name <$> tys ++ new).
Proof.
  induction items as [|item items IH]; intros tys s Hnd; cbn [foldM].
  { split.
    - intros [= <-]. exists []. rewrite app_nil_r. by repeat split.
    - intros (new & -> & _ & H & _). apply Forall2_nil_inv_l in H as ->. by rewrite app_nil_r. }
  rewrite bind_ok.
  assert (class_of item = None -> allowed_item item ->
    (foldM parse_item (tys, names tys) items = Ok s <->
     exists new, s = (tys ++ new, names (tys ++ new)) /\ Forall allowed_item (item :: items) /\
       Forall2 declared_class (omap class_of (item :: items)) new /\ NoDup (at_name <$> tys ++ new))) as Hskip.
  { intros Hc Ha. rewrite (IH _ _ Hnd). cbn. rewrite Hc.
    split; intros (new & -> & Hall & H); exists new; (split; [done|split; [|done]]); [by constructor|by inversion Hall]. }
  destruct item as [[n body|]| | |]; cbn [parse_item].
  - change (omap class_of (_ :: items)) with ((n, body) :: omap class_of items). split.
    + intros (s1 & H1 & H). apply parse_class_decl_ok in H1 as (ty & -> & Hty & Hnd1); [|done].
      apply (IH _ _ Hnd1) in H as (new & -> & Ha & H2 & Hnd2). exists (ty :: new). rewrite <- app_assoc in *.
      split; [done|split; [|by split; [constructor|]]]. constructor; [|done]. right. right. by eexists.
    + intros (new & -> & Ha & H2 & Hnd2). inversion H2 as [|c ty cs new' Hty H2']; subst.
      rewrite (cons_middle ty tys new'), app_assoc in Hnd2 |- *.
      assert (NoDup (at_name <$> tys ++ [ty])) as Hnd1 by (rewrite fmap_app in Hnd2; by apply NoDup_app in Hnd2 as [? _]).
      eexists. split; [by apply parse_class_decl_ok; [|exists ty]|]. apply (IH _ _ Hnd1).
      exists new'. split; [done|split; [by inversion Ha|done]].
  - split; [by intros (? & ? & _)|]. intros (new & _ & Ha & _). inversion Ha as [|? ? [?|[?|[? ?]]]]; done.
  - rewrite <- Hskip; [|done|by right; left]. split; [by intros (? & [= <-] & H)|intros H; by eexists].
  - rewrite <- Hskip; [|done|by left]. split; [by intros (? & [= <-] & H)|intros H; by eexists].
  - split; [by intros (? & ? & _)|]. intros (new & _ & Ha & _). inversion Ha as [|? ? [?|[?|[? ?]]]]; done.
Qed.

(** References to entities are to classes of the models or to built-in ones. *)
Definition references_known (tys : list AddTypeRequest) : Prop :=
  forall ty f n, ty ∈ tys -> f ∈ at_field_defs ty -> field_type f = Ok (TeEntity n) ->
    n ∈ at_name <$> tys \/ is_auth_entity_name n = true.

Lemma validate_ok tys : Forall typed tys ->
  validate_type_vec tys (names tys) = Ok () <-> references_known tys.
Proof.
  intros Ht. unfold validate_type_vec. rewrite foldM_unit. split.
  - intros H ty f n Hty Hf Hn. rewrite Forall_forall in H. specialize (H ty Hty). rewrite foldM_unit, Forall_forall in H.
    specialize (H f Hf). unfold validate_field in H. rewrite Hn in H. cbn in H. apply ensure_ok, orb_prop in H.
    destruct H as [H%bool_decide_eq_true|H]; [left|by right]. by apply elem_of_list_to_set in H.
  - intros H. apply Forall_forall. intros ty Hty. apply foldM_unit, Forall_forall. intros f Hf.
    rewrite Forall_forall in Ht. specialize (Ht ty Hty). unfold typed in Ht. rewrite Forall_forall in Ht.
    specialize (Ht f Hf). unfold validate_field. destruct (field_type f) as [t| |] eqn:E; [|done..]. cbn.
    destruct t; try done. apply ensure_ok. destruct (H ty f name Hty Hf E) as [Hn| ->]; [|by rewrite orb_true_r].
    rewrite bool_decide_true; [done|]. by apply elem_of_list_to_set.
Qed.

Lemma declared_typed cs tys : Forall2 declared_class cs tys -> Forall typed tys.
Proof.
  induction 1 as [|c ty cs tys [_ _ H _] _ IH]; [constructor|]. constructor; [|done]. unfold typed.
  induction H as [|x f xs fs Hf _ IHf]; [constructor|]. constructor; [|done].
  destruct Hf as [_ _ (t & Ht & _) _ _ _]. unfold field_type. by rewrite Ht.
Qed.

(** ** No panic *)

Lemma is_panic_fmap {A B} (f : A -> B) (m : result A) : is_panic (f <$> m) = is_panic m.
Proof. by destruct m. Qed.

Lemma map_keyword_no_panic k : is_panic (map_keyword k) = false.
Proof. by destruct k. Qed.

Lemma map_entity_id_no_panic params : is_panic (map_entity_id params) = false.
Proof. by destruct params as [[|[|[n|]| |] [|]]|]. Qed.

Lemma map_array_type_no_panic : forall x, is_panic (map_array_type (Ts.ArrayType x)) = false.
Proof.
  fix IH 1. intros x. cbn [map_array_type]. rewrite is_panic_fmap. destruct x as [k|[n|] params|y|]; try done.
  - apply map_keyword_no_panic.
  - destruct (String.eqb n "Date"); [done|]. destruct (String.eqb n "Id"); [|done]. apply map_entity_id_no_panic.
Qed.

Lemma map_type_no_panic x : is_panic (map_type x) = false.
Proof.
  destruct x as [k|[n|] params|y|]; try done; cbn [map_type].
  - apply map_keyword_no_panic.
  - destruct (String.eqb n "Date"); [done|]. destruct (String.eqb n "ArrayBuffer"); [done|].
    destruct (String.eqb n "Id"); [|done]. apply map_entity_id_no_panic.
  - apply map_array_type_no_panic.
Qed.

Lemma get_field_value_no_panic e : is_panic (get_field_value e) = false.
Proof.
  induction e as [l|op e IH|n|c args| |]; try done; cbn [get_field_value].
  - by destruct l.
  - apply is_panic_bind; [done|]. intros v _. apply is_panic_bind; [apply is_panic_option_context|]. by intros [].
Qed.

Lemma constant_display e s t : constant e s t -> is_ok (type_enum_display t) = true.
Proof. by induction 1. Qed.

Lemma field_type_no_panic ann value : is_panic (field_type_and_default ann value) = false.
Proof.
  unfold field_type_and_default. destruct ann as [a|], value as [e|]; [| | |done].
  - apply is_panic_bind; [apply map_type_no_panic|]. intros t Ht%map_type_ok%denotes_display.
    apply is_panic_bind; [apply get_field_value_no_panic|].
    intros [[s u]|] Hv%get_field_value_ok; [|done]. apply constant_display in Hv.
    destruct (type_enum_eqb t u); [done|].
    destruct (type_enum_display t); [|done..]. by destruct (type_enum_display u).
  - apply is_panic_bind; [apply map_type_no_panic|done].
  - apply is_panic_bind; [apply get_field_value_no_panic|]. by intros [[]|] _.
Qed.

Lemma get_type_decorators_no_panic decs : is_panic (get_type_decorators decs) = false.
Proof.
  apply (foldM_no_panic _ (fun _ => True)); [done| |done]. intros [out u] dec _ _.
  destruct dec as [l|op e|n|c args| |]; try done; cbn [get_type_decorator].
  - do 2 (apply is_panic_bind; [apply is_panic_ensure|intros _ _]). done.
  - apply is_panic_bind; [by destruct c|]. intros e _. apply is_panic_bind; [by destruct e|]. intros n _.
    apply is_panic_bind; [apply is_panic_ensure|intros _ _]. apply is_panic_bind; [|done].
    apply (foldM_no_panic _ (fun _ => True)); [done| |done]. intros o arg _ _.
    apply is_panic_bind; [apply get_field_value_no_panic|]. intros [[s t]|] _; [|done].
    apply is_panic_bind; [apply is_panic_ensure|done].
Qed.

Lemma parse_class_prop_no_panic x : is_panic (parse_class_prop x) = false.
Proof.
  unfold parse_class_prop. apply is_panic_bind; [by destruct (Ts.key x)|]. intros [n opt] _.
  apply is_panic_bind; [apply is_panic_ensure|intros _ _].
  apply is_panic_bind; [apply field_type_no_panic|]. intros [t d] _.
  apply is_panic_bind; [apply get_type_decorators_no_panic|]. intros [ls u] _.
  apply is_panic_bind; [|done]. destruct t; try done. destruct opt; [done|]. by destruct (Ts.value x) as [[]|].
Qed.

Lemma parse_item_no_panic s item : is_panic (parse_item s item) = false.
Proof.
  destruct item as [[n body|]| | |], s as [tys valid]; try done. cbn [parse_item parse_class_decl].
  apply is_panic_bind; [apply is_panic_ensure|intros _ _]. apply is_panic_bind; [|done].
  apply (foldM_no_panic _ (fun _ => True)); [done| |done]. intros fds [x| |] _ _; [|done..].
  apply is_panic_bind; [apply parse_class_prop_no_panic|]. intros fd _.
  apply is_panic_bind; [apply is_panic_ensure|done].
Qed.

Lemma validate_no_panic tys valid : is_panic (validate_type_vec tys valid) = false.
Proof.
  apply (foldM_no_panic _ (fun _ => True)); [done| |done]. intros _ ty _ _.
  apply (foldM_no_panic _ (fun _ => True)); [done| |done]. intros _ f _ _.
  unfold validate_field, field_type. destruct (def_field_type f) as [[[[]|]]|]; try done. apply is_panic_ensure.
Qed.

(** ** The files of the models *)

Context {TP : TsParser}.

(** The items of a file that can be read and parsed. *)
Definition module_items (file : string) (items : list Ts.ModuleItem) : Prop :=
  exists code, load_file file = Ok code /\ take_errors code = false /\ parse_typescript_module code = Ok items.

Lemma parse_files_ok files : forall s s', foldM parse_one_file s files = Ok s' <->
  exists modules, Forall2 module_items files modules /\ foldM parse_item s (concat modules) = Ok s'.
Proof.
  induction files as [|file files IH]; intros s s'; cbn [foldM].
  { split; [intros H; exists []; by split|]. by intros (modules & ->%Forall2_nil_inv_l & H). }
  rewrite bind_ok. split.
  - intros (s1 & H1 & (modules & H2 & H)%IH). unfold parse_one_file in H1.
    apply bind_ok in H1 as (code & Hc & H1). apply bind_unit_ok in H1 as [He%ensure_ok%negb_true_iff H1].
    apply bind_ok in H1 as (items & Hi & H1). exists (items :: modules). split.
    + constructor; [|done]. by exists code.
    + cbn [concat]. rewrite foldM_app, H1. done.
  - intros (modules & H2 & H). inversion H2 as [|f items fs modules' (code & Hc & He & Hi) H2']; subst.
    cbn [concat] in H. rewrite foldM_app in H. apply bind_ok in H as (s1 & H1 & H).
    exists s1. split; [|apply IH; by exists modules']. unfold parse_one_file. by rewrite Hc; cbn; rewrite He; cbn; rewrite Hi.
Qed.

(** What the files declare. *)
Record declared_types (files : list string) (tys : list AddTypeRequest) : Prop := {
  dt_modules : exists modules, Forall2 module_items files modules /\ Forall allowed_item (concat modules) /\
    Forall2 declared_class (omap class_of (concat modules)) tys;
  dt_distinct : NoDup (at_name <$> tys);
  dt_known : references_known tys;
}.

Lemma parse_types_ok files tys : parse_types files = Ok tys <-> declared_types files tys.
Proof.
  unfold parse_types. split.
  - intros H. apply bind_ok in H as ([tys1 valid] & (modules & Hm & H1)%parse_files_ok & H).
    apply (parse_items_ok _ []) in H1 as (new & [= -> ->] & Ha & H2 & Hnd); [|constructor].
    apply bind_unit_ok in H as [Hv [= <-]]. cbn [app] in *.
    apply validate_ok in Hv; [|by eapply declared_typed]. split; [|done..]. by exists modules.
  - intros [(modules & Hm & Ha & H2) Hnd Hk].
    assert (foldM parse_one_file ([], ∅) files = Ok (tys, names tys)) as ->.
    { apply parse_files_ok. exists modules. split; [done|]. apply (parse_items_ok _ []); [constructor|].
      by exists tys. }
    cbn. by rewrite (proj2 (validate_ok tys (declared_typed _ _ H2)) Hk).
Qed.

(** The models of an application are accepted exactly when every file parses
    and has only statements, imports and exported classes, every class declares
    its fields as the language of models asks, and class names, field names and
    entity references are in order; the request then has one type per class, in
    the order of the files, with the fields the class declares.  Nothing in
    between panics. *)
Theorem parse_types_spec files :
  (forall tys, parse_types files = Ok tys <-> declared_types files tys) /\
  ((forall f, is_panic (load_file f) = false) -> (forall c, is_panic (parse_typescript_module c) = false) ->
   is_panic (parse_types files) = false).
Proof.
  split; [apply parse_types_ok|]. intros Hl Hp. unfold parse_types. apply is_panic_bind.
  - apply (foldM_no_panic _ (fun _ => True)); [done| |done]. intros s file _ _. unfold parse_one_file.
    apply is_panic_bind; [done|]. intros code _. apply is_panic_bind; [apply is_panic_ensure|intros _ _].
    apply is_panic_bind; [done|]. intros items _. apply (foldM_no_panic _ (fun _ => True)); [done| |done].
    intros s1 item _ _. apply parse_item_no_panic.
  - intros [tys valid] _. apply is_panic_bind; [apply validate_no_panic|done].
Qed.

End Values.

(** ** Well-formed models *)

(** What the elements of an array may be. *)
Inductive elem_type : TypeEnum -> Prop :=
  | et_string : elem_type TeString
  | et_number : elem_type TeNumber
  | et_bool : elem_type TeBool
  | et_date : elem_type TeJsDate
  | et_id n : elem_type (TeEntityId n)
  | et_array t : elem_type t -> elem_type (te_array t).

(** What a field may be, among these entities. *)
Inductive storable_type (entities : list string) : TypeEnum -> Prop :=
  | st_elem t : elem_type t -> storable_type entities t
  | st_buffer : storable_type entities TeArrayBuffer
  | st_entity n : n ∈ entities \/ is_auth_entity_name n = true -> storable_type entities (TeEntity n).

Record field_ok (entities : list string) (f : FieldDefinition) : Prop := {
  fo_name : def_name f <> "id";
  fo_type : exists t, field_type f = Ok t /\ storable_type entities t /\
    (def_default_value f = None \/ t ∈ [TeString; TeNumber; TeBool]);
}.

Record models_ok (tys : list AddTypeRequest) : Prop := {
  mo_distinct : NoDup (at_name <$> tys);
  mo_types : forall ty, ty ∈ tys -> NoDup (def_name <$> at_field_defs ty) /\
    Forall (field_ok (at_name <$> tys)) (at_field_defs ty);
}.

Section WellFormed.
Context {FT : FloatText} {TP : TsParser}.

Lemma elem_denotes_type x t : elem_denotes x t -> elem_type t.
Proof. by induction 1; constructor. Qed.

Lemma constant_type e s t : constant e s t -> t ∈ [TeString; TeNumber; TeBool].
Proof. induction 1; [set_solver..|done]. Qed.

Lemma declared_field_ok entities x f : declared_field x f ->
  (forall n, field_type f = Ok (TeEntity n) -> n ∈ entities \/ is_auth_entity_name n = true) ->
  field_ok entities f.
Proof.
  intros [_ Hid (t & Hft & Ha & Hd & _) _ _ _] Hn. split; [done|]. exists t.
  assert (field_type f = Ok t) as Ht by (unfold field_type; by rewrite Hft). split; [done|].
  assert (forall d e, def_default_value f = Some d -> Ts.value x = Some e -> t ∈ [TeString; TeNumber; TeBool]) as Hc.
  { intros d e E1 E2. unfold declared_default in Hd. rewrite E1, E2 in Hd. by eapply constant_type. }
  unfold declared_default in Hd. split.
  - destruct (Ts.type_ann x) as [a|] eqn:Ea.
    + destruct (Ha a eq_refl) as [y u H|p|n p Hn']; [apply st_elem; by eapply elem_denotes_type|apply st_buffer|].
      apply st_entity. by apply Hn.
    + destruct (def_default_value f) as [d|], (Ts.value x) as [e|]; [|done|by destruct Hd as [_ [? ?]]|by destruct Hd].
      pose proof (Hc _ _ eq_refl eq_refl) as Hin. apply st_elem.
      repeat (apply elem_of_cons in Hin as [->|Hin]; [constructor|]). by apply not_elem_of_nil in Hin.
  - destruct (def_default_value f) as [d|]; [right|by left].
    destruct (Ts.value x) as [e|]; [by eapply Hc|done].
Qed.

Lemma parsed_models_ok files tys : parse_types files = Ok tys -> models_ok tys.
Proof.
  intros [(modules & _ & _ & H2) Hnd Hk]%parse_types_ok. split; [done|]. intros ty Hty.
  apply list_elem_of_lookup in Hty as [i Hi]. destruct (Forall2_lookup_r _ _ _ _ _ H2 Hi) as (c & _ & [_ _ Hf Hd]).
  split; [done|]. apply Forall_forall. intros f Hin. apply list_elem_of_lookup in Hin as [j Hj].
  destruct (Forall2_lookup_r _ _ _ _ _ Hf Hj) as (x & _ & Hx). eapply declared_field_ok; [exact Hx|].
  intros n Hn. eapply Hk; [by eapply list_elem_of_lookup_2..|done].
Qed.

End WellFormed.
