(* ===== verification/ModelsServerSpec.v ===== *)
(** * The models on the server

    The types the command line interface parsed are the ones the server plans to
    create for a new version, and what can still make it refuse them. *)

From S2P Require Import Prelude Json EntityValue Ident Types Builtin TypeSystem Query Engine PolicyRules Meta MetaLoadSpec MetaStoreSpec Apply SortSpec ApplySample ApplySpec ApplyStoreSpec Models ModelsSpec.

#[local] Arguments lookup_builtin_type : simpl never.
#[local] Arguments is_auth_entity_name : simpl never.

(** ** One type *)

Section Types.
Context (bt : BuiltinTypes) (Hbt : BuiltinTypes_new = Ok bt) (v : string).
Abbreviation ts := (TypeSystem_new bt v).

Lemma auth_builtin n : is_auth_entity_name n = true -> is_ok (lookup_builtin_type ts n) = true.
Proof.
  intros (m & Hm & ->%String.eqb_eq)%existsb_exists. pose proof ApplySample.builtins_new as Hb. rewrite Hbt in Hb.
  injection Hb as ->. repeat (destruct Hm as [<-|Hm]; [vm_compute; reflexivity|]). done.
Qed.

Lemma elem_builtin t : elem_type t -> is_builtin ts t = Ok true /\ exists ty, get_builtin ts t = Ok ty.
Proof.
  induction 1 as [| | | |n|t _ [IH1 (ty & IH2)]]; try (by split; [|eexists]).
  cbn. split; [done|]. rewrite IH2. by eexists.
Qed.

Context (entities : list string) (new_types : gmap string Entity).

(** A field that is well formed gets a type, if the entities it refers to are
    known and made. *)
Lemma resolve_field_total f t : field_type f = Ok t -> storable_type entities t ->
  (forall n, t = TeEntityId n -> n ∈ entities) ->
  (forall n, dep ts f = Some n -> is_Some (new_types !! n)) ->
  exists ty, resolve_field ts entities new_types f = Ok ty.
Proof.
  intros Hf Hs Hid Hdep. unfold resolve_field. rewrite Hf. cbn -[is_builtin get_builtin lookup_builtin_type].
  destruct Hs as [t He| |n Hn].
  - destruct t; try (by eexists); try (by inversion He).
    + cbn. rewrite decide_True by by apply Hid. by eexists.
    + destruct (elem_builtin _ He) as [Hb (ty & Hg)]. rewrite Hb. by exists ty.
  - by eexists.
  - cbn. destruct (is_ok (lookup_builtin_type ts n)) eqn:Hb.
    + destruct (lookup_builtin_type ts n); [by eexists|done..].
    + destruct (Hdep n) as [e He]; [unfold dep; by rewrite Hf, Hb|]. rewrite He. by eexists.
Qed.

Lemma make_type_total uuid indexes tdef : is_ok (lookup_builtin_type ts (at_name tdef)) = false ->
  Forall (field_ok entities) (at_field_defs tdef) ->
  (forall f n, f ∈ at_field_defs tdef -> field_type f = Ok (TeEntityId n) -> n ∈ entities) ->
  (forall n, n ∈ deps ts tdef -> is_Some (new_types !! n)) ->
  Forall (fun i => Forall (fun n => n = "id" \/ n ∈ def_name <$> at_field_defs tdef) (idx_fields i))
    (default [] (indexes !! at_name tdef)) ->
  exists ty, make_type uuid ts v entities indexes new_types tdef = Ok ty.
Proof.
  intros Hn Hok Hid Hdep Hix. unfold make_type. rewrite Hn. cbn [negb ensure mbind].
  assert (forall fds, Forall (fun f => f ∈ at_field_defs tdef) fds ->
    exists fields, mapM (make_field ts v entities new_types) fds = Ok fields /\
      fld_name <$> fields = def_name <$> fds /\ Forall (fun f => fld_version_id f = v) fields) as Hall.
  { induction fds as [|f fds IH]; [by exists []|]. intros [Hf Hfds]%Forall_cons.
    destruct (IH Hfds) as (fields & Hm & Hnames & Hv).
    rewrite Forall_forall in Hok. destruct (Hok f Hf) as [_ (t & Ht & Hs & _)].
    destruct (resolve_field_total f t Ht Hs) as [ty Hty].
    { intros n ->. by eapply Hid. }
    { intros n Hd. apply Hdep. apply list_elem_of_omap. by exists f. }
    assert (exists g, make_field ts v entities new_types f = Ok g /\ fld_name g = def_name f /\ fld_version_id g = v)
      as (g & Hg & Hgn & Hgv) by (unfold make_field; rewrite Hty; cbn; by eexists).
    exists (g :: fields). split; [|split; [cbn; by rewrite Hgn, Hnames|by constructor]].
    apply mapM_ok. constructor; [done|]. by apply mapM_ok. }
  destruct (Hall (at_field_defs tdef)) as (fields & Hm & Hnames & Hv); [by apply Forall_forall|].
  rewrite Hm. cbn -[ObjectType_new]. eexists. apply ObjectType_new_ok. split; [exact Hv|]. split; [|done].
  by rewrite Hnames.
Qed.

End Types.

(** ** The whole request *)

(** What the command line interface does not check. *)
Record acceptable (ts : TypeSystem) (rq : ApplyRequest) : Prop := {
  ac_names : forall ty, ty ∈ rq_types rq -> is_ok (lookup_builtin_type ts (at_name ty)) = false;
  ac_ids : forall ty f n, ty ∈ rq_types rq -> f ∈ at_field_defs ty -> field_type f = Ok (TeEntityId n) ->
    n ∈ at_name <$> rq_types rq;
  ac_acyclic : forall n, ~ tc (depends ts (rq_types rq)) n n;
  ac_indexes : forall c ty, c ∈ rq_index_candidates rq -> ty ∈ rq_types rq -> at_name ty = ic_entity_name c ->
    Forall (fun n => n = "id" \/ n ∈ def_name <$> at_field_defs ty) (ic_properties c);
}.

(** The object type planned for a type of the models. *)
Record planned_type (v : string) (ts : TypeSystem) (candidates : list IndexCandidate) (tdef : AddTypeRequest)
    (o : ObjectType) : Prop := {
  pt_name : obj_name o = at_name tdef;
  pt_version : obj_version_id o = v;
  pt_fields : Forall2 (field_made v ts) (at_field_defs tdef) (obj_fields o);
  pt_indexes : forall fs, fs ∈ idx_fields <$> obj_indexes o <->
    exists c, c ∈ candidates /\ ic_entity_name c = at_name tdef /\ ic_properties c = fs;
}.

Section Request.
Context {GL : GraphLib} {LG : GraphLaws} {RO : RowOrder} {LR : RowOrderLaws}.
Context (bt : BuiltinTypes) (Hbt : BuiltinTypes_new = Ok bt) (v : string) (uuid : string -> string).
Context (tables : Tables) (rq : ApplyRequest) (Hok : models_ok (rq_types rq)).
Abbreviation ts := (TypeSystem_new bt v).
Abbreviation types := (rq_types rq).
Abbreviation entities := (at_name <$> rq_types rq).
Abbreviation indexes := (aggregate_indexes (rq_index_candidates rq)).

Lemma models_typed : Forall typed types.
Proof.
  apply Forall_forall. intros ty Hty. destruct Hok as [_ Hm]. destruct (Hm ty Hty) as [_ Hf].
  eapply Forall_impl; [exact Hf|]. intros f [_ (t & -> & _)]. done.
Qed.

Lemma models_deps ty d : ty ∈ types -> d ∈ deps ts ty -> d ∈ entities.
Proof.
  intros Hty (f & Hf & Hd)%list_elem_of_omap. destruct Hok as [_ Hm]. destruct (Hm ty Hty) as [_ Hall].
  rewrite Forall_forall in Hall. destruct (Hall f Hf) as [_ (t & Ht & Hs & _)].
  unfold dep in Hd. rewrite Ht in Hd. destruct t; try done.
  destruct (is_ok (lookup_builtin_type ts name)) eqn:Hb; [done|]. injection Hd as ->.
  inversion Hs as [? He| |? [Hn|Ha]]; [by inversion He|done|].
  by rewrite (auth_builtin bt Hbt v _ Ha) in Hb.
Qed.

(** The types are made one after the other, when those they need come first. *)
Lemma loop_total (Hac : acceptable ts rq) : forall rest done nt ins,
  done ++ rest ⊆ types -> deps_first ts (done ++ rest) ->
  (forall ty, ty ∈ done -> is_Some (nt !! at_name ty)) ->
  exists nt' new, foldM (plan_type uuid ts tables v entities indexes) (nt, ins, []) rest = Ok (nt', ins ++ new, []).
Proof.
  induction rest as [|ty rest IH]; intros seen nt ins Hsub Hdf Hnt; cbn [foldM].
  { exists nt, []. by rewrite app_nil_r. }
  assert (ty ∈ types) as Hty by (apply Hsub; set_solver). destruct Hac as [An Ai _ Ax].
  destruct Hok as [_ Hm]. destruct (Hm ty Hty) as [_ Hf].
  destruct (make_type_total bt v entities nt uuid indexes ty (An ty Hty) Hf) as [o Ho].
  - intros f n Hin Hn. by eapply Ai.
  - intros n Hn. destruct (Hdf (length seen) ty n) as (j & ty' & Hlt & Hj & <-); [|done|].
    + by rewrite list_lookup_middle.
    + apply Hnt. rewrite lookup_app_l in Hj by done. by eapply list_elem_of_lookup_2.
  - apply Forall_forall. intros i Hi. apply aggregate_elem in Hi as (c & Hc & Hn & ->). cbn.
    by apply (Ax c ty).
  - assert (plan_type uuid ts tables v entities indexes (nt, ins, []) ty = Ok (<[at_name ty := Custom o]> nt, ins ++ [o], []))
      as -> by (unfold plan_type; rewrite Ho; done).
    cbn -[plan_type].
    destruct (IH (seen ++ [ty]) (<[at_name ty := Custom o]> nt) (ins ++ [o])) as (nt' & new & H).
    + by rewrite <- app_assoc.
    + by rewrite <- app_assoc.
    + intros ty' [Hin| ->%list_elem_of_singleton]%elem_of_app; [|by rewrite lookup_insert_eq].
      destruct (decide (at_name ty' = at_name ty)) as [->|Hne]; [by rewrite lookup_insert_eq|].
      rewrite lookup_insert_ne by done. by apply Hnt.
    + exists nt', (o :: new). rewrite H. by rewrite <- app_assoc.
Qed.

Lemma plan_total : acceptable ts rq ->
  exists plan, make_plan uuid ts tables v rq = Ok plan /\ to_update plan = [] /\ to_remove plan = [].
Proof.
  intros Hac. unfold make_plan.
  assert (in_order (map_to_list (custom_types ts)) = []) as Hin.
  { apply Permutation_nil_r. rewrite (in_order_perm _). cbn. by rewrite map_to_list_empty. }
  unfold removed_types. rewrite Hin. cbn -[sort_custom_types plan_type].
  destruct (sort_total ts types) as [sorted Hs]; [apply Hok|apply models_typed|apply models_deps|apply Hac|].
  rewrite Hs. cbn -[plan_type]. destruct (sort_ok ts _ _ (mo_distinct _ Hok) Hs) as [Hp Hdf].
  destruct (loop_total Hac sorted [] ∅ []) as (nt & new & H); [|done|by intros ty ?%not_elem_of_nil|].
  - intros ty. cbn. by rewrite Hp.
  - rewrite H. cbn. by eexists.
Qed.

(** An order with dependencies first shows that there is no cycle. *)
Lemma deps_first_acyclic sorted : sorted ≡ₚ types -> deps_first ts sorted ->
  forall n, ~ tc (depends ts types) n n.
Proof.
  intros Hp Hdf. destruct Hok as [Hnd _].
  assert (NoDup (at_name <$> sorted)) as Hnd' by by rewrite Hp.
  assert (forall a b, depends ts types a b -> forall i, (at_name <$> sorted) !! i = Some b ->
    exists j, j < i /\ (at_name <$> sorted) !! j = Some a) as Hstep.
  { intros a b (ty & Hty & <- & Ha) i Hi. rewrite list_lookup_fmap in Hi.
    destruct (sorted !! i) as [ty'|] eqn:Hi'; [|done]. injection Hi as Hn.
    rewrite <- Hp in Hty. apply list_elem_of_lookup in Hty as [k Hk].
    assert (k = i) as ->.
    { apply (NoDup_lookup _ _ _ (at_name ty) Hnd'); rewrite list_lookup_fmap; [by rewrite Hk|by rewrite Hi', <- Hn]. }
    destruct (Hdf i ty a Hk Ha) as (j & tj & Hlt & Hj & <-). exists j. by rewrite list_lookup_fmap, Hj. }
  assert (forall a b, tc (depends ts types) a b -> forall i, (at_name <$> sorted) !! i = Some b ->
    exists j, j < i /\ (at_name <$> sorted) !! j = Some a) as Htc.
  { induction 1 as [a b H|a b c H _ IH]; intros i Hi; [by eapply Hstep|].
    destruct (IH i Hi) as (j & Hlt & Hj). destruct (Hstep a b H j Hj) as (k & Hlt' & Hk). exists k. split; [lia|done]. }
  intros n Hn.
  assert (exists b, depends ts types b n) as [b (ty & Hty & <- & _)].
  { clear -Hn. assert (forall a c, tc (depends ts types) a c -> exists b, depends ts types b c) as H; [|by eapply H].
    induction 1 as [a c H|a b c _ _ IH]; [by exists a|done]. }
  rewrite <- Hp in Hty. apply list_elem_of_lookup in Hty as [i Hi].
  assert ((at_name <$> sorted) !! i = Some (at_name ty)) as Hni by (by rewrite list_lookup_fmap, Hi).
  destruct (Htc _ _ Hn i Hni) as (j & Hlt & Hj).
  pose proof (NoDup_lookup _ _ _ _ Hnd' Hni Hj). lia.
Qed.

(** What was made passes the checks. *)
Lemma made_checked tdef o : made ts entities uuid v indexes tdef o ->
  is_ok (lookup_builtin_type ts (at_name tdef)) = false /\
  (forall f n, f ∈ at_field_defs tdef -> field_type f = Ok (TeEntityId n) -> n ∈ entities) /\
  (forall c, c ∈ rq_index_candidates rq -> at_name tdef = ic_entity_name c ->
     Forall (fun n => n = "id" \/ n ∈ def_name <$> at_field_defs tdef) (ic_properties c)).
Proof.
  intros (nt & Hnt & H). pose proof H as H0.
  apply make_type_object in H0 as (fields & Hf%mapM_ok & Hix & _).
  unfold make_type in H. apply bind_unit_ok in H as [Hn%ensure_ok%negb_true_iff _].
  split; [done|split].
  - intros f n Hin Hft. apply list_elem_of_lookup in Hin as [i Hi].
    destruct (Forall2_lookup_l _ _ _ _ _ Hf Hi) as (g & _ & Hg). unfold make_field in Hg.
    apply bind_ok in Hg as (ty & Hty & _). unfold resolve_field in Hty. rewrite Hft in Hty. cbn in Hty.
    by case_decide.
  - intros c Hc Hcn. rewrite Forall_forall in Hix. specialize (Hix (DbIndex_new_from_fields (ic_properties c))).
    assert (fld_name <$> fields = def_name <$> at_field_defs tdef) as <-.
    { clear -Hf. induction Hf as [|fd f fds fs Hfd _ IH]; [done|]. cbn. rewrite IH. f_equal.
      unfold make_field in Hfd. apply bind_ok in Hfd as (ty & _ & H). by injection H as <-. }
    apply Hix, aggregate_elem. by exists c.
Qed.

Lemma plan_types plan : make_plan uuid ts tables v rq = Ok plan ->
  acceptable ts rq /\ exists order, order ≡ₚ types /\
    Forall2 (planned_type v ts (rq_index_candidates rq)) order (to_insert plan).
Proof.
  intros H. destruct (make_plan_ok _ _ _ _ _ _ (mo_distinct _ Hok) H) as (steps & Hp & Hs & Hi & _).
  assert (forall ty, ty ∈ types -> exists o, made ts entities uuid v indexes ty o) as Hmade.
  { intros ty Hty. rewrite <- Hp in Hty. apply list_elem_of_fmap in Hty as ([ty' o] & -> & Hty).
    apply list_elem_of_fmap in Hty as ([[ty'' o'] u] & [= -> ->] & Hty). rewrite Forall_forall in Hs.
    destruct (Hs _ Hty) as [Hm _]. by exists o'. }
  split.
  - split.
    + intros ty Hty. destruct (Hmade ty Hty) as [o Ho]. by apply made_checked in Ho as [? _].
    + intros ty f n Hty Hf Hn. destruct (Hmade ty Hty) as [o Ho]. apply made_checked in Ho as (_ & Ho & _). by eapply Ho.
    + unfold make_plan in H. apply bind_ok in H as (? & _ & H). apply bind_ok in H as (sorted & Hsort & _).
      destruct (sort_ok ts _ _ (mo_distinct _ Hok) Hsort) as [Hps Hdf]. by eapply deps_first_acyclic.
    + intros c ty Hc Hty Hcn. destruct (Hmade ty Hty) as [o Ho]. apply made_checked in Ho as (_ & _ & Ho). by apply Ho.
  - exists (steps.*1.*1). split; [done|]. rewrite Hi. clear -Hs.
    induction Hs as [|[[ty o] u] steps [Hm Hu] _ IH]; [constructor|]. cbn.
    destruct u as [[old d]|]; [destruct Hu as (e & ? & He & _); cbn in He; by rewrite lookup_empty in He|].
    constructor; [|done]. apply made_object in Hm as (Hn & Hv & Hf & Hx). split; [done..|].
    cbn [fst snd]. intros fs. rewrite Hx, list_elem_of_fmap. split.
    + intros (i & -> & (c & Hc & Hcn & ->)%aggregate_elem). by exists c.
    + intros (c & Hc & Hcn & <-). exists (DbIndex_new_from_fields (ic_properties c)). split; [done|].
      apply aggregate_elem. by exists c.
Qed.

End Request.

(** C25: The models the command line interface parses are well typed: class and
    field names are distinct, every field has a type the server stores, entities are
    known and a default is of a string, number or boolean field.  For a version that
    has no types yet, a request with the parsed types is planned exactly when no class
    is named as a built-in type, [Id<X>] fields name classes of the models, entities
    do not contain each other in a cycle and the index candidates name fields of
    their entity; the plan then creates one object type per class, with the fields
    the class declares, and touches nothing else.  (For a version that has types the
    plan has updates as well, and can be refused for what they would do.) *)
Theorem models_planned `{FT : FloatText} `{TP : TsParser} `{GL : GraphLib} `{LG : !GraphLaws}
    `{RO : RowOrder} `{LR : !RowOrderLaws} files bt v uuid tables rq :
  BuiltinTypes_new = Ok bt -> parse_types files = Ok (rq_types rq) ->
  let ts := TypeSystem_new bt v in
  models_ok (rq_types rq) /\
  (is_ok (make_plan uuid ts tables v rq) = true <-> acceptable ts rq) /\
  (forall plan, make_plan uuid ts tables v rq = Ok plan -> to_update plan = [] /\ to_remove plan = [] /\
     exists order, order ≡ₚ rq_types rq /\
       Forall2 (planned_type v ts (rq_index_candidates rq)) order (to_insert plan)).
Proof.
  intros Hbt Hp%parsed_models_ok. cbv zeta. split; [done|split].
  - split.
    + destruct (make_plan _ _ _ _ _) as [plan| |] eqn:H; [|done..]. intros _. by eapply plan_types.
    + intros Hac. by destruct (plan_total bt Hbt v uuid tables rq Hp Hac) as (plan & -> & _).
  - intros plan H. destruct (plan_types bt v uuid tables rq Hp plan H) as [Hac Ho].
    destruct (plan_total bt Hbt v uuid tables rq Hp Hac) as (plan' & H' & Hu & Hr).
    rewrite H in H'. by injection H' as <-.
Qed.

(** ** Defaults *)

(** A number without a minus sign, as a numeric literal is. *)
Definition unsigned (n : f64) : bool :=
  match n with
  | SpecFloat.S754_zero s | SpecFloat.S754_infinity s | SpecFloat.S754_finite s _ _ => negb s
  | SpecFloat.S754_nan => false
  end.

(** What Rust's [Display] prints for a number its parser reads back, also with a
    minus sign before it. *)
Class FloatTextLaws `{FT : FloatText} := {
  display_parse : forall n, unsigned n = true -> f64_parse (f64_display n) = Some n;
  minus_parse : forall n, unsigned n = true -> f64_parse ("-" +:+ f64_display n) = Some (SpecFloat.SFopp n);
}.

(** The value of an initializer that the server is to know. *)
Definition initial_value (e : Ts.Expr) : option SqlValue :=
  match e with
  | Ts.ELit (LitStr s) => Some (SqlString s)
  | Ts.ELit (LitBool b) => Some (SqlBool b)
  | Ts.ELit (LitNum n) => if unsigned n then Some (SqlF64 n) else None
  | Ts.EUnary Ts.Minus (Ts.ELit (LitNum n)) => if unsigned n then Some (SqlF64 (SpecFloat.SFopp n)) else None
  | _ => None
  end.

Section Defaults.
Context {FT : FloatText} {JT : JsonText} {UU : UuidLib} {BT : BytesText}.
Context (ts : TypeSystem) (v : string) (entities : list string) (new_types : gmap string Entity).

(** A field with a constant initializer: its type is that of the constant. *)
Lemma constant_field x f g e d t : parse_class_prop x = Ok f -> Ts.value x = Some e -> constant e d t ->
  make_field ts v entities new_types f = Ok g ->
  fld_name g = def_name f /\ field_type f = Ok t /\ def_default_value f = Some d /\
  exists ty, (t = TeString -> ty = TString) /\ (t = TeNumber -> ty = TFloat) /\ (t = TeBool -> ty = TBoolean) /\
    fld_type_id g = type_id_of ty /\ default_value g =
      match ty with
      | TBoolean => Some (if String.eqb d "false" then "false" else "true")
      | _ => Some d
      end.
Proof.
  intros [_ _ (t' & Hft & _ & Hd & _) _ _ _]%parse_class_prop_ok He Hc Hg.
  unfold declared_default in Hd. rewrite He in Hd.
  assert (def_default_value f = Some d /\ t' = t) as [Hdv ->].
  { apply (get_field_value_ok e (Some (d, t))) in Hc. destruct (def_default_value f) as [d'|].
    - apply (get_field_value_ok e (Some (d', t'))) in Hd. rewrite Hc in Hd. by injection Hd as <- <-.
    - destruct Hd as [Hd _]. apply (get_field_value_ok e None) in Hd. congruence. }
  assert (field_type f = Ok t) as Ht by (unfold field_type; by rewrite Hft).
  unfold make_field in Hg. apply bind_ok in Hg as (ty & Hty & Hg). injection Hg as <-.
  split; [done|]. split; [done|]. split; [done|]. exists ty.
  unfold resolve_field in Hty. rewrite Ht in Hty. cbn in Hty.
  apply constant_type in Hc. repeat split; try (intros ->; cbn in Hty; congruence).
  cbn. rewrite Hdv. by destruct ty.
Qed.

(** A field the program initializes with a literal or a negative number has
    that value as its default on the server: when an entity comes without the
    field, this is what is stored.  The negation of a boolean literal is not
    understood: its default is [true], whatever the literal. *)
Theorem default_stored `{!FloatTextLaws} x f g e fresh fields :
  parse_class_prop x = Ok f -> make_field ts v entities new_types f = Ok g -> Ts.value x = Some e ->
  alist_get (def_name f) fields = None ->
  (forall sv, initial_value e = Some sv -> convert_to_argument fresh g fields = Ok sv) /\
  (forall b, e = Ts.EUnary Ts.Bang (Ts.ELit (LitBool b)) -> convert_to_argument fresh g fields = Ok (SqlBool true)).
Proof.
  intros Hx Hg He Hnone.
  assert (forall d t ty sv, constant e d t -> 
    (t = TeString /\ ty = TString /\ sv = SqlString d) \/
    (t = TeNumber /\ ty = TFloat /\ exists n, f64_parse d = Some n /\ sv = SqlF64 n) \/
    (t = TeBool /\ ty = TBoolean /\ sv = SqlBool (negb (String.eqb d "false"))) ->
    convert_to_argument fresh g fields = Ok sv) as Hall.
  { intros d t ty sv Hc Hsv.
    destruct (constant_field x f g e d t Hx He Hc Hg) as (Hn & _ & _ & ty' & T1 & T2 & T3 & Hid & Hdef).
    unfold convert_to_argument, convert_value, generate_value. rewrite Hid, Hn, Hnone.
    destruct Hsv as [(-> & -> & ->)|[(-> & -> & n & Hp & ->)|(-> & -> & ->)]].
    - rewrite T1 in * by done. cbn. by rewrite Hdef.
    - rewrite T2 in * by done. cbn. rewrite Hdef. cbn. by rewrite Hp.
    - rewrite T3 in * by done. cbn. rewrite Hdef. cbn. by destruct (String.eqb d "false"). }
  split.
  - intros sv Hsv. destruct e as [[s|b| |n|]|[] [[| | |n|]| | | | |]| | | |]; try done.
    + injection Hsv as <-. eapply (Hall _ _ TString); [constructor|]. by left.
    + injection Hsv as <-. eapply (Hall _ _ TBoolean); [constructor|]. right. right. by destruct b.
    + cbn in Hsv. destruct (unsigned n) eqn:Hu; [|done]. injection Hsv as <-. eapply (Hall _ _ TFloat); [constructor|].
      right. left. split; [done|split; [done|]]. exists n. by rewrite display_parse.
    + cbn in Hsv. destruct (unsigned n) eqn:Hu; [|done]. injection Hsv as <-.
      eapply (Hall _ _ TFloat); [constructor; constructor|].
      right. left. split; [done|split; [done|]]. eexists. split; [by apply minus_parse|done].
  - intros b ->. eapply (Hall _ _ TBoolean); [constructor; constructor|]. right. right. by destruct b.
Qed.

End Defaults.

(** ** Witnesses *)

Module ModelsSample.

(** A text of numbers with the laws of Rust's. *)
Definition magnitude (n : f64) : string :=
  match n with
  | SpecFloat.S754_zero _ => "zero"
  | SpecFloat.S754_infinity _ => "inf"
  | SpecFloat.S754_nan => "nan"
  | SpecFloat.S754_finite _ m e => ApplySample.bits (encode (m, e))
  end.
Definition is_negative (n : f64) : bool :=
  match n with
  | SpecFloat.S754_zero s | SpecFloat.S754_infinity s | SpecFloat.S754_finite s _ _ => s
  | SpecFloat.S754_nan => false
  end.
Definition parse_magnitude (s : bool) (body : string) : option f64 :=
  if String.eqb body "zero" then Some (SpecFloat.S754_zero s)
  else if String.eqb body "inf" then Some (SpecFloat.S754_infinity s)
  else if String.eqb body "nan" then Some SpecFloat.S754_nan
  else '(m, e) ← decode (A := positive * Z) (ApplySample.of_bits body); Some (SpecFloat.S754_finite s m e).

#[export] Instance floats : FloatText := {
  f64_display n := if is_negative n then "-" +:+ magnitude n else magnitude n;
  f64_parse s := match strip_prefix "-" s with Some b => parse_magnitude true b | None => parse_magnitude false s end;
}.

Lemma bits_not_named p : String.eqb (ApplySample.bits p) "zero" = false /\ String.eqb (ApplySample.bits p) "inf" = false /\
  String.eqb (ApplySample.bits p) "nan" = false /\ strip_prefix "-" (ApplySample.bits p) = None.
Proof. by destruct p. Qed.

Lemma magnitude_parsed s n : unsigned n = true ->
  parse_magnitude s (magnitude n) = Some (if s : bool then SpecFloat.SFopp n else n) /\
  strip_prefix "-" (magnitude n) = None.
Proof.
  destruct n as [[]|[]| |[] m e]; try done; try by destruct s. intros _.
  unfold magnitude, parse_magnitude. destruct (bits_not_named (encode (m, e))) as (-> & -> & -> & ->).
  rewrite ApplySample.of_bits_bits, decode_encode. by destruct s.
Qed.

#[export] Instance float_laws : FloatTextLaws.
Proof.
  assert (forall n, unsigned n = true -> f64_display n = magnitude n) as Hd.
  { intros n Hn. cbn. by destruct n as [[]|[]| |[]]. }
  split; intros n Hn; rewrite (Hd n Hn).
  - unfold f64_parse, floats. destruct (magnitude_parsed false n Hn) as [H ->]. exact H.
  - unfold f64_parse, floats. rewrite strip_prefix_app. by destruct (magnitude_parsed true n Hn).
Qed.

Definition five : f64 := f64_of_Z 5.

Definition member (name : string) (value : option Ts.Expr) (ann : option Ts.Type_) (decs : list Ts.Expr) : Ts.ClassMember :=
  Ts.MemberProp {| Ts.key := Ts.NameIdent name false; Ts.value := value; Ts.type_ann := ann; Ts.decorators := decs |}.
Definition string_type : Ts.Type_ := Ts.KeywordType Ts.StringKeyword.
Definition lit (l : JsLit) : Ts.Expr := Ts.ELit l.

(** [@unique @labels("pii") email: string; balance = -5; active = !true] *)
Definition balance : Ts.ClassProp :=
  {| Ts.key := Ts.NameIdent "balance" false; Ts.value := Some (Ts.EUnary Ts.Minus (lit (LitNum five)));
     Ts.type_ann := None; Ts.decorators := [] |}.
Definition active : Ts.ClassProp :=
  {| Ts.key := Ts.NameIdent "active" false; Ts.value := Some (Ts.EUnary Ts.Bang (lit (LitBool true)));
     Ts.type_ann := None; Ts.decorators := [] |}.
Definition person : list Ts.ClassMember :=
  [member "email" None (Some string_type)
     [Ts.EIdent "unique"; Ts.ECall (Ts.CExpr (Ts.EIdent "labels")) [lit (LitStr "pii")]];
   Ts.MemberProp balance; Ts.MemberProp active; Ts.MemberOther].
(** [tags: string[]; author: Person = new Person(); parent: Id<Post>] *)
Definition post : list Ts.ClassMember :=
  [member "tags" None (Some (Ts.ArrayType string_type)) [];
   member "author" (Some Ts.ENew) (Some (Ts.TypeRef (Ts.Ident "Person") None)) [];
   member "parent" None (Some (Ts.TypeRef (Ts.Ident "Id") (Some [Ts.TypeRef (Ts.Ident "Post") None]))) []].

#[export] Instance ts_parser : TsParser := {
  load_file file := Ok file;
  take_errors _ := false;
  parse_typescript_module code :=
    if String.eqb code "person.ts" then Ok [Ts.Import; Ts.ExportDecl (Ts.DClass "Person" person)]
    else if String.eqb code "post.ts" then Ok [Ts.ExportDecl (Ts.DClass "Post" post); Ts.Stmt]
    else bail "Exiting on script parsing errors";
}.

Definition field (name : string) (t : TypeEnum) (labels : list string) (unique : bool) (default : option string)
    : FieldDefinition :=
  {| def_name := name; def_field_type := Some (mkTypeMsg (Some t)); def_labels := labels;
     def_is_optional := false; def_default_value := default; def_is_unique := unique |}.
Definition person_type : AddTypeRequest :=
  {| at_name := "Person";
     at_field_defs := [field "email" TeString ["pii"] true None; 
       field "balance" TeNumber [] false (Some ("-" +:+ f64_display five)); field "active" TeBool [] false (Some "!true")] |}.
Definition post_type : AddTypeRequest :=
  {| at_name := "Post";
     at_field_defs := [field "tags" (te_array TeString) [] false None; field "author" (TeEntity "Person") [] false None;
       field "parent" (TeEntityId "Post") [] false None] |}.

Definition request : ApplyRequest :=
  {| rq_types := [post_type; person_type];
     rq_index_candidates := [{| ic_entity_name := "Person"; ic_properties := ["email"] |}];
     rq_policies := []; rq_allow_type_deletion := false; rq_version_id := "dev";
     rq_modules := []; rq_version_tag := "v1"; rq_app_name := "blog" |}.
(** For [posts.findMany(p => p.author.email == ..)] the compiler records [email]
    as a property of [Post]. *)
Definition nested_request : ApplyRequest :=
  {| rq_types := [post_type; person_type];
     rq_index_candidates := [{| ic_entity_name := "Post"; ic_properties := ["author"; "email"] |}];
     rq_policies := []; rq_allow_type_deletion := false; rq_version_id := "dev";
     rq_modules := []; rq_version_tag := "v1"; rq_app_name := "blog" |}.

End ModelsSample.

#[local] Existing Instances ModelsSample.floats ModelsSample.float_laws ModelsSample.ts_parser.
#[local] Existing Instances GraphSample.graph_lib GraphSample.graph_laws MetaSample.order MetaSample.order_laws.
Import ModelsSample.

Lemma parse_types_spec_witness :
  declared_types ["post.ts"; "person.ts"] [post_type; person_type] /\
  is_panic (parse_types ["post.ts"; "person.ts"; "missing.ts"]) = false.
Proof.
  split.
  - apply (parse_types_spec ["post.ts"; "person.ts"]). vm_compute. reflexivity.
  - apply (parse_types_spec ["post.ts"; "person.ts"; "missing.ts"]); [reflexivity|].
    intros c. cbn. destruct (String.eqb c "person.ts"); [reflexivity|]. destruct (String.eqb c "post.ts"); reflexivity.
Defined.

Lemma models_planned_witness :
  acceptable (TypeSystem_new ApplySample.builtins "dev") request /\
  ~ acceptable (TypeSystem_new ApplySample.builtins "dev") nested_request.
Proof.
  split.
  - apply (models_planned ["post.ts"; "person.ts"] ApplySample.builtins "dev" ApplySample.uuid ∅ request
      ApplySample.builtins_new); vm_compute; reflexivity.
  - intros H. apply (models_planned ["post.ts"; "person.ts"] ApplySample.builtins "dev" ApplySample.uuid ∅ nested_request
      ApplySample.builtins_new) in H; vm_compute in H |- *; [discriminate H|reflexivity].
Defined.

Module DefaultSample.
#[export] Instance texts : JsonText := {| json_parse _ := None; json_print _ := "" |}.
#[export] Instance bytes : BytesText := {| bytes_base64 _ := "" |}.

Definition balance_def : FieldDefinition := field "balance" TeNumber [] false (Some ("-" +:+ f64_display five)).
Definition active_def : FieldDefinition := field "active" TeBool [] false (Some "!true").
Definition dev : TypeSystem := TypeSystem_new ApplySample.builtins "dev".
Definition balance_field : Field :=
  Field_new {| nf_name := "balance"; nf_ty := TFloat; nf_version_id := "dev" |} []
    (Some ("-" +:+ f64_display five)) false false.
Definition active_field : Field :=
  Field_new {| nf_name := "active"; nf_ty := TBoolean; nf_version_id := "dev" |} [] (Some "!true") false false.
End DefaultSample.

#[local] Existing Instances DefaultSample.texts DefaultSample.bytes.
Import DefaultSample.

Lemma default_stored_witness :
  convert_to_argument "" balance_field [] = Ok (SqlF64 (SpecFloat.SFopp five)) /\
  convert_to_argument "" active_field [] = Ok (SqlBool true).
Proof.
  split.
  - destruct (default_stored dev "dev" [] ∅ balance balance_def balance_field
      (Ts.EUnary Ts.Minus (lit (LitNum five))) "" []) as [H _]; [vm_compute; reflexivity..|].
    apply H. vm_compute. reflexivity.
  - destruct (default_stored dev "dev" [] ∅ active active_def active_field
      (Ts.EUnary Ts.Bang (lit (LitBool true))) "" []) as [_ H]; [vm_compute; reflexivity..|].
    by apply (H true).
Defined.
