(* ===== verification/Generate.v ===== *)
(** * Generated clients ([cli/src/cmd/generate.rs])

    [chisel generate] asks a server for the types and the routes of a version and
    writes TypeScript: the models, a description of the entities for the client
    library, and an object with a method for every CRUD route.  The fixed parts
    of the files, which the build includes as they are, the printer of JSON and
    the formatter of TypeScript are parameters; so are the answers of the server
    and the order in which the entries of a [HashMap] are visited. *)

From S2P Require Import Prelude Json Meta Apply Rpc.

(** The TypeScript files the build includes. *)
Class Included := {
  models_without_id_ts : string;
  reflection_ts : string;
  client_ts : string;
  client_lib_ts : string;
  filter_ts : string;
}.

(** [dprint_plugin_typescript::format_text]: [None] when nothing changes. *)
Class Formatter := { format_text : string -> string -> result (option string) }.

Inductive Mode := Node | Deno.
Record Opts := { op_version : string; op_mode : Mode }.

Definition line (s : string) : string := s +:+ newline.

(** ** Models *)

Fixpoint type_enum_to_code (t : TypeEnum) : result string :=
  match t with
  | TeArrayBuffer => Ok "ArrayBuffer"
  | TeBool => Ok "boolean"
  | TeJsDate => Ok "Date"
  | TeNumber => Ok "number"
  | TeString | TeEntityId _ => Ok "string"
  | TeArray None => bail "container has no value"
  | TeArray (Some (mkTypeMsg None)) => bail "type enum is not present in TypeMsg"
  | TeArray (Some (mkTypeMsg (Some element_type))) =>
      s ← type_enum_to_code element_type; Ok (s +:+ "[]")
  | TeEntity entity_name => Ok entity_name
  end.

Definition generate_field (omit_id : bool) (output : string) (field : FieldDefinition) : result string :=
  if omit_id && String.eqb (def_name field) "id" then Ok output
  else
    t ← field_type field;
    code ← type_enum_to_code t;
    Ok (output +:+ line ("    " +:+ def_name field +:+ (if def_is_optional field then "?" else "") +:+ ": "
                         +:+ code +:+ ";")).

Definition generate_model (omit_id : bool) (output : string) (def : TypeDefinition) : result string :=
  let output := output +:+ line ("export type " +:+ td_name def +:+ " = {") in
  output ← foldM (generate_field omit_id) output (td_field_defs def);
  Ok (output +:+ line "}").

Definition generate_models (version_def : VersionDefinition) (omit_id : bool) : result string :=
  foldM (generate_model omit_id) "" (vd_type_defs version_def).

(** One link of the chain of conditional types. *)
Definition without_id_link (acc x : string) : string :=
  "ΩIfEquals<ΩEntityType, Ωmodels." +:+ x +:+ ", " +:+ x +:+ ", " +:+ acc +:+ ">".

Definition generate_models_without_id `{Included} (version_def : VersionDefinition) (opts : Opts) : result string :=
  let imports :=
    match op_mode opts with
    | Deno => "import * as Ωmodels from " +:+ quoted "./models.ts" +:+ ";"
    | Node => "import * as Ωmodels from " +:+ quoted "./models" +:+ ";"
    end in
  let output := imports +:+ newline +:+ newline in
  models ← generate_models version_def true;
  let output := output +:+ models_without_id_ts +:+ newline +:+ models +:+ newline in
  let entity_names := td_name <$> vd_type_defs version_def in
  let without_id_chain := foldl without_id_link "never" entity_names in
  Ok (output +:+ "export type ΩWithoutId<ΩEntityType> = " +:+ without_id_chain +:+ ";").

(** ** Reflection *)

(** [make_entity_type_obj] and [type_to_obj] call each other; [make_entity] is
    the former. *)
Section TypeObj.
Context (make_entity : string -> result json).

Fixpoint type_enum_to_obj (t : TypeEnum) : result json :=
  match t with
  | TeArrayBuffer => Ok (JObject [("name", JString "arrayBuffer")])
  | TeBool => Ok (JObject [("name", JString "boolean")])
  | TeJsDate => Ok (JObject [("name", JString "date")])
  | TeNumber => Ok (JObject [("name", JString "number")])
  | TeString => Ok (JObject [("name", JString "string")])
  | TeEntityId entity_name =>
      Ok (JObject [("name", JString "entityId"); ("entityName", JString entity_name)])
  | TeArray None => bail "container has no value"
  | TeArray (Some (mkTypeMsg None)) => bail "field doesn't have type_enum"
  | TeArray (Some (mkTypeMsg (Some element_type))) =>
      element ← type_enum_to_obj element_type;
      Ok (JObject [("name", JString "array"); ("elementType", element)])
  | TeEntity entity_name =>
      entity ← make_entity entity_name;
      Ok (JObject [("name", JString "entity"); ("entityType", entity)])
  end.

Definition type_to_obj (ty : TypeMsg) : result json :=
  type_enum ← option_context (type_enum ty) "field doesn't have type_enum";
  type_enum_to_obj type_enum.

Definition make_field_obj (field : FieldDefinition) : result json :=
  field_type ← option_context (def_field_type field) "field doesn't have type";
  type_obj ← type_to_obj field_type;
  Ok (JObject [("name", JString (def_name field)); ("type", type_obj);
               ("isOptional", JBool (def_is_optional field)); ("isUnique", JBool (def_is_unique field))]).

End TypeObj.

(** Entities are looked up by name; [fuel] bounds the depth of the recursion,
    which an entity that contains itself makes infinite. *)
Fixpoint make_entity_type_obj (fuel : nat) (entities : gmap string TypeDefinition) (entity_name : string)
    : result json :=
  match fuel with
  | O => Panic "stack overflow"
  | S fuel =>
      entity ← option_context (entities !! entity_name)
                 "trying to generate entity object from an unknown entity name";
      fields ← mapM (make_field_obj (make_entity_type_obj fuel entities)) (td_field_defs entity);
      Ok (JObject [("name", JString entity_name); ("fields", JArray fields)])
  end.

Section Generate.
Context {RO : RowOrder} {JT : JsonText} {IN : Included}.

Definition generate_entity (fuel : nat) (entities : gmap string TypeDefinition) (output entity_name : string)
    : result string :=
  obj ← make_entity_type_obj fuel entities entity_name;
  Ok (output +:+ line ("export const Ω" +:+ entity_name +:+ ": Entity = " +:+ json_print obj)).

(** [HashMap::from_iter] on the named definitions: the last one counts. *)
Definition entities_of (version_def : VersionDefinition) : gmap string TypeDefinition :=
  foldl (fun m ty => <[td_name ty := ty]> m) ∅ (vd_type_defs version_def).

Definition generate_reflection (fuel : nat) (version_def : VersionDefinition) : result string :=
  let entites := entities_of version_def in
  foldM (generate_entity fuel entites) reflection_ts (in_order (map_to_list entites)).*1.

(** ** Routes *)

Inductive HttpMethod := Options | Get | Post | Put | Delete | Head | Trace | Connect | Patch.

Inductive CrudHandler :=
  | GetOne (entity_name : string)
  | GetMany (entity_name : string)
  | PutOne (entity_name : string)
  | PostOne (entity_name : string)
  | PatchOne (entity_name : string)
  | DeleteOne (entity_name : string)
  | DeleteMany (entity_name : string).

Inductive HandlerKind := Crud (h : CrudHandler).
Record ClientMetadata := { cm_handler : HandlerKind }.
Record RouteInfo := {
  ri_methods : list HttpMethod;
  ri_path_pattern : string;
  ri_client_metadata : option ClientMetadata;
}.
Record RouteHandler := { rh_method : HttpMethod; rh_kind : HandlerKind }.

Inductive RouteSegment := FixedText (s : string) | Wildcard (s : string).

#[export] Instance RouteSegment_eq_dec : EqDecision RouteSegment.
Proof. solve_decision. Defined.

(** The children are a [HashMap]: each segment once, in any order. *)
Inductive SubRoute := mkSubRoute (handlers : list RouteHandler) (children : list (RouteSegment * SubRoute)).

Definition sr_handlers (r : SubRoute) : list RouteHandler := let 'mkSubRoute h _ := r in h.
Definition sr_children (r : SubRoute) : list (RouteSegment * SubRoute) := let 'mkSubRoute _ c := r in c.
Definition SubRoute_new : SubRoute := mkSubRoute [] [].

(** [HashMap::get_mut] and [insert] *)
Fixpoint seg_get {A} (k : RouteSegment) (l : list (RouteSegment * A)) : option A :=
  match l with
  | [] => None
  | (k', a) :: l => if decide (k = k') then Some a else seg_get k l
  end.
Fixpoint seg_insert {A} (k : RouteSegment) (a : A) (l : list (RouteSegment * A)) : list (RouteSegment * A) :=
  match l with
  | [] => [(k, a)]
  | (k', b) :: l => if decide (k = k') then (k', a) :: l else (k', b) :: seg_insert k a l
  end.

Definition make_segment (segment_str : string) : RouteSegment :=
  if starts_with segment_str ":" then Wildcard segment_str else FixedText segment_str.

Fixpoint add_route_rec (segments : list string) (handler : RouteHandler) (self : SubRoute) : SubRoute :=
  match segments with
  | [] => mkSubRoute (sr_handlers self ++ [handler]) (sr_children self)
  | segment_str :: sub_segments =>
      let segment := make_segment segment_str in
      let subroute :=
        match seg_get segment (sr_children self) with
        | Some child => add_route_rec sub_segments handler child
        | None => add_route_rec sub_segments handler SubRoute_new
        end in
      mkSubRoute (sr_handlers self) (seg_insert segment subroute (sr_children self))
  end.

Definition route_segments (route : string) : list string :=
  split_on "/"%char (trim_end_matches "/" (trim_start_char "/"%char (trim route))).

Definition add_route (route : string) (handler : RouteHandler) (self : SubRoute) : SubRoute :=
  add_route_rec (route_segments route) handler self.

Definition path_join (p1 p2 : string) : string :=
  trim_end_matches "/" p1 +:+ "/" +:+ trim_start_char "/"%char p2.

Definition add_route_info (root : SubRoute) (route : RouteInfo) : result SubRoute :=
  match ri_client_metadata route with
  | Some meta =>
      _ ← ensure (length (ri_methods route) =? 1) "the number of allowed route methods must be one";
      method ← unwrap (head (ri_methods route)) "index out of bounds";
      Ok (add_route (ri_path_pattern route) {| rh_method := method; rh_kind := cm_handler meta |} root)
  | None => Ok root
  end.

Definition build_routing (routes : list RouteInfo) : result SubRoute := foldM add_route_info SubRoute_new routes.

(** ** The client *)

(** [name: Ωlib.make<Entity>(Ωurl(`url`), ..Ωconfig)] *)
Definition entity_call (name make entity_name url : string) : string :=
  name +:+ ": Ωlib." +:+ make +:+ "<Ωmodels." +:+ entity_name +:+ ">(Ωurl(`" +:+ url +:+ "`), Ωreflection.Ω"
  +:+ entity_name +:+ ", Ωconfig)".

Definition handler_to_ts (handler : RouteHandler) (url : string) : list string :=
  let 'Crud crud_handler := rh_kind handler in
  match crud_handler with
  | DeleteMany entity_name =>
      ["delete: Ωlib.makeDeleteMany<Ωmodels." +:+ entity_name +:+ ">(Ωurl(`" +:+ url +:+ "`), Ωconfig)"]
  | DeleteOne _ => ["delete: Ωlib.makeDeleteOne(Ωurl(`" +:+ url +:+ "`), Ωconfig)"]
  | GetMany entity_name =>
      [entity_call "get" "makeGetMany" entity_name url;
       entity_call "getIter" "makeGetManyIter" entity_name url;
       entity_call "getAll" "makeGetAll" entity_name url]
  | GetOne entity_name => [entity_call "get" "makeGetOne" entity_name url]
  | PatchOne entity_name => [entity_call "patch" "makePatchOne" entity_name url]
  | PostOne entity_name => [entity_call "post" "makePostOne" entity_name url]
  | PutOne entity_name => [entity_call "put" "makePutOne" entity_name url]
  end.

(** The name of a wildcard, and its place in the text of an URL. *)
Definition group_name (segment : string) : string := trim_start_char ":"%char segment.
Definition placeholder (name : string) : string := "${" +:+ name +:+ "}".

Fixpoint generate_routing_obj (route : SubRoute) (url_prefix : string) : result string :=
  let 'mkSubRoute handlers children := route in
  let own := handlers ≫= (fun h => handler_to_ts h url_prefix) in
  subs ← mapM (fun '(segment, subroute) =>
    match segment with
    | FixedText segment =>
        obj ← generate_routing_obj subroute (path_join url_prefix segment);
        Ok (quoted segment +:+ ": " +:+ obj)
    | Wildcard segment =>
        let group_name := group_name segment in
        let url_path := path_join url_prefix (placeholder group_name) in
        obj ← generate_routing_obj subroute url_path;
        Ok (group_name +:+ ": (" +:+ group_name +:+ ": string) => { return " +:+ obj +:+ "; }")
    end) children;
  Ok ("{" +:+ str_join ("," +:+ newline) (own ++ in_order subs) +:+ "}" +:+ newline).

(** An import of the client, from the files of its directory. *)
Definition import_all (mode : Mode) (name file : string) : string :=
  "import " +:+ name +:+ " from " +:+ quoted ("./" +:+ file +:+ match mode with Deno => ".ts" | Node => "" end) +:+ ";".

(** The lines of a raw string literal keep their indentation. *)
Definition indent (n : nat) (s : string) : string := String.string_of_list_ascii (repeat " "%char n) +:+ s.
Definition raw_lines (n last : nat) (l : list string) : string :=
  newline +:+ foldr (fun s rest => line (indent n s) +:+ rest) (indent last "") l.

Definition generate_routing_client (routes : list RouteInfo) (opts : Opts) : result string :=
  let mode := op_mode opts in
  let imports := raw_lines 16 12
    [import_all mode "* as Ωlib" "client_lib"; import_all mode "* as Ωmodels" "models";
     import_all mode "* as Ωreflection" "reflection";
     import_all mode "{ type ΩWithoutId }" "models_without_id"] in
  let output := line imports +:+ client_ts in
  root ← build_routing routes;
  obj ← generate_routing_obj root "";
  let create_client := newline +:+
    line (indent 12 "function ΩcreateClient(ΩclientConfig: Ωlib.ClientConfig) {") +:+
    line (indent 16 "const Ωconfig = Ωlib.cliConfigToInternal(ΩclientConfig);") +:+
    line (indent 16 ("const Ωversion = Ωconfig.version ?? '" +:+ op_version opts +:+ "';")) +:+
    line (indent 16 "const Ωurl = (url: string) => {") +:+
    line (indent 20 "return Ωlib.urlJoin(Ωconfig.serverUrl, Ωversion, url);") +:+
    line (indent 16 "};") +:+
    line (indent 16 ("return " +:+ obj +:+ ";")) +:+
    line (indent 12 "}") +:+
    indent 8 "" in
  Ok (output +:+ line create_client).

Definition generate_client_lib (opts : Opts) : result string :=
  let mode := op_mode opts in
  let imports := raw_lines 12 8
    [import_all mode "{ type FilterExpr }" "filter"; import_all mode "* as reflect" "reflection";
     import_all mode "{ type ΩWithoutId as WithoutId }" "models_without_id"] in
  Ok (imports +:+ newline +:+ newline +:+ client_lib_ts).

(** ** The command *)

Definition find_version_def (version_defs : list VersionDefinition) (opts : Opts) : result VersionDefinition :=
  option_context (List.find (fun def => String.eqb (vd_version_id def) (op_version opts)) version_defs)
    "can't generate client with an unknown version".

Definition format_typescript `{Formatter} (file_path file_text : string) : result string :=
  formatted_text ← format_text file_path file_text;
  Ok (default file_text formatted_text).

(** [cmd_generate]: the files it writes into the output directory, given the
    answers of the server. *)
Definition generate_files `{Formatter} (fuel : nat) (opts : Opts) (version_defs : list VersionDefinition)
    (routing_info : result (list RouteInfo)) : result (list (string * string)) :=
  version_def ← find_version_def version_defs opts;
  models ← generate_models version_def false;
  without_id ← generate_models_without_id version_def opts;
  reflection ← generate_reflection fuel version_def;
  routes ← routing_info;
  client_code ← generate_routing_client routes opts;
  client_lib ← generate_client_lib opts;
  mapM (fun '(file_name, src_code) =>
      formatted_code ← format_typescript file_name src_code; Ok (file_name, formatted_code))
    [("models.ts", models); ("models_without_id.ts", without_id); ("reflection.ts", reflection);
     ("client.ts", client_code); ("client_lib.ts", client_lib); ("filter.ts", filter_ts)].

End Generate.
