(* ===== verification/GenerateSpec.v ===== *)
(** * What the generated client offers

    The description of the entities, and the calls of the client object with
    their URLs. *)

From stdpp Require Import sorting.
From S2P Require Import Prelude Json Ident Types Builtin TypeSystem Policies Query Meta MetaLoadSpec MetaStoreSpec Apply Rpc Generate.

(** ** Reflection *)

(** What the JSON of an entity is to be. *)
Inductive entity_json (es : gmap string TypeDefinition) : string -> json -> Prop :=
  | entity_json_intro n d fields : es !! n = Some d -> Forall2 (field_json es) (td_field_defs d) fields ->
      entity_json es n (JObject [("name", JString n); ("fields", JArray fields)])
with field_json (es : gmap string TypeDefinition) : FieldDefinition -> json -> Prop :=
  | field_json_intro f t j : field_type f = Ok t -> type_json es t j ->
      field_json es f (JObject [("name", JString (def_name f)); ("type", j);
                                ("isOptional", JBool (def_is_optional f)); ("isUnique", JBool (def_is_unique f))])
with type_json (es : gmap string TypeDefinition) : TypeEnum -> json -> Prop :=
  | tj_buffer : type_json es TeArrayBuffer (JObject [("name", JString "arrayBuffer")])
  | tj_bool : type_json es TeBool (JObject [("name", JString "boolean")])
  | tj_date : type_json es TeJsDate (JObject [("name", JString "date")])
  | tj_number : type_json es TeNumber (JObject [("name", JString "number")])
  | tj_string : type_json es TeString (JObject [("name", JString "string")])
  | tj_id n : type_json es (TeEntityId n) (JObject [("name", JString "entityId"); ("entityName", JString n)])
  | tj_array t j : type_json es t j ->
      type_json es (TeArray (Some (mkTypeMsg (Some t)))) (JObject [("name", JString "array"); ("elementType", j)])
  | tj_entity n j : entity_json es n j ->
      type_json es (TeEntity n) (JObject [("name", JString "entity"); ("entityType", j)]).

(** The entity a type refers to, and those a definition does. *)
Fixpoint entity_ref (t : TypeEnum) : option string :=
  match t with
  | TeEntity n => Some n
  | TeArray (Some (mkTypeMsg (Some t))) => entity_ref t
  | _ => None
  end.
Fixpoint complete_type (t : TypeEnum) : bool :=
  match t with
  | TeArray (Some (mkTypeMsg (Some t))) => complete_type t
  | TeArray _ => false
  | _ => true
  end.

Definition field_ref (f : FieldDefinition) : option string :=
  match field_type f with Ok t => entity_ref t | _ => None end.
Definition def_refs (d : TypeDefinition) : list string := omap field_ref (td_field_defs d).
Definition complete_field (f : FieldDefinition) : Prop := exists t, field_type f = Ok t /\ complete_type t = true.
Definition complete_def (d : TypeDefinition) : Prop := Forall complete_field (td_field_defs d).

(** [a] is needed to describe [b]. *)
Definition needed (es : gmap string TypeDefinition) (a b : string) : Prop :=
  exists d, es !! b = Some d /\ a ∈ def_refs d.

Section TypeObj.
Context (es : gmap string TypeDefinition) (make : string -> result json).

Lemma type_obj_ok (Hmake : forall n j, make n = Ok j -> entity_json es n j) : forall t j,
  type_enum_to_obj make t = Ok j -> type_json es t j.
Proof.
  fix IH 1. intros t j H. destruct t as [| | | | |n|n|[[[t|]]|]]; cbn in H; try done.
  - injection H as <-. constructor.
  - injection H as <-. constructor.
  - injection H as <-. constructor.
  - injection H as <-. constructor.
  - injection H as <-. constructor.
  - apply bind_ok in H as (e & He & [= <-]). constructor. by apply Hmake.
  - injection H as <-. constructor.
  - apply bind_ok in H as (e & He & [= <-]). constructor. by apply IH.
Qed.

Lemma field_obj_ok (Hmake : forall n j, make n = Ok j -> entity_json es n j) f j :
  make_field_obj make f = Ok j -> field_json es f j.
Proof.
  intros H. unfold make_field_obj, type_to_obj in H. apply bind_ok in H as (msg & Hm%option_context_ok & H).
  apply bind_ok in H as (o & Ho & [= <-]). apply bind_ok in Ho as (t & Ht%option_context_ok & Ho).
  econstructor; [|by eapply type_obj_ok]. unfold field_type. rewrite Hm. cbn. by rewrite Ht.
Qed.

(** What describing a field fails with is what describing its entity fails with. *)
Lemma type_obj_result t : complete_type t = true ->
  match entity_ref t with
  | Some n => match make n with
              | Ok _ => is_ok (type_enum_to_obj make t) = true
              | Err e => type_enum_to_obj make t = Err e
              | Panic w => type_enum_to_obj make t = Panic w
              end
  | None => is_ok (type_enum_to_obj make t) = true
  end.
Proof.
  revert t. fix IH 1. intros t Hc. destruct t as [| | | | |n|n|[[[t|]]|]]; cbn in Hc |- *; try done.
  - by destruct (make n).
  - specialize (IH t Hc). destruct (entity_ref t) as [n|]; [destruct (make n)|];
      destruct (type_enum_to_obj make t); try done.
Qed.

Lemma field_obj_result f : complete_field f ->
  match field_ref f with
  | Some n => match make n with
              | Ok _ => is_ok (make_field_obj make f) = true
              | Err e => make_field_obj make f = Err e
              | Panic w => make_field_obj make f = Panic w
              end
  | None => is_ok (make_field_obj make f) = true
  end.
Proof.
  intros (t & Ht & Hc). unfold field_ref, make_field_obj, type_to_obj. rewrite Ht. apply type_obj_result in Hc.
  unfold field_type in Ht. apply bind_ok in Ht as (msg & ->%option_context_ok & Ht%option_context_ok). cbn. rewrite Ht. cbn.
  destruct (entity_ref t) as [n|]; [destruct (make n)|]; destruct (type_enum_to_obj make t); done.
Qed.
End TypeObj.

Lemma mapM_ok_or {A B} (f : A -> result B) l :
  (is_ok (mapM f l) = true /\ Forall (fun x => is_ok (f x) = true) l) \/
  exists x, x ∈ l /\ is_ok (f x) = false /\ is_panic (mapM f l) = is_panic (f x).
Proof.
  induction l as [|x l IH]; [by left|]. cbn.
  destruct (f x) as [y|e|w] eqn:E; [|right; exists x; rewrite E; set_solver..].
  destruct IH as [[H1 H2]|(z & Hz & H1 & H2)]; cbn.
  - left. destruct (mapM f l); [|done..]. split; [done|]. constructor; [by rewrite E|done].
  - right. exists z. split; [by right|]. split; [done|]. rewrite <- H2. by destruct (mapM f l).
Qed.

Section Reflection.
Context (es : gmap string TypeDefinition).

Lemma make_entity_ok fuel : forall n j, make_entity_type_obj fuel es n = Ok j -> entity_json es n j.
Proof.
  induction fuel as [|fuel IH]; intros n j H; [done|]. cbn in H.
  apply bind_ok in H as (d & Hd%option_context_ok & H). apply bind_ok in H as (fields & Hf%mapM_ok & [= <-]).
  econstructor; [done|]. eapply Forall2_impl; [exact Hf|]. intros f g. by apply field_obj_ok.
Qed.

Context (Hcomplete : forall n d, es !! n = Some d -> complete_def d).

(** An entity whose description fails refers to one whose description does. *)
Lemma make_entity_result fuel n d : es !! n = Some d ->
  is_ok (make_entity_type_obj (S fuel) es n) = true \/
  exists m, needed es m n /\ is_ok (make_entity_type_obj fuel es m) = false /\
    is_panic (make_entity_type_obj (S fuel) es n) = is_panic (make_entity_type_obj fuel es m).
Proof.
  intros Hd. cbn. rewrite Hd. cbn.
  destruct (mapM_ok_or (make_field_obj (make_entity_type_obj fuel es)) (td_field_defs d))
    as [[H _]|(f & Hf & H1 & H2)].
  { left. by destruct (mapM _ _). }
  right. pose proof (Hcomplete n d Hd) as Hc. unfold complete_def in Hc. rewrite Forall_forall in Hc.
  pose proof (field_obj_result (make_entity_type_obj fuel es) f (Hc f Hf)) as Hr.
  destruct (field_ref f) as [m|] eqn:Em; [|congruence]. exists m.
  split; [exists d; split; [done|]; apply list_elem_of_omap; by exists f|].
  destruct (make_entity_type_obj fuel es m) as [j|e|w] eqn:E; [congruence| |];
    (split; [done|]); rewrite Hr in H2; by destruct (mapM _ _).
Qed.

(** With enough fuel the recursion ends, unless an entity contains itself. *)
Lemma make_entity_no_panic (Hac : forall n, ~ tc (needed es) n n) fuel : forall n path,
  NoDup path -> (forall m, m ∈ path -> is_Some (es !! m) /\ tc (needed es) n m) ->
  size es < fuel + length path -> is_panic (make_entity_type_obj fuel es n) = false.
Proof.
  induction fuel as [|fuel IH]; intros n path Hnd Hpath Hsize.
  - exfalso. assert (path ⊆ (map_to_list es).*1) as Hsub.
    { intros m Hm. destruct (Hpath m Hm) as [[d Hd] _]. apply list_elem_of_fmap. exists (m, d).
      by rewrite elem_of_map_to_list. }
    apply NoDup_submseteq in Hsub; [|done]. apply submseteq_length in Hsub.
    rewrite length_fmap, length_map_to_list in Hsub. cbn in Hsize. lia.
  - destruct (es !! n) as [d|] eqn:Hd; [|by cbn; rewrite Hd].
    destruct (make_entity_result fuel n d Hd) as [Hok|(m & Hm & _ & ->)];
      [by destruct (make_entity_type_obj (S fuel) es n)|].
    apply (IH m (n :: path)).
    + constructor; [|done]. intros Hin. destruct (Hpath n Hin) as [_ Hn]. by apply (Hac n).
    + intros k [->|Hk]%elem_of_cons; [split; [by eexists|by apply tc_once]|].
      destruct (Hpath k Hk) as [Hk1 Hk2]. split; [done|]. by eapply tc_l.
    + cbn. lia.
Qed.

(** An entity can be described when all it needs is known. *)
Lemma make_entity_no_error (Hclosed : forall n d m, es !! n = Some d -> m ∈ def_refs d -> is_Some (es !! m)) fuel :
  forall n, is_Some (es !! n) -> is_ok (make_entity_type_obj fuel es n) = true \/
    is_panic (make_entity_type_obj fuel es n) = true.
Proof.
  induction fuel as [|fuel IH]; intros n [d Hd]; [by right|].
  destruct (make_entity_result fuel n d Hd) as [Hok|(m & (d' & Hd' & Hm) & Hno & ->)]; [by left|].
  right. rewrite Hd in Hd'. injection Hd' as <-. destruct (IH m) as [H|H]; [by eapply Hclosed|congruence|done].
Qed.

Lemma entity_json_known n j : entity_json es n j -> is_Some (es !! n).
Proof. intros [m d fields Hd _]. by eexists. Qed.

Lemma field_json_refs f j n : field_json es f j -> field_ref f = Some n -> is_Some (es !! n).
Proof.
  intros [f' t j' Ht Hj] Hr. unfold field_ref in Hr. rewrite Ht in Hr. clear Ht. revert t j' Hj Hr.
  fix IH 3. intros t j' Hj Hr. destruct Hj as [| | | | |m|t j' Hj|m j' Hj]; cbn in Hr; try done; [by eapply IH|].
  injection Hr as ->. by eapply entity_json_known.
Qed.

(** What is described refers to known entities. *)
Lemma entity_json_refs n j d m : entity_json es n j -> es !! n = Some d -> m ∈ def_refs d -> is_Some (es !! m).
Proof.
  intros [n' d' fields Hd Hf] Hd' Hm. rewrite Hd in Hd'. injection Hd' as <-.
  apply list_elem_of_omap in Hm as (f & Hin & Hr). apply list_elem_of_lookup in Hin as [i Hi].
  destruct (Forall2_lookup_l _ _ _ _ _ Hf Hi) as (g & _ & Hg). by eapply field_json_refs.
Qed.

End Reflection.

(** ** The whole file *)

Lemma entities_of_lookup vd n d : NoDup (td_name <$> vd_type_defs vd) ->
  entities_of vd !! n = Some d <-> d ∈ vd_type_defs vd /\ td_name d = n.
Proof.
  unfold entities_of. induction (vd_type_defs vd) as [|x l IH] using rev_ind; intros Hnd.
  { cbn. rewrite lookup_empty. split; [done|]. by intros [?%not_elem_of_nil _]. }
  rewrite fmap_app in Hnd. apply NoDup_app in Hnd as (Hnd & Hx & _).
  rewrite foldl_app, elem_of_app, list_elem_of_singleton. cbn. rewrite lookup_insert_Some, (IH Hnd). split.
  - intros [[<- <-]|[Hne [Hd <-]]]; [by split; [right|]|by split; [left|]].
  - intros [[Hd| ->] <-]; [right|by left]. split; [|done]. intros Heq. apply (Hx (td_name d)).
    + by apply list_elem_of_fmap_2.
    + rewrite <- Heq. by left.
Qed.

Section File.
Context {RO : RowOrder} {LR : RowOrderLaws} {JT : JsonText} {IN : Included}.

(** The line of an entity. *)
Definition entity_line (entry : string * json) : string :=
  line ("export const Ω" +:+ entry.1 +:+ ": Entity = " +:+ json_print entry.2).
Definition entity_lines (entries : list (string * json)) : string :=
  foldr (fun e rest => entity_line e +:+ rest) "" entries.

Lemma generate_entities_ok fuel es names : forall out text, foldM (generate_entity fuel es) out names = Ok text <->
  exists entries, entries.*1 = names /\ Forall (fun e => make_entity_type_obj fuel es e.1 = Ok e.2) entries /\
    text = out +:+ entity_lines entries.
Proof.
  induction names as [|n names IH]; intros out text; cbn [foldM].
  { split; [intros [= <-]; exists []; cbn; by rewrite str_app_nil_r|].
    intros (entries & H%fmap_nil_inv & _ & ->). subst. cbn. by rewrite str_app_nil_r. }
  rewrite bind_ok. split.
  - intros (out1 & H1 & (entries & <- & He & ->)%IH). unfold generate_entity in H1.
    apply bind_ok in H1 as (j & Hj & [= <-]). exists ((n, j) :: entries). split; [done|].
    split; [by constructor|]. cbn. by rewrite str_app_assoc.
  - intros ([|[m j] entries] & Hn & He & ->); [done|]. injection Hn as -> Hn. apply Forall_cons in He as [Hj He].
    cbn in Hj. eexists. split; [unfold generate_entity; rewrite Hj; reflexivity|]. apply IH. exists entries.
    split; [done|split; [done|]]. symmetry. apply str_app_assoc.
Qed.

Lemma generate_entities_fails fuel es names : forall out, is_ok (foldM (generate_entity fuel es) out names) = false ->
  exists n, n ∈ names /\ is_ok (make_entity_type_obj fuel es n) = false /\
    is_panic (foldM (generate_entity fuel es) out names) = is_panic (make_entity_type_obj fuel es n).
Proof.
  induction names as [|n names IH]; intros out H; [done|]. cbn [foldM] in H |- *.
  assert (forall r, make_entity_type_obj fuel es n = r -> is_ok r = false ->
    is_ok (generate_entity fuel es out n) = false /\
    is_panic (generate_entity fuel es out n) = is_panic r) as Hone.
  { intros r <-. unfold generate_entity. by destruct (make_entity_type_obj fuel es n). }
  destruct (make_entity_type_obj fuel es n) as [j|e|w] eqn:Hj.
  - destruct (generate_entity fuel es out n) as [o|e|w] eqn:E; unfold generate_entity in E; rewrite Hj in E; try done.
    destruct (IH _ H) as (m & Hm & H1 & H2). exists m. by split; [right|].
  - exists n. rewrite Hj. destruct (Hone _ eq_refl eq_refl) as [H1 H2]. split; [by left|split; [done|]].
    by destruct (generate_entity fuel es out n).
  - exists n. rewrite Hj. destruct (Hone _ eq_refl eq_refl) as [H1 H2]. split; [by left|split; [done|]].
    by destruct (generate_entity fuel es out n).
Qed.

Definition generated_names (vd : VersionDefinition) : list string := (in_order (map_to_list (entities_of vd))).*1.

Lemma generated_names_elem vd n : n ∈ generated_names vd <-> is_Some (entities_of vd !! n).
Proof.
  unfold generated_names. rewrite (in_order_perm _ (map_to_list (entities_of vd))). rewrite list_elem_of_fmap. split.
  - intros ([m d] & -> & H%elem_of_map_to_list). by exists d.
  - intros [d Hd]. exists (n, d). by rewrite elem_of_map_to_list.
Qed.

(** Every reference is to an entity that is described. *)
Definition closed_defs (vd : VersionDefinition) : Prop :=
  forall d m, d ∈ vd_type_defs vd -> m ∈ def_refs d -> m ∈ td_name <$> vd_type_defs vd.

(** The generated reflection describes every entity of the version once, as
    its definition says, with the entities it refers to described in place.  It
    fails exactly when a field refers to an entity that is not among them; for
    models without cycles one level of recursion per entity, and one more, is
    enough. *)
Theorem generate_reflection_spec vd fuel :
  NoDup (td_name <$> vd_type_defs vd) -> Forall complete_def (vd_type_defs vd) ->
  (forall n, ~ tc (needed (entities_of vd)) n n) -> length (vd_type_defs vd) < fuel ->
  match generate_reflection fuel vd with
  | Ok text => closed_defs vd /\
      exists entries, entries.*1 ≡ₚ td_name <$> vd_type_defs vd /\
        Forall (fun e => entity_json (entities_of vd) e.1 e.2) entries /\
        text = reflection_ts +:+ entity_lines entries
  | Err _ => ~ closed_defs vd
  | Panic _ => False
  end.
Proof.
  intros Hnd Hc Hac Hfuel. set (es := entities_of vd) in *.
  assert (forall n d, es !! n = Some d -> complete_def d) as Hcomplete.
  { intros n d [Hd _]%entities_of_lookup; [|done]. rewrite Forall_forall in Hc. by apply Hc. }
  assert (forall n, is_Some (es !! n) <-> n ∈ td_name <$> vd_type_defs vd) as Hdom.
  { intros n. rewrite list_elem_of_fmap. split.
    - intros [d [Hd <-]%entities_of_lookup]; [by exists d|done].
    - intros (d & -> & Hd). exists d. by apply entities_of_lookup. }
  assert (generated_names vd ≡ₚ td_name <$> vd_type_defs vd) as Hperm.
  { apply NoDup_Permutation; [|done|intros n; rewrite generated_names_elem; apply Hdom].
    unfold generated_names. rewrite (in_order_perm _ (map_to_list (entities_of vd))). apply NoDup_fst_map_to_list. }
  assert (size es < fuel) as Hsize.
  { rewrite <- length_map_to_list, <- (length_fmap fst). fold es in Hperm.
    unfold generated_names in Hperm. rewrite (in_order_perm _ (map_to_list (entities_of vd))) in Hperm.
    fold es in Hperm. by rewrite Hperm, length_fmap. }
  unfold generate_reflection. fold es. fold (generated_names vd).
  change (in_order (map_to_list es)).*1 with (generated_names vd).
  destruct (foldM (generate_entity fuel es) reflection_ts (generated_names vd)) as [text|e|w] eqn:H.
  - apply generate_entities_ok in H as (entries & Hn & He & ->). 
    assert (Forall (fun e => entity_json es e.1 e.2) entries) as Hj.
    { eapply Forall_impl; [exact He|]. intros [n j]. apply make_entity_ok. }
    split; [|exists entries; by rewrite Hn].
    intros d m Hd Hm. apply Hdom.
    assert (td_name d ∈ entries.*1) as Hin by (rewrite Hn, Hperm; by apply list_elem_of_fmap_2).
    apply list_elem_of_fmap in Hin as ([n j] & Hnd' & Hin). rewrite Forall_forall in Hj. specialize (Hj _ Hin).
    eapply entity_json_refs; [exact Hj| |exact Hm]. apply entities_of_lookup; [done|]. by cbn in Hnd'.
  - intros Hcl. destruct (generate_entities_fails fuel es (generated_names vd) reflection_ts) as (n & Hn & Hf & Hp);
      [by rewrite H|]. rewrite H in Hp. apply generated_names_elem in Hn. fold es in Hn.
    assert (forall k d m, es !! k = Some d -> m ∈ def_refs d -> is_Some (es !! m)) as Hes.
    { intros k d m [Hd _]%entities_of_lookup Hm; [|done]. apply Hdom. by eapply Hcl. }
    destruct (make_entity_no_error es Hcomplete Hes fuel n Hn) as [Hok|Hpn]; [congruence|].
    rewrite Hpn in Hp. discriminate Hp.
  - destruct (generate_entities_fails fuel es (generated_names vd) reflection_ts) as (n & Hn & Hf & Hp);
      [by rewrite H|]. rewrite H in Hp.
    rewrite (make_entity_no_panic es Hcomplete Hac fuel n []) in Hp; [done|constructor| |cbn; lia].
    by intros m ?%not_elem_of_nil.
Qed.

End File.

(** ** What the server describes *)

Section Described.
Context {RL : RegexLib} {ML : MethodLib} {RO : RowOrder} {LR : RowOrderLaws} {JT : JsonText} {IN : Included}.

(** The definitions a version is described by are those of its custom types. *)
Lemma describe_version_defs version vd : describe_version version = Ok vd ->
  exists defs, vd_type_defs vd ≡ₚ defs /\
    Forall2 (fun e d => describe_type (v_type_system version) e = Ok d)
      (in_order (map_to_list (custom_types (v_type_system version)))).*2 defs.
Proof.
  intros H. unfold describe_version in H. apply bind_ok in H as (defs & Hd%mapM_ok & [= <-]).
  exists defs. split; [|done]. cbn. apply merge_sort_Permutation.
Qed.

Lemma describe_type_name ts e d : describe_type ts e = Ok d -> td_name d = obj_name (object_type e).
Proof. intros H. unfold describe_type in H. by apply bind_ok in H as (fields & _ & [= <-]). Qed.

Lemma custom_names ts : ts_wf ts ->
  (fun e => obj_name (object_type e)) <$> (in_order (map_to_list (custom_types ts))).*2 =
  (in_order (map_to_list (custom_types ts))).*1.
Proof.
  intros [_ Hc]. assert (forall l, (forall p, p ∈ l -> custom_types ts !! p.1 = Some p.2) ->
    (fun e => obj_name (object_type e)) <$> l.*2 = l.*1) as H.
  { induction l as [|[n e] l IH]; intros Hl; [done|]. cbn. destruct (Hc n e) as [-> _]; [by apply (Hl (n, e)); left|].
    f_equal. apply IH. intros p Hp. apply Hl. by right. }
  apply H. intros [n e] Hp. rewrite (in_order_perm _ _) in Hp. by apply elem_of_map_to_list in Hp.
Qed.

Lemma described_names version vd : ts_wf (v_type_system version) -> describe_version version = Ok vd ->
  NoDup (td_name <$> vd_type_defs vd) /\
  forall n, n ∈ td_name <$> vd_type_defs vd <-> is_Some (custom_types (v_type_system version) !! n).
Proof.
  intros Hwf (defs & Hp & Hd)%describe_version_defs.
  assert (td_name <$> defs = (in_order (map_to_list (custom_types (v_type_system version)))).*1) as Hn.
  { rewrite <- (custom_names _ Hwf). clear -Hd. induction Hd as [|e d es ds H _ IH]; [done|].
    cbn. by rewrite IH, (describe_type_name _ _ _ H). }
  assert (td_name <$> vd_type_defs vd ≡ₚ (map_to_list (custom_types (v_type_system version))).*1) as Hk
    by (rewrite Hp, Hn; by rewrite (in_order_perm _ (map_to_list _))).
  split; [rewrite Hk; apply NoDup_fst_map_to_list|]. intros n. rewrite Hk, list_elem_of_fmap. split.
  - intros ([m e] & -> & H%elem_of_map_to_list). by exists e.
  - intros [e He]. exists (n, e). by rewrite elem_of_map_to_list.
Qed.

Lemma type_msg_enum ty : exists t, type_msg_of ty = mkTypeMsg (Some t) /\ complete_type t = true /\
  forall e, ty = TEntity e -> t = TeEntity (obj_name (object_type e)).
Proof.
  induction ty as [| | | | |e|n|ty IH]; try (by eexists); [exists (TeEntity (obj_name (object_type e)))|].
  { split; [done|split; [done|]]. by intros e' [= ->]. }
  destruct IH as (t & Ht & Hc & _). eexists. cbn. rewrite Ht. by split.
Qed.

Lemma described_complete version vd : describe_version version = Ok vd -> Forall complete_def (vd_type_defs vd).
Proof.
  intros (defs & -> & Hd)%describe_version_defs. induction Hd as [|e d es ds H _ IH]; [constructor|].
  constructor; [|done]. unfold describe_type in H. apply bind_ok in H as (fields & Hf%mapM_ok & [= <-]).
  unfold complete_def. cbn. induction Hf as [|f g fs gs Hg _ IHf]; [constructor|]. constructor; [|done].
  unfold describe_field in Hg. apply bind_ok in Hg as (ty & _ & [= <-]).
  destruct (type_msg_enum ty) as (t & Ht & Hc & _). exists t. unfold field_type. cbn. by rewrite Ht.
Qed.

(** A field of an entity of the server itself. *)
Definition auth_field (ts : TypeSystem) (n a : string) : Prop :=
  exists e f, custom_types ts !! n = Some e /\ f ∈ obj_fields (object_type e) /\
    fld_type_id f = IdEntity a "__chiselstrike" /\ is_auth_entity_name a = true /\ custom_types ts !! a = None.

Lemma auth_entity ts a ty : ts_wf ts -> is_auth_entity_name a = true -> lookup_builtin_type ts a = Ok ty ->
  exists e, ty = TEntity e /\ obj_name (object_type e) = a.
Proof.
  intros Hwf Ha Hl. pose proof (wf_builtin_table ts Hwf) as Ht. unfold lookup_builtin_type in Hl.
  apply existsb_exists in Ha as (m & Hm & ->%String.eqb_eq).
  assert (forall m, m ∈ AUTH_ENTITY_NAMES -> lookup_builtin_type_fuel (S (String.length m)) ts m =
    match types (builtin ts) !! m with Some ty => Ok ty | None => Err (NotABuiltinType m) end) as Hplain.
  { intros k Hk. repeat (apply elem_of_cons in Hk as [->|Hk]; [reflexivity|]). by apply not_elem_of_nil in Hk. }
  rewrite Hplain in Hl by by apply list_elem_of_In. rewrite Ht in Hl. clear Hplain Ht.
  repeat (destruct Hm as [<-|Hm]; [vm_compute in Hl; injection Hl as <-; by eexists|]). done.
Qed.

Lemma auth_field_refs version vd n a : ts_wf (v_type_system version) -> describe_version version = Ok vd ->
  auth_field (v_type_system version) n a -> exists d, d ∈ vd_type_defs vd /\ td_name d = n /\ a ∈ def_refs d.
Proof.
  intros Hwf Hvd (e & f & He & Hf & Hty & Ha & _). destruct (describe_version_defs _ _ Hvd) as (defs & Hp & Hd).
  assert (e ∈ (in_order (map_to_list (custom_types (v_type_system version)))).*2) as Hin.
  { rewrite (in_order_perm _ (map_to_list _)). apply list_elem_of_fmap. exists (n, e). by rewrite elem_of_map_to_list. }
  apply list_elem_of_lookup in Hin as [i Hi]. destruct (Forall2_lookup_l _ _ _ _ _ Hd Hi) as (d & Hdi & Hde).
  exists d. rewrite Hp. split; [by eapply list_elem_of_lookup_2|].
  split; [rewrite (describe_type_name _ _ _ Hde); by apply (wf_custom _ Hwf)|].
  unfold describe_type in Hde. apply bind_ok in Hde as (fields & Hfs%mapM_ok & [= <-]).
  assert (f ∈ all_fields (object_type e)) as Hf' by (by right). apply list_elem_of_lookup in Hf' as [j Hj].
  destruct (Forall2_lookup_l _ _ _ _ _ Hfs Hj) as (g & Hgj & Hg). apply list_elem_of_omap. exists g.
  split; [by eapply list_elem_of_lookup_2|]. unfold describe_field in Hg.
  apply bind_ok in Hg as (ty & Hget & [= <-]). rewrite Hty in Hget. cbn [get] in Hget.
  rewrite String.eqb_refl in Hget. apply unwrap_ok in Hget.
  destruct (lookup_builtin_type (v_type_system version) a) as [ty'| |] eqn:Hl; [|done..]. injection Hget as ->.
  destruct (auth_entity _ _ _ Hwf Ha Hl) as (e' & -> & Hn). unfold field_ref, field_type. cbn. by rewrite Hn.
Qed.

(** No client is generated for a version whose models refer to a user: the
    server describes the custom types only, so the description of a field of
    type [AuthUser] (or another entity of the server) fails, whatever the rest
    of the models. *)
Theorem auth_fields_not_generated `{Formatter} version vd n a fuel opts version_defs routing :
  ts_wf (v_type_system version) -> describe_version version = Ok vd ->
  auth_field (v_type_system version) n a -> find_version_def version_defs opts = Ok vd ->
  is_ok (generate_reflection fuel vd) = false /\ is_ok (generate_files fuel opts version_defs routing) = false.
Proof.
  intros Hwf Hvd Ha Hfind. destruct (described_names _ _ Hwf Hvd) as [Hnd Hnames].
  destruct (auth_field_refs _ _ _ _ Hwf Hvd Ha) as (d & Hd & Hdn & Hr).
  assert (is_ok (generate_reflection fuel vd) = false) as Hno.
  { destruct (generate_reflection fuel vd) as [text| |] eqn:E; [|done..]. exfalso.
    apply generate_entities_ok in E as (entries & Hn & He & _).
    assert (entities_of vd !! n = Some d) as Hes by (by apply entities_of_lookup).
    assert (n ∈ entries.*1) as Hin by (rewrite Hn; apply generated_names_elem; by exists d).
    apply list_elem_of_fmap in Hin as ([m j] & -> & Hin). rewrite Forall_forall in He. apply He in Hin. cbn in Hin, Hes.
    apply make_entity_ok in Hin. destruct (entity_json_refs _ _ _ _ _ Hin Hes Hr) as [d' Hd'].
    apply entities_of_lookup in Hd' as [Hd' Hn']; [|done].
    destruct Ha as (_ & _ & _ & _ & _ & _ & Hnone).
    assert (a ∈ td_name <$> vd_type_defs vd) as Hk by (rewrite <- Hn'; by apply list_elem_of_fmap_2).
    apply Hnames in Hk as [? Hk]. congruence. }
  split; [done|].
  destruct (generate_files fuel opts version_defs routing) as [files| |] eqn:E; [|done..].
  unfold generate_files in E. rewrite Hfind in E. apply bind_ok in E as (vd' & [= <-] & E).
  apply bind_ok in E as (? & _ & E). apply bind_ok in E as (? & _ & E). apply bind_ok in E as (r & Hr' & _).
  by rewrite Hr' in Hno.
Qed.

End Described.

(** ** Witnesses *)

Module GenerateSample.
#[export] Instance included : Included :=
  {| models_without_id_ts := ""; reflection_ts := ""; client_ts := ""; client_lib_ts := ""; filter_ts := "" |}.
#[export] Instance json_text : JsonText := {| json_parse _ := None; json_print _ := "{}" |}.
#[export] Instance formatter : Formatter := {| format_text _ _ := Ok None |}.

Definition field (name : string) (t : TypeEnum) : FieldDefinition :=
  {| def_name := name; def_field_type := Some (mkTypeMsg (Some t)); def_labels := [];
     def_is_optional := false; def_default_value := None; def_is_unique := false |}.
Definition person : TypeDefinition := {| td_name := "Person"; td_field_defs := [field "name" TeString] |}.
Definition post : TypeDefinition :=
  {| td_name := "Post"; td_field_defs := [field "text" TeString; field "author" (TeEntity "Person")] |}.
Definition blog : VersionDefinition :=
  {| vd_version_id := "dev"; vd_type_defs := [person; post]; vd_label_policy_defs := [] |}.
Definition opts : Opts := {| op_version := "dev"; op_mode := Deno |}.

(** A note refers to the user who wrote it. *)
Definition note_fields : list Field :=
  [Field_new {| nf_name := "owner"; nf_ty := TEntity (Auth {| obj_meta_id := None; obj_name := "AuthUser";
      obj_fields := []; obj_indexes := []; obj_chisel_id := the_chisel_id; obj_backing_table := "auth_user";
      obj_version_id := "__chiselstrike" |}); nf_version_id := "dev" |} [] None false false].
Definition note : ObjectType :=
  {| obj_meta_id := None; obj_name := "Note"; obj_fields := note_fields; obj_indexes := [];
     obj_chisel_id := the_chisel_id; obj_backing_table := "ty_Note_0"; obj_version_id := "dev" |}.
Definition dev_types : TypeSystem :=
  {| custom_types := {["Note" := Custom note]}; builtin := {| types := builtin_table |}; ts_version_id := "dev" |}.

Lemma user_types_wf : ts_wf dev_types.
Proof.
  split; [vm_compute; reflexivity|]. intros n e He. change (({["Note" := Custom note]} : gmap string Entity) !! n = Some e) in He.
  apply lookup_singleton_Some in He as [<- <-]. by split.
Qed.

#[export] Instance regexes : RegexLib :=
  { Regex := string; regex_new s := Ok s; is_match r s := String.eqb r s }.
#[export] Instance methods : MethodLib :=
  { Method := string; method_eq_dec := String.string_dec; method_from_str s := Some s; method_as_str s := s;
    method_OPTIONS := "OPTIONS" }.
Definition version : Version :=
  {| v_version_id := "dev"; v_info := {| vi_name := "notes"; vi_tag := "" |}; v_type_system := dev_types;
     v_policy_system := PolicySystem_default; v_policy_sources := ∅ |}.
Definition described : result VersionDefinition := describe_version (RO := MetaSample.order) version.
Definition notes : VersionDefinition :=
  match described with Ok vd => vd | _ => {| vd_version_id := ""; vd_type_defs := []; vd_label_policy_defs := [] |} end.
End GenerateSample.

#[local] Existing Instances MetaSample.order MetaSample.order_laws.
#[local] Existing Instances GenerateSample.included GenerateSample.json_text GenerateSample.formatter.
#[local] Existing Instances GenerateSample.regexes GenerateSample.methods.
Import GenerateSample.

Lemma blog_acyclic n : ~ tc (needed (entities_of blog)) n n.
Proof.
  assert (forall a b, needed (entities_of blog) a b -> a = "Person" /\ b = "Post") as H.
  { intros a b (d & Hd & Ha). cbn in Hd. apply lookup_insert_Some in Hd as [[<- <-]|[_ Hd]].
    - cbn in Ha. by apply list_elem_of_singleton in Ha as ->.
    - apply lookup_insert_Some in Hd as [[<- <-]|[_ Hd]]; [by apply not_elem_of_nil in Ha|]. by rewrite lookup_empty in Hd. }
  assert (forall a b, tc (needed (entities_of blog)) a b -> a = "Person" /\ b = "Post") as Htc.
  { induction 1 as [a b Hab|a b c Hab _ [-> _]]; [by apply H|]. by apply H in Hab as [_ ?]. }
  intros [-> ?]%Htc. done.
Qed.

Lemma generate_reflection_spec_witness :
  exists text, generate_reflection 3 blog = Ok text /\ closed_defs blog /\
    exists entries, entries.*1 ≡ₚ ["Person"; "Post"] /\
      Forall (fun e => entity_json (entities_of blog) e.1 e.2) entries /\ text = entity_lines entries.
Proof.
  destruct (generate_reflection 3 blog) as [text|e|w] eqn:H; [|vm_compute in H; discriminate H..].
  exists text. split; [reflexivity|].
  pose proof (generate_reflection_spec blog 3) as S. rewrite H in S. apply S.
  - change (NoDup ["Person"; "Post"]). apply NoDup_cons. split; [|apply NoDup_singleton].
    intros Hin%list_elem_of_singleton. discriminate Hin.
  - repeat constructor; eexists; split; reflexivity.
  - apply blog_acyclic.
  - cbn. lia.
Defined.

Lemma auth_fields_not_generated_witness : is_ok (generate_files 10 opts [notes] (Ok [])) = false.
Proof.
  apply (auth_fields_not_generated version notes "Note" "AuthUser" 10 opts [notes] (Ok [])).
  - exact user_types_wf.
  - vm_compute. reflexivity.
  - eexists _, _. split; [reflexivity|]. split; [apply list_elem_of_singleton; reflexivity|]. split; [reflexivity|split; reflexivity].
  - vm_compute. reflexivity.
Defined.
