(* ===== verification/RoutingSpec.v ===== *)
(** * The calls of the generated client

    The tree of the routes, and the text of the client object: under the segments
    of each CRUD route it has the calls of the route's handler, with the URL of
    the route. *)

From S2P Require Import Prelude Json Meta MetaStoreSpec Apply Rpc Generate.

(** ** The tree *)

Lemma make_segment_inj s s' : make_segment s = make_segment s' -> s = s'.
Proof.
  unfold make_segment. destruct (starts_with s ":"), (starts_with s' ":"); congruence.
Qed.

Lemma seg_get_insert {A} k k' (a : A) l :
  seg_get k (seg_insert k' a l) = if decide (k = k') then Some a else seg_get k l.
Proof.
  induction l as [|[k2 b] l IH]; cbn; [done|]. destruct (decide (k' = k2)) as [->|Hne]; cbn.
  - by destruct (decide (k = k2)).
  - rewrite IH. destruct (decide (k = k2)) as [->|]; [|done]. by destruct (decide (k2 = k')).
Qed.

Fixpoint node_at (r : SubRoute) (segments : list string) : option SubRoute :=
  match segments with
  | [] => Some r
  | s :: segments => child ← seg_get (make_segment s) (sr_children r); node_at child segments
  end.

Definition handlers_at (r : SubRoute) (segments : list string) : list RouteHandler :=
  match node_at r segments with Some r => sr_handlers r | None => [] end.

Lemma handlers_new segments : handlers_at SubRoute_new segments = [].
Proof. by destruct segments. Qed.

Lemma handlers_at_cons r s segments : handlers_at r (s :: segments) =
  match seg_get (make_segment s) (sr_children r) with Some c => handlers_at c segments | None => [] end.
Proof. unfold handlers_at. cbn. by destruct (seg_get _ _). Qed.

Lemma add_route_rec_handlers segs h : forall r segs',
  handlers_at (add_route_rec segs h r) segs' = handlers_at r segs' ++ (if decide (segs' = segs) then [h] else []).
Proof.
  induction segs as [|s segs IH]; intros r segs'; cbn [add_route_rec].
  - destruct segs' as [|s' segs']; [done|]. rewrite !handlers_at_cons. cbn. by rewrite app_nil_r.
  - destruct segs' as [|s' segs']; [cbn; by rewrite app_nil_r|]. rewrite !handlers_at_cons. cbn [sr_children].
    rewrite seg_get_insert. destruct (decide (make_segment s' = make_segment s)) as [Hs|Hne].
    + apply make_segment_inj in Hs as ->.
      assert ((if decide (s :: segs' = s :: segs) then [h] else []) = (if decide (segs' = segs) then [h] else [])) as ->.
      { destruct (decide (segs' = segs)) as [->|Hne]; [by rewrite decide_True|]. rewrite decide_False; [done|congruence]. }
      destruct (seg_get _ _); rewrite IH; [done|]. by rewrite handlers_new.
    + rewrite decide_False by congruence. by rewrite app_nil_r.
Qed.

(** The handler of a route with client metadata. *)
Definition crud_route (segs : list string) (route : RouteInfo) : list RouteHandler :=
  match ri_client_metadata route, ri_methods route with
  | Some meta, [m] =>
      if decide (segs = route_segments (ri_path_pattern route))
      then [{| rh_method := m; rh_kind := cm_handler meta |}] else []
  | _, _ => []
  end.

Definition one_method (route : RouteInfo) : Prop :=
  ri_client_metadata route <> None -> length (ri_methods route) = 1.

Lemma add_route_info_ok root route root' : add_route_info root route = Ok root' ->
  one_method route /\ forall segs, handlers_at root' segs = handlers_at root segs ++ crud_route segs route.
Proof.
  unfold add_route_info, crud_route, one_method. destruct (ri_client_metadata route) as [meta|].
  - intros H. apply bind_unit_ok in H as [Hl%ensure_ok%Nat.eqb_eq H].
    destruct (ri_methods route) as [|m [|]]; try done. injection H as <-. split; [done|].
    intros segs. unfold add_route. rewrite add_route_rec_handlers. done.
  - intros [= <-]. split; [done|]. intros segs. by rewrite app_nil_r.
Qed.

Lemma add_route_info_total root route : one_method route -> exists root', add_route_info root route = Ok root'.
Proof.
  unfold add_route_info, one_method. intros H. destruct (ri_client_metadata route) as [meta|]; [|by eexists].
  specialize (H ltac:(done)). destruct (ri_methods route) as [|m [|]]; try done. by eexists.
Qed.

Lemma build_routing_ok routes root : build_routing routes = Ok root ->
  Forall one_method routes /\ forall segs, handlers_at root segs = routes ≫= crud_route segs.
Proof.
  unfold build_routing. intros H.
  refine (foldM_inv add_route_info (fun seen s => Forall one_method seen /\
    forall segs, handlers_at s segs = seen ≫= crud_route segs) routes _ _ _ _ H).
  - split; [constructor|]. intros segs. apply handlers_new.
  - clear H. intros seen route r1 r2 [H1 H2] [Ho Hr]%add_route_info_ok.
    split; [apply Forall_app; by split; [|apply Forall_singleton]|].
    intros segs. rewrite Hr, H2, bind_app. cbn. by rewrite app_nil_r.
Qed.

Lemma build_routing_total routes : Forall one_method routes -> exists root, build_routing routes = Ok root.
Proof.
  unfold build_routing. intros H. generalize SubRoute_new. induction H as [|route routes Hr _ IH]; intros r; [by eexists|].
  destruct (add_route_info_total r route Hr) as [r' Hr']. cbn. rewrite Hr'. apply IH.
Qed.

(** ** URLs *)

(** What a segment is in the text of an URL. *)
Definition segment_url (s : string) : string :=
  if starts_with s ":" then placeholder (group_name s) else s.

Definition url_of (segments : list string) : string :=
  foldl (fun url s => path_join url (segment_url s)) "" segments.

(** ** The client object *)

Inductive client := Client (calls : list string) (members : list (RouteSegment * client)).
Definition cl_calls (c : client) : list string := let 'Client calls _ := c in calls.
Definition cl_members (c : client) := let 'Client _ members := c in members.

Fixpoint client_at (c : client) (segments : list string) : option client :=
  match segments with
  | [] => Some c
  | s :: segments => m ← seg_get (make_segment s) (cl_members c); client_at m segments
  end.
Definition calls_at (c : client) (segments : list string) : list string :=
  match client_at c segments with Some c => cl_calls c | None => [] end.

Section Render.
Context {RO : RowOrder}.

(** The text of an object: its calls, then its members in the order of the map;
    a wildcard is a function of its value. *)
Fixpoint render (c : client) : string :=
  let 'Client calls members := c in
  let subs := List.map (fun '(segment, m) =>
    match segment with
    | FixedText s => quoted s +:+ ": " +:+ render m
    | Wildcard s =>
        let g := group_name s in g +:+ ": (" +:+ g +:+ ": string) => { return " +:+ render m +:+ "; }"
    end) members in
  "{" +:+ str_join ("," +:+ newline) (calls ++ in_order subs) +:+ "}" +:+ newline.

Definition segment_text (s : RouteSegment) : string := match s with FixedText s | Wildcard s => s end.

Fixpoint client_of (route : SubRoute) (url : string) : client :=
  let 'mkSubRoute handlers children := route in
  Client (handlers ≫= (fun h => handler_to_ts h url))
    (List.map (fun '(segment, r) =>
       (segment, client_of r (path_join url (match segment with
          | FixedText s => s
          | Wildcard s => placeholder (group_name s)
          end)))) children).

Lemma generate_routing_obj_render : forall route url,
  generate_routing_obj route url = Ok (render (client_of route url)).
Proof.
  fix IH 1. intros [handlers children] url. cbn [generate_routing_obj client_of render].
  match goal with |- (?step ≫= ?k) = _ => enough (step = Ok (List.map (fun '(segment, m) =>
    match segment with
    | FixedText s => quoted s +:+ ": " +:+ render m
    | Wildcard s =>
        let g := group_name s in g +:+ ": (" +:+ g +:+ ": string) => { return " +:+ render m +:+ "; }"
    end) (cl_members (client_of (mkSubRoute handlers children) url)))) as E;
    [exact (f_equal (fun x => x ≫= k) E)|] end.
  cbn [client_of cl_members]. apply mapM_ok.
  induction children as [|[[s|s] r] children IHc]; [constructor|..]; cbn [List.map];
    (constructor; [by rewrite IH|exact IHc]).
Qed.

End Render.

Lemma seg_get_map {A B} (f : RouteSegment -> A -> B) k l :
  seg_get k (List.map (fun '(s, a) => (s, f s a)) l) = f k <$> seg_get k l.
Proof.
  induction l as [|[s a] l IH]; [done|]. cbn. by destruct (decide (k = s)) as [->|].
Qed.

Lemma segment_url_make s url : path_join url (match make_segment s with
    | FixedText s => s
    | Wildcard s => placeholder (group_name s)
    end) = path_join url (segment_url s).
Proof. unfold make_segment, segment_url. by destruct (starts_with s ":"). Qed.

Lemma client_calls segs : forall route url,
  calls_at (client_of route url) segs =
  handlers_at route segs ≫= (fun h => handler_to_ts h (foldl (fun url s => path_join url (segment_url s)) url segs)).
Proof.
  induction segs as [|s segs IH]; intros [handlers children] url; [done|].
  unfold calls_at. cbn [client_at client_of cl_members]. rewrite handlers_at_cons. cbn [sr_children].
  rewrite (seg_get_map (fun segment r => client_of r (path_join url match segment with
    | FixedText s => s | Wildcard s => placeholder (group_name s) end)) (make_segment s) children).
  destruct (seg_get (make_segment s) children) as [child|]; [|done]. cbn [fmap option_fmap option_map mbind option_bind].
  rewrite segment_url_make. apply IH.
Qed.

(** ** The URL of a route *)

Lemma no_trailing_slash a s : s <> "" -> no_char "/"%char s -> strip_suffix "/" (a +:+ s) = None.
Proof.
  intros Hne Hs. destruct (strip_suffix "/" (a +:+ s)) as [r|] eqn:E; [|done]. exfalso.
  apply strip_suffix_some in E. apply (f_equal String.list_ascii_of_string) in E.
  assert (forall x y, String.list_ascii_of_string (x +:+ y) =
    String.list_ascii_of_string x ++ String.list_ascii_of_string y) as Happ.
  { intros x y. induction x as [|c x IH]; [done|]. cbn. by rewrite <- IH. }
  rewrite !Happ in E. cbn in E. unfold no_char in Hs.
  destruct (String.list_ascii_of_string s) as [|c l _] eqn:El using rev_ind.
  - apply Hne. by rewrite <- (String.string_of_list_ascii_of_string s), El.
  - rewrite app_assoc in E. apply app_inj_tail in E as [_ ->]. apply Hs. apply in_or_app. right. by left.
Qed.

Lemma no_leading_slash s : no_char "/"%char s -> trim_start_char "/"%char s = s.
Proof.
  destruct s as [|c s]; [done|]. intros H. cbn. destruct (Ascii.eqb_spec c "/"%char) as [->|]; [|done].
  exfalso. apply H. by left.
Qed.

Definition plain_segment (s : string) : Prop := s <> "" /\ no_char "/"%char s.

Lemma no_char_trimmed c d s : no_char c s -> no_char c (trim_start_char d s).
Proof.
  induction s as [|e s IH]; [done|]. intros H. cbn. destruct (Ascii.eqb e d); [|done].
  apply IH. intros Hin. apply H. by right.
Qed.

Lemma plain_segment_url s : plain_segment s -> plain_segment (segment_url s).
Proof.
  intros [Hne Hs]. unfold segment_url. destruct (starts_with s ":"); [|done]. split; [done|].
  unfold placeholder. repeat apply no_char_app.
  - by intros [|[|[]]].
  - by apply no_char_trimmed.
  - by intros [|[]].
Qed.

Lemma path_join_plain u s : (u = "" \/ strip_suffix "/" u = None) -> plain_segment s ->
  path_join u s = u +:+ "/" +:+ s /\ strip_suffix "/" (path_join u s) = None.
Proof.
  intros Hu [Hne Hs]. assert (path_join u s = u +:+ "/" +:+ s) as ->.
  { unfold path_join. rewrite (no_leading_slash s Hs). f_equal. unfold trim_end_matches.
    destruct Hu as [->|Hu]; [done|]. destruct (String.length u); [done|]. cbn. by rewrite Hu. }
  split; [done|]. rewrite <- str_app_assoc. by apply no_trailing_slash.
Qed.

Lemma url_of_plain segs : Forall plain_segment segs ->
  url_of segs = foldr (fun s rest => "/" +:+ segment_url s +:+ rest) "" segs.
Proof.
  intros H. unfold url_of.
  enough (forall u, u = "" \/ strip_suffix "/" u = None ->
    foldl (fun url s => path_join url (segment_url s)) u segs =
    u +:+ foldr (fun s rest => "/" +:+ segment_url s +:+ rest) "" segs) as Hgen by (apply (Hgen ""); by left).
  induction H as [|s segs Hs _ IH]; intros u Hu; cbn [foldl foldr]; [by rewrite str_app_nil_r|].
  destruct (path_join_plain u (segment_url s) Hu (plain_segment_url s Hs)) as [He Hn].
  rewrite IH by by right. rewrite He. by rewrite !str_app_assoc.
Qed.

(** The segments of a pattern have no slash. *)
Lemma route_segments_no_slash p : Forall (no_char "/"%char) (route_segments p).
Proof. apply Forall_forall. intros s Hs. by eapply split_on_no_sep_in. Qed.

(** The client has, under the segments of each CRUD route, the calls of the
    route's handler and no others, in the order of the routes, with the URL that
    the segments spell: wildcards stand in it as the parameters of the functions
    that lead there.  Generation fails only for a CRUD route without exactly one
    method. *)
Theorem generated_client_spec `{RO : RowOrder} routes :
  (is_ok (build_routing routes) = true <-> Forall one_method routes) /\
  (forall root, build_routing routes = Ok root ->
     exists c, generate_routing_obj root "" = Ok (render c) /\
       forall segs, calls_at c segs = (routes ≫= crud_route segs) ≫= (fun h => handler_to_ts h (url_of segs))) /\
  (forall p, Forall (fun s => s <> "") (route_segments p) ->
     url_of (route_segments p) = foldr (fun s rest => "/" +:+ segment_url s +:+ rest) "" (route_segments p)).
Proof.
  split; [|split].
  - split; [|intros H; by destruct (build_routing_total routes H) as [root ->]].
    destruct (build_routing routes) as [root| |] eqn:E; [|done..]. intros _. by apply build_routing_ok in E as [? _].
  - intros root [_ Hh]%build_routing_ok. exists (client_of root ""). split; [apply generate_routing_obj_render|].
    intros segs. rewrite client_calls, Hh. done.
  - intros p Hp. apply url_of_plain. pose proof (route_segments_no_slash p) as Hs.
    apply Forall_forall. intros s Hin. rewrite Forall_forall in Hp, Hs. split; [by apply Hp|by apply Hs].
Qed.

(** ** Witness *)

Module RoutingSample.
Definition route (m : HttpMethod) (p : string) (h : CrudHandler) : RouteInfo :=
  {| ri_methods := [m]; ri_path_pattern := p; ri_client_metadata := Some {| cm_handler := Crud h |} |}.
Definition plain : RouteInfo := {| ri_methods := [Get; Post]; ri_path_pattern := "/hello"; ri_client_metadata := None |}.
Definition routes : list RouteInfo :=
  [route Get "/posts/" (GetMany "Post"); plain; route Get "/posts/:id" (GetOne "Post");
   route Delete "/posts/:id" (DeleteOne "Post")].
End RoutingSample.

#[local] Existing Instance MetaSample.order.
Import RoutingSample.

Lemma generated_client_spec_witness : exists root c, build_routing routes = Ok root /\
  generate_routing_obj root "" = Ok (render c) /\
  calls_at c ["posts"; ":id"] =
    ["get: Ωlib.makeGetOne<Ωmodels.Post>(Ωurl(`/posts/${id}`), Ωreflection.ΩPost, Ωconfig)";
     "delete: Ωlib.makeDeleteOne(Ωurl(`/posts/${id}`), Ωconfig)"] /\
  calls_at c ["hello"] = [].
Proof.
  destruct (build_routing routes) as [root|e|w] eqn:H; [|vm_compute in H; discriminate H..].
  destruct (generated_client_spec routes) as (_ & S & _). destruct (S root H) as (c & Hc & Hcalls).
  exists root, c. split; [reflexivity|]. split; [exact Hc|]. rewrite !Hcalls. split; vm_compute; reflexivity.
Defined.
