(* ===== verification/Project.v ===== *)
(** * Projects ([cli/src/project.rs], [routes.rs], [events.rs], [codegen.rs])

    The files of an application: which of them are models, policies, routes and
    event handlers, and the module generated for the routes and handlers.  A file
    system is a tree; the links of a real one that lead back up are not
    represented.  Names are bytes, which need not be UTF-8. *)

From stdpp Require Import sorting.
From S2P Require Import Prelude Apply.

(** ** Paths *)

(** [str::from_utf8] *)
Definition byte_in (lo hi : nat) (c : ascii) : bool := (lo <=? nat_of_ascii c) && (nat_of_ascii c <=? hi).
Definition cont (c : ascii) : bool := byte_in 128 191 c.
Fixpoint valid_utf8 (s : string) : bool :=
  match s with
  | EmptyString => true
  | String a s =>
      if byte_in 0 127 a then valid_utf8 s
      else match s with
      | EmptyString => false
      | String b s =>
          if byte_in 194 223 a then cont b && valid_utf8 s
          else match s with
          | EmptyString => false
          | String c s =>
              if byte_in 224 239 a then
                cont b && cont c && negb (byte_in 224 224 a && byte_in 128 159 b)
                && negb (byte_in 237 237 a && byte_in 160 191 b) && valid_utf8 s
              else match s with
              | EmptyString => false
              | String d s =>
                  byte_in 240 244 a && cont b && cont c && cont d && negb (byte_in 240 240 a && byte_in 128 143 b)
                  && negb (byte_in 244 244 a && byte_in 144 191 b) && valid_utf8 s
              end
          end
      end
  end.

(** [OsStr::to_str] *)
Definition to_str (s : string) : option string := if valid_utf8 s then Some s else None.

Definition is_relative (p : string) : bool := negb (starts_with p "/").

(** [Path::join] *)
Definition join (dir p : string) : string :=
  if negb (is_relative p) || str_is_empty dir then p
  else if ends_with dir "/" then dir +:+ p
  else dir +:+ "/" +:+ p.

(** The names of an absolute path ([Path::components], less the root). *)
Definition components (p : string) : list string :=
  List.filter (fun c => negb (String.eqb c "" || String.eqb c ".")) (split_on "/"%char p).

Fixpoint strip_components (base p : list string) : option (list string) :=
  match base, p with
  | [], _ => Some p
  | b :: base, c :: p => if String.eqb b c then strip_components base p else None
  | _ :: _, [] => None
  end.

(** [Path::starts_with] and [strip_prefix] *)
Definition path_starts_with (p base : string) : bool :=
  match strip_components (components base) (components p) with Some _ => true | None => false end.
Definition path_strip_prefix (base p : string) : option (list string) :=
  strip_components (components base) (components p).

(** [Path::file_stem] of a name *)
Definition file_stem (name : string) : option string :=
  if String.eqb name ".." then None
  else match rsplit_once "."%char name with
       | None | Some ("", _) => Some name
       | Some (stem, _) => Some stem
       end.

(** The order of paths is that of their components. *)
Fixpoint components_leb (p q : list string) : bool :=
  match p, q with
  | [], _ => true
  | _ :: _, [] => false
  | a :: p, b :: q =>
      match String.compare a b with Lt => true | Gt => false | Eq => components_leb p q end
  end.
Definition path_le (p q : string) : Prop := components_leb (components p) (components q) = true.
#[export] Instance path_le_dec : RelDecision path_le := fun p q => decide (components_leb _ _ = true).

(** ** The file system *)

(** A link is given with what it leads to, if anything. *)
Inductive FsNode :=
  | FsFile (len : Z)
  | FsDir (entries : list (string * FsNode))
  | FsOther
  | FsLink (target : option FsNode).

Inductive IoError := NotFound | OtherIoError.
Definition io {A} (r : outcome IoError A) : result A := map_err (fun _ => AMsg "i/o error") r.

Class Fs := {
  fs_canonicalize : string -> outcome IoError string;
  fs_lookup : string -> option FsNode;
}.

(** [fs::metadata] follows links. *)
Fixpoint metadata (n : FsNode) : outcome IoError FsNode :=
  match n with
  | FsLink (Some t) => metadata t
  | FsLink None => Err NotFound
  | n => Ok n
  end.

Definition is_file (n : FsNode) : bool := match n with FsFile _ => true | _ => false end.

(** [fs::read_dir] *)
Definition fs_read_dir (n : FsNode) : outcome IoError (list (string * FsNode)) :=
  n ← metadata n;
  match n with FsDir entries => Ok entries | _ => Err OtherIoError end.

(** ** Routes *)

Record FileRoute := {
  fr_file_path : string;
  fr_path_pattern : string;
  fr_legacy_file_name : option string;
}.

(** [FileRouteMap::add_route]: empty files are left out. *)
Definition add_route (n : FsNode) (file_path path_pattern : string) (legacy_file_name : option string)
    (routes : list FileRoute) : result (list FileRoute) :=
  n ← io (metadata n);
  let len := match n with FsFile len => len | _ => 0%Z end in
  Ok (if (0 <? len)%Z then
        routes ++ [{| fr_file_path := file_path; fr_path_pattern := path_pattern;
                      fr_legacy_file_name := legacy_file_name |}]
      else routes).

Definition stem_to_pattern (stem : string) : string :=
  match (x ← strip_prefix "[" stem; strip_suffix "]" x) with
  | Some group_name => ":" +:+ group_name
  | None => stem
  end.

Definition try_is_file (n : option FsNode) : result bool :=
  match n with
  | None => Ok false
  | Some n =>
      match metadata n with
      | Ok metadata => Ok (is_file metadata)
      | Err NotFound => Ok false
      | Err e => io (Err e)
      | Panic w => Panic w
      end
  end.

Definition get_legacy_file_name (route_dir file_path : string) : option string :=
  relative_path ← path_strip_prefix route_dir file_path;
  name ← last relative_path;
  stem ← file_stem name;
  to_str (str_join "/" (removelast relative_path ++ [stem])).

(** [walk] is [walk_dir] on the entry. *)
Definition walk_dir_entry (walk : string -> string -> list FileRoute -> result (list FileRoute))
    (route_dir dir_path path_pattern : string) (route_map : list FileRoute) (entry_name : string) (entry : FsNode)
    : result (list FileRoute) :=
  entry_name ← option_context (to_str entry_name) "Cannot convert file name to UTF-8";
  if starts_with entry_name "_" || starts_with entry_name "." then Ok route_map
  else
    let entry_path := join dir_path entry_name in
    n ← with_context (io (metadata entry)) "Could not read metadata";
    match n with
    | FsFile _ =>
        match strip_suffix ".ts" entry_name with
        | Some stem =>
            let legacy_file_name := get_legacy_file_name route_dir entry_path in
            let pattern := if String.eqb stem "index" then path_pattern
                           else path_pattern +:+ "/" +:+ stem_to_pattern stem in
            add_route n entry_path pattern legacy_file_name route_map
        | None =>
            if ends_with entry_name ".js" then bail "only TypeScript files (.ts) are supported"
            else Ok route_map
        end
    | FsDir _ =>
        let dir_path_pattern := path_pattern +:+ "/" +:+ stem_to_pattern entry_name in
        with_context (walk entry_path dir_path_pattern route_map) "Could not read routes"
    | _ => Ok route_map
    end.

(** What is read of a directory, through links. *)
Fixpoint walk_dir (n : FsNode) (route_dir dir_path path_pattern : string) (route_map : list FileRoute)
    : result (list FileRoute) :=
  match n with
  | FsLink (Some t) => walk_dir t route_dir dir_path path_pattern route_map
  | FsDir entries =>
      let root_ts := alist_get "_root.ts" entries in
      root_is_file ← with_context (try_is_file root_ts) "Could not determine whether _root.ts exists";
      if (root_is_file : bool) then
        root ← option_context root_ts "not found";
        add_route root (join dir_path "_root.ts") path_pattern None route_map
      else
        foldM (fun route_map '(name, entry) =>
          walk_dir_entry (walk_dir entry route_dir) route_dir dir_path path_pattern route_map name entry)
          route_map entries
  | _ => _ ← io (fs_read_dir n); Ok route_map
  end.

Section Manifest.
Context {FS : Fs}.

Definition walk_route_dir (base_dir : string) (route_map : list FileRoute) (route_dir : string)
    : result (list FileRoute) :=
  route_dir ← with_context (io (fs_canonicalize (join base_dir route_dir))) "Could not canonicalize path";
  n ← option_context (fs_lookup route_dir) "not found";
  with_context (walk_dir n route_dir route_dir "" route_map) "Could not read routes".

Definition route_le (a b : FileRoute) : Prop := path_le (fr_file_path a) (fr_file_path b).
#[export] Instance route_le_dec : RelDecision route_le := fun a b => path_le_dec _ _.

Definition build_file_route_map (base_dir : string) (route_dirs : list string) : result (list FileRoute) :=
  routes ← foldM (walk_route_dir base_dir) [] route_dirs;
  Ok (merge_sort route_le routes).

(** ** Event handlers *)

Record FileTopic := { ft_file_path : string; ft_topic : string }.

Definition has_extension (p ext : string) : bool :=
  match extension p with Some e => String.eqb e ext | None => false end.

Definition add_topic (event_dir : string) (topics : list FileTopic) (entry : string * FsNode)
    : result (list FileTopic) :=
  let '(name, _) := entry in
  let entry_path := join event_dir name in
  if has_extension entry_path "ts" then
    match file_stem name with
    | None => Ok topics
    | Some stem =>
        topic ← option_context (to_str stem) "Filename is not in UTF-8";
        Ok (topics ++ [{| ft_file_path := entry_path; ft_topic := topic |}])
    end
  else if has_extension entry_path "js" then bail "only TypeScript files (.ts) are supported as event handlers"
  else Ok topics.

Definition walk_event_dir (base_dir : string) (topics : list FileTopic) (event_dir : string) : result (list FileTopic) :=
  event_dir ← with_context (io (fs_canonicalize (join base_dir event_dir))) "Could not canonicalize path";
  n ← option_context (fs_lookup event_dir) "not found";
  entries ← io (fs_read_dir n);
  foldM (add_topic event_dir) topics entries.

Definition build_file_topic_map (base_dir : string) (event_dirs : list string) : result (list FileTopic) :=
  foldM (walk_event_dir base_dir) [] event_dirs.

(** ** The manifest *)

Inductive ModuleStyle := NodeModules | DenoModules.
Record Manifest := {
  mf_models : list string;
  mf_routes : list string;
  mf_events : option (list string);
  mf_policies : list string;
  mf_modules : ModuleStyle;
  mf_optimize : bool;
  mf_auto_index : bool;
}.

Definition route_map (m : Manifest) (base_dir : string) : result (list FileRoute) :=
  with_context (build_file_route_map base_dir (mf_routes m)) "Could not read routes (endpoints) from filesystem".

(** A failure is printed as a warning. *)
Definition topic_map (m : Manifest) (base_dir : string) : result (list FileTopic) :=
  match mf_events m with
  | Some events =>
      match build_file_topic_map base_dir events with
      | Ok ret => Ok ret
      | Err _ => Ok []
      | Panic w => Panic w
      end
  | None => Ok []
  end.

Definition ignore_path (path : string) : bool :=
  starts_with path "." || ends_with path "~" || (starts_with path "#" && ends_with path "#").

(** [dir_to_paths]; [DirEntry::file_type] does not follow links. *)
Fixpoint dir_to_paths (n : FsNode) (dir : string) (paths : list string) : result (list string) :=
  match n with
  | FsDir entries =>
      foldM (fun paths '(name, entry) =>
        let path := join dir name in
        match entry with
        | FsDir _ => dir_to_paths entry path paths
        | _ =>
            if negb (match to_str name with Some s => ignore_path s | None => false end) then Ok (paths ++ [path])
            else Ok paths
        end) paths entries
  | _ => bail "Could not open"
  end.

Definition add_dir (base_dir : string) (paths : list string) (dir : string) : result (list string) :=
  _ ← ensure (is_relative dir) "dir is not relative to the current tree";
  dir ← match fs_canonicalize dir with
        | Ok d => Ok d
        | Err NotFound => Ok ""
        | Err e => io (Err e)
        | Panic w => Panic w
        end;
  if str_is_empty dir then Ok paths
  else
    _ ← ensure (bool_decide (components base_dir <> components dir) && path_starts_with dir base_dir)
          "dir has to be a subdirectory of the current directory";
    n ← option_context (fs_lookup dir) "not found";
    dir_to_paths n dir paths.

Definition dirs_to_paths (base_dir : string) (dirs : list string) : result (list string) :=
  paths ← foldM (add_dir base_dir) [] dirs;
  Ok (merge_sort path_le paths).

Definition models (m : Manifest) (base_dir : string) : result (list string) := dirs_to_paths base_dir (mf_models m).
Definition policies (m : Manifest) (base_dir : string) : result (list string) := dirs_to_paths base_dir (mf_policies m).

End Manifest.

(** ** The generated module *)

Section Codegen.
Context (import_fn : string -> result string).

Definition debug (s : string) : string := debug_str s.

Definition codegen_route (s : list string * nat) (route : FileRoute) : result (list string * nat) :=
  let '(lines, i) := s in
  let n := pretty i in
  import ← with_context (import_fn (fr_file_path route)) "Cannot convert path of route to a JavaScript import";
  let lines := lines ++ ["import route" +:+ n +:+ " from " +:+ debug import +:+ ";"] in
  let route_code :=
    match fr_legacy_file_name route with
    | Some legacy_file_name => "RouteMap.convert(route" +:+ n +:+ ", " +:+ debug legacy_file_name +:+ ")"
    | None => "RouteMap.convert(route" +:+ n +:+ ")"
    end in
  Ok (lines ++ ["routeMap.prefix(" +:+ debug (fr_path_pattern route) +:+ ", " +:+ route_code +:+ ");"], S i).

Definition codegen_route_map (lines : list string) (routes : list FileRoute) : result (list string) :=
  let lines := lines ++ ["import { RouteMap } from 'chisel://api/routing.ts';"; "";
                         "export const routeMap = new RouteMap();"] in
  '(lines, _) ← foldM codegen_route (lines, 0) routes;
  Ok (lines ++ [""]).

Definition codegen_topic (s : list string * nat) (topic : FileTopic) : result (list string * nat) :=
  let '(lines, i) := s in
  let n := pretty i in
  import ← with_context (import_fn (ft_file_path topic)) "Cannot convert path of event handler to a JavaScript import";
  let lines := lines ++ ["import eventHandler" +:+ n +:+ " from " +:+ debug import] in
  Ok (lines ++ ["topicMap.topic(" +:+ debug (ft_topic topic) +:+ ", eventHandler" +:+ n +:+ ");"], S i).

Definition codegen_topic_map (lines : list string) (topics : list FileTopic) : result (list string) :=
  let lines := lines ++ ["import { TopicMap } from 'chisel://api/kafka.ts';"; "";
                         "export const topicMap = new TopicMap();"] in
  '(lines, _) ← foldM codegen_topic (lines, 0) topics;
  Ok (lines ++ [""]).

Definition codegen_root_module (routes : list FileRoute) (topics : list FileTopic) : result string :=
  let lines := ["// this code is auto-generated by cli/src/codegen.rs"; ""] in
  lines ← codegen_route_map lines routes;
  lines ← codegen_topic_map lines topics;
  Ok (str_join newline lines).

End Codegen.

(** ** Copies for the bundler ([cmd/apply/common.rs])

    The path of the copy of a source file; the first directory is dropped, so
    that relative imports still work. *)

Definition copy_source (cwd gen_dir file_path : string) : result string :=
  file_rel_path ← option_context (path_strip_prefix cwd file_path) "File is not a part of this project";
  Ok (foldl join gen_dir (tail file_rel_path)).

Definition create_tmp_route_files (cwd gen_dir : string) (routes : list FileRoute) : result (list FileRoute) :=
  mapM (fun route =>
    file_path ← copy_source cwd gen_dir (fr_file_path route);
    Ok {| fr_file_path := file_path; fr_path_pattern := fr_path_pattern route;
          fr_legacy_file_name := fr_legacy_file_name route |}) routes.

Definition create_tmp_topic_files (cwd gen_dir : string) (topics : list FileTopic) : result (list FileTopic) :=
  mapM (fun topic =>
    file_path ← copy_source cwd gen_dir (ft_file_path topic);
    Ok {| ft_file_path := file_path; ft_topic := ft_topic topic |}) topics.

(** ** Waiting for the server ([server.rs])

    [attempt n] is what the call of the [n]th turn returns; times are in
    milliseconds.  [fuel] bounds the turns. *)
Fixpoint with_retry {T} (fuel : nat) (timeout : Z) (attempt : nat -> option T) (n : nat) (wait_time total : Z)
    : result T :=
  match fuel with
  | O => Panic "out of fuel"
  | S fuel =>
      match attempt n with
      | Some v => Ok v
      | None =>
          if (timeout <? total)%Z then bail "Timeout"
          else with_retry fuel timeout attempt (S n) (wait_time * 2) (total + wait_time)
      end
  end.

Definition TIMEOUT : Z := 120 * 1000.
