(* ===== verification/ProjectSpec.v ===== *)
(** * Which files are routes

    The routes of a directory tree, the copies made of them for the bundler, and
    the time the command line interface waits for a server. *)

From stdpp Require Import sorting.
From S2P Require Import Prelude Apply Project.

(** ** Paths *)

Lemma split_on_app_sep c a b : split_on c (a +:+ String c b) = split_on c a ++ split_on c b.
Proof.
  induction a as [|d a IH]; cbn; [by rewrite Ascii.eqb_refl|].
  destruct (Ascii.eqb d c); [by rewrite IH|]. rewrite IH.
  destruct (split_on c a) as [|p ps] eqn:E; [by apply split_on_not_nil in E|done].
Qed.

Lemma components_sep a b : components (a +:+ "/" +:+ b) = components a ++ components b.
Proof. unfold components. change ("/" +:+ b) with (String "/" b). by rewrite split_on_app_sep, List.filter_app. Qed.

(** A name that stands for itself in a path. *)
Definition plain_name (n : string) : Prop := n <> "" /\ n <> "." /\ no_char "/"%char n.

Lemma components_name n : plain_name n -> components n = [n].
Proof.
  intros (H1 & H2 & H3). unfold components. rewrite (split_on_no_sep _ _ H3). cbn.
  apply String.eqb_neq in H1, H2. by rewrite H1, H2.
Qed.

Lemma plain_relative n : plain_name n -> is_relative n = true.
Proof.
  intros (_ & _ & H). unfold is_relative. destruct (starts_with n "/") eqn:E; [|done].
  apply starts_with_iff in E as [r ->]. exfalso. apply H. by left.
Qed.

Lemma components_join dir n : dir <> "" -> plain_name n -> components (join dir n) = components dir ++ [n].
Proof.
  intros Hd Hn. unfold join. rewrite (plain_relative n Hn).
  destruct dir as [|c dir]; [done|]. cbn [str_is_empty negb orb].
  destruct (ends_with (String c dir) "/") eqn:E.
  - assert (strip_suffix "/" (String c dir) <> None) as Hs by (unfold strip_suffix; by rewrite E).
    destruct (strip_suffix "/" (String c dir)) as [r|] eqn:Er; [|done]. apply strip_suffix_some in Er. rewrite Er.
    rewrite str_app_assoc, components_sep, (components_name n Hn). change "/" with ("/" +:+ ""). rewrite components_sep.
    by rewrite app_nil_r.
  - by rewrite components_sep, (components_name n Hn).
Qed.

Lemma join_not_empty dir n : dir <> "" -> join dir n <> "" \/ n = "".
Proof.
  intros Hd. destruct n as [|c n]; [by right|]. left. unfold join.
  destruct (negb _ || _); [done|]. destruct (ends_with dir "/"); by destruct dir.
Qed.

(** A path below a directory. *)
Definition below (dir : string) (names : list string) : string := foldl join dir names.

Lemma below_components dir names : dir <> "" -> Forall plain_name names ->
  components (below dir names) = components dir ++ names /\ below dir names <> "".
Proof.
  intros Hd H. revert dir Hd. induction H as [|n names Hn _ IH]; intros dir Hd; [by rewrite app_nil_r|].
  change (below dir (n :: names)) with (below (join dir n) names).
  destruct (join_not_empty dir n Hd) as [Hj| ->]; [|by destruct Hn].
  destruct (IH (join dir n) Hj) as [-> ?]. split; [|done].
  rewrite components_join by done. by rewrite <- app_assoc.
Qed.

Lemma strip_components_app base p : strip_components base (base ++ p) = Some p.
Proof. induction base as [|b base IH]; [done|]. cbn. by rewrite String.eqb_refl. Qed.

Lemma below_strip dir names : dir <> "" -> Forall plain_name names ->
  path_strip_prefix dir (below dir names) = Some names.
Proof.
  intros Hd H. unfold path_strip_prefix. destruct (below_components dir names Hd H) as [-> _]. apply strip_components_app.
Qed.

Lemma rsplit_once_last c a b : no_char c b -> rsplit_once c (a +:+ String c b) = Some (a, b).
Proof.
  intros Hb. induction a as [|d a IH]; cbn.
  - assert (rsplit_once c b = None) as ->; [|by rewrite Ascii.eqb_refl].
    clear -Hb. unfold no_char in Hb. induction b as [|d b IH]; [done|]. cbn in Hb |- *.
    rewrite IH by tauto. destruct (Ascii.eqb_spec d c) as [->|]; [tauto|done].
  - by rewrite IH.
Qed.

Lemma file_stem_ts stem : stem <> "" -> file_stem (stem +:+ ".ts") = Some stem.
Proof.
  intros Hne. unfold file_stem. rewrite rsplit_once_last by (intros [|[|[]]]; done).
  destruct stem as [|c stem]; [done|]. destruct (String.eqb_spec (String c stem +:+ ".ts") "..") as [E|]; [|done].
  exfalso. apply (f_equal String.length) in E. rewrite str_length_app in E. cbn in E. lia.
Qed.

(** The legacy name of a file: its relative path without the extension. *)
Lemma legacy_name route_dir dirs stem : route_dir <> "" -> Forall plain_name dirs -> plain_name (stem +:+ ".ts") ->
  stem <> "" ->
  get_legacy_file_name route_dir (below route_dir (dirs ++ [stem +:+ ".ts"])) = to_str (str_join "/" (dirs ++ [stem])).
Proof.
  intros Hr Hd Hn Hs. unfold get_legacy_file_name.
  rewrite below_strip; [|done|apply Forall_app; by split; [|apply Forall_singleton]]. cbn [mbind option_bind].
  rewrite last_snoc. cbn [mbind option_bind]. rewrite file_stem_ts by done. cbn [mbind option_bind].
  by rewrite removelast_last.
Qed.

Lemma components_leb_total p : forall q, components_leb p q = true \/ components_leb q p = true.
Proof.
  induction p as [|a p IH]; intros q; [by left|]. destruct q as [|b q]; [by right|]. cbn.
  rewrite (String.compare_antisym b a). destruct (String.compare a b); cbn; [apply IH|by left|by right].
Qed.

(** ** The routes of a tree *)

Section FsNodeInd.
Context (P : FsNode -> Prop).
Context (Hfile : forall len, P (FsFile len)) (Hdir : forall es, Forall (fun e => P e.2) es -> P (FsDir es)).
Context (Hother : P FsOther) (Hlink : forall t, P t -> P (FsLink (Some t))) (Hnone : P (FsLink None)).

Fixpoint fs_nested_ind (n : FsNode) : P n :=
  match n with
  | FsFile len => Hfile len
  | FsDir es => Hdir es
      ((fix go es : Forall (fun e => P e.2) es := match es with
        | [] => List.Forall_nil _
        | e :: es => List.Forall_cons _ _ _ (fs_nested_ind e.2) (go es)
        end) es)
  | FsOther => Hother
  | FsLink (Some t) => Hlink t (fs_nested_ind t)
  | FsLink None => Hnone
  end.
End FsNodeInd.

(** Names in a directory stand for themselves. *)
Inductive wf_tree : FsNode -> Prop :=
  | wf_file len : wf_tree (FsFile len)
  | wf_other : wf_tree FsOther
  | wf_dangling : wf_tree (FsLink None)
  | wf_link t : wf_tree t -> wf_tree (FsLink (Some t))
  | wf_dir es : Forall (fun e => plain_name e.1) es -> Forall (fun e => wf_tree e.2) es -> wf_tree (FsDir es).

(** Files that are not hidden, and have a name. *)
Definition visible (name : string) : Prop :=
  valid_utf8 name = true /\ starts_with name "_" = false /\ starts_with name "." = false.

(** A file [_root.ts] takes over its directory. *)
Definition has_root (es : list (string * FsNode)) : Prop :=
  exists n len, alist_get "_root.ts" es = Some n /\ metadata n = Ok (FsFile len).

Definition child_pattern (pattern stem : string) : string := pattern +:+ "/" +:+ stem_to_pattern stem.

(** The file at a relative path is a route with a pattern; [root] tells a
    [_root.ts]. *)
Inductive routed : FsNode -> string -> list string -> string -> bool -> Prop :=
  | routed_link t pat names pat' root : routed t pat names pat' root -> routed (FsLink (Some t)) pat names pat' root
  | routed_root es n len pat : alist_get "_root.ts" es = Some n -> metadata n = Ok (FsFile len) -> (0 < len)%Z ->
      routed (FsDir es) pat ["_root.ts"] pat true
  | routed_in es e pat names pat' root : ~ has_root es -> e ∈ es -> routed_entry e pat names pat' root ->
      routed (FsDir es) pat names pat' root
with routed_entry : string * FsNode -> string -> list string -> string -> bool -> Prop :=
  | routed_file stem n len pat : visible (stem +:+ ".ts") -> metadata n = Ok (FsFile len) -> (0 < len)%Z ->
      routed_entry (stem +:+ ".ts", n) pat [stem +:+ ".ts"]
        (if String.eqb stem "index" then pat else child_pattern pat stem) false
  | routed_dir name n es pat names pat' root : visible name -> metadata n = Ok (FsDir es) ->
      routed n (child_pattern pat name) names pat' root -> routed_entry (name, n) pat (name :: names) pat' root.

(** What makes the walk fail. *)
Inductive broken : FsNode -> Prop :=
  | broken_link t : broken t -> broken (FsLink (Some t))
  | broken_in es e : ~ has_root es -> e ∈ es -> broken_entry e -> broken (FsDir es)
with broken_entry : string * FsNode -> Prop :=
  | broken_name name n : valid_utf8 name = false -> broken_entry (name, n)
  | broken_dangling name n : visible name -> is_ok (metadata n) = false -> broken_entry (name, n)
  | broken_js name n len : visible name -> metadata n = Ok (FsFile len) -> strip_suffix ".ts" name = None ->
      ends_with name ".js" = true -> broken_entry (name, n)
  | broken_dir name n es : visible name -> metadata n = Ok (FsDir es) -> broken n -> broken_entry (name, n).

(** The route of a file. *)
Definition legacy_of (names : list string) : option string :=
  name ← last names;
  stem ← strip_suffix ".ts" name;
  to_str (str_join "/" (removelast names ++ [stem])).
Definition route_at (route_dir : string) (names : list string) (pattern : string) (root : bool) : FileRoute :=
  {| fr_file_path := below route_dir names; fr_path_pattern := pattern;
     fr_legacy_file_name := if root then None else legacy_of names |}.

Lemma metadata_result n : metadata n = Err NotFound \/ exists m, metadata n = Ok m /\ (forall t, m <> FsLink t) /\ metadata m = Ok m.
Proof.
  revert n. fix IH 1. intros [len|es| |[t|]]; try (right; eexists; split; [reflexivity|]; by split); [|by left].
  exact (IH t).
Qed.

(** What a step of a loop collects. *)
Definition collects {A} (r : result (list A)) (acc : list A) (P : A -> Prop) (Q : Prop) : Prop :=
  match r with
  | Ok rs => ~ Q /\ exists new, rs = acc ++ new /\ forall x, x ∈ new <-> P x
  | Err _ => Q
  | Panic _ => False
  end.

Lemma collects_loop {A B} (f : list B -> A -> result (list B)) (P : A -> B -> Prop) (Q : A -> Prop) l :
  (forall x acc, x ∈ l -> collects (f acc x) acc (P x) (Q x)) ->
  forall acc, collects (foldM f acc l) acc (fun b => exists x, x ∈ l /\ P x b) (exists x, x ∈ l /\ Q x).
Proof.
  induction l as [|x l IH]; intros Hf acc; cbn [foldM].
  { split; [by intros (x & ?%not_elem_of_nil & _)|]. exists []. rewrite app_nil_r. split; [done|].
    intros b. rewrite elem_of_nil. split; [done|]. by intros (x & ?%not_elem_of_nil & _). }
  pose proof (Hf x acc ltac:(by left)) as Hx. unfold collects in Hx.
  destruct (f acc x) as [rs|e|w]; cbn; [|exists x; by split; [left|]|done].
  destruct Hx as (Hq & new & -> & Hnew).
  assert (forall y acc', y ∈ l -> collects (f acc' y) acc' (P y) (Q y)) as Hl by (intros; apply Hf; by right).
  specialize (IH Hl (acc ++ new)). unfold collects in IH |- *. destruct (foldM f (acc ++ new) l) as [rs|e|w]; [| |done].
  - destruct IH as (Hq2 & new2 & -> & Hnew2). split.
    + intros (y & [->|Hy]%elem_of_cons & H); [done|]. apply Hq2. by exists y.
    + exists (new ++ new2). rewrite app_assoc. split; [done|]. intros b. rewrite elem_of_app, Hnew, Hnew2. split.
      * intros [H|(y & Hy & H)]; [exists x; by split; [left|]|exists y; by split; [right|]].
      * intros (y & [->|Hy]%elem_of_cons & H); [by left|right; by exists y].
  - destruct IH as (y & Hy & H). exists y. by split; [right|].
Qed.

(** The collected routes of a tree below a directory. *)
Definition walk_ok (n : FsNode) : Prop :=
  forall route_dir dirs pat acc, route_dir <> "" -> Forall plain_name dirs ->
    collects (walk_dir n route_dir (below route_dir dirs) pat acc) acc
      (fun r => exists names pat' root, routed n pat names pat' root /\ r = route_at route_dir (dirs ++ names) pat' root)
      (broken n).

Lemma below_snoc route_dir dirs name : join (below route_dir dirs) name = below route_dir (dirs ++ [name]).
Proof. unfold below. by rewrite foldl_app. Qed.

Lemma routed_entry_inv name n pat names pat' root : routed_entry (name, n) pat names pat' root <->
  visible name /\
  ((exists stem len, strip_suffix ".ts" name = Some stem /\ metadata n = Ok (FsFile len) /\ (0 < len)%Z /\
      names = [name] /\ pat' = (if String.eqb stem "index" then pat else child_pattern pat stem) /\ root = false) \/
   (exists es names', metadata n = Ok (FsDir es) /\ routed n (child_pattern pat name) names' pat' root /\
      names = name :: names')).
Proof.
  split.
  - inversion 1; subst; (split; [done|]); [left|right; by eexists _, _].
    eexists _, _. rewrite strip_suffix_app. done.
  - intros [Hv [(stem & len & ->%strip_suffix_some & Hm & Hl & -> & -> & ->)|(es & names' & Hm & Hr & ->)]].
    + by eapply routed_file.
    + by eapply routed_dir.
Qed.

Lemma broken_entry_inv name n : broken_entry (name, n) <->
  valid_utf8 name = false \/ visible name /\
  (is_ok (metadata n) = false \/
   (exists len, metadata n = Ok (FsFile len) /\ strip_suffix ".ts" name = None /\ ends_with name ".js" = true) \/
   (exists es, metadata n = Ok (FsDir es) /\ broken n)).
Proof.
  split.
  - inversion 1; subst; [by left|right; split; [done|]..]; [by left|right; left; by eexists|right; right; by eexists].
  - intros [H|[Hv [H|[(len & Hm & Hs & He)|(es & Hm & Hb)]]]];
      [by apply broken_name|by apply broken_dangling|by eapply broken_js|by eapply broken_dir].
Qed.

Lemma collects_nothing {A} (acc : list A) (P : A -> Prop) (Q : Prop) : ~ Q -> (forall x, ~ P x) -> collects (Ok acc) acc P Q.
Proof.
  intros HQ HP. split; [done|]. exists []. rewrite app_nil_r. split; [done|]. intros x. rewrite elem_of_nil.
  split; [done|]. apply HP.
Qed.

Lemma collects_iff {A} (r : result (list A)) acc (P P' : A -> Prop) (Q Q' : Prop) :
  (forall x, P x <-> P' x) -> (Q <-> Q') -> collects r acc P Q -> collects r acc P' Q'.
Proof.
  intros HP HQ. unfold collects. destruct r as [rs|e|w]; [|by rewrite HQ|done].
  intros [Hno (new & -> & Hnew)]. split; [by rewrite <- HQ|]. exists new. split; [done|]. intros x. by rewrite Hnew.
Qed.

Lemma collects_context {A} (r : result (list A)) msg acc P Q : collects r acc P Q -> collects (with_context r msg) acc P Q.
Proof. by destruct r. Qed.

(** A file that ends in [.ts]. *)
Lemma file_collects route_dir dirs pat acc name stem n len : route_dir <> "" -> Forall plain_name dirs -> plain_name name ->
  visible name -> metadata n = Ok (FsFile len) -> strip_suffix ".ts" name = Some stem ->
  collects (add_route (FsFile len) (join (below route_dir dirs) name)
      (if String.eqb stem "index" then pat else child_pattern pat stem)
      (get_legacy_file_name route_dir (join (below route_dir dirs) name)) acc) acc
    (fun r => exists names pat' root, routed_entry (name, n) pat names pat' root /\
       r = route_at route_dir (dirs ++ names) pat' root) (broken_entry (name, n)).
Proof.
  intros Hr Hd Hn Hv Hm Hs. pose proof Hs as Hname. apply strip_suffix_some in Hname as ->.
  assert (stem <> "") as Hne by (intros ->; by destruct Hv as (_ & _ & ?)).
  assert (~ broken_entry (stem +:+ ".ts", n)) as Hnb.
  { rewrite broken_entry_inv, Hm, Hs. destruct Hv as (Hu & _). rewrite Hu.
    intros [H|[_ [H|[(? & _ & H & _)|(? & H & _)]]]]; done. }
  rewrite below_snoc, legacy_name by done. unfold add_route. cbn.
  destruct (Z.ltb_spec 0 len) as [Hl|Hl].
  - split; [done|]. eexists. split; [done|]. intros r. rewrite list_elem_of_singleton. split.
    + intros ->. eexists _, _, _. split.
      * apply routed_entry_inv. split; [done|]. left. by exists stem, len.
      * unfold route_at, legacy_of. rewrite last_snoc. cbn. rewrite Hs. cbn. by rewrite removelast_last.
    + intros (names & pat' & root & [_ H]%routed_entry_inv & ->). rewrite Hs, Hm in H.
      destruct H as [(stem' & len' & [= <-] & _ & _ & -> & -> & ->)|(? & ? & ? & _)]; [|done].
      unfold route_at, legacy_of. rewrite last_snoc. cbn. rewrite Hs. cbn. by rewrite removelast_last.
  - apply collects_nothing; [done|]. intros r (names & pat' & root & [_ H]%routed_entry_inv & ->). rewrite Hm in H.
    destruct H as [(stem' & len' & _ & [= <-] & H & _)|(? & ? & ? & _)]; [lia|done].
Qed.

Lemma entry_collects route_dir dirs pat acc name n : route_dir <> "" -> Forall plain_name dirs -> plain_name name ->
  (forall es, metadata n = Ok (FsDir es) -> walk_ok n) ->
  collects (walk_dir_entry (walk_dir n route_dir) route_dir (below route_dir dirs) pat acc name n) acc
    (fun r => exists names pat' root, routed_entry (name, n) pat names pat' root /\
       r = route_at route_dir (dirs ++ names) pat' root) (broken_entry (name, n)).
Proof.
  intros Hr Hd Hn IH. unfold walk_dir_entry, to_str.
  destruct (valid_utf8 name) eqn:Hu; [|by apply broken_name].
  change (option_context (Some name) "Cannot convert file name to UTF-8") with (@Ok anyhow string name).
  change (Ok name ≫= ?k) with (k name). cbv beta.
  destruct (starts_with name "_" || starts_with name ".") eqn:Hh.
  { assert (~ visible name) as Hv by (intros (_ & H1 & H2); by rewrite H1, H2 in Hh).
    apply collects_nothing; [rewrite broken_entry_inv, Hu; by intros [|[? _]]|].
    intros r (names & pat' & root & [? _]%routed_entry_inv & _). done. }
  apply orb_false_elim in Hh as [H1 H2]. assert (visible name) as Hv by done.
  destruct (metadata_result n) as [Hm|(m & Hm & Hl & Hmm)]; rewrite Hm; [by apply broken_dangling; [|rewrite Hm]|].
  change (with_context (io (Ok m)) "Could not read metadata") with (@Ok anyhow FsNode m).
  change (Ok m ≫= ?k) with (k m). cbv beta.
  destruct m as [len|es| |t]; [| | |by destruct (Hl t)].
  - destruct (strip_suffix ".ts" name) as [stem|] eqn:Hs; [by apply file_collects|].
    destruct (ends_with name ".js") eqn:He; [by eapply broken_js|].
    apply collects_nothing; [rewrite broken_entry_inv, Hu, Hm, Hs, He|].
    + intros [|[_ [|[(? & _ & _ & ?)|(? & ? & _)]]]]; done.
    + intros r (names & pat' & root & [_ H]%routed_entry_inv & _). rewrite Hs, Hm in H.
      by destruct H as [(? & ? & ? & _)|(? & ? & ? & _)].
  - apply collects_context. rewrite below_snoc.
    eapply collects_iff; [| |apply (IH es Hm route_dir (dirs ++ [name])); [done|by apply Forall_app; split; [|apply Forall_singleton]]].
    + intros r. split.
      * intros (names & pat' & root & H & ->). exists (name :: names), pat', root. rewrite <- app_assoc. split; [|done].
        apply routed_entry_inv. split; [done|]. right. by exists es, names.
      * intros (names & pat' & root & [_ H]%routed_entry_inv & ->). rewrite Hm in H.
        destruct H as [(? & ? & _ & ? & _)|(es' & names' & _ & H & ->)]; [done|].
        exists names', pat', root. by rewrite <- app_assoc.
    + rewrite broken_entry_inv, Hu, Hm. split; [intros H; right; split; [done|]; right; right; by exists es|].
      intros [|[_ [|[(? & ? & _)|(? & _ & ?)]]]]; done.
  - apply collects_nothing; [rewrite broken_entry_inv, Hu, Hm|].
    + intros [|[_ [|[(? & ? & _)|(? & ? & _)]]]]; done.
    + intros r (names & pat' & root & [_ H]%routed_entry_inv & _). rewrite Hm in H.
      by destruct H as [(? & ? & _ & ? & _)|(? & ? & ? & _)].
Qed.

Lemma try_is_file_ok es : exists b, try_is_file (alist_get "_root.ts" es) = Ok b /\ (b = true <-> has_root es).
Proof.
  unfold try_is_file, has_root. destruct (alist_get "_root.ts" es) as [n|] eqn:E.
  - destruct (metadata_result n) as [Hm|(m & Hm & _)]; rewrite Hm.
    + exists false. split; [done|]. split; [done|]. intros (n' & len & [= <-] & ?). congruence.
    + exists (is_file m). split; [done|]. split.
      * destruct m as [len|es'| |t]; try done. intros _. by exists n, len.
      * intros (n' & len & [= <-] & H). rewrite Hm in H. by injection H as ->.
  - exists false. split; [done|]. split; [done|]. by intros (n' & len & ? & _).
Qed.

Lemma dir_collects es : Forall (fun e => plain_name e.1) es ->
  Forall (fun e => forall es', metadata e.2 = Ok (FsDir es') -> walk_ok e.2) es -> walk_ok (FsDir es).
Proof.
  intros Hnames IH route_dir dirs pat acc Hr Hd. cbn [walk_dir].
  destruct (try_is_file_ok es) as ([] & Ht & Hroot); rewrite Ht;
    change (with_context (Ok ?b) ?m ≫= ?k) with (k b); cbv beta iota.
  - destruct (proj1 Hroot eq_refl) as (n & len & Hn & Hm). rewrite Hn.
    change (option_context (Some n) "not found" ≫= ?k) with (k n). cbv beta. unfold add_route. rewrite Hm. cbn.
    rewrite below_snoc.
    assert (~ broken (FsDir es)) as Hnb by (inversion 1 as [|es1 e Hno]; subst; by apply Hno, Hroot).
    assert (forall names pat' root, routed (FsDir es) pat names pat' root <->
      (0 < len)%Z /\ names = ["_root.ts"] /\ pat' = pat /\ root = true) as Hrt.
    { intros names pat' root. split.
      - inversion 1 as [|es' n' len' pat1 Hn' Hm' Hl|es' e pat1 names1 pat1' root1 Hno]; subst; [|by destruct (Hno (proj1 Hroot eq_refl))].
        rewrite Hn in Hn'. injection Hn' as <-. rewrite Hm in Hm'. by injection Hm' as <-.
      - intros (Hl & -> & -> & ->). by eapply routed_root. }
    destruct (Z.ltb_spec 0 len) as [Hl|Hl].
    + split; [done|]. eexists. split; [done|]. intros r. rewrite list_elem_of_singleton. split.
      * intros ->. exists ["_root.ts"], pat, true. split; [by apply Hrt|done].
      * by intros (names & pat' & root & (_ & -> & -> & ->)%Hrt & ->).
    + apply collects_nothing; [done|]. intros r (names & pat' & root & [? _]%Hrt & _). lia.
  - assert (~ has_root es) as Hno by (intros H; by apply Hroot in H).
    eapply collects_iff; [| |apply (collects_loop _ (fun e r => exists names pat' root,
      routed_entry e pat names pat' root /\ r = route_at route_dir (dirs ++ names) pat' root) broken_entry)].
    + intros r. split.
      * intros (e & He & names & pat' & root & H & ->). exists names, pat', root. split; [by eapply routed_in|done].
      * intros (names & pat' & root & H & ->).
        inversion H as [|es' n' len' pat1 Hn' Hm' Hl|es' e pat1 names1 pat1' root1 Hno1 He H1]; subst;
          [destruct Hno; by eexists _, _|]. exists e. split; [done|]. by exists names, pat', root.
    + split.
      * intros (e & He & H). by eapply broken_in.
      * inversion 1; subst. eauto.
    + intros [name n] acc' He. rewrite Forall_forall in Hnames, IH. apply entry_collects; [done|done|by apply (Hnames _ He)|].
      by apply (IH _ He).
Qed.

Lemma walk_collects n : wf_tree n -> forall es, metadata n = Ok (FsDir es) -> walk_ok n.
Proof.
  induction n as [len|es IH| |t IH|] using fs_nested_ind; intros Hwf es' Hm; cbn in Hm; try done.
  - inversion Hwf as [| | | |es1 Hnames Hsub]; subst. apply dir_collects; [done|].
    apply Forall_forall. intros e He es1 Hm1. rewrite Forall_forall in IH, Hsub.
    by eapply (IH e He); [apply Hsub|].
  - inversion Hwf; subst. intros route_dir dirs pat acc Hr Hd. cbn [walk_dir].
    eapply collects_iff; [| |by apply (IH ltac:(done) es' Hm route_dir dirs pat acc)].
    + intros r. split; intros (names & pat' & root & H & ->); exists names, pat', root; (split; [|done]).
      * by apply routed_link.
      * by inversion H.
    + split; [by apply broken_link|by inversion 1].
Qed.

(** ** The routes of a project *)

Section RouteMap.
Context {FS : Fs} (base_dir : string).

(** A directory of routes, found in the file system. *)
Definition route_tree (dir route_dir : string) (n : FsNode) : Prop :=
  fs_canonicalize (join base_dir dir) = Ok route_dir /\ fs_lookup route_dir = Some n /\ route_dir <> "" /\
  wf_tree n /\ exists es, metadata n = Ok (FsDir es).

(** The files under the route directories that are routes are those the
    documentation lists, with their patterns: a file [x.ts] stands for its name
    below the pattern of its directory, [index.ts] for the directory, a name in
    brackets for a wildcard, and [_root.ts] for all of its directory; hidden and
    empty files are none.  The map has exactly these, in the order of their
    paths.  It cannot be built just when a visible file is written in JavaScript,
    a visible link leads nowhere or a name is not UTF-8, outside of the
    directories with a [_root.ts]. *)
Theorem build_file_route_map_spec dirs :
  (forall dir, dir ∈ dirs -> exists route_dir n, route_tree dir route_dir n) ->
  match build_file_route_map base_dir dirs with
  | Ok routes =>
      Sorted route_le routes /\
      (forall r, r ∈ routes <-> exists dir route_dir n names pat root, dir ∈ dirs /\ route_tree dir route_dir n /\
         routed n "" names pat root /\ r = route_at route_dir names pat root) /\
      forall dir route_dir n, dir ∈ dirs -> route_tree dir route_dir n -> ~ broken n
  | Err _ => exists dir route_dir n, dir ∈ dirs /\ route_tree dir route_dir n /\ broken n
  | Panic _ => False
  end.
Proof.
  intros Htrees. unfold build_file_route_map.
  assert (forall dir route_dir n route_dir' n', route_tree dir route_dir n -> route_tree dir route_dir' n' ->
    route_dir' = route_dir /\ n' = n) as Hfun.
  { intros dir rd n rd' n' (H1 & H2 & _) (H1' & H2' & _). rewrite H1 in H1'. injection H1' as ->.
    rewrite H2 in H2'. by injection H2' as ->. }
  pose proof (collects_loop (walk_route_dir base_dir)
    (fun dir r => exists route_dir n names pat root, route_tree dir route_dir n /\ routed n "" names pat root /\
       r = route_at route_dir names pat root)
    (fun dir => exists route_dir n, route_tree dir route_dir n /\ broken n) dirs) as Hloop.
  assert (forall dir acc, dir ∈ dirs -> collects (walk_route_dir base_dir acc dir) acc
    (fun r => exists route_dir n names pat root, route_tree dir route_dir n /\ routed n "" names pat root /\
       r = route_at route_dir names pat root) (exists route_dir n, route_tree dir route_dir n /\ broken n)) as Hstep.
  { intros dir acc Hdir. destruct (Htrees dir Hdir) as (rd & n & Ht). pose proof Ht as (Hc & Hl & Hne & Hwf & es & Hm).
    unfold walk_route_dir. rewrite Hc. change (with_context (io (Ok rd)) ?m ≫= ?k) with (k rd). cbv beta. rewrite Hl.
    change (option_context (Some n) ?m ≫= ?k) with (k n). cbv beta. apply collects_context.
    eapply collects_iff; [| |apply (walk_collects n Hwf es Hm rd [] "" acc Hne); constructor].
    - intros r. split.
      + intros (names & pat & root & H & ->). by exists rd, n, names, pat, root.
      + intros (rd' & n' & names & pat & root & Ht' & H & ->). destruct (Hfun _ _ _ _ _ Ht Ht') as [-> ->].
        by exists names, pat, root.
    - split; [intros H; by exists rd, n|]. intros (rd' & n' & Ht' & H).
      by destruct (Hfun _ _ _ _ _ Ht Ht') as [-> ->]. }
  specialize (Hloop Hstep []). unfold collects in Hloop.
  destruct (foldM (walk_route_dir base_dir) [] dirs) as [rs|e|w]; [| |done]; cbn.
  - destruct Hloop as (Hno & new & -> & Hnew). split; [|split].
    + apply Sorted_merge_sort. intros a b. unfold route_le, path_le. apply components_leb_total.
    + intros r. rewrite merge_sort_Permutation. cbn. rewrite Hnew. split.
      * intros (dir & Hd & rd & n & names & pat & root & H). by exists dir, rd, n, names, pat, root.
      * intros (dir & rd & n & names & pat & root & Hd & H). exists dir. split; [done|]. by exists rd, n, names, pat, root.
    + intros dir rd n Hd Ht Hb. apply Hno. exists dir. split; [done|]. by exists rd, n.
  - destruct Hloop as (dir & Hd & rd & n & H). by exists dir, rd, n.
Qed.

End RouteMap.

(** ** Copies for the bundler *)

Lemma tmp_copies_collide cwd gen_dir dir1 dir2 names : cwd <> "" -> plain_name dir1 -> plain_name dir2 ->
  Forall plain_name names ->
  copy_source cwd gen_dir (below cwd (dir1 :: names)) = Ok (below gen_dir names) /\
  copy_source cwd gen_dir (below cwd (dir2 :: names)) = Ok (below gen_dir names).
Proof.
  intros Hc H1 H2 Hn. unfold copy_source. rewrite !below_strip by (done || by constructor). by split.
Qed.

(** Within one directory of the project different routes have different copies. *)
Lemma tmp_copies_distinct cwd gen_dir dir names1 names2 p : cwd <> "" -> gen_dir <> "" -> plain_name dir ->
  Forall plain_name names1 -> Forall plain_name names2 ->
  copy_source cwd gen_dir (below cwd (dir :: names1)) = Ok p ->
  copy_source cwd gen_dir (below cwd (dir :: names2)) = Ok p -> names1 = names2.
Proof.
  intros Hc Hg Hd H1 H2 E1 E2. unfold copy_source in E1, E2.
  rewrite below_strip in E1, E2 by (done || by constructor). injection E1 as <-. injection E2 as E2.
  apply (f_equal components) in E2. change (foldl join gen_dir ?l) with (below gen_dir l) in E2.
  rewrite (proj1 (below_components gen_dir names1 Hg H1)), (proj1 (below_components gen_dir names2 Hg H2)) in E2.
  by apply app_inv_head in E2.
Qed.

(** ** Waiting for the server *)

(** The first attempt that succeeds, of [k] from the [n]th on. *)
Fixpoint first_success {T} (attempt : nat -> option T) (n k : nat) : option T :=
  match k with
  | O => None
  | S k => match attempt n with Some v => Some v | None => first_success attempt (S n) k end
  end.

Lemma with_retry_turns {T} timeout (attempt : nat -> option T) k : forall n fuel,
  (2 ^ Z.of_nat (n + k) - 1 > timeout)%Z -> (k = 0%nat \/ (2 ^ Z.of_nat (n + k - 1) - 1 <= timeout)%Z) -> k < fuel ->
  with_retry fuel timeout attempt n (2 ^ Z.of_nat n) (2 ^ Z.of_nat n - 1) =
    match first_success attempt n (S k) with Some v => Ok v | None => bail "Timeout" end.
Proof.
  induction k as [|k IH]; intros n fuel Hgt Hle Hfuel; (destruct fuel as [|fuel]; [lia|]); cbn [with_retry first_success].
  - rewrite Nat.add_0_r in Hgt. destruct (attempt n); [done|]. by rewrite (proj2 (Z.ltb_lt _ _)) by lia.
  - destruct (attempt n) as [v|]; [done|]. destruct Hle as [Hle|Hle]; [lia|].
    assert (2 ^ Z.of_nat n <= 2 ^ Z.of_nat (n + S k - 1))%Z as Hmono by (apply Z.pow_le_mono_r; lia).
    rewrite (proj2 (Z.ltb_ge _ _)) by lia.
    assert (2 ^ Z.of_nat n * 2 = 2 ^ Z.of_nat (S n))%Z as -> by (rewrite Nat2Z.inj_succ, Z.pow_succ_r by lia; lia).
    assert (2 ^ Z.of_nat n - 1 + 2 ^ Z.of_nat n = 2 ^ Z.of_nat (S n) - 1)%Z as ->
      by (rewrite Nat2Z.inj_succ, Z.pow_succ_r by lia; lia).
    rewrite IH; [done| |destruct k; [by left|right]|lia].
    + by replace (S n + k)%nat with (n + S k)%nat by lia.
    + by replace (S n + S k - 1)%nat with (n + S (S k) - 1)%nat by lia.
Qed.

(** Waiting for the server ends: the doubling of the waits from one
    millisecond lets at most 18 attempts into the timeout of two minutes, and the
    outcome is that of the first attempt that succeeds, or a timeout when none of
    the 18 does. *)
Theorem with_retry_spec {T} (attempt : nat -> option T) fuel : 18 <= fuel ->
  with_retry fuel TIMEOUT attempt 0 1 0 =
    match first_success attempt 0 18 with Some v => Ok v | None => bail "Timeout" end.
Proof.
  intros Hfuel. rewrite <- (with_retry_turns TIMEOUT attempt 17 0 fuel); [done|..]; unfold TIMEOUT; cbn; lia.
Qed.

Lemma with_retry_spec_witness :
  with_retry 18 TIMEOUT (fun n => if n =? 5 then Some "up" else None) 0 1 0 = Ok "up".
Proof. rewrite (with_retry_spec _ 18); [reflexivity|lia]. Defined.

(** ** Witness *)

Module ProjectSample.

Definition file : FsNode := FsFile 10.
Definition user : FsNode :=
  FsDir [("by-id.ts", file); ("index.ts", file); ("[id].ts", FsLink (Some file)); ("[id]", FsDir [("posts.ts", file)])].
Definition tree : FsNode :=
  FsDir [("user", user); ("admin", FsDir [("index.ts", file); ("_root.ts", file)]); ("_lib.ts", file);
         ("empty.ts", FsFile 0); ("readme.md", file)].

#[export] Instance fs : Fs := {
  fs_canonicalize p := if String.eqb p "/app/routes" then Ok "/app/routes" else Err NotFound;
  fs_lookup p := if String.eqb p "/app/routes" then Some tree else None;
}.

Definition plain_nameb (n : string) : bool :=
  negb (String.eqb n "") && negb (String.eqb n ".") && forallb (fun c => negb (Ascii.eqb c "/"%char)) (String.list_ascii_of_string n).
Lemma plain_nameb_ok n : plain_nameb n = true -> plain_name n.
Proof.
  intros [[H1%negb_true_iff%String.eqb_neq H2%negb_true_iff%String.eqb_neq]%andb_prop H3]%andb_prop.
  split; [done|split; [done|]]. intros Hin. rewrite forallb_forall in H3. by apply H3 in Hin.
Qed.

Lemma tree_wf : wf_tree tree.
Proof. repeat (constructor; try (apply plain_nameb_ok; reflexivity)). Qed.

Lemma sample_tree : route_tree "/app" "routes" "/app/routes" tree.
Proof. split; [done|split; [done|split; [done|split; [exact tree_wf|by eexists]]]]. Qed.

End ProjectSample.

#[local] Existing Instance ProjectSample.fs.
Import ProjectSample.

Lemma build_file_route_map_spec_witness : exists routes, build_file_route_map "/app" ["routes"] = Ok routes /\
  (fun r => (fr_path_pattern r, fr_legacy_file_name r)) <$> routes =
    [("/admin", None); ("/user/:id/posts", Some "user/[id]/posts"); ("/user/:id", Some "user/[id]");
     ("/user/by-id", Some "user/by-id"); ("/user", Some "user/index")] /\
  Sorted route_le routes /\ ~ broken tree.
Proof.
  pose proof (build_file_route_map_spec "/app" ["routes"]) as S.
  destruct (build_file_route_map "/app" ["routes"]) as [routes|e|w] eqn:H; [|vm_compute in H; discriminate H..].
  assert (forall dir, dir ∈ ["routes"] -> exists route_dir n, route_tree "/app" dir route_dir n) as Htrees.
  { intros dir ->%list_elem_of_singleton. exists "/app/routes", tree. exact sample_tree. }
  destruct (S Htrees) as (Hs & _ & Hb). exists routes. split; [reflexivity|]. split.
  - vm_compute in H. injection H as <-. vm_compute. reflexivity.
  - split; [exact Hs|]. apply (Hb "routes" "/app/routes" tree); [by apply list_elem_of_singleton|exact sample_tree].
Defined.
