(* ===== verification/CliApply.v ===== *)
(** * Applying a project ([cli/src/cmd/apply.rs], [apply/deno.rs], [chiselc/src/parse.rs], [main.rs])

    What [chisel apply] sends to the server: the types of the models, the
    modules, the policies and the candidates for indexes, which the compiler
    [chiselc] finds in the modules.  The compiler runs as a process; its parser
    and its printers are parameters, and so are the compiler of TypeScript, the
    node-style build, the package file, git and the files of the policies. *)

From S2P Require Import Prelude Json PolicyRules Apply Rewriter Models Project.

(** ** The compiler *)

Inductive Target := JavaScript | TypeScript | FilterPropertiesTarget.

Definition target_from_str (target : string) : option Target :=
  if String.eqb target "js" then Some JavaScript
  else if String.eqb target "ts" then Some TypeScript
  else if String.eqb target "filter-properties" then Some FilterPropertiesTarget
  else None.

(** swc: the parser, and the printer with and without types. *)
Class ChiselcLib := {
  parse_module : string -> result Ast.Module_;
  emit_js : Ast.Module_ -> string;
  emit_ts : Ast.Module_ -> string;
}.

(** [Serialize for FilterProperties] *)
Definition filter_properties_json (f : FilterProperties) : json :=
  JObject [("entity_name", JString (entity_name f)); ("properties", JArray (JString <$> fp_properties f))].

Section Chiselc.
Context {CL : ChiselcLib} {JT : JsonText}.

Definition emit (module : Ast.Module_) (target : Target) : string :=
  match target with
  | JavaScript => emit_js module
  | TypeScript => emit_ts module
  | FilterPropertiesTarget => ""
  end.

Definition compile (code : string) (symbols : Symbols) (target : Target) : result string :=
  module ← parse_module code;
  '(module, indexes) ← rewrite symbols module;
  let output :=
    match target with
    | FilterPropertiesTarget => json_print (JArray (filter_properties_json <$> indexes)) +:+ newline
    | _ => ""
    end in
  Ok (output +:+ emit module target).

(** [Symbols::register_entity], for each of the options [-e]. *)
Definition register_entities (entities : list string) : Symbols :=
  foldl (fun symbols entity => {[entity]} ∪ symbols) ∅ entities.

(** What [main] prints; it prints all of it at the end, or fails. *)
Definition chiselc_main (data : string) (entities : list string) (target : Target) : result string :=
  compile data (register_entities entities) target.

(** ** Using the compiler *)

(** The standard output of the process; its exit status is not looked at. *)
Definition chiselc_stdout (code : string) (entities : list string) (target : string) : string :=
  match target_from_str target with
  | Some t => match chiselc_main code entities t with Ok out => out | _ => "" end
  | None => ""
  end.

Definition output_to_string (stdout : string) : string := trim stdout.

Definition chiselc_output (code target : string) (entities : list string) : result string :=
  Ok (output_to_string (chiselc_stdout code entities target)).

(** [Value]'s [Index], on a key, and [as_str]. *)
Definition json_index (j : json) (k : string) : json :=
  match j with JObject m => default JNull (alist_get k m) | _ => JNull end.
Definition json_str (j : json) : option string := match j with JString s => Some s | _ => None end.

Definition unwrap_none : string := "called `Option::unwrap()` on a `None` value".

Definition parse_index (index : json) : result IndexCandidate :=
  entity_name ← unwrap (json_str (json_index index "entity_name")) unwrap_none;
  properties ← match json_index index "properties" with
               | JArray properties => mapM (fun prop => unwrap (json_str prop) unwrap_none) properties
               | _ => Ok []
               end;
  Ok {| ic_entity_name := entity_name; ic_properties := properties |}.

Definition parse_indexes (code : string) (entities : list string) : result (list IndexCandidate) :=
  indexes ← chiselc_output code "filter-properties" entities;
  indexes ← option_context (json_parse indexes) "invalid JSON";
  match indexes with
  | JArray indexes => mapM parse_index indexes
  | _ => Ok []
  end.

(** ** The modules, in the style of Deno *)

(** The file names as URLs, the compiler of TypeScript (from the root module to
    its URL and all modules) and the parser of URLs. *)
Class DenoBuild := {
  url_from_file_path : string -> option string;
  compile_modules : string -> result (string * list (string * string));
  url_parse : string -> option string;
}.

Definition add_module {DB : DenoBuild} (root_url : string) (entities : list string) (optimize auto_index : bool)
    (s : list (string * string) * list IndexCandidate) (m : string * string)
    : result (list (string * string) * list IndexCandidate) :=
  let '(modules, index_candidates) := s in
  let '(url, code) := m in
  url ← unwrap (url_parse url) "called `Result::unwrap()` on an `Err` value";
  let url := if String.eqb url root_url then "file:///__root.ts" else url in
  code ← (if optimize then chiselc_output code "js" entities else Ok code);
  index_candidates ← (if auto_index then candidates ← parse_indexes code entities; Ok (index_candidates ++ candidates)
                      else Ok index_candidates);
  Ok (modules ++ [(url, code)], index_candidates).

Definition deno_apply {DB : DenoBuild} (routes : list FileRoute) (topics : list FileTopic) (entities : list string)
    (optimize auto_index : bool) : result (list (string * string) * list IndexCandidate) :=
  let import_fn path := option_context (url_from_file_path path) "Cannot convert file path to import URL" in
  root_code ← with_context (codegen_root_module import_fn routes topics)
                "Could not generate code for file-based routing and event topics";
  '(root_url, compiled) ← with_context (compile_modules root_code) "Could not compile routes (using deno-style modules)";
  foldM (add_module root_url entities optimize auto_index) ([], []) compiled.

(** ** The request *)

(** The rest of what the command looks at. *)
Class CliEnv := {
  read_to_string : string -> result string;
  get_git_version : option string;
  is_chiselc_available : bool;
  node_apply : list FileRoute -> list FileTopic -> list string -> bool -> bool -> bool ->
    result (list (string * string) * list IndexCandidate);
}.

Definition DEFAULT_APP_NAME : string := "ChiselStrike Application".

(** What is not a package is the JSON string of two braces. *)
Definition package_of (text : result string) : json :=
  match text with
  | Ok x => default (JString "{}") (json_parse x)
  | _ => JString "{}"
  end.

Definition version_tag_of (package : json) (git_version : option string) : string :=
  let version_tag := default "" (json_str (json_index package "version")) in
  match git_version with
  | Some v => if str_is_empty version_tag then v else version_tag +:+ "-" +:+ v
  | None => version_tag
  end.

Definition policy_request {CE : CliEnv} (p : string) : result PolicyUpdateRequest :=
  policy_config ← read_to_string p;
  Ok {| pu_policy_config := policy_config; pu_path := p |}.

(** [apply], up to the call of the server. *)
Definition cli_apply_request {FT : FloatText} {TP : TsParser} {FS : Fs} {DB : DenoBuild} {CE : CliEnv}
    (manifest : Manifest) (cwd version_id : string) (allow_type_deletion type_check : bool) : result ApplyRequest :=
  models ← models manifest cwd;
  route_map ← route_map manifest cwd;
  topic_map ← topic_map manifest cwd;
  policies ← policies manifest cwd;
  types_req ← parse_types models;
  let entities := at_name <$> types_req in
  let optimize := is_chiselc_available && mf_optimize manifest in
  let auto_index := is_chiselc_available && mf_auto_index manifest in
  '(modules, index_candidates) ←
    match mf_modules manifest with
    | NodeModules => node_apply route_map topic_map entities optimize auto_index type_check
    | DenoModules => deno_apply route_map topic_map entities optimize auto_index
    end;
  policy_req ← mapM policy_request policies;
  let package := package_of (read_to_string "./package.json") in
  let app_name := default DEFAULT_APP_NAME (json_str (json_index package "name")) in
  let version_tag := version_tag_of package get_git_version in
  Ok {| rq_types := types_req;
        rq_modules := modules;
        rq_index_candidates := index_candidates;
        rq_policies := policy_req;
        rq_allow_type_deletion := allow_type_deletion;
        rq_version_id := version_id;
        rq_version_tag := version_tag;
        rq_app_name := app_name |}.

End Chiselc.
