(* ===== verification/CliApplySpec.v ===== *)
(** * What a project sends

    What the command reads from the compiler is what the compiler records; what
    the server makes of the candidates for indexes; and how a failing compiler
    goes unnoticed. *)

From S2P Require Import Prelude Json EntityValue Ident Types Builtin TypeSystem Query Engine PolicyRules Meta MetaLoadSpec MetaStoreSpec Apply SortSpec ApplySample ApplySpec ApplyStoreSpec Rewriter RewriterSpec Models ModelsSpec ModelsServerSpec Project ProjectSpec CliApply.

(** ** Texts without surrounding white space *)

Definition graphic (c : ascii) : bool := (32 <? nat_of_ascii c)%nat && (nat_of_ascii c <? 127)%nat.

Definition char_str (c : ascii) : string := String c EmptyString.

(** Bytes in front and at the end that are visible ASCII characters. *)
Definition solid (s : string) : Prop :=
  exists a t b, graphic a = true /\ graphic b = true /\ s = char_str a +:+ t +:+ char_str b.

Lemma char_str_inj s t b c : s +:+ char_str b = t +:+ char_str c -> s = t /\ b = c.
Proof.
  revert t. induction s as [|x s IH]; intros [|y t] H; cbn in H.
  - by injection H as ->.
  - injection H as _ H. by destruct t.
  - injection H as _ H. by destruct s.
  - injection H as -> H. by destruct (IH t H) as [-> ->].
Qed.

(** A white space character neither begins nor ends with a visible one. *)
Definition outer_chars (c : string) : list ascii :=
  match head (String.list_ascii_of_string c), last (String.list_ascii_of_string c) with
  | Some h, Some l => [h; l]
  | _, _ => []
  end.
Definition outer_invisible (c : string) : bool :=
  match outer_chars c with [h; l] => negb (graphic h) && negb (graphic l) | _ => false end.

Lemma last_char s l : last (String.list_ascii_of_string s) = Some l -> exists t, s = t +:+ char_str l.
Proof.
  induction s as [|c s IH]; [done|]. cbn. destruct s as [|d s]; [intros [= ->]; by exists ""|].
  intros H. destruct (IH H) as [t ->]. by exists (String c t).
Qed.

Lemma white_space_outer c : c ∈ white_space ->
  (exists h t, graphic h = false /\ c = String h t) /\ exists t l, graphic l = false /\ c = t +:+ char_str l.
Proof.
  intros Hc. assert (forallb outer_invisible white_space = true) as H by (vm_compute; reflexivity).
  rewrite forallb_forall in H. specialize (H c (proj1 (list_elem_of_In _ _) Hc)).
  unfold outer_invisible, outer_chars in H. destruct (head _) as [h|] eqn:Hh; [|done].
  destruct (last _) as [l|] eqn:Hl; [|done]. apply andb_prop in H as [H1%negb_true_iff H2%negb_true_iff]. split.
  - destruct c as [|h' t]; [done|]. cbn in Hh. injection Hh as ->. by exists h, t.
  - apply last_char in Hl as [t ->]. by exists t, l.
Qed.

Lemma white_space_prefix c a s : c ∈ white_space -> graphic a = true -> strip_prefix c (String a s) = None.
Proof.
  intros Hc Ha. destruct (white_space_outer c Hc) as [(h & t & Hh & ->) _]. unfold strip_prefix. cbn.
  destruct (Ascii.eqb_spec h a) as [->|]; [congruence|done].
Qed.
Lemma white_space_suffix c s : c ∈ white_space -> solid s -> strip_suffix c s = None.
Proof.
  intros Hc (a & t & b & _ & Hb & ->). destruct (white_space_outer c Hc) as [_ (t' & l & Hl & ->)]. destruct (strip_suffix _ _) as [r|] eqn:E; [|done].
  apply strip_suffix_some in E. rewrite <- !str_app_assoc in E. apply char_str_inj in E as [_ ->]. congruence.
Qed.

Lemma omap_none {A B} (f : A -> option B) l : (forall x, x ∈ l -> f x = None) -> omap f l = [].
Proof. induction l as [|x l IH]; intros H; [done|]. cbn. rewrite (H x) by by left. apply IH. intros y Hy. apply H. by right. Qed.

Lemma trim_fuel_none strip n s : (forall c, c ∈ white_space -> strip c s = None) -> trim_fuel strip n s = s.
Proof. intros H. destruct n; [done|]. cbn [trim_fuel]. by rewrite omap_none. Qed.

Lemma trim_solid s : solid s -> trim (s +:+ newline) = s.
Proof.
  intros Hs. unfold trim. assert (trim_fuel strip_prefix (String.length (s +:+ newline)) (s +:+ newline) = s +:+ newline) as ->.
  { apply trim_fuel_none. intros c Hc. destruct Hs as (a & t & b & Ha & _ & ->). by apply white_space_prefix. }
  rewrite str_length_app, Nat.add_comm. cbn [newline String.length Nat.add]. cbn [trim_fuel].
  assert (strip_suffix (char_str "009"%char) (s +:+ newline) = None) as H9.
  { destruct (strip_suffix _ _) as [r|] eqn:E; [|done]. apply strip_suffix_some, (char_str_inj s r) in E as [_ E]. done. }
  assert (exists l, white_space = char_str "009"%char :: newline :: l) as [l ->] by (vm_compute; by eexists).
  cbn [omap list_omap]. rewrite H9, strip_suffix_app. cbn [head].
  apply trim_fuel_none. intros c Hc. by apply white_space_suffix.
Qed.

(** ** What the compiler prints *)

(** JSON without numbers. *)
Inductive textual : json -> Prop :=
  | textual_null : textual JNull
  | textual_bool b : textual (JBool b)
  | textual_string s : textual (JString s)
  | textual_array l : Forall textual l -> textual (JArray l)
  | textual_object m : Forall (fun e => textual e.2) m -> textual (JObject m).

(** What serde_json documents of its texts: they are read back, they have no
    space around them, and the empty text is not one. *)
Class JsonTextLaws `{JT : JsonText} := {
  json_parse_print : forall j, textual j -> json_parse (json_print j) = Some j;
  json_print_solid : forall j, textual j -> solid (json_print j);
  json_parse_empty : json_parse "" = None;
}.

Lemma filter_properties_textual f : textual (filter_properties_json f).
Proof.
  constructor. repeat constructor. cbn. apply Forall_fmap, Forall_true. intros p. constructor.
Qed.

(** The candidate of what the compiler records. *)
Definition candidate (f : FilterProperties) : IndexCandidate :=
  {| ic_entity_name := entity_name f; ic_properties := fp_properties f |}.

Lemma parse_index_candidate f : parse_index (filter_properties_json f) = Ok (candidate f).
Proof.
  change (parse_index (filter_properties_json f)) with
    (mapM (fun prop => unwrap (E := anyhow) (json_str prop) unwrap_none) (JString <$> fp_properties f) ≫=
     fun properties => Ok {| ic_entity_name := entity_name f; ic_properties := properties |}).
  assert (forall l, mapM (fun prop => unwrap (E := anyhow) (json_str prop) unwrap_none) (JString <$> l) = Ok l) as ->
    by (intros l; apply mapM_ok, Forall2_fmap_l, Forall_Forall2_diag, Forall_true; done).
  done.
Qed.

Section Spec.
Context {CL : ChiselcLib} {JT : JsonText} {JL : JsonTextLaws}.

(** What the compiler makes of a module: the code, and what it records. *)
Definition compiled (code : string) (entities : list string) : option (Ast.Module_ * list FilterProperties) :=
  match parse_module code with
  | Ok m => match rewrite (list_to_set entities) m with Ok r => Some r | _ => None end
  | _ => None
  end.

Lemma register_entities_set entities : register_entities entities = list_to_set entities.
Proof.
  unfold register_entities. apply set_eq. intros x.
  enough (forall acc : Symbols, x ∈ foldl (fun s e => {[e]} ∪ s) acc entities <-> x ∈ entities \/ x ∈ acc) as ->.
  - rewrite elem_of_list_to_set. set_solver.
  - induction entities as [|e entities IH]; intros acc; cbn; [set_solver|]. rewrite IH. set_solver.
Qed.

(** The standard output: nothing when the compiler fails. *)
Lemma chiselc_stdout_ok code entities target t : target_from_str target = Some t ->
  chiselc_stdout code entities target =
    match compiled code entities with
    | Some (m, indexes) =>
        match t with
        | FilterPropertiesTarget => json_print (JArray (filter_properties_json <$> indexes)) +:+ newline
        | t => emit m t
        end
    | None => ""
    end.
Proof.
  intros Ht. unfold chiselc_stdout, chiselc_main, compile, compiled. rewrite Ht, register_entities_set.
  destruct (parse_module code) as [m| |]; [|done..]. cbn -[rewrite].
  destruct (rewrite _ m) as [[m' indexes]| |]; [|done..]. cbn. destruct t; [done..|]. by rewrite str_app_nil_r.
Qed.

(** The candidates of a module are what the compiler records in it. *)
Lemma parse_indexes_ok code entities :
  parse_indexes code entities =
    match compiled code entities with
    | Some (_, indexes) => Ok (candidate <$> indexes)
    | None => bail "invalid JSON"
    end.
Proof.
  unfold parse_indexes, chiselc_output, output_to_string.
  rewrite (chiselc_stdout_ok _ _ "filter-properties" FilterPropertiesTarget eq_refl).
  destruct (compiled code entities) as [[m indexes]|]; cbn -[trim parse_index].
  - assert (textual (JArray (filter_properties_json <$> indexes))) as Ht
      by (constructor; apply Forall_fmap, Forall_true; intros f; apply filter_properties_textual).
    rewrite trim_solid, json_parse_print by by first [done|apply json_print_solid].
    cbn -[parse_index]. apply mapM_ok, Forall2_fmap_l, Forall2_fmap_r, Forall_Forall2_diag, Forall_true.
    intros f. apply parse_index_candidate.
  - change (trim "") with "". by rewrite json_parse_empty.
Qed.

(** A module the compiler does not accept is replaced by nothing. *)
Lemma failed_compile_empties_module code entities : compiled code entities = None ->
  chiselc_output code "js" entities = Ok "".
Proof. intros H. unfold chiselc_output. by rewrite (chiselc_stdout_ok _ _ "js" JavaScript eq_refl), H. Qed.

(** ** The modules of a project in the style of Deno *)

Context {DB : DenoBuild}.

(** The code of a module the compiler optimises. *)
Definition optimized (code : string) (entities : list string) : string :=
  match compiled code entities with Some (m, _) => trim (emit_js m) | None => "" end.

Definition module_sent (root_url : string) (entities : list string) (optimize : bool) (m m' : string * string) : Prop :=
  exists url, url_parse m.1 = Some url /\
    m'.1 = (if String.eqb url root_url then "file:///__root.ts" else url) /\
    m'.2 = if optimize then optimized m.2 entities else m.2.

Definition module_candidates (entities : list string) (auto_index : bool) (m : string * string)
    (candidates : list IndexCandidate) : Prop :=
  if auto_index then exists code indexes, compiled m.2 entities = Some (code, indexes) /\ candidates = candidate <$> indexes
  else candidates = [].

Lemma chiselc_js code entities : chiselc_output code "js" entities = Ok (optimized code entities).
Proof.
  unfold chiselc_output, optimized, output_to_string. rewrite (chiselc_stdout_ok _ _ "js" JavaScript eq_refl).
  by destruct (compiled code entities) as [[]|].
Qed.

Lemma add_module_ok root_url entities optimize auto_index ms cs m s' :
  add_module root_url entities optimize auto_index (ms, cs) m = Ok s' <->
  exists m' c, s' = (ms ++ [m'], cs ++ c) /\ module_sent root_url entities optimize m m' /\
    module_candidates entities auto_index m' c.
Proof.
  destruct m as [u code]. unfold add_module, module_sent, module_candidates. cbn [fst snd].
  assert ((if optimize then chiselc_output code "js" entities else Ok code) =
    Ok (if optimize then optimized code entities else code)) as -> by (rewrite chiselc_js; by destruct optimize).
  destruct (url_parse u) as [url|]; cbn -[parse_indexes].
  2: { split; [done|]. intros (m' & c & _ & (? & [=] & _) & _). }
  set (code' := if optimize then _ else _). set (url' := if String.eqb url root_url then _ else _).
  destruct auto_index.
  - rewrite parse_indexes_ok. split.
    + destruct (compiled code' entities) as [[m indexes]|] eqn:Hc; [|done]. intros [= <-].
      exists (url', code'), (candidate <$> indexes). split; [done|]. split; [by exists url|]. by exists m, indexes.
    + intros ([u' c'] & c & -> & (? & [= <-] & E1 & E2) & (m & indexes & Hc & ->)).
      cbn in E1, E2, Hc. subst. by rewrite Hc.
  - split.
    + intros [= <-]. exists (url', code'), []. split; [by rewrite app_nil_r|]. split; [by exists url|done].
    + intros ([u' c'] & c & -> & (? & [= <-] & E1 & E2) & ->). cbn in E1, E2. subst. by rewrite app_nil_r.
Qed.

Lemma add_modules_ok root_url entities optimize auto_index l : forall ms cs ms' cs',
  foldM (add_module root_url entities optimize auto_index) (ms, cs) l = Ok (ms', cs') <->
  exists sent cands, ms' = ms ++ sent /\ cs' = cs ++ concat cands /\
    Forall2 (module_sent root_url entities optimize) l sent /\ Forall2 (module_candidates entities auto_index) sent cands.
Proof.
  induction l as [|m l IH]; intros ms cs ms' cs'; cbn [foldM].
  - split.
    + intros [= <- <-]. exists [], []. rewrite !app_nil_r. done.
    + intros (sent & cands & -> & -> & ->%Forall2_nil_inv_l & ->%Forall2_nil_inv_l). cbn. by rewrite !app_nil_r.
  - rewrite bind_ok. split.
    + intros ([ms1 cs1] & (m' & c & [= -> ->] & Hs & Hc)%add_module_ok & (sent & cands & -> & -> & H1 & H2)%IH).
      exists (m' :: sent), (c :: cands). cbn. rewrite <- !app_assoc. repeat split; by try constructor.
    + intros (sent' & cands' & -> & -> & H1 & H2).
      apply Forall2_cons_inv_l in H1 as (m' & sent & Hs & H1 & ->). apply Forall2_cons_inv_l in H2 as (c & cands & Hc & H2 & ->).
      exists (ms ++ [m'], cs ++ c). split; [apply add_module_ok; by exists m', c|].
      apply IH. exists sent, cands. cbn. rewrite <- !app_assoc. done.
Qed.

(** What a project in the style of Deno sends: the modules the generated root
    module was compiled to, in order, under the normal form of their URLs but for
    the root, with their code or, when they are optimised, what the compiler
    makes of it - nothing, if it fails; and, for automatic indexes, what the
    compiler records in the code that is sent, in order. *)
Theorem deno_apply_spec routes topics entities optimize auto_index modules candidates :
  deno_apply routes topics entities optimize auto_index = Ok (modules, candidates) <->
  exists root_code root_url built cands,
    codegen_root_module (fun path => option_context (url_from_file_path path) "Cannot convert file path to import URL")
      routes topics = Ok root_code /\
    compile_modules root_code = Ok (root_url, built) /\
    Forall2 (module_sent root_url entities optimize) built modules /\
    Forall2 (module_candidates entities auto_index) modules cands /\
    candidates = concat cands.
Proof.
  unfold deno_apply. rewrite bind_ok. setoid_rewrite with_context_ok. split.
  - intros (root_code & Hr & H). apply bind_ok in H as ([root_url built] & Hb%with_context_ok & H).
    apply add_modules_ok in H as (sent & cands & -> & -> & H1 & H2). by exists root_code, root_url, built, cands.
  - intros (root_code & root_url & built & cands & Hr & Hb & H1 & H2 & ->). exists root_code. split; [done|].
    apply bind_ok. exists (root_url, built). split; [by apply with_context_ok|].
    apply add_modules_ok. by exists modules, cands.
Qed.

End Spec.

(** ** What the server makes of the request *)

Section Planned.
Context {CL : ChiselcLib} {JT : JsonText} {JL : JsonTextLaws} {DB : DenoBuild}.
Context {FT : FloatText} {TP : TsParser} {FS : Fs} {CE : CliEnv}.
Context {GL : GraphLib} {LG : GraphLaws} {RO : RowOrder} {LR : RowOrderLaws}.

(** The parts of a request that come from the files. *)
Lemma cli_apply_request_ok manifest cwd v deletion type_check rq :
  cli_apply_request manifest cwd v deletion type_check = Ok rq -> mf_modules manifest = DenoModules ->
  exists files routes topics,
    models manifest cwd = Ok files /\ parse_types files = Ok (rq_types rq) /\
    deno_apply routes topics (at_name <$> rq_types rq) (is_chiselc_available && mf_optimize manifest)
      (is_chiselc_available && mf_auto_index manifest) = Ok (rq_modules rq, rq_index_candidates rq).
Proof.
  intros H Hm. unfold cli_apply_request in H. rewrite Hm in H.
  apply bind_ok in H as (files & Hf & H). apply bind_ok in H as (routes & _ & H).
  apply bind_ok in H as (topics & _ & H). apply bind_ok in H as (pols & _ & H).
  apply bind_ok in H as (types & Ht & H). apply bind_ok in H as ([modules cands] & Hd & H).
  apply bind_ok in H as (reqs & _ & H). injection H as <-. by exists files, routes, topics.
Qed.

(** Every property the compiler records is a field of its entity. *)
Definition recorded_fields (rq : ApplyRequest) : Prop :=
  forall m code indexes f ty, m ∈ rq_modules rq ->
    compiled m.2 (at_name <$> rq_types rq) = Some (code, indexes) -> f ∈ indexes ->
    ty ∈ rq_types rq -> at_name ty = entity_name f ->
    Forall (fun n => n = "id" \/ n ∈ def_name <$> at_field_defs ty) (fp_properties f).

Lemma candidates_recorded auto_index rq cands :
  Forall2 (module_candidates (at_name <$> rq_types rq) auto_index) (rq_modules rq) cands ->
  rq_index_candidates rq = concat cands ->
  (forall c ty, c ∈ rq_index_candidates rq -> ty ∈ rq_types rq -> at_name ty = ic_entity_name c ->
     Forall (fun n => n = "id" \/ n ∈ def_name <$> at_field_defs ty) (ic_properties c)) <->
  (auto_index = true -> recorded_fields rq).
Proof.
  intros Hc ->. split.
  - intros H -> m code indexes f ty Hm Hcomp Hf Hty Hn. apply (H (candidate f) ty); [|done..].
    apply list_elem_of_lookup in Hm as [i Hi]. destruct (Forall2_lookup_l _ _ _ _ _ Hc Hi) as (cs & Hcs & Hcand).
    destruct Hcand as (code' & indexes' & Hcomp' & ->). rewrite Hcomp in Hcomp'. injection Hcomp' as <- <-.
    apply elem_of_concat. exists (candidate <$> indexes). split; [by apply list_elem_of_fmap_2|by eapply list_elem_of_lookup_2].
  - intros H c ty (cs & Hin & Hcs)%elem_of_concat Hty Hn. apply list_elem_of_lookup in Hcs as [i Hi].
    destruct (Forall2_lookup_r _ _ _ _ _ Hc Hi) as (m & Hm & Hcand). unfold module_candidates in Hcand.
    destruct auto_index; [|subst; by apply not_elem_of_nil in Hin].
    destruct Hcand as (code & indexes & Hcomp & ->). apply list_elem_of_fmap in Hin as (f & -> & Hf).
    apply (H eq_refl m code indexes f ty); [by eapply list_elem_of_lookup_2|done..].
Qed.

(** C24: A request the command line interface makes of a project with modules in
    the style of Deno is planned by the server, for a version that has no types yet,
    exactly when no class is named as a built-in type, [Id<X>] fields name classes,
    entities do not contain each other in a cycle and, with automatic indexes, every
    property name the compiler records for a class in the modules is one of its
    fields or [id].  So a predicate over a field of a related entity -
    [p => p.author.email == x], of which [email] is recorded for the entity of [p] -
    makes the server refuse the version.  (A version that has types can be refused for
    other reasons: unsafe changes of its fields, or a table it lost.  The modules of
    projects in the style of Node come from programs that are not modelled.) *)
Theorem cli_request_planned manifest cwd v deletion type_check rq bt uuid tables :
  cli_apply_request manifest cwd v deletion type_check = Ok rq -> mf_modules manifest = DenoModules ->
  BuiltinTypes_new = Ok bt ->
  let ts := TypeSystem_new bt v in
  is_ok (make_plan uuid ts tables v rq) = true <->
  (forall ty, ty ∈ rq_types rq -> is_ok (lookup_builtin_type ts (at_name ty)) = false) /\
  (forall ty f n, ty ∈ rq_types rq -> f ∈ at_field_defs ty -> field_type f = Ok (TeEntityId n) ->
     n ∈ at_name <$> rq_types rq) /\
  (forall n, ~ tc (depends ts (rq_types rq)) n n) /\
  (is_chiselc_available && mf_auto_index manifest = true -> recorded_fields rq).
Proof.
  intros H Hm Hbt. cbv zeta. destruct (cli_apply_request_ok _ _ _ _ _ _ H Hm) as (files & routes & topics & _ & Hp & Hd).
  apply parsed_models_ok in Hp.
  assert (exists cands, Forall2 (module_candidates (at_name <$> rq_types rq) (is_chiselc_available && mf_auto_index manifest))
    (rq_modules rq) cands /\ rq_index_candidates rq = concat cands) as (cands & Hc & Hcs).
  { unfold deno_apply in Hd. apply bind_ok in Hd as (? & _ & Hd). apply bind_ok in Hd as ([? ?] & _ & Hd).
    apply add_modules_ok in Hd as (sent & cands & -> & -> & _ & Hc). by exists cands. }
  rewrite <- (candidates_recorded _ _ _ Hc Hcs). split.
  - intros Ho. destruct (make_plan _ _ _ _ _) as [plan| |] eqn:E; [|done..].
    destruct (plan_types bt v uuid tables rq Hp plan E) as [[A1 A2 A3 A4] _]. done.
  - intros (A1 & A2 & A3 & A4).
    by destruct (plan_total bt Hbt v uuid tables rq Hp (Build_acceptable _ _ A1 A2 A3 A4)) as (plan & -> & _).
Qed.

End Planned.

(** ** Witnesses *)

Module CliSample.

(** Texts of JSON without numbers: the code of a tree, in brackets. *)
Fixpoint tree_of (j : json) : gen_tree string :=
  match j with
  | JBool b => GenNode (if b then 2 else 1) []
  | JString s => GenLeaf s
  | JArray l => GenNode 3 (tree_of <$> l)
  | JObject m => GenNode 4 ((fun e => GenNode 5 [GenLeaf e.1; tree_of e.2]) <$> m)
  | _ => GenNode 0 []
  end.
Fixpoint json_of (t : gen_tree string) : json :=
  match t with
  | GenLeaf s => JString s
  | GenNode 1 _ => JBool false
  | GenNode 2 _ => JBool true
  | GenNode 3 l => JArray (json_of <$> l)
  | GenNode 4 l => JObject ((fun t => match t with GenNode _ [GenLeaf k; v] => (k, json_of v) | _ => ("", JNull) end) <$> l)
  | _ => JNull
  end.

Fixpoint json_of_tree j (H : textual j) {struct H} : json_of (tree_of j) = j.
Proof.
  destruct H as [|[]|s|l H|m H]; try reflexivity; cbn; f_equal.
  - induction H as [|j l Hj _ IH]; [reflexivity|]. cbn. f_equal; [exact (json_of_tree j Hj)|exact IH].
  - induction H as [|[k j] m Hj _ IH]; [reflexivity|]. cbn. f_equal; [f_equal; exact (json_of_tree j Hj)|exact IH].
Qed.

#[export] Instance json_text : JsonText := {
  json_print j := "[" +:+ ApplySample.bits (encode (tree_of j)) +:+ "]";
  json_parse s :=
    s ← strip_prefix "[" s; s ← strip_suffix "]" s;
    json_of <$> decode (A := gen_tree string) (ApplySample.of_bits s);
}.
#[export] Instance json_text_laws : JsonTextLaws.
Proof.
  split; [| |reflexivity].
  - intros j Hj. unfold json_parse, json_print, json_text. rewrite strip_prefix_app. cbn [mbind option_bind].
    rewrite strip_suffix_app. cbn [mbind option_bind].
    rewrite ApplySample.of_bits_bits, decode_encode. cbn. by rewrite json_of_tree.
  - intros j _. by eexists "["%char, _, "]"%char.
Qed.

Definition entities : list string := ["Person"; "Post"].

(** A module that calls [Post.findMany(p => <path> == "x")]. *)
Definition module_with (name : string) (path : Ast.Expr) : Ast.Module_ :=
  [Ast.OtherDecl name;
   Ast.ExportDefaultFn "function f" (Some [Ast.VarDecl "const"
     [Ast.mkVar (Ast.PatIdent "posts" "") (Some (Ast.Await (Ast.Call (Ast.mkCall
       (Ast.CalleeExpr (Ast.Member (Ast.mkMember (Ast.Ident "Post") (Ast.PropIdent "findMany"))))
       [FilterSample.arrow (Ast.Bin (Ast.mkBin Ast.EqEq path (Ast.Literal (Ast.Str "x"))))] None))))]])].
Definition tags : Ast.Module_ := module_with "tags" (FilterSample.property "tags").
Definition author : Ast.Module_ :=
  module_with "author" (Ast.Member (Ast.mkMember (FilterSample.property "author") (Ast.PropIdent "email"))).
Definition rewritten_module (m : Ast.Module_) : result Ast.Module_ :=
  '(m, _) ← rewrite (list_to_set entities) m; Ok m.

(** Modules are printed under the name in front, and read back. *)
#[export] Instance chiselc : ChiselcLib := {
  parse_module code :=
    if String.eqb code "tags.ts" then Ok tags
    else if String.eqb code "author.ts" then Ok author
    else if String.eqb code "tags.js" then rewritten_module tags
    else if String.eqb code "author.js" then rewritten_module author
    else if String.eqb code "root.ts" || String.eqb code "root.js" then Ok [Ast.OtherDecl "root"]
    else bail "Syntax error";
  emit_js m := match m with Ast.OtherDecl name :: _ => name +:+ ".js" | _ => "" end;
  emit_ts m := match m with Ast.OtherDecl name :: _ => name +:+ ".ts" | _ => "" end;
}.

(** The route files import one module. *)
Definition build (code : string) : DenoBuild := {|
  url_from_file_path path := Some ("file://" +:+ path);
  compile_modules _ := Ok ("file:///tmp/root.ts", [("file:///tmp/root.ts", "root.ts"); ("file:///app/posts.ts", code)]);
  url_parse url := Some url;
|}.

#[export] Instance fs : Fs := {
  fs_canonicalize p := if String.eqb p "models" then Ok "/app/models" else Err NotFound;
  fs_lookup p := if String.eqb p "/app/models" then Some (FsDir [("post.ts", FsFile 80); ("person.ts", FsFile 60)]) else None;
}.
#[export] Instance cli_ts_parser : TsParser := {
  load_file file := Ok file;
  take_errors _ := false;
  parse_typescript_module code :=
    if String.eqb code "/app/models/person.ts" then Ok [Ts.ExportDecl (Ts.DClass "Person" ModelsSample.person)]
    else if String.eqb code "/app/models/post.ts" then Ok [Ts.ExportDecl (Ts.DClass "Post" ModelsSample.post)]
    else bail "Exiting on script parsing errors";
}.
#[export] Instance cli_env : CliEnv := {
  read_to_string _ := bail "No such file or directory";
  get_git_version := Some "v1.0";
  is_chiselc_available := true;
  node_apply _ _ _ _ _ _ := bail "npx failed";
}.

Definition manifest (optimize : bool) : Manifest :=
  {| mf_models := ["models"]; mf_routes := []; mf_events := None; mf_policies := [];
     mf_modules := DenoModules; mf_optimize := optimize; mf_auto_index := true |}.
Definition request_of (code : string) (optimize : bool) : result ApplyRequest :=
  cli_apply_request (FT := ModelsSample.floats) (DB := build code) (manifest optimize) "/app" "dev" false false.

End CliSample.

#[local] Existing Instances CliSample.json_text CliSample.json_text_laws CliSample.chiselc CliSample.fs
  CliSample.cli_ts_parser CliSample.cli_env ModelsSample.floats.
#[local] Existing Instances GraphSample.graph_lib GraphSample.graph_laws MetaSample.order MetaSample.order_laws.
Import CliSample.

Lemma deno_apply_spec_witness :
  exists candidates, deno_apply (DB := build "author.ts") [] [] entities false true =
    Ok ([("file:///__root.ts", "root.ts"); ("file:///app/posts.ts", "author.ts")], candidates) /\
  ic_entity_name <$> candidates = ["Post"] /\
  Forall2 (module_sent (DB := build "author.ts") "file:///tmp/root.ts" entities false)
    [("file:///tmp/root.ts", "root.ts"); ("file:///app/posts.ts", "author.ts")]
    [("file:///__root.ts", "root.ts"); ("file:///app/posts.ts", "author.ts")].
Proof.
  eexists. split; [vm_compute; reflexivity|]. split; [vm_compute; reflexivity|].
  pose proof (fun ms cs => proj1 (deno_apply_spec (DB := build "author.ts") [] [] entities false true ms cs)) as P.
  edestruct P as (root_code & root_url & built & cands & _ & Hb & H & _); [vm_compute; reflexivity|].
  injection Hb as <- <-. exact H.
Defined.

(** With optimisation, which is on unless a manifest turns it off, the compiler
    looks for indexes in what it made of a module before: nothing is left to
    record. *)
Lemma optimized_records_nothing :
  let recorded optimize :=
    candidates ← deno_apply (DB := build "author.ts") [] [] entities optimize true; Ok (length candidates.2) in
  recorded false = Ok 1 /\ recorded true = Ok 0.
Proof. split; vm_compute; reflexivity. Qed.

Lemma cli_request_planned_witness :
  (exists rq, request_of "tags.ts" false = Ok rq /\ ic_properties <$> rq_index_candidates rq = [["tags"]] /\
     recorded_fields rq) /\
  (exists rq, request_of "author.ts" false = Ok rq /\ ~ recorded_fields rq).
Proof.
  assert (forall code rq, request_of code false = Ok rq -> _) as P
    by (intros code rq H; exact (cli_request_planned (DB := build code) (manifest false) "/app" "dev" false false rq
      ApplySample.builtins ApplySample.uuid ∅ H eq_refl ApplySample.builtins_new)).
  assert (exists rq, request_of "tags.ts" false = Ok rq) as [rq Hrq] by (eexists; vm_compute; reflexivity).
  assert (exists rq, request_of "author.ts" false = Ok rq) as [rq' Hrq'] by (eexists; vm_compute; reflexivity).
  assert (rq_types rq' = rq_types rq) as Ht by (vm_compute in Hrq, Hrq'; injection Hrq as <-; injection Hrq' as <-; reflexivity).
  pose proof (P _ _ Hrq) as [P1 _]. pose proof (P _ _ Hrq') as [_ P2].
  destruct P1 as (A1 & A2 & A3 & A4); [vm_compute in Hrq; injection Hrq as <-; vm_compute; reflexivity|].
  split.
  - exists rq. split; [exact Hrq|]. split; [vm_compute in Hrq; injection Hrq as <-; vm_compute; reflexivity|by apply A4].
  - exists rq'. split; [exact Hrq'|]. intros H. rewrite Ht in P2.
    enough (is_ok (make_plan ApplySample.uuid (TypeSystem_new ApplySample.builtins "dev") ∅ "dev" rq') = false)
      by (rewrite P2 in *; by repeat split).
    vm_compute in Hrq'. injection Hrq' as <-. vm_compute. reflexivity.
Defined.
