(* ===== verification/V8Value.v ===== *)
(** * Values at the border to V8 ([server/src/datastore/value.rs])

    The endpoints run in V8.  This file has the values V8 hands to the server and
    takes from it, as far as the conversions look at them, the conversions of
    entity values, their JSON, and what survives a way through V8 and back. *)

From S2P Require Import Prelude Json EntityValue JsValue Engine.

(** ** The values of V8 *)

(** The name of an own property: V8 gives array indices as numbers. *)
Inductive V8Key := KName (s : string) | KNumber (n : Z).

#[export] Instance V8Key_eq_dec : EqDecision V8Key.
Proof. solve_decision. Defined.

(** A view shows [length] bytes of a buffer from [offset] on.  An object has its
    own enumerable properties, among them functions; reading a property may throw
    ([None]).  Other values are symbols and big integers. *)
Inductive V8 :=
  | V8Undefined
  | V8Null
  | V8String (s : string)
  | V8Number (f : f64)
  | V8Boolean (b : bool)
  | V8Date (time : f64)
  | V8View (buffer : list Z) (offset length : nat)
  | V8Buffer (buffer : list Z)
  | V8Array (elements : list V8)
  | V8Object (properties : list (V8Key * option V8))
  | V8Other.

Definition is_undefined (v : V8) : bool := match v with V8Undefined => true | _ => false end.

(** What V8 does when it is given values: a text may be too long for it, a date is
    clipped to what dates can hold, and a name may be that of an index. *)
Class V8Lib := {
  v8_string_new : string -> option string;
  v8_date_new : f64 -> option f64;
  v8_key : string -> V8Key;
}.

(** [Object::set]: the name [__proto__] sets the prototype of a plain object and
    adds no property of its own. *)
Fixpoint v8_put (key : V8Key) (value : V8) (properties : list (V8Key * option V8)) : list (V8Key * option V8) :=
  match properties with
  | [] => [(key, Some value)]
  | (k, v) :: properties =>
      if decide (key = k) then (k, Some value) :: properties else (k, v) :: v8_put key value properties
  end.
Definition v8_set (key : V8Key) (value : V8) (properties : list (V8Key * option V8)) : list (V8Key * option V8) :=
  if decide (key = KName "__proto__") then properties else v8_put key value properties.

(** ** The conversions *)

Definition unwrap_none : string := "called `Option::unwrap()` on a `None` value".
Definition unwrap_err : string := "called `Result::unwrap()` on an `Err` value".

(** The bytes from the offset of the view to the end of its buffer. *)
Definition view_bytes (buffer : list Z) (offset : nat) : list Z := drop offset buffer.

(** One property of an object. *)
Definition read_property (convert : V8 -> result EntityValue) (record : EntityMap) (p : V8Key * option V8)
    : result EntityMap :=
  let '(raw_key, prop_value) := p in
  match prop_value with
  | None => Panic unwrap_none
  | Some prop_value =>
      if is_undefined prop_value then Ok record
      else
        key ← match raw_key with KName key => Ok key | KNumber _ => Panic unwrap_err end;
        value ← convert prop_value;
        Ok (alist_insert key value record)
  end.

Fixpoint from_v8 (v : V8) : result EntityValue :=
  match v with
  | V8Null => Ok EvNull
  | V8String s => Ok (EvString s)
  | V8Number f => Ok (EvFloat64 f)
  | V8Boolean b => Ok (EvBoolean b)
  | V8Date time => Ok (EvJsDate time)
  | V8View buffer offset _ => Ok (EvBytes (view_bytes buffer offset))
  | V8Buffer buffer => Ok (EvBytes buffer)
  | V8Array array =>
      value_vec ← foldM (fun value_vec val => x ← from_v8 val; Ok (value_vec ++ [x])) [] array;
      Ok (EvArray value_vec)
  | V8Object obj => record ← foldM (read_property from_v8) [] obj; Ok (EvMap record)
  | V8Undefined | V8Other => bail "trying to decode unsupported v8 value"
  end.

Section ToV8.
Context {VL : V8Lib}.

Fixpoint to_v8 (self : EntityValue) : result V8 :=
  match self with
  | EvNull => Ok V8Null
  | EvString v => V8String <$> option_context (v8_string_new v) "failed to create v8 string when converting EntityValue to v8"
  | EvFloat64 v => Ok (V8Number v)
  | EvInt64 v => Ok (V8Number (f64_of_Z v))
  | EvBoolean v => Ok (V8Boolean v)
  | EvJsDate v => V8Date <$> option_context (v8_date_new v) "failed to create v8 Date when converting EntityValue to v8"
  | EvBytes v => Ok (V8Buffer v)
  | EvArray v => array ← foldM (fun array e => element ← to_v8 e; Ok (array ++ [element])) [] v; Ok (V8Array array)
  | EvMap v =>
      obj ← foldM (fun obj '(key, value) =>
        key ← option_context (v8_string_new key) "unable to create map key v8 string";
        value ← to_v8 value;
        Ok (v8_set (v8_key key) value obj)) [] v;
      Ok (V8Object obj)
  end.

End ToV8.


(** ** What survives V8 *)

Section Survives.
Context {VL : V8Lib}.

(** Values V8 holds exactly: it accepts their texts, its dates keep their time, and
    the names of their properties are neither indices nor [__proto__]. *)
Fixpoint v8_exact (v : EntityValue) : Prop :=
  match v with
  | EvString s => v8_string_new s = Some s
  | EvJsDate t => v8_date_new t = Some t
  | EvArray l => foldr (fun x P => v8_exact x /\ P) True l
  | EvMap m =>
      NoDup m.*1 /\
      (forall k, k ∈ m.*1 -> v8_string_new k = Some k /\ v8_key k = KName k /\ k <> "__proto__") /\
      foldr (fun kv P => v8_exact kv.2 /\ P) True m
  | _ => True
  end.

(** V8 has one type of numbers. *)
Fixpoint as_numbers (v : EntityValue) : EntityValue :=
  match v with
  | EvInt64 n => EvFloat64 (f64_of_Z n)
  | EvArray l => EvArray (as_numbers <$> l)
  | EvMap m => EvMap ((fun kv => (kv.1, as_numbers kv.2)) <$> m)
  | v => v
  end.

Definition converts (v : EntityValue) (x : V8) : Prop :=
  to_v8 v = Ok x /\ is_undefined x = false /\ from_v8 x = Ok (as_numbers v).

Lemma to_v8_elements l xs : Forall2 converts l xs -> forall acc,
  foldM (fun array e => element ← to_v8 e; Ok (array ++ [element])) acc l = Ok (acc ++ xs).
Proof.
  induction 1 as [|v x l xs [Hv _] _ IH]; intros acc; cbn; [by rewrite app_nil_r|].
  rewrite Hv. cbn. by rewrite IH, <- app_assoc.
Qed.

Lemma from_v8_elements l xs : Forall2 converts l xs -> forall acc,
  foldM (fun value_vec val => x ← from_v8 val; Ok (value_vec ++ [x])) acc xs = Ok (acc ++ (as_numbers <$> l)).
Proof.
  induction 1 as [|v x l xs (_ & _ & Hv) _ IH]; intros acc; cbn; [by rewrite app_nil_r|].
  rewrite Hv. cbn. by rewrite IH, <- app_assoc.
Qed.

Lemma v8_put_fresh k v props : k ∉ props.*1 -> v8_put k v props = props ++ [(k, Some v)].
Proof.
  induction props as [|[k' v'] props IH]; cbn; [done|]. intros [Hne Hk]%not_elem_of_cons.
  rewrite decide_False by done. by rewrite IH.
Qed.

Definition entry (kv : string * EntityValue) (p : V8Key * option V8) : Prop :=
  exists x, p = (KName kv.1, Some x) /\ converts kv.2 x.

Lemma to_v8_entries m ps : Forall2 entry m ps -> forall acc, NoDup m.*1 ->
  (forall k, k ∈ m.*1 -> v8_string_new k = Some k /\ v8_key k = KName k /\ k <> "__proto__") ->
  (forall k, k ∈ m.*1 -> KName k ∉ acc.*1) ->
  foldM (fun obj '(key, value) =>
    key ← option_context (v8_string_new key) "unable to create map key v8 string";
    value ← to_v8 value;
    Ok (v8_set (v8_key key) value obj)) acc m = Ok (acc ++ ps).
Proof.
  induction 1 as [|[k v] p m ps (x & -> & Hv & _) _ IH]; intros acc Hnd Hk Hacc; cbn; [by rewrite app_nil_r|].
  apply NoDup_cons in Hnd as [Hfresh Hnd]. destruct (Hk k) as (-> & Hn & Hp); [cbn; by left|]. cbn in Hv |- *.
  rewrite Hv. cbn. rewrite Hn. unfold v8_set. rewrite decide_False by congruence.
  rewrite v8_put_fresh by (apply Hacc; cbn; by left).
  rewrite IH; [by rewrite <- app_assoc|done| |].
  - intros k' Hk'. apply Hk. cbn. by right.
  - intros k' Hk'. rewrite fmap_app, not_elem_of_app. split; [apply Hacc; cbn; by right|].
    cbn. intros [= ->]%list_elem_of_singleton. done.
Qed.

Lemma from_v8_entries m ps : Forall2 entry m ps -> forall acc, NoDup m.*1 -> (forall k, k ∈ m.*1 -> k ∉ acc.*1) ->
  foldM (read_property from_v8) acc ps = Ok (acc ++ ((fun kv => (kv.1, as_numbers kv.2)) <$> m)).
Proof.
  induction 1 as [|[k v] p m ps (x & -> & _ & Hu & Hv) _ IH]; intros acc Hnd Hacc; cbn; [by rewrite app_nil_r|].
  apply NoDup_cons in Hnd as [Hfresh Hnd]. cbn in Hv. rewrite Hu, Hv. cbn.
  rewrite alist_insert_fresh by (apply Hacc; cbn; by left).
  rewrite IH; [by rewrite <- app_assoc|done|].
  intros k' Hk'. rewrite fmap_app, not_elem_of_app. split; [apply Hacc; cbn; by right|].
  cbn. intros ->%list_elem_of_singleton. done.
Qed.

Lemma exact_converts v : v8_exact v -> exists x, converts v x.
Proof.
  induction v as [|s| |n| |f| |l IH|m IH] using ev_nested_ind; cbn [v8_exact]; intros H;
    try (by eexists; split; [|split]).
  - exists (V8String s). split; [cbn; by rewrite H|done].
  - exists (V8Date f). split; [cbn; by rewrite H|done].
  - apply distinct_forall in H. assert (exists xs, Forall2 converts l xs) as [xs Hxs].
    { clear -IH H. induction IH as [|v l Hv _ IHl]; [by exists []|]. apply Forall_cons in H as [H1 H2].
      destruct (Hv H1) as [x Hx], (IHl H2) as [xs Hxs]. exists (x :: xs). by constructor. }
    exists (V8Array xs). split; [cbn; by rewrite (to_v8_elements _ _ Hxs)|]. split; [done|].
    cbn. by rewrite (from_v8_elements _ _ Hxs).
  - destruct H as (Hnd & Hk & H). apply (distinct_forall (fun kv => v8_exact kv.2)) in H.
    assert (exists ps, Forall2 entry m ps) as [ps Hps].
    { clear -IH H. induction IH as [|kv m Hv _ IHm]; [by exists []|]. apply Forall_cons in H as [H1 H2].
      destruct (Hv H1) as [x Hx], (IHm H2) as [ps Hps].
      exists ((KName kv.1, Some x) :: ps). constructor; [by exists x|done]. }
    exists (V8Object ps). split; [|split; [done|]]; cbn.
    + rewrite (to_v8_entries _ _ Hps []); [done|done|done|]. intros k _. apply not_elem_of_nil.
    + rewrite (from_v8_entries _ _ Hps []); [done|done|]. intros k _. apply not_elem_of_nil.
Qed.

(** C28: An entity value given to an endpoint and saved again unchanged is the
    same value, at every depth, but for integers, which come back as floating
    point numbers, as long as V8 holds its texts and dates exactly and no property is
    named as an index or [__proto__]. *)
Theorem v8_roundtrip v : v8_exact v -> (x ← to_v8 v; from_v8 x) = Ok (as_numbers v).
Proof. intros (x & -> & _ & H)%exact_converts. exact H. Qed.

End Survives.

(** The bytes of a view, and what is stored of it: also the bytes of the buffer
    that the view does not show. *)
Lemma view_stores_rest buffer offset length : (offset + length <= List.length buffer)%nat ->
  exists rest, from_v8 (V8View buffer offset length) = Ok (EvBytes (take length (drop offset buffer) ++ rest)) /\
    List.length rest = (List.length buffer - offset - length)%nat.
Proof.
  intros H. exists (drop length (drop offset buffer)). cbn. unfold view_bytes. rewrite take_drop.
  split; [done|]. rewrite !length_drop. lia.
Qed.

(** A property named as an index stops the worker. *)
Lemma index_property_panics n v props : is_undefined v = false ->
  from_v8 (V8Object ((KNumber n, Some v) :: props)) = Panic unwrap_err.
Proof. intros H. cbn. by rewrite H. Qed.

Module V8Sample.
#[export] Instance v8 : V8Lib := { v8_string_new s := Some s; v8_date_new t := Some t; v8_key s := KName s }.
Definition value : EntityValue :=
  EvMap [("name", EvString "Ada"); ("scores", EvArray [EvInt64 3; EvBoolean true]);
         ("photo", EvBytes [7%Z]); ("boss", EvMap [("born", EvJsDate (f64_of_Z 0)); ("nick", EvNull)])].
End V8Sample.

Lemma v8_roundtrip_witness :
  (x ← to_v8 (VL := V8Sample.v8) V8Sample.value; from_v8 x) = Ok (as_numbers V8Sample.value).
Proof.
  apply (v8_roundtrip (VL := V8Sample.v8)). cbn.
  assert (forall k, v8_string_new (V8Lib := V8Sample.v8) k = Some k /\ v8_key (V8Lib := V8Sample.v8) k = KName k) as Hk
    by (by split).
  split; [repeat (apply NoDup_cons; split; [set_solver|]); constructor|]. split.
  { intros k Hin. repeat split. intros ->. set_solver. }
  repeat split; [repeat (apply NoDup_cons; split; [set_solver|]); constructor|].
  intros ->. set_solver.
Defined.
