(* ===== verification/Ops.v ===== *)
(** * What the endpoints call ([server/src/ops/datastore.rs], [job.rs], [job_context.rs])

    A worker runs the JavaScript of a version.  It accepts jobs, opens a
    transaction for each, and calls the operations of this file; several calls of
    one job may be under way at once, and each is suspended wherever it awaits the
    lock of the transaction or the database.

    The state of a worker is a heap: resources that JavaScript names by number
    (job contexts and query streams), data contexts ([Rc]), transactions ([Arc]
    of a mutex), and the calls under way.  What nothing refers to is dropped at the
    end of every step ([collect]), as counting references does at once; a
    transaction that is dropped is rolled back.  A call under way is a [Task], of which a
    step runs one part.  What the database and the policies of TypeScript answer
    comes with the step. *)

From S2P Require Import Prelude Json EntityValue Expr Types Builtin TypeSystem Policies Auth Http Query Sql Engine Crud V8Value.
From S2P Require PolicyEngine.

(** ** Jobs *)

Inductive JobInfo :=
  | JobHttp (method path : string) (headers : list (string * string)) (authentication : Authentication)
  | JobKafka.

Definition job_path (i : JobInfo) : option string :=
  match i with JobHttp _ path _ _ => Some path | JobKafka => None end.
Definition job_headers (i : JobInfo) : option (list (string * string)) :=
  match i with JobHttp _ _ headers _ => Some headers | JobKafka => None end.
Definition job_user_id (i : JobInfo) : option string :=
  match i with JobHttp _ _ _ (UserId uid) => Some uid | _ => None end.

(** [ChiselRequestContext for JobInfo] *)
Definition todo {A} : result A := Panic "not yet implemented".
Definition request_method (i : JobInfo) : result string :=
  match i with JobHttp method _ _ _ => Ok method | JobKafka => todo end.
Definition request_path (i : JobInfo) : result string :=
  match i with JobHttp _ path _ _ => Ok path | JobKafka => todo end.
Definition request_headers (i : JobInfo) : result (list (string * string)) :=
  match i with JobHttp _ _ headers _ => Ok headers | JobKafka => todo end.
Definition request_token (i : JobInfo) : result (option json) :=
  match i with
  | JobHttp _ _ _ (Jwt val) => Ok (Some val)
  | JobHttp _ _ _ _ => Ok None
  | JobKafka => todo
  end.

(** All a policy may ask, in the order in which [to_value] asks it. *)
Definition request_context (i : JobInfo) : result PolicyEngine.RequestContext :=
  method ← request_method i;
  path ← request_path i;
  headers ← request_headers i;
  token ← request_token i;
  Ok {| PolicyEngine.method := method; PolicyEngine.path := path; PolicyEngine.headers := headers;
        PolicyEngine.user_id := job_user_id i; PolicyEngine.token := token |}.

(** [VersionJob]; the data of an event is passed on as it is. *)
Record KafkaEvent := { ke_topic : string; ke_key : list Z; ke_value : list Z }.
Inductive VersionJob := VJHttp (job : HttpRequestResponse) | VJKafka (event : KafkaEvent) | VJOutbox.
Inductive AcceptedJob :=
  | AcceptedHttp (request : HttpRequest) (ctx_rid : nat)
  | AcceptedKafka (event : KafkaEvent) (ctx_rid : nat)
  | AcceptedOutbox (ctx_rid : nat).

(** ** Tasks *)

(** The rows of a statement, of which one may be an error; none for a statement
    that is executed only. *)
Abbreviation Reply R := (list (result R)).

Section Tasks.
(** Rows of the database. *)
Context {R : Type}.

(** What is left to do of a call, outside and inside of the lock of its
    transaction.  [AskRead] and [AskWrite] are the policies of a type. *)
Inductive Task (V : Type) :=
  | Return (r : result V)
  | Lock (b : Locked V)
  | AskWrite (ty : ObjectType) (value : EntityMap) (action : WriteAction) (k : result EntityMap -> Task V)
with Locked (V : Type) :=
  | Exec (s : SqlWithArguments) (k : Reply R -> Locked V)
  | AskRead (ty : ObjectType) (value : EntityMap) (k : result (option EntityMap) -> Locked V)
  | Unlock (t : Task V).
End Tasks.

Arguments Return {R V}. Arguments Lock {R V}. Arguments AskWrite {R V}.
Arguments Exec {R V}. Arguments AskRead {R V}. Arguments Unlock {R V}.
Arguments Task : clear implicits.
Arguments Locked : clear implicits.

Scheme Task_ind' := Induction for Task Sort Prop
  with Locked_ind' := Induction for Locked Sort Prop.
Combined Scheme Task_Locked_ind from Task_ind', Locked_ind'.

(** What a call gives to JavaScript. *)
Inductive Ret :=
  | RetUnit
  | RetIds (ids : IdTree)
  | RetObject (o : json_object)
  | RetRid (rid : nat)
  | RetValue (v : V8)
  | RetJob (job : option AcceptedJob).

Section Ops.
Context {R : Type} {RW : AnyRow R}.
Context {RL : RegexLib} {ML : MethodLib} {FT : FloatText} {QD : QuotedData} {JT : JsonText} {UU : UuidLib} {BT : BytesText}.
Context {B64 : Base64} {FU : FormUrlencoded} {VL : V8Lib}.

(** The version of the worker, the kind of the database, the identifiers that are
    drawn, what the policies of TypeScript make of the filter of a type, and the fuel of
    plans. *)
Record WorkerEnv := {
  we_type_system : TypeSystem;
  we_policy_system : PolicySystem;
  we_version_id : string;
  we_typescript_policies : bool;
  we_target : TargetDatabase;
  we_new_v4 : list string -> string;
  we_read_filter : JobInfo -> ObjectType -> result (option Expr);
  we_fuel : nat;
}.
Context (env : WorkerEnv).

(** What plans are made from, in a transaction of a job. *)
Definition plan_context (info : JobInfo) : DataContext :=
  {| ctx_type_system := we_type_system env;
     ctx_policy_system := we_policy_system env;
     ctx_user_id := job_user_id info;
     ctx_path := job_path info;
     feat_typescript_policies := we_typescript_policies env;
     make_read_filter_expr := we_read_filter env info |}.

(** The first error of a reply. *)
Fixpoint reply_error (rows : Reply R) : option anyhow :=
  match rows with
  | [] => None
  | Err e :: _ => Some e
  | _ :: rows => reply_error rows
  end.

(** [run_sql_queries] *)
Fixpoint run_sql_queries {V} (queries : list SqlWithArguments) (k : Locked R V) : Locked R V :=
  match queries with
  | [] => k
  | q :: queries =>
      Exec q (fun rows =>
        match reply_error rows with
        | Some e => Unlock (Return (Err e))
        | None => run_sql_queries queries k
        end)
  end.

Definition exists_query (ty : ObjectType) (id : string) : SqlWithArguments :=
  {| sql := "SELECT 1 from " +:+ quoted (obj_backing_table ty) +:+ " where id=$1"; args := [SqlString id] |}.

(** [is_object_creation], which locks the transaction for itself *)
Definition creation_task {V} (ty : ObjectType) (obj : EntityMap) (k : bool -> Task R V) : Task R V :=
  Lock (match alist_get "id" obj with
        | None => Unlock (k true)
        | Some id =>
            match as_str id with
            | Ok id =>
                Exec (exists_query ty id) (fun rows =>
                  match rows with
                  | Err e :: _ => Unlock (Return (Err e))
                  | [] => Unlock (k true)
                  | _ => Unlock (k false)
                  end)
            | Err e => Unlock (Return (Err e))
            | Panic w => Unlock (Return (Panic w))
            end
        end).

(** The part of [add_row] after the policies. *)
Definition insert_task (ty : ObjectType) (record : EntityMap) : Task R Ret :=
  match prepare_insertion (we_new_v4 env) ty record (we_type_system env) with
  | Ok (inserts, id_tree) => Lock (run_sql_queries inserts (Unlock (Return (Ok (RetIds id_tree)))))
  | Err e => Return (Err e)
  | Panic w => Return (Panic w)
  end.

Definition add_row_task (ty : ObjectType) (record : EntityMap) : Task R Ret :=
  if we_typescript_policies env then
    creation_task ty record (fun is_creation =>
      AskWrite ty record (if is_creation then Create else Update) (fun r =>
        match r with
        | Ok record => insert_task ty record
        | Err e => Return (Err e)
        | Panic w => Return (Panic w)
        end))
  else insert_task ty record.

(** [mutate_with_transaction] *)
Definition mutate_task (mutation : Mutation) : Task R Ret :=
  Lock (match build_sql mutation (we_target env) with
        | Ok text =>
            run_sql_queries [{| sql := text; args := [] |}] (Unlock (Return (Ok RetUnit)))
        | Err e => Unlock (Return (Err e))
        | Panic w => Unlock (Return (Panic w))
        end).

(** ** Queries by URL *)

(** One row of a query. *)
Definition decode_row (query : Query.Query) (row : result R) : result EntityMap :=
  project (row ← row; row_to_entity_value (we_target env) (q_fields query) row) (q_allowed_fields query).

Definition entity_object (m : EntityMap) : json_object :=
  match ev_to_json (EvMap m) with JObject o => o | _ => [] end.

(** [ValidatedEntityStream], polled to its end; then the first error, or all
    values. *)
Fixpoint collect_rows {V} (ty : ObjectType) (rows : list (result EntityMap)) (acc : list (result EntityMap))
    (k : list (result EntityMap) -> Locked R V) : Locked R V :=
  match rows with
  | [] => k acc
  | Ok value :: rows =>
      if we_typescript_policies env then
        AskRead ty value (fun r =>
          match r with
          | Ok (Some value) => collect_rows ty rows (acc ++ [Ok value]) k
          | Ok None => collect_rows ty rows acc k
          | Err e => collect_rows ty rows (acc ++ [Err e]) k
          | Panic w => Unlock (Return (Panic w))
          end)
      else collect_rows ty rows (acc ++ [Ok value]) k
  | Err e :: rows => collect_rows ty rows (acc ++ [Err e]) k
  | Panic w :: _ => Unlock (Return (Panic w))
  end.

Definition collect_results (rows : list (result EntityMap)) : result (list EntityMap) :=
  match mapM id rows with
  | Err (APolicyError e) => Err (APolicyError e)
  | Err e => Err (AContext "failed to collect result rows from the database" e)
  | r => r
  end.

(** The objects the rows stand for, and the answer made of them. *)
Definition crud_objects (rows : list (result EntityMap)) : result (list json_object) :=
  results ← collect_results rows;
  Ok (List.map entity_object results).

Definition crud_answer (info : JobInfo) (params : QueryParams) (rows : list (result EntityMap)) : result Ret :=
  o ← run_query (we_fuel env) (plan_context info) (fun _ => crud_objects rows) params;
  Ok (RetObject o).

(** [run_query]: the plan is made when it is called, the rest is the future. *)
Definition crud_task (info : JobInfo) (params : QueryParams) : result (Task R Ret) :=
  base_type ← with_context (map_err ts_error (lookup_entity (we_type_system env) (type_name params)))
                "unexpected type name as crud query base type";
  query ← from_url_query base_type (url_query params) (we_type_system env);
  query_plan ← from_ops (we_fuel env) (plan_context info) base_type (make_query_ops query);
  raw ← build_query query_plan (we_target env);
  Ok (Lock (Exec {| sql := raw_sql raw; args := [] |} (fun rows =>
        collect_rows (object_type base_type) (decode_row raw <$> rows) [] (fun rows =>
          Unlock (Return (crud_answer info params rows)))))).
End Ops.

(** ** The worker *)

Section Worker.
Context {R : Type} {RW : AnyRow R}.
Context {RL : RegexLib} {ML : MethodLib} {FT : FloatText} {QD : QuotedData} {JT : JsonText} {UU : UuidLib} {BT : BytesText}.
Context {B64 : Base64} {FU : FormUrlencoded} {VL : V8Lib}.
Context (env : WorkerEnv).

(** A job context; the sender of the response is taken when it is used. *)
Record Job := { j_info : JobInfo; j_response_tx : bool; j_current : option nat }.
Record DataCtx := { dc_txn : nat; dc_info : JobInfo }.

(** The stream of a query takes the lock when it is first polled and gives it, and
    the transaction, back when it has come to its end. *)
Inductive StreamState := StreamNew | StreamRows (rows : Reply R) | StreamEnded.
Record Stream := {
  st_txn : nat;
  st_query : Query.Query;
  st_ty : Entity;
  st_state : StreamState;
  st_next : option EntityMap;
}.

Inductive Running := Outside (t : Task R Ret) | Inside (b : Locked R Ret).

(** Calls under way, with what their futures own. *)
Inductive Op :=
  | OpBegin (rid : nat) (info : JobInfo)
  | OpCommit (rid txn : nat)
  | OpRun (job ctx : option nat) (txn : nat) (run : Running)
  | OpNext (stream : nat)
  | OpAccept.

(** [w_committed] are the transactions of which the commit was answered, each with the
    statements that were sent in it; what the database makes of a statement that
    failed is its own. *)
Record World := {
  w_next : nat;
  w_table : gset nat;
  w_jobs : gmap nat Job;
  w_streams : gmap nat Stream;
  w_ctxs : gmap nat DataCtx;
  w_txns : gmap nat (list SqlWithArguments);
  w_ops : gmap nat Op;
  w_job_rx : bool;
  w_queue : list VersionJob;
  w_committed : list (nat * list SqlWithArguments);
  w_responses : list (nat * HttpResponse);
}.

Definition world_new : World :=
  {| w_next := 0; w_table := ∅; w_jobs := ∅; w_streams := ∅; w_ctxs := ∅; w_txns := ∅; w_ops := ∅;
     w_job_rx := true; w_queue := []; w_committed := []; w_responses := [] |}.

Definition set_table f (w : World) : World :=
  {| w_next := w_next w; w_table := f (w_table w); w_jobs := w_jobs w; w_streams := w_streams w; w_ctxs := w_ctxs w;
     w_txns := w_txns w; w_ops := w_ops w; w_job_rx := w_job_rx w; w_queue := w_queue w;
     w_committed := w_committed w; w_responses := w_responses w |}.
Definition set_jobs f (w : World) : World :=
  {| w_next := w_next w; w_table := w_table w; w_jobs := f (w_jobs w); w_streams := w_streams w; w_ctxs := w_ctxs w;
     w_txns := w_txns w; w_ops := w_ops w; w_job_rx := w_job_rx w; w_queue := w_queue w;
     w_committed := w_committed w; w_responses := w_responses w |}.
Definition set_streams f (w : World) : World :=
  {| w_next := w_next w; w_table := w_table w; w_jobs := w_jobs w; w_streams := f (w_streams w); w_ctxs := w_ctxs w;
     w_txns := w_txns w; w_ops := w_ops w; w_job_rx := w_job_rx w; w_queue := w_queue w;
     w_committed := w_committed w; w_responses := w_responses w |}.
Definition set_ctxs f (w : World) : World :=
  {| w_next := w_next w; w_table := w_table w; w_jobs := w_jobs w; w_streams := w_streams w; w_ctxs := f (w_ctxs w);
     w_txns := w_txns w; w_ops := w_ops w; w_job_rx := w_job_rx w; w_queue := w_queue w;
     w_committed := w_committed w; w_responses := w_responses w |}.
Definition set_txns f (w : World) : World :=
  {| w_next := w_next w; w_table := w_table w; w_jobs := w_jobs w; w_streams := w_streams w; w_ctxs := w_ctxs w;
     w_txns := f (w_txns w); w_ops := w_ops w; w_job_rx := w_job_rx w; w_queue := w_queue w;
     w_committed := w_committed w; w_responses := w_responses w |}.
Definition set_ops f (w : World) : World :=
  {| w_next := w_next w; w_table := w_table w; w_jobs := w_jobs w; w_streams := w_streams w; w_ctxs := w_ctxs w;
     w_txns := w_txns w; w_ops := f (w_ops w); w_job_rx := w_job_rx w; w_queue := w_queue w;
     w_committed := w_committed w; w_responses := w_responses w |}.
Definition set_rx rx queue (w : World) : World :=
  {| w_next := w_next w; w_table := w_table w; w_jobs := w_jobs w; w_streams := w_streams w; w_ctxs := w_ctxs w;
     w_txns := w_txns w; w_ops := w_ops w; w_job_rx := rx; w_queue := queue;
     w_committed := w_committed w; w_responses := w_responses w |}.
Definition set_done committed responses (w : World) : World :=
  {| w_next := w_next w; w_table := w_table w; w_jobs := w_jobs w; w_streams := w_streams w; w_ctxs := w_ctxs w;
     w_txns := w_txns w; w_ops := w_ops w; w_job_rx := w_job_rx w; w_queue := w_queue w;
     w_committed := committed; w_responses := responses |}.

(** A number that was never used. *)
Definition fresh_id (w : World) : nat * World :=
  (w_next w,
   {| w_next := S (w_next w); w_table := w_table w; w_jobs := w_jobs w; w_streams := w_streams w; w_ctxs := w_ctxs w;
      w_txns := w_txns w; w_ops := w_ops w; w_job_rx := w_job_rx w; w_queue := w_queue w;
      w_committed := w_committed w; w_responses := w_responses w |}).

(** ** References *)

Definition op_resource (o : Op) : option nat :=
  match o with OpRun job _ _ _ => job | OpCommit rid _ => Some rid | OpNext stream => Some stream | _ => None end.
Definition op_ctx (o : Op) : option nat := match o with OpRun _ ctx _ _ => ctx | _ => None end.
Definition op_txn (o : Op) : option nat :=
  match o with OpRun _ _ txn _ => Some txn | OpCommit _ txn => Some txn | _ => None end.
Definition stream_txn (s : Stream) : option nat :=
  match st_state s with StreamEnded => None | _ => Some (st_txn s) end.

(** What resources, data contexts and transactions are held by. *)
Definition holds_resource (w : World) (r : nat) : bool :=
  bool_decide (r ∈ w_table w) || bool_decide (map_Exists (fun _ o => op_resource o = Some r) (w_ops w)).
Definition ops_hold_ctx (w : World) (c : nat) : bool := bool_decide (map_Exists (fun _ o => op_ctx o = Some c) (w_ops w)).
Definition holds_ctx (w : World) (c : nat) : bool :=
  bool_decide (map_Exists (fun _ j => j_current j = Some c) (w_jobs w)) || ops_hold_ctx w c.
(** The users of a transaction besides its data context. *)
Definition uses_txn (w : World) (t : nat) : bool :=
  bool_decide (map_Exists (fun _ o => op_txn o = Some t) (w_ops w)) ||
  bool_decide (map_Exists (fun _ s => stream_txn s = Some t) (w_streams w)).
Definition holds_txn (w : World) (t : nat) : bool :=
  bool_decide (map_Exists (fun _ c => dc_txn c = t) (w_ctxs w)) || uses_txn w t.

(** References that go out of scope: first those of resources, then what these
    owned. *)
Definition collect_resources (w : World) : World :=
  let live := fun r => holds_resource w r = true in
  set_streams (filter (fun e => live e.1)) (set_jobs (filter (fun e => live e.1)) w).
Definition collect_ctxs (w : World) : World := set_ctxs (filter (fun e => holds_ctx w e.1 = true)) w.
Definition collect_txns (w : World) : World := set_txns (filter (fun e => holds_txn w e.1 = true)) w.
Definition collect (w : World) : World := collect_txns (collect_ctxs (collect_resources w)).

(** ** The lock of a transaction *)

Definition op_locks (t : nat) (o : Op) : Prop :=
  match o with OpRun _ _ txn (Inside _) => txn = t | _ => False end.
#[export] Instance op_locks_dec t o : Decision (op_locks t o).
Proof. unfold op_locks. destruct o as [| |? ? ? []| |]; apply _. Defined.
Definition stream_locks (t : nat) (s : Stream) : Prop :=
  match st_state s with StreamRows _ => st_txn s = t | _ => False end.
#[export] Instance stream_locks_dec t s : Decision (stream_locks t s).
Proof. unfold stream_locks. destruct (st_state s); apply _. Defined.
Definition locked (w : World) (t : nat) : bool :=
  bool_decide (map_Exists (fun _ o => op_locks t o) (w_ops w)) ||
  bool_decide (map_Exists (fun _ s => stream_locks t s) (w_streams w)).

(** ** Calls of JavaScript *)

Definition bad_resource {A} : result A := bail "Bad resource ID".
Definition get_job (w : World) (rid : nat) : result Job :=
  if decide (rid ∈ w_table w) then match w_jobs w !! rid with Some j => Ok j | None => bad_resource end
  else bad_resource.
Definition get_stream (w : World) (rid : nat) : result Stream :=
  if decide (rid ∈ w_table w) then match w_streams w !! rid with Some s => Ok s | None => bad_resource end
  else bad_resource.

(** [JobContext::data_context] *)
Definition data_context (w : World) (j : Job) : result (nat * DataCtx) :=
  match j_current j with
  | Some c => d ← unwrap (w_ctxs w !! c) "dangling reference"; Ok (c, d)
  | None => bail "No transaction in the current context"
  end.

Definition set_current (current : option nat) (j : Job) : Job :=
  {| j_info := j_info j; j_response_tx := j_response_tx j; j_current := current |}.

(** What became of a step: a call returned, or is under way. *)
Inductive Outcome := Returned (call : option nat) (r : result Ret) | Pending (call : nat) | Sent.

(** A call that does not wait, and one that does. *)
Definition now (w : World) (r : result Ret) : World * Outcome := (collect w, Returned None r).
Definition wait (w : World) (o : Op) : World * Outcome :=
  let '(id, w) := fresh_id w in (collect (set_ops (<[id := o]>) w), Pending id).
Definition now_err {A} (w : World) (r : result A) : World * Outcome := now w (_ ← r; Ok RetUnit).

Definition op_chisel_begin_transaction (w : World) (job_ctx_rid : nat) : World * Outcome :=
  match get_job w job_ctx_rid with
  | Ok ctx => wait w (OpBegin job_ctx_rid (j_info ctx))
  | e => now_err w e
  end.

(** The data context is taken out of the job first; the calls under way may hold
    other references to it, and streams and calls to its transaction. *)
Definition take_transaction (w : World) (job_ctx_rid : nat) (in_progress : string) : World * result nat :=
  match get_job w job_ctx_rid with
  | Ok ctx =>
      match j_current ctx with
      | None => (w, bail "Cannot commit a transaction because no transaction is in progress")
      | Some c =>
          let w := set_jobs (<[job_ctx_rid := set_current None ctx]>) w in
          if holds_ctx w c then
            (w, bail "Cannot commit because a reference to the transaction is still being held.")
          else
            match w_ctxs w !! c with
            | None => (w, Panic "dangling reference")
            | Some data_ctx =>
                let w := set_ctxs (delete c) w in
                if holds_txn w (dc_txn data_ctx) then (w, bail in_progress) else (w, Ok (dc_txn data_ctx))
            end
      end
  | Err e => (w, Err e)
  | Panic p => (w, Panic p)
  end.

Definition op_chisel_commit_transaction (w : World) (job_ctx_rid : nat) : World * Outcome :=
  match take_transaction w job_ctx_rid "Cannot commit a transaction because there is an operation in progress that uses this transaction" with
  | (w, Ok txn) => wait w (OpCommit job_ctx_rid txn)
  | (w, e) => now_err w e
  end.

Definition op_chisel_rollback_transaction (w : World) (job_ctx_rid : nat) : World * Outcome :=
  match take_transaction w job_ctx_rid "Cannot rollback transaction because there is an operation in progress that uses this transaction" with
  | (w, r) => now_err w r
  end.

Definition is_auth_path (version_id routing_path : string) : bool :=
  String.eqb version_id "__chiselstrike" && starts_with routing_path "/auth/".

(** The value is read before the job is looked up. *)
Definition op_chisel_store (w : World) (name : string) (value : V8) (job_ctx_rid : nat) : World * Outcome :=
  let r :=
    value ← from_v8 value;
    ctx ← get_job w job_ctx_rid;
    ty ← match lookup_type (we_type_system env) name with
         | Ok (TEntity ty) => Ok ty
         | Panic p => Panic p
         | _ => bail ("Cannot save into type " +:+ name)
         end;
    if is_auth ty && negb (is_auth_path (we_version_id env) (default "" (job_path (j_info ctx)))) then
      bail ("Cannot save into auth type " +:+ name)
    else
      '(c, data_ctx) ← data_context w ctx;
      val ← as_map value;
      Ok (OpRun (Some job_ctx_rid) (Some c) (dc_txn data_ctx) (Outside (add_row_task env (object_type ty) val))) in
  match r with Ok o => wait w o | e => now_err w e end.

(** A mutation: only the transaction is held while it runs. *)
Definition delete_call (w : World) (job_ctx_rid : nat) (msg : string) (make : DataContext -> result Mutation)
    : World * Outcome :=
  let r :=
    context ← get_job w job_ctx_rid;
    '(c, data_ctx) ← data_context w context;
    mutation ← with_context (make (plan_context env (dc_info data_ctx))) msg;
    Ok (OpRun None None (dc_txn data_ctx) (Outside (mutate_task env mutation))) in
  match r with Ok o => wait w o | e => now_err w e end.

Definition op_chisel_delete (w : World) (type_name : string) (filter_expr : option Expr) (job_ctx_rid : nat) :=
  delete_call w job_ctx_rid "failed to construct delete expression from JSON passed to `op_chisel_delete`"
    (fun ctx => delete_from_expr (we_fuel env) ctx type_name filter_expr).

Definition op_chisel_crud_delete (w : World) (type_name : string) (url_query : list (string * string)) (job_ctx_rid : nat) :=
  delete_call w job_ctx_rid "failed to construct delete expression from JSON passed to `op_chisel_crud_delete`"
    (fun ctx => delete_from_url_query (we_fuel env) ctx type_name url_query).

Definition op_chisel_crud_query (w : World) (params : QueryParams) (job_ctx_rid : nat) : World * Outcome :=
  let r :=
    context ← get_job w job_ctx_rid;
    c ← option_context (j_current context) "No transaction in this context";
    data_ctx ← unwrap (w_ctxs w !! c) "dangling reference";
    task ← crud_task env (dc_info data_ctx) params;
    Ok (OpRun None None (dc_txn data_ctx) (Outside task)) in
  match r with Ok o => wait w o | e => now_err w e end.

Definition op_chisel_relational_query_create (w : World) (op_chain : QueryOpChain) (job_ctx_rid : nat) : World * Outcome :=
  let r :=
    context ← get_job w job_ctx_rid;
    '(c, data_ctx) ← data_context w context;
    query_plan ← from_op_chain (we_fuel env) (plan_context env (dc_info data_ctx)) op_chain;
    query ← build_query query_plan (we_target env);
    Ok {| st_txn := dc_txn data_ctx; st_query := query; st_ty := base_type query_plan;
          st_state := StreamNew; st_next := None |} in
  match r with
  | Ok resource =>
      let '(rid, w) := fresh_id w in
      now (set_table (union {[rid]}) (set_streams (<[rid := resource]>) w)) (Ok (RetRid rid))
  | e => now_err w e
  end.

Definition op_chisel_query_next (w : World) (query_stream_rid : nat) : World * Outcome :=
  match get_stream w query_stream_rid with
  | Ok _ => wait w (OpNext query_stream_rid)
  | e => now_err w e
  end.

Definition set_next (next : option EntityMap) (s : Stream) : Stream :=
  {| st_txn := st_txn s; st_query := st_query s; st_ty := st_ty s; st_state := st_state s; st_next := next |}.
Definition set_state (state : StreamState) (s : Stream) : Stream :=
  {| st_txn := st_txn s; st_query := st_query s; st_ty := st_ty s; st_state := state; st_next := st_next s |}.

(** The value is taken before its policies are asked: [process_read] is their
    answer. *)
Definition op_chisel_query_get_value (w : World) (query_stream_rid ctx : nat)
    (process_read : ObjectType -> EntityMap -> result (option EntityMap)) : World * Outcome :=
  match get_stream w query_stream_rid with
  | Ok s =>
      let w' := set_streams (<[query_stream_rid := set_next None s]>) w in
      let r :=
        match st_next s with
        | None => Ok V8Null
        | Some v =>
            if we_typescript_policies env then
              context ← get_job w ctx;
              _ ← data_context w context;
              v ← process_read (object_type (st_ty s)) v;
              match v with Some v => to_v8 (EvMap v) | None => Ok V8Null end
            else to_v8 (EvMap v)
        end in
      now w' (r ← r; Ok (RetValue r))
  | e => now_err w e
  end.

(** [Deno.core.close] *)
Definition op_close (w : World) (rid : nat) : World * Outcome :=
  if decide (rid ∈ w_table w) then now (set_table (fun t => t ∖ {[rid]}) w) (Ok RetUnit)
  else now w bad_resource.

Definition op_chisel_http_respond (w : World) (ctx : nat) (response : HttpResponse) : World * Outcome :=
  match get_job w ctx with
  | Ok j =>
      match j_info j with
      | JobHttp _ _ _ _ =>
          if j_response_tx j then
            now (set_done (w_committed w) (w_responses w ++ [(ctx, response)])
                   (set_jobs (<[ctx := {| j_info := j_info j; j_response_tx := false; j_current := j_current j |}]>) w))
              (Ok RetUnit)
          else now w (bail "Response already send for that request")
      | JobKafka => now w (bail "invalid request type")
      end
  | e => now_err w e
  end.

Definition op_chisel_accept_job (w : World) : World * Outcome :=
  if w_job_rx w then wait (set_rx false (w_queue w) w) OpAccept
  else now w (bail "op_chisel_accept_job cannot be called while another call is pending").

(** The context of a job, and what JavaScript is told of it. *)
Definition job_of (job : VersionJob) : Job :=
  match job with
  | VJHttp rr =>
      let request := job_request rr in
      {| j_info := JobHttp (hr_method request) (hr_routing_path request)
                     (PolicyEngine.collect_headers (hr_headers request)) (job_authentication rr);
         j_response_tx := true; j_current := None |}
  | VJKafka _ | VJOutbox => {| j_info := JobKafka; j_response_tx := false; j_current := None |}
  end.
Definition accepted (job : VersionJob) (rid : nat) : AcceptedJob :=
  match job with
  | VJHttp rr => AcceptedHttp (job_request rr) rid
  | VJKafka event => AcceptedKafka event rid
  | VJOutbox => AcceptedOutbox rid
  end.

Inductive Call :=
  | CallBegin (rid : nat)
  | CallCommit (rid : nat)
  | CallRollback (rid : nat)
  | CallStore (name : string) (value : V8) (rid : nat)
  | CallDelete (type_name : string) (filter_expr : option Expr) (rid : nat)
  | CallCrudDelete (type_name : string) (url_query : list (string * string)) (rid : nat)
  | CallCrudQuery (params : QueryParams) (rid : nat)
  | CallQueryCreate (op_chain : QueryOpChain) (rid : nat)
  | CallQueryNext (stream : nat)
  | CallGetValue (stream rid : nat) (process_read : ObjectType -> EntityMap -> result (option EntityMap))
  | CallClose (rid : nat)
  | CallRespond (rid : nat) (response : HttpResponse)
  | CallAccept.

Definition call (w : World) (c : Call) : World * Outcome :=
  match c with
  | CallBegin rid => op_chisel_begin_transaction w rid
  | CallCommit rid => op_chisel_commit_transaction w rid
  | CallRollback rid => op_chisel_rollback_transaction w rid
  | CallStore name value rid => op_chisel_store w name value rid
  | CallDelete type_name filter_expr rid => op_chisel_delete w type_name filter_expr rid
  | CallCrudDelete type_name url_query rid => op_chisel_crud_delete w type_name url_query rid
  | CallCrudQuery params rid => op_chisel_crud_query w params rid
  | CallQueryCreate op_chain rid => op_chisel_relational_query_create w op_chain rid
  | CallQueryNext stream => op_chisel_query_next w stream
  | CallGetValue stream rid process_read => op_chisel_query_get_value w stream rid process_read
  | CallClose rid => op_close w rid
  | CallRespond rid response => op_chisel_http_respond w rid response
  | CallAccept => op_chisel_accept_job w
  end.

(** ** Steps *)

(** What a call that is under way was waiting for. *)
Inductive Answer :=
  | AnsDone (r : result unit)
  | AnsRows (rows : Reply R)
  | AnsWrite (r : result EntityMap)
  | AnsRead (r : result (option EntityMap))
  | AnsNone.

Definition finish (w : World) (id : nat) (r : result Ret) : option (World * Outcome) :=
  Some (collect (set_ops (delete id) w), Returned (Some id) r).
Definition continue (w : World) (id : nat) (o : Op) : option (World * Outcome) :=
  Some (collect (set_ops (<[id := o]>) w), Pending id).

(** The rest of [op_chisel_begin_transaction], once the database has begun. *)
Definition resume_begin (w : World) (id rid : nat) (info : JobInfo) (r : result unit) : option (World * Outcome) :=
  match r with
  | Ok _ =>
      let '(txn, w) := fresh_id w in
      let w := set_txns (<[txn := []]>) w in
      let '(c, w) := fresh_id w in
      match get_job w rid with
      | Ok ctx =>
          match j_current ctx with
          | Some _ => finish w id (bail "A transaction is already open for this context")
          | None =>
              finish (set_jobs (<[rid := set_current (Some c) ctx]>)
                        (set_ctxs (<[c := {| dc_txn := txn; dc_info := info |}]>) w)) id (Ok RetUnit)
          end
      | e => finish w id (_ ← e; Ok RetUnit)
      end
  | e => finish w id (_ ← e; Ok RetUnit)
  end.

(** The commit of the whole transaction; when it fails the transaction is dropped. *)
Definition resume_commit (w : World) (id txn : nat) (r : result unit) : option (World * Outcome) :=
  match r with
  | Ok _ =>
      finish (set_done (w_committed w ++ [(txn, default [] (w_txns w !! txn))]) (w_responses w) w) id (Ok RetUnit)
  | e => finish w id (_ ← e; Ok RetUnit)
  end.

Definition resume_run (w : World) (id : nat) (job ctx : option nat) (txn : nat) (run : Running) (a : Answer)
    : option (World * Outcome) :=
  let next w run := continue w id (OpRun job ctx txn run) in
  match run, a with
  | Outside (Return r), AnsNone => finish w id r
  | Outside (Lock b), AnsNone => if locked w txn then None else next w (Inside b)
  | Outside (AskWrite _ _ _ k), AnsWrite r => next w (Outside (k r))
  | Inside (Exec s k), AnsRows rows => next (set_txns (alter (fun log => log ++ [s]) txn) w) (Inside (k rows))
  | Inside (AskRead _ _ k), AnsRead r => next w (Inside (k r))
  | Inside (Unlock t), AnsNone => next w (Outside t)
  | _, _ => None
  end.

(** [QueryNextFuture::poll]; a call on a closed stream is cancelled. *)
Definition resume_next (w : World) (id sid : nat) (a : Answer) : option (World * Outcome) :=
  if decide (sid ∉ w_table w) then finish w id (bail "operation canceled")
  else
    s ← w_streams w !! sid;
    let put s := set_streams (<[sid := s]>) w in
    match st_state s, a with
    | StreamNew, AnsRows rows =>
        if locked w (st_txn s) then None
        else Some (collect (set_txns (alter (fun log => log ++ [{| sql := raw_sql (st_query s); args := [] |}]) (st_txn s))
                     (put (set_state (StreamRows rows) s))), Pending id)
    | StreamRows (row :: rows), AnsNone =>
        let s := set_state (StreamRows rows) s in
        match decode_row env (st_query s) row with
        | Ok v => finish (set_streams (<[sid := set_next (Some v) s]>) w) id (Ok RetUnit)
        | Err e => finish (put s) id (Err e)
        | Panic p => finish (put s) id (Panic p)
        end
    | StreamRows [], AnsNone => finish (put (set_state StreamEnded s)) id (Ok RetUnit)
    | StreamEnded, AnsNone => finish w id (Ok RetUnit)
    | _, _ => None
    end.

(** The receiver is put back before the job is looked at.  When no job is left and
    the server has closed the channel ([AnsDone]), there are no more jobs. *)
Definition resume_accept (w : World) (id : nat) (a : Answer) : option (World * Outcome) :=
  match w_queue w, a with
  | [], AnsDone _ => finish (set_rx true [] w) id (Ok (RetJob None))
  | job :: queue, AnsNone =>
      let '(rid, w) := fresh_id (set_rx true queue w) in
      finish (set_table (union {[rid]}) (set_jobs (<[rid := job_of job]>) w)) id (Ok (RetJob (Some (accepted job rid))))
  | _, _ => None
  end.

Inductive Event :=
  | EvCall (c : Call)
  | EvResume (call : nat) (a : Answer)
  | EvSend (job : VersionJob).

Definition step (w : World) (e : Event) : option (World * Outcome) :=
  match e with
  | EvCall c => Some (call w c)
  | EvSend job => Some (set_rx (w_job_rx w) (w_queue w ++ [job]) w, Sent)
  | EvResume id a =>
      o ← w_ops w !! id;
      match o, a with
      | OpBegin rid info, AnsDone r => resume_begin w id rid info r
      | OpCommit _ txn, AnsDone r => resume_commit w id txn r
      | OpRun job ctx txn run, a => resume_run w id job ctx txn run a
      | OpNext sid, a => resume_next w id sid a
      | OpAccept, a => resume_accept w id a
      | _, _ => None
      end
  end.

Inductive steps : World -> list (Event * Outcome) -> World -> Prop :=
  | steps_nil w : steps w [] w
  | steps_cons w e o w' trace w'' : step w e = Some (w', o) -> steps w' trace w'' -> steps w ((e, o) :: trace) w''.

Definition reachable (w : World) : Prop := exists trace, steps world_new trace w.

End Worker.
