(* ===== verification/OpsSpec.v ===== *)
(** * What the endpoints may rely on

    The invariant of a worker's heap: references do not dangle, a transaction
    belongs to one data context, a data context to one job, and a lock to one call or
    stream.  Then what it gives: transactions are committed once, completely and by
    themselves, and a commit that is refused loses its transaction. *)

From S2P Require Import Prelude Json EntityValue Expr Types Builtin TypeSystem Policies Auth Http Query Sql Engine Crud V8Value Ops.

Section Spec.
Context {R : Type} {RW : AnyRow R}.
Context {RL : RegexLib} {ML : MethodLib} {FT : FloatText} {QD : QuotedData} {JT : JsonText} {UU : UuidLib} {BT : BytesText}.
Context {B64 : Base64} {FU : FormUrlencoded} {VL : V8Lib}.
Context (env : WorkerEnv).
Abbreviation World := (@World R).
Abbreviation step := (@step R _ _ _ _ _ _ _ _ _ _ _ env).
Abbreviation steps := (@steps R _ _ _ _ _ _ _ _ _ _ _ env).

(** ** References *)

Lemma exists_true {A} (m : gmap nat A) (P : A -> Prop) `{forall x, Decision (P x)} :
  bool_decide (map_Exists (fun _ x => P x) m) = true <-> exists i x, m !! i = Some x /\ P x.
Proof. by rewrite bool_decide_eq_true. Qed.

Lemma exists_false {A} (m : gmap nat A) (P : A -> Prop) `{forall x, Decision (P x)} :
  bool_decide (map_Exists (fun _ x => P x) m) = false <-> forall i x, m !! i = Some x -> ~ P x.
Proof.
  rewrite bool_decide_eq_false. split.
  - intros Hno i x Hi HP. apply Hno. by exists i, x.
  - intros Hno (i & x & Hi & HP). by eapply Hno.
Qed.

Lemma holds_resource_true (w : World) r : holds_resource w r = true <->
  r ∈ w_table w \/ exists i o, w_ops w !! i = Some o /\ op_resource o = Some r.
Proof. unfold holds_resource. by rewrite orb_true_iff, bool_decide_eq_true, exists_true. Qed.

Lemma ops_hold_ctx_true (w : World) c : ops_hold_ctx w c = true <-> exists i o, w_ops w !! i = Some o /\ op_ctx o = Some c.
Proof. unfold ops_hold_ctx. by rewrite exists_true. Qed.

Lemma holds_ctx_true (w : World) c : holds_ctx w c = true <->
  (exists r j, w_jobs w !! r = Some j /\ j_current j = Some c) \/ exists i o, w_ops w !! i = Some o /\ op_ctx o = Some c.
Proof. unfold holds_ctx. by rewrite orb_true_iff, exists_true, ops_hold_ctx_true. Qed.

Lemma uses_txn_true (w : World) t : uses_txn w t = true <->
  (exists i o, w_ops w !! i = Some o /\ op_txn o = Some t) \/
  exists r s, w_streams w !! r = Some s /\ stream_txn s = Some t.
Proof. unfold uses_txn. by rewrite orb_true_iff, !exists_true. Qed.

Lemma holds_txn_true (w : World) t : holds_txn w t = true <->
  (exists c d, w_ctxs w !! c = Some d /\ dc_txn d = t) \/
  (exists i o, w_ops w !! i = Some o /\ op_txn o = Some t) \/
  exists r s, w_streams w !! r = Some s /\ stream_txn s = Some t.
Proof. unfold holds_txn. by rewrite orb_true_iff, exists_true, uses_txn_true. Qed.

Lemma locked_true (w : World) t : locked w t = true <->
  (exists i o, w_ops w !! i = Some o /\ op_locks t o) \/ exists r s, w_streams w !! r = Some s /\ stream_locks t s.
Proof. unfold locked. by rewrite orb_true_iff, !exists_true. Qed.

(** ** Dropping what is not referred to *)

Lemma collect_jobs (w : World) r j : w_jobs (collect w) !! r = Some j <->
  w_jobs w !! r = Some j /\ holds_resource w r = true.
Proof. cbn. by rewrite map_lookup_filter_Some. Qed.
Lemma collect_streams (w : World) r s : w_streams (collect w) !! r = Some s <->
  w_streams w !! r = Some s /\ holds_resource w r = true.
Proof. cbn. by rewrite map_lookup_filter_Some. Qed.
Lemma collect_ctxs_lookup (w : World) c d : w_ctxs (collect w) !! c = Some d <->
  w_ctxs w !! c = Some d /\ holds_ctx (collect_resources w) c = true.
Proof. cbn. by rewrite map_lookup_filter_Some. Qed.
Lemma collect_txns_lookup (w : World) t l : w_txns (collect w) !! t = Some l <->
  w_txns w !! t = Some l /\ holds_txn (collect_ctxs (collect_resources w)) t = true.
Proof. cbn. by rewrite map_lookup_filter_Some. Qed.

Lemma collect_ops (w : World) : w_ops (collect w) = w_ops w. Proof. done. Qed.
Lemma collect_table (w : World) : w_table (collect w) = w_table w. Proof. done. Qed.

(** ** The invariant *)

(** The job a call under way holds. *)
Definition op_job (o : Op (R:=R)) : option nat :=
  match o with OpRun job _ _ _ => job | OpCommit rid _ => Some rid | _ => None end.

(** What holds also in the middle of a step, before references are dropped. *)
Record wf (w : World) : Prop := {
  wf_fresh : forall n, w_next w <= n -> n ∉ w_table w /\ w_jobs w !! n = None /\ w_streams w !! n = None /\
    w_ctxs w !! n = None /\ w_txns w !! n = None /\ w_ops w !! n = None;
  wf_table : forall r, r ∈ w_table w -> is_Some (w_jobs w !! r) \/ is_Some (w_streams w !! r);
  wf_kinds : forall r, is_Some (w_jobs w !! r) -> w_streams w !! r = None;
  wf_op_job : forall i o r, w_ops w !! i = Some o -> op_job o = Some r -> is_Some (w_jobs w !! r);
  wf_op_stream : forall i s, w_ops w !! i = Some (OpNext s) -> is_Some (w_streams w !! s);
  wf_current : forall r j c, w_jobs w !! r = Some j -> j_current j = Some c -> is_Some (w_ctxs w !! c);
  wf_op_ctx : forall i o c, w_ops w !! i = Some o -> op_ctx o = Some c -> is_Some (w_ctxs w !! c);
  wf_ctx_txn : forall c d, w_ctxs w !! c = Some d -> is_Some (w_txns w !! dc_txn d);
  wf_op_txn : forall i o t, w_ops w !! i = Some o -> op_txn o = Some t -> is_Some (w_txns w !! t);
  wf_stream_txn : forall r s t, w_streams w !! r = Some s -> stream_txn s = Some t -> is_Some (w_txns w !! t);
  wf_one_job : forall r r' j j' c, w_jobs w !! r = Some j -> w_jobs w !! r' = Some j' ->
    j_current j = Some c -> j_current j' = Some c -> r = r';
  wf_one_ctx : forall c c' d d', w_ctxs w !! c = Some d -> w_ctxs w !! c' = Some d' -> dc_txn d = dc_txn d' -> c = c';
  wf_commit_ctx : forall i q t c d, w_ops w !! i = Some (OpCommit q t) -> w_ctxs w !! c = Some d -> dc_txn d <> t;
  wf_commit_op : forall i q t i' o, w_ops w !! i = Some (OpCommit q t) -> w_ops w !! i' = Some o -> op_txn o = Some t -> i' = i;
  wf_commit_stream : forall i q t r s, w_ops w !! i = Some (OpCommit q t) -> w_streams w !! r = Some s -> stream_txn s <> Some t;
  wf_lock_op : forall i i' o o' t, w_ops w !! i = Some o -> w_ops w !! i' = Some o' -> op_locks t o -> op_locks t o' -> i = i';
  wf_lock_stream : forall r r' s s' t, w_streams w !! r = Some s -> w_streams w !! r' = Some s' ->
    stream_locks t s -> stream_locks t s' -> r = r';
  wf_lock_mixed : forall i o r s t, w_ops w !! i = Some o -> w_streams w !! r = Some s ->
    op_locks t o -> stream_locks t s -> False;
  wf_committed : forall t log, (t, log) ∈ w_committed w -> t < w_next w /\ holds_txn w t = false;
  wf_once : NoDup (w_committed w).*1;
}.

(** Between steps nothing is kept that nothing refers to. *)
Record tidy (w : World) : Prop := {
  td_wf : wf w;
  td_jobs : forall r, is_Some (w_jobs w !! r) -> holds_resource w r = true;
  td_streams : forall r, is_Some (w_streams w !! r) -> holds_resource w r = true;
  td_ctxs : forall c, is_Some (w_ctxs w !! c) -> holds_ctx w c = true;
  td_txns : forall t, is_Some (w_txns w !! t) -> holds_txn w t = true;
}.

Lemma collect_holds_ctx (w : World) c : holds_ctx (collect w) c = holds_ctx (collect_resources w) c.
Proof. done. Qed.

Lemma collect_holds_txn (w : World) t : holds_txn (collect w) t = holds_txn (collect_ctxs (collect_resources w)) t.
Proof. done. Qed.

Lemma collect_holds_less (w : World) t : holds_txn (collect w) t = true -> holds_txn w t = true.
Proof.
  rewrite !holds_txn_true. intros [(c & d & H%collect_ctxs_lookup & Ht)|[H|(r & s & H%collect_streams & Ht)]].
  - left. exists c, d. by destruct H.
  - right. by left.
  - right. right. exists r, s. by destruct H.
Qed.

Lemma collect_tidy (w : World) : wf w -> tidy (collect w).
Proof.
  intros [Ff Ft Fk Fj Fs Fc Fo Fx Fp Fq Fu Fv Fm Fn Fr Fl Fls Flm Fd Fe].
  split; [split|..].
  - intros n Hn. destruct (Ff n Hn) as (H1 & H2 & H3 & H4 & H5 & H6). rewrite collect_ops, collect_table. repeat split; [done|..|done];
      apply eq_None_not_Some; intros [x Hx]; [apply collect_jobs in Hx|apply collect_streams in Hx|apply collect_ctxs_lookup in Hx|apply collect_txns_lookup in Hx];
      destruct Hx; congruence.
  - intros r Hr. destruct (Ft r Hr) as [[x Hx]|[x Hx]]; [left|right]; exists x; [apply collect_jobs|apply collect_streams];
      (split; [done|apply holds_resource_true; by left]).
  - intros r [j [Hj _]%collect_jobs]. apply eq_None_not_Some. intros [s [Hs _]%collect_streams].
    rewrite Fk in Hs by by eexists. done.
  - intros i o r Hi Ho. destruct (Fj _ _ _ Hi Ho) as [j Hj]. exists j. apply collect_jobs. split; [done|].
    apply holds_resource_true. right. exists i, o. split; [done|]. by destruct o.
  - intros i s Hi. destruct (Fs _ _ Hi) as [x Hx]. exists x. apply collect_streams. split; [done|].
    apply holds_resource_true. right. by exists i, (OpNext s).
  - intros r j c Hj Hc. pose proof Hj as [Hj' _]%collect_jobs. destruct (Fc _ _ _ Hj' Hc) as [d Hd]. exists d.
    apply collect_ctxs_lookup. split; [done|]. apply holds_ctx_true. left. exists r, j. split; [|done]. exact Hj.
  - intros i o c Hi Hc. destruct (Fo _ _ _ Hi Hc) as [d Hd]. exists d. apply collect_ctxs_lookup. split; [done|].
    apply holds_ctx_true. right. by exists i, o.
  - intros c d Hd. pose proof Hd as [Hd' _]%collect_ctxs_lookup. destruct (Fx _ _ Hd') as [l Hl]. exists l.
    apply collect_txns_lookup. split; [done|]. apply holds_txn_true. left. exists c, d. split; [|done]. exact Hd.
  - intros i o t Hi Ht. destruct (Fp _ _ _ Hi Ht) as [l Hl]. exists l. apply collect_txns_lookup. split; [done|].
    apply holds_txn_true. right. left. by exists i, o.
  - intros r s t Hs Ht. pose proof Hs as [Hs' _]%collect_streams. destruct (Fq _ _ _ Hs' Ht) as [l Hl]. exists l.
    apply collect_txns_lookup. split; [done|]. apply holds_txn_true. right. right. exists r, s. split; [|done]. exact Hs.
  - intros r r' j j' c [H _]%collect_jobs [H' _]%collect_jobs. by eapply Fu.
  - intros c c' d d' [H _]%collect_ctxs_lookup [H' _]%collect_ctxs_lookup. by eapply Fv.
  - intros i q t c d Hi [H _]%collect_ctxs_lookup. by eapply Fm.
  - exact Fn.
  - intros i q t r s Hi [H _]%collect_streams. by eapply Fr.
  - exact Fl.
  - intros r r' s s' t [H _]%collect_streams [H' _]%collect_streams. by eapply Fls.
  - intros i o r s t Hi [H _]%collect_streams. by eapply Flm.
  - intros t log Hin. destruct (Fd t log Hin) as [Hlt Hno]. split; [done|].
    apply not_true_iff_false. intros H%collect_holds_less. congruence.
  - exact Fe.
  - intros r [j [_ Hj]%collect_jobs]. exact Hj.
  - intros r [s [_ Hs]%collect_streams]. exact Hs.
  - intros c [d [_ Hd]%collect_ctxs_lookup]. exact Hd.
  - intros t [l [_ Hl]%collect_txns_lookup]. exact Hl.
Qed.

(** ** How the parts of the heap change *)

Ltac lookups :=
  repeat match goal with
  | H : <[_ := _]> _ !! _ = Some _ |- _ => let E := fresh in apply lookup_insert_Some in H as [[? E]|[? H]]; [subst|]
  | H : delete _ _ !! _ = Some _ |- _ => apply lookup_delete_Some in H as [? H]
  end.

Lemma is_Some_insert {A} (m : gmap nat A) i x k : is_Some (m !! k) -> is_Some (<[i := x]> m !! k).
Proof. intros H. destruct (decide (i = k)) as [->|Hne]; [rewrite lookup_insert_eq; by eexists|by rewrite lookup_insert_ne]. Qed.

Lemma wf_fresh_id (w : World) : wf w -> wf (fresh_id w).2.
Proof.
  intros []. split; cbn; try done.
  - intros n Hn. apply wf_fresh0. lia.
  - intros t log H. destruct (wf_committed0 t log H). split; [lia|done].
Qed.

(** A transaction that is held was not committed. *)
Lemma held_not_committed (w : World) t : wf w -> holds_txn w t = true -> forall log, (t, log) ∉ w_committed w.
Proof. intros Hw Ht log Hin. destruct (wf_committed w Hw t log Hin). congruence. Qed.

Lemma wf_delete_op (w : World) i : wf w -> wf (set_ops (delete i) w).
Proof.
  intros []. split; cbn; intros; lookups; eauto.
  - destruct (wf_fresh0 n) as (? & ? & ? & ? & ? & Hn); [done|]. repeat split; try done.
    by apply lookup_delete_None; right.
  - destruct (wf_committed0 _ _ ltac:(eassumption)) as [Hlt Hno]. split; [done|].
    apply not_true_iff_false. intros Ht. apply not_true_iff_false in Hno. apply Hno, holds_txn_true.
    apply holds_txn_true in Ht as [Ht|[(k & o & Hk & Ht)|Ht]]; [by left|cbn in Hk; lookups|by right; right].
    right. left. by exists k, o.
Qed.

(** What a call may own. *)
Record op_ok (w : World) (i : nat) (o : Op (R:=R)) : Prop := {
  ok_job : forall r, op_job o = Some r -> is_Some (w_jobs w !! r);
  ok_stream : forall s, o = OpNext s -> is_Some (w_streams w !! s);
  ok_ctx : forall c, op_ctx o = Some c -> is_Some (w_ctxs w !! c);
  ok_txn : forall t, op_txn o = Some t -> is_Some (w_txns w !! t) /\ (forall log, (t, log) ∉ w_committed w) /\
    forall i' q, i' <> i -> w_ops w !! i' <> Some (OpCommit q t);
  ok_commit : forall q t, o = OpCommit q t -> (forall c d, w_ctxs w !! c = Some d -> dc_txn d <> t) /\
    (forall i' o', i' <> i -> w_ops w !! i' = Some o' -> op_txn o' <> Some t) /\
    (forall r s, w_streams w !! r = Some s -> stream_txn s <> Some t);
  ok_lock : forall t, op_locks t o -> (forall i' o', i' <> i -> w_ops w !! i' = Some o' -> ~ op_locks t o') /\
    (forall r s, w_streams w !! r = Some s -> ~ stream_locks t s);
}.

Lemma op_locks_txn t (o : Op (R:=R)) : op_locks t o -> op_txn o = Some t.
Proof. destruct o as [| |? ? ? []| |]; cbn; intros; by subst. Qed.
Lemma stream_locks_txn t s : stream_locks (R:=R) t s -> stream_txn s = Some t.
Proof. unfold stream_locks, stream_txn. destruct (st_state s); intros; by subst. Qed.

Lemma wf_insert_op (w : World) i o : wf w -> i < w_next w -> op_ok w i o -> wf (set_ops <[i := o]> w).
Proof.
  intros [] Hi [Oj Os Oc Ot Om Ol]. split; cbn; intros; lookups; eauto.
  - destruct (wf_fresh0 n) as (? & ? & ? & ? & ? & Hn); [done|]. repeat split; try done.
    rewrite lookup_insert_ne by lia. done.
  - by destruct (Ot _ ltac:(eassumption)).
  - by edestruct Om as (H' & _ & _); eauto.
  - edestruct Ot as (_ & _ & H'); [eassumption|]. by edestruct H'; [apply not_eq_sym|].
  - edestruct Om as (_ & H' & _); [reflexivity|]. edestruct H'; [|eassumption..]; done.
  - by edestruct Om as (_ & _ & H'); eauto.
  - edestruct Ol as [H' _]; [eassumption|]. by edestruct H'; [apply not_eq_sym| |]; eauto.
  - edestruct Ol as [H' _]; [eassumption|]. by edestruct H'; [| |]; eauto.
  - edestruct Ol as [_ H']; [eassumption|]. by edestruct H'; eauto.
  - destruct (wf_committed0 _ _ ltac:(eassumption)) as [Hlt Hno]. split; [done|].
    apply not_true_iff_false. intros Ht. apply not_true_iff_false in Hno. 
    apply holds_txn_true in Ht as [Ht|[(k & o' & Hk & Ht)|Ht]]; [apply Hno, holds_txn_true; by left| |apply Hno, holds_txn_true; by right; right].
    cbn in Hk. lookups; [|apply Hno, holds_txn_true; right; left; by exists k, o'].
    destruct (Ot _ Ht) as (_ & H' & _). by eapply H'.
Qed.

Lemma wf_insert_job (w : World) r j : wf w -> r < w_next w -> w_streams w !! r = None ->
  (forall c, j_current j = Some c -> is_Some (w_ctxs w !! c) /\
     forall r' j', r' <> r -> w_jobs w !! r' = Some j' -> j_current j' <> Some c) ->
  wf (set_jobs <[r := j]> w).
Proof.
  intros [] Hr Hs Hc. split; cbn; intros; lookups; eauto using is_Some_insert.
  - destruct (wf_fresh0 n) as (? & ? & ? & ? & ? & ?); [done|]. repeat split; try assumption.
    rewrite lookup_insert_ne by lia. done.
  - destruct (wf_table0 _ ltac:(eassumption)); eauto using is_Some_insert.
  - destruct (decide (r0 = r)) as [->|Hne]; [done|]. apply wf_kinds0. by rewrite lookup_insert_ne in H by done.
  - by edestruct Hc.
  - edestruct Hc as [_ H']; [eassumption|]. exfalso. by eapply H'; [apply not_eq_sym|..]; eassumption.
  - edestruct Hc as [_ H']; [eassumption|]. exfalso. by eapply H'; [apply not_eq_sym|..]; eassumption.
Qed.

Lemma wf_insert_stream (w : World) r s : wf w -> r < w_next w -> w_jobs w !! r = None ->
  (forall t, stream_txn s = Some t -> is_Some (w_txns w !! t) /\ (forall log, (t, log) ∉ w_committed w) /\
     forall i q, w_ops w !! i <> Some (OpCommit q t)) ->
  (forall t, stream_locks t s -> (forall i o, w_ops w !! i = Some o -> ~ op_locks t o) /\
     forall r' s', r' <> r -> w_streams w !! r' = Some s' -> ~ stream_locks t s') ->
  wf (set_streams <[r := s]> w).
Proof.
  intros [] Hr Hj Ht Hl. split; cbn; intros; lookups; eauto using is_Some_insert.
  - destruct (wf_fresh0 n) as (? & ? & ? & ? & ? & ?); [done|]. repeat split; try assumption.
    rewrite lookup_insert_ne by lia. done.
  - destruct (wf_table0 _ ltac:(eassumption)); eauto using is_Some_insert.
  - rewrite lookup_insert_ne; [by apply wf_kinds0|]. intros ->. rewrite Hj in H. by destruct H.
  - by edestruct Ht.
  - intros Hs. destruct (Ht _ Hs) as (_ & _ & H'). by eapply H'.
  - edestruct Hl as [_ H']; [eassumption|]. exfalso. by eapply H'; [apply not_eq_sym|..]; eassumption.
  - edestruct Hl as [_ H']; [eassumption|]. exfalso. by eapply H'; [apply not_eq_sym|..]; eassumption.
  - edestruct Hl as [H' _]; [eassumption|]. eapply H'; eassumption.
  - destruct (wf_committed0 _ _ ltac:(eassumption)) as [Hlt Hno]. split; [done|].
    apply not_true_iff_false. intros Hh. apply not_true_iff_false in Hno.
    apply holds_txn_true in Hh as [Hh|[Hh|(k & s' & Hk & Hh)]]; [apply Hno, holds_txn_true; by left|apply Hno, holds_txn_true; by right; left|].
    cbn in Hk. lookups; [|apply Hno, holds_txn_true; right; right; by exists k, s'].
    destruct (Ht _ Hh) as (_ & H' & _). by eapply H'.
Qed.

Lemma wf_insert_ctx (w : World) c d : wf w -> c < w_next w -> w_ctxs w !! c = None ->
  is_Some (w_txns w !! dc_txn d) -> holds_txn w (dc_txn d) = false -> (forall log, (dc_txn d, log) ∉ w_committed w) ->
  wf (set_ctxs <[c := d]> w).
Proof.
  intros [] Hc Hnew Ht Hno Hd. split; cbn; intros; lookups; eauto using is_Some_insert.
  - destruct (wf_fresh0 n) as (? & ? & ? & ? & ? & ?); [done|]. repeat split; try assumption.
    rewrite lookup_insert_ne by lia. done.
  - exfalso. apply not_true_iff_false in Hno. apply Hno, holds_txn_true. left. eauto.
  - exfalso. apply not_true_iff_false in Hno. apply Hno, holds_txn_true. left. eauto.
  - intros <-. apply not_true_iff_false in Hno. apply Hno, holds_txn_true. right. left. eexists _, _. by split; [eassumption|].
  - destruct (wf_committed0 _ _ ltac:(eassumption)) as [Hlt Hn]. split; [done|].
    apply not_true_iff_false. intros Hh. apply not_true_iff_false in Hn.
    apply holds_txn_true in Hh as [(k & d' & Hk & Hh)|Hh]; [|apply Hn, holds_txn_true; by right].
    cbn in Hk. lookups; [by eapply Hd|]. apply Hn, holds_txn_true. left. eauto.
Qed.

Lemma wf_delete_ctx (w : World) c : wf w -> holds_ctx w c = false -> wf (set_ctxs (delete c) w).
Proof.
  intros [] Hno. apply not_true_iff_false in Hno.
  assert (forall k, (exists r j, w_jobs w !! r = Some j /\ j_current j = Some k) \/
                    (exists i o, w_ops w !! i = Some o /\ op_ctx o = Some k) -> k <> c) as Hk.
  { intros k Hk ->. by apply Hno, holds_ctx_true. }
  split; cbn; intros; lookups; eauto.
  - destruct (wf_fresh0 n) as (? & ? & ? & ? & ? & ?); [done|]. repeat split; try assumption.
    apply lookup_delete_None. by right.
  - rewrite lookup_delete_ne by (apply not_eq_sym, Hk; left; eauto). eauto.
  - rewrite lookup_delete_ne by (apply not_eq_sym, Hk; right; eauto). eauto.
  - destruct (wf_committed0 _ _ ltac:(eassumption)) as [Hlt Hn]. split; [done|].
    apply not_true_iff_false. intros Hh. apply not_true_iff_false in Hn.
    apply holds_txn_true in Hh as [(k & d' & Hk' & Hh)|Hh]; [|apply Hn, holds_txn_true; by right].
    cbn in Hk'. lookups. apply Hn, holds_txn_true. left. eauto.
Qed.

Lemma wf_add_table (w : World) r : wf w -> r < w_next w -> is_Some (w_jobs w !! r) \/ is_Some (w_streams w !! r) ->
  wf (set_table (union {[r]}) w).
Proof.
  intros [] Hr Hs. split; cbn; eauto.
  - intros n Hn. destruct (wf_fresh0 n) as (? & ? & ? & ? & ? & ?); [done|]. repeat split; try assumption.
    rewrite elem_of_union, elem_of_singleton. intros [->|?]; [lia|done].
  - intros x. rewrite elem_of_union, elem_of_singleton. intros [->|?]; eauto.
Qed.

Lemma wf_del_table (w : World) r : wf w -> wf (set_table (fun t => t ∖ {[r]}) w).
Proof.
  intros []. split; cbn; eauto.
  - intros n Hn. destruct (wf_fresh0 n) as (? & ? & ? & ? & ? & ?); [done|]. repeat split; try assumption.
    by intros [? _]%elem_of_difference.
  - intros x [? _]%elem_of_difference. eauto.
Qed.

Lemma wf_insert_txn (w : World) t l : wf w -> t < w_next w -> wf (set_txns <[t := l]> w).
Proof.
  intros [] Ht. split; cbn; eauto using is_Some_insert.
  intros n Hn. destruct (wf_fresh0 n) as (? & ? & ? & ? & ? & ?); [done|]. repeat split; try assumption.
  rewrite lookup_insert_ne by lia. done.
Qed.

Lemma wf_alter_txn (w : World) f t : wf w -> wf (set_txns (alter f t) w).
Proof.
  intros []. assert (forall k, is_Some (w_txns w !! k) -> is_Some (alter f t (w_txns w) !! k)) as Hk.
  { intros k Hk. by apply lookup_alter_is_Some. }
  split; cbn; eauto.
  intros n Hn. destruct (wf_fresh0 n) as (? & ? & ? & ? & Hnone & ?); [done|]. repeat split; try assumption.
  apply eq_None_not_Some. rewrite lookup_alter_is_Some, Hnone. by apply is_Some_None.
Qed.

Lemma wf_set_rx (w : World) rx queue : wf w -> wf (set_rx rx queue w).
Proof. intros []. by split. Qed.

Lemma wf_set_done (w : World) cs rs : wf w -> (forall t log, (t, log) ∈ cs -> t < w_next w /\ holds_txn w t = false) ->
  NoDup cs.*1 -> wf (set_done cs rs w).
Proof. intros [] ??. by split. Qed.

Lemma wf_respond (w : World) rs : wf w -> wf (set_done (w_committed w) rs w).
Proof. intros Hw. apply wf_set_done; [done|apply Hw|apply Hw]. Qed.

Lemma wf_new : wf (world_new (R:=R)).
Proof. split; cbn; try (intros; set_solver || (repeat split; set_solver)). apply NoDup_nil_2. Qed.

(** ** Calls *)

Lemma get_job_ok (w : World) rid j : get_job w rid = Ok j <-> rid ∈ w_table w /\ w_jobs w !! rid = Some j.
Proof.
  unfold get_job, bad_resource, bail. destruct (decide _); [|naive_solver].
  destruct (w_jobs w !! rid); naive_solver.
Qed.

Lemma get_stream_ok (w : World) rid s : get_stream w rid = Ok s <-> rid ∈ w_table w /\ w_streams w !! rid = Some s.
Proof.
  unfold get_stream, bad_resource, bail. destruct (decide _); [|naive_solver].
  destruct (w_streams w !! rid); naive_solver.
Qed.

Lemma data_context_ok (w : World) j c d : data_context w j = Ok (c, d) ->
  j_current j = Some c /\ w_ctxs w !! c = Some d.
Proof.
  unfold data_context. destruct (j_current j) as [c'|]; [|done]. destruct (w_ctxs w !! c') as [d'|] eqn:E; [|done].
  intros [= <- <-]. done.
Qed.

Lemma wf_below (w : World) : wf w ->
  (forall r, is_Some (w_jobs w !! r) -> r < w_next w) /\ (forall r, is_Some (w_streams w !! r) -> r < w_next w) /\
  (forall i, is_Some (w_ops w !! i) -> i < w_next w) /\ (forall t, is_Some (w_txns w !! t) -> t < w_next w).
Proof.
  intros Hw. repeat split; intros x [y Hy]; destruct (decide (x < w_next w)) as [|Hge]; try done;
    destruct (wf_fresh w Hw x) as (? & ? & ? & ? & ? & ?); first [lia|congruence].
Qed.

Lemma tidy_now (w : World) r : wf w -> tidy (now w r).1.
Proof. apply collect_tidy. Qed.

Lemma tidy_wait (w : World) o : wf w -> op_ok w (w_next w) o -> tidy (wait w o).1.
Proof.
  intros Hw [Oj Os Oc Ot Om Ol]. apply collect_tidy. apply (wf_insert_op (fresh_id w).2); [by apply wf_fresh_id|cbn; lia|].
  by split.
Qed.

(** A call of [OpRun] that works in the transaction of a data context. *)
Lemma run_ok (w : World) job ctx c d t : wf w -> w_ctxs w !! c = Some d ->
  (forall r, job = Some r -> is_Some (w_jobs w !! r)) -> (forall k, ctx = Some k -> k = c) ->
  op_ok w (w_next w) (OpRun job ctx (dc_txn d) (Outside t)).
Proof.
  intros Hw Hc Hj Hk. split; cbn; try done.
  - intros k ->. rewrite (Hk k) by done. by eexists.
  - intros t' [= <-]. split; [by apply (wf_ctx_txn w Hw c d)|]. split.
    + apply held_not_committed; [done|]. apply holds_txn_true. left. eauto.
    + intros i q _ Hi. by apply (wf_commit_ctx w Hw i q (dc_txn d) c d).
Qed.

Lemma wf_update_job (w : World) rid j j' : wf w -> w_jobs w !! rid = Some j ->
  (forall c, j_current j' = Some c -> j_current j = Some c) -> wf (set_jobs <[rid := j']> w).
Proof.
  intros Hw Hj Hc. apply wf_insert_job; [done|destruct (wf_below w Hw) as [Hb _]; apply Hb; by eexists|apply wf_kinds; [done|by eexists]|].
  intros c Hcur. split; [eapply wf_current; eauto|].
  intros r' j'' Hne Hj'' Hcur'. apply Hne. eapply wf_one_job; eauto.
Qed.

Lemma take_transaction_wf (w : World) rid msg w' r : wf w -> take_transaction w rid msg = (w', r) ->
  wf w' /\ forall t, r = Ok t -> is_Some (w_jobs w' !! rid) /\ is_Some (w_txns w' !! t) /\ holds_txn w' t = false /\ forall log, (t, log) ∉ w_committed w'.
Proof.
  intros Hw. unfold take_transaction. destruct (get_job w rid) as [j|e|p] eqn:Ej; [|by intros [= <- <-]..].
  apply get_job_ok in Ej as [_ Ej]. destruct (j_current j) as [c|] eqn:Ec; [|by intros [= <- <-]].
  assert (wf (set_jobs <[rid := set_current None j]> w)) as Hw1 by (by eapply wf_update_job).
  set (w1 := set_jobs _ w) in *. destruct (holds_ctx w1 c) eqn:Hc; [by intros [= <- <-]|].
  destruct (w_ctxs w1 !! c) as [d|] eqn:Ed; [|by intros [= <- <-]].
  pose proof (wf_delete_ctx w1 c Hw1 Hc) as Hw2. set (w2 := set_ctxs _ w1) in *.
  destruct (holds_txn w2 (dc_txn d)) eqn:Ht; intros [= <- <-]; [by split|]. split; [done|].
  intros t [= <-]. split; [cbn; rewrite lookup_insert_eq; by eexists|]. split; [exact (wf_ctx_txn w Hw c d Ed)|]. split; [done|].
  apply (held_not_committed w); [done|]. apply holds_txn_true. left. by exists c, d.
Qed.

Lemma tidy_take (w : World) rid msg : wf w -> wf (take_transaction w rid msg).1.
Proof. intros Hw. destruct (take_transaction w rid msg) eqn:E. by eapply take_transaction_wf. Qed.

Lemma op_ok_commit (w : World) rid t : wf w -> is_Some (w_jobs w !! rid) -> is_Some (w_txns w !! t) -> holds_txn w t = false ->
  (forall log, (t, log) ∉ w_committed w) -> op_ok w (w_next w) (OpCommit rid t).
Proof.
  intros Hw Hj Ht Hno Hd. apply not_true_iff_false in Hno. rewrite holds_txn_true in Hno.
  split; cbn; try done.
  - by intros r [= <-].
  - intros t' [= <-]. repeat split; [done..|]. intros i q _ Hi. apply Hno. right. left. by eexists _, _.
  - intros q t' [= _ <-]. split; [|split].
    + intros c d Hc Heq. apply Hno. left. eauto.
    + intros i o _ Hi Heq. apply Hno. right. left. eauto.
    + intros r s Hs Heq. apply Hno. right. right. eauto.
Qed.

(** The calls: each either answers at once or starts a task. *)
Lemma commit_tidy (w : World) rid : wf w -> tidy (op_chisel_commit_transaction w rid).1.
Proof.
  intros Hw. unfold op_chisel_commit_transaction. destruct (take_transaction w rid _) as [w' r] eqn:E.
  apply take_transaction_wf in E as [Hw' Ht]; [|done]. destruct r as [t| |]; [|by apply tidy_now..].
  destruct (Ht t eq_refl) as (? & ? & ? & ?). apply tidy_wait; [done|]. by apply op_ok_commit.
Qed.

Lemma rollback_tidy (w : World) rid : wf w -> tidy (op_chisel_rollback_transaction w rid).1.
Proof.
  intros Hw. unfold op_chisel_rollback_transaction. pose proof (tidy_take w rid "Cannot rollback transaction because there is an operation in progress that uses this transaction" Hw).
  destruct (take_transaction _ _ _). by apply tidy_now.
Qed.

Lemma store_tidy (w : World) name v rid : wf w -> tidy (op_chisel_store env w name v rid).1.
Proof.
  intros Hw. unfold op_chisel_store.
  match goal with |- tidy (match ?r with _ => _ end).1 => destruct r as [o| |] eqn:E end; [|by apply tidy_now..].
  apply bind_ok in E as (v' & _ & E). apply bind_ok in E as (j & Ej & E). apply get_job_ok in Ej as [_ Ej].
  apply bind_ok in E as (ty & _ & E). destruct (is_auth ty && _); [done|].
  apply bind_ok in E as ([c d] & [Ecur Ec]%data_context_ok & E). apply bind_ok in E as (val & _ & E). injection E as <-.
  apply tidy_wait; [done|]. apply run_ok with c; [done..| |]; [|naive_solver].
  intros r [= <-]. by eexists.
Qed.

Lemma delete_tidy (w : World) rid msg make : wf w -> tidy (delete_call env w rid msg make).1.
Proof.
  intros Hw. unfold delete_call.
  match goal with |- tidy (match ?r with _ => _ end).1 => destruct r as [o| |] eqn:E end; [|by apply tidy_now..].
  apply bind_ok in E as (j & _ & E). apply bind_ok in E as ([c d] & [_ Ec]%data_context_ok & E).
  apply bind_ok in E as (m & _ & E). injection E as <-. apply tidy_wait; [done|]. by apply run_ok with c.
Qed.

Lemma crud_query_tidy (w : World) params rid : wf w -> tidy (op_chisel_crud_query env w params rid).1.
Proof.
  intros Hw. unfold op_chisel_crud_query.
  match goal with |- tidy (match ?r with _ => _ end).1 => destruct r as [o| |] eqn:E end; [|by apply tidy_now..].
  apply bind_ok in E as (j & _ & E). apply bind_ok in E as (c & _ & E). apply bind_ok in E as (d & Ed & E).
  apply bind_ok in E as (task & _ & E). injection E as <-. apply tidy_wait; [done|]. apply run_ok with c; [done| |done..].
  by destruct (w_ctxs w !! c); [injection Ed as ->|].
Qed.

Lemma query_create_tidy (w : World) chain rid : wf w -> tidy (op_chisel_relational_query_create env w chain rid).1.
Proof.
  intros Hw. unfold op_chisel_relational_query_create.
  match goal with |- tidy (match ?r with _ => _ end).1 => destruct r as [s| |] eqn:E end; [|by apply tidy_now..].
  apply bind_ok in E as (j & _ & E). apply bind_ok in E as ([c d] & [_ Ec]%data_context_ok & E).
  apply bind_ok in E as (plan & _ & E). apply bind_ok in E as (query & _ & E). injection E as <-.
  destruct (wf_fresh w Hw (w_next w)) as (? & ? & ? & ? & ? & ?); [done|].
  cbn [fresh_id]. apply tidy_now. apply wf_add_table; [|cbn; lia|right; cbn; by rewrite lookup_insert_eq].
  apply (wf_insert_stream (fresh_id w).2); [by apply wf_fresh_id|cbn; lia|done|..]; cbn; [|done].
  intros t [= <-]. split; [by apply (wf_ctx_txn w Hw c d)|]. split.
  - apply (held_not_committed w); [done|]. apply holds_txn_true. left. by exists c, d.
  - intros i q Hi. by apply (wf_commit_ctx w Hw i q (dc_txn d) c d).
Qed.

Lemma wf_update_stream (w : World) rid s s' : wf w -> w_streams w !! rid = Some s ->
  (forall t, stream_txn s' = Some t -> stream_txn s = Some t) ->
  (forall t, stream_locks t s' -> stream_locks t s \/ locked w t = false) ->
  wf (set_streams <[rid := s']> w).
Proof.
  intros Hw Hs Ht Hl. assert (rid < w_next w) by (destruct (wf_below w Hw) as (_ & Hb & _); apply Hb; by eexists).
  apply wf_insert_stream; [done..| | |].
  - apply eq_None_not_Some. intros Hj. by rewrite (wf_kinds w Hw rid Hj) in Hs.
  - intros t Hst%Ht. split; [by apply (wf_stream_txn w Hw rid s)|]. split.
    + apply held_not_committed; [done|]. apply holds_txn_true. right. right. eauto.
    + intros i q Hi. by apply (wf_commit_stream w Hw i q t rid s).
  - intros t [Hlock|Hno]%Hl.
    + split; [intros i o Hi Ho; by apply (wf_lock_mixed w Hw i o rid s t)|].
      intros r' s2 Hne Hs' Hlock'. apply Hne. by apply (wf_lock_stream w Hw r' rid s2 s t).
    + apply not_true_iff_false in Hno. rewrite locked_true in Hno. split; [|intros r' s'' _]; intros; intros ?; apply Hno; eauto.
Qed.

Lemma op_ok_none (w : World) o : op_resource o = None -> op_ctx o = None -> op_txn o = None -> op_ok w (w_next w) o.
Proof.
  intros Hr Hc Ht. split; try congruence.
  - intros r. destruct o; cbn in *; congruence.
  - by intros s ->.
  - by intros q t ->.
  - intros t Hl%op_locks_txn. congruence.
Qed.

Lemma next_tidy (w : World) sid : wf w -> tidy (op_chisel_query_next w sid).1.
Proof.
  intros Hw. unfold op_chisel_query_next. destruct (get_stream w sid) as [s| |] eqn:E; [|by apply tidy_now..].
  apply get_stream_ok in E as [_ E]. apply tidy_wait; [done|]. split; try done. intros s' [= <-]. by eexists.
Qed.

Lemma get_value_tidy (w : World) sid rid pr : wf w -> tidy (op_chisel_query_get_value env w sid rid pr).1.
Proof.
  intros Hw. unfold op_chisel_query_get_value. destruct (get_stream w sid) as [s| |] eqn:E; [|by apply tidy_now..].
  apply get_stream_ok in E as [_ E]. apply tidy_now. apply wf_update_stream with s; [done..|]. intros t. by left.
Qed.

Lemma respond_tidy (w : World) rid response : wf w -> tidy (op_chisel_http_respond w rid response).1.
Proof.
  intros Hw. unfold op_chisel_http_respond. destruct (get_job w rid) as [j| |] eqn:E; [|by apply tidy_now..].
  apply get_job_ok in E as [_ E]. destruct (j_info j); [|by apply tidy_now].
  destruct (j_response_tx j); [|by apply tidy_now]. apply tidy_now.
  apply (wf_respond (set_jobs _ w)). by apply wf_update_job with j.
Qed.

Lemma call_tidy (w : World) c : wf w -> tidy (call env w c).1.
Proof.
  intros Hw. destruct c; cbn [call].
  - unfold op_chisel_begin_transaction. destruct (get_job w rid); [|by apply tidy_now..].
    apply tidy_wait; [done|]. by apply op_ok_none.
  - by apply commit_tidy.
  - by apply rollback_tidy.
  - by apply store_tidy.
  - by apply delete_tidy.
  - by apply delete_tidy.
  - by apply crud_query_tidy.
  - by apply query_create_tidy.
  - by apply next_tidy.
  - by apply get_value_tidy.
  - unfold op_close. destruct (decide _); [|by apply tidy_now]. by apply tidy_now, wf_del_table.
  - by apply respond_tidy.
  - unfold op_chisel_accept_job. destruct (w_job_rx w); [|by apply tidy_now].
    apply tidy_wait; [by apply wf_set_rx|]. by apply op_ok_none.
Qed.

(** ** What was waited for *)

Lemma tidy_finish (w w' : World) i r o : wf w -> finish w i r = Some (w', o) -> tidy w'.
Proof. intros Hw [= <- _]. by apply collect_tidy, wf_delete_op. Qed.

(** A call that runs keeps its transaction, and may take its lock when no one else
    has it. *)
Lemma op_ok_run (w : World) i job ctx t run run' : wf w -> w_ops w !! i = Some (OpRun job ctx t run) ->
  ((exists b, run = Inside b) \/ (exists k, run' = Outside k) \/ locked w t = false) -> op_ok w i (OpRun job ctx t run').
Proof.
  intros Hw Hi Hl. split; cbn; try done.
  - intros r Hr. by eapply wf_op_job.
  - intros c Hc. by eapply wf_op_ctx.
  - intros t' [= <-]. split; [by apply (wf_op_txn w Hw i _ t Hi)|]. split.
    + apply held_not_committed; [done|]. apply holds_txn_true. right. left. eauto.
    + intros i' q Hne Hi'. apply Hne. symmetry. by apply (wf_commit_op w Hw i' q t i (OpRun job ctx t run)).
  - intros t'. destruct run' as [|b']; [done|]. intros <-. destruct Hl as [[b ->]|[[k [=]]|Hl]].
    + split.
      * intros i' o' Hne Hi' Ho'. apply Hne. by apply (wf_lock_op w Hw i' i o' (OpRun job ctx t (Inside b)) t).
      * intros r s Hs Hs'. by apply (wf_lock_mixed w Hw i (OpRun job ctx t (Inside b)) r s t).
    + apply not_true_iff_false in Hl. rewrite locked_true in Hl. split; intros; intros ?; apply Hl; eauto.
Qed.

Lemma tidy_continue (w w' : World) i job ctx t run run' o : wf w -> w_ops w !! i = Some (OpRun job ctx t run) ->
  ((exists b, run = Inside b) \/ (exists k, run' = Outside k) \/ locked w t = false) ->
  continue w i (OpRun job ctx t run') = Some (w', o) -> tidy w'.
Proof.
  intros Hw Hi Hl [= <- _]. apply collect_tidy, wf_insert_op; [done| |by eapply op_ok_run].
  destruct (wf_below w Hw) as (_ & _ & Hb & _). apply Hb. by eexists.
Qed.

Lemma resume_run_tidy (w w' : World) i job ctx t run a o : wf w -> w_ops w !! i = Some (OpRun job ctx t run) ->
  resume_run w i job ctx t run a = Some (w', o) -> tidy w'.
Proof.
  intros Hw Hi. unfold resume_run. destruct run as [[r|b|ty v act k]|[s k|ty v k|k]], a; try done.
  - by apply tidy_finish.
  - destruct (locked w t) eqn:El; [done|]. eapply tidy_continue; [done..|]. by right; right.
  - eapply tidy_continue; [done..|]. right. left. by eexists.
  - eapply tidy_continue; [by apply wf_alter_txn|done|]. left. by eexists.
  - eapply tidy_continue; [done..|]. left. by eexists.
  - eapply tidy_continue; [done..|]. left. by eexists.
Qed.

Lemma resume_next_tidy (w w' : World) i sid a o : wf w -> resume_next env w i sid a = Some (w', o) -> tidy w'.
Proof.
  intros Hw. unfold resume_next. destruct (decide _) as [?|_]; [by apply tidy_finish|].
  destruct (w_streams w !! sid) as [s|] eqn:Es; [|done]. cbn [mbind option_bind].
  assert (forall st n, st_state s <> StreamEnded ->
    (forall rows, st = StreamRows rows -> (exists rows', st_state s = StreamRows rows') \/ locked w (st_txn s) = false) ->
    wf (set_streams <[sid := set_next n (set_state st s)]> w)) as Hput.
  { intros st n Hs Hr. apply wf_update_stream with s; [done..| |]; unfold stream_txn, stream_locks; cbn.
    - intros t. destruct st; destruct (st_state s); naive_solver.
    - intros t. destruct st; [done| |done]. intros <-. destruct (Hr _ eq_refl) as [[rows' ->]|]; [by left|by right]. }
  destruct (st_state s) as [|[|row rows]|] eqn:Est, a; try done.
  - destruct (locked w (st_txn s)) eqn:El; [done|]. intros [= <- _]. apply collect_tidy, wf_alter_txn.
    apply (Hput (StreamRows rows) (st_next s)); [done|]. intros ? [= <-]. by right.
  - apply tidy_finish. by apply (Hput StreamEnded (st_next s)).
  - assert (forall n, wf (set_streams <[sid := set_next n (set_state (StreamRows rows) s)]> w)) as Hp.
    { intros n. apply Hput; [done|]. intros. left. by eexists. }
    change (st_query (set_state (StreamRows rows) s)) with (st_query s).
    destruct (decode_row env (st_query s) row); apply tidy_finish; [apply Hp|apply (Hp (st_next s))..].
  - by apply tidy_finish.
Qed.

Lemma resume_begin_tidy (w w' : World) i rid info r o : wf w -> resume_begin w i rid info r = Some (w', o) -> tidy w'.
Proof.
  intros Hw. unfold resume_begin. destruct r; [|by apply tidy_finish..]. cbn [fresh_id].
  destruct (wf_fresh w Hw (w_next w)) as (? & ? & ? & Hnc & Hnt & ?); [done|].
  pose proof (wf_fresh_id _ (wf_insert_txn _ (w_next w) [] (wf_fresh_id w Hw) ltac:(cbn; lia))) as Hw2.
  cbn in Hw2. set (w2 := set_txns _ _) in *. set (w3 := Build_World _ _ _ _ _ _ _ _ _ _ _) in *.
  destruct (get_job w3 rid) as [j| |] eqn:Ej; [|by apply tidy_finish..].
  apply get_job_ok in Ej as [_ Ej]. destruct (j_current j) eqn:Ec; [by apply tidy_finish|].
  apply tidy_finish. destruct (wf_fresh w Hw (S (w_next w))) as (? & ? & ? & Hnc' & ? & ?); [lia|].
  assert (holds_txn w (w_next w) = false) as Hno.
  { apply not_true_iff_false. rewrite holds_txn_true. destruct (wf_below w Hw) as (_ & _ & _ & Hb).
    intros [(c & d & Hc & Ht)|[(k & o' & Hk & Ht)|(k & s & Hk & Ht)]]; specialize (Hb (w_next w)).
    - rewrite <- Ht in Hb at 1. apply (wf_ctx_txn w Hw) in Hc. rewrite Ht in Hc. rewrite Ht in Hb. specialize (Hb Hc). lia.
    - specialize (Hb (wf_op_txn w Hw k o' _ Hk Ht)). lia.
    - specialize (Hb (wf_stream_txn w Hw k s _ Hk Ht)). lia. }
  apply wf_insert_job.
  - apply wf_insert_ctx; [done|cbn; lia|done|cbn; rewrite lookup_insert_eq; by eexists|exact Hno|].
    cbn. intros log Hin. destruct (wf_committed w Hw _ _ Hin). lia.
  - destruct (wf_below w3 Hw2) as [Hb _]. apply Hb. by eexists.
  - apply (wf_kinds w3 Hw2). by eexists.
  - cbn. intros c [= <-]. split; [rewrite lookup_insert_eq; by eexists|].
    intros r' j' _ Hj' Hcur. destruct (wf_current w Hw _ _ _ Hj' Hcur) as [? ?]. congruence.
Qed.

Lemma resume_commit_tidy (w w' : World) i q t r o : wf w -> w_ops w !! i = Some (OpCommit q t) ->
  resume_commit w i t r = Some (w', o) -> tidy w'.
Proof.
  intros Hw Hi. unfold resume_commit. destruct r; [|by apply tidy_finish..]. intros [= <- _].
  apply collect_tidy. change (wf (set_done (w_committed w ++ [(t, default [] (w_txns w !! t))]) (w_responses w) (set_ops (delete i) w))).
  pose proof (wf_delete_op w i Hw) as Hd.
  assert (forall log, (t, log) ∉ w_committed w) as Hnew.
  { apply held_not_committed; [done|]. apply holds_txn_true. right. left. by eexists _, _. }
  apply wf_set_done; [done|..].
  - intros t' log [Hin|Heq%list_elem_of_singleton]%elem_of_app; [by apply (wf_committed _ Hd _ log)|].
    injection Heq as -> ->. split; [destruct (wf_below w Hw) as (_ & _ & _ & Hb); apply Hb; by apply (wf_op_txn w Hw i (OpCommit q t))|].
    apply not_true_iff_false. rewrite holds_txn_true. cbn. intros [(c & d & Hc & Ht)|[(k & o' & Hk & Ht)|(k & s & Hk & Ht)]]; lookups.
    + by apply (wf_commit_ctx w Hw i q t c d).
    + assert (k = i) by (by apply (wf_commit_op w Hw i q t k o')). congruence.
    + by apply (wf_commit_stream w Hw i q t k s).
  - rewrite fmap_app. apply NoDup_app. split; [apply Hw|]. split; [|apply NoDup_singleton].
    cbn. intros x ((x', log) & -> & Hin)%list_elem_of_fmap Heq%list_elem_of_singleton. cbn in Heq. subst x'. by eapply Hnew.
Qed.

Lemma resume_accept_tidy (w w' : World) i a o : wf w -> resume_accept w i a = Some (w', o) -> tidy w'.
Proof.
  intros Hw. unfold resume_accept. destruct (w_queue w) as [|job queue], a; try done.
  - by apply tidy_finish, wf_set_rx.
  - cbn [fresh_id]. apply tidy_finish. destruct (wf_fresh w Hw (w_next w)) as (? & ? & ? & ? & ? & ?); [done|].
    apply wf_add_table; [|cbn; lia|left; cbn; by rewrite lookup_insert_eq].
    apply (wf_insert_job (fresh_id (set_rx true queue w)).2); [by apply wf_fresh_id, wf_set_rx|cbn; lia|done|].
    by destruct job.
Qed.

Lemma step_tidy (w w' : World) e o : tidy w -> step w e = Some (w', o) -> tidy w'.
Proof.
  intros Ht. pose proof (td_wf w Ht) as Hw. destruct e as [c|i a|job]; cbn [Ops.step].
  - intros [= E]. pose proof (call_tidy w c Hw) as H. by rewrite E in H.
  - destruct (w_ops w !! i) as [op|] eqn:Ei; [|done]. cbn [mbind option_bind].
    destruct op as [rid info|rid t|job ctx t run|sid|]; [destruct a as [r| | | |]; try done..| | |].
    + by apply resume_begin_tidy.
    + by apply (resume_commit_tidy w w' i rid t r o).
    + by apply resume_run_tidy.
    + by apply resume_next_tidy.
    + by apply resume_accept_tidy.
  - intros [= <- _]. destruct Ht. split; [by apply wf_set_rx|..]; done.
Qed.

Lemma steps_tidy (w w' : World) trace : tidy w -> steps w trace w' -> tidy w'.
Proof. intros Ht H. induction H; [done|]. apply IHsteps. by eapply step_tidy. Qed.

Lemma tidy_new : tidy (world_new (R:=R)).
Proof. split; [apply wf_new|..]; cbn; intros ? [? [=]]. Qed.

Lemma reachable_tidy (w : World) : reachable env w -> tidy w.
Proof. intros [trace H]. by eapply steps_tidy, H; apply tidy_new. Qed.

End Spec.
