(* ===== verification/WorkerSpec.v ===== *)
(** * What a step of a worker does to its heap

    [effect] names the ways in which a step changes the heap, before what is no
    longer referred to is dropped; [step_effect] shows that every step is one of
    them.  What endpoints may rely on is then shown by cases of [effect]. *)

From S2P Require Import Prelude Json EntityValue Expr Types Builtin TypeSystem Policies Auth Http Query Sql Engine Crud V8Value Ops OpsSpec.

(** The cases of [effect], with names. *)
Ltac effect_cases H :=
  destruct H as [c r|rid j Hj|c rid j cx w2 r Hc Hj Hcur Hw2|rid j cx d Hj Hcur Hd Hctx Htxn|c job ctx cx d t Hd
    |c s cx d r Hd Hst Hnew|sid s Hs|sid rid pr s r Hs|rid|rid response j Hj Htx|Hrx
    |i a x r Hx Hna Hdem|i rid info r Hx|i rid info j Hx Hj Hcur|i y t Hx|i job ctx t run run' a Hx Hlock Hdem
    |i job ctx t s k rows Hx|i sid s rows Hx Hin Hs Hnew Hlock|i sid s row rows n r Hx Hs Hrows|i sid s Hx Hs Hrows
    |i a Hx Hq|i job queue Hx Hq].

Section Spec.
Context {R : Type} {RW : AnyRow R}.
Context {RL : RegexLib} {ML : MethodLib} {FT : FloatText} {QD : QuotedData} {JT : JsonText} {UU : UuidLib} {BT : BytesText}.
Context {B64 : Base64} {FU : FormUrlencoded} {VL : V8Lib}.
Context (env : WorkerEnv).
Abbreviation World := (@World R).
Abbreviation step := (@step R _ _ _ _ _ _ _ _ _ _ _ env).
Abbreviation steps := (@steps R _ _ _ _ _ _ _ _ _ _ _ env).

(** A call begins to wait. *)
Definition start (w : World) (o : Op) : World := set_ops <[w_next w := o]> (fresh_id w).2.
(** The data context is taken out of a job. *)
Definition untie (rid : nat) (j : Job) (w : World) : World := set_jobs <[rid := set_current None j]> w.
(** A statement is sent to the database. *)
Definition log_statement (t : nat) (s : SqlWithArguments) (w : World) : World :=
  set_txns (alter (fun log => log ++ [s]) t) w.

(** ** Transactions, as the database sees them *)

Record Store := { s_open : gmap nat (list SqlWithArguments); s_committed : list (nat * list SqlWithArguments) }.
Inductive StoreEvent := Begin (t : nat) | Execute (t : nat) (s : SqlWithArguments) | Commit (t : nat) | Rollback (t : nat).

Definition store_step (st : Store) (e : StoreEvent) : option Store :=
  match e with
  | Begin t =>
      match s_open st !! t with
      | Some _ => None
      | None => Some {| s_open := <[t := []]> (s_open st); s_committed := s_committed st |}
      end
  | Execute t s =>
      log ← s_open st !! t;
      Some {| s_open := <[t := log ++ [s]]> (s_open st); s_committed := s_committed st |}
  | Commit t =>
      log ← s_open st !! t;
      Some {| s_open := delete t (s_open st); s_committed := s_committed st ++ [(t, log)] |}
  | Rollback t =>
      _ ← s_open st !! t;
      Some {| s_open := delete t (s_open st); s_committed := s_committed st |}
  end.

Fixpoint store_run (st : Store) (l : list StoreEvent) : option Store :=
  match l with [] => Some st | e :: l => st ← store_step st e; store_run st l end.

Definition store_of (w : World) : Store := {| s_open := w_txns w; s_committed := w_committed w |}.

(** What a step asks of the database by what it waited for. *)
Definition demanded (w : World) (e : Event (R:=R)) : list StoreEvent :=
  match e with
  | EvResume i a =>
      match w_ops w !! i, a with
      | Some (OpBegin _ _), AnsDone (Ok _) => [Begin (w_next w)]
      | Some (OpCommit _ t), AnsDone (Ok _) => [Commit t]
      | Some (OpRun _ _ t (Inside (Exec s _))), AnsRows _ => [Execute t s]
      | Some (OpNext sid), AnsRows _ =>
          if decide (sid ∈ w_table w) then
            match w_streams w !! sid with
            | Some s => [Execute (st_txn s) {| sql := raw_sql (st_query s); args := [] |}]
            | None => []
            end
          else []
      | _, _ => []
      end
  | _ => []
  end.

(** ** The effects of steps *)

Inductive effect (w : World) : Event (R:=R) -> World -> Outcome -> Prop :=
  | ef_answer c r : effect w (EvCall c) w (Returned None r)
  | ef_begin rid j : get_job w rid = Ok j ->
      effect w (EvCall (CallBegin rid)) (start w (OpBegin rid (j_info j))) (Pending (w_next w))
  | ef_take c rid j cx w1 r : c = CallCommit rid \/ c = CallRollback rid -> get_job w rid = Ok j -> j_current j = Some cx ->
      (w1 = untie rid j w \/ holds_ctx (untie rid j w) cx = false /\ w1 = set_ctxs (delete cx) (untie rid j w)) ->
      effect w (EvCall c) w1 (Returned None r)
  | ef_commit rid j cx d : get_job w rid = Ok j -> j_current j = Some cx -> w_ctxs w !! cx = Some d ->
      holds_ctx (untie rid j w) cx = false -> holds_txn (set_ctxs (delete cx) (untie rid j w)) (dc_txn d) = false ->
      effect w (EvCall (CallCommit rid)) (start (set_ctxs (delete cx) (untie rid j w)) (OpCommit rid (dc_txn d))) (Pending (w_next w))
  | ef_run c job ctx cx d t : w_ctxs w !! cx = Some d ->
      effect w (EvCall c) (start w (OpRun job ctx (dc_txn d) (Outside t))) (Pending (w_next w))
  | ef_create c s cx d r : w_ctxs w !! cx = Some d -> st_txn s = dc_txn d -> st_state s = StreamNew ->
      effect w (EvCall c) (set_table (union {[w_next w]}) (set_streams <[w_next w := s]> (fresh_id w).2)) (Returned None r)
  | ef_next sid s : get_stream w sid = Ok s -> effect w (EvCall (CallQueryNext sid)) (start w (OpNext sid)) (Pending (w_next w))
  | ef_value sid rid pr s r : get_stream w sid = Ok s ->
      effect w (EvCall (CallGetValue sid rid pr)) (set_streams <[sid := set_next None s]> w) (Returned None r)
  | ef_close rid : effect w (EvCall (CallClose rid)) (set_table (fun t => t ∖ {[rid]}) w) (Returned None (Ok RetUnit))
  | ef_respond rid response j : get_job w rid = Ok j -> j_response_tx j = true ->
      effect w (EvCall (CallRespond rid response))
        (set_done (w_committed w) (w_responses w ++ [(rid, response)])
          (set_jobs <[rid := {| j_info := j_info j; j_response_tx := false; j_current := j_current j |}]> w))
        (Returned None (Ok RetUnit))
  | ef_accept : w_job_rx w = true ->
      effect w (EvCall CallAccept) (start (set_rx false (w_queue w) w) OpAccept) (Pending (w_next w))
  | ef_over i a o r : w_ops w !! i = Some o -> o <> OpAccept -> demanded w (EvResume i a) = [] ->
      effect w (EvResume i a) (set_ops (delete i) w) (Returned (Some i) r)
  | ef_began_in_vain i rid info r : w_ops w !! i = Some (OpBegin rid info) ->
      effect w (EvResume i (AnsDone (Ok tt))) (set_ops (delete i) (fresh_id (set_txns <[w_next w := []]> (fresh_id w).2)).2) (Returned (Some i) r)
  | ef_began i rid info j : w_ops w !! i = Some (OpBegin rid info) -> get_job w rid = Ok j -> j_current j = None ->
      effect w (EvResume i (AnsDone (Ok tt)))
        (set_ops (delete i) (set_jobs <[rid := set_current (Some (S (w_next w))) j]>
          (set_ctxs <[S (w_next w) := {| dc_txn := w_next w; dc_info := info |}]>
            (fresh_id (set_txns <[w_next w := []]> (fresh_id w).2)).2))) (Returned (Some i) (Ok RetUnit))
  | ef_committed i q t : w_ops w !! i = Some (OpCommit q t) ->
      effect w (EvResume i (AnsDone (Ok tt)))
        (set_ops (delete i) (set_done (w_committed w ++ [(t, default [] (w_txns w !! t))]) (w_responses w) w))
        (Returned (Some i) (Ok RetUnit))
  | ef_move i job ctx t run run' a : w_ops w !! i = Some (OpRun job ctx t run) ->
      ((exists b, run = Inside b) \/ (exists k, run' = Outside k) \/ locked w t = false) ->
      demanded w (EvResume i a) = [] ->
      effect w (EvResume i a) (set_ops <[i := OpRun job ctx t run']> w) (Pending i)
  | ef_exec i job ctx t s k rows : w_ops w !! i = Some (OpRun job ctx t (Inside (Exec s k))) ->
      effect w (EvResume i (AnsRows rows)) (set_ops <[i := OpRun job ctx t (Inside (k rows))]> (log_statement t s w)) (Pending i)
  | ef_poll i sid s rows : w_ops w !! i = Some (OpNext sid) -> sid ∈ w_table w -> w_streams w !! sid = Some s -> st_state s = StreamNew ->
      locked w (st_txn s) = false ->
      effect w (EvResume i (AnsRows rows))
        (log_statement (st_txn s) {| sql := raw_sql (st_query s); args := [] |}
          (set_streams <[sid := set_state (StreamRows rows) s]> w)) (Pending i)
  | ef_row i sid s row rows n r : w_ops w !! i = Some (OpNext sid) -> w_streams w !! sid = Some s ->
      st_state s = StreamRows (row :: rows) ->
      effect w (EvResume i AnsNone) (set_ops (delete i) (set_streams <[sid := set_next n (set_state (StreamRows rows) s)]> w))
        (Returned (Some i) r)
  | ef_end i sid s : w_ops w !! i = Some (OpNext sid) -> w_streams w !! sid = Some s -> st_state s = StreamRows [] ->
      effect w (EvResume i AnsNone) (set_ops (delete i) (set_streams <[sid := set_state StreamEnded s]> w))
        (Returned (Some i) (Ok RetUnit))
  | ef_no_jobs i a : w_ops w !! i = Some OpAccept -> w_queue w = [] ->
      effect w (EvResume i a) (set_ops (delete i) (set_rx true [] w)) (Returned (Some i) (Ok (RetJob None)))
  | ef_accepted i job queue : w_ops w !! i = Some OpAccept -> w_queue w = job :: queue ->
      effect w (EvResume i AnsNone)
        (set_ops (delete i) (set_table (union {[w_next w]}) (set_jobs <[w_next w := job_of job]> (fresh_id (set_rx true queue w)).2)))
        (Returned (Some i) (Ok (RetJob (Some (accepted job (w_next w)))))).

(** What a step leaves: the effect, without what is not referred to; or one more job. *)
Definition results_in (w w' : World) (e : Event) (o : Outcome) : Prop :=
  (exists w1, effect w e w1 o /\ w' = collect w1) \/
  exists job, e = EvSend job /\ w' = set_rx (w_job_rx w) (w_queue w ++ [job]) w /\ o = Sent.

Lemma now_effect (w w1 : World) e r r' : effect w e w1 (Returned None r) -> now w1 r = r' ->
  exists w2, effect w e w2 r'.2 /\ r'.1 = collect w2.
Proof. intros H <-. by exists w1. Qed.

Lemma answer_effect (w : World) c r : exists w2, effect w (EvCall c) w2 (now w r).2 /\ (now w r).1 = collect w2.
Proof. exists w. by split; [apply ef_answer|]. Qed.

Lemma wait_effect (w w1 : World) e o : effect w e (start w1 o) (Pending (w_next w1)) ->
  exists w2, effect w e w2 (wait w1 o).2 /\ (wait w1 o).1 = collect w2.
Proof. intros H. by exists (start w1 o). Qed.

Lemma run_effect (w : World) c o : (forall x, o = Ok x -> exists job ctx cx d t,
    x = OpRun job ctx (dc_txn d) (Outside t) /\ w_ctxs w !! cx = Some d) ->
  exists w2, effect w (EvCall c) w2 (match o with Ok o => wait w o | e => now_err w e end).2 /\
    (match o with Ok o => wait w o | e => now_err w e end).1 = collect w2.
Proof.
  intros Ho. destruct o as [x|e|p]; [|apply answer_effect..].
  destruct (Ho x eq_refl) as (job & ctx & cx & d & t & -> & Hd). apply wait_effect. by eapply ef_run.
Qed.

Lemma take_effect (w : World) rid msg : 
  (exists r, take_transaction w rid msg = (w, r) /\ forall t, r <> Ok t) \/
  exists j cx, get_job w rid = Ok j /\ j_current j = Some cx /\
    ((exists r, take_transaction w rid msg = (untie rid j w, r) /\ forall t, r <> Ok t) \/
     (holds_ctx (untie rid j w) cx = false /\ exists d, w_ctxs w !! cx = Some d /\
        let w2 := set_ctxs (delete cx) (untie rid j w) in
        take_transaction w rid msg = (w2, if holds_txn w2 (dc_txn d) then bail msg else Ok (dc_txn d)))).
Proof.
  unfold take_transaction. destruct (get_job w rid) as [j| |] eqn:Ej; [|left; by eexists..].
  destruct (j_current j) as [cx|] eqn:Ec; [|left; by eexists]. right. exists j, cx. split; [done|]. split; [done|].
  fold (untie rid j w). destruct (holds_ctx _ cx) eqn:Eh; [left; by eexists|].
  change (w_ctxs (untie rid j w)) with (w_ctxs w). destruct (w_ctxs w !! cx) as [d|] eqn:Ed; [|left; by eexists].
  right. split; [done|]. exists d. split; [done|]. cbn zeta. by destruct (holds_txn _ (dc_txn d)).
Qed.

Lemma take_bad_effect (w w1 : World) c rid msg (r : result nat) : c = CallCommit rid \/ c = CallRollback rid ->
  take_transaction w rid msg = (w1, r) ->
  exists w2, effect w (EvCall c) w2 (now_err w1 r).2 /\ (now_err w1 r).1 = collect w2.
Proof.
  intros Hc Ht. exists w1. split; [|done]. cbn.
  destruct (take_effect w rid msg) as [(r' & E & _)|(j & cx & Ej & Ec & [(r' & E & _)|(Eh & d & Ed & E)])];
    rewrite Ht in E; [injection E as -> ->; by apply ef_answer|..]; eapply ef_take; try eassumption; injection E as -> _; eauto.
Qed.

Lemma commit_effect (w : World) rid : let r := op_chisel_commit_transaction w rid in
  exists w2, effect w (EvCall (CallCommit rid)) w2 r.2 /\ r.1 = collect w2.
Proof.
  unfold op_chisel_commit_transaction. cbn zeta.
  match goal with |- context [take_transaction w rid ?m] => set (msg := m) end.
  destruct (take_transaction w rid msg) as [w1 [t|e|p]] eqn:Et; [|eapply take_bad_effect; eauto..].
  apply wait_effect. destruct (take_effect w rid msg) as [(r' & E & Hr)|(j & cx & Ej & Ec & [(r' & E & Hr)|(Eh & d & Ed & E)])];
    rewrite Et in E; [injection E as -> <-; by destruct (Hr t)..|]. cbn zeta in E.
  destruct (holds_txn _ (dc_txn d)) eqn:Eu; injection E as -> ?; [done|]. subst t.
  exact (ef_commit w rid j cx d Ej Ec Ed Eh Eu).
Qed.

Lemma call_effect (w : World) c : exists w2, effect w (EvCall c) w2 (call env w c).2 /\ (call env w c).1 = collect w2.
Proof.
  destruct c; cbn [call].
  - unfold op_chisel_begin_transaction. destruct (get_job w rid) eqn:E; [|apply answer_effect..].
    apply wait_effect. by apply ef_begin.
  - apply commit_effect.
  - unfold op_chisel_rollback_transaction. destruct (take_transaction _ _ _) as [w1 r] eqn:Et.
    eapply take_bad_effect; eauto.
  - unfold op_chisel_store. cbn zeta. apply run_effect. intros x E.
    apply bind_ok in E as (v' & _ & E). apply bind_ok in E as (j & Ej & E).
    apply bind_ok in E as (ty & _ & E). destruct (is_auth ty && _); [done|].
    apply bind_ok in E as ([cx d] & [_ Ec]%data_context_ok & E). apply bind_ok in E as (val & _ & E). injection E as <-. by repeat eexists.
  - unfold op_chisel_delete, delete_call. cbn zeta. apply run_effect. intros x E. apply bind_ok in E as (j & _ & E).
    apply bind_ok in E as ([cx d] & [_ Ec]%data_context_ok & E). apply bind_ok in E as (m & _ & E). injection E as <-. by repeat eexists.
  - unfold op_chisel_crud_delete, delete_call. cbn zeta. apply run_effect. intros x E. apply bind_ok in E as (j & _ & E).
    apply bind_ok in E as ([cx d] & [_ Ec]%data_context_ok & E). apply bind_ok in E as (m & _ & E). injection E as <-. by repeat eexists.
  - unfold op_chisel_crud_query. cbn zeta. apply run_effect. intros x E.
    apply bind_ok in E as (j & _ & E). apply bind_ok in E as (cx & _ & E). apply bind_ok in E as (d & Ed & E).
    apply bind_ok in E as (task & _ & E). injection E as <-. exists None, None, cx, d, task. split; [done|].
    by destruct (w_ctxs w !! cx); [injection Ed as ->|].
  - unfold op_chisel_relational_query_create. cbn zeta.
    match goal with |- context [match ?r with _ => _ end] => destruct r as [s| |] eqn:E end; [|apply answer_effect..].
    apply bind_ok in E as (j & _ & E). apply bind_ok in E as ([cx d] & [_ Ec]%data_context_ok & E).
    apply bind_ok in E as (plan & _ & E). apply bind_ok in E as (query & _ & E). injection E as <-.
    eexists. split; [|reflexivity]. by eapply ef_create.
  - unfold op_chisel_query_next. destruct (get_stream w stream) eqn:E; [|apply answer_effect..].
    apply wait_effect. by eapply ef_next.
  - unfold op_chisel_query_get_value. destruct (get_stream w stream) eqn:E; [|apply answer_effect..].
    eexists. split; [|reflexivity]. by eapply ef_value.
  - unfold op_close. destruct (decide _); [|apply answer_effect]. eexists. split; [|reflexivity]. apply ef_close.
  - unfold op_chisel_http_respond. destruct (get_job w rid) as [j| |] eqn:E; [|apply answer_effect..].
    destruct (j_info j) eqn:Ei; [|apply answer_effect]. destruct (j_response_tx j) eqn:Er; [|apply answer_effect].
    eexists. split; [|reflexivity]. rewrite <- Ei. by apply ef_respond.
  - unfold op_chisel_accept_job. destruct (w_job_rx w) eqn:E; [|apply answer_effect]. apply wait_effect. exact (ef_accept w E).
Qed.

Lemma finish_effect (w w1 w' : World) i e o r : effect w e (set_ops (delete i) w1) (Returned (Some i) r) ->
  finish w1 i r = Some (w', o) -> exists w2, effect w e w2 o /\ w' = collect w2.
Proof. intros H [= <- <-]. by eexists. Qed.

Lemma continue_effect (w w1 w' : World) i e o x : effect w e (set_ops <[i := x]> w1) (Pending i) ->
  continue w1 i x = Some (w', o) -> exists w2, effect w e w2 o /\ w' = collect w2.
Proof. intros H [= <- <-]. by eexists. Qed.

Lemma over_effect (w w' : World) i a o x r : w_ops w !! i = Some x -> x <> OpAccept -> demanded w (EvResume i a) = [] -> finish w i r = Some (w', o) ->
  exists w2, effect w (EvResume i a) w2 o /\ w' = collect w2.
Proof. intros Hi Hx Hd. apply finish_effect. by eapply ef_over. Qed.

Lemma resume_run_effect (w w' : World) i job ctx t run a o : w_ops w !! i = Some (OpRun job ctx t run) ->
  resume_run w i job ctx t run a = Some (w', o) -> exists w2, effect w (EvResume i a) w2 o /\ w' = collect w2.
Proof.
  intros Hi. assert (demanded w (EvResume i a) = match run, a with Inside (Exec s _), AnsRows _ => [Execute t s] | _, _ => [] end) as Hd.
  { cbn. rewrite Hi. by destruct run as [|[]], a. }
  unfold resume_run. destruct run as [[r|b|ty v act k]|[s k|ty v k|k]], a; try done.
  - by eapply over_effect.
  - destruct (locked w t) eqn:El; [done|]. eapply continue_effect, ef_move; [done| |done]. by right; right.
  - eapply continue_effect, ef_move; [done| |done]. right. left. by eexists.
  - apply continue_effect. by apply ef_exec.
  - eapply continue_effect, ef_move; [done| |done]. left. by eexists.
  - eapply continue_effect, ef_move; [done| |done]. left. by eexists.
Qed.

Lemma resume_next_effect (w w' : World) i sid a o : w_ops w !! i = Some (OpNext sid) ->
  resume_next env w i sid a = Some (w', o) -> exists w2, effect w (EvResume i a) w2 o /\ w' = collect w2.
Proof.
  intros Hi. unfold resume_next. destruct (decide (sid ∉ w_table w)) as [Hno|Hin].
  { apply over_effect with (OpNext sid); [done..|]. cbn. rewrite Hi. destruct a; try done. by rewrite decide_False. }
  apply dec_stable in Hin.
  destruct (w_streams w !! sid) as [s|] eqn:Es; [|done]. cbn [mbind option_bind].
  destruct (st_state s) as [|[|row rows]|] eqn:Est, a; try done.
  - destruct (locked w (st_txn s)) eqn:El; [done|]. intros [= <- <-]. eexists. split; [|reflexivity]. by eapply ef_poll.
  - apply finish_effect. by eapply ef_end.
  - change (st_query (set_state (StreamRows rows) s)) with (st_query s).
    destruct (decode_row env (st_query s) row); apply finish_effect; [by eapply ef_row|..];
      change (set_state (StreamRows rows) s) with (set_next (st_next s) (set_state (StreamRows rows) s)); by eapply ef_row.
  - apply over_effect with (OpNext sid); [done..|]. cbn. by rewrite Hi.
Qed.

Lemma resume_begin_effect (w w' : World) i rid info r o : w_ops w !! i = Some (OpBegin rid info) ->
  resume_begin w i rid info r = Some (w', o) -> exists w2, effect w (EvResume i (AnsDone r)) w2 o /\ w' = collect w2.
Proof.
  intros Hi. unfold resume_begin. destruct r as [[]|e|p]; [|apply (over_effect w w' i _ o (OpBegin rid info)); [done..|cbn; by rewrite Hi]..]. cbn [fresh_id].
  set (w3 := Build_World _ _ _ _ _ _ _ _ _ _ _). change (get_job w3 rid) with (get_job w rid).
  destruct (get_job w rid) as [j| |] eqn:Ej; [|apply finish_effect; by eapply ef_began_in_vain..].
  destruct (j_current j) eqn:Ec; apply finish_effect; [by eapply ef_began_in_vain|]. by apply ef_began.
Qed.

Lemma step_effect (w w' : World) e o : step w e = Some (w', o) -> results_in w w' e o.
Proof.
  unfold results_in. destruct e as [c|i a|job]; cbn [Ops.step].
  - intros [= E]. left. destruct (call_effect w c) as (w2 & H & ?). rewrite E in *. by exists w2.
  - destruct (w_ops w !! i) as [op|] eqn:Ei; [|done]. cbn [mbind option_bind]. intros H. left.
    destruct op as [rid info|rid t|job ctx t run|sid|].
    + destruct a as [r| | | |]; try done. by apply (resume_begin_effect w w' i rid info r o).
    + destruct a as [r| | | |]; try done.
      destruct r as [[]| |]; [|revert H; apply over_effect with (OpCommit rid t); [done..|cbn; by rewrite Ei]..].
      revert H. apply finish_effect. by eapply ef_committed.
    + by eapply resume_run_effect.
    + by eapply resume_next_effect.
    + revert H. unfold resume_accept. destruct (w_queue w) as [|job queue] eqn:Eq, a; try done; cbn [fresh_id]; apply finish_effect.
      * by apply ef_no_jobs.
      * exact (ef_accepted w i job queue Ei Eq).
  - intros [= <- <-]. right. by exists job.
Qed.

End Spec.
