(* ===== verification/TransactionSpec.v ===== *)
(** * Transactions of the endpoints

    A worker refines a store of transactions that are begun, executed one statement at a
    time, and committed or rolled back whole.  What is committed is committed once;
    a transaction whose commit or rollback was asked for and refused is never committed. *)

From S2P Require Import Prelude Json EntityValue Expr Types Builtin TypeSystem Policies Auth Http Query Sql Engine Crud V8Value Ops OpsSpec WorkerSpec.

Section Spec.
Context {R : Type} {RW : AnyRow R}.
Context {RL : RegexLib} {ML : MethodLib} {FT : FloatText} {QD : QuotedData} {JT : JsonText} {UU : UuidLib} {BT : BytesText}.
Context {B64 : Base64} {FU : FormUrlencoded} {VL : V8Lib}.
Context (env : WorkerEnv).
Abbreviation World := (@World R).
Abbreviation step := (@step R _ _ _ _ _ _ _ _ _ _ _ env).
Abbreviation steps := (@steps R _ _ _ _ _ _ _ _ _ _ _ env).

(** ** The store *)

Lemma store_run_app st l1 l2 : store_run st (l1 ++ l2) = (st ← store_run st l1; store_run st l2).
Proof. revert st. induction l1 as [|e l1 IH]; intros st; cbn; [done|]. destruct (store_step st e); cbn; [apply IH|done]. Qed.

Lemma rollback_run open committed l : NoDup l -> (forall t, t ∈ l -> is_Some (open !! t)) ->
  store_run {| s_open := open; s_committed := committed |} (Rollback <$> l) =
  Some {| s_open := foldr delete open l; s_committed := committed |}.
Proof.
  revert open. induction l as [|t l IH]; intros open Hnd Hin; [done|]. apply NoDup_cons in Hnd as [Hni Hnd].
  rewrite fmap_cons. cbn [store_run]. destruct (Hin t) as [log Hlog]; [by left|].
  cbn [store_step s_open]. rewrite Hlog. cbn [mbind option_bind s_committed]. rewrite IH; [|done|].
  - do 2 f_equal. clear. induction l as [|k l IHl]; [done|]. cbn. by rewrite IHl, delete_delete.
  - intros k Hk. rewrite lookup_delete_ne by (intros ->; done). apply Hin. by right.
Qed.

(** The transactions that are dropped. *)
Definition dropped (open open' : gmap nat (list SqlWithArguments)) : list nat := elements (dom open ∖ dom open').

Lemma dropped_run open open' committed : open' ⊆ open ->
  store_run {| s_open := open; s_committed := committed |} (Rollback <$> dropped open open') =
  Some {| s_open := open'; s_committed := committed |}.
Proof.
  intros Hsub. unfold dropped. rewrite rollback_run; [|apply NoDup_elements|].
  2: { intros t [Ht _]%elem_of_elements%elem_of_difference. by apply elem_of_dom. }
  f_equal. f_equal. apply map_eq. intros t. rewrite map_subseteq_spec in Hsub.
  destruct (decide (t ∈ elements (dom open ∖ dom open'))) as [Hin|Hni].
  - rewrite lookup_foldr_delete by done. symmetry. apply not_elem_of_dom.
    by apply elem_of_elements, elem_of_difference in Hin as [_ ?].
  - rewrite lookup_foldr_delete_not_elem_of by done. rewrite elem_of_elements, elem_of_difference, !elem_of_dom in Hni.
    destruct (open' !! t) as [log|] eqn:E; [by apply Hsub|]. apply eq_None_not_Some. intros Hs. apply Hni. split; [done|].
    by intros [? [=]].
Qed.

(** What the database was asked, and the transactions as they are before any is dropped. *)
Lemma demanded_run (w w1 : World) e o : wf w -> effect w e w1 o ->
  exists open, store_run (store_of w) (demanded w e) = Some {| s_open := open; s_committed := w_committed w1 |} /\
    (open = w_txns w1 \/ exists i q t, w_ops w !! i = Some (OpCommit q t) /\ open = delete t (w_txns w1) /\ w_txns w1 = w_txns w /\
       w1 = set_ops (delete i) (set_done (w_committed w1) (w_responses w) w)).
Proof.
  intros Hw H. destruct (wf_fresh w Hw (w_next w)) as (? & ? & ? & ? & Hnt & ?); [done|].
  assert (forall t s (st : World), is_Some (w_txns w !! t) -> w_txns st = w_txns (log_statement t s w) -> w_committed st = w_committed w ->
    exists open, store_run (store_of w) [Execute t s] = Some {| s_open := open; s_committed := w_committed st |} /\ open = w_txns st) as Hexec.
  { intros t s st [log Hlog] -> ->. cbn. rewrite Hlog. cbn. eexists. split; [reflexivity|]. apply map_eq. intros k.
    destruct (decide (k = t)) as [->|Hne]; [by rewrite lookup_insert_eq, lookup_alter_eq, Hlog|].
    by rewrite lookup_insert_ne, lookup_alter_ne. }
  effect_cases H; try (eexists; split; [reflexivity|by left]).
  - destruct Hw2 as [->|[_ ->]]; eexists; (split; [reflexivity|by left]).
  - rewrite Hdem. eexists; (split; [reflexivity|by left]).
  - cbn. rewrite Hx. cbn. rewrite Hnt. eexists; (split; [reflexivity|by left]).
  - cbn. rewrite Hx. cbn. rewrite Hnt. eexists; (split; [reflexivity|by left]).
  - cbn. rewrite Hx. destruct (wf_op_txn w Hw i (OpCommit y t) t Hx eq_refl) as [log Hlog].
    cbn. rewrite Hlog. cbn. eexists. split; [reflexivity|]. right. by exists i, y, t.
  - rewrite Hdem. eexists; (split; [reflexivity|by left]).
  - cbn [demanded]. rewrite Hx.
    destruct (Hexec t s (set_ops <[i:=OpRun job ctx t (Inside (k rows))]> (log_statement t s w))) as (open & Hrun & Hopen);
      [by apply (wf_op_txn w Hw i _ t Hx)|done..|]. exists open. split; [done|by left].
  - cbn [demanded]. rewrite Hx, Hs, decide_True by done.
    destruct (Hexec (st_txn s) {| sql := raw_sql (st_query s); args := [] |}
      (log_statement (st_txn s) {| sql := raw_sql (st_query s); args := [] |} (set_streams <[sid := set_state (StreamRows rows) s]> w)))
      as (open & Hrun & Hopen); [|done..|exists open; split; [done|by left]].
    apply (wf_stream_txn w Hw sid s); [done|]. unfold stream_txn. by rewrite Hnew.
  - cbn. rewrite Hx. eexists; (split; [reflexivity|by left]).
  - cbn. rewrite Hx. eexists; (split; [reflexivity|by left]).
  - exists (w_txns w). cbn. rewrite Hx. split; [reflexivity|by left].
  - exists (w_txns w). cbn. rewrite Hx. split; [reflexivity|by left].
Qed.

Lemma collect_txns_sub (w : World) : w_txns (collect w) ⊆ w_txns w.
Proof. apply map_filter_subseteq. Qed.

Lemma set_rx_same (w : World) rx queue : store_of (set_rx rx queue w) = store_of w.
Proof. done. Qed.

(** [step_effect] for a step that is not a job that is sent. *)
Lemma step_store (w w' : World) e o : wf w -> step w e = Some (w', o) ->
  exists open, store_run (store_of w) (demanded w e) = Some {| s_open := open; s_committed := w_committed w' |} /\ w_txns w' ⊆ open.
Proof.
  intros Hw Hstep. destruct (step_effect env w w' e o Hstep) as [(w1 & Heff & ->)|(job & -> & -> & ->)].
  - destruct (demanded_run w w1 e o Hw Heff) as (open & Hrun & [->|(i & q & t & Hi & -> & Htx & Heq)]).
    + exists (w_txns w1). split; [done|apply collect_txns_sub].
    + exists (delete t (w_txns w1)). split; [done|]. apply map_subseteq_spec. intros k log Hk.
      pose proof Hk as [Hlog Hheld]%collect_txns_lookup.
      rewrite lookup_delete_ne; [done|]. intros <-.
      assert (holds_txn w1 t = true) as Hh by (by apply collect_holds_less).
      rewrite Heq in Hh. apply holds_txn_true in Hh as [(c & d & Hc & Ht)|[(k & x & Hk' & Ht)|(r & s & Hs & Ht)]].
      * by apply (wf_commit_ctx w Hw i q t c d).
      * cbn in Hk'. apply lookup_delete_Some in Hk' as [Hne Hk']. apply Hne. symmetry. by apply (wf_commit_op w Hw i q t k x).
      * by apply (wf_commit_stream w Hw i q t r s).
  - exists (w_txns w). by split.
Qed.

Lemma held_open (w : World) t : wf w -> holds_txn w t = true -> is_Some (w_txns w !! t).
Proof.
  intros Hw [(c & d & Hc & <-)|[(i & x & Hi & Ht)|(r & s & Hs & Ht)]]%holds_txn_true;
    [by apply (wf_ctx_txn w Hw c)|by apply (wf_op_txn w Hw i x)|by apply (wf_stream_txn w Hw r s)].
Qed.

(** C7: A worker implements transactions: whatever calls are made, and in whatever
    order the database answers those that wait, each step does to the transactions what
    a store of transactions does when it is asked to begin one (which has no
    statements), to execute one statement, or to commit one (of which all statements that
    were sent, in their order, are added to what is committed), and
    then to roll back those that nothing refers to any more.  In particular a
    statement is executed in an open transaction only, what was committed is never
    changed, and nothing of a transaction that is rolled back is ever committed. *)
Theorem worker_refines_transactions (w w' : World) e o : reachable env w -> step w e = Some (w', o) ->
  exists ts, NoDup ts /\ (forall t, t ∈ ts -> holds_txn w' t = false) /\
    store_run (store_of w) (demanded w e ++ (Rollback <$> ts)) = Some (store_of w').
Proof.
  intros Hr Hstep. pose proof (reachable_tidy env w Hr) as Ht. pose proof (step_tidy env w w' e o Ht Hstep) as Ht'.
  destruct (step_store w w' e o (td_wf w Ht) Hstep) as (open & Hrun & Hsub).
  exists (dropped open (w_txns w')). split; [apply NoDup_elements|]. split.
  - unfold dropped. intros t [_ Hno]%elem_of_elements%elem_of_difference. apply not_true_iff_false. intros Hh.
    apply Hno, elem_of_dom. by apply held_open; [apply Ht'|].
  - rewrite store_run_app, Hrun. cbn [mbind option_bind]. by apply dropped_run.
Qed.

Lemma run_committed_prefix st l st' : store_run st l = Some st' -> exists c, s_committed st' = s_committed st ++ c.
Proof.
  revert st. induction l as [|e l IH]; intros st; cbn; [intros [= ->]; exists []; by rewrite app_nil_r|].
  destruct (store_step st e) as [st1|] eqn:E; [|done]. cbn. intros [c Hc]%IH.
  assert (exists c', s_committed st1 = s_committed st ++ c') as [c' Hc'].
    { destruct e as [t|t s|t|t]; cbn in E; destruct (s_open st !! t) in E; cbn in E; simplify_eq; cbn;
        first [by eexists|exists []; by rewrite app_nil_r]. }
  exists (c' ++ c). by rewrite Hc, Hc', app_assoc.
Qed.

Lemma step_committed (w w' : World) e o : wf w -> step w e = Some (w', o) -> exists c, w_committed w' = w_committed w ++ c.
Proof.
  intros Hw Hstep. destruct (step_store w w' e o Hw Hstep) as (open & Hrun & _). by apply run_committed_prefix in Hrun.
Qed.

Lemma steps_committed (w w' : World) trace : tidy w -> steps w trace w' -> exists c, w_committed w' = w_committed w ++ c.
Proof.
  intros Ht H. induction H as [w|w e o w1 trace w2 Hstep _ IH]; [exists []; by rewrite app_nil_r|].
  destruct (step_committed w w1 e o (td_wf w Ht) Hstep) as [c Hc]. destruct IH as [c' Hc']; [by eapply step_tidy|].
  exists (c ++ c'). by rewrite Hc', Hc, app_assoc.
Qed.

(** C26: A transaction is committed at most once and for good: in every continuation
    what was committed is still there, in the same order and with the same
    statements; no call, stream or job refers to the transaction any more, so no
    statement is ever added to it, and it is not open. *)
Theorem committed_for_good (w w' : World) trace t log : reachable env w -> steps w trace w' -> (t, log) ∈ w_committed w ->
  (exists later, w_committed w' = w_committed w ++ later) /\ NoDup (w_committed w').*1 /\
  holds_txn w' t = false /\ w_txns w' !! t = None.
Proof.
  intros Hr Hs Hin. pose proof (reachable_tidy env w Hr) as Ht. pose proof (steps_tidy env w w' trace Ht Hs) as Ht'.
  destruct (steps_committed w w' trace Ht Hs) as [c Hc]. split; [by eexists|]. split; [apply Ht'|].
  assert (holds_txn w' t = false) as Hno.
  { apply (wf_committed w' (td_wf w' Ht') t log). rewrite Hc. apply elem_of_app. by left. }
  split; [done|]. apply eq_None_not_Some. intros Hopen. apply (td_txns w' Ht') in Hopen. congruence.
Qed.

(** ** Transactions that were taken from their job *)

(** No job has the transaction, and it is not being committed. *)
Record doomed (w : World) (t : nat) : Prop := {
  dm_old : t < w_next w;
  dm_open : forall log, (t, log) ∉ w_committed w;
  dm_ops : forall i q, w_ops w !! i <> Some (OpCommit q t);
  dm_jobs : forall r j c d, w_jobs w !! r = Some j -> j_current j = Some c -> w_ctxs w !! c = Some d -> dc_txn d <> t;
}.

Lemma doomed_collect (w : World) t : doomed w t -> doomed (collect w) t.
Proof.
  intros [Ho Hc Hi Hj]. split; [done..|]. intros r j c d [Hr _]%collect_jobs Hcur [Hd _]%collect_ctxs_lookup. by eapply Hj.
Qed.

Lemma doomed_start (w : World) o t : doomed w t -> (forall q, o <> OpCommit q t) -> doomed (start w o) t.
Proof.
  intros [Ho Hc Hi Hj] Hno. split; cbn; [lia|done| |done]. intros i q Hop. apply lookup_insert_Some in Hop as [[_ ?]|[_ ?]]; [by eapply Hno|by eapply Hi].
Qed.

(** Jobs lose or keep their data context. *)
Lemma doomed_job (w w1 : World) rid j0 j1 t : doomed w t -> w_next w1 = w_next w -> w_committed w1 = w_committed w ->
  w_ops w1 = w_ops w -> w_ctxs w1 ⊆ w_ctxs w -> w_jobs w !! rid = Some j0 -> w_jobs w1 = <[rid := j1]> (w_jobs w) ->
  (forall c, j_current j1 = Some c -> j_current j0 = Some c) -> doomed w1 t.
Proof.
  intros [Ho Hc Hi Hj] Hn Hcs Hops Hsub Hj0 Hjobs Hcur. rewrite map_subseteq_spec in Hsub.
  split; rewrite ?Hn, ?Hcs, ?Hops, ?Hjobs; try done. intros r j c d Hr Hjc Hd%Hsub.
  apply lookup_insert_Some in Hr as [[<- <-]|[_ Hr]]; [|by apply (Hj r j c d)]. apply (Hj rid j0 c d); eauto.
Qed.

Lemma doomed_delete (w : World) i t : doomed w t -> doomed (set_ops (delete i) w) t.
Proof.
  intros [Ho Hnc Hi Hj]. split; cbn; [done..| |done]. intros k q Hk. apply lookup_delete_Some in Hk as [_ Hk]. by eapply Hi.
Qed.

Lemma doomed_insert (w : World) i job ctx u run t : doomed w t -> doomed (set_ops <[i := OpRun job ctx u run]> w) t.
Proof.
  intros [Ho Hnc Hi Hj]. split; cbn; [done..| |done]. intros k q Hk. apply lookup_insert_Some in Hk as [[_ ?]|[_ Hk]]; [done|by eapply Hi].
Qed.

Lemma doomed_effect (w w1 : World) e o u : wf w -> doomed w u -> effect w e w1 o -> doomed w1 u.
Proof.
  intros Hw Hdm H. pose proof Hdm as [Hold Hnc Hops Hjobs].
  effect_cases H; try (by apply doomed_start); try (by apply doomed_delete); try done.
  - apply get_job_ok in Hj as [_ Hj].
    destruct Hw2 as [->|[_ ->]]; eapply doomed_job; try done; try apply Hj; try done. apply delete_subseteq.
  - apply get_job_ok in Hj as [_ Hj]. apply doomed_start.
    + eapply doomed_job; try done; try apply Hj; try done. apply delete_subseteq.
    + intros q [= Heq]. by apply (Hjobs rid j cx d).
  - split; cbn; [lia|done..].
  - apply get_job_ok in Hj as [_ Hj]. eapply doomed_job; try done; try apply Hj; done.
  - apply doomed_delete. split; cbn; [lia|done..].
  - apply doomed_delete. split; cbn; [lia|done..|].
    intros r j' c d Hr Hcur' Hd Heq. apply lookup_insert_Some in Hr as [[<- <-]|[_ Hr]];
      apply lookup_insert_Some in Hd as [[<- <-]|[Hne Hd]]; cbn in Heq, Hcur'; [lia|congruence|lia|]. by apply (Hjobs r j' c d).
  - apply doomed_delete. split; cbn; [done| |done..].
    intros log [Hin|[= -> ->]%list_elem_of_singleton]%elem_of_app; [by eapply Hnc|by eapply Hops].
  - by apply doomed_insert.
  - by apply doomed_insert.
  - apply doomed_delete. split; cbn; [lia|done..|].
    intros r j' c d Hr. apply lookup_insert_Some in Hr as [[_ <-]|[_ Hr]]; [by destruct job|by apply (Hjobs r j')].
Qed.

Lemma doomed_step (w w' : World) e o t : wf w -> doomed w t -> step w e = Some (w', o) -> doomed w' t.
Proof.
  intros Hw Hd Hstep. destruct (step_effect env w w' e o Hstep) as [(w1 & Heff & ->)|(job & -> & -> & ->)].
  - apply doomed_collect. by eapply doomed_effect.
  - by destruct Hd; split.
Qed.

Lemma doomed_steps (w w' : World) trace t log : tidy w -> doomed w t -> steps w trace w' -> (t, log) ∉ w_committed w'.
Proof.
  intros Ht Hd H. induction H as [w|w e o w1 trace w2 Hstep _ IH]; [apply Hd|].
  apply IH; [by eapply step_tidy|]. eapply doomed_step; [apply Ht|done..].
Qed.

Lemma untie_doomed (w : World) rid j c d : wf w -> w_jobs w !! rid = Some j -> j_current j = Some c -> w_ctxs w !! c = Some d ->
  (forall i q, w_ops w !! i <> Some (OpCommit q (dc_txn d))) -> doomed (untie rid j w) (dc_txn d).
Proof.
  intros Hw Hj Hc Hd Hi. destruct (wf_below w Hw) as (_ & _ & _ & Hb).
  split; cbn; [apply Hb; by apply (wf_ctx_txn w Hw c)| |done|].
  - apply held_not_committed; [done|]. apply holds_txn_true. left. by exists c, d.
  - intros r j' c' d' Hr Hcur Hd' Heq. assert (c' = c) as -> by (by eapply (wf_one_ctx w Hw)).
    apply lookup_insert_Some in Hr as [[<- <-]|[Hne Hr]]; [done|]. apply Hne. by apply (wf_one_job w Hw rid r j j' c).
Qed.

Lemma untie_holds (w : World) rid j c : wf w -> w_jobs w !! rid = Some j -> j_current j = Some c ->
  holds_ctx (untie rid j w) c = ops_hold_ctx w c.
Proof.
  intros Hw Hj Hc. apply eq_true_iff_eq. rewrite holds_ctx_true, ops_hold_ctx_true. split; [|by right].
  intros [(r & j' & Hr & Hcur)|H]; [|done]. cbn in Hr.
  apply lookup_insert_Some in Hr as [[<- <-]|[Hne Hr]]; [done|]. destruct Hne. by apply (wf_one_job w Hw rid r j j' c).
Qed.

Lemma take_holds (w : World) rid j c d : wf w -> w_ctxs w !! c = Some d ->
  holds_txn (set_ctxs (delete c) (untie rid j w)) (dc_txn d) = uses_txn w (dc_txn d).
Proof.
  intros Hw Hd. apply eq_true_iff_eq. rewrite holds_txn_true, uses_txn_true. split; [|by right].
  intros [(c' & d' & Hc & Ht)|H]; [|done]. cbn in Hc. apply lookup_delete_Some in Hc as [Hne Hc].
  destruct Hne. by apply (wf_one_ctx w Hw c c' d d').
Qed.

(** What [take_transaction] does for a job that has a transaction. *)
Lemma take_transaction_eq (w : World) rid j c d msg : wf w -> get_job w rid = Ok j -> j_current j = Some c ->
  w_ctxs w !! c = Some d -> take_transaction w rid msg =
    if ops_hold_ctx w c then
      (untie rid j w, bail "Cannot commit because a reference to the transaction is still being held.")
    else (set_ctxs (delete c) (untie rid j w), if uses_txn w (dc_txn d) then bail msg else Ok (dc_txn d)).
Proof.
  intros Hw Hj Hc Hd. pose proof Hj as [_ Hj']%get_job_ok.
  unfold take_transaction. rewrite Hj, Hc. fold (untie rid j w). cbn zeta. rewrite (untie_holds w rid j c) by done.
  destruct (ops_hold_ctx w c); [done|]. change (w_ctxs (untie rid j w)) with (w_ctxs w). rewrite Hd, take_holds by done.
  by destruct (uses_txn w (dc_txn d)).
Qed.

Lemma no_commit_running (w : World) c d : wf w -> w_ctxs w !! c = Some d ->
  forall i q, w_ops w !! i <> Some (OpCommit q (dc_txn d)).
Proof. intros Hw Hd i q Hi. by apply (wf_commit_ctx w Hw i q (dc_txn d) c d). Qed.

Lemma doomed_drop_ctx (w : World) c t : doomed w t -> doomed (set_ctxs (delete c) w) t.
Proof.
  intros [Ho Hnc Hi Hj]. split; cbn; [done..|]. intros r j c' d Hr Hcur Hd. apply lookup_delete_Some in Hd as [_ Hd]. by eapply Hj.
Qed.

Lemma get_job_collect (w : World) rid j : get_job w rid = Ok j -> get_job (collect w) rid = Ok j.
Proof.
  intros [Hin Hj]%get_job_ok. apply get_job_ok. split; [done|]. apply collect_jobs. split; [done|].
  apply holds_resource_true. by left.
Qed.

Lemma get_job_untie (w : World) rid j : get_job w rid = Ok j -> get_job (untie rid j w) rid = Ok (set_current None j).
Proof. intros [Hin Hj]%get_job_ok. apply get_job_ok. split; [done|]. cbn. by rewrite lookup_insert_eq. Qed.

(** C8: A commit takes the transaction away from its job first, whatever comes of
    it: the job has none afterwards and may begin another.  The transaction is
    committed only when no call that is under way holds its data context and no other
    call or stream holds the transaction itself.  Otherwise the commit
    answers with the error that says so, and the transaction can
    never be committed by anything that is called later. *)
Theorem commit_transaction_spec (w : World) rid j c d : reachable env w -> get_job w rid = Ok j -> j_current j = Some c ->
  w_ctxs w !! c = Some d ->
  let '(w', o) := op_chisel_commit_transaction w rid in
  get_job w' rid = Ok (set_current None j) /\
  if ops_hold_ctx w c || uses_txn w (dc_txn d) then
    o = Returned None (bail (if ops_hold_ctx w c then "Cannot commit because a reference to the transaction is still being held."
      else "Cannot commit a transaction because there is an operation in progress that uses this transaction")) /\
    forall trace w'' log, steps w' trace w'' -> (dc_txn d, log) ∉ w_committed w''
  else o = Pending (w_next w) /\ w_ops w' !! w_next w = Some (OpCommit rid (dc_txn d)) /\
    w_txns w' !! dc_txn d = w_txns w !! dc_txn d.
Proof.
  intros Hr Hj Hc Hd. pose proof (reachable_tidy env w Hr) as Ht. pose proof (td_wf w Ht) as Hw.
  pose proof (call_tidy env w (CallCommit rid) Hw) as Ht'. cbn [call] in Ht'. revert Ht'.
  unfold op_chisel_commit_transaction. rewrite (take_transaction_eq w rid j c d) by done.
  pose proof Hj as [_ Hj']%get_job_ok. pose proof (untie_doomed w rid j c d Hw Hj' Hc Hd (no_commit_running w c d Hw Hd)) as Hdm.
  pose proof (get_job_untie w rid j Hj) as Hju.
  destruct (ops_hold_ctx w c) eqn:Eo; [|destruct (uses_txn w (dc_txn d)) eqn:Eu]; cbn [orb fst now_err now wait fresh_id]; intros Ht'.
  - split; [by apply get_job_collect|]. split; [done|]. intros trace w'' log. by apply doomed_steps, doomed_collect.
  - split; [by apply get_job_collect|]. split; [done|]. intros trace w'' log.
    by apply doomed_steps, doomed_collect, doomed_drop_ctx.
  - split; [by apply get_job_collect|]. split; [done|]. split; [cbn; by rewrite lookup_insert_eq|].
    destruct (wf_ctx_txn w Hw c d Hd) as [log Hlog]. rewrite Hlog. apply collect_txns_lookup. split; [done|].
    apply holds_txn_true. right. left. exists (w_next w), (OpCommit rid (dc_txn d)). cbn. by rewrite lookup_insert_eq.
Qed.

(** A transaction whose rollback was asked for is never committed, and its job may
    begin another one, also when the rollback answers with an error
    because the transaction is still used; when it is not used, it is gone at
    once. *)
Theorem rollback_never_commits (w : World) rid j c d : reachable env w -> get_job w rid = Ok j -> j_current j = Some c ->
  w_ctxs w !! c = Some d ->
  let '(w', o) := op_chisel_rollback_transaction w rid in
  get_job w' rid = Ok (set_current None j) /\
  (if ops_hold_ctx w c || uses_txn w (dc_txn d) then exists e, o = Returned None (Err e)
   else o = Returned None (Ok RetUnit) /\ w_txns w' !! dc_txn d = None) /\
  forall trace w'' log, steps w' trace w'' -> (dc_txn d, log) ∉ w_committed w''.
Proof.
  intros Hr Hj Hc Hd. pose proof (reachable_tidy env w Hr) as Ht. pose proof (td_wf w Ht) as Hw.
  pose proof (call_tidy env w (CallRollback rid) Hw) as Ht'. cbn [call] in Ht'. revert Ht'.
  unfold op_chisel_rollback_transaction. rewrite (take_transaction_eq w rid j c d) by done.
  pose proof Hj as [_ Hj']%get_job_ok. pose proof (untie_doomed w rid j c d Hw Hj' Hc Hd (no_commit_running w c d Hw Hd)) as Hdm.
  pose proof (get_job_untie w rid j Hj) as Hju.
  destruct (ops_hold_ctx w c) eqn:Eo; [|destruct (uses_txn w (dc_txn d)) eqn:Eu]; cbn [orb fst now_err now]; intros Ht'.
  - split; [by apply get_job_collect|]. split; [by eexists|]. intros trace w'' log. by apply doomed_steps, doomed_collect.
  - split; [by apply get_job_collect|]. split; [by eexists|]. intros trace w'' log. by apply doomed_steps, doomed_collect, doomed_drop_ctx.
  - split; [by apply get_job_collect|]. split; [|intros trace w'' log; by apply doomed_steps, doomed_collect, doomed_drop_ctx].
    split; [done|]. apply eq_None_not_Some. intros [log [_ Hh%collect_holds_less]%collect_txns_lookup].
    rewrite take_holds in Hh by done. congruence.
Qed.

End Spec.
