(* ===== verification/ProgressSpec.v ===== *)
(** * Whether the calls of endpoints come to an end

    As long as no query stream holds the lock of a transaction, every call comes to
    its end, whatever the database and the policies answer and in whatever order:
    there is an order on what is left to do, which every answer decreases
    ([decreases_wf]).  A stream that was begun and is not read to its end keeps the
    lock: the calls that wait for it wait until it is read or closed. *)

From S2P Require Import Prelude Json EntityValue Expr Types Builtin TypeSystem Policies Auth Http Query Sql Engine Crud V8Value Ops OpsSpec WorkerSpec.

Section Spec.
Context {R : Type} {RW : AnyRow R}.
Context {RL : RegexLib} {ML : MethodLib} {FT : FloatText} {QD : QuotedData} {JT : JsonText} {UU : UuidLib} {BT : BytesText}.
Context {B64 : Base64} {FU : FormUrlencoded} {VL : V8Lib}.
Context (env : WorkerEnv).
Abbreviation World := (@World R).
Abbreviation Op := (@Op R).
Abbreviation step := (@step R _ _ _ _ _ _ _ _ _ _ _ env).
Abbreviation steps := (@steps R _ _ _ _ _ _ _ _ _ _ _ env).

(** ** Answers *)

(** What the database and the policies answer. *)
Record Oracle := {
  or_done : result unit;
  or_rows : SqlWithArguments -> Reply R;
  or_write : ObjectType -> EntityMap -> WriteAction -> result EntityMap;
  or_read : ObjectType -> EntityMap -> result (option EntityMap);
}.

Definition stream_statement (s : Stream (R:=R)) : SqlWithArguments := {| sql := raw_sql (st_query s); args := [] |}.

(** The answer for which a call waits. *)
Definition answer (oracle : Oracle) (w : World) (o : Op) : Answer (R:=R) :=
  match o with
  | OpBegin _ _ | OpCommit _ _ => AnsDone (or_done oracle)
  | OpRun _ _ _ (Outside (AskWrite ty value action _)) => AnsWrite (or_write oracle ty value action)
  | OpRun _ _ _ (Inside (Exec s _)) => AnsRows (or_rows oracle s)
  | OpRun _ _ _ (Inside (AskRead ty value _)) => AnsRead (or_read oracle ty value)
  | OpNext sid =>
      match w_streams w !! sid with
      | Some s => match st_state s with StreamNew => AnsRows (or_rows oracle (stream_statement s)) | _ => AnsNone end
      | None => AnsNone
      end
  | _ => AnsNone
  end.

(** ** What a step leaves to do *)

(** The parts of a task that may be left when it was answered. *)
Inductive part : Running (R:=R) -> Running (R:=R) -> Prop :=
  | part_lock b : part (Inside b) (Outside (Lock b))
  | part_write ty v a k r : part (Outside (k r)) (Outside (AskWrite ty v a k))
  | part_exec s k rows : part (Inside (k rows)) (Inside (Exec s k))
  | part_read ty v k r : part (Inside (k r)) (Inside (AskRead ty v k))
  | part_unlock t : part (Outside t) (Inside (Unlock t)).

Lemma part_wf : well_founded part.
Proof.
  assert ((forall t, Acc part (Outside t)) /\ (forall b, Acc part (Inside b))) as [H1 H2]; [|intros []; auto].
  apply Task_Locked_ind; intros; constructor; intros run Hp; by inversion Hp; subst.
Qed.

Definition op_part (o' o : Op) : Prop :=
  exists job ctx t run' run, o = OpRun job ctx t run /\ o' = OpRun job ctx t run' /\ part run' run.

Lemma op_part_wf : well_founded op_part.
Proof.
  assert (forall run job ctx t, Acc op_part (OpRun job ctx t run)) as Hrun.
  { intros run. induction run as [run IH] using (well_founded_ind part_wf). intros job ctx t.
    constructor. intros o (? & ? & ? & run' & ? & [= <- <- <- <-] & -> & Hp). by apply IH. }
  intros o. constructor. intros o' (job & ctx & t & run' & run & _ & -> & _). apply Hrun.
Qed.

Section Shrinks.
Context {A : Type} (below : A -> A -> Prop).

(** One entry of a map is gone, or has become less. *)
Inductive shrinks (m' m : gmap nat A) : Prop :=
  | shrinks_gone i x : m !! i = Some x -> m' = delete i m -> shrinks m' m
  | shrinks_less i x y : m !! i = Some x -> below y x -> m' = <[i := y]> m -> shrinks m' m.

Lemma shrinks_insert i m : Acc shrinks m -> forall x, Acc below x -> m !! i = None -> Acc shrinks (<[i := x]> m).
Proof.
  induction 1 as [m Hm IHm]. intros x Hx. induction Hx as [x Hx IHx]. intros Hi. constructor.
  intros m' [k z Hk ->|k z y Hk Hy ->]; destruct (decide (k = i)) as [->|Hne].
  - rewrite delete_insert_id by done. by constructor.
  - rewrite delete_insert_ne by done. rewrite lookup_insert_ne in Hk by done.
    apply IHm; [by eapply shrinks_gone|by constructor|]. by rewrite lookup_delete_ne.
  - rewrite insert_insert_eq. rewrite lookup_insert_eq in Hk. injection Hk as <-. by apply IHx.
  - rewrite insert_insert_ne by done. rewrite lookup_insert_ne in Hk by done.
    apply IHm; [by eapply shrinks_less|by constructor|]. by rewrite lookup_insert_ne.
Qed.

Lemma shrinks_wf : well_founded below -> well_founded shrinks.
Proof.
  intros Hwf m. induction m as [|i x m Hi IH] using map_ind.
  - constructor. intros m' [i x Hi _|i x y Hi _ _]; by rewrite lookup_empty in Hi.
  - by apply shrinks_insert.
Qed.
End Shrinks.

(** The streams of which no row was asked for yet. *)
Definition is_new (s : Stream (R:=R)) : bool := match st_state s with StreamNew => true | _ => false end.
Definition news (w : World) : nat := size (filter (fun e => is_new e.2 = true) (w_streams w)).

(** What an answer leaves is less: a call is gone or has less to do, or a stream has
    been begun. *)
Definition decreases (w' w : World) : Prop :=
  news w' < news w \/ news w' <= news w /\ shrinks op_part (w_ops w') (w_ops w).

Lemma decreases_wf : well_founded decreases.
Proof.
  intros w. remember (news w) as n eqn:Hn. revert w Hn. induction n as [n IHn] using lt_wf_ind. intros w ->.
  remember (w_ops w) as m eqn:Hm. revert w Hm IHn.
  induction m as [m IHm] using (well_founded_ind (shrinks_wf op_part op_part_wf)). intros w -> IHn.
  constructor. intros w' [Hlt|[Hle Hs]]; [by eapply IHn|].
  destruct (decide (news w' = news w)) as [Heq|]; [|by eapply IHn; [|done]; lia].
  eapply IHm; [exact Hs|done|]. by rewrite Heq.
Qed.

(** ** What becomes of a call that is answered *)

(** Streams go on where they are begun, and no others come. *)
Definition streams_go_on (w w' : World) (o : Op) : Prop :=
  forall r s', w_streams w' !! r = Some s' -> exists s, w_streams w !! r = Some s /\
    (s' = s \/ o = OpNext r /\ st_txn s' = st_txn s /\ is_new s' = false /\ exists rows, st_state s = StreamRows rows).

Inductive resumed (w w' : World) (i : nat) : Outcome -> Prop :=
  | res_over o r : w_ops w !! i = Some o -> w_ops w' = delete i (w_ops w) -> streams_go_on w w' o ->
      resumed w w' i (Returned (Some i) r)
  | res_part job ctx t run run' : w_ops w !! i = Some (OpRun job ctx t run) -> part run' run ->
      w_ops w' = <[i := OpRun job ctx t run']> (w_ops w) -> w_streams w' ⊆ w_streams w ->
      resumed w w' i (Pending i)
  | res_poll sid s rows : w_ops w !! i = Some (OpNext sid) -> w_streams w !! sid = Some s -> is_new s = true ->
      w_ops w' = w_ops w -> w_streams w' ⊆ <[sid := set_state (StreamRows rows) s]> (w_streams w) ->
      resumed w w' i (Pending i).

Lemma sub_goes_on (w w' : World) o : w_streams w' ⊆ w_streams w -> streams_go_on w w' o.
Proof. rewrite map_subseteq_spec. intros H r s' Hs. exists s'. auto. Qed.

Lemma collect_streams_sub (w : World) : w_streams (collect w) ⊆ w_streams w.
Proof. apply map_filter_subseteq. Qed.

Lemma finish_resumed (w w1 w' : World) i o r out : w_ops w !! i = Some o -> w_ops w1 = w_ops w ->
  streams_go_on w w1 o -> finish w1 i r = Some (w', out) -> resumed w w' i out.
Proof.
  intros Hi Hops Hs [= <- <-]. eapply res_over; [done|rewrite collect_ops; cbn; by rewrite Hops|].
  intros q s' Hq. apply collect_streams in Hq as [Hq _]. by apply Hs.
Qed.

Lemma finish_still (w w1 w' : World) i o r out : w_ops w !! i = Some o -> finish w1 i r = Some (w', out) ->
  w_ops w1 = w_ops w -> w_streams w1 = w_streams w -> resumed w w' i out.
Proof.
  intros Hi H Hops Hs. eapply finish_resumed; [exact Hi|exact Hops| |exact H]. apply sub_goes_on. by rewrite Hs.
Qed.

Lemma continue_resumed (w w1 w' : World) i job ctx t run run' out : w_ops w !! i = Some (OpRun job ctx t run) ->
  continue w1 i (OpRun job ctx t run') = Some (w', out) -> part run' run ->
  w_ops w1 = w_ops w -> w_streams w1 = w_streams w -> resumed w w' i out.
Proof.
  intros Hi [= <- <-] Hp Hops Hs. eapply res_part; [done|done|rewrite collect_ops; cbn; by rewrite Hops|].
  etrans; [apply collect_streams_sub|]. cbn. by rewrite Hs.
Qed.

Lemma resume_run_resumed (w w' : World) i job ctx t run a out : w_ops w !! i = Some (OpRun job ctx t run) ->
  resume_run w i job ctx t run a = Some (w', out) -> resumed w w' i out.
Proof.
  intros Hi H. destruct run as [[r|b|ty v act k]|[s k|ty v k|task]]; cbn in H; destruct a; try done.
  - by eapply finish_still.
  - destruct (locked w t); [done|]. by eapply continue_resumed; [done|exact H|constructor|..].
  - by eapply continue_resumed; [done|exact H|constructor|..].
  - by eapply continue_resumed; [done|exact H|constructor|..].
  - by eapply continue_resumed; [done|exact H|constructor|..].
  - by eapply continue_resumed; [done|exact H|constructor|..].
Qed.

Lemma put_goes_on (w : World) sid s s' row_or_end : w_streams w !! sid = Some s -> st_state s = StreamRows row_or_end ->
  st_txn s' = st_txn s -> is_new s' = false -> streams_go_on w (set_streams <[sid := s']> w) (OpNext sid).
Proof.
  intros Hs Hst Ht Hn r x Hx. cbn in Hx. apply lookup_insert_Some in Hx as [[<- <-]|[_ Hx]]; [exists s; eauto 10|exists x; auto].
Qed.

Lemma resume_next_resumed (w w' : World) i sid a out : w_ops w !! i = Some (OpNext sid) ->
  resume_next env w i sid a = Some (w', out) -> resumed w w' i out.
Proof.
  intros Hi H. unfold resume_next in H. destruct (decide (sid ∉ w_table w)).
  { by eapply finish_still. }
  destruct (w_streams w !! sid) as [s|] eqn:Hs; [|done]. cbn [mbind option_bind] in H.
  destruct (st_state s) as [|[|row rows]|] eqn:Est; destruct a; try done.
  - destruct (locked w (st_txn s)); [done|]. injection H as <- <-.
    eapply (res_poll _ _ _ sid s rows); [done|done|by unfold is_new; rewrite Est|done|]. etrans; [apply collect_streams_sub|reflexivity].
  - eapply finish_resumed; [done| | |exact H]; [done|]. by eapply put_goes_on.
  - change (st_query (set_state (StreamRows rows) s)) with (st_query s) in H.
    destruct (decode_row env (st_query s) row); (eapply finish_resumed; [done| | |exact H]; [done|]);
      by eapply put_goes_on.
  - by eapply finish_still.
Qed.

Lemma resume_begin_resumed (w w' : World) i rid info r out : w_ops w !! i = Some (OpBegin rid info) ->
  resume_begin w i rid info r = Some (w', out) -> resumed w w' i out.
Proof.
  intros Hi H. unfold resume_begin in H. cbn [fresh_id] in H.
  destruct r; [|by eapply finish_still..].
  destruct (get_job _ rid) as [j| |]; [destruct (j_current j)|..];
    by eapply finish_still.
Qed.

Lemma resume_accept_resumed (w w' : World) i a out : w_ops w !! i = Some OpAccept ->
  resume_accept w i a = Some (w', out) -> resumed w w' i out.
Proof.
  intros Hi H. unfold resume_accept in H. destruct (w_queue w) as [|job queue]; destruct a; try done;
    cbn [fresh_id] in H; by eapply finish_still.
Qed.

Lemma resume_resumed (w w' : World) i a out : step w (EvResume i a) = Some (w', out) -> resumed w w' i out.
Proof.
  cbn [Ops.step]. destruct (w_ops w !! i) as [[rid info|rid t|job ctx t run|sid|]|] eqn:Hi; [..|done];
    cbn [mbind option_bind]; intros H.
  - destruct a; try done. by eapply resume_begin_resumed.
  - destruct a as [[]| | | |]; try done; unfold resume_commit in H;
      by eapply finish_still.
  - by eapply resume_run_resumed.
  - by eapply resume_next_resumed.
  - by eapply resume_accept_resumed.
Qed.

Lemma news_sub (w w' : World) : (forall r s', w_streams w' !! r = Some s' -> is_new s' = true -> w_streams w !! r = Some s') ->
  news w' <= news w.
Proof.
  intros H. unfold news. apply map_subseteq_size. apply map_subseteq_spec. intros r s' [Hs Hn]%map_lookup_filter_Some.
  apply map_lookup_filter_Some. split; [by apply H|done].
Qed.

Lemma resumed_decreases (w w' : World) i out : resumed w w' i out -> decreases w' w.
Proof.
  destruct 1 as [o r Hi Hops Hs|job ctx t run run' Hi Hp Hops Hs|sid s rows Hi Hsid Hn Hops Hs].
  - right. split; [|by eapply shrinks_gone]. apply news_sub. intros q s' Hq Hnew.
    destruct (Hs q s' Hq) as (s & Hw & [->|(_ & _ & Hold & _)]); [done|congruence].
  - right. split; [|by eapply shrinks_less; [| |done]; [done|by do 5 eexists]]. apply news_sub.
    rewrite map_subseteq_spec in Hs. intros q s' Hq _. by apply Hs.
  - left. rewrite map_subseteq_spec in Hs. unfold news. apply map_subset_size. apply map_subset_alt. split.
    + apply map_subseteq_spec. intros q s' [Hq Hnew]%map_lookup_filter_Some. apply map_lookup_filter_Some.
      split; [|done]. apply Hs, lookup_insert_Some in Hq as [[_ <-]|[_ Hq]]; [done|done].
    + exists sid. split; [|rewrite map_lookup_filter_Some_2 with (x := s); [by eexists|done|done]].
      apply map_lookup_filter_None. right. intros s' Hq Hnew. apply Hs, lookup_insert_Some in Hq as [[_ <-]|[? _]]; done.
Qed.

(** ** Who is not hindered *)

(** The transaction whose lock a call will want. *)
Definition wants (w : World) (o : Op) : option nat :=
  match o with
  | OpRun _ _ t _ => Some t
  | OpNext sid => s ← w_streams w !! sid; if is_new s then Some (st_txn s) else None
  | _ => None
  end.

(** No stream of the transaction was left open, and no other call is about to begin
    one. *)
Definition unhindered (w : World) (i : nat) (o : Op) : Prop :=
  forall t r s, wants w o = Some t -> w_streams w !! r = Some s -> st_txn s = t ->
    ~ stream_locks t s /\ (is_new s = true -> forall k, k <> i -> w_ops w !! k <> Some (OpNext r)).

Lemma unhindered_kept (w w' : World) i o x : unhindered w i o -> streams_go_on w w' x ->
  (forall k r, w_ops w' !! k = Some (OpNext r) -> w_ops w !! k = Some (OpNext r)) -> unhindered w' i o.
Proof.
  intros Hu Hs Hops t r s' Hw Hr Ht. assert (wants w o = Some t) as Hw0.
  { destruct o as [| |job ctx u run|sid|]; try done. cbn in Hw |- *.
    destruct (w_streams w' !! sid) as [q|] eqn:Hq; [|done]. cbn in Hw. destruct (is_new q) eqn:Hn; [|done].
    destruct (Hs sid q Hq) as (q0 & -> & [->|(_ & _ & Hold & _)]); [cbn; by rewrite Hn|congruence]. }
  destruct (Hs r s' Hr) as (s & Hr0 & [->|(_ & Htx & _ & rows & Hst)]).
  - destruct (Hu t r s Hw0 Hr0 Ht) as [Hl Hk]. split; [done|]. intros Hn k Hne Hx. by eapply Hk; [| |apply Hops].
  - destruct (Hu t r s Hw0 Hr0 ltac:(congruence)) as [Hl _]. destruct Hl. unfold stream_locks. rewrite Hst. congruence.
Qed.

(** Someone else begins a stream: of another transaction. *)
Lemma unhindered_polled (w w' : World) i o k sid s rows : unhindered w i o -> k <> i -> w_ops w !! k = Some (OpNext sid) ->
  w_streams w !! sid = Some s -> is_new s = true -> w_ops w' = w_ops w ->
  w_streams w' ⊆ <[sid := set_state (StreamRows rows) s]> (w_streams w) -> unhindered w' i o.
Proof.
  intros Hu Hne Hk Hsid Hn Hops Hs t r s' Hw Hr Ht. rewrite map_subseteq_spec in Hs. rewrite Hops.
  assert (wants w o = Some t) as Hw0.
  { destruct o as [| |job ctx u run|q|]; try done. cbn in Hw |- *.
    destruct (w_streams w' !! q) as [x|] eqn:Hq; [|done]. cbn in Hw. destruct (is_new x) eqn:Hnx; [|done].
    apply Hs, lookup_insert_Some in Hq as [[_ <-]|[_ ->]]; [done|]. cbn. by rewrite Hnx. }
  apply Hs, lookup_insert_Some in Hr as [[<- <-]|[_ Hr]]; [|by apply (Hu t r s')].
  destruct (Hu t sid s Hw0 Hsid Ht) as [_ Hno]. by destruct (Hno Hn k Hne).
Qed.

Lemma unhindered_resumed (w w' : World) i o k out : w_ops w !! i = Some o -> unhindered w i o ->
  resumed w w' k out -> (exists r, out = Returned (Some i) r) \/
  exists o', w_ops w' !! i = Some o' /\ (o' = OpAccept -> o = OpAccept) /\ unhindered w' i o'.
Proof.
  intros Hi Hu [x r Hk Hops Hs|job ctx t run run' Hk Hp Hops Hs|sid s rows Hk Hsid Hn Hops Hs].
  - destruct (decide (k = i)) as [->|Hne]; [left; by eexists|right]. exists o. rewrite Hops, lookup_delete_ne by done.
    split; [done|]. split; [done|]. eapply unhindered_kept; [done|done|].
    intros q y. rewrite Hops. by intros [_ Hq]%lookup_delete_Some.
  - right. apply (sub_goes_on w w' o) in Hs.
    assert (forall q y, w_ops w' !! q = Some (OpNext y) -> w_ops w !! q = Some (OpNext y)) as Hnext
      by (intros q y; rewrite Hops; by intros [[_ ?]|[_ ?]]%lookup_insert_Some).
    pose proof (unhindered_kept w w' i o o Hu Hs Hnext) as Hu'. rewrite Hops.
    destruct (decide (k = i)) as [->|Hne]; [|exists o; by rewrite lookup_insert_ne].
    rewrite Hi in Hk. injection Hk as ->. eexists. rewrite lookup_insert_eq. by split.
  - right. exists o. rewrite Hops. split; [done|]. split; [done|].
    destruct (decide (k = i)) as [->|Hne]; [|by eapply (unhindered_polled w w' i o k)].
    rewrite Hi in Hk. injection Hk as ->. intros t r s' Hw. cbn in Hw. rewrite map_subseteq_spec in Hs.
    destruct (w_streams w' !! sid) as [x|] eqn:Hx; [|done]. cbn in Hw.
    apply Hs, lookup_insert_Some in Hx as [[_ <-]|[? _]]; done.
Qed.

(** ** Someone can be answered *)

(** Whatever its answer is, the call can be given it. *)
Definition can_go_on (w : World) (k : nat) : Prop :=
  exists o, w_ops w !! k = Some o /\ forall oracle, is_Some (step w (EvResume k (answer oracle w o))).

Lemma inside_goes_on (w : World) k job ctx t b : w_ops w !! k = Some (OpRun job ctx t (Inside b)) -> can_go_on w k.
Proof.
  intros Hk. eexists. split; [done|]. intros oracle. cbn [Ops.step]. rewrite Hk. destruct b; by eexists.
Qed.

(** A lock that no stream has is free, or a call inside of it can go on. *)
Lemma lock_goes_on (w : World) t : (forall r s, w_streams w !! r = Some s -> ~ stream_locks t s) ->
  locked w t = false \/ exists k, can_go_on w k.
Proof.
  intros Hs. destruct (locked w t) eqn:El; [right|by left].
  apply locked_true in El as [(k & o & Hk & Hl)|(r & s & Hr & Hl)]; [|by destruct (Hs r s Hr)].
  destruct o as [| |job ctx t' [task|b]| |]; try done. exists k. by eapply inside_goes_on.
Qed.

Lemma someone_goes_on (w : World) i o : tidy w -> w_ops w !! i = Some o -> o <> OpAccept -> unhindered w i o ->
  exists k, can_go_on w k.
Proof.
  intros Ht Hi Hna Hu.
  assert (forall t, wants w o = Some t -> forall r s, w_streams w !! r = Some s -> ~ stream_locks t s) as Hlock.
  { intros t Hw r s Hs Hl. destruct (Hu t r s Hw Hs) as [Hno _]; [|done].
    unfold stream_locks in Hl. by destruct (st_state s). }
  destruct o as [rid info|rid t|job ctx t run|sid|]; [| | | |done].
  - exists i. eexists. split; [done|]. intros oracle. cbn [Ops.step answer]. rewrite Hi. cbn [mbind option_bind].
    unfold resume_begin. destruct (or_done oracle); [|by eexists..]. cbn [fresh_id].
    destruct (get_job _ rid) as [j| |]; [|by eexists..]. destruct (j_current j); by eexists.
  - exists i. eexists. split; [done|]. intros oracle. cbn [Ops.step answer]. rewrite Hi. cbn [mbind option_bind].
    unfold resume_commit. destruct (or_done oracle); by eexists.
  - destruct run as [task|b]; [|exists i; by eapply inside_goes_on].
    destruct task as [r|b|ty v act k]; [| |exists i; eexists; split; [done|]; intros oracle; cbn [Ops.step answer]; rewrite Hi; by eexists].
    { exists i. eexists. split; [done|]. intros oracle. cbn [Ops.step answer]. rewrite Hi. by eexists. }
    destruct (lock_goes_on w t (Hlock t eq_refl)) as [Hf|Hk]; [|done].
    exists i. eexists. split; [done|]. intros oracle. cbn [Ops.step answer]. rewrite Hi. cbn. rewrite Hf. by eexists.
  - destruct (wf_op_stream w (td_wf w Ht) i sid Hi) as [s Hs].
    assert (is_new s = false \/ sid ∉ w_table w \/ sid ∈ w_table w /\ st_state s = StreamNew) as Hcase.
    { unfold is_new. destruct (decide (sid ∈ w_table w)), (st_state s); auto. }
    assert (sid ∈ w_table w -> st_state s = StreamNew -> locked w (st_txn s) = false \/ exists k, can_go_on w k) as Hpoll.
    { intros _ Hn. apply lock_goes_on, Hlock. cbn. rewrite Hs. cbn. unfold is_new. by rewrite Hn. }
    destruct Hcase as [Hold|[Hno|[Hin Hn]]]; [| |destruct (Hpoll Hin Hn) as [Hf|]; [|done]];
      exists i; eexists; (split; [done|]); intros oracle; cbn [Ops.step answer]; rewrite Hi, Hs;
      cbn [mbind option_bind]; unfold resume_next.
    + destruct (decide _) as [_|_]; [by eexists|]. rewrite Hs. cbn [mbind option_bind].
      unfold is_new in Hold. destruct (st_state s) as [|[|row rows]|]; [done|by eexists| |by eexists].
      change (st_query (set_state (StreamRows rows) s)) with (st_query s).
      destruct (decode_row env (st_query s) row); by eexists.
    + rewrite decide_True by done. by eexists.
    + rewrite decide_False by auto. rewrite Hs. cbn [mbind option_bind]. rewrite Hn, Hf. by eexists.
Qed.

(** ** The end of a call *)

(** Some call under way can be answered, whatever the answer is; and whichever call is
    answered, with whatever, then [i] has returned or is in such a situation again: all
    this ends, since the predicate is inductive. *)
Inductive ends (i : nat) (w : World) : Prop :=
  | ends_intro :
      (exists k, can_go_on w k) ->
      (forall k a w' out, step w (EvResume k a) = Some (w', out) -> (exists r, out = Returned (Some i) r) \/ ends i w') ->
      ends i w.

(** C9: A call under way comes to its end, whatever the database and the policies
    answer and in whatever order the calls under way are answered, as long as
    endpoints make no new calls and no query stream stands in its way: no stream of
    the transaction it wants is open, and no other call is about to begin one.  There
    is always a call that can be answered, and after finitely many answers, however
    they are chosen, the call has returned.  Only a worker that waits for a job may
    wait forever. *)
Theorem ops_progress (w : World) i o : reachable env w -> w_ops w !! i = Some o -> o <> OpAccept ->
  unhindered w i o -> ends i w.
Proof.
  intros Hr Hi Hna Hu. pose proof (reachable_tidy env w Hr) as Ht. clear Hr. revert o Ht Hi Hna Hu.
  induction w as [w IH] using (well_founded_ind decreases_wf). intros o Ht Hi Hna Hu. constructor.
  - by eapply someone_goes_on.
  - intros k a w' out Hstep. pose proof (resume_resumed _ _ _ _ _ Hstep) as Hres.
    destruct (unhindered_resumed w w' i o k out Hi Hu Hres) as [Hret|(o' & Hi' & Hna' & Hu')]; [by left|right].
    eapply (IH w' (resumed_decreases _ _ _ _ Hres) o'); [by eapply step_tidy|done|auto|done].
Qed.

(** ** Rows that policies skip *)

(** A row that a policy skips is given as [null], and so is what follows the last
    row: the caller cannot tell one from the other. *)
Lemma skipped_row_is_null (w : World) sid rid process_read s v j cd : we_typescript_policies env = true ->
  get_stream w sid = Ok s -> st_next s = Some v -> get_job w rid = Ok j -> data_context w j = Ok cd ->
  process_read (object_type (st_ty s)) v = Ok None ->
  (op_chisel_query_get_value env w sid rid process_read).2 = Returned None (Ok (RetValue V8Null)).
Proof.
  intros Hts Hs Hn Hj Hc Hp. unfold op_chisel_query_get_value. rewrite Hs, Hn, Hts, Hj. cbn. rewrite Hc. cbn. by rewrite Hp.
Qed.

Lemma ended_stream_is_null (w : World) sid rid process_read s : get_stream w sid = Ok s -> st_next s = None ->
  (op_chisel_query_get_value env w sid rid process_read).2 = Returned None (Ok (RetValue V8Null)).
Proof. intros Hs Hn. unfold op_chisel_query_get_value. by rewrite Hs, Hn. Qed.

(** ** Streams that are left open *)


(** Neither is the next row of the stream asked for nor the stream closed. *)
Definition leaves (sid : nat) (e : Event (R:=R)) : Prop :=
  match e with
  | EvCall (CallQueryNext r) | EvCall (CallClose r) => r <> sid
  | _ => True
  end.

Record kept_open (w : World) (t sid i : nat) (o : Op) : Prop := {
  ko_table : sid ∈ w_table w;
  ko_stream : exists s, w_streams w !! sid = Some s /\ stream_locks t s;
  ko_next : forall k, w_ops w !! k <> Some (OpNext sid);
  ko_op : w_ops w !! i = Some o;
}.

Lemma kept_collect (w : World) t sid i o : kept_open w t sid i o -> kept_open (collect w) t sid i o.
Proof.
  intros [Htab (s & Hs & Hl) Hn Ho]. split; [done| |done..]. exists s. split; [|done].
  apply collect_streams. split; [done|]. apply holds_resource_true. by left.
Qed.

(** The other parts of the heap may change. *)
Lemma kept_by (w w1 : World) t sid i o : kept_open w t sid i o -> sid ∈ w_table w1 ->
  (forall s, w_streams w !! sid = Some s -> stream_locks t s -> exists s', w_streams w1 !! sid = Some s' /\ stream_locks t s') ->
  (forall k, w_ops w1 !! k <> Some (OpNext sid)) -> w_ops w1 !! i = Some o -> kept_open w1 t sid i o.
Proof. intros [Htab (s & Hs & Hl) Hn Ho] Ht1 Hs1 Hn1 Ho1. split; [done|by eapply Hs1|done..]. Qed.

Lemma kept_start (w w1 : World) t sid i o x : wf w -> kept_open w t sid i o -> x <> OpNext sid -> w_next w1 = w_next w ->
  w_table w1 = w_table w -> w_streams w1 = w_streams w -> w_ops w1 = w_ops w -> kept_open (start w1 x) t sid i o.
Proof.
  intros Hw Hk Hx Hn Ht Hs Ho. pose proof Hk as [Htab (s & Hsid & Hl) Hno Hi].
  apply (kept_by w); [done|cbn; by rewrite Ht|intros; cbn; rewrite Hs; eauto|..]; cbn; rewrite Hn, Ho.
  - intros k [[_ ?]|[_ Hk']]%lookup_insert_Some; [done|by eapply Hno].
  - rewrite lookup_insert_ne; [done|]. intros Heq. destruct (wf_below w Hw) as (_ & _ & Hb & _).
    specialize (Hb i ltac:(by eexists)). lia.
Qed.

Lemma kept_delete (w : World) t sid i o k : kept_open w t sid i o -> k <> i -> kept_open (set_ops (delete k) w) t sid i o.
Proof.
  intros Hk Hne. pose proof Hk as [Htab (s & Hsid & Hl) Hno Hi]. apply (kept_by w); [done|done|eauto|..]; cbn.
  - intros k' [_ Hk']%lookup_delete_Some. by eapply Hno.
  - by rewrite lookup_delete_ne.
Qed.

Lemma kept_insert (w : World) t sid i o k job ctx u run : kept_open w t sid i o -> k <> i ->
  kept_open (set_ops <[k := OpRun job ctx u run]> w) t sid i o.
Proof.
  intros Hk Hne. pose proof Hk as [Htab (s & Hsid & Hl) Hno Hi]. apply (kept_by w); [done|done|eauto|..]; cbn.
  - intros k' [[_ ?]|[_ Hk']]%lookup_insert_Some; [done|by eapply Hno].
  - by rewrite lookup_insert_ne.
Qed.

Lemma kept_effect (w w1 : World) e o u q m op : wf w -> kept_open w u q m op -> leaves q e ->
  (forall a, e <> EvResume m a) -> effect w e w1 o -> kept_open w1 u q m op.
Proof.
  intros Hw Hk Hlv Hne H. pose proof Hk as [Htab (s0 & Hsid & Hlk) Hno Hop].
  assert (forall i a, EvResume i a = e -> i <> m) as Hother by (intros i a <- ->; by eapply Hne).
  effect_cases H; try (specialize (Hother _ _ eq_refl)); try (by eapply kept_start); try (by apply kept_delete); try done.
  - destruct Hw2 as [->|[_ ->]]; by apply (kept_by w); eauto.
  - apply (kept_by w); cbn; [done|set_solver|intros s' Hs' Hl'|done..].
    exists s'. split; [|done]. rewrite lookup_insert_ne; [done|]. intros Heq. destruct (wf_below w Hw) as (_ & Hb & _).
    specialize (Hb q ltac:(by eexists)). lia.
  - apply kept_start with w; try done. intros [= ->]. done.
  - apply (kept_by w); cbn; [done|done|intros s' Hs' Hl'|done..]. apply get_stream_ok in Hs as [_ Hs].
    destruct (decide (sid = q)) as [->|Hd]; [|exists s'; cbn; by rewrite lookup_insert_ne].
    rewrite Hs in Hs'. injection Hs' as <-. exists (set_next None s). by rewrite lookup_insert_eq.
  - apply (kept_by w); cbn; eauto. set_solver.
  - by apply (kept_by w); eauto.
  - apply kept_delete; [|done]. by apply (kept_by w); eauto.
  - apply kept_delete; [|done]. by apply (kept_by w); eauto.
  - apply kept_delete; [|done]. by apply (kept_by w); eauto.
  - by apply kept_insert.
  - apply kept_insert; [|done]. by apply (kept_by w); eauto.
  - apply (kept_by w); cbn; [done|done|intros s' Hs' Hl'|done..].
    destruct (decide (sid = q)) as [->|Hd]; [by eapply Hno in Hx|exists s'; by rewrite lookup_insert_ne].
  - apply kept_delete; [|done]. apply (kept_by w); cbn; [done|done|intros s' Hs' Hl'|done..].
    destruct (decide (sid = q)) as [->|Hd]; [by eapply Hno in Hx|exists s'; by rewrite lookup_insert_ne].
  - apply kept_delete; [|done]. apply (kept_by w); cbn; [done|done|intros s' Hs' Hl'|done..].
    destruct (decide (sid = q)) as [->|Hd]; [by eapply Hno in Hx|exists s'; by rewrite lookup_insert_ne].
  - apply kept_delete; [|done]. by apply (kept_by w); eauto.
  - apply kept_delete; [|done]. apply (kept_by w); cbn; eauto. set_solver.
Qed.

Lemma returned_by (w w1 : World) e o m : effect w e w1 o -> (exists r, o = Returned (Some m) r) -> exists a, e = EvResume m a.
Proof. intros H [r' Ho]. effect_cases H; try done; injection Ho as -> _; by eexists. Qed.

Lemma stream_locked (w : World) t sid i o : kept_open w t sid i o -> locked w t = true.
Proof. intros [_ (s & Hs & Hl) _ _]. apply locked_true. right. eauto. Qed.

(** C10: A query stream of which a row was asked for keeps the lock of its transaction
    until it is read to its end or closed: as long as neither happens, a
    call that waits for that lock is still waiting for it, whatever else the
    worker does. A loop over a cursor that saves an entity in its body, and
    waits for it, never goes on: the next row is asked for after the call returned. *)
Theorem open_stream_starves (w w' : World) trace sid s t i job ctx b : reachable env w ->
  sid ∈ w_table w -> w_streams w !! sid = Some s -> stream_locks t s -> (forall k, w_ops w !! k <> Some (OpNext sid)) ->
  w_ops w !! i = Some (OpRun job ctx t (Outside (Lock b))) ->
  steps w trace w' -> Forall (fun eo => leaves sid eo.1) trace ->
  w_ops w' !! i = Some (OpRun job ctx t (Outside (Lock b))) /\ locked w' t = true /\
  forall r, (forall e, (e, Returned (Some i) r) ∉ trace).
Proof.
  intros Hr Htab Hs Hl Hno Hi Hsteps Hlv. pose proof (reachable_tidy env w Hr) as Ht.
  assert (kept_open w t sid i (OpRun job ctx t (Outside (Lock b)))) as Hk by (split; eauto).
  clear Hr Htab Hs Hl Hno Hi. induction Hsteps as [w|w e o w1 trace w2 Hstep _ IH].
  - split; [apply Hk|]. split; [by eapply stream_locked|]. intros r e Hin. by apply not_elem_of_nil in Hin.
  - apply Forall_cons in Hlv as [Hlv Hlvs]. assert (forall a, e <> EvResume i a) as Hother.
    { intros a ->. cbn [Ops.step] in Hstep. rewrite (ko_op _ _ _ _ _ Hk) in Hstep. cbn in Hstep.
      rewrite (stream_locked _ _ _ _ _ Hk) in Hstep. by destruct a. }
    assert (kept_open w1 t sid i (OpRun job ctx t (Outside (Lock b))) /\ forall r, o <> Returned (Some i) r) as [Hk1 Ho].
    { destruct (step_effect env w w1 e o Hstep) as [(w3 & Heff & ->)|(j & -> & -> & ->)]; [|by destruct Hk].
      split; [by apply kept_collect; eapply kept_effect; eauto; apply Ht|].
      intros r ->. destruct (returned_by w w3 e _ i Heff) as [a Ha]; [by eexists|]. by eapply Hother. }
    destruct (IH Hlvs) as (H1 & H2 & H3); [by eapply step_tidy|done|]. split; [done|]. split; [done|].
    intros r e' [[= -> <-]|Hin]%elem_of_cons; [by eapply Ho|by eapply H3].
Qed.

End Spec.
