(* ===== verification/JobsSpec.v ===== *)
(** * The jobs of a worker

    A worker is given every job once, in the order in which the server sent them, and
    answers each request at most once. *)

From S2P Require Import Prelude Json EntityValue Expr Types Builtin TypeSystem Policies Auth Http Query Sql Engine Crud V8Value Ops OpsSpec WorkerSpec.

Section Spec.
Context {R : Type} {RW : AnyRow R}.
Context {RL : RegexLib} {ML : MethodLib} {FT : FloatText} {QD : QuotedData} {JT : JsonText} {UU : UuidLib} {BT : BytesText}.
Context {B64 : Base64} {FU : FormUrlencoded} {VL : V8Lib}.
Context (env : WorkerEnv).
Abbreviation World := (@World R).
Abbreviation step := (@step R _ _ _ _ _ _ _ _ _ _ _ env).
Abbreviation steps := (@steps R _ _ _ _ _ _ _ _ _ _ _ env).

(** ** What the server sends and the worker is given *)

Definition sent_by (e : Event (R:=R)) : list VersionJob := match e with EvSend job => [job] | _ => [] end.
Definition sent (trace : list (Event (R:=R) * Outcome)) : list VersionJob := trace ≫= fun eo => sent_by eo.1.

(** What the step of a call of [op_chisel_accept_job] gives. *)
Definition given_by (w : World) (e : Event (R:=R)) (o : Outcome) : list AcceptedJob :=
  match e, o with
  | EvResume i _, Returned _ (Ok (RetJob (Some job))) =>
      match w_ops w !! i with Some OpAccept => [job] | _ => [] end
  | _, _ => []
  end.

Fixpoint given (w : World) (trace : list (Event (R:=R) * Outcome)) : list AcceptedJob :=
  match trace with
  | [] => []
  | (e, o) :: trace =>
      given_by w e o ++ match step w e with Some (w', _) => given w' trace | None => [] end
  end.

Lemma accept_effect (w w1 : World) e o : effect w e w1 o ->
  (exists job rid, w_queue w = job :: w_queue w1 /\ rid = w_next w /\ w_next w < w_next w1 /\ given_by w e o = [accepted job rid]) \/
  (w_queue w1 = w_queue w /\ w_next w <= w_next w1 /\ given_by w e o = []).
Proof.
  intros H. effect_cases H; try (right; split; [done|]; split; [cbn; lia|done]).
  - right. destruct Hw2 as [->|[_ ->]]; (split; [done|split; [cbn; lia|done]]).
  - right. split; [done|]. split; [done|]. cbn. rewrite Hx. destruct r as [[]| |]; try done. destruct job, x; done.
  - right. split; [done|]. split; [cbn; lia|]. cbn. rewrite Hx. by destruct r as [[| | | | |[]]| |].
  - right. split; [done|]. split; [done|]. cbn. rewrite Hx. by destruct r as [[| | | | |[]]| |].
  - left. exists job, (w_next w). split; [done|]. split; [done|]. split; [cbn; lia|]. cbn. by rewrite Hx.
Qed.

Lemma sent_cons e o trace : sent ((e, o) :: trace) = sent_by e ++ sent trace.
Proof. done. Qed.

Lemma jobs_given (w w' : World) trace : tidy w -> steps w trace w' -> exists jobs rids,
  w_queue w ++ sent trace = jobs ++ w_queue w' /\ given w trace = zip_with accepted jobs rids /\
  List.length rids = List.length jobs /\ NoDup rids /\ (forall rid, rid ∈ rids -> w_next w <= rid).
Proof.
  intros Ht H. induction H as [w|w e o w1 trace w2 Hstep Hrest IH].
  - exists [], []. cbn. rewrite app_nil_r. repeat split; [constructor|by intros ? ?%not_elem_of_nil].
  - destruct IH as (jobs & rids & Hq & Hg & Hl & Hnd & Hb); [by eapply step_tidy|]. cbn [given]. rewrite Hstep, Hg, sent_cons.
    destruct (step_effect env w w1 e o Hstep) as [(w3 & Heff & ->)|(job & -> & -> & ->)].
    + assert (sent_by e = []) as Hs by (by destruct Heff). rewrite Hs.
      destruct (accept_effect w w3 e o Heff) as [(job & rid & Hw & -> & Hn & ->)|(Hw & Hn & ->)]; cbn in *.
      * exists (job :: jobs), (w_next w :: rids). rewrite Hw. cbn. rewrite Hq, Hl. repeat split; [|by intros ? [->|?%Hb]%elem_of_cons; lia].
        apply NoDup_cons. split; [|done]. intros ?%Hb. lia.
      * exists jobs, rids. rewrite <- Hw, Hq. repeat split; try done. intros rid ?%Hb. lia.
    + exists jobs, rids. cbn in *. rewrite <- app_assoc in Hq. done.
Qed.

(** C27: The worker is given the jobs in the order in which the server sends them, each
    once and none that was not sent, under numbers of which no two are equal:
    what was sent is what was given, followed by what still waits. *)
Theorem jobs_in_order (w : World) trace : steps world_new trace w -> exists jobs rids,
  sent trace = jobs ++ w_queue w /\ given world_new trace = zip_with accepted jobs rids /\
  List.length rids = List.length jobs /\ NoDup rids.
Proof.
  intros H. destruct (jobs_given world_new w trace tidy_new H) as (jobs & rids & Hq & Hg & Hl & Hnd & _).
  by exists jobs, rids.
Qed.

(** ** Responses *)

(** A response that was sent took the sender of its job. *)
Record answered_once (w : World) : Prop := {
  ao_once : NoDup (w_responses w).*1;
  ao_sent : forall rid response, (rid, response) ∈ w_responses w -> rid < w_next w /\
    forall j, w_jobs w !! rid = Some j -> j_response_tx j = false;
}.

Lemma once_by (w w1 : World) : answered_once w -> w_responses w1 = w_responses w -> w_next w <= w_next w1 ->
  (forall rid j', rid < w_next w -> w_jobs w1 !! rid = Some j' ->
     exists j, w_jobs w !! rid = Some j /\ j_response_tx j = j_response_tx j') -> answered_once w1.
Proof.
  intros [Hn Hs] Hr Hx Hj. split; rewrite Hr; [done|]. intros rid response [Hlt Htx]%Hs. split; [lia|].
  intros j' (j & Hj0 & <-)%Hj; [by apply Htx|done].
Qed.

Lemma once_same_jobs (w w1 : World) : answered_once w -> w_responses w1 = w_responses w -> w_next w <= w_next w1 ->
  w_jobs w1 = w_jobs w -> answered_once w1.
Proof. intros Ho Hr Hn Hj. apply (once_by w); [done..|]. rewrite Hj. eauto. Qed.

Lemma once_update (w w1 : World) rid j c : answered_once w -> w_responses w1 = w_responses w -> w_next w <= w_next w1 ->
  w_jobs w !! rid = Some j -> w_jobs w1 = <[rid := set_current c j]> (w_jobs w) -> answered_once w1.
Proof.
  intros Ho Hr Hn Hj Hj1. apply (once_by w); [done..|]. intros k j' _. rewrite Hj1.
  intros [[<- <-]|[_ Hk]]%lookup_insert_Some; eauto.
Qed.

Lemma respond_once (w : World) rid response j : wf w -> answered_once w -> w_jobs w !! rid = Some j -> j_response_tx j = true ->
  answered_once (set_done (w_committed w) (w_responses w ++ [(rid, response)])
    (set_jobs <[rid := {| j_info := j_info j; j_response_tx := false; j_current := j_current j |}]> w)).
Proof.
  intros Hw [Hn Hs] Hj Htx. split; cbn.
  - rewrite fmap_app. apply NoDup_app. split; [done|]. split; [|apply NoDup_singleton].
    cbn. intros x ((x', y) & -> & Hin)%list_elem_of_fmap Heq%list_elem_of_singleton. cbn in Heq. subst x'.
    apply Hs in Hin as [_ Hin]. apply Hin in Hj. congruence.
  - intros k y [Hin|[= -> ->]%list_elem_of_singleton]%elem_of_app.
    + apply Hs in Hin as [Hlt Hk]. split; [done|]. intros j'. intros [[<- <-]|[_ Hj']]%lookup_insert_Some; [done|by apply Hk].
    + split; [destruct (wf_below w Hw) as [Hb _]; apply Hb; by eexists|]. intros j'. rewrite lookup_insert_eq. by intros [= <-].
Qed.

Lemma once_effect (w w1 : World) e o : wf w -> answered_once w -> effect w e w1 o -> answered_once w1.
Proof.
  intros Hw Ho H. effect_cases H; try (apply (once_same_jobs w); [done|done|cbn; lia|done]).
  - apply get_job_ok in Hj as [_ Hj]. destruct Hw2 as [->|[_ ->]]; by eapply once_update.
  - apply get_job_ok in Hj as [_ Hj]. eapply once_update; [done|done|cbn; lia|done|done].
  - apply get_job_ok in Hj as [_ Hj]. by apply respond_once.
  - apply get_job_ok in Hj as [_ Hj]. eapply once_update; [done|done|cbn; lia|done|done].
  - apply (once_by w); [done|done|cbn; lia|]. cbn. intros rid j' Hlt [[<- _]|[_ Hk]]%lookup_insert_Some; [lia|eauto].
Qed.

Lemma once_collect (w : World) : answered_once w -> answered_once (collect w).
Proof. intros Ho. apply (once_by w); [done..|]. intros rid j' _ [Hj _]%collect_jobs. eauto. Qed.

Lemma once_reachable (w : World) : reachable env w -> answered_once w.
Proof.
  intros [trace H]. assert (forall w0, tidy w0 -> answered_once w0 -> steps w0 trace w -> answered_once w) as Hgen.
  { clear H. intros w0 Ht Ho H. induction H as [w|w e o w1 trace w2 Hstep _ IH]; [done|]. apply IH; [by eapply step_tidy|].
    destruct (step_effect env w w1 e o Hstep) as [(w3 & Heff & ->)|(job & -> & -> & ->)]; [|by apply (once_same_jobs w)].
    apply once_collect. eapply once_effect; [apply Ht|done..]. }
  apply (Hgen world_new); [apply tidy_new| |done]. split; [constructor|]. cbn. by intros ? ? ?%not_elem_of_nil.
Qed.

(** A request is answered at most once: once a response was sent for it, another
    one is refused with an error and is not sent. A job that is not an HTTP
    request is never answered. *)
Theorem responses_once (w : World) rid response j : reachable env w -> get_job w rid = Ok j ->
  (exists r, (rid, r) ∈ w_responses w) \/ j_info j = JobKafka ->
  let '(w', o) := op_chisel_http_respond w rid response in
  w_responses w' = w_responses w /\ NoDup (w_responses w').*1 /\
  o = Returned None (bail (match j_info j with JobKafka => "invalid request type" | _ => "Response already send for that request" end)).
Proof.
  intros Hr Hj Hcase. pose proof (once_reachable w Hr) as [Hn Hs]. unfold op_chisel_http_respond. rewrite Hj.
  apply get_job_ok in Hj as [_ Hj]. destruct Hcase as [[r Hin]|Hk].
  - apply Hs in Hin as [_ Hin]. apply Hin in Hj. rewrite Hj. by destruct (j_info j).
  - by rewrite Hk.
Qed.

End Spec.
