(* ===== verification/WorkerSample.v ===== *)
(** * A worker at work

    A worker with a version of one entity accepts a request, begins a transaction,
    reads with a cursor, saves, commits: the states in which the theorems on workers
    apply. *)

From S2P Require Import Prelude Json EntityValue Expr Types Builtin TypeSystem Policies Auth Http Query Sql Engine Crud V8Value Ops OpsSpec WorkerSpec TransactionSpec ProgressSpec JobsSpec.
From S2P Require QuerySpec CrudSpec EngineSpec.

Module WorkerSample.
#[local] Existing Instances Policies.Sample.regexes Policies.Sample.http_methods QuerySpec.Sample.floats
  QuerySpec.Sample.quotes CrudSpec.CrudSample.texts CrudSpec.CrudSample.plain CrudSpec.CrudSample.form
  EngineSpec.EngineSample.uuids EngineSpec.EngineSample.bytes EngineSpec.EngineSample.text_rows V8Value.V8Sample.v8.

Definition env : WorkerEnv :=
  {| we_type_system := ctx_type_system QuerySpec.Sample.ctx;
     we_policy_system := ctx_policy_system QuerySpec.Sample.ctx;
     we_version_id := "dev"; we_typescript_policies := false; we_target := Sqlite;
     we_new_v4 := EngineSpec.EngineSample.new_v4; we_read_filter _ _ := Ok None; we_fuel := 3 |}.

Definition request : HttpRequest :=
  {| hr_method := "POST"; hr_uri := "/posts"; hr_headers := []; hr_body := ""; hr_routing_path := "/posts"; hr_user_id := Some "u1" |}.
Definition job : VersionJob :=
  VJHttp {| job_version := "dev"; job_request := request; job_authentication := UserId "u1" |}.
Definition post : V8 :=
  V8Object [(KName "title", Some (V8String "t")); (KName "age", Some (V8Number (f64_of_Z 3))); (KName "owner", Some (V8Object [(KName "id", Some (V8String "u1"))]))].
Definition response : HttpResponse := {| hs_status := 200; hs_headers := []; hs_body := "saved" |}.

Abbreviation event := (Event (R := string)).

(** A job, under number 1, with a transaction, number 3, in the data context 4. *)
Definition begun : list event :=
  [EvCall CallAccept; EvSend job; EvSend (VJKafka {| ke_topic := "t"; ke_key := []; ke_value := [] |}); EvResume 0 AnsNone;
   EvCall (CallBegin 1); EvResume 2 (AnsDone (Ok tt))].
(** A cursor, under number 5, of which one of three rows was read; then a post is
    saved, by call 7. *)
Definition reading : list event :=
  [EvCall (CallQueryCreate (OpBaseEntity "Post") 1); EvCall (CallQueryNext 5);
   EvResume 6 (AnsRows [Ok "x"; Ok "y"; Ok "z"]); EvResume 6 AnsNone].
Definition saving : list event := [EvCall (CallStore "Post" post 1)].
(** The post is saved, by call 5, and committed, by call 6. *)
Definition saved : list event :=
  [EvCall (CallStore "Post" post 1); EvResume 5 AnsNone; EvResume 5 (AnsRows []); EvResume 5 AnsNone; EvResume 5 AnsNone].
Definition committed : list event := [EvCall (CallCommit 1); EvResume 6 (AnsDone (Ok tt))].

Fixpoint run (w : World (R:=string)) (es : list event) : option (World * list (event * Outcome)) :=
  match es with
  | [] => Some (w, [])
  | e :: es => '(w', o) ← step env w e; '(w'', trace) ← run w' es; Some (w'', (e, o) :: trace)
  end.

Lemma run_steps es w w' trace : run w es = Some (w', trace) -> steps env w trace w'.
Proof.
  revert w trace. induction es as [|e es IH]; intros w trace; cbn; [intros [= -> <-]; constructor|].
  destruct (step env w e) as [[w1 o]|] eqn:E; [|done]. cbn.
  destruct (run w1 es) as [[w2 tr]|] eqn:E2; [|done]. cbn. intros [= -> <-]. econstructor; [done|by apply IH].
Qed.

Definition after (es : list event) : World := match run world_new es with Some (w, _) => w | None => world_new end.
Definition outcomes (es : list event) : list Outcome := match run world_new es with Some (_, t) => t.*2 | None => [] end.

Lemma after_reachable es : (if run world_new es then true else false) = true -> reachable env (after es).
Proof.
  unfold after. destruct (run world_new es) as [[w trace]|] eqn:E; [|done]. intros _. exists trace. by eapply run_steps.
Qed.

Lemma run_reachable es es' : (if run world_new (es ++ es') then true else false) = true ->
  exists w trace, reachable env w /\ w = after es /\ run w es' = Some (after (es ++ es'), trace).
Proof.
  intros H. assert (forall w : World, run w (es ++ es') = ('(w1, t1) ← run w es; '(w2, t2) ← run w1 es'; Some (w2, t1 ++ t2))) as Happ.
  { clear. induction es as [|e es IH]; intros w; cbn; [by destruct (run w es') as [[]|]|].
    destruct (step env w e) as [[w1 o]|]; [|done]. cbn. rewrite IH. destruct (run w1 es) as [[w2 t]|]; [|done]. cbn.
    by destruct (run w2 es') as [[]|]. }
  unfold after. rewrite Happ in *. destruct (run world_new es) as [[w1 t1]|] eqn:E1; [|done]. cbn in *.
  destruct (run w1 es') as [[w2 t2]|] eqn:E2; [|done]. cbn. exists w1, t2. split; [exists t1; by eapply run_steps|by split].
Qed.

Lemma one_call (w : World) c : exists w' o, steps env w [(EvCall c, o)] w'.
Proof.
  destruct (call env w c) as [w' o] eqn:E. exists w', o. econstructor; [|constructor]. cbn [step]. by rewrite E.
Qed.

Definition the_job : Job :=
  {| j_info := JobHttp "POST" "/posts" [] (UserId "u1"); j_response_tx := true; j_current := Some 4 |}.
Definition the_ctx : DataCtx := {| dc_txn := 3; dc_info := j_info the_job |}.

Definition w_begun : World := after begun.
Definition w_saving : World := after (begun ++ reading ++ saving).
Definition w_stored : World := after (begun ++ [EvCall (CallStore "Post" post 1)]).
Definition w_answered : World := after (begun ++ [EvCall (CallRespond 1 response)]).
Definition w_committed : World := after (begun ++ saved ++ committed).

Lemma begun_ok : reachable env w_begun. Proof. apply after_reachable. vm_compute. reflexivity. Qed.
Lemma saving_ok : reachable env w_saving. Proof. apply after_reachable. vm_compute. reflexivity. Qed.
Lemma committed_ok : reachable env w_committed. Proof. apply after_reachable. vm_compute. reflexivity. Qed.

Lemma begun_job : get_job w_begun 1 = Ok the_job. Proof. vm_compute. reflexivity. Qed.
Lemma begun_ctx : w_ctxs w_begun !! 4 = Some the_ctx. Proof. vm_compute. reflexivity. Qed.
Lemma saving_job : get_job w_saving 1 = Ok the_job. Proof. vm_compute. reflexivity. Qed.
Lemma saving_ctx : w_ctxs w_saving !! 4 = Some the_ctx. Proof. vm_compute. reflexivity. Qed.

(** The save waits for the lock that the cursor has. *)
Lemma saving_op : exists b, w_ops w_saving !! 7 = Some (OpRun (Some 1) (Some 4) 3 (Outside (Lock b))).
Proof.
  assert ((match w_ops w_saving !! 7 with Some (OpRun (Some 1) (Some 4) 3 (Outside (Lock _))) => true | _ => false end) = true) as H
    by (vm_compute; reflexivity).
  destruct (w_ops w_saving !! 7) as [[| |[[|[|]]|] [[|[|[|[|[|]]]]]|] [|[|[|[|]]]] [[|b|]|]| |]|]; try discriminate H. by exists b.
Qed.

Lemma saving_stream : exists s, w_streams w_saving !! 5 = Some s /\ stream_locks 3 s.
Proof.
  assert (match w_streams w_saving !! 5 with Some s => bool_decide (stream_locks 3 s) | None => false end = true) as H
    by (vm_compute; reflexivity).
  destruct (w_streams w_saving !! 5) as [s|]; [|done]. exists s. split; [done|]. by apply bool_decide_eq_true in H.
Qed.

Lemma saving_next : forall k, w_ops w_saving !! k <> Some (OpNext 5).
Proof.
  assert (forallb (fun ko => match ko.2 with OpNext _ => false | _ => true end) (map_to_list (w_ops w_saving)) = true) as H
    by (vm_compute; reflexivity).
  intros k Hk. apply elem_of_map_to_list, list_elem_of_In in Hk. rewrite forallb_forall in H. by apply H in Hk.
Qed.
End WorkerSample.

#[local] Existing Instances Policies.Sample.regexes Policies.Sample.http_methods QuerySpec.Sample.floats
  QuerySpec.Sample.quotes CrudSpec.CrudSample.texts CrudSpec.CrudSample.plain CrudSpec.CrudSample.form
  EngineSpec.EngineSample.uuids EngineSpec.EngineSample.bytes EngineSpec.EngineSample.text_rows V8Value.V8Sample.v8.

Lemma worker_refines_transactions_witness : exists w o w' ts,
  step WorkerSample.env w (EvResume 6 (AnsDone (Ok tt))) = Some (w', o) /\
  store_run (store_of w) ([Commit 3] ++ (Rollback <$> ts)) = Some (store_of w').
Proof.
  destruct (WorkerSample.run_reachable (WorkerSample.begun ++ WorkerSample.saved ++ [EvCall (CallCommit 1)])
    [EvResume 6 (AnsDone (Ok tt))]) as (w & trace & Hr & Hw & Hrun); [vm_compute; reflexivity|].
  cbn [WorkerSample.run] in Hrun. destruct (step WorkerSample.env w _) as [[w' o]|] eqn:E; [|discriminate Hrun].
  exists w, o, w'. destruct (worker_refines_transactions WorkerSample.env w w' _ o Hr E) as (ts & _ & _ & H).
  exists ts. split; [exact E|].
  assert (demanded w (EvResume 6 (AnsDone (Ok tt))) = [Commit 3]) as Hd by (rewrite Hw; vm_compute; reflexivity).
  rewrite <- Hd. exact H.
Defined.

Lemma committed_for_good_witness : exists log, (3, log) ∈ w_committed WorkerSample.w_committed /\
  holds_txn WorkerSample.w_committed 3 = false /\ w_txns WorkerSample.w_committed !! 3 = None.
Proof.
  assert (existsb (fun tl => Nat.eqb tl.1 3) (w_committed WorkerSample.w_committed) = true) as H by (vm_compute; reflexivity).
  apply existsb_exists in H as ([t log] & Hin & Ht%Nat.eqb_eq). cbn in Ht. subst t. apply list_elem_of_In in Hin.
  exists log. split; [exact Hin|].
  apply (committed_for_good WorkerSample.env WorkerSample.w_committed WorkerSample.w_committed [] 3 log WorkerSample.committed_ok
    (steps_nil _ _) Hin).
Defined.

Lemma commit_transaction_spec_witness : exists w' o, op_chisel_commit_transaction WorkerSample.w_saving 1 = (w', o) /\
  forall trace w'' log, steps WorkerSample.env w' trace w'' -> (3, log) ∉ w_committed w''.
Proof.
  pose proof (commit_transaction_spec WorkerSample.env WorkerSample.w_saving 1 WorkerSample.the_job 4 WorkerSample.the_ctx
    WorkerSample.saving_ok WorkerSample.saving_job eq_refl WorkerSample.saving_ctx) as H.
  assert (ops_hold_ctx WorkerSample.w_saving 4 = true) as Hh by (vm_compute; reflexivity).
  destruct (op_chisel_commit_transaction WorkerSample.w_saving 1) as [w' o]. exists w', o. split; [reflexivity|].
  rewrite Hh in H. apply H.
Defined.

Lemma rollback_never_commits_witness : exists w' o, op_chisel_rollback_transaction WorkerSample.w_begun 1 = (w', o) /\
  forall trace w'' log, steps WorkerSample.env w' trace w'' -> (3, log) ∉ w_committed w''.
Proof.
  pose proof (rollback_never_commits WorkerSample.env WorkerSample.w_begun 1 WorkerSample.the_job 4 WorkerSample.the_ctx
    WorkerSample.begun_ok WorkerSample.begun_job eq_refl WorkerSample.begun_ctx) as H.
  destruct (op_chisel_rollback_transaction WorkerSample.w_begun 1) as [w' o]. exists w', o. split; [reflexivity|]. apply H.
Defined.

Lemma ops_progress_witness : exists w o, w_ops w !! 5 = Some o /\ reachable WorkerSample.env w /\
  ends WorkerSample.env 5 w.
Proof.
  assert (match w_ops WorkerSample.w_stored !! 5 with Some OpAccept | None => false | _ => true end = true) as Ho
    by (vm_compute; reflexivity).
  assert (w_streams WorkerSample.w_stored = ∅) as Hs by (vm_compute; reflexivity).
  assert (reachable WorkerSample.env WorkerSample.w_stored) as Hr by (apply WorkerSample.after_reachable; vm_compute; reflexivity).
  revert Ho Hs Hr. generalize WorkerSample.w_stored. intros w Ho Hs Hr.
  destruct (w_ops w !! 5) as [o|] eqn:Ei; [|discriminate Ho]. exists w, o. split; [exact Ei|]. split; [exact Hr|].
  apply (ops_progress WorkerSample.env w 5 o); [exact Hr|exact Ei|by intros ->|].
  intros t r s _ Hrs. rewrite Hs in Hrs. discriminate Hrs.
Defined.

Lemma open_stream_starves_witness : exists b w' trace,
  steps WorkerSample.env WorkerSample.w_saving trace w' /\
  w_ops w' !! 7 = Some (OpRun (Some 1) (Some 4) 3 (Outside (Lock b))).
Proof.
  destruct WorkerSample.saving_op as [b Hb]. destruct WorkerSample.saving_stream as (s & Hs & Hl).
  destruct (WorkerSample.one_call WorkerSample.w_saving (CallCommit 1)) as (w' & o & Hsteps).
  assert (Forall (fun eo => leaves 5 eo.1) [(EvCall (R := string) (CallCommit 1), o)]) as Hlv by (repeat constructor).
  revert Hsteps Hlv. generalize [(EvCall (R := string) (CallCommit 1), o)]. intros trace Hsteps Hlv.
  exists b, w', trace. split; [exact Hsteps|].
  apply (open_stream_starves WorkerSample.env WorkerSample.w_saving w' trace 5 s 3 7 (Some 1) (Some 4) b WorkerSample.saving_ok);
    [|exact Hs|exact Hl|exact WorkerSample.saving_next|exact Hb|exact Hsteps|exact Hlv].
  apply (bool_decide_unpack _). vm_compute. exact I.
Defined.

Lemma jobs_in_order_witness : exists trace jobs rids, steps WorkerSample.env world_new trace WorkerSample.w_begun /\
  sent trace = jobs ++ w_queue WorkerSample.w_begun /\ given WorkerSample.env world_new trace = zip_with accepted jobs rids.
Proof.
  destruct WorkerSample.begun_ok as [trace Ht]. exists trace.
  destruct (jobs_in_order WorkerSample.env WorkerSample.w_begun trace Ht) as (jobs & rids & H1 & H2 & _).
  exists jobs, rids. split; [exact Ht|split; [exact H1|exact H2]].
Defined.

Lemma responses_once_witness :
  exists w' e, op_chisel_http_respond WorkerSample.w_answered 1 WorkerSample.response = (w', Returned None (Err e)) /\
    w_responses w' = w_responses WorkerSample.w_answered.
Proof.
  assert (reachable WorkerSample.env WorkerSample.w_answered) as Hr by (apply WorkerSample.after_reachable; vm_compute; reflexivity).
  assert (get_job WorkerSample.w_answered 1 =
    Ok {| j_info := j_info WorkerSample.the_job; j_response_tx := false; j_current := Some 4 |}) as Hj by (vm_compute; reflexivity).
  assert (w_responses WorkerSample.w_answered = [(1, WorkerSample.response)]) as Hw by (vm_compute; reflexivity).
  pose proof (responses_once WorkerSample.env WorkerSample.w_answered 1 WorkerSample.response _ Hr Hj) as H.
  destruct (op_chisel_http_respond WorkerSample.w_answered 1 WorkerSample.response) as [w' o].
  destruct H as (H1 & _ & ->); [left; exists WorkerSample.response; rewrite Hw; by left|].
  exists w'. eexists. split; [reflexivity|exact H1].
Defined.
