(* ===== verification/Outbox.v ===== *)
(** * Events ([server/src/kafka.rs], [server/src/ops/kafka.rs], the jobs of [version.rs])

    An endpoint writes events to the table of the outbox; a job then sends them to
    Kafka.  [op_chisel_poll_outbox] is a [Script]: what it asks of the database and
    of Kafka, one request after another, and what it does with each answer.  An
    event that arrives, and the request to look at the outbox, become jobs of all
    versions, and a version gives its jobs to its workers in turn. *)

From S2P Require Import Prelude Json EntityValue Expr Types Builtin TypeSystem Policies Auth Http Query Sql Engine Crud V8Value Ops.

(** ** The outbox *)

Inductive Request :=
  | RqBegin
  | RqQuery (text : string)
  | RqPublish (topic : string) (key value : option (list Z))
  | RqExecute (text : string)
  | RqCommitDelete
  | RqCommitRead.

Section Outbox.
Context {R : Type} {RW : AnyRow R}.
Context {RL : RegexLib} {ML : MethodLib} {FT : FloatText} {QD : QuotedData} {JT : JsonText} {UU : UuidLib} {BT : BytesText}.
Context {B64 : Base64} {FU : FormUrlencoded} {VL : V8Lib}.
Context (env : WorkerEnv).

(** Only a query is answered with rows. *)
Inductive Script :=
  | Finish (r : result unit)
  | Ask (q : Request) (k : result (Reply R) -> Script).

(** [?] on an answer, and on what is computed. *)
Definition ask (q : Request) (k : Reply R -> Script) : Script :=
  Ask q (fun a => match a with Ok rows => k rows | Err e => Finish (Err e) | Panic p => Finish (Panic p) end).
Definition try {A} (r : result A) (k : A -> Script) : Script :=
  match r with Ok x => k x | Err e => Finish (Err e) | Panic p => Finish (Panic p) end.

Definition internal_error {A} : result A := bail "internal error".

Definition event_topic (row : EntityMap) : result string :=
  match alist_get "topic" row with Some (EvString val) => Ok val | _ => internal_error end.
Definition event_id (row : EntityMap) : result string :=
  match alist_get "id" row with Some (EvString val) => Ok val | _ => internal_error end.
Definition event_bytes (name : string) (row : EntityMap) : option (list Z) :=
  match alist_get name row with Some (EvBytes val) => Some val | _ => None end.

(** The deletion of one event. *)
Definition delete_event (ctx : DataContext) (id : string) : result Mutation :=
  delete_from_expr (we_fuel env) ctx OUTBOX_NAME
    (Some (mk_eq (EProperty "id" (EParameter 0)) (EValue (VString id)))).

(** One turn of the loop; [rest] is what follows. *)
Definition poll_row (ctx : DataContext) (row : result EntityMap) (rest : Script) : Script :=
  try row (fun row =>
  try (event_topic row) (fun topic =>
  ask (RqPublish topic (event_bytes "key" row) (event_bytes "value" row)) (fun _ =>
  try (event_id row) (fun id =>
  try (delete_event ctx id) (fun mutation =>
  ask RqBegin (fun _ =>
  try (build_sql mutation (we_target env)) (fun text =>
  ask (RqExecute text) (fun _ =>
  ask RqCommitDelete (fun _ => rest))))))))).

Definition by_seq_no : list QueryOp := [QSortBy {| keys := [{| field_name := "seqNo"; ascending := true |}] |}].

(** The rows are all read before the first is looked at. *)
Definition poll_rows (ctx : DataContext) (rows : list (result EntityMap)) : Script :=
  foldr (poll_row ctx) (ask RqCommitRead (fun _ => Finish (Ok tt))) rows.

Definition outbox_type : result Entity :=
  ty ← map_err ts_error (lookup_builtin_type (we_type_system env) OUTBOX_NAME);
  match ty with TEntity entity => Ok entity | _ => internal_error end.

Definition outbox_query (ctx : DataContext) (ty : Entity) : result Query.Query :=
  query_plan ← from_ops (we_fuel env) ctx ty by_seq_no;
  build_query query_plan (we_target env).

(** What is done while the mutex of the outbox is held. *)
Definition op_chisel_poll_outbox (kafka_service : bool) (w : World (R:=R)) (job_ctx_rid : nat) : Script :=
  if negb kafka_service then Finish (Ok tt)
  else
    try (get_job w job_ctx_rid) (fun job =>
    try outbox_type (fun outbox_type =>
    ask RqBegin (fun _ =>
    let data_ctx := plan_context env (j_info job) in
    try (outbox_query data_ctx outbox_type) (fun query =>
    ask (RqQuery (raw_sql query)) (fun rows =>
    poll_rows data_ctx (decode_row env query <$> rows)))))).
End Outbox.

Arguments Script : clear implicits.

(** ** Jobs for all versions *)

(** A job that is sent to every version of the trunk, if it still takes jobs. *)
Definition send_to_all (job : VersionJob) (queues : gmap string (list VersionJob)) : gmap string (list VersionJob) :=
  (fun queue => queue ++ [job]) <$> queues.

Definition handle_event (topic : string) (key value : option (list Z)) (queues : gmap string (list VersionJob)) :=
  send_to_all (VJKafka {| ke_topic := topic; ke_key := default [] key; ke_value := default [] value |}) queues.
Definition handle_publish (queues : gmap string (list VersionJob)) := send_to_all VJOutbox queues.

(** Topics are subscribed to once; without Kafka not at all. *)
Definition op_chisel_subscribe_topic (kafka_service : bool) (topics : gset string) (topic : string) : gset string * bool :=
  if kafka_service then if decide (topic ∈ topics) then (topics, false) else ({[topic]} ∪ topics, true)
  else (topics, false).
Definition op_chisel_publish (kafka_service : bool) (queues : gmap string (list VersionJob)) :=
  if kafka_service then handle_publish queues else queues.

(** ** Workers take turns *)

(** The jobs a version receives, given to its workers; [alive] are the workers that
    still take jobs.  The next worker is computed after each job. *)
Fixpoint distribute (alive : nat -> bool) (worker_i : nat) (jobs : list VersionJob) (workers : list (list VersionJob))
    : list (list VersionJob) * result unit :=
  match jobs with
  | [] => (workers, Ok tt)
  | job :: jobs =>
      match workers !! worker_i with
      | None => (workers, Panic "index out of bounds")
      | Some queue =>
          if alive worker_i then
            let workers := <[worker_i := queue ++ [job]]> workers in
            distribute alive ((worker_i + 1) mod List.length workers) jobs workers
          else (workers, bail "is unable to accept jobs")
      end
  end.
