(* ===== verification/OutboxSpec.v ===== *)
(** * Events of the outbox are sent at least once, in their order

    The outbox is polled against a database and a Kafka that may fail at any request,
    before the request took effect or after.  The database is asked in SQL: the two
    texts it must understand, the events by their number and the deletion of one, are
    written out here, in the words of [SqlSpec], and what it does with any other text
    is not known. *)

From S2P Require Import Prelude Json EntityValue Expr Types Builtin TypeSystem Policies Auth Http Query Sql Engine Crud V8Value Ops Outbox QuerySpec SqlSpec.
From S2P Require CrudSpec EngineSpec WorkerSample.
Import QuerySpec.Rows SqlSpec.Statement.

Abbreviation Message := (string * option (list Z) * option (list Z))%type.

(** ** What the database is asked *)

(** The type of the events. *)
Definition outbox : Entity :=
  match builtin_table !! OUTBOX_NAME with
  | Some (TEntity e) => e
  | _ => Custom {| obj_meta_id := None; obj_name := ""; obj_fields := []; obj_indexes := [];
                   obj_chisel_id := the_chisel_id; obj_backing_table := ""; obj_version_id := "" |}
  end.

Section Texts.
Context {FT : FloatText} {QD : QuotedData} (target : TargetDatabase).

(** The table of the events, each column under its alias. *)
Definition outbox_column (c : string) : string :=
  between_quotes "outbox" +:+ "." +:+ between_quotes c +:+ " AS " +:+ between_quotes ("outbox_" +:+ c).
Definition outbox_core : string :=
  "SELECT " +:+ str_join "," (outbox_column <$> ["id"; "timestamp"; "seqNo"; "topic"; "key"; "value"]) +:+
  " FROM " +:+ between_quotes "outbox" +:+ " ".

(** All events, by their number, the smallest first. *)
Definition events_text : string :=
  select_text target outbox_core
    {| sel_where := None; sel_order := Some [("outbox_seqNo", Ascending)];
       sel_limit := None; sel_offset := None; sel_count := false |}.

(** The deletion of the events with an identifier. *)
Definition deletion_text (id : string) : string :=
  "DELETE FROM " +:+ between_quotes "outbox" +:+ newline +:+
  "                WHERE " +:+ between_quotes "id" +:+ " IN (" +:+ newline +:+
  "                    SELECT " +:+ between_quotes "outbox_id" +:+ " FROM (" +:+
  select_text target outbox_core
    {| sel_where := Some (Compare (ColumnNamed "outbox_id") OpEq (Literal (VString id))); sel_order := None;
       sel_limit := None; sel_offset := None; sel_count := false |} +:+
  ") as subquery" +:+ newline +:+ "                )".
End Texts.

#[local] Arguments events_text : simpl never.
#[local] Arguments deletion_text : simpl never.

Section Asked.
Context {RL : RegexLib} {ML : MethodLib} {FT : FloatText} {QD : QuotedData}.

(** A version with the builtin types, and no read policy on the events. *)
Record outbox_open (ctx : DataContext) : Prop := {
  oo_builtin : builtin (ctx_type_system ctx) = {| types := builtin_table |};
  oo_unguarded : feat_typescript_policies ctx = true -> make_read_filter_expr ctx (object_type outbox) = Ok None;
}.

Lemma outbox_found ts name : builtin ts = {| types := builtin_table |} -> name = OUTBOX_NAME ->
  lookup_builtin_type ts name = Ok (TEntity outbox).
Proof. destruct ts as [cust b v]. cbn. intros -> ->. vm_compute. reflexivity. Qed.

(** The query and the deletion of the code are these texts. *)
Lemma outbox_plan_text fuel ctx target : 0 < fuel -> outbox_open ctx ->
  exists q, (query_plan ← from_ops fuel ctx outbox by_seq_no; build_query query_plan target) = Ok q /\
    raw_sql q = events_text target.
Proof.
  intros Hf [Hb Hg]. destruct fuel as [|fuel]; [lia|].
  destruct ctx as [[cust b v] ps user path feat mk]. cbn in Hb, Hg. subst b. unfold from_ops, load_entity.
  destruct feat; cbn [feat_typescript_policies].
  - unfold add_read_filters. cbn [make_read_filter_expr]. rewrite (Hg eq_refl).
    destruct target; eexists; (split; [vm_compute; reflexivity|]); vm_compute; reflexivity.
  - destruct target; eexists; (split; [vm_compute; reflexivity|]); vm_compute; reflexivity.
Qed.

Lemma delete_plan_text fuel ctx target id : 0 < fuel -> outbox_open ctx ->
  (m ← delete_from_expr fuel ctx OUTBOX_NAME
     (Some (mk_eq (EProperty "id" (EParameter 0)) (EValue (VString id)))); build_sql m target)
  = Ok (deletion_text target id).
Proof.
  intros Hf [Hb Hg]. destruct fuel as [|fuel]; [lia|].
  pose proof (outbox_found _ _ Hb eq_refl) as Hl.
  unfold delete_from_expr, from_entity_name, lookup_type, lookup_entity. rewrite Hl. cbn [mbind outcome_bind map_err with_context].
  destruct ctx as [[cust b v] ps user path feat mk]. cbn in Hb, Hg. subst b. unfold load_entity.
  destruct feat; cbn [feat_typescript_policies].
  - unfold add_read_filters. cbn [make_read_filter_expr]. rewrite (Hg eq_refl). destruct target; vm_compute; reflexivity.
  - destruct target; vm_compute; reflexivity.
Qed.
End Asked.

(** ** Who answers *)

(** A request works, or fails without or with its effect. *)
Inductive Fault := Works | Lost (e : anyhow) | Unacked (e : anyhow).

Section Broker.
Context {R : Type}.

(** The rows of the outbox in whatever order the database keeps them, what the open
    transaction deletes, and what was sent to Kafka. *)
Record Broker := { br_rows : list R; br_deleting : option string; br_sent : list Message }.
Context (exec_query exec_delete : string -> list R -> list R).

Definition serve_request (q : Request) (st : Broker) : Broker :=
  match q with
  | RqBegin => {| br_rows := br_rows st; br_deleting := None; br_sent := br_sent st |}
  | RqQuery _ | RqCommitRead => st
  | RqPublish topic key value =>
      {| br_rows := br_rows st; br_deleting := br_deleting st; br_sent := br_sent st ++ [(topic, key, value)] |}
  | RqExecute text => {| br_rows := br_rows st; br_deleting := Some text; br_sent := br_sent st |}
  | RqCommitDelete =>
      {| br_rows := match br_deleting st with Some text => exec_delete text (br_rows st) | None => br_rows st end;
         br_deleting := None; br_sent := br_sent st |}
  end.

Definition reply_to (q : Request) (st : Broker) : Reply R :=
  match q with RqQuery text => Ok <$> exec_query text (br_rows st) | _ => [] end.

(** A script, of which request [n] has the fault [faults n]. *)
Fixpoint serve (faults : nat -> Fault) (n : nat) (s : Script R) (st : Broker) : result unit * Broker :=
  match s with
  | Finish r => (r, st)
  | Ask q k =>
      match faults n with
      | Works => serve faults (S n) (k (Ok (reply_to q st))) (serve_request q st)
      | Lost e => serve faults (S n) (k (Err e)) st
      | Unacked e => serve faults (S n) (k (Err e)) (serve_request q st)
      end
  end.
End Broker.
Arguments Broker : clear implicits.

(** ** In order, at least once *)

(** From a list of events to those that are left: what is sent is always the
    first of them, and it leaves the list only after it was sent. *)
Inductive in_order : list Message -> list Message -> list Message -> Prop :=
  | io_done rest : in_order rest rest []
  | io_again m rest rest' l : in_order (m :: rest) rest' l -> in_order (m :: rest) rest' (m :: l)
  | io_next m rest rest' l : in_order rest rest' l -> in_order (m :: rest) rest' (m :: l).

Lemma in_order_trans a b c l1 l2 : in_order a b l1 -> in_order b c l2 -> in_order a c (l1 ++ l2).
Proof. intros H1 H2. induction H1; [done|by apply io_again, IHin_order|by apply io_next, IHin_order]. Qed.

(** What [in_order] says: a prefix of the events was sent, each at least once, in
    their order, and besides that only the first of the rest. *)
Lemma in_order_sent a b l : in_order a b l -> exists gone counts,
  a = gone ++ b /\ List.length counts = List.length gone /\ Forall (fun n => 1 <= n) counts /\
  exists again, l = concat (zip_with replicate counts gone) ++ again /\
    (again = [] \/ exists m b' n, b = m :: b' /\ again = replicate n m).
Proof.
  intros H. induction H as [rest|m rest rest' l H IH|m rest rest' l H IH].
  - exists [], []. repeat split; [constructor|]. exists []. by split; [|left].
  - destruct IH as (gone & counts & Ha & Hl & Hf & again & -> & Hag). destruct gone as [|m' gone].
    + destruct counts; [|done]. cbn in Ha. subst rest'. exists [], []. repeat split; [constructor|].
      exists (m :: again). split; [done|]. right. destruct Hag as [->|(m' & b' & n & [= <- <-] & ->)].
      * by exists m, rest, 1.
      * by exists m, rest, (S n).
    + destruct counts as [|c counts]; [done|]. injection Ha as <- ->. exists (m :: gone), (S c :: counts).
      apply Forall_cons in Hf as [Hc Hf]. repeat split; [done|constructor; [lia|done]|]. exists again. by split.
  - destruct IH as (gone & counts & -> & Hl & Hf & again & -> & Hag).
    exists (m :: gone), (1 :: counts). repeat split; [cbn; by rewrite Hl|constructor; [lia|done]|].
    exists again. by split.
Qed.

Section Spec.
Context {R : Type} {RW : AnyRow R}.
Context {RL : RegexLib} {ML : MethodLib} {FT : FloatText} {QD : QuotedData} {JT : JsonText} {UU : UuidLib} {BT : BytesText}.
Context {B64 : Base64} {FU : FormUrlencoded} {VL : V8Lib}.
Context (env : WorkerEnv).
Context (exec_query exec_delete : string -> list R -> list R).

(** The number the database has in the column [seqNo] of a row. *)
Context (seq_no : R -> Z).
Definition by_number (a b : R) : bool := (seq_no a <=? seq_no b)%Z.
Definition in_turn (rows : list R) : list R := sort by_number rows.

Definition row_id (query : Query.Query) (r : R) : option string :=
  match decode_row env query (Ok r) with Ok row => ok_option (event_id row) | _ => None end.
Definition other_than (query : Query.Query) (id : string) (r : R) : bool :=
  negb (bool_decide (row_id query r = Some id)).

(** What the database does with the two texts, on rows of the outbox: it gives them
    sorted by their number, and it removes those with the identifier. *)
Record understands (query : Query.Query) (outbox : list R) : Prop := {
  un_events : forall rows, rows ⊆ outbox -> exec_query (events_text (we_target env)) rows = in_turn rows;
  un_deletion : forall id rows, rows ⊆ outbox ->
    exec_delete (deletion_text (we_target env) id) rows = List.filter (other_than query id) rows;
}.

(** A row of the outbox with its identifier and its message. *)
Definition event_row (query : Query.Query) (r : R) (id : string) (m : Message) : Prop :=
  exists row, decode_row env query (Ok r) = Ok row /\ event_topic row = Ok m.1.1 /\ event_id row = Ok id /\
    event_bytes "key" row = m.1.2 /\ event_bytes "value" row = m.2.

Lemma event_row_id query r id m : event_row query r id m -> row_id query r = Some id.
Proof. intros (row & Hd & _ & Hi & _). unfold row_id. by rewrite Hd, Hi. Qed.

Lemma head_deleted query r rows id ids m msgs : NoDup (id :: ids) -> event_row query r id m ->
  Forall3 (event_row query) rows ids msgs -> List.filter (other_than query id) (r :: rows) = rows.
Proof.
  intros [Hni _]%NoDup_cons Hr Hrows. cbn. unfold other_than at 1.
  rewrite (event_row_id _ _ _ _ Hr), bool_decide_eq_true_2 by done. cbn.
  induction Hrows as [|r' id' m' rows ids msgs Hr' _ IH]; [done|]. cbn. unfold other_than at 1.
  rewrite (event_row_id _ _ _ _ Hr'), bool_decide_eq_false_2 by set_solver. cbn. f_equal. apply IH. set_solver.
Qed.

Lemma by_number_total x y : by_number x y = true \/ by_number y x = true.
Proof. unfold by_number. rewrite !Z.leb_le. lia. Qed.
Lemma by_number_trans x y z : by_number x y = true -> by_number y z = true -> by_number x z = true.
Proof. unfold by_number. rewrite !Z.leb_le. lia. Qed.
#[local] Hint Resolve by_number_total by_number_trans : core.

Lemma in_turn_filter p rows : in_turn (List.filter p rows) = List.filter p (in_turn rows).
Proof. symmetry. apply filter_sort; eauto. Qed.

Lemma in_turn_nil rows : in_turn rows = [] -> rows = [].
Proof.
  intros H. destruct rows as [|r rows]; [done|]. assert (r ∈ in_turn (r :: rows)) as Hr.
  { unfold in_turn. rewrite sort_elem by eauto. set_solver. }
  rewrite H in Hr. by apply not_elem_of_nil in Hr.
Qed.

(** What became of the events, of which [rows] is the order; without faults all is
    sent, once. *)
Definition polled (faults : nat -> Fault) (rows : list R) (msgs : list Message) (st : Broker R) (res : result unit * Broker R) : Prop :=
  exists k l, k <= List.length rows /\ in_turn (br_rows res.2) = drop k rows /\ br_rows res.2 ⊆ br_rows st /\
    in_order msgs (drop k msgs) l /\ br_sent res.2 = br_sent st ++ l /\
    ((forall i, faults i = Works) -> res.1 = Ok tt /\ br_rows res.2 = [] /\ l = msgs).

Lemma polled_kept faults rows m msgs st res e : in_turn (br_rows st) = rows -> br_rows res.2 = br_rows st ->
  br_sent res.2 = br_sent st ++ [m] -> res.1 = Err e -> (exists i, faults i <> Works) -> polled faults rows (m :: msgs) st res.
Proof.
  intros Hst Hr Hs He [i Hi]. exists 0, [m]. rewrite Hr. split; [lia|]. split; [done|]. split; [done|].
  split; [apply io_again, io_done|]. split; [done|]. intros Hw. by destruct (Hi (Hw i)).
Qed.

Lemma polled_nothing faults rows msgs st res : in_turn (br_rows st) = rows -> br_rows res.2 = br_rows st ->
  br_sent res.2 = br_sent st -> (exists i, faults i <> Works) -> polled faults rows msgs st res.
Proof.
  intros Hst Hr Hs [i Hi]. exists 0, []. rewrite Hr. split; [lia|]. split; [done|]. split; [done|].
  split; [apply io_done|]. split; [by rewrite app_nil_r|]. intros Hw. by destruct (Hi (Hw i)).
Qed.

Lemma poll_rows_cons ctx x xs : poll_rows (R := R) env ctx (x :: xs) = poll_row env ctx x (poll_rows env ctx xs).
Proof. done. Qed.

Lemma deletion_asked ctx id : 0 < we_fuel env -> outbox_open ctx ->
  exists mutation, delete_event env ctx id = Ok mutation /\
    build_sql mutation (we_target env) = Ok (deletion_text (we_target env) id).
Proof.
  intros Hf Ho. pose proof (delete_plan_text (we_fuel env) ctx (we_target env) id Hf Ho) as H.
  apply bind_ok in H as (m & Hm & Hb). by exists m.
Qed.

Lemma poll_rows_polled ctx query outbox faults rows ids msgs : 0 < we_fuel env -> outbox_open ctx ->
  understands query outbox -> NoDup ids -> Forall3 (event_row query) rows ids msgs ->
  forall n st, br_rows st ⊆ outbox -> in_turn (br_rows st) = rows ->
  polled faults rows msgs st
    (serve exec_query exec_delete faults n (poll_rows env ctx ((fun r => decode_row env query (Ok r)) <$> rows)) st).
Proof.
  intros Hfuel Hopen Hun Hnd H. induction H as [|r id m rows ids msgs Hr Hrows IH]; intros n st Hsub Hst.
  - cbn. destruct (faults n) eqn:Ef; [|by apply polled_nothing; eauto; exists n; rewrite Ef..].
    exists 0, []. split; [done|]. split; [done|]. split; [done|]. split; [apply io_done|]. split; [by rewrite app_nil_r|].
    intros _. split; [done|]. split; [by apply in_turn_nil|done].
  - pose proof (head_deleted query r rows id ids m msgs Hnd Hr Hrows) as Hhead. pose proof Hnd as [_ Hnd']%NoDup_cons.
    destruct Hr as (row & Hd & Ht & Hi & Hk & Hv). destruct (deletion_asked ctx id Hfuel Hopen) as (mut & Hm & Hb).
    assert (in_turn (List.filter (other_than query id) (br_rows st)) = rows) as Hleft by (by rewrite in_turn_filter, Hst).
    assert (List.filter (other_than query id) (br_rows st) ⊆ br_rows st) as Hless
      by (intros x Hx; by apply elem_of_List_filter in Hx as [? _]).
    rewrite fmap_cons, poll_rows_cons.
    unfold poll_row, ask, try. rewrite Hd. cbn [try]. rewrite Ht. cbn [serve].
    assert (m = (m.1.1, event_bytes "key" row, event_bytes "value" row)) as Hmsg by (rewrite Hk, Hv; by destruct m as [[]]).
    destruct (faults n) eqn:Ef; [|by apply polled_nothing; eauto; exists n; rewrite Ef|].
    2: { eapply polled_kept; [done|done|cbn; by rewrite <- Hmsg|done|exists n; by rewrite Ef]. }
    rewrite Hi. cbn [try]. rewrite Hm. cbn [serve].
    destruct (faults (S n)) eqn:Ef1; [|eapply polled_kept; [done|done|cbn; by rewrite <- Hmsg|done|exists (S n); by rewrite Ef1]..].
    rewrite Hb. cbn [serve].
    destruct (faults (S (S n))) eqn:Ef2; [|eapply polled_kept; [done|done|cbn; by rewrite <- Hmsg|done|exists (S (S n)); by rewrite Ef2]..].
    destruct (faults (S (S (S n)))) eqn:Ef3; [|eapply polled_kept; [done|done|cbn; by rewrite <- Hmsg|done|exists (S (S (S n))); by rewrite Ef3]|].
    + match goal with |- polled _ _ _ _ (serve _ _ _ ?n' _ ?st') => destruct (IH Hnd' n' st') as (k & l & Hk' & Hrs & Hin & Ho & Hs & Hw) end.
      { cbn. rewrite (un_deletion _ _ Hun) by done. by etrans. }
      { cbn. by rewrite (un_deletion _ _ Hun). }
      exists (S k), (m :: l). split; [cbn; lia|]. split; [done|].
      split; [etrans; [exact Hin|]; cbn; by rewrite (un_deletion _ _ Hun) by done|]. split; [by apply io_next|].
      split; [rewrite Hs; cbn; by rewrite <- Hmsg, <- app_assoc|]. intros Hall. destruct (Hw Hall) as (? & ? & ->). done.
    + exists 1, [m]. split; [cbn; lia|]. cbn. rewrite (un_deletion _ _ Hun), drop_0 by done. split; [done|].
      split; [done|]. split; [apply io_next; rewrite drop_0; apply io_done|]. split; [by rewrite <- Hmsg|].
      intros Hall. by rewrite Hall in Ef3.
Qed.

(** ** Polls *)

Lemma events_drop query k rows ids msgs : Forall3 (event_row query) rows ids msgs ->
  Forall3 (event_row query) (drop k rows) (drop k ids) (drop k msgs).
Proof.
  intros H. revert k. induction H as [|r i m rows ids msgs Hr Hrest IH]; intros n; [by rewrite !drop_nil; constructor|].
  destruct n as [|n]; [by constructor|]. apply IH.
Qed.

(** A job from which the outbox can be polled, and the query it makes (which there
    always is: [outbox_plan_text]). *)
Record can_poll (w : World (R:=R)) (rid : nat) (job : Job) (query : Query.Query) : Prop := {
  cp_job : get_job w rid = Ok job;
  cp_fuel : 0 < we_fuel env;
  cp_open : outbox_open (plan_context env (j_info job));
  cp_query : outbox_query env (plan_context env (j_info job)) outbox = Ok query;
}.

Lemma events_asked w rid job query : can_poll w rid job query ->
  outbox_type env = Ok outbox /\ raw_sql query = events_text (we_target env).
Proof.
  intros [_ Hf Ho Hq]. split.
  - unfold outbox_type. by rewrite (outbox_found (we_type_system env) OUTBOX_NAME (oo_builtin _ Ho) eq_refl).
  - destruct (outbox_plan_text _ _ (we_target env) Hf Ho) as (q & Hq' & Ht). unfold outbox_query in Hq. congruence.
Qed.

Definition poll (w : World (R:=R)) (rid : nat) (faults : nat -> Fault) (st : Broker R) : result unit * Broker R :=
  serve exec_query exec_delete faults 0 (op_chisel_poll_outbox env true w rid) st.

Lemma poll_polled w rid job query outbox faults rows ids msgs st : can_poll w rid job query ->
  understands query outbox -> NoDup ids -> Forall3 (event_row query) rows ids msgs ->
  br_rows st ⊆ outbox -> in_turn (br_rows st) = rows -> polled faults rows msgs st (poll w rid faults st).
Proof.
  intros Hcan Hun Hnd Hrows Hsub Hst. destruct (events_asked _ _ _ _ Hcan) as [Hty Htext].
  destruct Hcan as [Hj Hf Hopen Hq]. unfold poll, op_chisel_poll_outbox, try, ask. cbn [negb].
  rewrite Hj, Hty. cbn [serve].
  destruct (faults 0) eqn:E0; [|by apply polled_nothing; eauto; exists 0; rewrite E0..]. rewrite Hq. cbn [serve].
  destruct (faults 1) eqn:E1; [|by apply polled_nothing; eauto; exists 1; rewrite E1..].
  assert (forall l : list R, decode_row env query <$> (Ok <$> l) = (fun r => decode_row env query (Ok r)) <$> l) as Hdec
    by (intros l; by rewrite <- list_fmap_compose).
  cbn [reply_to serve_request br_rows]. rewrite Htext, (un_events _ _ Hun), Hst, Hdec by done.
  exact (poll_rows_polled (plan_context env (j_info job)) query outbox faults rows ids msgs Hf Hopen Hun Hnd Hrows 2
    {| br_rows := br_rows st; br_deleting := None; br_sent := br_sent st |} Hsub Hst).
Qed.

Definition polls (w : World (R:=R)) (rid : nat) (faultss : list (nat -> Fault)) (st : Broker R) : Broker R :=
  foldl (fun st faults => (poll w rid faults st).2) st faultss.

Lemma polls_in_order w rid job query outbox faultss : can_poll w rid job query -> understands query outbox ->
  forall st rows ids msgs, NoDup ids -> Forall3 (event_row query) rows ids msgs ->
  br_rows st ⊆ outbox -> in_turn (br_rows st) = rows ->
  exists k l, k <= List.length rows /\ in_turn (br_rows (polls w rid faultss st)) = drop k rows /\
    in_order msgs (drop k msgs) l /\ br_sent (polls w rid faultss st) = br_sent st ++ l /\
    ((exists faults, faults ∈ faultss /\ forall i, faults i = Works) -> drop k rows = []).
Proof.
  intros Hcan Hun. induction faultss as [|f fs IH]; intros st rows ids msgs Hnd Hrows Hsub Hst.
  - exists 0, []. split; [lia|]. split; [done|]. split; [apply io_done|]. split; [cbn; by rewrite app_nil_r|].
    intros (f & Hin & _). by apply not_elem_of_nil in Hin.
  - destruct (poll_polled w rid job query outbox f rows ids msgs st Hcan Hun Hnd Hrows Hsub Hst)
      as (k & l & Hk & Hr & Hless & Ho & Hs & Hw).
    set (st1 := (poll w rid f st).2) in *.
    assert (NoDup (drop k ids)) as Hnd' by (rewrite <- (take_drop k ids) in Hnd; by apply NoDup_app in Hnd as (_ & _ & ?)).
    destruct (IH st1 (drop k rows) (drop k ids) (drop k msgs) Hnd' (events_drop _ k _ _ _ Hrows) ltac:(by etrans) Hr)
      as (k' & l' & Hk' & Hr' & Ho' & Hs' & Hw').
    rewrite length_drop in Hk'. rewrite !drop_drop in *. exists (k + k'), (l ++ l'). split; [lia|].
    split; [exact Hr'|]. split; [by eapply in_order_trans|]. split; [by rewrite app_assoc, <- Hs|].
    intros (g & Hin & Hg). apply elem_of_cons in Hin as [->|Hin]; [|apply Hw'; by exists g].
    destruct (Hw Hg) as (_ & Hnil & _). rewrite Hnil in Hr. change (in_turn []) with (@nil R) in Hr.
    rewrite <- drop_drop, <- Hr. by destruct k'.
Qed.

(** C29: Events of the outbox are sent to Kafka at least once and in the order of their
    numbers, in whatever order the database keeps them, however often the outbox is
    polled and whatever request to the database or to Kafka fails, whether or not it
    took effect: an event leaves the outbox only after it was sent, none is sent
    before all earlier ones have left, and besides those that left only the first
    that is still there may have been sent.  One poll without a failure empties the
    outbox, and if it is the first, every event is sent exactly once.  The database
    only has to understand the text that orders the events by the column [seqNo] and
    the text that deletes those with an identifier ([events_text],
    [deletion_text]); the version has the builtin type of the events, which no read
    policy hides. *)
Theorem outbox_at_least_once w rid job query faultss st ids msgs : can_poll w rid job query ->
  understands query (br_rows st) -> NoDup ids ->
  Forall3 (event_row query) (in_turn (br_rows st)) ids msgs ->
  let st' := polls w rid faultss st in
  exists gone left counts again, msgs = gone ++ left /\
    in_turn (br_rows st') = drop (List.length gone) (in_turn (br_rows st)) /\
    List.length counts = List.length gone /\ Forall (fun n => 1 <= n) counts /\
    br_sent st' = br_sent st ++ concat (zip_with replicate counts gone) ++ again /\
    (again = [] \/ exists m left' n, left = m :: left' /\ again = replicate n m) /\
    ((exists faults, faults ∈ faultss /\ forall i, faults i = Works) -> left = [] /\ br_rows st' = []) /\
    (forall faults, faultss = [faults] -> (forall i, faults i = Works) -> br_sent st' = br_sent st ++ msgs).
Proof.
  intros Hcan Hun Hnd Hrows st'. set (rows := in_turn (br_rows st)) in *.
  destruct (polls_in_order w rid job query (br_rows st) faultss Hcan Hun st rows ids msgs Hnd Hrows ltac:(done) eq_refl)
    as (k & l & Hk & Hr & Ho & Hs & Hw).
  destruct (in_order_sent _ _ _ Ho) as (gone & counts & Hmsgs & Hlen & Hc & again & Hl & Hag).
  assert (List.length rows = List.length msgs) as Hrm
    by (apply Forall3_length_lm in Hrows as H1; apply Forall3_length_lr in Hrows as H2; congruence).
  assert (List.length gone = k) as Hgk
    by (pose proof (f_equal List.length Hmsgs) as Hx; rewrite length_app, length_drop in Hx; lia).
  exists gone, (drop k msgs), counts, again. split; [done|]. split; [by rewrite Hgk|]. split; [done|]. split; [done|].
  split; [by rewrite <- Hl|]. split; [done|]. split.
  - intros Hf. specialize (Hw Hf). split; [|apply in_turn_nil; unfold st'; by rewrite Hr].
    apply nil_length_inv. by rewrite length_drop, <- Hrm, <- length_drop, Hw.
  - intros faults -> Hworks.
    destruct (poll_polled w rid job query (br_rows st) faults rows ids msgs st Hcan Hun Hnd Hrows ltac:(done) eq_refl)
      as (k' & l' & _ & _ & _ & _ & Hs' & Hw').
    destruct (Hw' Hworks) as (_ & _ & ->). exact Hs'.
Qed.
End Spec.

(** ** Jobs of versions and workers *)

(** The jobs worker [j] of [n] is due, when the first job goes to worker [i]. *)
Definition due (n i j : nat) (jobs : list VersionJob) : list VersionJob :=
  omap (fun kj => if decide ((i + kj.1) mod n = j) then Some kj.2 else None) (zip (seq 0 (List.length jobs)) jobs).

Lemma due_cons n i j job jobs : 0 < n -> i < n ->
  due n i j (job :: jobs) = (if decide (i = j) then [job] else []) ++ due n ((i + 1) mod n) j jobs.
Proof.
  intros Hn Hi. unfold due. cbn. rewrite Nat.add_0_r, (Nat.mod_small i n) by done.
  assert (omap (fun kj => if decide ((i + kj.1) mod n = j) then Some kj.2 else None) (zip (seq 1 (List.length jobs)) jobs) =
    omap (fun kj => if decide (((i + 1) mod n + kj.1) mod n = j) then Some kj.2 else None) (zip (seq 0 (List.length jobs)) jobs)) as ->.
  - rewrite <- (fmap_S_seq 0). generalize (seq 0 (List.length jobs)). clear job. revert jobs.
    intros jobs l. revert jobs. induction l as [|k l IH]; intros [|job jobs]; cbn; [done..|].
    rewrite Nat.Div0.add_mod_idemp_l. replace (i + 1 + k) with (i + S k) by lia. by rewrite IH.
  - by destruct (decide (i = j)).
Qed.

(** As long as all workers of a version take jobs, each is given every [n]-th job, in
    their order, and none is lost; a version without workers stops at its first
    job. *)
Lemma distribute_turns alive i jobs workers : (forall k, alive k = true) -> i < List.length workers ->
  (distribute alive i jobs workers).2 = Ok tt /\
  forall j queue, workers !! j = Some queue ->
    (distribute alive i jobs workers).1 !! j = Some (queue ++ due (List.length workers) i j jobs).
Proof.
  intros Ha. revert i workers. induction jobs as [|job jobs IH]; intros i workers Hi.
  - split; [done|]. intros j queue Hj. cbn. by rewrite app_nil_r.
  - cbn [distribute]. destruct (lookup_lt_is_Some_2 workers i Hi) as [q Hq]. rewrite Hq, Ha, length_insert.
    set (ws := <[i := q ++ [job]]> workers).
    assert ((i + 1) mod List.length workers < List.length ws) as Hi'
      by (unfold ws; rewrite length_insert; apply Nat.mod_upper_bound; lia).
    destruct (IH _ ws Hi') as [Hr Hall]. split; [done|]. intros j queue Hj. rewrite due_cons by lia.
    assert (List.length ws = List.length workers) as Hlen by apply length_insert. rewrite Hlen in Hall.
    destruct (decide (i = j)) as [<-|Hne].
    + rewrite Hq in Hj. injection Hj as <-. rewrite (Hall i (q ++ [job])); [by rewrite <- app_assoc|].
      by apply list_lookup_insert_eq.
    + apply Hall. unfold ws. by rewrite list_lookup_insert_ne.
Qed.

Lemma no_workers_panics alive job jobs : (distribute alive 0 (job :: jobs) []).2 = Panic "index out of bounds".
Proof. done. Qed.

(** ** A poll *)

Module OutboxSample.
#[local] Existing Instances Policies.Sample.regexes Policies.Sample.http_methods QuerySpec.Sample.floats
  QuerySpec.Sample.quotes CrudSpec.CrudSample.texts CrudSpec.CrudSample.plain CrudSpec.CrudSample.form
  EngineSpec.EngineSample.uuids EngineSpec.EngineSample.bytes EngineSpec.EngineSample.text_rows V8Value.V8Sample.v8.

Definition env : WorkerEnv := WorkerSample.WorkerSample.env.
(** A worker that was given the job to look at the outbox, under number 1. *)
Definition w : World (R:=string) :=
  WorkerSample.WorkerSample.after [EvCall CallAccept; EvSend VJOutbox; EvResume 0 AnsNone].
Definition job : Job := {| j_info := JobKafka; j_response_tx := false; j_current := None |}.
Definition ctx : DataContext := plan_context env JobKafka.
Definition query : Query.Query :=
  match (ty ← outbox_type env; outbox_query env ctx ty) with
  | Ok q => q
  | _ => {| raw_sql := ""; q_allowed_fields := None; q_fields := [] |}
  end.

(** A row is read as its identifier, which is also its topic; the database keeps the
    second event in front of the first. *)
Definition seq_no (r : string) : Z := if String.eqb r "a" then 1 else 2.
Definition exec_query (text : string) (rows : list string) : list string :=
  if String.eqb text (events_text (we_target env)) then in_turn seq_no rows else rows.
Definition exec_delete (text : string) (rows : list string) : list string :=
  List.filter (fun r => negb (String.eqb text (deletion_text (we_target env) r))) rows.

Definition start : Broker string := {| br_rows := ["b"; "a"]; br_deleting := None; br_sent := [] |}.
(** Kafka took the first event but did not say so; then all works. *)
Definition unacked (n : nat) : Fault := if decide (n = 2) then Unacked (AMsg "timeout") else Works.
Definition messages : list Message := [("a", Some [], Some []); ("b", Some [], Some [])].
Definition end_ : Broker string := polls env exec_query exec_delete w 1 [unacked; fun _ => Works] start.

Lemma sent_twice : br_sent end_ = [("a", Some [], Some []); ("a", Some [], Some []); ("b", Some [], Some [])].
Proof. vm_compute. reflexivity. Qed.
End OutboxSample.

#[local] Existing Instances Policies.Sample.regexes Policies.Sample.http_methods QuerySpec.Sample.floats
  QuerySpec.Sample.quotes CrudSpec.CrudSample.texts CrudSpec.CrudSample.plain CrudSpec.CrudSample.form
  EngineSpec.EngineSample.uuids EngineSpec.EngineSample.bytes EngineSpec.EngineSample.text_rows V8Value.V8Sample.v8.

Lemma sample_can_poll : can_poll OutboxSample.env OutboxSample.w 1 OutboxSample.job OutboxSample.query.
Proof.
  assert (outbox_open OutboxSample.ctx) as Hopen by (split; [vm_compute; reflexivity|done]).
  split; [vm_compute; reflexivity|vm_compute; lia|exact Hopen|].
  destruct (outbox_plan_text (we_fuel OutboxSample.env) OutboxSample.ctx (we_target OutboxSample.env))
    as (q & Hq & _); [vm_compute; lia|exact Hopen|].
  change (outbox_query OutboxSample.env OutboxSample.ctx outbox = Ok OutboxSample.query).
  unfold OutboxSample.query, outbox_type. rewrite (outbox_found (we_type_system OutboxSample.env) OUTBOX_NAME eq_refl eq_refl).
  cbn [mbind outcome_bind map_err]. unfold outbox_query at 2. unfold outbox_query. by rewrite Hq.
Qed.

(** The text of a deletion tells the identifier. *)
Lemma string_app_cancel_r (a b s : string) : a +:+ s = b +:+ s -> a = b.
Proof.
  intros H. assert (String.length a = String.length b) as Hl
    by (pose proof (f_equal String.length H) as Hx; rewrite !str_length_app in Hx; lia).
  revert b H Hl. induction a as [|c a IH]; intros [|d b] H Hl; cbn in *; try done.
  injection H as -> H. f_equal. apply IH; [done|lia].
Qed.

Lemma sample_deletion_inj a b :
  deletion_text (we_target OutboxSample.env) a = deletion_text (we_target OutboxSample.env) b -> a = b.
Proof.
  unfold deletion_text. intros H. repeat (apply (inj (String.append _)) in H).
  apply string_app_cancel_r in H. unfold select_text in H. cbn [sel_where sel_order sel_limit sel_offset sel_count] in H.
  repeat (apply (inj (String.append _)) in H). apply string_app_cancel_r in H.
  cbn [condition_text literal_text] in H. repeat (apply (inj (String.append _)) in H).
  apply string_app_cancel_r in H. cbn [quoted_data QuerySpec.Sample.quotes] in H.
  apply (inj (String.append _)) in H. by apply string_app_cancel_r in H.
Qed.

Lemma sample_ids r : r ∈ ["b"; "a"] -> row_id OutboxSample.env OutboxSample.query r = Some r.
Proof.
  assert (forallb (fun r => bool_decide (row_id OutboxSample.env OutboxSample.query r = Some r)) ["b"; "a"] = true) as H
    by (vm_compute; reflexivity).
  intros Hr. rewrite forallb_forall in H. apply list_elem_of_In, H in Hr. by apply bool_decide_eq_true in Hr.
Qed.

Lemma sample_understands : understands OutboxSample.env OutboxSample.exec_query OutboxSample.exec_delete
  OutboxSample.seq_no OutboxSample.query ["b"; "a"].
Proof.
  split; [intros rows _; unfold OutboxSample.exec_query; by rewrite String.eqb_refl|].
  intros id rows Hrows. unfold OutboxSample.exec_delete. apply List.filter_ext_in. intros r Hr.
  unfold other_than. rewrite (sample_ids r) by (by apply Hrows, list_elem_of_In). f_equal.
  pose proof (sample_deletion_inj id r) as Hinj. revert Hinj.
  generalize (deletion_text (we_target OutboxSample.env)). intros f Hinj.
  destruct (String.eqb_spec (f id) (f r)) as [He|Hne]; symmetry.
  - apply bool_decide_eq_true_2. by rewrite (Hinj He).
  - apply bool_decide_eq_false_2. by intros [= ->].
Qed.

Lemma sample_event id m : In (id, m) [("a", ("a", Some [], Some [])); ("b", ("b", Some [], Some []))] ->
  event_row OutboxSample.env OutboxSample.query id id m.
Proof.
  assert (forallb (fun im => match decode_row OutboxSample.env OutboxSample.query (Ok im.1) with
      | Ok row => bool_decide (ok_option (event_topic row) = Some im.2.1.1) && bool_decide (ok_option (event_id row) = Some im.1) &&
          bool_decide (event_bytes "key" row = im.2.1.2) && bool_decide (event_bytes "value" row = im.2.2)
      | _ => false end)
    [("a", ("a", Some [], Some [])); ("b", ("b", Some [], Some []))] = true) as H by (vm_compute; reflexivity).
  intros Hin. rewrite forallb_forall in H. apply H in Hin. cbn [fst snd] in Hin.
  destruct (decode_row _ _ _) as [row| |] eqn:E; [|done..].
  do 3 apply andb_prop in Hin as [Hin ?%bool_decide_eq_true]. apply bool_decide_eq_true in Hin.
  assert (forall (r : result string) x, ok_option r = Some x -> r = Ok x) as Hok by (intros [] x [=]; by subst).
  exists row. repeat split; auto.
Qed.

Lemma outbox_at_least_once_witness : exists counts again,
  Forall (fun n => 1 <= n) counts /\ List.length counts = 2 /\
  br_sent OutboxSample.end_ = concat (zip_with replicate counts OutboxSample.messages) ++ again.
Proof.
  destruct (outbox_at_least_once OutboxSample.env OutboxSample.exec_query OutboxSample.exec_delete OutboxSample.seq_no
    OutboxSample.w 1 OutboxSample.job OutboxSample.query
    [OutboxSample.unacked; fun _ => Works] OutboxSample.start ["a"; "b"] OutboxSample.messages)
    as (gone & left & counts & again & Hm & _ & Hl & Hc & Hs & _ & Hall & _).
  - exact sample_can_poll.
  - exact sample_understands.
  - apply NoDup_cons. split; [set_solver|]. apply NoDup_singleton.
  - change (in_turn OutboxSample.seq_no (br_rows OutboxSample.start)) with ["a"; "b"].
    constructor; [apply sample_event; by left|]. constructor; [apply sample_event; by right; left|]. constructor.
  - destruct Hall as [-> _]; [exists (fun _ => Works); split; [by right; left|done]|].
    rewrite app_nil_r in Hm. subst gone. exists counts, again. split; [exact Hc|]. split; [exact Hl|]. exact Hs.
Defined.
