(* ===== verification/Secrets.v ===== *)
(** * Secrets ([server/src/secrets.rs], and their refresh in [server.rs])

    Secrets are an object that is read from a file or an address, in the clear or
    encrypted for the instance.  The URLs, the ciphers and the keys are those of
    libraries; what can be read may change from one look to the next ([Io]).  The
    theorems are at the end: encrypted secrets are what was encrypted, and a failure
    to read never loses those the server has. *)

From S2P Require Import Prelude Json Auth Crud.

(** ** Libraries *)

Inductive UrlParse (U : Type) := UrlOk (u : U) | RelativeUrlWithoutBase | UrlErr (e : string).
Arguments UrlOk {U}. Arguments RelativeUrlWithoutBase {U}. Arguments UrlErr {U}.

Class UrlLib := {
  Url : Type;
  url_parse : string -> UrlParse Url;
  url_scheme : Url -> string;
  url_path : Url -> string;
  url_from_file_path : string -> option Url;
}.

(** Keys of [Aes256Gcm] have 32 bytes and nonces 12; [from_slice] asserts it. *)
Class CryptoLib := {
  RsaPrivateKey : Type;
  from_pkcs1_pem : string -> result RsaPrivateKey;
  from_pkcs8_pem : string -> result RsaPrivateKey;
  precompute : RsaPrivateKey -> result RsaPrivateKey;
  oaep_decrypt : RsaPrivateKey -> string -> result string;
  aes_gcm_decrypt : string -> string -> string -> result string;
}.

(** What can be read at one time. *)
Inductive FileRead := FileData (data : string) | FileNotFound | FileError.
Record Io `{UrlLib} := {
  read_file : string -> FileRead;
  http_get : Url -> result string;
  current_dir : result string;
  join_path : string -> string -> string;
}.

Section Secrets.
Context {UL : UrlLib} {CL : CryptoLib} {JT : JsonText} {B64 : Base64}.

(** ** Encrypted payloads *)

Record AesPayload := { ap_secret : string; ap_nonce : string; ap_key : string }.
Inductive Payload := V0 (secret : list (string * AesPayload)).

Definition de_error {A} : result A := bail "invalid payload".
(** [serde_base64] *)
Definition base64_field (name : string) (o : json_object) : result string :=
  match alist_get name o with
  | Some (JString s) => match base64_decode s with Some bytes => Ok bytes | None => de_error end
  | _ => de_error
  end.

(** What the attributes of the types make of an object; it may have other fields. *)
Definition aes_payload (j : json) : result AesPayload :=
  match as_object j with
  | Some o =>
      secret ← base64_field "secret" o;
      nonce ← base64_field "nonce" o;
      key ← base64_field "key" o;
      Ok {| ap_secret := secret; ap_nonce := nonce; ap_key := key |}
  | None => de_error
  end.
Definition payload (j : json) : result Payload :=
  match as_object j with
  | Some o =>
      match alist_get "version" o, alist_get "secret" o with
      | Some (JString version), Some (JObject secrets) =>
          if String.eqb version "V0" then
            secrets ← mapM (fun kv : string * json => p ← aes_payload kv.2; Ok (kv.1, p)) secrets;
            Ok (V0 secrets)
          else de_error
      | _, _ => de_error
      end
  | None => de_error
  end.

Definition aes_key_from_slice (bytes : string) : result string :=
  if String.length bytes =? 32 then Ok bytes else Panic "assertion failed".
Definition nonce_from_slice (bytes : string) : result string :=
  if String.length bytes =? 12 then Ok bytes else Panic "assertion failed".

Definition map_msg {A} (msg : string) (r : result A) : result A := map_err (fun _ => AMsg msg) r.

Definition decrypt_aes (private_key : RsaPrivateKey) (p : AesPayload) : result string :=
  key ← map_msg "Failed to decrypt AES key" (oaep_decrypt private_key (ap_key p));
  nonce ← map_msg "Failed to decrypt AES nonce" (oaep_decrypt private_key (ap_nonce p));
  key ← aes_key_from_slice key;
  nonce ← nonce_from_slice nonce;
  message ← map_msg "Failed to decrypt secrets" (aes_gcm_decrypt key nonce (ap_secret p));
  map_msg "Failed to read decrypted secrets as utf8" (from_utf8 message).

Definition extract_v0 (private_key : RsaPrivateKey) (secrets : list (string * AesPayload)) : result json_object :=
  mapM (fun kv : string * AesPayload => decrypted ← decrypt_aes private_key kv.2; Ok (kv.1, JString decrypted)) secrets.

(** One zero byte at the end is dropped, after the white space around the text. *)
Definition without_nul (s : string) : string :=
  match strip_suffix (String (ascii_of_nat 0) EmptyString) s with Some s => s | None => s end.
Definition decode_base64 (data : string) : result string :=
  match base64_decode (without_nul (trim data)) with Some bytes => Ok bytes | None => bail "Invalid base64" end.

Definition extract_secrets (private_key : RsaPrivateKey) (data : string) : result json_object :=
  decoded ← decode_base64 data;
  match json_parse decoded with
  | Some j => '(V0 secret) ← payload j; extract_v0 private_key secret
  | None => bail "invalid JSON"
  end.

(** ** Reading *)

Definition read_url (io : Io) (url : Url) : result string :=
  if String.eqb (url_scheme url) "file" then
    match read_file io (url_path url) with
    | FileData data => Ok data
    | FileNotFound => Ok "{}"
    | FileError => bail "failed to read file"
    end
  else map_msg "failed to read URL" (http_get io url).

Definition get_pkcs1_private_key (pem : string) : result RsaPrivateKey := key ← from_pkcs1_pem pem; precompute key.
Definition get_pkcs8_private_key (pem : string) : result RsaPrivateKey := key ← from_pkcs8_pem pem; precompute key.

Definition parse_rsa_key (pem : string) : result RsaPrivateKey :=
  match get_pkcs1_private_key pem with
  | Ok key => Ok key
  | Err _ => get_pkcs8_private_key pem
  | Panic p => Panic p
  end.

(** The options of the server that are about secrets. *)
Record SecretOpt := {
  chisel_secret_location : option string;
  chisel_secret_key_location : option string;
  refresh_secrets_only_once : bool;
}.

Definition key_url (io : Io) (location : string) : result Url :=
  match url_parse location with
  | UrlOk o => Ok o
  | RelativeUrlWithoutBase =>
      cwd ← current_dir io;
      match url_from_file_path (join_path io cwd location) with
      | Some url => Ok url
      | None => bail "Can't convert path to url"
      end
  | UrlErr _ => bail "Invalid url"
  end.

Definition get_private_key (opt : SecretOpt) (io : Io) : result (option RsaPrivateKey) :=
  match chisel_secret_key_location opt with
  | None => Ok None
  | Some x =>
      url ← key_url io x;
      pem ← read_url io url;
      Some <$> with_context (parse_rsa_key pem) "Could not read private key"
  end.

Definition secret_location (opt : SecretOpt) (io : Io) : result Url :=
  match chisel_secret_location opt with
  | Some s => match url_parse s with UrlOk u => Ok u | _ => bail "Invalid url" end
  | None =>
      cwd ← current_dir io;
      unwrap (url_from_file_path (join_path io cwd ".env")) "called `Result::unwrap()` on an `Err` value"
  end.

Definition get_secrets (opt : SecretOpt) (io : Io) : result json_object :=
  secret_location ← secret_location opt io;
  private_key ← get_private_key opt io;
  data ← read_url io secret_location;
  match private_key with
  | None =>
      match json_parse data with
      | Some (JObject o) => Ok o
      | _ => bail "invalid JSON"
      end
  | Some private_key => extract_secrets private_key data
  end.

(** ** Refreshing *)

Definition update_secrets (opt : SecretOpt) (io : Io) (secrets : json_object) : json_object * result unit :=
  match get_secrets opt io with
  | Ok secrets => (secrets, Ok tt)
  | Err e => (secrets, Err e)
  | Panic p => (secrets, Panic p)
  end.

(** Delays are in seconds: [period], the factor and the maximum of the backoff are
    operations on them. *)
Record Backoff (D : Type) := { period : D; backoff : D -> D; at_most : D -> D }.
Arguments period {D}. Arguments backoff {D}. Arguments at_most {D}.

(** The loop, over what can be read each time the server wakes up; the answer is the
    secrets, the delays it slept, and how it ended if it did. *)
Fixpoint refresh_secrets {D} (opt : SecretOpt) (b : Backoff D) (delay_s : D) (looks : list Io) (secrets : json_object)
    : json_object * list D * option (result unit) :=
  match looks with
  | [] => (secrets, [], None)
  | io :: looks =>
      match update_secrets opt io secrets with
      | (secrets, Err _) =>
          let '(s, ds, r) := refresh_secrets opt b (at_most b (backoff b delay_s)) looks secrets in (s, delay_s :: ds, r)
      | (secrets, Panic p) => (secrets, [delay_s], Some (Panic p))
      | (secrets, Ok _) =>
          if refresh_secrets_only_once opt then (secrets, [delay_s], Some (Ok tt))
          else let '(s, ds, r) := refresh_secrets opt b (period b) looks secrets in (s, delay_s :: ds, r)
      end
  end.

(** [op_chisel_get_secret]; [None] is [undefined]. *)
Definition op_chisel_get_secret (secrets : json_object) (key : string) : option json := alist_get key secrets.
End Secrets.
Arguments Backoff : clear implicits.

(** ** Theorems *)

(** A secret as it was encrypted: under a key and a nonce of its own. *)
Record Sealed := { sl_name : string; sl_value : string; sl_key : string; sl_nonce : string }.

Section Spec.
Context {UL : UrlLib} {CL : CryptoLib} {JT : JsonText} {B64 : Base64}.
Context (private_key : RsaPrivateKey) (oaep_encrypt : string -> string) (aes_gcm_encrypt : string -> string -> string -> string).

(** What the ciphers and base64 are relied on for: RSA takes short messages only. *)
Record CryptoLaws : Prop := {
  oaep_inverse : forall s, String.length s <= 32 -> oaep_decrypt private_key (oaep_encrypt s) = Ok s;
  aes_inverse : forall key nonce s, String.length key = 32 -> String.length nonce = 12 ->
    aes_gcm_decrypt key nonce (aes_gcm_encrypt key nonce s) = Ok s;
  base64_inverse : forall s, base64_decode (base64_encode s) = Some s;
}.

Definition seal (s : Sealed) : string * json :=
  (sl_name s, JObject [("secret", JString (base64_encode (aes_gcm_encrypt (sl_key s) (sl_nonce s) (sl_value s))));
                       ("nonce", JString (base64_encode (oaep_encrypt (sl_nonce s))));
                       ("key", JString (base64_encode (oaep_encrypt (sl_key s))))]).
Definition sealed_payload (l : list Sealed) : json := JObject [("version", JString "V0"); ("secret", JObject (seal <$> l))].
Definition opened (l : list Sealed) : json_object := (fun s => (sl_name s, JString (sl_value s))) <$> l.

Definition sealable (s : Sealed) : Prop :=
  String.length (sl_key s) = 32 /\ String.length (sl_nonce s) = 12 /\ from_utf8 (sl_value s) = Ok (sl_value s).

Definition sealed_aes (s : Sealed) : AesPayload :=
  {| ap_secret := aes_gcm_encrypt (sl_key s) (sl_nonce s) (sl_value s); ap_nonce := oaep_encrypt (sl_nonce s);
     ap_key := oaep_encrypt (sl_key s) |}.

Lemma base64_field_sealed name s rest : CryptoLaws -> base64_field name ((name, JString (base64_encode s)) :: rest) = Ok s.
Proof. intros [_ _ Hb]. unfold base64_field. cbn [alist_get]. rewrite String.eqb_refl. by rewrite Hb. Qed.

Lemma base64_field_other name k v rest : String.eqb name k = false ->
  base64_field name ((k, v) :: rest) = base64_field name rest.
Proof. intros H. unfold base64_field. cbn [alist_get]. by rewrite H. Qed.

Lemma aes_payload_sealed s : CryptoLaws -> aes_payload (seal s).2 = Ok (sealed_aes s).
Proof.
  intros H. unfold aes_payload, seal. cbn [snd as_object].
  rewrite base64_field_sealed by done. cbn [mbind outcome_bind].
  rewrite (base64_field_other "nonce") by done. rewrite base64_field_sealed by done. cbn [mbind outcome_bind].
  rewrite !base64_field_other by done. by rewrite base64_field_sealed by done.
Qed.

Lemma payload_sealed l : CryptoLaws -> payload (sealed_payload l) = Ok (V0 ((fun s => (sl_name s, sealed_aes s)) <$> l)).
Proof.
  intros H. unfold payload, sealed_payload. cbn [as_object].
  change (alist_get "version" _) with (Some (JString "V0")). change (alist_get "secret" _) with (Some (JObject (seal <$> l))).
  cbn iota. rewrite String.eqb_refl. cbn iota.
  assert (mapM (fun kv : string * json => p ← aes_payload kv.2; Ok (kv.1, p)) (seal <$> l) =
    Ok ((fun s => (sl_name s, sealed_aes s)) <$> l)) as ->; [|done].
  apply mapM_ok. induction l as [|s l IH]; cbn [fmap list_fmap]; constructor; [|done].
  by rewrite aes_payload_sealed.
Qed.

Lemma decrypt_sealed s : CryptoLaws -> sealable s -> decrypt_aes private_key (sealed_aes s) = Ok (sl_value s).
Proof.
  intros [Ho Ha _] (Hk & Hn & Hu). unfold decrypt_aes, aes_key_from_slice, nonce_from_slice. cbn.
  rewrite !Ho by lia. cbn. rewrite Hk, Hn. cbn. rewrite (Ha _ _ _ Hk Hn). cbn. by rewrite Hu.
Qed.

(** C30: Secrets that were encrypted for the instance, each with a key and a nonce of
    its own, are read back as they were, under the same names: whatever white
    space surrounds the text, and with one zero byte behind it or none. *)
Theorem secrets_roundtrip data l : CryptoLaws -> Forall sealable l ->
  json_parse (json_print (sealed_payload l)) = Some (sealed_payload l) ->
  without_nul (trim data) = base64_encode (json_print (sealed_payload l)) ->
  extract_secrets private_key data = Ok (opened l).
Proof.
  intros Hlaws Hl Hj Hd. pose proof Hlaws as [_ _ Hb]. unfold extract_secrets, decode_base64. rewrite Hd, Hb. cbn [mbind outcome_bind].
  rewrite Hj, payload_sealed by done. cbn [mbind outcome_bind]. apply mapM_ok.
  clear Hj Hd. induction Hl as [|s l Hs _ IH]; cbn [fmap list_fmap]; constructor; [|exact IH].
  cbn [snd fst]. by rewrite decrypt_sealed.
Qed.
End Spec.

Section Refresh.
Context {UL : UrlLib} {CL : CryptoLib} {JT : JsonText} {B64 : Base64}.
Context {D : Type} (opt : SecretOpt) (b : Backoff D).

Definition seen (io : Io) : option json_object := ok_option (get_secrets opt io).

Lemma update_secrets_seen io secrets : (update_secrets opt io secrets).1 = default secrets (seen io).
Proof. unfold update_secrets, seen. by destruct (get_secrets opt io). Qed.

(** The delay before each look: after a look that failed the backoff, no more than the
    maximum; the period otherwise. *)
Fixpoint delays (delay_s : D) (looks : list Io) : list D :=
  match looks with
  | [] => []
  | io :: looks => delay_s :: delays (match seen io with Some _ => period _ b | None => at_most _ b (backoff _ b delay_s) end) looks
  end.

(** C31: The server always has the secrets of the last look that succeeded, or those it
    started with: a failed look changes nothing and is tried again, later each time
    but never later than the maximum. The loop ends at the first success when it is
    told to, and otherwise only when a look panics. *)
Theorem refresh_keeps_secrets delay_s looks secrets :
  let '(s, ds, r) := refresh_secrets opt b delay_s looks secrets in
  let taken := take (List.length ds) looks in
  s = default secrets (last (omap seen taken)) /\ ds = delays delay_s taken /\
  match r with
  | None => taken = looks
  | Some (Ok _) => refresh_secrets_only_once opt = true /\ exists failed io o, taken = failed ++ [io] /\ omap seen failed = [] /\ seen io = Some o
  | Some (Panic p) => exists before io, taken = before ++ [io] /\ get_secrets opt io = Panic p
  | Some (Err _) => False
  end.
Proof.
  revert delay_s secrets. induction looks as [|io looks IH]; intros delay_s secrets; [done|].
  cbn [refresh_secrets]. unfold update_secrets. destruct (get_secrets opt io) as [o|e|p] eqn:E.
  - assert (seen io = Some o) as Hseen by (unfold seen; by rewrite E).
    destruct (refresh_secrets_only_once opt) eqn:Eo.
    + cbn. rewrite take_0. cbn. rewrite Hseen. split; [done|]. split; [done|]. split; [done|]. by exists [], io, o.
    + specialize (IH (period _ b) o). destruct (refresh_secrets opt b (period _ b) looks o) as [[s ds] r].
      cbn zeta in IH |- *. destruct IH as (Hs & Hd & Hr). cbn [List.length take omap list_omap delays]. rewrite Hseen.
      split; [|split; [by rewrite <- Hd|]].
      * rewrite Hs. clear. set (l := omap seen _). clearbody l. destruct l using rev_ind; [done|].
        change (o :: l ++ [x]) with ((o :: l) ++ [x]). by rewrite !last_snoc.
      * destruct r as [[u|e|p]|]; [|done| |by rewrite Hr].
        -- destruct Hr as [? _]. congruence.
        -- destruct Hr as (before & io' & -> & ?). by exists (io :: before), io'.
  - assert (seen io = None) as Hseen by (unfold seen; by rewrite E).
    specialize (IH (at_most _ b (backoff _ b delay_s)) secrets).
    destruct (refresh_secrets opt b (at_most _ b (backoff _ b delay_s)) looks secrets) as [[s ds] r].
    cbn zeta in IH |- *. destruct IH as (Hs & Hd & Hr). cbn [List.length take omap list_omap delays]. rewrite Hseen.
    split; [done|]. split; [by rewrite <- Hd|]. destruct r as [[u|e'|p]|]; [|done| |by rewrite Hr].
    + destruct Hr as (Ho & failed & io' & o & -> & Hf & Hio). split; [done|]. exists (io :: failed), io', o.
      split; [done|]. split; [cbn; by rewrite Hseen|done].
    + destruct Hr as (before & io' & -> & ?). by exists (io :: before), io'.
  - assert (seen io = None) as Hseen by (unfold seen; by rewrite E).
    cbn. rewrite take_0. cbn. rewrite Hseen. split; [done|]. split; [done|]. by exists [], io.
Qed.
End Refresh.

(** ** Secrets of an instance *)

Module SecretSample.
#[export] Instance url_lib : UrlLib :=
  {| Url := string; url_parse s := UrlOk s; url_scheme _ := "file"; url_path s := s; url_from_file_path s := Some s |}.

(** A cipher that puts the key and the nonce before the text. *)
Definition seal_with (key nonce s : string) : string := (key +:+ nonce) +:+ s.
#[export] Instance crypto : CryptoLib :=
  {| RsaPrivateKey := unit; from_pkcs1_pem _ := Ok tt; from_pkcs8_pem _ := Ok tt; precompute k := Ok k;
     oaep_decrypt _ s := Ok s;
     aes_gcm_decrypt key nonce s :=
       match strip_prefix (key +:+ nonce) s with Some s => Ok s | None => bail "aead::Error" end |}.
#[export] Instance base64 : Base64 := {| base64_encode s := s; base64_decode s := Some s |}.

Lemma laws : CryptoLaws (CL := crypto) (B64 := base64) tt (fun s => s) seal_with.
Proof.
  split; [done| |done]. intros key nonce s _ _. cbn [aes_gcm_decrypt crypto]. unfold seal_with.
  by rewrite strip_prefix_app.
Qed.

Definition sealed : list Sealed :=
  [{| sl_name := "TOKEN"; sl_value := "xyzzy"; sl_key := "0123456789abcdef0123456789abcdef"; sl_nonce := "0123456789ab" |}].
Definition document : json := sealed_payload (fun s => s) seal_with (B64 := base64) sealed.
#[export] Instance json_text : JsonText := {| json_parse s := if String.eqb s "doc" then Some document else None; json_print _ := "doc" |}.
End SecretSample.

Lemma secrets_roundtrip_witness :
  extract_secrets (JT := SecretSample.json_text) (B64 := SecretSample.base64) (CL := SecretSample.crypto) tt
    (" doc" +:+ String (ascii_of_nat 0) EmptyString) = Ok [("TOKEN", JString "xyzzy")].
Proof.
  apply (secrets_roundtrip (CL := SecretSample.crypto) (JT := SecretSample.json_text) (B64 := SecretSample.base64) tt (fun s => s) SecretSample.seal_with _ SecretSample.sealed
    SecretSample.laws); [by repeat constructor|by vm_compute..].
Defined.
