(* ===== verification/WorkerState.v ===== *)
(** * What a worker offers besides the data ([server/src/ops], [module_loader.rs],
      [worker.rs], [version.rs], [internal.rs])

    The environment a worker pretends to have, its signal that it is ready, the type
    system as the TypeScript API sees it, the modules V8 asks for, and the names
    JavaScript knows errors by.  URLs are those of a library ([ModuleUrls]). *)

From S2P Require Import Prelude Types Builtin TypeSystem Http PolicyProcess.

(** ** The environment *)

Abbreviation FakeEnv := (gmap string string).

Definition op_cwd : string := "/".
Definition op_set_env (key value : string) (fake_env : FakeEnv) : FakeEnv := <[key := value]> fake_env.
Definition op_env (fake_env : FakeEnv) : FakeEnv := fake_env.
Definition op_get_env (key : string) (fake_env : FakeEnv) : option string := fake_env !! key.
Definition op_delete_env (key : string) (fake_env : FakeEnv) : FakeEnv := delete key fake_env.

(** ** Readiness *)

(** The channel of a worker: its sender is there until the signal is sent, or it is
    dropped with the worker. *)
Inductive ReadySignal := ReadyPending | ReadySent | ReadyDropped.

Definition op_chisel_ready (ready_tx : option ReadySignal) : option ReadySignal * result unit :=
  match ready_tx with
  | Some _ => (None, Ok tt)
  | None => (None, bail "op_chisel_ready has already been called")
  end.

(** What the task that waits for all workers of a version has found out: nothing yet,
    or whether the version is ready. *)
Definition ready_task (workers : list ReadySignal) : option bool :=
  if existsb (fun s => match s with ReadyDropped => true | _ => false end) workers then Some false
  else if forallb (fun s => match s with ReadySent => true | _ => false end) workers then Some true
  else None.

(** ** Routes for the machinery around the server *)

Definition HEALTH_READY_new : Z := 404.
Definition mark_ready : Z := 200.
Definition mark_not_ready : Z := 400.

Definition health_response (path : string) (health_ready : Z) : string * Z :=
  if String.eqb path "/status" then ("ok", 200)%Z
  else if String.eqb path "/readiness" then ("ready", health_ready)
  else if String.eqb path "/liveness" then ("alive", 200)%Z
  else ("not found", 404)%Z.

(** ** The type system of the TypeScript API *)

Inductive SimpleTypeId :=
  | SimpleString
  | SimpleNumber
  | SimpleBoolean
  | SimpleJsDate
  | SimpleArrayBuffer
  | SimpleEntityType (entity_name : string)
  | SimpleEntityId (entity_name : string)
  | SimpleArray (element_type : SimpleTypeId).

Record SimpleField := {
  sf_name : string;
  sf_type : SimpleTypeId;
  sf_is_optional : bool;
  sf_is_unique : bool;
}.
Record SimpleEntity := { se_name : string; se_fields : list SimpleField }.

Fixpoint simplify_type_id (ty : TypeId) : SimpleTypeId :=
  match ty with
  | IdString => SimpleString
  | IdFloat => SimpleNumber
  | IdInt64 => SimpleNumber
  | IdBoolean => SimpleBoolean
  | IdJsDate => SimpleJsDate
  | IdId => SimpleString
  | IdArrayBuffer => SimpleArrayBuffer
  | IdArray element_ty => SimpleArray (simplify_type_id element_ty)
  | IdEntity name _ => SimpleEntityType name
  | IdEntityId entity_name => SimpleEntityId entity_name
  end.

Definition simplify_field (f : Field) : SimpleField :=
  {| sf_name := fld_name f; sf_type := simplify_type_id (fld_type_id f);
     sf_is_optional := fld_is_optional f; sf_is_unique := fld_is_unique f |}.
Definition simplify_object_type (obj : ObjectType) : SimpleEntity :=
  {| se_name := obj_name obj; se_fields := simplify_field <$> all_fields obj |}.

(** The custom entities, and over them those of the program. *)
Definition op_chisel_get_type_system (ts : TypeSystem) : gmap string SimpleEntity :=
  let entities := (fun ty => simplify_object_type (object_type ty)) <$> custom_types ts in
  omap (fun ty => match ty with
                  | TEntity entity => Some (simplify_object_type (object_type entity))
                  | _ => None
                  end) (types (builtin ts)) ∪ entities.

(** ** Modules *)

Class ModuleUrls := {
  ModuleUrl : Type;
  module_url_parse : string -> option ModuleUrl;
  module_url_str : ModuleUrl -> string;
  module_scheme : ModuleUrl -> string;
  module_domain : ModuleUrl -> option string;
  module_path : ModuleUrl -> string;
  resolve_import : string -> string -> result ModuleUrl;
}.

(** The generated tables of the modules that are part of the program. *)
Record InternalSources := {
  api_sources_js : string -> option string;
  deno_std_sources_js : string -> option string;
}.

(** The modules of Node: for a few the path is not the specifier with [.ts]. *)
Definition NODE_POLYFILLS : list (string * string) :=
  let ts name := (name, "node/" +:+ name +:+ ".ts") in
  let mjs name := (name, "node/" +:+ name +:+ ".mjs") in
  (ts <$> ["assert"; "assert/strict"; "async_hooks"; "buffer"; "child_process"; "cluster"; "console"; "constants";
           "crypto"; "dgram"; "dns"; "dns/promises"; "domain"; "events"; "fs"; "fs/promises"; "http"; "https"; "net";
           "os"; "path"; "path/posix"; "path/win32"; "perf_hooks"; "process"; "querystring"; "readline"; "stream"]) ++
  (mjs <$> ["stream/consumers"; "stream/promises"]) ++
  (ts <$> ["stream/web"; "string_decoder"; "sys"; "timers"; "timers/promises"; "tls"; "tty"; "url"; "util";
           "util/types"; "v8"; "vm"; "worker_threads"; "zlib"]).

Section Modules.
Context `{MU : ModuleUrls}.
Context (internal : InternalSources).

Definition unwrap_url (u : option ModuleUrl) : result ModuleUrl :=
  match u with Some u => Ok u | None => Panic "called `Result::unwrap()` on an `Err` value" end.

Definition resolve (specifier referrer : string) : result ModuleUrl :=
  if String.eqb specifier "@chiselstrike/api" then unwrap_url (module_url_parse "chisel://api/api.ts")
  else match alist_get specifier NODE_POLYFILLS with
       | Some path => unwrap_url (module_url_parse ("chisel://deno-std/" +:+ path))
       | None => resolve_import specifier referrer
       end.

Definition load_chisel_module (url : ModuleUrl) : result string :=
  let undefined := bail ("Undefined internal chisel module " +:+ module_url_str url) in
  let found (o : option string) := match o with Some code => Ok code | None => undefined end in
  match module_domain url with
  | Some domain =>
      if String.eqb domain "api" then
        found (api_sources_js internal (trim_end_matches ".ts" (trim_start_char "/"%char (module_path url))))
      else if String.eqb domain "deno-std" then
        found (deno_std_sources_js internal (trim_start_char "/"%char (module_path url)))
      else undefined
  | None => undefined
  end.

(** The code of a module; [modules] are those that were applied with the version. *)
Definition load (modules : gmap string string) (module_specifier : ModuleUrl) (maybe_referrer : option ModuleUrl)
    (is_dyn_import : bool) : result string :=
  if String.eqb (module_scheme module_specifier) "chisel" then load_chisel_module module_specifier
  else match modules !! module_url_str module_specifier with
       | Some code => Ok code
       | None =>
           bail ("chiseld cannot load module " +:+ module_url_str module_specifier +:+ " at runtime" +:+
                 match maybe_referrer with Some url => " (referrer: " +:+ module_url_str url +:+ ")" | None => "" end +:+
                 (if is_dyn_import then " (dynamic import)" else ""))
       end.
End Modules.

(** ** Errors *)

(** [deno_class] are the errors the runtime knows.  Messages and contexts are strings,
    and are found before an error of policies below them.  The inner [match] tells
    apart the errors of policies, but the name it finds is not used. *)
Definition get_error_class_name (deno_class : anyhow -> option string) (e : anyhow) : string :=
  match deno_class e with
  | Some class => class
  | None =>
      match e with
      | AMsg _ | AContext _ _ => "Error"
      | APolicyError _ => "PermissionDeniedError"
      end
  end.

(** ** Theorems *)

(** An error of policies says that permission was denied, dirty entities too. *)
Lemma dirty_entity_class deno_class ty : deno_class (DirtyEntity ty) = None ->
  get_error_class_name deno_class (DirtyEntity ty) = "PermissionDeniedError".
Proof. intros H. unfold get_error_class_name. by rewrite H. Qed.

(** A version without workers is ready at once. *)
Lemma no_workers_ready : ready_task [] = Some true.
Proof. done. Qed.

Lemma ready_task_true workers : ready_task workers = Some true <-> Forall (eq ReadySent) workers.
Proof.
  unfold ready_task. induction workers as [|s l IH]; [by split|]. cbn [existsb forallb].
  rewrite Forall_cons, <- IH. destruct s; cbn; [|tauto|by split; [|intros [? _]]].
  split; [by destruct existsb|by intros [? _]].
Qed.

Definition simplified (e : Entity) : SimpleEntity := simplify_object_type (object_type e).

Lemma type_system_builtin ts name e : types (builtin ts) !! name = Some (TEntity e) ->
  op_chisel_get_type_system ts !! name = Some (simplified e).
Proof.
  intros H. unfold op_chisel_get_type_system. apply lookup_union_Some_l. by rewrite lookup_omap, H.
Qed.

Lemma type_system_custom ts name : (forall e, types (builtin ts) !! name <> Some (TEntity e)) ->
  op_chisel_get_type_system ts !! name = simplified <$> custom_types ts !! name.
Proof.
  intros H. unfold op_chisel_get_type_system. rewrite lookup_union_r; [by rewrite lookup_fmap|].
  rewrite lookup_omap. destruct (types (builtin ts) !! name) as [[]|] eqn:E; try done. by destruct (H e).
Qed.

Lemma plain_lookup ts name : ts_wf ts -> extract_type "Array" name = None -> extract_type "Id" name = None ->
  lookup_builtin_type ts name = match types (builtin ts) !! name with Some t => Ok t | None => Err (NotABuiltinType name) end.
Proof. intros _ Ha Hi. by rewrite lookup_builtin_type_unfold, Ha, Hi. Qed.

(** What is not plain is not in the table of the program. *)
Lemma table_plain ts name t : ts_wf ts -> types (builtin ts) !! name = Some t -> lookup_builtin_type ts name = Ok t.
Proof.
  intros Hwf H. pose proof H as Hn. rewrite wf_builtin_table in Hn by done.
  apply builtin_name_plain in Hn as [Ha Hi]. by rewrite plain_lookup, H.
Qed.

Definition no_entity (r : outcome TypeSystemError Type_) : Prop :=
  match r with Ok (TEntity _) | Err (NotABuiltinType _) => False | _ => True end.

(** The TypeScript API sees the entities the server would find: an entity that the
    server finds under a name is the one the API has under it, and one the API has
    is what the server finds, unless its name stands for a type that is no entity. *)
Theorem api_sees_entities ts name : ts_wf ts ->
  (forall e, lookup_entity ts name = Ok e -> op_chisel_get_type_system ts !! name = Some (simplified e)) /\
  (forall s, op_chisel_get_type_system ts !! name = Some s ->
     (exists e, lookup_entity ts name = Ok e /\ s = simplified e) \/ no_entity (lookup_builtin_type ts name)).
Proof.
  intros Hwf. pose proof (table_plain ts name) as Hplain. unfold lookup_entity, lookup_custom_type.
  destruct (types (builtin ts) !! name) as [t|] eqn:Et.
  - rewrite (Hplain t Hwf eq_refl). destruct t as [| | | | |b|n|t]; try (split; [done|intros s _; by right]).
    rewrite (type_system_builtin ts name b Et). split; [by intros ? [= ->]|intros s [= <-]]. left. by eexists.
  - rewrite type_system_custom by (intros e; by rewrite Et).
    assert (forall b, lookup_builtin_type ts name <> Ok (TEntity b)) as Hno.
    { intros b Hb. apply lookup_builtin_type_sound in Hb as [<- Hb]; [|done]. cbn in Hb, Et. congruence. }
    destruct (lookup_builtin_type ts name) as [t|[]|w]; try (split; [done|intros s _; by right]).
    + destruct t as [| | | | |b|n|t]; try (split; [done|intros s _; by right]). by destruct (Hno b).
    + destruct (custom_types ts !! name) as [e|]; cbn; [|by split].
      split; [by intros ? [= ->]|intros s [= <-]]. left. by eexists.
Qed.

Lemma api_sees_entities_witness :
  (forall e, lookup_entity dev_types "Person" = Ok e -> op_chisel_get_type_system dev_types !! "Person" = Some (simplified e)) /\
  op_chisel_get_type_system dev_types !! "Person" = Some (simplified (Custom old_person)) /\
  op_chisel_get_type_system dev_types !! "string" = None.
Proof.
  split; [apply (api_sees_entities dev_types "Person" dev_types_wf)|]. by vm_compute.
Defined.

(** *** Modules *)

(** The addresses the resolver makes. *)
Definition internal_addresses : list (string * string) :=
  ("api", "api.ts") :: ((fun p : string * string => ("deno-std", p.2)) <$> NODE_POLYFILLS).

(** What a URL library says about them. *)
Definition urls_taken_apart `{ModuleUrls} : Prop :=
  Forall (fun a : string * string => exists url,
    module_url_parse ("chisel://" +:+ a.1 +:+ "/" +:+ a.2) = Some url /\ module_scheme url = "chisel" /\
    module_domain url = Some a.1 /\ module_path url = "/" +:+ a.2) internal_addresses.

(** The code an import of the application stands for. *)
Definition import_code `{ModuleUrls} (internal : InternalSources) (modules : gmap string string) (specifier referrer : string)
    : option string :=
  if String.eqb specifier "@chiselstrike/api" then api_sources_js internal "api"
  else match alist_get specifier NODE_POLYFILLS with
       | Some path => deno_std_sources_js internal path
       | None =>
           match resolve_import specifier referrer with
           | Ok url => if String.eqb (module_scheme url) "chisel" then ok_option (load_chisel_module internal url)
                       else modules !! module_url_str url
           | _ => None
           end
       end.

Definition trims_to (path : string) : bool := String.eqb (trim_start_char "/"%char ("/" +:+ path)) path.
Lemma polyfills_trim : forallb (fun p : string * string => trims_to p.2) NODE_POLYFILLS = true.
Proof. by vm_compute. Qed.

(** C32: An import runs the code it stands for or is an error: the API and the modules of
    Node are always those of the program, whatever the application has in their
    place and whoever imports them, and all else is code that was applied with the
    version or that the program brings along. *)
Theorem imports_run_known_code `{MU : ModuleUrls} internal modules specifier referrer maybe_referrer is_dyn : urls_taken_apart ->
  ok_option (url ← resolve specifier referrer; load internal modules url maybe_referrer is_dyn) =
  import_code internal modules specifier referrer.
Proof.
  unfold urls_taken_apart, internal_addresses, resolve, import_code. rewrite Forall_cons, Forall_fmap.
  intros [(api & Hapi & Hs & Hd & Hp) Hstd].
  destruct (String.eqb specifier "@chiselstrike/api").
  { change (module_url_parse "chisel://api/api.ts" = Some api) in Hapi. rewrite Hapi. cbn [unwrap_url mbind outcome_bind].
    unfold load, load_chisel_module. rewrite Hs, Hd, Hp. cbn [String.eqb Ascii.eqb Bool.eqb].
    change (trim_end_matches _ _) with "api". by destruct (api_sources_js internal "api"). }
  destruct (alist_get specifier NODE_POLYFILLS) as [path|] eqn:E.
  - apply alist_get_some_in in E. rewrite Forall_forall in Hstd.
    destruct (Hstd _ E) as (u & Hu & Hus & Hud & Hup). cbn [fst snd] in Hu, Hud, Hup.
    change ("chisel://" +:+ "deno-std" +:+ "/" +:+ path) with ("chisel://deno-std/" +:+ path) in Hu.
    rewrite Hu. cbn [unwrap_url mbind outcome_bind]. unfold load, load_chisel_module. rewrite Hus, Hud, Hup.
    cbn [String.eqb Ascii.eqb Bool.eqb]. pose proof polyfills_trim as Ht. rewrite forallb_forall in Ht.
    apply list_elem_of_In, Ht in E. cbn [snd] in E. apply String.eqb_eq in E. rewrite E.
    by destruct (deno_std_sources_js internal path).
  - destruct (resolve_import specifier referrer) as [u|e|w]; [|done|done]. cbn [mbind outcome_bind]. unfold load.
    destruct (String.eqb (module_scheme u) "chisel"); [done|]. by destruct (modules !! module_url_str u).
Qed.

Module ModuleSample.
(** A URL is its text, of which the parts are found by splitting. *)
Definition rest (url : string) : string :=
  match split_once ":"%char url with Some (_, r) => default r (strip_prefix "//" r) | None => "" end.
Definition urls : ModuleUrls := {|
  ModuleUrl := string;
  module_url_parse s := Some s;
  module_url_str s := s;
  module_scheme url := match split_once ":"%char url with Some (s, _) => s | None => "" end;
  module_domain url := fst <$> split_once "/"%char (rest url);
  module_path url := match split_once "/"%char (rest url) with Some (_, p) => "/" +:+ p | None => "" end;
  resolve_import specifier _ := Ok specifier |}.

#[local] Existing Instance urls.

Definition address_ok (a : string * string) : bool :=
  let url := "chisel://" +:+ a.1 +:+ "/" +:+ a.2 in
  String.eqb (module_scheme url) "chisel" && bool_decide (module_domain url = Some a.1) &&
  String.eqb (module_path url) ("/" +:+ a.2).

Lemma addresses_ok : forallb address_ok internal_addresses = true.
Proof. by vm_compute. Qed.

Lemma taken_apart : urls_taken_apart (H := urls).
Proof.
  apply Forall_forall. intros a Ha. pose proof addresses_ok as H. rewrite forallb_forall in H.
  apply list_elem_of_In, H in Ha. unfold address_ok in Ha. cbn zeta in Ha.
  rewrite !andb_true_iff, !String.eqb_eq, bool_decide_eq_true in Ha. destruct Ha as [[? ?] ?]. by eexists.
Qed.

Definition internal : InternalSources :=
  {| api_sources_js path := if String.eqb path "api" then Some "the API" else None;
     deno_std_sources_js path := if String.eqb path "node/fs.ts" then Some "no files" else None |}.
Definition modules : gmap string string := {[ "fs" := "all files"; "file:///a.ts" := "a" ]}.
End ModuleSample.

Lemma imports_run_known_code_witness :
  ok_option (url ← resolve (MU := ModuleSample.urls) "fs" "file:///a.ts";
    load ModuleSample.internal ModuleSample.modules url None false) = Some "no files".
Proof.
  rewrite (imports_run_known_code ModuleSample.internal ModuleSample.modules "fs" "file:///a.ts" None false ModuleSample.taken_apart).
  by vm_compute.
Defined.
