(* ===== verification/Tsc.v ===== *)
(** * The wrapper of the TypeScript compiler ([tsc_compile/src/lib.rs], [endpoint_tsc])

    The compiler runs in V8 and asks for files, resolutions and writes ([TscRun]);
    what it writes is collected ([DownloadMap]), given back to the modules it was
    made from, and named after the files that were asked for.  URLs, the graph of
    the modules and the compiler itself are those of libraries.  The theorems are at
    the end. *)

From S2P Require Import Prelude Project.

(** ** Libraries *)

Class TscUrls := {
  TUrl : Type;
  turl_parse : string -> option TUrl;
  turl_str : TUrl -> string;
  turl_scheme : TUrl -> string;
  to_file_path : TUrl -> option string;
  make_relative : TUrl -> TUrl -> option string;
  resolve_import : string -> TUrl -> result TUrl;
}.

Inductive MediaType := JavaScript | Mjs | OtherMedia.

Record GraphModule `{TscUrls} := { specifier : TUrl; media_type : MediaType; maybe_source : option string }.
Inductive ModuleGraphError `{TscUrls} :=
  | LoadingErr (specifier : TUrl) (err : anyhow)
  | ResolutionError (range : string) (err : anyhow)
  | OtherGraphError (err : anyhow).

Record ModuleGraph `{TscUrls} := {
  graph_modules : list GraphModule;
  resolve_dependency : string -> TUrl -> option TUrl;
  try_get : TUrl -> result (option GraphModule);
  graph_valid : option ModuleGraphError;
}.

(** What the compiler asks of the program, and goes on with. *)
Inductive TscRun :=
  | TscDone
  | TscResolve (path base : string) (k : result string -> TscRun)
  | TscRead (path : string) (k : result string -> TscRun)
  | TscWrite (path content : string) (k : TscRun)
  | TscDiagnostic (msg : string) (k : TscRun).

Definition ROOT_URL : string := "chisel://root_domain/root.ts".

(** The call of [compile]: the root, whether it is a worker, an additional library, and
    whether there shall be declarations. *)
Class TscLib `{TscUrls} := {
  tsc : string -> bool -> option string -> bool -> TscRun;
  (** the modules, what shall be imported as well, the loader and the resolver *)
  create_graph : list TUrl -> option string -> (TUrl -> result string) -> (string -> TUrl -> result TUrl) -> ModuleGraph;
  read_to_string : string -> result string;
  get_ok_text : TUrl -> result string;
  env_current_dir : result string;
}.

(** ** Paths *)

(** Separators and dots at the end of a path name nothing. *)
Fixpoint trim_path_fuel (fuel : nat) (p : string) : string :=
  match fuel with
  | 0 => p
  | S fuel =>
      if String.eqb p "/" then p
      else match strip_suffix "/" p, strip_suffix "/." p with
           | Some p, _ => trim_path_fuel fuel p
           | None, Some p => if str_is_empty p then "/" else trim_path_fuel fuel p
           | None, None => p
           end
  end.
Definition trim_path (p : string) : string := trim_path_fuel (String.length p) p.

(** [Path::parent] *)
Definition path_parent (p : string) : option string :=
  let p := trim_path p in
  if str_is_empty p || String.eqb p "/" then None
  else match rsplit_once "/"%char p with
       | None => Some ""
       | Some (dir, _) => Some (if str_is_empty dir then "/" else trim_path dir)
       end.

(** [assert!(base.pop())] *)
Definition pop (base : string) : result string :=
  match path_parent base with Some p => Ok p | None => Panic "assertion failed: base.pop()" end.

Definition join_component (base c : string) : result string :=
  if String.eqb c ".." then pop base else Ok (join base c).
Definition join_path (base rel : string) : result string :=
  if is_relative rel then foldM join_component base (components rel) else Ok rel.

(** [utils::without_extension] *)
Fixpoint without_suffix (suffixes : list string) (path : string) : string :=
  match suffixes with
  | [] => path
  | suffix :: suffixes => match strip_suffix suffix path with Some s => s | None => without_suffix suffixes path end
  end.
Definition without_extension (path : string) : string := without_suffix [".d.ts"; ".ts"; ".js"] path.

Section Tsc.
Context `{TU : TscUrls} {TL : TscLib}.

Definition unwrap_or_panic {A} (o : option A) : result A := unwrap o "called `Option::unwrap()` on a `None` value".

Definition abs (path : string) : result string :=
  match env_current_dir with
  | Ok cwd => p ← join_path cwd path; unwrap_or_panic (to_str p)
  | _ => Panic "called `Result::unwrap()` on an `Err` value"
  end.

(** ** The operations of the compiler *)

Record DownloadMap := { written : list (string * string); graph : ModuleGraph; root_code : string; diagnostics : string }.

Definition DownloadMap_new (graph : ModuleGraph) (root_code : string) : DownloadMap :=
  {| graph := graph; root_code := root_code; written := []; diagnostics := "" |}.

Definition set_written (w : list (string * string)) (map : DownloadMap) : DownloadMap :=
  {| written := w; graph := graph map; root_code := root_code map; diagnostics := diagnostics map |}.

Definition resolve_impl (map : DownloadMap) (path base : string) : result string :=
  if String.eqb base ROOT_URL then Ok path
  else
    url ← unwrap (turl_parse base) "called `Result::unwrap()` on an `Err` value";
    match resolve_dependency (graph map) path url with
    | Some resolved => Ok (turl_str resolved)
    | None => bail ("Could not resolve '" +:+ path +:+ "' in '" +:+ turl_str url +:+ "'")
    end.

Definition read_impl (map : DownloadMap) (path : string) : result string :=
  if String.eqb path ROOT_URL then Ok (root_code map)
  else match turl_parse path with
       | None => bail "invalid URL"
       | Some url =>
           m ← try_get (graph map) url;
           match m with
           | Some m => unwrap_or_panic (maybe_source m)
           | None => bail "URL was not loaded"
           end
       end.

Definition write_impl (map : DownloadMap) (path content : string) : DownloadMap :=
  set_written (alist_insert path content (written map)) map.

Definition diagnostic_impl (map : DownloadMap) (msg : string) : DownloadMap :=
  {| written := written map; graph := graph map; root_code := root_code map; diagnostics := msg |}.

(** An error is thrown into the compiler, a panic ends the program. *)
Fixpoint run_tsc (map : DownloadMap) (r : TscRun) : result DownloadMap :=
  match r with
  | TscDone => Ok map
  | TscResolve path base k =>
      match resolve_impl map path base with Panic p => Panic p | a => run_tsc map (k a) end
  | TscRead path k => match read_impl map path with Panic p => Panic p | a => run_tsc map (k a) end
  | TscWrite path content k => run_tsc (write_impl map path content) k
  | TscDiagnostic msg k => run_tsc (diagnostic_impl map msg) k
  end.

(** ** Loading *)

Record CompileOptions := {
  extra_default_lib : option string;
  extra_libs : list (string * string);
  emit_declarations : bool;
  is_worker : bool;
}.

(** The text of a module; [libs] are additional ones under their URLs. *)
Definition load_url (libs : list (string * string)) (specifier : TUrl) : result string :=
  if String.eqb (turl_scheme specifier) "file" then
    path ← unwrap (to_file_path specifier) "called `Result::unwrap()` on an `Err` value"; read_to_string path
  else if String.eqb (turl_scheme specifier) "chisel" then
    option_context (alist_get (turl_str specifier) libs) "undefined chisel:// import"
  else get_ok_text specifier.

Definition resolver (to_url : list (string * TUrl)) (specifier : string) (referrer : TUrl) : result TUrl :=
  match alist_get specifier to_url with Some u => Ok u | None => resolve_import specifier referrer end.

Definition lib_url (k : string) : result TUrl :=
  unwrap (turl_parse ("chisel://api/" +:+ k +:+ ".ts")) "called `Result::unwrap()` on an `Err` value".

Definition graph_error (err : ModuleGraphError) : anyhow :=
  match err with
  | LoadingErr specifier err => AContext ("failed to load module " +:+ turl_str specifier) err
  | ResolutionError range err => AContext ("failed to resolve module (at " +:+ range +:+ ")") err
  | OtherGraphError err => err
  end.

Definition import_all (modules : list GraphModule) : string :=
  String.concat "" ((fun u => "import " +:+ quoted (turl_str (specifier u)) +:+ ";") <$> modules) +:+ "export {};".

(** ** Results *)

(** Modules by the text of their URL without its extension; a later one wins. *)
Definition prefix_map_of (modules : list GraphModule) : list (string * TUrl) :=
  foldl (fun m u => alist_insert (without_extension (turl_str (specifier u))) (specifier u) m) [] modules.

(** JavaScript is what it was compiled to. *)
Definition add_source (w : list (string * string)) (m : GraphModule) : result (list (string * string)) :=
  match media_type m with
  | JavaScript | Mjs => source ← unwrap_or_panic (maybe_source m); Ok (alist_insert (turl_str (specifier m)) source w)
  | OtherMedia => Ok w
  end.

Definition collect (urls : list TUrl) (prefix_map : list (string * TUrl)) (ret : list (TUrl * string * bool))
    (kv : string * string) : result (list (TUrl * string * bool)) :=
  let (k, v) := kv in
  if starts_with k "chisel://" then Ok ret
  else
    let is_dts := ends_with k ".d.ts" in
    source ← unwrap (alist_get (without_extension k) prefix_map) "no entry found for key";
    if is_dts && negb (existsb (fun u => String.eqb (turl_str u) (turl_str source)) urls) then Ok ret
    else Ok (ret ++ [(source, v, is_dts)]).

Definition results (urls : list TUrl) (map : DownloadMap) : result (list (TUrl * string * bool)) :=
  if negb (str_is_empty (diagnostics map)) then bail ("Compilation failed:" +:+ newline +:+ diagnostics map)
  else
    let modules := graph_modules (graph map) in
    written ← foldM add_source (written map) modules;
    foldM (collect urls (prefix_map_of modules)) [] written.

(** ** Compiling *)

(** Up to the end of the compiler. *)
Definition run_compiler (urls : list TUrl) (opts : CompileOptions) : result DownloadMap :=
  libs ← mapM (fun kv : string * string => url ← lib_url kv.1; Ok (kv.1, url, kv.2)) (extra_libs opts);
  let by_url := foldl (fun m (l : string * TUrl * string) => alist_insert (turl_str l.1.2) l.2 m) [] libs in
  let to_url := fst <$> libs in
  extra_default_lib ← match extra_default_lib opts with
                      | Some path => p ← abs path; Ok (Some ("file://" +:+ p))
                      | None => Ok None
                      end;
  let graph := create_graph urls extra_default_lib (load_url by_url) (resolver to_url) in
  _ ← match graph_valid graph with Some err => Err (graph_error err) | None => Ok tt end;
  run_tsc (DownloadMap_new graph (import_all (graph_modules graph)))
    (tsc ROOT_URL (is_worker opts) extra_default_lib (emit_declarations opts)).

Definition compile_urls (urls : list TUrl) (opts : CompileOptions) : result (list (TUrl * string * bool)) :=
  map ← run_compiler urls opts;
  results urls map.

(** The files that were asked for are under the texts of their URLs. *)

(** The first of the files to which the module can be made relative, in the order of the
    table. *)
Fixpoint find_relative (urls : list (string * (TUrl * string))) (source : TUrl) : option (string * string) :=
  match urls with
  | [] => None
  | (_, (url, name)) :: urls =>
      match make_relative url source with Some rel => Some (rel, name) | None => find_relative urls source end
  end.

Definition name_of (url_to_name : list (string * (TUrl * string))) (source : TUrl) : result string :=
  match alist_get (turl_str source) url_to_name with
  | Some (_, n) => Ok n
  | None =>
      match find_relative url_to_name source with
      | Some (rel, n) => dir_path ← unwrap_or_panic (path_parent n); join_path dir_path rel
      | None => Ok (turl_str source)
      end
  end.

Definition add_output (url_to_name : list (string * (TUrl * string))) (ret : list (string * string)) (c : TUrl * string * bool)
    : result (list (string * string)) :=
  let '(source, v, is_dts) := c in
  source ← name_of url_to_name source;
  let key := if is_dts then without_extension source +:+ ".d.ts" else source in
  Ok (alist_insert key v ret).

Definition file_url (name : string) : result (TUrl * string) :=
  p ← abs name;
  match turl_parse ("file://" +:+ p) with Some url => Ok (url, name) | None => bail "invalid URL" end.

Definition compile_ts_code (file_names : list string) (opts : CompileOptions) : result (list (string * string)) :=
  urls ← mapM file_url file_names;
  let url_to_name := foldl (fun m (e : TUrl * string) => alist_insert (turl_str e.1) e m) [] urls in
  compiled ← compile_urls (fst <$> urls) opts;
  foldM (add_output url_to_name) [] compiled.

(** ** Endpoints ([endpoint_tsc/src/lib.rs])

    The types of the API are modules under their names; [sources_d_ts] is the generated
    table of them. *)
Definition compile_endpoint (sources_d_ts : list (string * string)) (url : TUrl) : result (list (TUrl * string * bool)) :=
  let mods := foldl (fun m (kv : string * string) => alist_insert kv.1 kv.2 m)
                [("@chiselstrike/api", "export * from 'chisel://api/api.ts';")] sources_d_ts in
  let opts := {| extra_default_lib := None; extra_libs := mods; emit_declarations := false; is_worker := false |} in
  with_context (compile_urls [url] opts) "Could not compile TypeScript".
End Tsc.
