(* ===== verification/TscSpec.v ===== *)
(** * What the wrapper of the compiler gives back

    Paths are joined as lists of names are, and every result belongs to the module
    it was made from, if no two modules are called alike. *)

From S2P Require Import Prelude EntityValue Project ProjectSpec Tsc.

(** ** Paths *)

(** The name of a file or directory. *)
Definition name (x : string) : Prop := plain_name x /\ x <> "..".

(** An absolute path in its shortest form. *)
Fixpoint path_tail (l : list string) : string :=
  match l with [] => "" | x :: l => ("/" +:+ x) +:+ path_tail l end.
Definition render (l : list string) : string := match l with [] => "/" | _ => path_tail l end.

(** Where a relative path leads from a directory: up at [".."], unless there is nothing
    above, and down otherwise. *)
Fixpoint walk (l : list string) (rel : list string) : option (list string) :=
  match rel with
  | [] => Some l
  | c :: rel =>
      if String.eqb c ".." then match rev l with [] => None | _ :: up => walk (rev up) rel end
      else walk (l ++ [c]) rel
  end.

Lemma path_tail_snoc l x : path_tail (l ++ [x]) = path_tail l +:+ "/" +:+ x.
Proof.
  induction l as [|y l IH]; cbn [app path_tail]; [by rewrite str_app_nil_r|]. by rewrite IH, <- (str_app_assoc ("/" +:+ y)).
Qed.

Lemma render_snoc l x : render (l ++ [x]) = path_tail l +:+ String "/"%char x.
Proof. transitivity (path_tail (l ++ [x])); [unfold render; by destruct l|apply path_tail_snoc]. Qed.

Lemma render_split l x : no_char "/"%char x -> rsplit_once "/"%char (render (l ++ [x])) = Some (path_tail l, x).
Proof. intros H. rewrite render_snoc. by apply rsplit_once_last. Qed.

Lemma trim_path_render l x : name x -> trim_path (render (l ++ [x])) = render (l ++ [x]).
Proof.
  intros [(He & Hd & Hs) _]. pose proof (render_split l x Hs) as Hr. unfold trim_path.
  destruct (String.length _) as [|n]; [done|]. cbn [trim_path_fuel].
  destruct (String.eqb_spec (render (l ++ [x])) "/") as [E|_]; [by rewrite E|].
  destruct (strip_suffix "/" (render (l ++ [x]))) as [r|] eqn:E1.
  { apply strip_suffix_some in E1. rewrite E1, rsplit_once_last in Hr by intros []. congruence. }
  destruct (strip_suffix "/." (render (l ++ [x]))) as [r|] eqn:E2; [|done].
  apply strip_suffix_some in E2. rewrite E2 in Hr. change "/." with (String "/" ".") in Hr.
  rewrite rsplit_once_last in Hr by (intros [H|[]]; discriminate H). congruence.
Qed.

Lemma parent_render l x : name x -> Forall name l -> path_parent (render (l ++ [x])) = Some (render l).
Proof.
  intros Hx Hl. unfold path_parent. rewrite trim_path_render by done. pose proof Hx as [(_ & _ & Hs) _].
  rewrite (render_split l x Hs). rewrite render_snoc.
  destruct (str_is_empty _) eqn:E; [by destruct l; cbn in E|]. clear E.
  destruct (String.eqb_spec (path_tail l +:+ String "/" x) "/") as [E|_]; cbn [orb].
  { exfalso. apply (f_equal (rsplit_once "/"%char)) in E. rewrite rsplit_once_last in E by done.
    injection E as _ ->. by destruct Hx as [[] _]. }
  destruct l as [|y l _] using rev_ind; [done|]. apply Forall_app in Hl as [_ Hy]. rewrite Forall_singleton in Hy.
  pose proof (trim_path_render l y Hy) as Ht. rewrite render_snoc in Ht. rewrite path_tail_snoc, render_snoc.
  destruct (str_is_empty _) eqn:E; [by destruct l; cbn in E|]. by f_equal.
Qed.

Lemma ends_with_sep l x : name x -> ends_with (render (l ++ [x])) "/" = false.
Proof.
  intros [(He & _ & Hs) _]. destruct (ends_with _ _) eqn:E; [|done].
  assert (strip_suffix "/" (render (l ++ [x])) <> None) as H by (unfold strip_suffix; by rewrite E).
  destruct (strip_suffix "/" _) as [r|] eqn:Er; [|done]. apply strip_suffix_some in Er.
  pose proof (render_split l x Hs) as Hr. rewrite Er, rsplit_once_last in Hr by intros []. congruence.
Qed.

Lemma join_render l x : name x -> Forall name l -> join (render l) x = render (l ++ [x]).
Proof.
  intros Hx Hl. rewrite render_snoc. unfold join. rewrite (plain_relative x) by apply Hx.
  destruct l as [|y l _] using rev_ind; [done|]. apply Forall_app in Hl as [_ Hy]. rewrite Forall_singleton in Hy.
  rewrite ends_with_sep by done. rewrite render_snoc, path_tail_snoc.
  destruct (str_is_empty _) eqn:E; [by destruct l; cbn in E|]. done.
Qed.

Lemma components_plain p : Forall plain_name (components p).
Proof.
  apply Forall_forall. intros x Hx. unfold components in Hx. apply elem_of_List_filter in Hx as [Hx Hc].
  apply split_on_no_sep_in in Hx. apply negb_true_iff, orb_false_iff in Hc as [H1%String.eqb_neq H2%String.eqb_neq].
  by repeat split.
Qed.

Lemma join_components l rel : Forall name l -> Forall plain_name rel ->
  foldM join_component (render l) rel =
  match walk l rel with Some l => Ok (render l) | None => Panic "assertion failed: base.pop()" end.
Proof.
  intros Hl Hrel. revert l Hl. induction Hrel as [|c rel Hc _ IH]; intros l Hl; [done|]. cbn [foldM walk].
  destruct (String.eqb_spec c "..") as [->|Hne].
  - destruct l as [|y l _] using rev_ind; [done|]. rewrite rev_app_distr. cbn [rev app]. rewrite rev_involutive.
    apply Forall_app in Hl as [Hl Hy]. rewrite Forall_singleton in Hy.
    assert (join_component (render (l ++ [y])) ".." = Ok (render l)) as ->; [|by apply IH].
    unfold join_component, pop. by rewrite parent_render.
  - assert (join_component (render l) c = Ok (render (l ++ [c]))) as ->.
    { unfold join_component. rewrite (proj2 (String.eqb_neq _ _) Hne). by rewrite join_render. }
    apply IH. apply Forall_app. split; [done|]. by apply Forall_singleton.
Qed.

(** A relative path is joined to an absolute one as a walk through directories: up at
    [..] and down at names, past dots and doubled separators; the program panics
    exactly where the walk would leave the root. *)
Theorem join_path_spec base rel : Forall name base -> is_relative rel = true ->
  join_path (render base) rel =
  match walk base (components rel) with Some l => Ok (render l) | None => Panic "assertion failed: base.pop()" end.
Proof. intros Hb Hr. unfold join_path. rewrite Hr. apply join_components; [done|apply components_plain]. Qed.

Lemma join_path_spec_witness :
  join_path "/home/app" "./routes//../models/./a.ts" = Ok "/home/app/models/a.ts" /\
  join_path "/home/app" "../../.." = Panic "assertion failed: base.pop()".
Proof.
  assert (Forall name ["home"; "app"]) as H.
  { repeat constructor; try done; intros H; repeat destruct H as [H|H]; done. }
  split; [exact (join_path_spec ["home"; "app"] "./routes//../models/./a.ts" H eq_refl)|].
  exact (join_path_spec ["home"; "app"] "../../.." H eq_refl).
Defined.

(** From a relative path the walk ends, or goes wrong, before the root. *)
Lemma relative_base_panics : join_path "tests" "../../b.ts" = Panic "assertion failed: base.pop()".
Proof. reflexivity. Qed.
Lemma relative_base_forgets : join_path ".." "../b.ts" = Ok "b.ts".
Proof. reflexivity. Qed.

(** ** Results *)

Lemma alist_insert_nodup {A} k (v : A) l : NoDup l.*1 -> NoDup (alist_insert k v l).*1.
Proof.
  induction l as [|[k' v'] l IH]; cbn; [intros _; apply NoDup_singleton|].
  intros [Hk Hl]%NoDup_cons. destruct (String.eqb_spec k k') as [->|Hne]; cbn; apply NoDup_cons; [done|].
  split; [|auto]. rewrite alist_insert_keys. by intros [->|?].
Qed.

Section Results.
Context `{TU : TscUrls} {TL : TscLib}.

Lemma run_tsc_graph r map map' : run_tsc map r = Ok map' -> NoDup (written map).*1 ->
  graph map' = graph map /\ NoDup (written map').*1.
Proof.
  revert map. induction r as [|path base k IH|path k IH|path content k IH|msg k IH]; intros map H Hnd; cbn in H.
  - by injection H as <-.
  - destruct (resolve_impl map path base); [..|done]; by eapply IH.
  - destruct (read_impl map path); [..|done]; by eapply IH.
  - destruct (IH _ H) as [? ?]; [by apply alist_insert_nodup|done].
  - by destruct (IH _ H).
Qed.

Lemma run_tsc_kept r map map' : run_tsc map r = Ok map' -> graph map' = graph map /\ root_code map' = root_code map.
Proof.
  revert map. induction r as [|path base k IH|path k IH|path content k IH|msg k IH]; intros map H; cbn in H.
  - by injection H as <-.
  - destruct (resolve_impl map path base); [..|done]; by eapply IH.
  - destruct (read_impl map path); [..|done]; by eapply IH.
  - by destruct (IH _ H).
  - by destruct (IH _ H).
Qed.

(** The text of a JavaScript module, of the last of that URL. *)
Definition is_js (m : GraphModule) : bool := match media_type m with OtherMedia => false | _ => true end.
Definition js_source (k : string) (m : GraphModule) : option string :=
  if is_js m && String.eqb (turl_str (specifier m)) k then maybe_source m else None.
Definition js_text (modules : list GraphModule) (k : string) : option string := last (omap (js_source k) modules).

(** What a URL is compiled to: JavaScript stays what it is. *)
Definition text_of (map : DownloadMap) (k : string) : option string :=
  match js_text (graph_modules (graph map)) k with Some s => Some s | None => alist_get k (written map) end.

Lemma last_app_some {A} (l : list A) o : last (l ++ option_list o) = match o with Some x => Some x | None => last l end.
Proof. destruct o; cbn; [apply last_snoc|by rewrite app_nil_r]. Qed.

Lemma add_sources modules w w' : foldM add_source w modules = Ok w' -> NoDup w.*1 ->
  NoDup w'.*1 /\ forall k, alist_get k w' = match js_text modules k with Some s => Some s | None => alist_get k w end.
Proof.
  intros H Hnd. revert H. apply (foldM_inv add_source (fun before s => NoDup s.*1 /\
    forall k, alist_get k s = match js_text before k with Some t => Some t | None => alist_get k w end)); [by split|].
  intros before m s1 s2 [Hn Hg] H.
  assert (forall k, js_text (before ++ [m]) k = match js_source k m with Some s => Some s | None => js_text before k end) as Hj.
  { intros k. unfold js_text. rewrite omap_app. cbn. rewrite <- last_app_some. by destruct (js_source k m). }
  assert (s2 = s1 /\ is_js m = false \/ exists s, maybe_source m = Some s /\ is_js m = true /\ s2 = alist_insert (turl_str (specifier m)) s s1)
    as [[-> Hm]|(s & Hs & Hm & ->)].
  { unfold add_source, is_js in *. destruct (media_type m); [| |by left; injection H as <-];
      right; destruct (maybe_source m) as [s|]; [|done| |done]; exists s; by injection H as <-. }
  - split; [done|]. intros k. by rewrite Hj, Hg; unfold js_source; rewrite Hm.
  - split; [by apply alist_insert_nodup|]. intros k. rewrite Hj, alist_get_insert, Hg. unfold js_source. rewrite Hm, Hs.
    cbn [andb]. rewrite (String.eqb_sym k). by destruct (String.eqb _ k).
Qed.

(** The module something was made from: the last whose URL differs in its extension only. *)
Definition has_prefix (p : string) (m : GraphModule) : bool := String.eqb (without_extension (turl_str (specifier m))) p.
Definition module_of (modules : list GraphModule) (k : string) : option TUrl :=
  specifier <$> last (List.filter (has_prefix (without_extension k)) modules).

Lemma prefix_map_get modules p :
  alist_get p (prefix_map_of modules) = specifier <$> last (List.filter (has_prefix p) modules).
Proof.
  unfold prefix_map_of. induction modules as [|m modules IH] using rev_ind; [done|].
  rewrite foldl_app, List.filter_app. cbn [foldl List.filter]. rewrite alist_get_insert, IH.
  change (has_prefix p m) with (String.eqb (without_extension (turl_str (specifier m))) p). rewrite (String.eqb_sym p).
  destruct (String.eqb _ p); [by rewrite last_snoc|by rewrite app_nil_r].
Qed.

Definition asked_for (urls : list TUrl) (source : TUrl) : Prop := exists u, u ∈ urls /\ turl_str u = turl_str source.

Lemma asked_for_existsb urls source :
  existsb (fun u => String.eqb (turl_str u) (turl_str source)) urls = true <-> asked_for urls source.
Proof.
  rewrite existsb_exists. unfold asked_for. setoid_rewrite list_elem_of_In. by setoid_rewrite String.eqb_eq.
Qed.

(** One result: what it is made of and from. *)
Definition result_of (urls : list TUrl) (modules : list GraphModule) (k : string) (source : TUrl) (is_dts : bool) : Prop :=
  starts_with k "chisel://" = false /\ is_dts = ends_with k ".d.ts" /\ module_of modules k = Some source /\
  (is_dts = true -> asked_for urls source).

Lemma collect_spec urls modules ret kv ret' : collect urls (prefix_map_of modules) ret kv = Ok ret' ->
  forall source v is_dts, (source, v, is_dts) ∈ ret' <-> (source, v, is_dts) ∈ ret \/ v = kv.2 /\ result_of urls modules kv.1 source is_dts.
Proof.
  destruct kv as [k v0]. unfold collect, result_of. cbn [fst snd]. intros H source v is_dts.
  destruct (starts_with k "chisel://"); [injection H as <-; naive_solver|].
  rewrite prefix_map_get in H. unfold module_of.
  destruct (last _) as [m|]; [|done]. cbn [fmap option_fmap option_map unwrap mbind outcome_bind] in H |- *.
  pose proof (asked_for_existsb urls (specifier m)) as Ha.
  destruct (ends_with k ".d.ts") eqn:Ed; cbn [andb] in H.
  - destruct (existsb _ urls); cbn [negb] in H; injection H as <-.
    + rewrite elem_of_app, list_elem_of_singleton. naive_solver.
    + split; [by left|]. intros [?|(_ & _ & -> & [= <-] & Hr)]; [done|]. discriminate (proj2 Ha (Hr eq_refl)).
  - injection H as <-. rewrite elem_of_app, list_elem_of_singleton. naive_solver.
Qed.

Lemma collect_all urls modules w ret : foldM (collect urls (prefix_map_of modules)) [] w = Ok ret ->
  forall source v is_dts, (source, v, is_dts) ∈ ret <-> exists k, (k, v) ∈ w /\ result_of urls modules k source is_dts.
Proof.
  apply (foldM_inv (collect urls (prefix_map_of modules)) (fun before ret => forall source v is_dts,
    (source, v, is_dts) ∈ ret <-> exists k, (k, v) ∈ before /\ result_of urls modules k source is_dts)).
  { intros source v is_dts. split; [by intros ?%elem_of_nil|by intros (? & ?%elem_of_nil & _)]. }
  intros before [k v0] s1 s2 Hs H source v is_dts. rewrite (collect_spec _ _ _ _ _ H), Hs. cbn [fst snd].
  setoid_rewrite elem_of_app. setoid_rewrite list_elem_of_singleton. naive_solver.
Qed.

Lemma results_collected urls map out : NoDup (written map).*1 -> results urls map = Ok out ->
  diagnostics map = "" /\ forall source v is_dts, (source, v, is_dts) ∈ out <->
    exists k, text_of map k = Some v /\ result_of urls (graph_modules (graph map)) k source is_dts.
Proof.
  intros Hnd H. unfold results in H. destruct (diagnostics map); [|done]. split; [done|]. cbn [str_is_empty negb] in H.
  destruct (foldM add_source _ _) as [w| |] eqn:Ew; try done. cbn [mbind outcome_bind] in H.
  destruct (add_sources _ _ _ Ew Hnd) as [Hw Hget]. intros source v is_dts. rewrite (collect_all _ _ _ _ H).
  unfold text_of. setoid_rewrite <- Hget. split; intros (k & Hk & Hr); exists k; (split; [|done]).
  - by apply alist_get_in.
  - by apply alist_get_some_in.
Qed.

(** What the compiler does, as it is answered from the graph: the files it writes, one
    after the other, and what it has to say. *)
Fixpoint outputs (g : DownloadMap) (r : TscRun) : list (string * string) :=
  match r with
  | TscDone => []
  | TscResolve path base k => outputs g (k (resolve_impl g path base))
  | TscRead path k => outputs g (k (read_impl g path))
  | TscWrite path content k => (path, content) :: outputs g k
  | TscDiagnostic _ k => outputs g k
  end.
Fixpoint messages (g : DownloadMap) (r : TscRun) : list string :=
  match r with
  | TscDone => []
  | TscResolve path base k => messages g (k (resolve_impl g path base))
  | TscRead path k => messages g (k (read_impl g path))
  | TscWrite _ _ k => messages g k
  | TscDiagnostic msg k => msg :: messages g k
  end.
Definition last_output (k : string) (l : list (string * string)) : option string :=
  last (omap (fun kv => if String.eqb kv.1 k then Some kv.2 else None) l).

Lemma last_cons_default {A} (x : A) l : last (x :: l) = Some (default x (last l)).
Proof. revert x. induction l as [|y l IH]; intros x; [done|]. cbn [last]. rewrite IH. by destruct l. Qed.

Lemma answers_agree map g : graph map = graph g -> root_code map = root_code g ->
  (forall path base, resolve_impl map path base = resolve_impl g path base) /\
  (forall path, read_impl map path = read_impl g path).
Proof. intros Hg Hr. unfold resolve_impl, read_impl. by rewrite Hg, Hr. Qed.

Lemma run_tsc_outputs g r map map' : run_tsc map r = Ok map' -> graph map = graph g -> root_code map = root_code g ->
  NoDup (written map).*1 ->
  (forall k, alist_get k (written map') =
     match last_output k (outputs g r) with Some v => Some v | None => alist_get k (written map) end) /\
  diagnostics map' = default (diagnostics map) (last (messages g r)).
Proof.
  revert map. induction r as [|path base k IH|path k IH|path content k IH|msg k IH]; intros map H Hg Hr Hnd; cbn in H;
    destruct (answers_agree map g Hg Hr) as [Ha1 Ha2]; cbn [outputs messages].
  - by injection H as <-.
  - rewrite Ha1 in H. destruct (resolve_impl g path base); [..|done]; by apply IH.
  - rewrite Ha2 in H. destruct (read_impl g path); [..|done]; by apply IH.
  - destruct (IH _ H) as [Hw Hd]; [done|done|by apply alist_insert_nodup|]. split; [|exact Hd]. intros q. rewrite Hw.
    unfold last_output. cbn [omap list_omap write_impl set_written written fst snd]. rewrite alist_get_insert.
    rewrite (String.eqb_sym q). destruct (String.eqb path q); [|done].
    rewrite last_cons_default. change (omap ?f (outputs g k)) with (list_omap _ _ f (outputs g k)).
    by match goal with |- match ?x with _ => _ end = _ => destruct x end.
  - destruct (IH _ H) as [Hw Hd]; [done|done|done|]. split; [exact Hw|]. rewrite Hd, last_cons_default. done.
Qed.

(** The additional library, under its URL. *)
Definition default_lib (opts : CompileOptions) (lib : option string) : Prop :=
  match extra_default_lib opts with
  | Some path => exists p, abs path = Ok p /\ lib = Some ("file://" +:+ p)
  | None => lib = None
  end.

Lemma run_compiler_runs urls opts map lib : run_compiler urls opts = Ok map -> default_lib opts lib ->
  run_tsc (DownloadMap_new (graph map) (root_code map)) (tsc ROOT_URL (is_worker opts) lib (emit_declarations opts)) = Ok map.
Proof.
  unfold run_compiler, default_lib. intros H Hlib. apply bind_ok in H as (libs & _ & H). apply bind_ok in H as (dl & Hdl & H).
  assert (dl = lib) as ->.
  { destruct (extra_default_lib opts); [|by injection Hdl as <-]. destruct Hlib as (p & Hp & ->).
    rewrite Hp in Hdl. by injection Hdl as <-. }
  apply bind_ok in H as (u & _ & H). pose proof (run_tsc_kept _ _ _ H) as [Hg Hr]. cbn in Hg, Hr. by rewrite Hg, Hr.
Qed.

(** What a module is called without its extension. *)
Definition stem (m : GraphModule) : string := without_extension (turl_str (specifier m)).

Lemma stem_unique modules m m' : NoDup (stem <$> modules) -> m ∈ modules -> m' ∈ modules -> stem m = stem m' -> m = m'.
Proof.
  intros Hnd (i & Hi)%list_elem_of_lookup (j & Hj)%list_elem_of_lookup He.
  assert (i = j) as <-; [|congruence]. eapply NoDup_lookup; [exact Hnd|by rewrite list_lookup_fmap, Hi|].
  rewrite list_lookup_fmap, Hj. by apply (f_equal Some).
Qed.

Lemma last_in {A} (l : list A) x : last l = Some x -> x ∈ l.
Proof. intros H. apply last_Some in H as [l' ->]. apply elem_of_app. right. by apply list_elem_of_singleton. Qed.

Lemma module_of_unique modules k source : NoDup (stem <$> modules) ->
  module_of modules k = Some source <-> exists m, m ∈ modules /\ source = specifier m /\ stem m = without_extension k.
Proof.
  intros Hnd. unfold module_of. split.
  - intros (m & Hm & ->)%fmap_Some. apply last_in, elem_of_List_filter in Hm as [Hm Hp].
    exists m. split; [done|]. split; [done|]. by apply String.eqb_eq.
  - intros (m & Hm & -> & Hs). assert (m ∈ List.filter (has_prefix (without_extension k)) modules) as Hin.
    { apply elem_of_List_filter. split; [done|]. by apply String.eqb_eq. }
    destruct (last (List.filter (has_prefix (without_extension k)) modules)) as [m'|] eqn:E.
    + apply last_in, elem_of_List_filter in E as [Hm' Hp%String.eqb_eq]. cbn. do 2 f_equal.
      eapply stem_unique; [exact Hnd|done..|]. unfold stem in *. congruence.
    + apply last_None in E. rewrite E in Hin. by apply elem_of_nil in Hin.
Qed.

Lemma js_source_stem k m s : js_source k m = Some s -> stem m = without_extension k.
Proof.
  unfold js_source, stem. destruct (is_js m); [|done]. cbn [andb].
  by destruct (String.eqb_spec (turl_str (specifier m)) k) as [->|].
Qed.

Lemma js_text_unique modules k : NoDup (stem <$> modules) ->
  (forall v, js_text modules k = Some v <-> exists m, m ∈ modules /\ js_source k m = Some v) /\
  (js_text modules k = None <-> forall m, m ∈ modules -> js_source k m = None).
Proof.
  intros Hnd. assert (forall v, js_text modules k = Some v <-> exists m, m ∈ modules /\ js_source k m = Some v) as H.
  { intros v. unfold js_text. split.
    - intros (m & Hm & Hs)%last_in%list_elem_of_omap. eauto.
    - intros (m & Hm & Hs). assert (v ∈ omap (js_source k) modules) as Hin by (apply list_elem_of_omap; eauto).
      destruct (last (omap (js_source k) modules)) as [v'|] eqn:E.
      + apply last_in, list_elem_of_omap in E as (m' & Hm' & Hs').
        assert (m' = m) as ->; [|congruence]. eapply stem_unique; [exact Hnd|done..|].
        by rewrite (js_source_stem _ _ _ Hs), (js_source_stem _ _ _ Hs').
      + apply last_None in E. rewrite E in Hin. by apply elem_of_nil in Hin. }
  split; [done|]. split.
  - intros Hn m Hm. destruct (js_source k m) as [v|] eqn:E; [|done].
    assert (js_text modules k = Some v) by (apply H; eauto). congruence.
  - intros Hall. destruct (js_text modules k) as [v|] eqn:E; [|done]. destruct (proj1 (H v) eq_refl) as (m & Hm & Hs).
    by rewrite (Hall m Hm) in Hs.
Qed.

(** What a URL is compiled to: the source of the JavaScript module with that URL, or what
    the compiler wrote there last. *)
Definition compiled_to (modules : list GraphModule) (written : list (string * string)) (k v : string) : Prop :=
  (exists m, m ∈ modules /\ js_source k m = Some v) \/
  (forall m, m ∈ modules -> js_source k m = None) /\ last_output k written = Some v.

(** C33: A compilation gives back the compiled text of every module under that module.
    Where no two modules of the graph have URLs that differ in their extension only:
    a result is there exactly when it is the text of a URL, not an internal one,
    which differs from the URL of the module in its extension only, and is
    declarations only of a module that was asked for.  The text is the source, for a
    JavaScript module, and otherwise what the compiler wrote there last.  When the
    compiler has something to say the compilation fails with its last message.  (Two
    modules that differ in their extension only are mixed up:
    [same_prefix_loses].) *)
Theorem compile_urls_spec urls opts map lib : run_compiler urls opts = Ok map -> default_lib opts lib ->
  let modules := graph_modules (graph map) in
  let loaded := DownloadMap_new (graph map) (root_code map) in
  let run := tsc ROOT_URL (is_worker opts) lib (emit_declarations opts) in
  NoDup (stem <$> modules) ->
  (forall msg, last (messages loaded run) = Some msg -> msg <> "" ->
     compile_urls urls opts = bail ("Compilation failed:" +:+ newline +:+ msg)) /\
  (forall out, compile_urls urls opts = Ok out ->
     forall source v is_dts, (source, v, is_dts) ∈ out <->
       exists k m, compiled_to modules (outputs loaded run) k v /\ starts_with k "chisel://" = false /\
         m ∈ modules /\ source = specifier m /\ stem m = without_extension k /\
         is_dts = ends_with k ".d.ts" /\ (is_dts = true -> asked_for urls source)).
Proof.
  intros Hrun Hlib modules loaded run Hdistinct.
  pose proof (run_compiler_runs _ _ _ _ Hrun Hlib) as Htsc. fold loaded run in Htsc.
  destruct (run_tsc_outputs loaded run loaded map Htsc eq_refl eq_refl) as [Hw Hd]; [apply NoDup_nil_2|].
  destruct (run_tsc_graph _ _ _ Htsc) as [_ Hnd]; [apply NoDup_nil_2|].
  unfold compile_urls. rewrite Hrun. cbn [mbind outcome_bind]. split.
  - intros msg Hm Hne. rewrite Hm in Hd. cbn in Hd. unfold results. rewrite Hd. by destruct msg.
  - intros out Hout source v is_dts. destruct (results_collected _ _ _ Hnd Hout) as [_ Hiff]. rewrite Hiff.
    assert (forall k, text_of map k = Some v <-> compiled_to modules (outputs loaded run) k v) as Htext.
    { intros k. destruct (js_text_unique modules k Hdistinct) as [H1 H2]. unfold text_of, compiled_to. fold modules.
      rewrite <- H1, <- H2, Hw. cbn [loaded DownloadMap_new written alist_get].
      destruct (js_text modules k) as [s|], (last_output k (outputs loaded run)); naive_solver. }
    setoid_rewrite Htext. unfold result_of. fold modules. setoid_rewrite (module_of_unique modules _ source Hdistinct).
    naive_solver.
Qed.
End Results.

(** ** A compilation *)

Module TscSample.
#[export] Instance urls : TscUrls :=
  {| TUrl := string; turl_parse s := Some s; turl_str s := s;
     turl_scheme s := match split_once ":"%char s with Some (scheme, _) => scheme | None => "" end;
     to_file_path s := strip_prefix "file://" s; make_relative _ _ := None; resolve_import s _ := Ok s |}.

(** The module [a.ts] imports a JavaScript module; [loaded] is where that is. *)
Definition graph_of (loaded : string) (load : string -> result string) : ModuleGraph :=
  {| graph_modules := [ {| specifier := "file:///a.ts" : TUrl; media_type := OtherMedia; maybe_source := ok_option (load "file:///a.ts") |};
                        {| specifier := loaded : TUrl; media_type := JavaScript; maybe_source := ok_option (load loaded) |} ];
     resolve_dependency _ _ := Some loaded; try_get _ := Ok None; graph_valid := None |}.

Definition lib (imported : string) : TscLib :=
  {| tsc root _ _ declarations :=
       TscRead root (fun _ => TscWrite "file:///a.js" "compiled" (if declarations then TscWrite "file:///a.d.ts" "types" TscDone else TscDone));
     create_graph _ _ load _ := graph_of imported load;
     read_to_string path := Ok ("text of " +:+ path); get_ok_text _ := bail "no network"; env_current_dir := Ok "/" |}.

Definition opts : CompileOptions :=
  {| extra_default_lib := None; extra_libs := [("@chiselstrike/api", "export {}")]; emit_declarations := true; is_worker := false |}.

Definition url (s : string) : TUrl (TscUrls := urls) := s.
Definition asked : list TUrl := [url "file:///a.ts"].

(** [run_compiler] with [b.js] imported. *)
Definition map : DownloadMap :=
  {| written := [("file:///a.js", "compiled"); ("file:///a.d.ts", "types")];
     graph := graph_of "file:///b.js" (load_url (TL := lib "file:///b.js") [("chisel://api/@chiselstrike/api.ts", "export {}")]);
     root_code := import_all (graph_modules (graph_of "file:///b.js" (load_url (TL := lib "file:///b.js") [])));
     diagnostics := "" |}.

Lemma ran : run_compiler (TL := lib "file:///b.js") asked opts = Ok map.
Proof. reflexivity. Qed.
End TscSample.

Lemma sample_stems : NoDup (stem <$> graph_modules (graph TscSample.map)).
Proof. apply (bool_decide_unpack _). vm_compute. exact I. Qed.

Lemma compile_urls_spec_witness :
  compile_urls (TL := TscSample.lib "file:///b.js") TscSample.asked TscSample.opts =
    Ok [(TscSample.url "file:///a.ts", "compiled", false); (TscSample.url "file:///a.ts", "types", true); (TscSample.url "file:///b.js", "text of /b.js", false)] /\
  exists k m, compiled_to (graph_modules (graph TscSample.map)) [("file:///a.js", "compiled"); ("file:///a.d.ts", "types")] k "types" /\
    m ∈ graph_modules (graph TscSample.map) /\ specifier m = TscSample.url "file:///a.ts" /\ stem m = without_extension k.
Proof.
  split; [reflexivity|].
  destruct (compile_urls_spec (TL := TscSample.lib "file:///b.js") TscSample.asked TscSample.opts TscSample.map None
    TscSample.ran eq_refl sample_stems) as [_ H].
  destruct (proj1 (H _ eq_refl (TscSample.url "file:///a.ts") "types" true) ltac:(right; left)) as (k & m & H1 & _ & H2 & H3 & H4 & _).
  exists k, m. split; [exact H1|]. split; [exact H2|]. split; [by symmetry|exact H4].
Defined.

(** A module and the JavaScript module next to it that it imports are one: what the first
    was compiled to is lost. *)
Lemma same_prefix_loses :
  compile_urls (TL := TscSample.lib "file:///a.js") TscSample.asked TscSample.opts =
    Ok [(TscSample.url "file:///a.js", "text of /a.js", false)].
Proof. reflexivity. Qed.
