(* ===== verification/Cli.v ===== *)
(** * The command line interface ([cli/src/main.rs], [cmd/dev.rs], [project.rs], [cmd/apply/node.rs])

    What is left of the commands: the arguments for the server, the printing of
    versions, the creation of a project, the watching of its files, and the build in
    the style of Node, in which compilers run next to the program.  The theorems
    are in [CliSpec]. *)

From S2P Require Import Prelude Json Apply Rpc Models Project CliApply.

(** ** Arguments *)

Fixpoint take_while {A} (f : A -> bool) (l : list A) : list A :=
  match l with x :: l => if f x then x :: take_while f l else [] | [] => [] end.
Fixpoint skip_while {A} (f : A -> bool) (l : list A) : list A :=
  match l with x :: l' => if f x then skip_while f l' else l | [] => [] end.

Definition not_separator (arg : string) : bool := negb (String.eqb arg "--").
Definition chisel_args (args : list string) : list string := take_while not_separator args.
Definition chiseld_args (args : list string) : list string := List.skipn 1 (skip_while not_separator args).
(** And those that [chisel dev] adds. *)
Definition dev_args (inspect : bool) (chiseld_args : list string) : list string :=
  chiseld_args ++ ["--debug"] ++ (if inspect then ["--inspect"] else []).

Definition parse_version (version : string) : result string :=
  _ ← ensure (negb (str_is_empty version)) "version name can't be empty"; Ok version.

Inductive GenerateMode := Deno | Node.
Definition parse_generate_mode (mode : string) : result GenerateMode :=
  if String.eqb mode "deno" then Ok Deno
  else if String.eqb mode "node" then Ok Node
  else bail "allowed generate modes are 'deno' and 'node'".

(** ** Descriptions *)

(** [FieldDefinition::field_type] *)
Definition field_type (field : FieldDefinition) : result TypeEnum :=
  match def_field_type field with
  | None => bail ("field_type of field '" +:+ def_name field +:+ "' is None")
  | Some (mkTypeMsg None) => bail ("type_enum of field '" +:+ def_name field +:+ "' is None")
  | Some (mkTypeMsg (Some t)) => Ok t
  end.

(** [String::pop] on ASCII *)
Definition str_pop (s : string) : string := str_take (String.length s - 1) s.

Definition describe_labels (labels : list string) : string :=
  match labels with
  | [] => ""
  | _ =>
      let text := String.concat "" ((fun x => quoted x +:+ ", ") <$> labels) in
      "@labels(" +:+ str_pop (str_pop text) +:+ ") "
  end.

Definition describe_line (field : FieldDefinition) : result string :=
  field_type ← field_type field;
  text ← type_enum_display field_type;
  let default_text :=
    match def_default_value field with
    | Some d => match field_type with TeString => " = " +:+ quoted d | _ => " = " +:+ d end
    | None => ""
    end in
  Ok ("    " +:+ (if def_is_unique field then "@unique " else "") +:+ describe_labels (def_labels field) +:+
      def_name field +:+ (if def_is_optional field then "?" else "") +:+ ": " +:+ text +:+ default_text +:+ ";").

(** The lines that are printed, up to the first field that has no type. *)
Fixpoint each_line {A} (f : A -> list string * result unit) (l : list A) : list string * result unit :=
  match l with
  | [] => ([], Ok tt)
  | x :: l =>
      let '(lines, r) := f x in
      match r with
      | Ok _ => let '(rest, r) := each_line f l in (lines ++ rest, r)
      | r => (lines, r)
      end
  end.

Definition describe_field_lines (field : FieldDefinition) : list string * result unit :=
  match describe_line field with Ok line => ([line], Ok tt) | Err e => ([], Err e) | Panic p => ([], Panic p) end.
Definition describe_type_lines (def : TypeDefinition) : list string * result unit :=
  let '(lines, r) := each_line describe_field_lines (td_field_defs def) in
  (("  class " +:+ td_name def +:+ " {") :: lines ++ match r with Ok _ => ["  }"] | _ => [] end, r).
Definition describe_version_lines (def : VersionDefinition) : list string * result unit :=
  let '(lines, r) := each_line describe_type_lines (vd_type_defs def) in
  (("Version: " +:+ vd_version_id def +:+ " {") :: lines ++
   match r with
   | Ok _ => ((fun label => "  Label policy: " +:+ label) <$> vd_label_policy_defs def) ++ ["}"]
   | _ => []
   end, r).

(** ** Creating a project *)

Definition MANIFEST_FILE : string := "Chisel.toml".
Definition TYPES_DIR : string := "./models".
Definition ROUTES_DIR : string := "./routes".
Definition EVENTS_DIR : string := "./events".
Definition LIB_DIR : string := "./lib".
Definition POLICIES_DIR : string := "./policies".
Definition VSCODE_DIR : string := "./.vscode/".

(** What there is on the disk, under the names on the way to it. *)
Record Disk := { dk_dirs : gset (list string); dk_files : gmap (list string) string }.

(** The files of the templates and [handlebars], and what the disk allows: directories
    and files can always be made anew, or not. *)
Class ProjectLib := {
  include_template : string -> string;
  render : string -> list (string * string) -> result string;
  can_create_dir : string -> bool;
  can_write : string -> bool;
}.

Record CreateProjectOptions := { force : bool; examples : bool; optimize : bool; auto_index : bool }.

Definition exists_on (disk : Disk) (path : string) : bool :=
  bool_decide (components path ∈ dk_dirs disk \/ is_Some (dk_files disk !! components path)).

Definition project_exists (disk : Disk) (path : string) : bool :=
  existsb (fun x => exists_on disk (join path x)) [MANIFEST_FILE; TYPES_DIR; ROUTES_DIR; EVENTS_DIR; POLICIES_DIR].

Section Create.
Context {PL : ProjectLib}.

(** The steps of the creation, in order; the first that fails ends it. *)
Inductive CreateStep :=
  | MakeDir (path : string)
  | WriteFile (text : result string) (path : string).

(** All the directories on the way to a path. *)
Definition create_dir_all (path : string) (disk : Disk) : Disk :=
  {| dk_dirs := list_to_set ((fun n => take n (components path)) <$> seq 1 (List.length (components path))) ∪ dk_dirs disk;
     dk_files := dk_files disk |}.

Definition create_step (step : CreateStep) (disk : Disk) : Disk * result unit :=
  match step with
  | MakeDir path => if can_create_dir path then (create_dir_all path disk, Ok tt) else (disk, bail "could not create directory")
  | WriteFile text path =>
      match text with
      | Ok text =>
          if can_write path then
            ({| dk_dirs := dk_dirs disk; dk_files := <[components path := text]> (dk_files disk) |}, Ok tt)
          else (disk, bail "could not write file")
      | Err e => (disk, Err e)
      | Panic p => (disk, Panic p)
      end
  end.

Fixpoint create_steps (steps : list CreateStep) (disk : Disk) : Disk * result unit :=
  match steps with
  | [] => (disk, Ok tt)
  | step :: steps =>
      match create_step step disk with
      | (disk, Ok _) => create_steps steps disk
      | (disk, r) => (disk, r)
      end
  end.

Definition write_template (from to : string) (data : list (string * string)) (dir : string) : CreateStep :=
  WriteFile (render (include_template from) data) (join dir to).

(** The manifest, which is written over the rendered template. *)
Definition yes_no (b : bool) : string := if b then "yes" else "no".
Definition manifest_text (opts : CreateProjectOptions) : string :=
  include_template "Chisel.toml" +:+ "modules = " +:+ quoted "deno" +:+ newline +:+
  "optimize = " +:+ quoted (yes_no (optimize opts)) +:+ newline +:+
  "auto_index = " +:+ quoted (yes_no (auto_index opts)) +:+ newline.

Definition project_steps (project_name path : string) (opts : CreateProjectOptions) : list CreateStep :=
  let data := [("chiselVersion", "latest"); ("projectName", project_name)] in
  ((fun dir => MakeDir (join path dir)) <$> [TYPES_DIR; ROUTES_DIR; EVENTS_DIR; LIB_DIR; POLICIES_DIR; VSCODE_DIR]) ++
  [write_template "package.json" "package.json" data path;
   write_template "tsconfig.json" "tsconfig.json" data path;
   write_template "Chisel.toml" "Chisel.toml" data path;
   write_template "gitignore" ".gitignore" data path;
   WriteFile (Ok (manifest_text opts)) (join path "Chisel.toml");
   write_template "settings.json" "settings.json" data (join path VSCODE_DIR)] ++
  (if examples opts then [write_template "hello.ts" "hello.ts" data (join path ROUTES_DIR)] else []).

(** [Path::file_name] *)
Definition file_name (path : string) : option string :=
  match last (components path) with
  | Some n => if String.eqb n ".." then None else Some n
  | None => None
  end.

Definition create_project (path : string) (opts : CreateProjectOptions) (disk : Disk) : Disk * result unit :=
  match option_bind _ _ to_str (file_name path) with
  | None => (disk, Panic "called `Option::unwrap()` on a `None` value")
  | Some project_name =>
      if negb (force opts) && project_exists disk path then
        (disk, bail "You cannot run `chisel init` on an existing ChiselStrike project")
      else create_steps (project_steps project_name path opts) disk
  end.

(** [chisel new]: the directory has to be a new one. *)
Definition cmd_new (path : string) (no_examples optimize auto_index : bool) (disk : Disk) : Disk * result unit :=
  if exists_on disk path then (disk, bail "Directory already exists. Use `chisel init` to initialize a project in the directory.")
  else if can_create_dir path then
    create_project path {| force := false; examples := negb no_examples; optimize := optimize; auto_index := auto_index |}
      {| dk_dirs := {[components path]} ∪ dk_dirs disk; dk_files := dk_files disk |}
  else (disk, bail "Unable to create a ChiselStrike project").
End Create.

(** ** Watching *)

Inductive WatchEvent :=
  | Modified (paths : list string)
  | OtherEvent
  | WatchError.

Definition tracked (manifest : Manifest) (cwd : string) : list string :=
  join cwd <$> (mf_models manifest ++ mf_policies manifest ++ mf_routes manifest ++ default [] (mf_events manifest)).

(** The first of the tracked paths that the path is below decides, whichever it is. *)
Fixpoint is_tracked (tracked : list string) (x : string) : result bool :=
  match tracked with
  | [] => Ok false
  | p :: tracked =>
      if path_starts_with x p then
        s ← unwrap (to_str x) "called `Option::unwrap()` on a `None` value"; Ok (negb (ignore_path s))
      else is_tracked tracked x
  end.

(** [Iterator::any] *)
Fixpoint any {A} (f : A -> result bool) (l : list A) : result bool :=
  match l with [] => Ok false | x :: l => b ← f x; if b : bool then Ok true else any f l end.

(** Whether the project is applied after an event. *)
Definition dev_event (tracked : list string) (event : WatchEvent) : result bool :=
  match event with
  | Modified paths => any (is_tracked tracked) paths
  | OtherEvent | WatchError => Ok false
  end.

(** ** The build in the style of Node *)

Abbreviation Files := (gmap string string).

(** The programs that are run: the type checker, the transformation of the copied
    routes, and the bundler. *)
Class NodeTools := {
  tsc_check : Files -> result unit;
  transform_in_place : string -> string -> Files -> result Files;
  esbuild : string -> Files -> result string;
}.

(** How far the compiler of a file is when the file is read: it has not written yet, has
    emptied it, or is done. *)
Inductive Seen := SeenBefore | SeenEmpty | SeenAfter.

Section Node.
Context {CL : ChiselcLib} {JT : JsonText} {NT : NodeTools}.

(** What the compiler writes, unless it fails. *)
Definition compiled (entities : list string) (code : string) : option string :=
  match chiselc_main code entities JavaScript with Ok js => Some js | _ => None end.

Definition copy_file (files : Files) (s : string * string) : result Files :=
  match files !! s.1 with
  | Some text => Ok (<[s.2 := text]> files)
  | None => bail "failed to copy source file to .gen directory"
  end.

(** The text of a file when the program reads it. *)
Definition read_while_compiling (optimize : bool) (entities : list string) (seen : Seen) (code : string) : string :=
  match compiled entities code with
  | Some js => if optimize then match seen with SeenBefore => code | SeenEmpty => "" | SeenAfter => js end else code
  | None => code
  end.

(** [preprocess_source], file after file; [seen] is how far the compiler of each is. *)
Fixpoint preprocess_sources (optimize auto_index : bool) (entities : list string) (files : Files) (seen : nat -> Seen)
    (paths : list string) : result (list IndexCandidate) :=
  match paths with
  | [] => Ok []
  | path :: paths =>
      candidates ←
        (if auto_index then
           code ← option_context (files !! path) "Could not read file";
           with_context (parse_indexes (read_while_compiling optimize entities (seen 0) code) entities)
             "Could not parse auto-indexing information from file"
         else Ok []);
      rest ← preprocess_sources optimize auto_index entities files (fun n => seen (S n)) paths;
      Ok (candidates ++ rest)
  end.

(** All compilers have ended, each with success. *)
Definition compile_in_place (optimize : bool) (entities : list string) (files : Files) (path : string) : result Files :=
  if optimize then
    match files !! path with
    | Some code =>
        match compiled entities code with
        | Some js => Ok (<[path := js]> files)
        | None => bail "chiselc returned errors"
        end
    | None => bail "chiselc returned errors"
    end
  else Ok files.

Definition node_apply (cwd : string) (files : Files) (seen : nat -> Seen) (routes : list FileRoute) (topics : list FileTopic)
    (entities : list string) (optimize auto_index type_check : bool)
    : result (list (string * string) * list IndexCandidate) :=
  _ ← (if type_check then with_context (tsc_check files) "Type-checking with tsc failed" else Ok tt);
  let route_gen_dir := join cwd ".routegen" in
  let event_gen_dir := join cwd ".eventgen" in
  gen_routes ← create_tmp_route_files cwd route_gen_dir routes;
  files ← foldM copy_file files (zip (fr_file_path <$> routes) (fr_file_path <$> gen_routes));
  gen_topics ← create_tmp_topic_files cwd event_gen_dir topics;
  files ← foldM copy_file files (zip (ft_file_path <$> topics) (ft_file_path <$> gen_topics));
  files ← transform_in_place cwd route_gen_dir files;
  let paths := (fr_file_path <$> gen_routes) ++ (ft_file_path <$> gen_topics) in
  index_candidates ← preprocess_sources optimize auto_index entities files seen paths;
  files ← foldM (compile_in_place optimize entities) files paths;
  let import_fn path := option_context (to_str path) "Path is not valid UTF-8" in
  root_code ← with_context (codegen_root_module import_fn gen_routes gen_topics)
                "Could not generate code for file-based routing and event topics";
  bundled_code ← with_context (esbuild root_code files) "Could not bundle routes with esbuild (using node-style modules)";
  Ok ([("file:///__root.ts", bundled_code)], index_candidates).
End Node.
