(* ===== verification/CliSpec.v ===== *)
(** * What the commands do to a project

    The creation of a project leaves alone what is not its own, watched changes are
    applied, and the result of a build does not depend on how fast its compilers are
    - but for the indexes it proposes. *)

From S2P Require Import Prelude Json Apply Rpc Models Project ProjectSpec CliApply Cli.

(** ** Creation *)

Section Create.
Context {PL : ProjectLib}.

Lemma components_join_relative dir p : is_relative p = true -> components (join dir p) = components dir ++ components p.
Proof.
  intros Hp. unfold join. rewrite Hp. destruct (str_is_empty dir) eqn:E; [by destruct dir|]. cbn [negb orb].
  destruct (ends_with dir "/") eqn:Es; [|by rewrite components_sep].
  assert (strip_suffix "/" dir <> None) as Hs by (unfold strip_suffix; by rewrite Es).
  destruct (strip_suffix "/" dir) as [r|] eqn:Er; [|done]. apply strip_suffix_some in Er as ->.
  rewrite str_app_assoc, components_sep. change "/" with ("/" +:+ ""). rewrite components_sep.
  by rewrite app_nil_r.
Qed.

(** The files of a project. *)
Definition project_files (path : string) (opts : CreateProjectOptions) : list (list string) :=
  (fun f => components path ++ f) <$>
    [["package.json"]; ["tsconfig.json"]; ["Chisel.toml"]; [".gitignore"]; [".vscode"; "settings.json"]] ++
    (if examples opts then [["routes"; "hello.ts"]] else []).

Lemma project_names :
  components "package.json" = ["package.json"] /\ components "tsconfig.json" = ["tsconfig.json"] /\
  components "Chisel.toml" = ["Chisel.toml"] /\ components ".gitignore" = [".gitignore"] /\
  components "settings.json" = ["settings.json"] /\ components "hello.ts" = ["hello.ts"] /\
  components VSCODE_DIR = [".vscode"] /\ components ROUTES_DIR = ["routes"].
Proof. repeat split; vm_compute; reflexivity. Qed.

Lemma project_file path opts f names : names ∈ [["package.json"]; ["tsconfig.json"]; ["Chisel.toml"]; [".gitignore"]; [".vscode"; "settings.json"]] \/
  names = ["routes"; "hello.ts"] /\ examples opts = true -> f = components path ++ names -> f ∈ project_files path opts.
Proof.
  intros H ->. unfold project_files. apply (list_elem_of_fmap_2 (fun f => components path ++ f)). rewrite elem_of_app.
  destruct H as [H|[-> ->]]; [by left|right; by left].
Qed.

Definition written_by (step : CreateStep) : option (list string) :=
  match step with MakeDir _ => None | WriteFile _ path => Some (components path) end.

Lemma project_steps_write name path opts step f : step ∈ project_steps name path opts -> written_by step = Some f ->
  f ∈ project_files path opts.
Proof.
  destruct project_names as (E1 & E2 & E3 & E4 & E5 & E6 & E7 & E8).
  unfold project_steps, write_template. rewrite !elem_of_app.
  intros [(d & -> & _)%list_elem_of_fmap|[H|H]] Hf; [done| |].
  - repeat (apply elem_of_cons in H as [->|H]); [..|by apply elem_of_nil in H]; cbn [written_by] in Hf; injection Hf as <-;
      (eapply project_file; [left|rewrite !components_join_relative by done; rewrite ?E1, ?E2, ?E3, ?E4, ?E5, ?E7;
        rewrite <- ?app_assoc; reflexivity]); set_solver.
  - destruct (examples opts) eqn:He; [|by apply elem_of_nil in H]. apply list_elem_of_singleton in H as ->.
    cbn [written_by] in Hf. injection Hf as <-. eapply project_file; [by right|].
    rewrite !components_join_relative by done. by rewrite E6, E8, <- app_assoc.
Qed.

Lemma create_step_frame step disk : let disk' := (create_step step disk).1 in
  dk_dirs disk ⊆ dk_dirs disk' /\
  forall f, written_by step <> Some f -> dk_files disk' !! f = dk_files disk !! f.
Proof.
  destruct step as [path|text path]; cbn [create_step written_by].
  - destruct (can_create_dir path); [|done]. split; [set_solver|done].
  - destruct text as [text|e|p]; [|done|done]. destruct (can_write path); [|done]. split; [done|].
    intros f Hf. apply lookup_insert_ne. congruence.
Qed.

Lemma create_steps_frame steps disk : let disk' := (create_steps steps disk).1 in
  dk_dirs disk ⊆ dk_dirs disk' /\
  forall f, (forall step, step ∈ steps -> written_by step <> Some f) -> dk_files disk' !! f = dk_files disk !! f.
Proof.
  revert disk. induction steps as [|step steps IH]; intros disk; [done|]. cbn [create_steps].
  pose proof (create_step_frame step disk) as [Hd Hf]. destruct (create_step step disk) as [disk1 [u|e|p]]; cbn zeta in *; cbn [fst] in *.
  - destruct (IH disk1) as [Hd' Hf']. split; [set_solver|]. intros f Hn. rewrite Hf'; [|intros s Hs; apply Hn; by right].
    apply Hf, Hn. by left.
  - split; [done|]. intros f Hn. apply Hf, Hn. by left.
  - split; [done|]. intros f Hn. apply Hf, Hn. by left.
Qed.

Lemma create_steps_app s1 s2 disk disk2 : create_steps (s1 ++ s2) disk = (disk2, Ok tt) ->
  exists disk1, create_steps s1 disk = (disk1, Ok tt) /\ create_steps s2 disk1 = (disk2, Ok tt).
Proof.
  revert disk. induction s1 as [|s s1 IH]; intros disk H; [by exists disk|]. cbn [app create_steps] in *.
  destruct (create_step s disk) as [disk1 [[]| |]]; [|done|done]. by apply IH.
Qed.

Definition manifest_path (path : string) : list string := components path ++ ["Chisel.toml"].

(** Nothing is written over the manifest. *)
Lemma project_steps_manifest name path opts : exists s1 s2,
  project_steps name path opts = s1 ++ WriteFile (Ok (manifest_text opts)) (join path "Chisel.toml") :: s2 /\
  forall step, step ∈ s2 -> written_by step <> Some (manifest_path path).
Proof.
  destruct project_names as (_ & _ & _ & _ & E5 & E6 & E7 & E8).
  unfold project_steps. set (dirs := _ <$> _). set (data := [_; _]). set (hello := if examples opts then _ else _).
  exists (dirs ++ [write_template "package.json" "package.json" data path; write_template "tsconfig.json" "tsconfig.json" data path;
                   write_template "Chisel.toml" "Chisel.toml" data path; write_template "gitignore" ".gitignore" data path]),
         (write_template "settings.json" "settings.json" data (join path VSCODE_DIR) :: hello).
  split; [by rewrite <- app_assoc|]. intros step Hs [= Hf]. revert Hf.
  assert (forall a b, components path ++ [a; b] <> manifest_path path) as Hne.
  { intros a b H%app_inv_head. done. }
  apply elem_of_cons in Hs as [->|Hs]; cbn [written_by write_template].
  - rewrite !components_join_relative by done. rewrite E5, E7, <- app_assoc. intros [= H]. by eapply Hne.
  - unfold hello in Hs. destruct (examples opts); [|by apply elem_of_nil in Hs]. apply list_elem_of_singleton in Hs as ->.
    cbn [written_by write_template]. rewrite !components_join_relative by done. rewrite E6, E8, <- app_assoc.
    intros [= H]. by eapply Hne.
Qed.

Lemma created_manifest name path opts disk disk' : create_steps (project_steps name path opts) disk = (disk', Ok tt) ->
  dk_files disk' !! manifest_path path = Some (manifest_text opts).
Proof.
  destruct (project_steps_manifest name path opts) as (s1 & s2 & -> & Hs2). intros H.
  apply create_steps_app in H as (disk1 & _ & H). cbn [create_steps create_step] in H.
  destruct (can_write (join path "Chisel.toml")); [|done].
  match type of H with create_steps s2 ?d = _ => pose proof (create_steps_frame s2 d) as [_ Hf] end.
  rewrite H in Hf. cbn [fst] in Hf. rewrite (Hf _ Hs2). cbn [dk_files].
  rewrite components_join_relative by done. destruct project_names as (_ & _ & -> & _). apply lookup_insert_eq.
Qed.

(** Creating a project never touches an existing one unless it is forced to; and then
    too it removes nothing and changes no file but those of the project. When it
    succeeds, the manifest is the one with the options that were asked for, and the
    project exists, so that it is not created again. *)
Theorem create_project_spec path opts disk name : option_bind _ _ to_str (file_name path) = Some name ->
  let '(disk', r) := create_project path opts disk in
  (force opts = false -> project_exists disk path = true ->
     disk' = disk /\ r = bail "You cannot run `chisel init` on an existing ChiselStrike project") /\
  dk_dirs disk ⊆ dk_dirs disk' /\
  (forall f, f ∉ project_files path opts -> dk_files disk' !! f = dk_files disk !! f) /\
  (r = Ok tt -> dk_files disk' !! manifest_path path = Some (manifest_text opts) /\ project_exists disk' path = true).
Proof.
  intros Hname. unfold create_project. rewrite Hname.
  destruct (negb (force opts) && project_exists disk path) eqn:E; [done|].
  pose proof (create_steps_frame (project_steps name path opts) disk) as [Hd Hf].
  pose proof (created_manifest name path opts disk) as Hm.
  destruct (create_steps _ _) as [disk' r]. cbn zeta in Hd, Hf. cbn [fst] in Hd, Hf. split.
  { intros Hforce Hex. by rewrite Hforce, Hex in E. }
  split; [done|]. split.
  - intros f Hnot. apply Hf. intros step Hs Hw. by eapply Hnot, project_steps_write.
  - intros ->. specialize (Hm disk' eq_refl). split; [done|]. unfold project_exists. cbn [existsb]. unfold exists_on at 1.
    rewrite components_join_relative by done. destruct project_names as (_ & _ & E3 & _). unfold MANIFEST_FILE. rewrite E3.
    rewrite bool_decide_eq_true_2; [done|]. right. by eexists.
Qed.
End Create.

Module CreateSample.
#[export] Instance lib : ProjectLib :=
  {| include_template f := f; render text _ := Ok text; can_create_dir _ := true; can_write _ := true |}.
Definition opts : CreateProjectOptions := {| force := false; examples := true; optimize := true; auto_index := false |}.
Definition disk : Disk := {| dk_dirs := {[ ["app"] ]}; dk_files := {[ ["app"; "README"] := "mine" ]} |}.
End CreateSample.

Lemma create_project_spec_witness :
  let '(disk', r) := create_project (PL := CreateSample.lib) "/app" CreateSample.opts CreateSample.disk in
  r = Ok tt /\ dk_files disk' !! manifest_path "/app" = Some (manifest_text (PL := CreateSample.lib) CreateSample.opts) /\
  dk_files disk' !! ["app"; "README"] = Some "mine".
Proof.
  pose proof (create_project_spec (PL := CreateSample.lib) "/app" CreateSample.opts CreateSample.disk "app" eq_refl) as H.
  assert ((create_project (PL := CreateSample.lib) "/app" CreateSample.opts CreateSample.disk).2 = Ok tt) as Hr by (vm_compute; reflexivity).
  destruct (create_project (PL := CreateSample.lib) _ _ _) as [disk' r]. cbn [snd] in Hr. subst r.
  destruct H as (_ & _ & Hf & Hm). split; [done|]. split; [by apply Hm|]. rewrite Hf; [done|].
  intros Hin. revert Hin. apply (bool_decide_unpack _). vm_compute. exact I.
Defined.

(** ** Watching *)

(** Of an absolute path only the end is looked at: files editors lock or save by themselves
    are not told apart. *)
Lemma ignore_absolute x : is_relative x = false -> ignore_path x = ends_with x "~".
Proof.
  unfold is_relative, ignore_path. intros Hx%negb_false_iff. destruct x as [|c x]; [done|]. cbn in Hx.
  destruct (Ascii.eqb_spec "/" c) as [<-|]; [|done]. cbn [starts_with]. by rewrite orb_false_r.
Qed.

Definition below_tracked (tracked : list string) (x : string) : Prop := exists p, p ∈ tracked /\ path_starts_with x p = true.

Lemma is_tracked_spec tracked x b : is_tracked tracked x = Ok b ->
  (b = true <-> below_tracked tracked x /\ ignore_path x = false).
Proof.
  unfold below_tracked. induction tracked as [|p tracked IH]; cbn [is_tracked]; intros H.
  - injection H as <-. split; [done|]. by intros [(p & ?%elem_of_nil & _) _].
  - destruct (path_starts_with x p) eqn:E.
    + unfold to_str in H. destruct (valid_utf8 x); [|done]. cbn in H. injection H as <-. rewrite negb_true_iff.
      split; [|by intros [_ ?]]. intros ->. split; [|done]. exists p. split; [by left|done].
    + rewrite (IH H). apply and_iff_compat_r. split; intros (q & Hq & Hs); exists q; (split; [|done]); [by right|].
      apply elem_of_cons in Hq as [->|?]; [congruence|done].
Qed.

Lemma is_tracked_ok tracked x : to_str x <> None -> exists b, is_tracked tracked x = Ok b.
Proof.
  intros Hx. induction tracked as [|p tracked IH]; cbn [is_tracked]; [by eexists|].
  destruct (path_starts_with x p); [|done]. destruct (to_str x); [by eexists|done].
Qed.

(** While a project is developed, it is applied again exactly after the changes of a
    file in the directories of its models, policies, routes and events, unless the name
    ends in a tilde. *)
Theorem dev_event_spec tracked paths : Forall (fun x => to_str x <> None /\ is_relative x = false) paths ->
  exists b, dev_event tracked (Modified paths) = Ok b /\
    (b = true <-> exists x, x ∈ paths /\ below_tracked tracked x /\ ends_with x "~" = false).
Proof.
  cbn [dev_event]. induction 1 as [|x paths [Hx Hr] _ IH]; cbn [any].
  - exists false. split; [done|]. split; [done|]. by intros (x & ?%elem_of_nil & _).
  - destruct (is_tracked_ok tracked x Hx) as [b Hb]. pose proof (is_tracked_spec _ _ _ Hb) as Hs. rewrite Hb. cbn [mbind outcome_bind].
    rewrite ignore_absolute in Hs by done. destruct b.
    + exists true. split; [done|]. split; [|done]. intros _. exists x. split; [by left|by apply Hs].
    + destruct IH as (b & -> & IH). exists b. split; [done|]. rewrite IH.
      split; intros (y & Hy & Hd); exists y; (split; [|done]); [by right|].
      apply elem_of_cons in Hy as [->|?]; [|done]. by apply Hs in Hd.
Qed.

Definition dev_manifest : Manifest :=
  {| mf_models := ["models"]; mf_routes := ["./routes"]; mf_events := None; mf_policies := ["policies"];
     mf_modules := DenoModules; mf_optimize := true; mf_auto_index := false |}.

Lemma dev_event_spec_witness : exists b,
  dev_event (tracked dev_manifest "/app") (Modified ["/app/README"; "/app/routes/.#books.ts"]) = Ok b /\
  (b = true <-> exists x, x ∈ ["/app/README"; "/app/routes/.#books.ts"] /\
     below_tracked (tracked dev_manifest "/app") x /\ ends_with x "~" = false).
Proof.
  apply (dev_event_spec (tracked dev_manifest "/app") ["/app/README"; "/app/routes/.#books.ts"]).
  by repeat constructor.
Defined.

(** A file an editor locks while it is open is a change. *)
Lemma lock_file_applies : dev_event (tracked dev_manifest "/app") (Modified ["/app/routes/.#books.ts"]) = Ok true.
Proof. reflexivity. Qed.

(** ** The build in the style of Node *)

Section Node.
Context {CL : ChiselcLib} {JT : JsonText} {NT : NodeTools}.

Lemma bind_ext {A B} (m : result A) (f g : A -> result B) : (forall x, f x = g x) -> m ≫= f = m ≫= g.
Proof. intros H. destruct m; [apply H|done..]. Qed.

(** What was read: the text of a file or of its compiled form, or nothing. *)
Lemma read_while_compiling_cases optimize entities seen code :
  let text := read_while_compiling optimize entities seen code in
  text = code \/ optimize = true /\ exists js, compiled entities code = Some js /\ (text = "" \/ text = js).
Proof.
  unfold read_while_compiling. destruct (compiled entities code) as [js|]; [|by left]. destruct optimize; [|by left].
  destruct seen; [by left| |]; right; (split; [done|]); exists js; auto.
Qed.

Lemma preprocess_sources_seen optimize auto_index entities files seen1 seen2 paths : optimize && auto_index = false ->
  preprocess_sources optimize auto_index entities files seen1 paths = preprocess_sources optimize auto_index entities files seen2 paths.
Proof.
  intros Ho. revert seen1 seen2. induction paths as [|path paths IH]; intros seen1 seen2; [done|]. cbn [preprocess_sources].
  rewrite (IH _ (fun n => seen2 (S n))). destruct auto_index; [|done]. rewrite andb_true_r in Ho. subst optimize.
  unfold read_while_compiling. destruct (files !! path) as [code|]; [|done]. cbn. by destruct (compiled entities code).
Qed.

(** The modules of a build do not depend on how far its compilers are while the program
    goes on, and neither does anything else unless both optimisation and automatic
    indexes are asked for. *)
Theorem node_apply_timing cwd files seen1 seen2 routes topics entities optimize auto_index type_check :
  let build seen := node_apply cwd files seen routes topics entities optimize auto_index type_check in
  (optimize && auto_index = false -> build seen1 = build seen2) /\
  (forall m1 c1 m2 c2, build seen1 = Ok (m1, c1) -> build seen2 = Ok (m2, c2) -> m1 = m2).
Proof.
  cbn zeta. unfold node_apply. split.
  - intros Ho. repeat (apply bind_ext; intros ?). by rewrite (preprocess_sources_seen _ _ _ _ seen1 seen2 _ Ho).
  - intros m1 c1 m2 c2 H1 H2. inv_ok. congruence.
Qed.
End Node.
